(* ===== verification/_CoqProject ===== *)
-Q . S2P
Prelude.v
Gf2Tables.v
Gf2Field.v
Gf2_192.v
Gf2_192Poly.v
SigmaBoolean.v
ConcreteCrypto.v
ProofTree.v
Prover.v
SigSerializer.v
Verifier.v
ProverTotal.v
SigmaSteps.v
SigmaCommit.v
SigmaRespond.v
SigmaComplete.v
SigmaSound.v
Vlq.v
Codecs.v
SigmaSerial.v
FiatShamir.v
BigNum.v
Header.v
Autolykos.v
Merkle.v
MerkleBatch.v
MerkleSerial.v
Types.v
TypeSerial.v
TypeParse.v
StateLogic.v
Expr.v
Value.v
EvalOps.v
Eval.v
EvalTotal.v
EvalTyping.v
EvalTypedOps.v
EvalSound.v
EvalEquality.v
Reduce.v
EvalConcrete.v
BigIntSerial.v
DataSerial.v
DataParse.v
ContextExt.v
ExprSerial.v
ExprBack.v
ExprParse.v
TreeSerial.v
TreeBack.v
TreeSubst.v
Spend.v
Emission.v
Tokens.v
BoxSelector.v
BoxBuilder.v
TxBuilder.v
TxContext.v
StorageRent.v
TxValidate.v
EvalLimit.v
Signing.v
TxConcrete.v
Nipopow.v
NipopowVerify.v
NipopowProve.v
