(* ===== verification/Prelude.v ===== *)
(** * Verification of parts of the Rust implementation of ErgoTree, its sigma protocols and its wallet

    The repository implements the Ergo platform's contract language and what a client needs around it: the
    intermediate representation ErgoTree with its serialization (src/ergotree-ir/), its interpreter with the sigma
    protocol prover and verifier (src/ergotree-interpreter/), the field GF(2^192) of threshold proofs
    (src/gf2_192/), variable-length integers (src/sigma-ser/), chain types (src/ergo-chain-types/), Merkle trees
    (src/ergo-merkle-tree/), NiPoPoW proofs (src/ergo-nipopow/), and wallet and transactions (src/ergo-lib/). This
    library models the parts listed below as executable definitions, named as in the source, and proves what makes
    them correct. This file holds the results and monads, the machine integers and the lemmas the others share.

    ** The parts and their files

    - The field: Gf2Field is the reference, polynomials over GF(2) modulo x^192 + x^7 + x^2 + x + 1 as integers; Gf2_192
      models gf2_192.rs (three signed 64-bit words, nibble tables, power tables of Gf2Tables) and Gf2_192Poly
      gf2_192poly.rs. Threshold proofs take their challenges from such polynomials.
    - Propositions: SigmaBoolean models sigma_boolean.rs with the reductions of AND, OR and thresholds, over the
      interface [SigmaCrypto] to external code (the secp256k1 group and its scalars of crate k256, blake2b256, the
      random generator) and its laws [SigmaCryptoLaws]; ConcreteCrypto is an instance that computes.
    - Proofs: ProofTree models the trees of sigma_protocol/ and the string that is hashed; Prover the steps 0 to 9 of
      prover.rs with hints; SigSerializer the proof bytes and generate_proof; Verifier verifier.rs. The prover calls
      the field, the propositions and the tree; the verifier parses the bytes the serializer wrote.
    - Formats: Vlq models vlq_encode.rs and zig_zag_encode.rs, with the interface [Codec] of a writer and a reader that
      take each other back; Codecs composes codecs and says what parsers promise on any bytes; SigmaSerial
      is the serialization of propositions, TypeSerial that of types, with the nesting level of sigma_byte_reader.rs.
    - Data as bytes: BigIntSerial has the shortest bytes of 256-bit integers (bigint256.rs, unsignedbigint256.rs), DataSerial
      the values of every type with what writing them costs (serialization/data.rs, avl_tree_data.rs, and the accumulator of
      sigma_byte_writer.rs), DataParse what their parser promises on any bytes and constants (serialization/constant.rs),
      ContextExt the extension of an input (chain/context_extension.rs, evaluated_value.rs) with the order of its entries,
      which from five entries on is the one of an immutable hash map of Scala 2.12.
    - Expressions and trees as bytes: ExprSerial has the op codes, the writers and parsers of the nodes of Expr, which are
      spread over mir/*.rs and joined in serialization/expr.rs, the packed pair of booleans (bin_op.rs) and what is checked
      and cast when a node is built (check_build.rs); ExprBack proves the round trip, ExprParse what the parser promises on
      any bytes. TreeSerial models the header, the tree with its size and segregated constants, what becomes of a tree that
      does not parse, and the replacement of constants in the bytes (ergo_tree.rs, tree_header.rs); TreeBack has the round
      trip and the parser on any bytes, TreeSubst the replacement. The parser's state is the reader with the types of the
      variables read so far (val_def_type_store.rs), the writer's the constants it takes out (constant_store.rs).
    - Types: Types models the type descriptors of types/stype.rs, their substitution and unification.
    - Headers and proof of work: BigNum models the conversions of big integers to bytes, Header the serialization of
      block headers and Autolykos solutions (ergo-chain-types/src/header.rs), Autolykos autolykos_pow_scheme.rs and the
      check of a header's proof of work.
    - The interpreter: Expr has the nodes of mir/ and the types they report, Value the values, collections and errors,
      EvalOps the operations on values with their charges (equality, arithmetic, casts), StateLogic the rules to reason
      about its state monad, and Eval the evaluation of each node (eval/*.rs), lambdas, blocks and environments. EvalTotal,
      EvalTyping, EvalTypedOps, EvalSound and EvalEquality prove termination, type soundness and equality; Reduce is
      the reduction of a tree to a proposition (eval.rs) and EvalConcrete runs scripts.
    - Spending: Spend composes the interpreter with the prover and the verifier as Prover::prove and Verifier::verify do.
    - Merkle trees: Merkle models merkletree.rs and merkleproof.rs, MerkleBatch and MerkleSerial batchmerkleproof.rs, over
      any hash function with digests of 32 bytes.
    - NiPoPoW proofs: Nipopow models interlinks and their packing in a block's extension, and the levels, scores and last
      common header of chains (ergo-nipopow/src/nipopow_algos.rs), NipopowVerify the proofs with their checks and
      comparison and the verifier (nipopow_proof.rs, nipopow_verifier.rs), NipopowProve the update of interlinks and the
      provers on a chain and on a store of headers (popow_header_reader.rs). They use Header, Autolykos and MerkleBatch.
    - Emission: Emission models chain/emission.rs.
    - Wallet: Tokens models box values, token amounts and the sums over boxes; BoxSelector the selection of
      wallet/box_selector/simple.rs; BoxBuilder the box candidate builder; TxBuilder wallet/tx_builder.rs, which checks
      what a selection gives it.
    - Transactions: TxContext models signed and unsigned transactions, the voted parameters, TransactionContext
      (wallet/tx_context.rs) and the script context of an input (wallet/signing.rs); StorageRent transaction/storage_rent.rs;
      TxValidate the validation of a transaction with its costs (crypto_cost.rs), which runs the interpreter and the
      verifier on each input; Signing models wallet/signing.rs, the hints of a transaction (wallet.rs) and reduced
      transactions (transaction/reduced.rs); EvalLimit relates a run under a limit to the run without one; TxConcrete has
      boxes and a state on which all this computes.

    ** Conventions

    A Rust [Result] is [result], an [Option] is [option]; a panic is an error constructor ([panic] or one of the
    component's error type) or [None]. State that is threaded (the random generator, the reader's position) is
    [stateE]. An integer of w bits is a [Z] with its wrap-around ([wrap_u], [wrap_s]) or its overflow check written out;
    bytes are [Z]s from 0 to 255. Recursion over trees uses fuel where the source recurses on something
    rewritten; the theorems that generation, parsing and checking end show that it is enough for every input. A HashMap
    is a [gmap]; where its order of iteration shows, the order is the parameter [HashOrder].

    ** What is shown

    - The field: every operation is the one of the reference field, tables included ([multiply_correct],
      [power_correct], [invert_correct]); interpolation goes through its points ([interpolate_correct]).
    - Completeness and soundness of proofs: what the prover makes for a proposition it can prove, the verifier accepts
      ([proof_verifies], through SigmaSteps, SigmaCommit and SigmaRespond); without the secrets it fails with the stated
      error ([unprovable_refused]); it always ends ([generate_proof_total], ProverTotal); a proof is accepted exactly
      where its bytes are read as a tree that agrees with the proposition and hashes to its own challenge ([proves],
      [accepted_proof]); two such trees give witnesses
      ([special_soundness], [leaf_soundness]); the hashed string is unambiguous ([fiat_shamir_unambiguous]).
    - Formats: round trips, shortest forms, behaviour on every input, safety of parsing on any bytes.
    - Data: a value of every type parses back, up to the id of a header, at the stated cost ([data_roundtrip]); whatever parses
      from any bytes has its type, fits and is written back, or fails without a panic ([data_parse_sound]); extensions of inputs
      parse back as maps ([extension_roundtrip]), and what is written does not depend on the order they were filled in
      ([extension_order]). Strings that are no UTF-8 are not refused ([lossy_differ]), a header whose version is
      negative as a signed byte is charged for fields it does not have ([negative_version_charged]).
    - Expressions: one whose every node is what the parser's checks make of its parts ([built]) is written and its bytes parse
      to it ([expr_roundtrip]); any bytes give an expression, which is a built one if it means its bytes ([writable]), or
      a failure that is no panic ([expr_parse_sound]). What does not: names of type variables that are no UTF-8, data of
      headers, a pair of collections that the parser takes for bits ([compared_bools_misread]) and the like ([writable]); [count_wraps], [cast_not_written], [deeper_when_written] and
      [new_drops_cast] are the edges.
    - Trees: the same for trees with their constants ([tree_roundtrip], [tree_parse_sound]), where a tree of a known size that
      does not parse keeps its bytes unless its error is one that escapes ([failed_builds_degrade] are builds that do not);
      replacing constants in the bytes gives the bytes of the tree with them ([substitute_constants_tree]).
    - Types: unification is sound and most general where one side is concrete; parsing gives well-formed types.
    - Headers: the round trip, and on any bytes the id of the parsed header is the hash of exactly its bytes; the check of
      proof of work accepts exactly what it should and never panics, and the hit is the one of the paper's algorithm
      ([header_roundtrip], [header_parse_sound], [check_pow_correct], [pow_hit_refines], [calc_big_n_bounds]).
    - The interpreter: a typed expression evaluates to a value of its type or fails for a value met at run time
      ([eval_sound]); with a cost limit every expression ends ([eval_terminates]; without one some do not,
      [unlimited_diverges]); the charges of equality do not change its answer ([eq_with_cost_correct]); reduction
      of typed trees ([reduce_to_crypto_sound]); [retry_accepts] is a tree that the second evaluation lets through.
    - Spending: a script whose proposition the prover can prove is spent ([spend_complete]), and a spent script has a
      proof whose bytes prove, in the sense of [accepted_proof], what it reduces to ([spend_sound]).
    - Merkle trees: proofs of one or several leaves are complete, and binding up to an explicit collision.
    - NiPoPoW: on a chain that keeps its interlinks the prover's proof passes all checks and has what it should
      ([prove_valid]); the verifier keeps a valid proof that no later one beats ([verifier_best]); the score is the paper's
      ([best_arg_correct]); comparing is asymmetric for one parameter m ([better_scores], [better_asymmetric]); interlinks
      pack and unpack ([interlinks_roundtrip]). The lemmas at the end of Nipopow and NipopowProve are where levels below
      zero, a difficulty of zero, a short chain, m = 0 and a circular store lead ([negative_level_panics],
      [zero_difficulty_panics], [prove_underflow], [reader_zero_panics], [collect_level_loops], [interlinks_unbound]).
    - Emission: no overflow, each block's split, the totals.
    - Wallet: a selection preserves coins and tokens, succeeds when the inputs are enough and otherwise reports what
      they lack; a built transaction balances ([tx_preserves]), and all that can refuse one on the matching selection is
      listed ([refused]): it is never its coins or tokens, but may be a box of change below the minimum for its size
      ([selection_builds], [change_too_low]).
    - Transactions: contexts are made for every input ([tx_context_correct]); a transaction that validation accepts keeps
      coins and tokens ([validated_preserves]) and each of its inputs is authorised within the block's cost
      ([validated_inputs]); spending by storage rent is what it should be where its 32-bit arithmetic is exact
      ([rent_verdict_correct]). A signed transaction passes the checks of its inputs' proofs ([signed_verifies]), and
      validation refuses it for nothing but coins, outputs and costs ([signed_validates]); reducing it first and
      signing without a context is the same ([reduced_signs]). TxConcrete shows what the checks let through: values above i64
      ([negative_value_accepted]), boxes that are not spent ([unspent_boxes_counted]), amounts out of range
      ([amounts_unchecked]), and a transaction that is signed though its rent verdict is a final no ([signed_in_vain]).

    Each component's last lemmas apply its theorems to concrete inputs, with all hypotheses evaluated.

    ** Bounds and fuel

    [sigma_parse_fuel], the type parser and that of expressions recurse with the 110 levels the reader allows; the tree rewritings of the
    prover with the size of the tree; the checks of Merkle proofs with the number of levels; the loop of the emission
    rules with the last height at which a positive reward is possible (with a reduction of zero coins the source's
    loop ends only in an overflow, and the model runs out of fuel); the score of a chain with its highest level, above which
    no header is left; the prover on a chain with the number of levels. The walk over a store of headers has the fuel as an
    argument: it ends where interlinks lead down ([collect_level_ends]), and otherwise need not. Sums of u64 in the wallet are checked: an overflow is
    a panic, as in builds with overflow checks. The
    evaluator recurses with a fuel that [enough_fuel] computes from the cost limit and the size of the expression: each
    application of a lambda costs at least one unit.

    ** External code

    k256, blake2b256 and the random generator are [SigmaCrypto]; its parsing of points is [SigmaCryptoParsing]; the hash
    of Merkle trees is a parameter; the standard library's check of UTF-8 is [from_utf8_is_ok], defined in
    TypeSerial by its documented table. The big integers of
    num_bigint and of k256's scalars are [NumBigint] and [ScalarModulus] (BigNum), the 256-bit integers of bnum [Bnum],
    SHA-256 [Sha256]; [HashIter] is the order of a hash map's iteration, and [ErgoBoxData] the boxes the evaluator passes
    around without looking inside; the platform's
    floating-point logarithm, of which only the range of its conversion to i32 is used, is [F64]; [ErgoBoxes] is what transactions use of boxes, with the law that a box made of a candidate
    has its fields. The byte conversions of bnum are [BnumBytes]; [BoxSerial] is the writer of boxes inside data, without laws
    (their parser is not modelled, below), and
    [EvaluatedExprs] the expressions an extension may hold besides constants. The scripts, addresses and bytes of boxes and
    transactions are parameters without laws: their own source is not modelled.

    ** What is not modelled, and why

    The interpreter lacks the nodes on the contents of boxes, method and property calls, AVL trees, context variables,
    SubstConstants, DecodePoint, Exponentiate, SigmaPropBytes and deserialization. Reduce assumes that the values of the
    context's extension convert, and that printing a tree for an error message does not change it.

    The same nodes are missing from the serialization of expressions: at one of their op codes the model's parser stops with an
    error of its own, [SpUnmodelledNode], which always escapes, so that the theorems say nothing about such a tree. In the
    same way it stops with [SpUnmodelledBox] where the data of a box begins: the source goes on to parse a tree inside the
    box on the same reader, and when that tree degrades the levels it had entered stay on the reader (tests of
    ergo_tree.rs), so that nothing general can be assumed of this parser. The bytes of boxes and transactions, NiPoPoW proofs, source spans, the hints of several signers and key derivation are left out for their size.
    Bindings, the REST client and the peer-to-peer crate are input and output; JSON forms, display, test support and the
    ErgoScript compiler, an early prototype, carry no behaviour of the protocol. *)

From Stdlib Require Export Ring Eqdep_dec ZArith Lia.
From stdpp Require Export base tactics list option numbers sets.

#[global] Open Scope Z_scope.

(** * Results and the two monads of the development *)

(** Rust's [Result<A, E>]. *)
Inductive result (E A : Type) : Type :=
| Ok (a : A)
| Err (e : E).
Arguments Ok {E A} _.
Arguments Err {E A} _.

Definition result_map_err {E E' A} (f : E -> E') (r : result E A) : result E' A :=
  match r with Ok a => Ok a | Err e => Err (f e) end.

#[export] Instance result_ret E : MRet (result E) := fun A a => Ok a.
#[export] Instance result_bind E : MBind (result E) :=
  fun A B f r => match r with Ok a => f a | Err e => Err e end.
#[export] Instance result_fmap E : FMap (result E) :=
  fun A B f r => match r with Ok a => Ok (f a) | Err e => Err e end.

Definition ok_or {E A} (o : option A) (e : E) : result E A :=
  match o with Some a => Ok a | None => Err e end.

(** A Rust panic, and the fuel of a loop, which the theorems show is enough. *)
Inductive panic : Type := Panicked | OutOfFuel.

Definition guard_or {E} (b : bool) (e : E) : result E unit :=
  if b then Ok tt else Err e.

(** [collect::<Result<Vec<_>, _>>()] over a mapped iterator. *)
Section mapM_res.
Context {E A B : Type} (f : A -> result E B).
Fixpoint mapM_res (l : list A) : result E (list B) :=
  match l with
  | [] => Ok []
  | x :: l => y ← f x; ys ← mapM_res l; Ok (y :: ys)
  end.
End mapM_res.

(** A computation over a state that may fail; a failed run has no final state. *)
Definition stateE (S E A : Type) : Type := S -> result E (A * S).

#[export] Instance stateE_ret S E : MRet (stateE S E) := fun A a s => Ok (a, s).
#[export] Instance stateE_bind S E : MBind (stateE S E) :=
  fun A B f m s => match m s with Ok (a, s') => f a s' | Err e => Err e end.
#[export] Instance stateE_fmap S E : FMap (stateE S E) :=
  fun A B f m s => match m s with Ok (a, s') => Ok (f a, s') | Err e => Err e end.

Definition fail {S E A} (e : E) : stateE S E A := fun _ => Err e.
Definition liftE {S E A} (r : result E A) : stateE S E A :=
  fun s => match r with Ok a => Ok (a, s) | Err e => Err e end.
Definition getS {S E} : stateE S E S := fun s => Ok (s, s).
Definition putS {S E} (s : S) : stateE S E unit := fun _ => Ok (tt, s).

Section mapM_st.
Context {S E A B : Type} (f : A -> stateE S E B).
Fixpoint mapM_st (l : list A) : stateE S E (list B) :=
  match l with
  | [] => mret []
  | x :: l => y ← f x; ys ← mapM_st l; mret (y :: ys)
  end.
End mapM_st.

(** The results of a function on three lists, element by element. *)
Section map3.
Context {A B D R : Type} (f : A -> B -> D -> R).
Fixpoint map3 (l : list A) (k : list B) (m : list D) : list R :=
  match l, k, m with
  | x :: l, y :: k, z :: m => f x y z :: map3 l k m
  | _, _, _ => []
  end.
End map3.

(** [iter.enumerate()] starting at [i]. *)
Fixpoint enumerate_from {A} (i : nat) (l : list A) : list (nat * A) :=
  match l with
  | [] => []
  | x :: l => (i, x) :: enumerate_from (S i) l
  end.
Abbreviation enumerate := (enumerate_from 0).

Create HintDb sigma discriminated.
Create Rewrite HintDb sigma_rw.

Lemma bind_Ok_inv {E A B} (r : result E A) (f : A -> result E B) b :
  r ≫= f = Ok b -> exists a, r = Ok a /\ f a = Ok b.
Proof. destruct r; cbn; naive_solver. Qed.

Lemma st_bind_Ok {S E A B} (m : stateE S E A) (f : A -> stateE S E B) s b s2 :
  (m ≫= f) s = Ok (b, s2) -> exists a s1, m s = Ok (a, s1) /\ f a s1 = Ok (b, s2).
Proof. unfold mbind, stateE_bind. destruct (m s) as [[a s1]|e]; [|done]. by exists a, s1. Qed.

Lemma liftE_Ok {S E A} (r : result E A) (s : S) a s' : liftE r s = Ok (a, s') -> r = Ok a /\ s' = s.
Proof. unfold liftE. destruct r; naive_solver. Qed.

(** An accepting result, as a boolean that evaluates. *)
Definition is_ok_true {E} (r : result E bool) : bool :=
  match r with Ok b => b | Err _ => false end.

Lemma is_ok_true_spec {E} (r : result E bool) : is_ok_true r = true -> r = Ok true.
Proof. destruct r as [[]|]; done. Qed.

Section result_lemmas.
Context {E A B : Type}.

Lemma ok_or_Ok (o : option A) (e : E) a : ok_or o e = Ok a <-> o = Some a.
Proof. destruct o; cbn; naive_solver. Qed.

Lemma mapM_res_length (f : A -> result E B) l l' :
  mapM_res f l = Ok l' -> length l' = length l.
Proof.
  revert l'. induction l as [|x l IH]; intros l' H; cbn in H; [by simplify_eq|].
  apply bind_Ok_inv in H as (y & _ & H). apply bind_Ok_inv in H as (ys & H & ?).
  simplify_eq. cbn. by rewrite (IH _ H).
Qed.

Lemma mapM_res_Forall2 (f : A -> result E B) l l' :
  mapM_res f l = Ok l' <-> Forall2 (fun x y => f x = Ok y) l l'.
Proof.
  split.
  - revert l'. induction l as [|x l IH]; intros l' H; cbn in H; [by simplify_eq; constructor|].
    apply bind_Ok_inv in H as (y & Hy & H). apply bind_Ok_inv in H as (ys & H & ?).
    simplify_eq. constructor; eauto.
  - induction 1 as [|x y l l' H _ IH]; cbn; [done|]. by rewrite H, IH.
Qed.
End result_lemmas.

(** Case analysis on a successful run: [res_inv H] turns [H : m ≫= f = Ok b] into the
    value of [m] and the run of [f], as often as it applies. *)
Ltac res_inv H :=
  match type of H with
  | mbind _ _ = Ok _ =>
      let a := fresh "a" in let Ha := fresh "Ha" in
      apply bind_Ok_inv in H as (a & Ha & H); res_inv H
  | _ => idtac
  end.

(** The same for a stateful run. *)
Ltac st_inv H :=
  match type of H with
  | mbind _ _ _ = Ok _ =>
      let a := fresh "a" in let s := fresh "s" in let Ha := fresh "Ha" in
      apply st_bind_Ok in H as (a & s & Ha & H); st_inv H
  | mret _ _ = Ok _ => unfold mret, stateE_ret in H; injection H as <- <-
  | _ => idtac
  end.

(** * Machine integers: [w]-bit values as [Z] with the wrap-around written out *)

Definition wrap_u (w z : Z) : Z := z mod 2 ^ w.
Definition wrap_s (w z : Z) : Z := (z + 2 ^ (w - 1)) mod 2 ^ w - 2 ^ (w - 1).
Definition in_u (w z : Z) : Prop := 0 <= z < 2 ^ w.
Definition in_s (w z : Z) : Prop := - 2 ^ (w - 1) <= z < 2 ^ (w - 1).
#[global] Typeclasses Opaque in_u in_s.

Definition byte_list (l : list Z) : Prop := Forall (in_u 8) l.

Lemma wrap_u_id w z : in_u w z -> wrap_u w z = z.
Proof. intros H. by apply Z.mod_small. Qed.

Lemma wrap_u_range w z : 0 <= w -> in_u w (wrap_u w z).
Proof. intros H. apply Z.mod_pos_bound. lia. Qed.

Lemma pow2_half w : 0 < w -> 2 ^ w = 2 * 2 ^ (w - 1).
Proof. intros H. rewrite <- Z.pow_succ_r by lia. f_equal. lia. Qed.

Lemma wrap_s_id w z : 0 < w -> in_s w z -> wrap_s w z = z.
Proof.
  intros Hw [H1 H2]. unfold wrap_s. rewrite Z.mod_small; [lia|].
  rewrite (pow2_half w) by done. lia.
Qed.

Lemma wrap_s_range w z : 0 < w -> in_s w (wrap_s w z).
Proof.
  intros Hw. unfold wrap_s, in_s.
  pose proof (Z.mod_pos_bound (z + 2 ^ (w - 1)) (2 ^ w) ltac:(lia)) as H.
  rewrite (pow2_half w) in * by done. lia.
Qed.

Lemma wrap_s_mod w z : 0 < w -> wrap_s w z mod 2 ^ w = z mod 2 ^ w.
Proof.
  intros Hw. unfold wrap_s.
  rewrite Zminus_mod_idemp_l. f_equal. lia.
Qed.

Lemma wrap_s_testbit_low w z i :
  0 <= i < w -> Z.testbit (wrap_s w z) i = Z.testbit z i.
Proof.
  intros H. rewrite <- (Z.mod_pow2_bits_low _ w) by lia.
  rewrite wrap_s_mod by lia. by rewrite Z.mod_pow2_bits_low by lia.
Qed.

Lemma wrap_u_testbit w z i :
  0 <= w -> Z.testbit (wrap_u w z) i = (i <? w) && Z.testbit z i.
Proof.
  intros Hw. unfold wrap_u. destruct (Z.ltb_spec i w).
  - by rewrite Z.mod_pow2_bits_low by lia.
  - by rewrite Z.mod_pow2_bits_high by lia.
Qed.

Lemma in_u_testbit_high w z i : 0 <= w -> in_u w z -> w <= i -> Z.testbit z i = false.
Proof.
  intros Hw Hz Hi. rewrite <- (wrap_u_id w z Hz), wrap_u_testbit by done.
  by destruct (Z.ltb_spec i w); [lia|].
Qed.

(** Two unsigned words are equal when their low bits are. *)
Lemma in_u_bits_eq w a b :
  0 <= w -> in_u w a -> in_u w b ->
  (forall i, 0 <= i < w -> Z.testbit a i = Z.testbit b i) -> a = b.
Proof.
  intros Hw Ha Hb H. apply Z.bits_inj'. intros i Hi.
  destruct (Z.ltb_spec i w); [apply H; lia|].
  by rewrite !(in_u_testbit_high w) by done.
Qed.

(** So are two signed words. *)
Lemma in_s_bits_eq w a b :
  0 < w -> in_s w a -> in_s w b ->
  (forall i, 0 <= i < w -> Z.testbit a i = Z.testbit b i) -> a = b.
Proof.
  intros Hw Ha Hb H.
  rewrite <- (wrap_s_id w a), <- (wrap_s_id w b) by done.
  unfold wrap_s. f_equal.
  enough (a mod 2 ^ w = b mod 2 ^ w) as Heq.
  { by rewrite <- Zplus_mod_idemp_l, Heq, Zplus_mod_idemp_l. }
  apply (in_u_bits_eq w); [lia|apply wrap_u_range; lia..|].
  intros i Hi. rewrite !Z.mod_pow2_bits_low by lia. by apply H.
Qed.

Lemma in_u_of_bits w a :
  0 <= w -> 0 <= a -> (forall i, w <= i -> Z.testbit a i = false) -> in_u w a.
Proof.
  intros Hw Ha H. enough (a = a mod 2 ^ w) as ->.
  { by apply (wrap_u_range w a). }
  apply Z.bits_inj'. intros i Hi. destruct (Z.ltb_spec i w).
  - by rewrite Z.mod_pow2_bits_low by lia.
  - rewrite Z.mod_pow2_bits_high by lia. by apply H.
Qed.

(** Rewriting with the bits of each operation. *)
#[export] Hint Rewrite Z.lxor_spec Z.land_spec Z.lor_spec : sigma_rw.

(** * List lemmas *)

Lemma length_enumerate_from {A} (i : nat) (l : list A) :
  length (enumerate_from i l) = length l.
Proof. revert i. induction l; intros i; cbn; [done|]. by rewrite IHl. Qed.

Lemma lookup_enumerate_from {A} (i n : nat) (l : list A) :
  enumerate_from i l !! n = (fun x => ((i + n)%nat, x)) <$> l !! n.
Proof.
  revert i n. induction l as [|x l IH]; intros i [|n]; cbn; try done.
  - by rewrite Nat.add_0_r.
  - rewrite IH. by rewrite <- Nat.add_succ_comm.
Qed.

Lemma snd_enumerate_from {A} (i : nat) (l : list A) : snd <$> enumerate_from i l = l.
Proof. revert i. induction l; intros i; cbn; [done|]. by rewrite IHl. Qed.

Lemma Forall_lookup_total_default {A} `{!Inhabited A} (P : A -> Prop) (l : list A) (i : nat) :
  Forall P l -> P inhabitant -> P (l !!! i).
Proof.
  intros Hl Hd. rewrite list_lookup_total_alt. destruct (l !! i) as [x|] eqn:E; [|done].
  by eapply (proj1 (Forall_lookup P l)).
Qed.

(** Signed words are closed under the bit operations. *)
Lemma in_s_shiftr w a : 0 < w -> in_s w a <-> Z.shiftr a (w - 1) = 0 \/ Z.shiftr a (w - 1) = -1.
Proof.
  intros Hw. unfold in_s. rewrite Z.shiftr_div_pow2 by lia.
  pose proof (Z.pow_pos_nonneg 2 (w - 1) ltac:(lia) ltac:(lia)) as Hp.
  revert Hp. generalize (2 ^ (w - 1)) as p. intros p Hp.
  pose proof (Z.div_mod a p ltac:(lia)) as Hd. pose proof (Z.mod_pos_bound a p Hp) as Hm.
  split.
  - intros [H1 H2]. assert (-2 < a / p < 1) by nia. lia.
  - intros [H|H]; rewrite H in Hd; lia.
Qed.

Lemma in_s_lxor w a b : 0 < w -> in_s w a -> in_s w b -> in_s w (Z.lxor a b).
Proof.
  intros Hw. rewrite !in_s_shiftr, Z.shiftr_lxor by done.
  intros [-> | ->] [-> | ->]; cbn; auto.
Qed.

Lemma in_s_lor w a b : 0 < w -> in_s w a -> in_s w b -> in_s w (Z.lor a b).
Proof.
  intros Hw. rewrite !in_s_shiftr, Z.shiftr_lor by done.
  intros [-> | ->] [-> | ->]; cbn; auto.
Qed.

Lemma in_s_0 w : 0 < w -> in_s w 0.
Proof. intros Hw. unfold in_s. pose proof (Z.pow_pos_nonneg 2 (w - 1)). lia. Qed.

(** Ranges of literal tables, checked by evaluation. *)
Lemma Forall_in_s_check w l :
  forallb (fun z => (- 2 ^ (w - 1) <=? z) && (z <? 2 ^ (w - 1))) l = true -> Forall (in_s w) l.
Proof.
  intros H. apply Forall_forall. intros z Hz%list_elem_of_In.
  rewrite forallb_forall in H. specialize (H z Hz). unfold in_s. lia.
Qed.

(** * Loops *)

(** An invariant of the step is one of the loop. *)
Lemma fold_left_inv {A B} (P : A -> Prop) (f : A -> B -> A) l s :
  P s -> (forall s x, P s -> P (f s x)) -> P (fold_left f l s).
Proof. revert s. induction l; cbn; auto. Qed.

(** Two loop bodies that agree under an invariant. *)
Lemma fold_left_ext_inv {A B} (P : A -> Prop) (f g : A -> B -> A) l s :
  P s -> (forall s x, x ∈ l -> P s -> f s x = g s x /\ P (g s x)) ->
  fold_left f l s = fold_left g l s.
Proof.
  revert s. induction l as [|x l IH]; intros s Hs H; [done|]. cbn.
  destruct (H s x) as [-> HP]; [left|done|]. apply IH; [done|].
  intros s' y Hy. apply H. by right.
Qed.

Lemma fold_left_rev {A B} (g : A -> B -> A) l a :
  fold_left g (rev l) a = foldr (fun x acc => g acc x) a l.
Proof. rewrite <- (rev_involutive l) at 2. by rewrite fold_left_rev_right. Qed.

(** * Integers as byte strings *)

Fixpoint le_bytes (n : nat) (z : Z) : list Z :=
  match n with
  | O => []
  | S n => z mod 256 :: le_bytes n (z / 256)
  end.

Fixpoint le_val (l : list Z) : Z :=
  match l with
  | [] => 0
  | b :: l => b + 256 * le_val l
  end.

Definition be_bytes (n : nat) (z : Z) : list Z := reverse (le_bytes n z).
Definition be_val (l : list Z) : Z := le_val (reverse l).

Lemma length_le_bytes n z : length (le_bytes n z) = n.
Proof. revert z. induction n; intros z; cbn; [done|]. by rewrite IHn. Qed.

Lemma length_be_bytes n z : length (be_bytes n z) = n.
Proof. unfold be_bytes. by rewrite length_reverse, length_le_bytes. Qed.

Lemma le_bytes_range n z : byte_list (le_bytes n z).
Proof.
  revert z. induction n as [|n IH]; intros z; cbn [le_bytes]; constructor; [|apply IH].
  by apply (wrap_u_range 8).
Qed.

Lemma be_bytes_range n z : byte_list (be_bytes n z).
Proof. apply Forall_reverse, le_bytes_range. Qed.

Lemma le_val_bytes n z : 0 <= z < 256 ^ Z.of_nat n -> le_val (le_bytes n z) = z.
Proof.
  revert z. induction n as [|n IH]; intros z Hz; cbn [le_bytes le_val].
  - change (256 ^ Z.of_nat 0) with 1 in Hz. lia.
  - rewrite Nat2Z.inj_succ, Z.pow_succ_r in Hz by lia.
    rewrite IH; [pose proof (Z.div_mod z 256); lia|].
    split; [apply Z.div_pos; lia|]. apply Z.div_lt_upper_bound; lia.
Qed.

Lemma be_val_bytes n z : 0 <= z < 256 ^ Z.of_nat n -> be_val (be_bytes n z) = z.
Proof. intros Hz. unfold be_val, be_bytes. rewrite reverse_involutive. by apply le_val_bytes. Qed.

Lemma le_val_range l : byte_list l -> 0 <= le_val l < 256 ^ Z.of_nat (length l).
Proof.
  induction 1 as [|b l Hb _ IH]; cbn [le_val length]; [done|].
  rewrite Nat2Z.inj_succ, Z.pow_succ_r by lia. unfold in_u in Hb. change (2 ^ 8) with 256 in Hb. lia.
Qed.

Lemma le_bytes_val l : byte_list l -> le_bytes (length l) (le_val l) = l.
Proof.
  induction 1 as [|b l Hb _ IH]; cbn [le_val length le_bytes]; [done|].
  unfold in_u in Hb. change (2 ^ 8) with 256 in Hb. f_equal.
  - rewrite Z.mul_comm, Z.mod_add, Z.mod_small by lia. done.
  - rewrite Z.mul_comm, Z.div_add, Z.div_small by lia. by rewrite Z.add_0_l.
Qed.

(** * Traversals that succeed *)

Lemma mapM_st_map {S E A B D} (f : B -> stateE S E D) (g : A -> B) l s :
  mapM_st f (map g l) s = mapM_st (fun x => f (g x)) l s.
Proof.
  revert s. induction l as [|x l IH]; intros s; [done|]. cbn [map mapM_st].
  unfold mbind, stateE_bind in *. destruct (f (g x) s) as [[y s1]|e]; [|done]. by rewrite IH.
Qed.

(** Each step of a stateful traversal succeeds from any state, with a related result. *)
Lemma mapM_st_succeeds {S E A B} (f : A -> stateE S E B) (Q : A -> B -> Prop) l s :
  Forall (fun x => forall s, exists y s', f x s = Ok (y, s') /\ Q x y) l ->
  exists ys s', mapM_st f l s = Ok (ys, s') /\ Forall2 Q l ys.
Proof.
  intros H. revert s. induction H as [|x l Hx _ IH]; intros s.
  - exists [], s. by split; [|constructor].
  - destruct (Hx s) as (y & s1 & Hy & HQ). destruct (IH s1) as (ys & s2 & Hys & HQs).
    exists (y :: ys), s2. cbn [mapM_st]. unfold mbind, stateE_bind, mret, stateE_ret.
    rewrite Hy, Hys. by split; [|constructor].
Qed.

(** A stateful traversal of a list related to another one, element by element. *)
Lemma mapM_st_related {S E I A B} (f : A -> stateE S E B) (R : I -> A -> Prop)
    (Q : I -> A -> B -> Prop) items l s :
  Forall2 R items l ->
  Forall (fun it => forall a s, R it a -> exists b s', f a s = Ok (b, s') /\ Q it a b) items ->
  exists bs s', mapM_st f l s = Ok (bs, s') /\ Forall3 Q items l bs.
Proof.
  intros H Hf. revert s. induction H as [|it a items l Ha _ IH]; intros s.
  - exists [], s. by split; [|constructor].
  - apply Forall_cons in Hf as [H1 H2]. destruct (H1 a s Ha) as (b & s1 & Hb & HQ).
    destruct (IH H2 s1) as (bs & s2 & Hbs & HQs).
    exists (b :: bs), s2. cbn [mapM_st]. unfold mbind, stateE_bind, mret, stateE_ret.
    rewrite Hb, Hbs. by split; [|constructor].
Qed.

Lemma mapM_res_succeeds {E A B} (f : A -> result E B) (g : A -> B) l :
  Forall (fun x => f x = Ok (g x)) l -> mapM_res f l = Ok (g <$> l).
Proof.
  induction 1 as [|x l Hx _ IH]; cbn [mapM_res]; [done|].
  unfold mbind, result_bind. by rewrite Hx, IH.
Qed.

Lemma Forall2_same_length_fmap {A B} (Q : A -> B -> Prop) l k :
  Forall2 Q l k -> length k = length l.
Proof. intros H. symmetry. by eapply Forall2_length. Qed.

Lemma max_list_with_le {A} (f : A -> nat) l n :
  (max_list_with f l <= n)%nat <-> Forall (fun x => (f x <= n)%nat) l.
Proof.
  induction l as [|x l IH]; cbn [max_list_with].
  - split; [constructor|lia].
  - rewrite Forall_cons, <- IH. lia.
Qed.

Lemma elem_max_list_with {A} (f : A -> nat) l x : x ∈ l -> (f x <= max_list_with f l)%nat.
Proof. intros Hx. by apply (proj1 (Forall_forall _ l) (proj1 (max_list_with_le f l _) (le_n _))). Qed.
