(* ===== verification/Gf2Field.v ===== *)
(** The field GF(2^192) as polynomials over GF(2) modulo x^192 + x^7 + x^2 + x + 1.

    An element is an integer below 2^192 whose bit [i] is the coefficient of x^i; addition is
    [Z.lxor]. This file is the reference that the word-level code of the gf2_192 crate
    (file Gf2_192) is proved against: multiplication by x, Horner multiplication, the ring
    laws, the Frobenius map, and the proof that every nonzero element is invertible. *)

From S2P Require Import Prelude.

(** * Linear maps *)

Definition linear (f : Z -> Z) : Prop :=
  forall a b, f (Z.lxor a b) = Z.lxor (f a) (f b).

Lemma linear_0 f : linear f -> f 0 = 0.
Proof.
  intros Hf. pose proof (Hf 0 0) as H. rewrite Z.lxor_0_l in H.
  rewrite H at 1. apply Z.lxor_nilpotent.
Qed.

Lemma linear_comp f g : linear f -> linear g -> linear (fun a => f (g a)).
Proof. intros Hf Hg a b. by rewrite Hg, Hf. Qed.

Lemma linear_lxor f g : linear f -> linear g -> linear (fun a => Z.lxor (f a) (g a)).
Proof.
  intros Hf Hg a b. rewrite Hf, Hg. apply Z.bits_inj'. intros i _.
  rewrite !Z.lxor_spec. by destruct (Z.testbit (f a) i), (Z.testbit (f b) i),
    (Z.testbit (g a) i), (Z.testbit (g b) i).
Qed.

Lemma linear_id : linear (fun a => a).
Proof. by intros a b. Qed.

Lemma linear_bit i c : linear (fun a => if Z.testbit a i then c else 0).
Proof.
  intros a b. rewrite Z.lxor_spec.
  destruct (Z.testbit a i), (Z.testbit b i); cbn;
    by rewrite ?Z.lxor_nilpotent, ?Z.lxor_0_r, ?Z.lxor_0_l.
Qed.

Lemma linear_shl k : 0 <= k -> linear (fun a => Z.shiftl a k).
Proof. intros Hk a b. by rewrite Z.shiftl_lxor. Qed.

Lemma linear_land m : linear (fun a => Z.land a m).
Proof.
  intros a b. apply Z.bits_inj'. intros i _.
  rewrite Z.lxor_spec, !Z.land_spec, Z.lxor_spec.
  by destruct (Z.testbit a i), (Z.testbit b i), (Z.testbit m i).
Qed.

Lemma linear_iter n f : linear f -> linear (Nat.iter n f).
Proof.
  intros Hf. induction n as [|n IH]; intros a b; [done|].
  change (f (Nat.iter n f (Z.lxor a b)) = Z.lxor (f (Nat.iter n f a)) (f (Nat.iter n f b))).
  by rewrite (IH a b), Hf.
Qed.

(** Splitting off the top bit of a number below 2^(n+1). *)
Lemma split_top_bit n a :
  0 <= n -> in_u (n + 1) a ->
  exists r, in_u n r /\ a = Z.lxor r (if Z.testbit a n then 2 ^ n else 0).
Proof.
  intros Hn Ha. exists (a mod 2 ^ n). split; [apply wrap_u_range; lia|].
  apply Z.bits_inj'. intros i Hi. rewrite Z.lxor_spec.
  destruct (decide (i = n)) as [->|].
  - rewrite Z.mod_pow2_bits_high by lia.
    destruct (Z.testbit a n); by rewrite ?Z.pow2_bits_true, ?Z.bits_0 by lia.
  - destruct (Z.ltb_spec i n).
    + rewrite Z.mod_pow2_bits_low by lia.
      destruct (Z.testbit a n); rewrite ?Z.pow2_bits_false, ?Z.bits_0 by lia;
        by rewrite xorb_false_r.
    + rewrite Z.mod_pow2_bits_high by lia.
      rewrite (in_u_testbit_high (n + 1) a) by (done || lia).
      destruct (Z.testbit a n); by rewrite ?Z.pow2_bits_false, ?Z.bits_0 by lia.
Qed.

(** Linear maps that agree on the powers of two below 2^n agree below 2^n. *)
Lemma linear_ext (n : nat) f g :
  linear f -> linear g ->
  (forall i, (i < n)%nat -> f (2 ^ Z.of_nat i) = g (2 ^ Z.of_nat i)) ->
  forall a, in_u (Z.of_nat n) a -> f a = g a.
Proof.
  intros Hf Hg. induction n as [|n IH]; intros H a Ha.
  - assert (a = 0) as -> by (unfold in_u in Ha; lia). by rewrite (linear_0 f), (linear_0 g) by done.
  - destruct (split_top_bit (Z.of_nat n) a) as (r & Hr & Heq); [lia| |].
    { by replace (Z.of_nat n + 1) with (Z.of_nat (S n)) by lia. }
    rewrite Heq, Hf, Hg, (IH ltac:(intros; apply H; lia) r Hr).
    destruct (Z.testbit a (Z.of_nat n)); [|by rewrite (linear_0 f), (linear_0 g) by done].
    by rewrite H by lia.
Qed.

Abbreviation fe := (in_u 192).

Corollary linear_ext192 f g :
  linear f -> linear g ->
  (forall i, (i < 192)%nat -> f (2 ^ Z.of_nat i) = g (2 ^ Z.of_nat i)) ->
  forall a, fe a -> f a = g a.
Proof. apply (linear_ext 192). Qed.

(** The same, the powers of two checked by evaluation. *)
Corollary linear_check192 f g :
  linear f -> linear g ->
  forallb (fun i => f (2 ^ Z.of_nat i) =? g (2 ^ Z.of_nat i)) (seq 0 192) = true ->
  forall a, fe a -> f a = g a.
Proof.
  intros Hf Hg H. apply linear_ext192; [done..|]. intros i Hi.
  rewrite forallb_forall in H. apply Z.eqb_eq, H, in_seq. lia.
Qed.

(** * Multiplication by x *)

(** x^7 + x^2 + x + 1, which is x^192 in the field. *)
Definition pentanomial : Z := 135.

Definition mulx (a : Z) : Z :=
  Z.lxor (Z.land (Z.shiftl a 1) (Z.ones 192)) (if Z.testbit a 191 then pentanomial else 0).

Definition mulxn (n : nat) (a : Z) : Z := Nat.iter n mulx a.
Arguments mulxn : simpl never.

Lemma mulxn_S n a : mulxn (S n) a = mulx (mulxn n a).
Proof. reflexivity. Qed.

Lemma mulx_linear : linear mulx.
Proof.
  apply linear_lxor; [|apply linear_bit].
  apply (linear_comp (fun a => Z.land a (Z.ones 192)) (fun a => Z.shiftl a 1));
    [apply linear_land|by apply linear_shl].
Qed.

Lemma fe_lxor a b : fe a -> fe b -> fe (Z.lxor a b).
Proof.
  intros Ha Hb. apply in_u_of_bits; [lia| |].
  - apply Z.lxor_nonneg. unfold in_u in *; lia.
  - intros i Hi. rewrite Z.lxor_spec. by rewrite !(in_u_testbit_high 192) by (done || lia).
Qed.

Lemma fe_land_ones a : fe (Z.land a (Z.ones 192)).
Proof. rewrite Z.land_ones by lia. by apply (wrap_u_range 192 a). Qed.

Lemma fe_mulx a : fe (mulx a).
Proof.
  apply fe_lxor; [apply fe_land_ones|].
  by destruct (Z.testbit a 191).
Qed.

Lemma fe_mulxn n a : fe a -> fe (mulxn n a).
Proof. destruct n; [done|]. intros _. apply fe_mulx. Qed.

#[export] Hint Resolve fe_lxor fe_mulx fe_mulxn mulx_linear linear_iter : sigma.

Lemma mulx_pow2 i : (i < 191)%nat -> mulx (2 ^ Z.of_nat i) = 2 ^ Z.of_nat (S i).
Proof.
  intros Hi. unfold mulx. rewrite Z.pow2_bits_false by lia.
  rewrite Z.lxor_0_r, Z.shiftl_mul_pow2 by lia.
  rewrite Z.land_ones by lia. rewrite <- Z.pow_add_r by lia.
  replace (Z.of_nat i + 1) with (Z.of_nat (S i)) by lia.
  apply Z.mod_small. split; [lia|]. apply Z.pow_lt_mono_r; lia.
Qed.

Lemma pow2_mulxn i : (i < 192)%nat -> 2 ^ Z.of_nat i = mulxn i 1.
Proof.
  induction i as [|i IH]; intros Hi; [done|].
  rewrite mulxn_S, <- IH by lia. by rewrite mulx_pow2 by lia.
Qed.

Lemma mulxn_linear n : linear (mulxn n).
Proof. apply linear_iter, mulx_linear. Qed.
#[export] Hint Resolve mulxn_linear : sigma.

Lemma mulxn_add n m a : mulxn n (mulxn m a) = mulxn (n + m) a.
Proof. induction n; cbn [Nat.add]; rewrite ?mulxn_S; [done|]. by rewrite <- IHn. Qed.

Lemma mulxn_comm n m a : mulxn n (mulxn m a) = mulxn m (mulxn n a).
Proof. rewrite !mulxn_add. by rewrite Nat.add_comm. Qed.

(** * Multiplication: Horner's rule on the bits of the second factor *)

Fixpoint hmul (n : nat) (a b : Z) : Z :=
  match n with
  | O => 0
  | S n => Z.lxor (if Z.odd b then a else 0) (mulx (hmul n a (Z.div2 b)))
  end.

Definition gmul (a b : Z) : Z := hmul 192 a b.

Lemma fe_if (b : bool) a : fe a -> fe (if b then a else 0).
Proof. by destruct b. Qed.
#[export] Hint Resolve fe_if : sigma.

Lemma fe_hmul n a b : fe a -> fe (hmul n a b).
Proof. intros Ha. revert b. induction n; intros b; cbn; [done|]. auto with sigma. Qed.

Lemma fe_gmul a b : fe a -> fe (gmul a b).
Proof. apply fe_hmul. Qed.
#[export] Hint Resolve fe_hmul fe_gmul : sigma.

Lemma lxor_shuffle a b c d :
  Z.lxor (Z.lxor a b) (Z.lxor c d) = Z.lxor (Z.lxor a c) (Z.lxor b d).
Proof.
  rewrite !Z.lxor_assoc. f_equal. rewrite <- !Z.lxor_assoc. f_equal. apply Z.lxor_comm.
Qed.

Lemma hmul_linear_r n a : linear (hmul n a).
Proof.
  induction n as [|n IH]; intros b c; cbn; [done|].
  rewrite Z.div2_spec, Z.shiftr_lxor, <- !Z.div2_spec, IH, mulx_linear.
  rewrite <- Z.bit0_odd, Z.lxor_spec, !Z.bit0_odd. rewrite lxor_shuffle. f_equal.
  destruct (Z.odd b), (Z.odd c); cbn; by rewrite ?Z.lxor_nilpotent, ?Z.lxor_0_r, ?Z.lxor_0_l.
Qed.

Lemma hmul_linear_l n b : linear (fun a => hmul n a b).
Proof.
  revert b. induction n as [|n IH]; intros b a c; cbn; [done|].
  rewrite (IH (Z.div2 b) a c), mulx_linear, lxor_shuffle. f_equal.
  by destruct (Z.odd b); rewrite ?Z.lxor_0_r.
Qed.

Lemma gmul_linear_r a : linear (gmul a).
Proof. apply hmul_linear_r. Qed.
Lemma gmul_linear_l b : linear (fun a => gmul a b).
Proof. apply hmul_linear_l. Qed.
#[export] Hint Resolve gmul_linear_r gmul_linear_l : sigma.

Lemma hmul_0_r n a : hmul n a 0 = 0.
Proof. apply linear_0, hmul_linear_r. Qed.

Lemma hmul_pow2 n a i : (i < n)%nat -> hmul n a (2 ^ Z.of_nat i) = mulxn i a.
Proof.
  revert i. induction n as [|n IH]; intros [|i] Hi; [lia..| |].
  - cbn -[Z.pow]. rewrite hmul_0_r. rewrite (linear_0 mulx mulx_linear). by rewrite Z.lxor_0_r.
  - rewrite Nat2Z.inj_succ, Z.pow_succ_r by lia. cbn [hmul].
    rewrite Z.odd_mul, Z.div2_div, (Z.mul_comm 2 _), Z.div_mul by lia.
    change (Z.odd 2) with false. cbn [andb].
    by rewrite Z.lxor_0_l, IH by lia.
Qed.

Lemma gmul_pow2 a i : (i < 192)%nat -> gmul a (2 ^ Z.of_nat i) = mulxn i a.
Proof. apply hmul_pow2. Qed.

Lemma gmul_comm a b : fe a -> fe b -> gmul a b = gmul b a.
Proof.
  intros Ha Hb. revert b Hb.
  apply linear_ext192; [auto with sigma..|]. intros i Hi.
  rewrite gmul_pow2 by done. revert a Ha.
  apply linear_ext192; [auto with sigma..|]. intros j Hj.
  rewrite gmul_pow2 by done. rewrite !pow2_mulxn by done. apply mulxn_comm.
Qed.

Lemma gmul_1_r a : gmul a 1 = a.
Proof. change 1 with (2 ^ Z.of_nat 0). by rewrite gmul_pow2 by lia. Qed.

Lemma mulxn_mulx n a : mulxn n (mulx a) = mulx (mulxn n a).
Proof. apply (mulxn_comm n 1 a). Qed.

(** x^192 = x^7 + x^2 + x + 1 as operators. *)
Lemma mulxn_192 a : fe a -> mulx (mulxn 191 a) = gmul a pentanomial.
Proof.
  revert a. apply linear_ext192.
  { apply linear_comp; auto with sigma. }
  { apply gmul_linear_l. }
  intros i Hi. rewrite gmul_comm; [|split; [lia|apply Z.pow_lt_mono_r; lia]|done].
  rewrite gmul_pow2 by done.
  rewrite pow2_mulxn by done. rewrite <- mulxn_S, mulxn_comm.
  by f_equal.
Qed.

Lemma gmul_mulx_r a b : fe a -> fe b -> gmul a (mulx b) = mulx (gmul a b).
Proof.
  intros Ha. revert b. apply linear_ext192; [apply linear_comp; auto with sigma..|].
  intros i Hi. rewrite (gmul_pow2 a i) by done.
  destruct (decide (i = 191%nat)) as [->|].
  - rewrite mulxn_192 by done. f_equal.
  - rewrite mulx_pow2 by lia. by rewrite gmul_pow2 by lia.
Qed.

Lemma gmul_mulxn_r n a b : fe a -> fe b -> gmul a (mulxn n b) = mulxn n (gmul a b).
Proof.
  intros Ha Hb. induction n as [|n IH]; [done|]. rewrite mulxn_S.
  rewrite gmul_mulx_r; [|done|by apply fe_mulxn]. by rewrite mulxn_S, IH.
Qed.

Lemma gmul_assoc a b c : fe a -> fe b -> fe c -> gmul a (gmul b c) = gmul (gmul a b) c.
Proof.
  intros Ha Hb. revert c. apply linear_ext192.
  { apply linear_comp; auto with sigma. }
  { auto with sigma. }
  intros i Hi. rewrite !gmul_pow2 by done. by apply gmul_mulxn_r.
Qed.

(** * The elements as a type, with ring laws by Leibniz equality *)

Record F : Type := mkF { fv : Z; fv_range : (0 <=? fv) && (fv <? 2 ^ 192) = true }.

Lemma fe_fv a : fe (fv a).
Proof. destruct a as [v Hv]. cbn -[Z.pow] in *. unfold in_u. lia. Qed.
#[export] Hint Resolve fe_fv : sigma.

Lemma F_eq a b : fv a = fv b -> a = b.
Proof.
  destruct a as [a Ha], b as [b Hb]. cbn. intros ->. f_equal.
  apply UIP_dec, bool_dec.
Qed.

#[export] Instance F_eq_dec : EqDecision F.
Proof.
  intros a b. destruct (decide (fv a = fv b)) as [H|H]; [left|right].
  - by apply F_eq.
  - by intros ->.
Defined.

Lemma toF_range a : (0 <=? a mod 2 ^ 192) && (a mod 2 ^ 192 <? 2 ^ 192) = true.
Proof. pose proof (Z.mod_pos_bound a (2 ^ 192) ltac:(lia)). lia. Qed.

(** The element an integer stands for; the identity below 2^192. *)
Definition toF (a : Z) : F := mkF (a mod 2 ^ 192) (toF_range a).

Lemma fv_toF a : fe a -> fv (toF a) = a.
Proof. apply Z.mod_small. Qed.

Lemma toF_fv a : toF (fv a) = a.
Proof. apply F_eq, fv_toF, fe_fv. Qed.

Definition F0 : F := toF 0.
Definition F1 : F := toF 1.
Definition Fadd (a b : F) : F := toF (Z.lxor (fv a) (fv b)).
Definition Fmul (a b : F) : F := toF (gmul (fv a) (fv b)).
Definition Fopp (a : F) : F := a.

Declare Scope gf_scope.
Delimit Scope gf_scope with gf.
Bind Scope gf_scope with F.
Infix "+" := Fadd : gf_scope.
Infix "*" := Fmul : gf_scope.
Notation "0" := F0 : gf_scope.
Notation "1" := F1 : gf_scope.

Lemma fv_add a b : fv (a + b)%gf = Z.lxor (fv a) (fv b).
Proof. apply fv_toF. auto with sigma. Qed.
Lemma fv_mul a b : fv (a * b)%gf = gmul (fv a) (fv b).
Proof. apply fv_toF. auto with sigma. Qed.

Lemma F_self_add a : (a + a = 0)%gf.
Proof. apply F_eq. rewrite fv_add. by rewrite Z.lxor_nilpotent. Qed.

Lemma Fmul_comm a b : (a * b = b * a)%gf.
Proof. apply F_eq. rewrite !fv_mul. apply gmul_comm; auto with sigma. Qed.

Lemma F_ring_theory : ring_theory F0 F1 Fadd Fmul Fadd Fopp eq.
Proof.
  constructor; intros; apply F_eq; rewrite ?fv_add, ?fv_mul, ?fv_add, ?fv_mul.
  - apply Z.lxor_0_l.
  - apply Z.lxor_comm.
  - by rewrite Z.lxor_assoc.
  - rewrite gmul_comm by auto with sigma. apply gmul_1_r.
  - apply gmul_comm; auto with sigma.
  - rewrite ?fv_mul. by rewrite gmul_assoc by auto with sigma.
  - rewrite ?fv_add. apply (gmul_linear_l (fv z)).
  - done.
  - apply Z.lxor_nilpotent.
Qed.
Add Ring F_ring : F_ring_theory.

(** * Powers and the Frobenius map *)

Definition Fpow (a : F) (n : N) : F := N.iter n (Fmul a) F1.
Infix "^" := Fpow : gf_scope.

Section powers.
Local Open Scope gf_scope.
Implicit Types a b : F.

Lemma Fpow_0 a : a ^ 0%N = 1.
Proof. reflexivity. Qed.
Lemma Fpow_succ a n : a ^ (N.succ n) = a * a ^ n.
Proof. apply N.iter_succ. Qed.
Lemma Fpow_1 a : a ^ 1%N = a.
Proof. change (a * 1 = a). ring. Qed.

Lemma Fpow_add a n m : a ^ (n + m)%N = a ^ n * a ^ m.
Proof.
  induction n as [|n IH] using N.peano_ind; [rewrite Fpow_0, N.add_0_l; ring|].
  rewrite N.add_succ_l, !Fpow_succ, IH. ring.
Qed.

Lemma Fpow_mul_l a b n : (a * b) ^ n = a ^ n * b ^ n.
Proof.
  induction n as [|n IH] using N.peano_ind; [rewrite !Fpow_0; ring|].
  rewrite !Fpow_succ, IH. ring.
Qed.

Lemma Fpow_pow a n m : (a ^ n) ^ m = a ^ (n * m)%N.
Proof.
  induction m as [|m IH] using N.peano_ind; [by rewrite N.mul_0_r|].
  rewrite N.mul_succ_r, Fpow_succ, IH, N.add_comm, Fpow_add. done.
Qed.

Lemma Fpow_2 a : a ^ 2%N = a * a.
Proof. change (a * (a * 1) = a * a). ring. Qed.

(** Squaring is additive in characteristic two. *)
Lemma Fsq_add a b : (a + b) * (a + b) = a * a + b * b.
Proof.
  transitivity (a * a + (a * b + a * b) + b * b); [ring|]. rewrite F_self_add. ring.
Qed.

(** [frob n a] is a^(2^n). *)
Definition frob (n : nat) (a : F) : F := Nat.iter n (fun b => b * b) a.

Lemma frob_pow n a : frob n a = a ^ (2 ^ N.of_nat n)%N.
Proof.
  induction n as [|n IH]; [symmetry; apply Fpow_1|].
  change (frob n a * frob n a = a ^ (2 ^ N.of_nat (S n))%N).
  rewrite Nat2N.inj_succ, N.pow_succ_r', IH, <- Fpow_2, Fpow_pow. by rewrite N.mul_comm.
Qed.

Lemma frob_add n a b : frob n (a + b) = frob n a + frob n b.
Proof.
  induction n as [|n IH]; [done|].
  change (frob n (a + b) * frob n (a + b) = frob n a * frob n a + frob n b * frob n b).
  rewrite IH. apply Fsq_add.
Qed.

Lemma frob_frob n m a : frob n (frob m a) = frob (n + m) a.
Proof. symmetry. apply Nat.iter_add. Qed.
End powers.
#[global] Opaque Fpow.

(** * Linear maps given by a table of the images of the powers of x *)

Fixpoint tapply (t : list Z) (v : Z) : Z :=
  match t with
  | [] => 0
  | c :: t => Z.lxor (if Z.odd v then c else 0) (tapply t (Z.div2 v))
  end.

Lemma tapply_linear t : linear (tapply t).
Proof.
  induction t as [|c t IH]; intros a b; cbn; [done|].
  rewrite Z.div2_spec, Z.shiftr_lxor, <- !Z.div2_spec, IH.
  rewrite <- Z.bit0_odd, Z.lxor_spec, !Z.bit0_odd. rewrite lxor_shuffle. f_equal.
  destruct (Z.odd a), (Z.odd b); cbn; by rewrite ?Z.lxor_nilpotent, ?Z.lxor_0_r, ?Z.lxor_0_l.
Qed.

Lemma tapply_pow2 t i : tapply t (2 ^ Z.of_nat i) = nth i t 0.
Proof.
  revert i. induction t as [|c t IH]; intros i; [by destruct i|].
  destruct i as [|i].
  - change (2 ^ Z.of_nat 0) with 1. cbn. rewrite (linear_0 _ (tapply_linear t)).
    by rewrite Z.lxor_0_r.
  - rewrite Nat2Z.inj_succ, Z.pow_succ_r by lia. cbn [tapply nth].
    rewrite Z.odd_mul, Z.div2_div, (Z.mul_comm 2 _), Z.div_mul by lia.
    change (Z.odd 2) with false. by rewrite Z.lxor_0_l, IH.
Qed.

(** The powers of x with exponents [0, 2, 4, ...]: the images of the powers of x under
    squaring. *)
Fixpoint square_table (n : nat) (c : Z) : list Z :=
  match n with O => [] | S n => c :: square_table n (mulx (mulx c)) end.

Lemma nth_square_table n c i :
  (i < n)%nat -> nth i (square_table n c) 0 = mulxn (2 * i) c.
Proof.
  revert c i. induction n as [|n IH]; intros c [|i] Hi; [lia..|done|]. cbn [square_table nth].
  rewrite IH by lia. replace (2 * S i)%nat with (2 * i + 2)%nat by lia.
  by rewrite <- mulxn_add.
Qed.

Lemma toF_lxor a b : toF (Z.lxor a b) = (toF a + toF b)%gf.
Proof.
  apply F_eq. rewrite fv_add. cbn -[Z.pow]. apply Z.bits_inj'. intros i Hi.
  rewrite Z.lxor_spec. destruct (Z.ltb_spec i 192).
  - by rewrite !Z.mod_pow2_bits_low, Z.lxor_spec by lia.
  - by rewrite !Z.mod_pow2_bits_high by lia.
Qed.

Lemma frob_linear n : linear (fun a => fv (frob n (toF a))).
Proof. intros a b. by rewrite toF_lxor, frob_add, fv_add. Qed.

Lemma fe_pow2 i : (i < 192)%nat -> fe (2 ^ Z.of_nat i).
Proof. intros Hi. split; [lia|apply Z.pow_lt_mono_r; lia]. Qed.
#[export] Hint Resolve tapply_linear frob_linear : sigma.

Lemma tapply_square a : tapply (square_table 192 1) (fv a) = fv (a * a)%gf.
Proof.
  rewrite <- (toF_fv a) at 2 3. change (toF (fv a) * toF (fv a))%gf with (frob 1 (toF (fv a))).
  generalize (fv a), (fe_fv a). apply linear_ext192; [auto with sigma..|].
  intros i Hi. rewrite tapply_pow2, nth_square_table by done.
  change (frob 1 ?b) with (b * b)%gf. rewrite fv_mul, fv_toF by by apply fe_pow2.
  rewrite gmul_pow2, pow2_mulxn, mulxn_add by done. f_equal. lia.
Qed.

(** A table represents the [2^n]-th power when it agrees with it on the powers of x. *)
Definition frob_table (n : nat) (t : list Z) : Prop :=
  forall a, tapply t (fv a) = fv (frob n a).

Lemma frob_table_1 : frob_table 1 (square_table 192 1).
Proof. intros a. apply tapply_square. Qed.

(** Applying one table to the entries of another composes the powers. *)
Lemma frob_table_comp n m t u :
  length u = 192%nat -> frob_table n t -> frob_table m u ->
  frob_table (n + m) (tapply t <$> u).
Proof.
  intros Hu Ht Hm a. rewrite <- frob_frob, <- Ht, <- Hm.
  generalize (fv a), (fe_fv a). apply linear_ext192; [auto with sigma| |].
  - apply linear_comp; auto with sigma.
  - intros i Hi. rewrite !tapply_pow2.
    rewrite <- (linear_0 _ (tapply_linear t)) at 1.
    change (tapply t <$> u) with (map (tapply t) u). apply map_nth.
Qed.
