(* ===== verification/Gf2_192.v ===== *)
(** The field elements of the gf2_192 crate (src/gf2_192/src/gf2_192.rs and lib.rs): three
    signed 64-bit words, table-driven multiplication, multiplication by a byte, powers
    2^(2^k) through precomputed tables, inversion and the byte conversions, proved against
    the field of file Gf2Field. *)

From S2P Require Import Prelude Gf2Tables Gf2Field.

(** * Words *)

(** [<<] on i64. *)
Definition shl64 (a s : Z) : Z := wrap_s 64 (Z.shiftl a s).
(** Logical right shifts of signed words. *)
Definition lrs_i64 (b s : Z) : Z := wrap_s 64 (Z.shiftr (wrap_u 64 b) s).
Definition lrs_i8 (b s : Z) : Z := wrap_s 8 (Z.shiftr (wrap_u 8 b) s).
(** [*] on i64. *)
Definition mul64 (a b : Z) : Z := wrap_s 64 (a * b).

Definition IRRED_PENTANOMIAL : Z :=
  Z.lor (Z.lor (Z.lor (shl64 1 7) (shl64 1 2)) (shl64 1 1)) 1.

Definition IRRED_MULS : list Z :=
  let p := IRRED_PENTANOMIAL in
  [ 0;
    p;
    shl64 p 1;
    Z.lxor (shl64 p 1) p;
    shl64 p 2;
    Z.lxor (shl64 p 2) p;
    Z.lxor (shl64 p 2) (shl64 p 1);
    Z.lxor (Z.lxor (shl64 p 2) (shl64 p 1)) p;
    shl64 p 3;
    Z.lxor (shl64 p 3) p;
    Z.lxor (shl64 p 3) (shl64 p 1);
    Z.lxor (Z.lxor (shl64 p 3) (shl64 p 1)) p;
    Z.lxor (shl64 p 3) (shl64 p 2);
    Z.lxor (Z.lxor (shl64 p 3) (shl64 p 2)) p;
    Z.lxor (Z.lxor (shl64 p 3) (shl64 p 2)) (shl64 p 1);
    Z.lxor (Z.lxor (Z.lxor (shl64 p 3) (shl64 p 2)) (shl64 p 1)) p ].

(** * Elements *)

Record Gf2_192 : Type := mkGf { word_0 : Z; word_1 : Z; word_2 : Z }.

Definition gf_new : Gf2_192 := mkGf 0 0 0.
Definition is_zero (g : Gf2_192) : bool :=
  (word_0 g =? 0) && (word_1 g =? 0) && (word_2 g =? 0).
Definition is_one (g : Gf2_192) : bool :=
  (word_0 g =? 1) && (word_1 g =? 0) && (word_2 g =? 0).

Definition gf_add (a b : Gf2_192) : Gf2_192 :=
  mkGf (Z.lxor (word_0 a) (word_0 b)) (Z.lxor (word_1 a) (word_1 b))
    (Z.lxor (word_2 a) (word_2 b)).

(** The three parallel arrays of multiples of [a]. *)
Record muls : Type := mkMuls { a0muls : list Z; a1muls : list Z; a2muls : list Z }.

(** Multiples [i] in 2, 4, 8: the multiple [i / 2] times x, reduced. *)
Definition muls_double (m : muls) (i : nat) : muls :=
  let prev := (i / 2)%nat in
  let p0 := a0muls m !!! prev in
  let p1 := a1muls m !!! prev in
  let p2 := a2muls m !!! prev in
  mkMuls
    (<[i := Z.lxor (shl64 p0 1) (IRRED_MULS !!! Z.to_nat (lrs_i64 p2 63))]> (a0muls m))
    (<[i := Z.lor (shl64 p1 1) (lrs_i64 p0 63)]> (a1muls m))
    (<[i := Z.lor (shl64 p2 1) (lrs_i64 p1 63)]> (a2muls m)).

(** Multiple [i lor j] as the sum of the multiples [i] and [j]. *)
Definition muls_sum (i : nat) (m : muls) (j : nat) : muls :=
  let k := Nat.lor i j in
  mkMuls
    (<[k := Z.lxor (a0muls m !!! i) (a0muls m !!! j)]> (a0muls m))
    (<[k := Z.lxor (a1muls m !!! i) (a1muls m !!! j)]> (a1muls m))
    (<[k := Z.lxor (a2muls m !!! i) (a2muls m !!! j)]> (a2muls m)).

Definition muls_table (a : Gf2_192) : muls :=
  let m := mkMuls (<[1%nat := word_0 a]> (replicate 16 0))
             (<[1%nat := word_1 a]> (replicate 16 0))
             (<[1%nat := word_2 a]> (replicate 16 0)) in
  let m := fold_left muls_double [2; 4; 8]%nat m in
  let m := muls_sum 1 m 2 in
  let m := fold_left (muls_sum 4) [1; 2; 3]%nat m in
  fold_left (muls_sum 8) [1; 2; 3; 4; 5; 6; 7]%nat m.

(** One nibble of the multiplier: multiply by x^4, reduce, add the multiple of [a]. *)
Definition multiply_step (m : muls) (multiplier : Z) (w : Gf2_192) (i : Z) : Gf2_192 :=
  let mod_reduce_index := Z.to_nat (lrs_i64 (word_2 w) 60) in
  let w2 := Z.lor (shl64 (word_2 w) 4) (lrs_i64 (word_1 w) 60) in
  let w1 := Z.lor (shl64 (word_1 w) 4) (lrs_i64 (word_0 w) 60) in
  let w0 := Z.lxor (shl64 (word_0 w) 4) (IRRED_MULS !!! mod_reduce_index) in
  let index := Z.to_nat (Z.land (lrs_i64 multiplier i) 15) in
  mkGf (Z.lxor w0 (a0muls m !!! index)) (Z.lxor w1 (a1muls m !!! index))
    (Z.lxor w2 (a2muls m !!! index)).

(** [(0..=60).rev().step_by(4)] *)
Definition nibble_shifts : list Z :=
  [60; 56; 52; 48; 44; 40; 36; 32; 28; 24; 20; 16; 12; 8; 4; 0].

Definition multiply (a b : Gf2_192) : Gf2_192 :=
  let m := muls_table a in
  fold_left (fun w multiplier => fold_left (multiply_step m multiplier) nibble_shifts w)
    [word_2 b; word_1 b; word_0 b] gf_new.

(** One bit of the byte multiplier. *)
Definition mul_by_i8_step (a : Gf2_192) (b : Z) (w : Gf2_192) (i : Z) : Gf2_192 :=
  let w3 := lrs_i64 (word_2 w) 63 in
  let w2 := Z.lor (shl64 (word_2 w) 1) (lrs_i64 (word_1 w) 63) in
  let w1 := Z.lor (shl64 (word_1 w) 1) (lrs_i64 (word_0 w) 63) in
  let w0 := shl64 (word_0 w) 1 in
  let t := Z.land (lrs_i8 b i) 1 in
  mkGf (Z.lxor w0 (Z.lxor (mul64 (word_0 a) t) (mul64 IRRED_PENTANOMIAL w3)))
    (Z.lxor w1 (mul64 (word_1 a) t)) (Z.lxor w2 (mul64 (word_2 a) t)).

Definition mul_by_i8 (a : Gf2_192) (b : Z) : Gf2_192 :=
  fold_left (mul_by_i8_step a b) [7; 6; 5; 4; 3; 2; 1; 0] gf_new.

(** The inner loop of [power_2_to_2_to_k]: [n] bits of the word [w], the table read from
    index [i]. *)
Fixpoint pow_loop (t0 t1 t2 : list Z) (n i : nat) (w : Z) (t : Gf2_192) : Gf2_192 :=
  match n with
  | O => t
  | S n =>
      let multiplier := Z.land w 1 in
      pow_loop t0 t1 t2 n (S i) (lrs_i64 w 1)
        (mkGf (Z.lxor (word_0 t) (mul64 (t0 !!! i) multiplier))
           (Z.lxor (word_1 t) (mul64 (t1 !!! i) multiplier))
           (Z.lxor (word_2 t) (mul64 (t2 !!! i) multiplier)))
  end.

Definition pow_by_table (z : Gf2_192) (k : nat) : Gf2_192 :=
  let t0 := POW_TABLE_0 !!! k in
  let t1 := POW_TABLE_1 !!! k in
  let t2 := POW_TABLE_2 !!! k in
  pow_loop t0 t1 t2 64 128 (word_2 z)
    (pow_loop t0 t1 t2 64 64 (word_1 z)
       (pow_loop t0 t1 t2 64 0 (word_0 z) gf_new)).

(** z^(2^(2^k)); the recursive calls for [k >= 7] are on 6, where the table answers. *)
Definition power_2_to_2_to_k (z : Gf2_192) (k : nat) : Gf2_192 :=
  if (7 <=? k)%nat then
    let res := pow_by_table z 6 in
    if Nat.odd k then pow_by_table res 6 else res
  else pow_by_table z k.

Definition sqr (z : Gf2_192) : Gf2_192 := power_2_to_2_to_k z 0.

(** The loop state of [invert]: z_to_2_to_k1s, z_to_2_to_k1s_2_to_k0s and res. *)
Definition invert_step (s : Gf2_192 * Gf2_192 * Gf2_192) (k : nat) :
    Gf2_192 * Gf2_192 * Gf2_192 :=
  let '(ones, ones_zeros, res) := s in
  let ones := multiply ones_zeros ones in
  let ones_zeros := power_2_to_2_to_k ones k in
  (ones, ones_zeros, multiply res ones_zeros).

Definition invert (z : Gf2_192) : Gf2_192 :=
  let res := multiply z z in
  let '(_, ones_zeros, res) := fold_left invert_step [1; 2; 3; 4; 5; 6]%nat (z, res, res) in
  multiply res (power_2_to_2_to_k ones_zeros 6).

(** * Bytes *)

Definition word_bytes (w : Z) : list Z :=
  (fun i : nat => Z.land (Z.shiftr w (Z.shiftl (Z.of_nat i) 3)) 255) <$> seq 0 8.

(** [<[u8; 24]>::from(Gf2_192)] *)
Definition gf_to_bytes (e : Gf2_192) : list Z :=
  word_bytes (word_0 e) ++ word_bytes (word_1 e) ++ word_bytes (word_2 e).

(** Word [j] of the first 24 bytes: the bytes or-ed in at their places. *)
Definition bytes_word (bs : list Z) (j : nat) : Z :=
  fold_left
    (fun w i => Z.lor w (shl64 (Z.land (bs !!! (i + 8 * j)%nat) 255) (Z.shiftl (Z.of_nat i) 3)))
    (seq 0 8) 0.

(** [Gf2_192::from([u8; 24])] *)
Definition gf_from_bytes (bs : list Z) : Gf2_192 :=
  mkGf (bytes_word bs 0) (bytes_word bs 1) (bytes_word bs 2).

Inductive Gf2_192PolyError : Type := InterpolatePointsAndValuesLengthDiffer.

Inductive Gf2_192Error : Type :=
| Gf2_192TryFromByteArrayError
| Gf2_192ToByteArrayError
| Gf2_192PolyErr (e : Gf2_192PolyError).

(** [Gf2_192::try_from(&[u8])] *)
Definition gf_try_from (bs : list Z) : result Gf2_192Error Gf2_192 :=
  if (length bs <? 24)%nat then Err Gf2_192TryFromByteArrayError else Ok (gf_from_bytes bs).

(** [Gf2_192::from(i32)] *)
Definition gf_from_i32 (value : Z) : Gf2_192 := mkGf (Z.land value 4294967295) 0 0.

(** [to_i8_slice]: the 24 bytes as i8 written at [pos]. *)
Definition to_i8_slice (e : Gf2_192) (slice : list Z) (pos : nat) :
    result Gf2_192Error (list Z) :=
  if (length slice <? pos + 24)%nat then Err Gf2_192ToByteArrayError
  else Ok (take pos slice ++ (wrap_s 8 <$> gf_to_bytes e) ++ drop (pos + 24) slice).

(** * The field element of three words *)

(** The integer whose bits are those of the words, as u64, from word 0 up. *)
Definition val (g : Gf2_192) : Z :=
  Z.lor (wrap_u 64 (word_0 g))
    (Z.lor (Z.shiftl (wrap_u 64 (word_1 g)) 64) (Z.shiftl (wrap_u 64 (word_2 g)) 128)).

Definition gf (g : Gf2_192) : F := toF (val g).

(** The words are i64 values. *)
Definition gf_wf (g : Gf2_192) : Prop :=
  in_s 64 (word_0 g) /\ in_s 64 (word_1 g) /\ in_s 64 (word_2 g).

Definition word (g : Gf2_192) (k : Z) : Z :=
  if k =? 0 then word_0 g else if k =? 1 then word_1 g else word_2 g.

Lemma val_bits g i :
  0 <= i -> Z.testbit (val g) i = (i <? 192) && Z.testbit (word g (i / 64)) (i mod 64).
Proof.
  intros Hi. unfold val, word. rewrite !Z.lor_spec, !Z.shiftl_spec by done.
  rewrite !wrap_u_testbit by lia.
  pose proof (Z.div_mod i 64 ltac:(lia)) as Hd.
  pose proof (Z.mod_pos_bound i 64 ltac:(lia)) as Hm.
  assert (forall a j, j < 0 -> Z.testbit a j = false) as Hneg by (intros; by apply Z.testbit_neg_r).
  destruct (Z.ltb_spec i 192); cbn [andb].
  - assert (i / 64 = 0 \/ i / 64 = 1 \/ i / 64 = 2) as [Hq|[Hq|Hq]]
      by (pose proof (Z.div_lt_upper_bound i 64 3); pose proof (Z.div_pos i 64); lia);
      rewrite Hq; cbn -[Z.testbit Z.modulo Z.ltb].
    + rewrite (Hneg _ (i - 64)), (Hneg _ (i - 128)) by lia.
      destruct (Z.ltb_spec i 64); [|lia]. cbn. rewrite !andb_false_r, !orb_false_r.
      f_equal. lia.
    + rewrite (Hneg _ (i - 128)) by lia.
      destruct (Z.ltb_spec i 64); [lia|]. destruct (Z.ltb_spec (i - 64) 64); [|lia]. cbn.
      rewrite !andb_false_r, !orb_false_r. f_equal. lia.
    + destruct (Z.ltb_spec i 64); [lia|]. destruct (Z.ltb_spec (i - 64) 64); [lia|].
      destruct (Z.ltb_spec (i - 128) 64); [|lia]. cbn. f_equal. lia.
  - destruct (Z.ltb_spec i 64); [lia|]. destruct (Z.ltb_spec (i - 64) 64); [lia|].
    by destruct (Z.ltb_spec (i - 128) 64); [lia|].
Qed.

Lemma wrap_u_nonneg w z : 0 <= w -> 0 <= wrap_u w z.
Proof. intros Hw. destruct (wrap_u_range w z Hw). done. Qed.

Lemma fe_val g : fe (val g).
Proof.
  apply in_u_of_bits; [lia| |].
  - unfold val. rewrite !Z.lor_nonneg, !Z.shiftl_nonneg. auto using wrap_u_nonneg with lia.
  - intros i Hi. rewrite val_bits by lia. by destruct (Z.ltb_spec i 192); [lia|].
Qed.
#[export] Hint Resolve fe_val : sigma.

Lemma fv_gf g : fv (gf g) = val g.
Proof. apply fv_toF, fe_val. Qed.

Lemma gf_eq g h : val g = val h -> gf g = gf h.
Proof. unfold gf. by intros ->. Qed.

(** ** Word operations, bit by bit *)

Lemma shl64_testbit a s i :
  0 <= s -> 0 <= i < 64 -> Z.testbit (shl64 a s) i = Z.testbit a (i - s).
Proof. intros Hs Hi. unfold shl64. by rewrite wrap_s_testbit_low, Z.shiftl_spec by lia. Qed.

Lemma lrs_i64_testbit a s i :
  0 <= s -> 0 <= i < 64 -> Z.testbit (lrs_i64 a s) i = (i + s <? 64) && Z.testbit a (i + s).
Proof.
  intros Hs Hi. unfold lrs_i64.
  by rewrite wrap_s_testbit_low, Z.shiftr_spec, wrap_u_testbit by lia.
Qed.

Lemma wrap_u_lrs a s : 0 <= s -> wrap_u 64 (lrs_i64 a s) = Z.shiftr (wrap_u 64 a) s.
Proof.
  intros Hs. unfold lrs_i64. unfold wrap_u at 1. rewrite wrap_s_mod by lia.
  apply Z.mod_small. destruct (wrap_u_range 64 a ltac:(lia)) as [H1 H2].
  rewrite Z.shiftr_div_pow2 by done. split; [apply Z.div_pos; lia|].
  apply Z.le_lt_trans with (wrap_u 64 a); [|done]. apply Z.div_le_upper_bound; [lia|].
  pose proof (Z.pow_pos_nonneg 2 s ltac:(lia) Hs). nia.
Qed.

Lemma lrs_i64_pos a s : 0 < s -> lrs_i64 a s = Z.shiftr (wrap_u 64 a) s.
Proof.
  intros Hs. unfold lrs_i64. apply wrap_s_id; [lia|].
  destruct (wrap_u_range 64 a ltac:(lia)) as [H1 H2].
  rewrite Z.shiftr_div_pow2 by lia. split.
  - pose proof (Z.div_pos (wrap_u 64 a) (2 ^ s) H1 ltac:(lia)). lia.
  - apply Z.div_lt_upper_bound; [lia|].
    pose proof (Z.pow_le_mono_r 2 1 s ltac:(lia) ltac:(lia)). nia.
Qed.

Lemma val_add a b : val (gf_add a b) = Z.lxor (val a) (val b).
Proof.
  apply Z.bits_inj'. intros i Hi. rewrite Z.lxor_spec, !val_bits by done.
  destruct (Z.ltb_spec i 192); [|done]. cbn [andb]. unfold word, gf_add. cbn [word_0 word_1 word_2].
  destruct (i / 64 =? 0), (i / 64 =? 1); by rewrite Z.lxor_spec.
Qed.

(** The words shifted up by [s], the bits that leave word 2 dropped. *)
Definition shift_up (w : Gf2_192) (s : Z) : Gf2_192 :=
  mkGf (shl64 (word_0 w) s) (Z.lor (shl64 (word_1 w) s) (lrs_i64 (word_0 w) (64 - s)))
    (Z.lor (shl64 (word_2 w) s) (lrs_i64 (word_1 w) (64 - s))).

Lemma val_shift_up w s :
  0 < s < 64 -> val (shift_up w s) = Z.land (Z.shiftl (val w) s) (Z.ones 192).
Proof.
  intros Hs. apply Z.bits_inj'. intros i Hi.
  rewrite Z.land_spec, Z.shiftl_spec, val_bits, Z.testbit_ones_nonneg by lia.
  destruct (Z.ltb_spec i 192); [|by rewrite andb_false_r]. rewrite andb_true_r. cbn [andb].
  destruct (Z.ltb_spec i s) as [Hlt|Hge].
  - rewrite (Z.testbit_neg_r _ (i - s)) by lia.
    rewrite (Z.div_small i), (Z.mod_small i) by lia.
    change (Z.testbit (shl64 (word_0 w) s) i = false).
    rewrite shl64_testbit by lia. apply Z.testbit_neg_r. lia.
  - rewrite val_bits by lia. destruct (Z.ltb_spec (i - s) 192); [|lia]. cbn [andb].
    pose proof (Z.div_mod i 64 ltac:(lia)) as Hd.
    pose proof (Z.mod_pos_bound i 64 ltac:(lia)) as Hm.
    assert (0 <= i / 64 < 3) as Hq by lia.
    assert ((i - s) / 64 = i / 64 /\ (i - s) mod 64 = i mod 64 - s /\ s <= i mod 64 \/
            (i - s) / 64 = i / 64 - 1 /\ (i - s) mod 64 = i mod 64 + (64 - s) /\
            i mod 64 < s /\ 1 <= i / 64) as [(-> & -> & Hc)|(-> & -> & Hc & Hc')].
    { destruct (Z.le_gt_cases s (i mod 64)); [left|right].
      - repeat split; [symmetry; apply (Z.div_unique _ _ _ (i mod 64 - s))|
          symmetry; apply (Z.mod_unique _ _ (i / 64))|]; lia.
      - repeat split; [symmetry; apply (Z.div_unique _ _ _ (i mod 64 + (64 - s)))|
          symmetry; apply (Z.mod_unique _ _ (i / 64 - 1))| |]; lia. }
    + unfold word, shift_up. cbn [word_0 word_1 word_2].
      assert ((i mod 64 + (64 - s) <? 64) = false) as Hf by lia.
      destruct (i / 64 =? 0), (i / 64 =? 1); rewrite ?Z.lor_spec, ?shl64_testbit,
        ?lrs_i64_testbit by lia; rewrite ?Hf; cbn [andb]; by rewrite ?orb_false_r.
    + unfold word, shift_up. cbn [word_0 word_1 word_2].
      assert ((i mod 64 + (64 - s) <? 64) = true) as Hf by lia.
      assert (i / 64 = 1 \/ i / 64 = 2) as [-> | ->] by lia; cbn -[Z.testbit Z.modulo Z.ltb];
        rewrite Z.lor_spec, shl64_testbit, lrs_i64_testbit by lia; rewrite Hf;
        by rewrite (Z.testbit_neg_r _ (i mod 64 - s)) by lia.
Qed.

(** The bits a shift by [s] drops. *)
Lemma shiftr_val_top w s :
  0 < s < 64 -> Z.shiftr (val w) (192 - s) = lrs_i64 (word_2 w) (64 - s).
Proof.
  intros Hs. rewrite lrs_i64_pos by lia. apply Z.bits_inj'. intros i Hi.
  rewrite !Z.shiftr_spec, val_bits, wrap_u_testbit by lia.
  destruct (Z.ltb_spec (i + (64 - s)) 64) as [Hlt|Hge].
  - destruct (Z.ltb_spec (i + (192 - s)) 192); [|lia]. cbn [andb].
    replace (i + (192 - s)) with (i + (64 - s) + 2 * 64) by lia.
    rewrite Z.div_add, Z.mod_add, Z.div_small, Z.mod_small by lia. done.
  - destruct (Z.ltb_spec (i + (192 - s)) 192); [lia|done].
Qed.

(** ** Reduction of the dropped bits *)

(** Entry [n] of the reduction table is the sum of the x^192 multiples that the bits of [n]
    stand for. *)
Lemma IRRED_MULS_spec n :
  0 <= n < 16 -> IRRED_MULS !!! Z.to_nat n = tapply [135; 270; 540; 1080] n.
Proof.
  intros Hn. rewrite <- (Z2Nat.id n) at 2 by lia.
  assert (Z.to_nat n < 16)%nat as Hlt by lia. revert Hlt. generalize (Z.to_nat n) as m.
  intros m Hm. do 16 (destruct m as [|m]; [vm_compute; reflexivity|]). lia.
Qed.

Lemma linear_shr k : 0 <= k -> linear (fun a => Z.shiftr a k).
Proof. intros Hk a b. by rewrite Z.shiftr_lxor. Qed.

Lemma linear_shift_land s : 0 <= s -> linear (fun a => Z.land (Z.shiftl a s) (Z.ones 192)).
Proof.
  intros Hs. apply (linear_comp (fun a => Z.land a (Z.ones 192)) (fun a => Z.shiftl a s));
    [apply linear_land|by apply linear_shl].
Qed.

Lemma mulxn_4_spec a :
  fe a ->
  mulxn 4 a = Z.lxor (Z.land (Z.shiftl a 4) (Z.ones 192))
                (tapply [135; 270; 540; 1080] (Z.shiftr a 188)).
Proof.
  revert a. apply linear_check192; [auto with sigma| |vm_compute; reflexivity].
  apply linear_lxor; [by apply linear_shift_land|].
  apply linear_comp; [apply tapply_linear|by apply linear_shr].
Qed.

Lemma mulx_spec a :
  fe a ->
  mulx a = Z.lxor (Z.land (Z.shiftl a 1) (Z.ones 192)) (tapply [135] (Z.shiftr a 191)).
Proof.
  intros Ha. unfold mulx. f_equal. cbn [tapply].
  rewrite <- Z.bit0_odd, Z.shiftr_spec, Z.lxor_0_r by lia. done.
Qed.

(** The top bits of [val w], read by the code as an index. *)
Lemma top_range w s : 0 < s < 64 -> 0 <= lrs_i64 (word_2 w) (64 - s) < 2 ^ s.
Proof.
  intros Hs. rewrite lrs_i64_pos by lia.
  destruct (wrap_u_range 64 (word_2 w) ltac:(lia)) as [H1 H2].
  rewrite Z.shiftr_div_pow2 by lia.
  split; [apply Z.div_pos; lia|]. apply Z.div_lt_upper_bound; [lia|].
  rewrite <- Z.pow_add_r by lia. by replace (64 - s + s) with 64 by lia.
Qed.

(** Words built by xor-ing a small constant into word 0. *)
Lemma val_word_0_lxor w c :
  in_u 64 c -> val (mkGf (Z.lxor (word_0 w) c) (word_1 w) (word_2 w)) = Z.lxor (val w) c.
Proof.
  intros Hc. change (mkGf _ _ _) with (mkGf (Z.lxor (word_0 w) c) (word_1 w) (word_2 w)).
  assert (mkGf (Z.lxor (word_0 w) c) (word_1 w) (word_2 w) = gf_add w (mkGf c 0 0)) as ->
    by (unfold gf_add; cbn; by rewrite !Z.lxor_0_r).
  rewrite val_add. f_equal. unfold val. cbn [word_0 word_1 word_2].
  rewrite (wrap_u_id 64 c) by done. by rewrite Z.lor_0_r.
Qed.

Lemma wrap_u_lxor w a b : 0 <= w -> wrap_u w (Z.lxor a b) = Z.lxor (wrap_u w a) (wrap_u w b).
Proof.
  intros Hw. apply Z.bits_inj'. intros i Hi. rewrite Z.lxor_spec, !wrap_u_testbit, Z.lxor_spec by done.
  by destruct (i <? w).
Qed.

(** One reduction step: shift up by one bit or one nibble and fold the dropped bits back. *)
Lemma val_reduce_4 w :
  val (mkGf (Z.lxor (word_0 (shift_up w 4)) (IRRED_MULS !!! Z.to_nat (lrs_i64 (word_2 w) 60)))
         (word_1 (shift_up w 4)) (word_2 (shift_up w 4))) = mulxn 4 (val w).
Proof.
  pose proof (top_range w 4 ltac:(lia)) as Hr.
  rewrite IRRED_MULS_spec by exact Hr.
  rewrite val_word_0_lxor.
  - rewrite val_shift_up by lia. rewrite mulxn_4_spec by apply fe_val. do 2 f_equal.
    exact (eq_sym (shiftr_val_top w 4 ltac:(lia))).
  - change (64 - 4) with 60 in Hr. revert Hr. generalize (lrs_i64 (word_2 w) 60) as n.
    intros n Hn. rewrite <- (Z2Nat.id n) by lia.
    assert (Z.to_nat n < 16)%nat as Hlt by lia. revert Hlt. generalize (Z.to_nat n) as m.
    intros m Hm. do 16 (destruct m as [|m]; [by vm_compute|]). lia.
Qed.

Lemma val_reduce_1 w :
  val (mkGf (Z.lxor (word_0 (shift_up w 1)) (tapply [135] (lrs_i64 (word_2 w) 63)))
         (word_1 (shift_up w 1)) (word_2 (shift_up w 1))) = mulx (val w).
Proof.
  rewrite val_word_0_lxor.
  - rewrite val_shift_up by lia. rewrite mulx_spec by apply fe_val. do 2 f_equal.
    exact (eq_sym (shiftr_val_top w 1 ltac:(lia))).
  - cbn [tapply]. by destruct (Z.odd _).
Qed.

(** ** The table of multiples *)

(** The multiple of [v] by the polynomial of degree < 4 with the bits of [n]. *)
Definition nmul (v : Z) (n : nat) : Z := hmul 4 v (Z.of_nat n).

Lemma hmul_low n v b b' :
  (forall i, 0 <= i < Z.of_nat n -> Z.testbit b i = Z.testbit b' i) -> hmul n v b = hmul n v b'.
Proof.
  revert b b'. induction n as [|n IH]; intros b b' H; [done|]. cbn [hmul].
  rewrite <- !Z.bit0_odd, (H 0) by lia. do 2 f_equal. apply IH. intros i Hi.
  rewrite !Z.div2_spec, !Z.shiftr_spec by lia. apply H. lia.
Qed.

Lemma hmul_add n m v b :
  hmul (n + m) v b = Z.lxor (hmul n v b) (mulxn n (hmul m v (Z.shiftr b (Z.of_nat n)))).
Proof.
  revert b. induction n as [|n IH]; intros b; [by rewrite Z.lxor_0_l|].
  cbn [Nat.add hmul]. rewrite IH, mulx_linear, mulxn_S, <- Z.lxor_assoc. do 3 f_equal.
  rewrite Z.div2_spec, Z.shiftr_shiftr by lia. do 3 f_equal. lia.
Qed.

Definition mul_at (m : muls) (i : nat) : Gf2_192 :=
  mkGf (a0muls m !!! i) (a1muls m !!! i) (a2muls m !!! i).

Definition muls_len (m : muls) : Prop :=
  length (a0muls m) = 16%nat /\ length (a1muls m) = 16%nat /\ length (a2muls m) = 16%nat.

(** The entries listed in [l] hold their multiples of [v]. *)
Definition muls_ok (v : Z) (m : muls) (l : list nat) : Prop :=
  muls_len m /\ forall i, i ∈ l -> val (mul_at m i) = nmul v i.

(** A table with entry [i] replaced by the words of [g]. *)
Definition muls_set (m : muls) (i : nat) (g : Gf2_192) : muls :=
  mkMuls (<[i := word_0 g]> (a0muls m)) (<[i := word_1 g]> (a1muls m))
    (<[i := word_2 g]> (a2muls m)).

Lemma mul_at_set m i j g :
  muls_len m -> (i < 16)%nat -> mul_at (muls_set m i g) j = if decide (j = i) then g else mul_at m j.
Proof.
  intros (H0 & H1 & H2) Hi. unfold mul_at, muls_set. cbn.
  destruct (decide (j = i)) as [->|].
  - rewrite !list_lookup_total_insert_eq by lia. by destruct g.
  - by rewrite !list_lookup_total_insert_ne by done.
Qed.

Lemma muls_ok_set v m l i g :
  muls_ok v m l -> (i < 16)%nat -> val g = nmul v i -> muls_ok v (muls_set m i g) (i :: l).
Proof.
  intros [Hlen Hl] Hi Hg. split.
  - destruct Hlen as (?&?&?). unfold muls_len, muls_set. cbn. by rewrite !length_insert.
  - intros j Hj. rewrite mul_at_set by done.
    destruct (decide (j = i)) as [->|]; [done|]. apply Hl. set_solver.
Qed.

Lemma muls_double_ok v m l i :
  muls_ok v m l -> (i / 2)%nat ∈ l -> i ∈ [2; 4; 8]%nat -> muls_ok v (muls_double m i) (i :: l).
Proof.
  intros H Hin Hi.
  set (p := mul_at m (i / 2)).
  assert (muls_double m i = muls_set m i
    (mkGf (Z.lxor (shl64 (word_0 p) 1) (IRRED_MULS !!! Z.to_nat (lrs_i64 (word_2 p) 63)))
       (word_1 (shift_up p 1)) (word_2 (shift_up p 1)))) as -> by done.
  pose proof (proj2 H _ Hin : val p = nmul v (i / 2)) as Hp.
  apply muls_ok_set; [done|set_solver by lia|].
  change (shl64 (word_0 p) 1) with (word_0 (shift_up p 1)).
  pose proof (top_range p 1 ltac:(lia)) as Hr. change (64 - 1) with 63 in Hr.
  assert (IRRED_MULS !!! Z.to_nat (lrs_i64 (word_2 p) 63) = tapply [135] (lrs_i64 (word_2 p) 63)) as ->.
  { assert (lrs_i64 (word_2 p) 63 = 0 \/ lrs_i64 (word_2 p) 63 = 1) as [-> | ->] by lia; done. }
  rewrite val_reduce_1, Hp. clear -Hi.
  assert (forall k, (k < 4)%nat -> nmul v (2 ^ k) = mulxn k v) as E.
  { intros k Hk. unfold nmul. rewrite Nat2Z.inj_pow. by apply hmul_pow2. }
  assert (i = 2 \/ i = 4 \/ i = 8)%nat as [-> | [-> | ->]] by set_solver.
  - etransitivity; [exact (f_equal mulx (E 0%nat ltac:(lia)))|symmetry; exact (E 1%nat ltac:(lia))].
  - etransitivity; [exact (f_equal mulx (E 1%nat ltac:(lia)))|symmetry; exact (E 2%nat ltac:(lia))].
  - etransitivity; [exact (f_equal mulx (E 2%nat ltac:(lia)))|symmetry; exact (E 3%nat ltac:(lia))].
Qed.

Lemma muls_sum_ok v m l i j :
  muls_ok v m l -> i ∈ l -> j ∈ l -> (Nat.lor i j < 16)%nat ->
  Z.of_nat (Nat.lor i j) = Z.lxor (Z.of_nat i) (Z.of_nat j) ->
  muls_ok v (muls_sum i m j) (Nat.lor i j :: l).
Proof.
  intros H Hi Hj Hlt Hd.
  assert (muls_sum i m j = muls_set m (Nat.lor i j) (gf_add (mul_at m i) (mul_at m j))) as -> by done.
  apply muls_ok_set; [done..|]. rewrite val_add. destruct H as [_ H].
  rewrite (H i Hi), (H j Hj). unfold nmul. by rewrite <- hmul_linear_r, Hd.
Qed.

(** Evaluated membership and arithmetic side conditions on closed indices. *)
Ltac by_compute := first [eapply bool_decide_unpack; vm_compute; exact I | vm_compute; lia].

Lemma muls_init_ok a :
  muls_ok (val a) (mkMuls (<[1%nat := word_0 a]> (replicate 16 0))
    (<[1%nat := word_1 a]> (replicate 16 0)) (<[1%nat := word_2 a]> (replicate 16 0))) [0; 1]%nat.
Proof.
  split; [done|]. intros j Hj. apply elem_of_cons in Hj as [-> | Hj].
  - change (0 = nmul (val a) 0). symmetry. apply hmul_0_r.
  - apply list_elem_of_singleton in Hj as ->.
    change (mul_at _ 1) with (mkGf (word_0 a) (word_1 a) (word_2 a)).
    etransitivity; [|symmetry; exact (hmul_pow2 4 (val a) 0 ltac:(lia))]. by destruct a.
Qed.

Lemma muls_doubles_ok v m :
  muls_ok v m [0; 1]%nat ->
  muls_ok v (fold_left muls_double [2; 4; 8]%nat m) [8; 4; 2; 0; 1]%nat.
Proof.
  intros H. cbn [fold_left].
  do 3 (apply muls_double_ok; [|by_compute..]). done.
Qed.

Lemma muls_sums_ok v i js : forall m l,
  muls_ok v m l -> i ∈ l -> Forall (fun j => j ∈ l /\ (Nat.lor i j < 16)%nat /\
    Z.of_nat (Nat.lor i j) = Z.lxor (Z.of_nat i) (Z.of_nat j)) js ->
  muls_ok v (fold_left (muls_sum i) js m) (reverse (Nat.lor i <$> js) ++ l).
Proof.
  induction js as [|j js IH]; intros m l Hm Hi Hjs; [done|].
  apply Forall_cons in Hjs as [(Hj & Hlt & Hx) Hjs]. cbn [fold_left].
  rewrite fmap_cons, reverse_cons, <- app_assoc. apply IH.
  - by apply muls_sum_ok.
  - by apply list_elem_of_further.
  - eapply Forall_impl; [exact Hjs|]. intros k (? & ? & ?). split_and!; [|done..].
    by apply list_elem_of_further.
Qed.

Lemma muls_table_ok a i : (i < 16)%nat -> val (mul_at (muls_table a) i) = nmul (val a) i.
Proof.
  intros Hi. pose proof (muls_doubles_ok _ _ (muls_init_ok a)) as H.
  apply (muls_sum_ok _ _ _ 1 2) in H; [|by_compute..].
  apply (muls_sums_ok _ 4 [1; 2; 3]%nat) in H; [|by_compute..].
  apply (muls_sums_ok _ 8 [1; 2; 3; 4; 5; 6; 7]%nat) in H; [|by_compute..].
  apply H. clear H. do 16 (destruct i as [|i]; [by_compute|]). lia.
Qed.

(** ** Multiplication *)

Lemma land_15_range a : 0 <= Z.land a 15 < 16.
Proof. change 15 with (Z.ones 4). rewrite Z.land_ones by lia. by apply Z.mod_pos_bound. Qed.

Lemma multiply_step_add m multiplier w i :
  multiply_step m multiplier w i =
  gf_add (mkGf (Z.lxor (word_0 (shift_up w 4)) (IRRED_MULS !!! Z.to_nat (lrs_i64 (word_2 w) 60)))
            (word_1 (shift_up w 4)) (word_2 (shift_up w 4)))
    (mul_at m (Z.to_nat (Z.land (lrs_i64 multiplier i) 15))).
Proof. reflexivity. Qed.

Lemma val_multiply_step a multiplier w i :
  val (multiply_step (muls_table a) multiplier w i) =
  Z.lxor (hmul 4 (val a) (Z.land (lrs_i64 multiplier i) 15)) (mulxn 4 (val w)).
Proof.
  pose proof (land_15_range (lrs_i64 multiplier i)) as Hr.
  rewrite multiply_step_add, val_add, val_reduce_4, muls_table_ok, Z.lxor_comm by lia.
  unfold nmul. by rewrite Z2Nat.id by lia.
Qed.

(** The nibble of [b] at bit [64 * k + i], as the code reads it. *)
Lemma nibble_bits b k i j :
  0 <= k < 3 -> 0 <= i <= 60 -> 0 <= j < 4 ->
  Z.testbit (Z.land (lrs_i64 (word b k) i) 15) j = Z.testbit (Z.shiftr (val b) (64 * k + i)) j.
Proof.
  intros Hk Hi Hj. rewrite Z.land_spec, Z.shiftr_spec, lrs_i64_testbit, val_bits by lia.
  change 15 with (Z.ones 4). rewrite Z.testbit_ones_nonneg by lia.
  replace (j + (64 * k + i)) with (j + i + k * 64) by lia.
  rewrite Z.div_add, Z.mod_add, Z.div_small, Z.mod_small by lia.
  destruct (Z.ltb_spec (j + i) 64); [|lia]. destruct (Z.ltb_spec j 4); [|lia].
  destruct (Z.ltb_spec (j + i + k * 64) 192); [|lia]. cbn [andb]. by rewrite andb_true_r.
Qed.

(** Horner invariant: the bits of [b] from [p] up have been multiplied in. *)
Definition horner (a b : Gf2_192) (p : Z) (w : Gf2_192) : Prop :=
  val w = hmul (Z.to_nat (192 - p)) (val a) (Z.shiftr (val b) p).

Lemma multiply_step_horner a b k i w :
  0 <= k < 3 -> 0 <= i <= 60 -> horner a b (64 * k + i + 4) w ->
  horner a b (64 * k + i) (multiply_step (muls_table a) (word b k) w i).
Proof.
  unfold horner. intros Hk Hi Hw. rewrite val_multiply_step, Hw.
  replace (Z.to_nat (192 - (64 * k + i))) with (4 + Z.to_nat (192 - (64 * k + i + 4)))%nat by lia.
  rewrite hmul_add, Z.shiftr_shiftr by lia. f_equal.
  apply (hmul_low 4). intros j Hj. by apply nibble_bits.
Qed.

Lemma multiply_word_horner a b k w :
  0 <= k < 3 -> horner a b (64 * k + 64) w ->
  horner a b (64 * k) (fold_left (multiply_step (muls_table a) (word b k)) nibble_shifts w).
Proof.
  intros Hk Hw. cbn [nibble_shifts fold_left].
  enough (forall i w, 0 <= i <= 60 -> horner a b (64 * k + (i + 4)) w ->
    horner a b (64 * k + i) (multiply_step (muls_table a) (word b k) w i)) as H.
  { replace (64 * k) with (64 * k + 0) by lia. do 16 (apply H; [lia|]). done. }
  intros i w' Hi Hw'. apply multiply_step_horner; [done..|]. by rewrite <- Z.add_assoc.
Qed.

Lemma horner_start a b : horner a b 192 gf_new.
Proof. unfold horner. rewrite Z.sub_diag. reflexivity. Qed.

Lemma horner_end a b w : horner a b 0 w -> val w = gmul (val a) (val b).
Proof. unfold horner. by rewrite Z.shiftr_0_r. Qed.

Lemma fold_left_3 {A B} (f : A -> B -> A) x y z s :
  fold_left f [x; y; z] s = f (f (f s x) y) z.
Proof. reflexivity. Qed.

Lemma val_multiply a b : val (multiply a b) = gmul (val a) (val b).
Proof.
  apply horner_end. unfold multiply. rewrite fold_left_3.
  apply (multiply_word_horner a b 0); [lia|].
  apply (multiply_word_horner a b 1); [lia|].
  apply (multiply_word_horner a b 2); [lia|].
  apply horner_start.
Qed.

Lemma gf_mul_spec a b : gf (multiply a b) = (gf a * gf b)%gf.
Proof. apply F_eq. by rewrite fv_mul, !fv_gf, val_multiply. Qed.

Lemma gf_add_spec a b : gf (gf_add a b) = (gf a + gf b)%gf.
Proof. apply F_eq. by rewrite fv_add, !fv_gf, val_add. Qed.

(** ** Multiplication by a byte *)

Lemma mul64_bit a t : t = 0 \/ t = 1 -> wrap_u 64 (mul64 a t) = wrap_u 64 (if t =? 1 then a else 0).
Proof.
  intros [-> | ->]; unfold mul64, wrap_u at 1; rewrite wrap_s_mod by lia.
  - by rewrite Z.mul_0_r.
  - by rewrite Z.mul_1_r.
Qed.

Lemma val_wrap g h :
  (forall k, 0 <= k < 3 -> wrap_u 64 (word g k) = wrap_u 64 (word h k)) -> val g = val h.
Proof.
  intros H. unfold val. pose proof (H 0) as H0. pose proof (H 1) as H1. pose proof (H 2) as H2.
  unfold word in *. cbn in H0, H1, H2. by rewrite H0, H1, H2 by lia.
Qed.

Lemma lrs_i8_bit b i j :
  0 <= i < 8 -> 0 <= j < 1 -> Z.testbit (Z.land (lrs_i8 b i) 1) j = Z.testbit (wrap_u 8 b) i.
Proof.
  intros Hi Hj. assert (j = 0) as -> by lia. rewrite Z.land_spec. change (Z.testbit 1 0) with true.
  rewrite andb_true_r. unfold lrs_i8. by rewrite wrap_s_testbit_low, Z.shiftr_spec by lia.
Qed.

Lemma land_1_bit a : Z.land a 1 = 0 \/ Z.land a 1 = 1.
Proof.
  pose proof (Z.land_ones a 1 ltac:(lia)) as H. change (Z.ones 1) with 1 in H.
  pose proof (Z.mod_pos_bound a (2 ^ 1) ltac:(lia)). change (2 ^ 1) with 2 in *. lia.
Qed.

Lemma top_bit w : lrs_i64 w 63 = 0 \/ lrs_i64 w 63 = 1.
Proof.
  pose proof (top_range (mkGf 0 0 w) 1 ltac:(lia)) as H.
  change (64 - 1) with 63 in H. change (2 ^ 1) with 2 in H. cbn [word_2] in H. lia.
Qed.

Lemma val_mul_by_i8_step a b w i :
  0 <= i < 8 ->
  val (mul_by_i8_step a b w i) =
  Z.lxor (if Z.testbit (wrap_u 8 b) i then val a else 0) (mulx (val w)).
Proof.
  intros Hi. set (t := Z.land (lrs_i8 b i) 1).
  assert (Z.testbit (wrap_u 8 b) i = (t =? 1)) as ->.
  { rewrite <- (lrs_i8_bit b i 0) by lia. fold t. destruct (land_1_bit (lrs_i8 b i)) as [H|H];
      fold t in H; by rewrite H. }
  rewrite <- val_reduce_1.
  replace (if t =? 1 then val a else 0) with (val (if t =? 1 then a else gf_new))
    by by destruct (t =? 1).
  rewrite <- val_add. apply val_wrap.
  assert (t = 0 \/ t = 1) as Ht by apply land_1_bit.
  assert (wrap_u 64 (mul64 IRRED_PENTANOMIAL (lrs_i64 (word_2 w) 63)) =
          wrap_u 64 (tapply [135] (lrs_i64 (word_2 w) 63))) as Hp.
  { rewrite mul64_bit by apply top_bit. by destruct (top_bit (word_2 w)) as [-> | ->]. }
  unfold word. intros k Hk. unfold mul_by_i8_step. fold t.
  change (word_0 (shift_up w 1)) with (shl64 (word_0 w) 1).
  destruct (k =? 0); [|destruct (k =? 1)]; cbn [word_0 word_1 word_2 gf_add];
    rewrite !wrap_u_lxor, mul64_bit, ?Hp by (done || lia).
  - rewrite <- !wrap_u_lxor by lia. f_equal. rewrite <- !Z.lxor_assoc, (Z.lxor_comm (shl64 _ _)).
    by destruct (t =? 1).
  - rewrite Z.lxor_comm. by destruct (t =? 1).
  - rewrite Z.lxor_comm. by destruct (t =? 1).
Qed.

Lemma mul_by_i8_horner a b i w :
  0 <= i < 8 -> val w = hmul (Z.to_nat (8 - (i + 1))) (val a) (Z.shiftr (wrap_u 8 b) (i + 1)) ->
  val (mul_by_i8_step a b w i) = hmul (Z.to_nat (8 - i)) (val a) (Z.shiftr (wrap_u 8 b) i).
Proof.
  intros Hi Hw. rewrite val_mul_by_i8_step, Hw by done.
  replace (Z.to_nat (8 - i)) with (S (Z.to_nat (8 - (i + 1)))) by lia. cbn [hmul].
  rewrite <- Z.bit0_odd, Z.shiftr_spec, Z.div2_spec, Z.shiftr_shiftr by lia. done.
Qed.

Lemma val_mul_by_i8 a b : val (mul_by_i8 a b) = gmul (val a) (wrap_u 8 b).
Proof.
  unfold gmul. change 192%nat with (8 + 184)%nat. rewrite hmul_add.
  assert (Z.shiftr (wrap_u 8 b) (Z.of_nat 8) = 0) as ->.
  { rewrite Z.shiftr_div_pow2 by lia. apply Z.div_small, (wrap_u_range 8 b). lia. }
  rewrite hmul_0_r, (linear_0 _ (mulxn_linear 8)), Z.lxor_0_r.
  unfold mul_by_i8. cbn [fold_left]. rewrite <- (Z.shiftr_0_r (wrap_u 8 b)).
  change 8%nat with (Z.to_nat (8 - 0)).
  do 8 (apply mul_by_i8_horner; [lia|cbn [Z.add Pos.add Pos.succ]]). reflexivity.
Qed.

(** The byte as a field element. *)
Lemma gf_mul_by_i8_spec a b : gf (mul_by_i8 a b) = (gf a * toF (wrap_u 8 b))%gf.
Proof.
  apply F_eq. rewrite fv_mul, !fv_gf, val_mul_by_i8. f_equal. symmetry. apply fv_toF.
  destruct (wrap_u_range 8 b ltac:(lia)) as [H1 H2]. split; [done|].
  apply Z.lt_trans with (2 ^ 8); [done|reflexivity].
Qed.

(** ** Powers through the tables *)

(** The words of entry [i] of three tables. *)
Definition entry (t0 t1 t2 : list Z) (i : nat) : Z := val (mkGf (t0 !!! i) (t1 !!! i) (t2 !!! i)).

(** The entries [i .. i + n - 1]. *)
Definition entries (t0 t1 t2 : list Z) (n i : nat) : list Z := entry t0 t1 t2 <$> seq i n.

Lemma length_entries t0 t1 t2 n i : length (entries t0 t1 t2 n i) = n.
Proof. unfold entries. by rewrite length_fmap, length_seq. Qed.

Lemma land_1_odd a : Z.land a 1 = if Z.odd a then 1 else 0.
Proof.
  rewrite <- Z.bit0_odd. apply Z.bits_inj'. intros i Hi. rewrite Z.land_spec.
  destruct (decide (i = 0)) as [->|].
  - by destruct (Z.testbit a 0).
  - rewrite (Z.bits_above_log2 1 i) by (cbn; lia). rewrite andb_false_r.
    destruct (Z.testbit a 0); [by rewrite (Z.bits_above_log2 1 i) by (cbn; lia)|by rewrite Z.bits_0].
Qed.

Lemma odd_wrap_u w a : 0 < w -> Z.odd (wrap_u w a) = Z.odd a.
Proof.
  intros Hw. rewrite <- !Z.bit0_odd, wrap_u_testbit by lia. by destruct (Z.ltb_spec 0 w); [|lia].
Qed.

Lemma val_pow_loop t0 t1 t2 n i w t :
  val (pow_loop t0 t1 t2 n i w t) =
  Z.lxor (val t) (tapply (entries t0 t1 t2 n i) (wrap_u 64 w)).
Proof.
  revert i w t. induction n as [|n IH]; intros i w t; [by rewrite Z.lxor_0_r|].
  cbn [pow_loop]. rewrite IH. unfold entries. cbn [seq fmap list_fmap tapply].
  rewrite wrap_u_lrs, odd_wrap_u, <- Z.div2_spec, <- Z.lxor_assoc by lia. f_equal.
  unfold entry. rewrite land_1_odd.
  transitivity (val (gf_add t (if Z.odd w then mkGf (t0 !!! i) (t1 !!! i) (t2 !!! i) else gf_new))).
  - apply val_wrap. intros k Hk. unfold word, gf_add.
    destruct (k =? 0); [|destruct (k =? 1)]; cbn [word_0 word_1 word_2];
      rewrite !wrap_u_lxor, mul64_bit by (lia || by destruct (Z.odd w); auto);
      by destruct (Z.odd w).
  - rewrite val_add. by destruct (Z.odd w).
Qed.

Lemma tapply_app l l' v :
  tapply (l ++ l') v = Z.lxor (tapply l v) (tapply l' (Z.shiftr v (Z.of_nat (length l)))).
Proof.
  revert v. induction l as [|c l IH]; intros v; cbn [app tapply length]; [by rewrite Z.lxor_0_l|].
  rewrite IH, Z.div2_spec, Z.shiftr_shiftr, <- Z.lxor_assoc by lia. do 3 f_equal. lia.
Qed.

Lemma tapply_low l v v' :
  (forall i, 0 <= i < Z.of_nat (length l) -> Z.testbit v i = Z.testbit v' i) ->
  tapply l v = tapply l v'.
Proof.
  revert v v'. induction l as [|c l IH]; intros v v' H; [done|]. cbn [tapply].
  cbn [length] in H. rewrite <- !Z.bit0_odd, (H 0) by lia. f_equal. apply IH. intros i Hi.
  rewrite !Z.div2_spec, !Z.shiftr_spec by lia. apply H. lia.
Qed.

(** Table [k] of the code, its words joined. *)
Definition pow_table (k : nat) : list Z :=
  entries (POW_TABLE_0 !!! k) (POW_TABLE_1 !!! k) (POW_TABLE_2 !!! k) 192 0.

Lemma val_word_bits z k i :
  0 <= k < 3 -> 0 <= i < 64 ->
  Z.testbit (wrap_u 64 (word z k)) i = Z.testbit (Z.shiftr (val z) (64 * k)) i.
Proof.
  intros Hk Hi. rewrite wrap_u_testbit, Z.shiftr_spec, val_bits by lia.
  replace (i + 64 * k) with (i + k * 64) by lia.
  rewrite Z.div_add, Z.mod_add, Z.div_small, Z.mod_small by lia.
  destruct (Z.ltb_spec i 64); [|lia]. by destruct (Z.ltb_spec (i + k * 64) 192); [|lia].
Qed.

Lemma tapply_word t0 t1 t2 z k i :
  0 <= k < 3 ->
  tapply (entries t0 t1 t2 64 i) (wrap_u 64 (word z k)) =
  tapply (entries t0 t1 t2 64 i) (Z.shiftr (val z) (64 * k)).
Proof.
  intros Hk. apply tapply_low. intros j Hj. apply val_word_bits; [done|].
  rewrite length_entries in Hj. lia.
Qed.

Lemma val_pow_by_table z k : val (pow_by_table z k) = tapply (pow_table k) (val z).
Proof.
  unfold pow_by_table, pow_table. rewrite !val_pow_loop.
  generalize (POW_TABLE_0 !!! k), (POW_TABLE_1 !!! k), (POW_TABLE_2 !!! k). intros t0 t1 t2.
  assert (forall n m i, entries t0 t1 t2 (n + m) i =
    entries t0 t1 t2 n i ++ entries t0 t1 t2 m (i + n)) as Happ
    by (intros; unfold entries; by rewrite seq_app, fmap_app).
  change 192%nat with (64 + (64 + 64))%nat. rewrite !Happ.
  rewrite !tapply_app, !length_entries.
  rewrite Z.shiftr_shiftr by lia. cbn [Nat.add].
  pose proof (tapply_word t0 t1 t2 z 0 0 ltac:(lia)) as H0.
  pose proof (tapply_word t0 t1 t2 z 1 64 ltac:(lia)) as H1.
  pose proof (tapply_word t0 t1 t2 z 2 128 ltac:(lia)) as H2.
  rewrite Z.mul_0_r, Z.shiftr_0_r in H0. cbn [word] in H0, H1, H2.
  unfold word in H0, H1, H2. cbn [Z.eqb Pos.eqb] in H0, H1, H2. rewrite H0, H1, H2.
  change (val gf_new) with 0. by rewrite Z.lxor_0_l, Z.lxor_assoc.
Qed.

(** The tables are those of the powers 2^(2^k): the first is squaring, each other one the
    composition of the previous one with itself. *)
Lemma pow_table_0 : pow_table 0 = square_table 192 1.
Proof. vm_compute. reflexivity. Qed.

Lemma pow_table_succ k : (k < 6)%nat -> pow_table (S k) = tapply (pow_table k) <$> pow_table k.
Proof.
  intros Hk. do 6 (destruct k as [|k]; [vm_compute; reflexivity|]). lia.
Qed.

Lemma length_pow_table k : length (pow_table k) = 192%nat.
Proof. apply length_entries. Qed.

Lemma pow_table_frob k : (k <= 6)%nat -> frob_table (2 ^ k) (pow_table k).
Proof.
  induction k as [|k IH]; intros Hk.
  - rewrite pow_table_0. apply frob_table_1.
  - rewrite pow_table_succ by lia. replace (2 ^ S k)%nat with (2 ^ k + 2 ^ k)%nat by (cbn; lia).
    apply frob_table_comp; [apply length_pow_table|apply IH; lia..].
Qed.

Lemma gf_pow_by_table_spec z k : (k <= 6)%nat -> gf (pow_by_table z k) = frob (2 ^ k) (gf z).
Proof.
  intros Hk. apply F_eq. rewrite <- (pow_table_frob k) by done. rewrite !fv_gf.
  apply val_pow_by_table.
Qed.

(** Squaring 192 times is the identity. *)
Lemma pow_table_cube :
  tapply (pow_table 6) <$> (tapply (pow_table 6) <$> pow_table 6) =
  (fun i => 2 ^ Z.of_nat i) <$> seq 0 192.
Proof. vm_compute. reflexivity. Qed.

Lemma frob_192 a : frob 192 a = a.
Proof.
  assert (frob_table 192 ((fun i => 2 ^ Z.of_nat i) <$> seq 0 192)) as H.
  { rewrite <- pow_table_cube. change 192%nat with (64 + (64 + 64))%nat.
    pose proof (pow_table_frob 6 ltac:(lia)) as H6.
    assert (2 ^ 6 = 64)%nat as E by reflexivity. rewrite E in H6.
    apply frob_table_comp; [by rewrite length_fmap, length_pow_table|done|].
    apply frob_table_comp; [by rewrite length_pow_table|done..]. }
  apply F_eq. rewrite <- H. generalize (fv a), (fe_fv a).
  apply linear_ext192; [apply tapply_linear|apply linear_id|].
  intros i Hi. rewrite tapply_pow2, nth_lookup, list_lookup_fmap, lookup_seq_lt by done. done.
Qed.

(** ** Inversion *)

(** The certificate: a linear map that recovers [a], up to its bit 0, from [a * a + a]. *)
Lemma artin_schreier_check :
  forallb (fun i => tapply artin_schreier_inv
      (Z.lxor (nth i (square_table 192 1) 0) (2 ^ Z.of_nat i)) =?
      (if (i =? 0)%nat then 0 else 2 ^ Z.of_nat i)) (seq 0 192) = true.
Proof. vm_compute. reflexivity. Qed.

Lemma land_m2_pow2 i : Z.land (2 ^ Z.of_nat i) (-2) = if (i =? 0)%nat then 0 else 2 ^ Z.of_nat i.
Proof.
  apply Z.bits_inj'. intros j Hj. rewrite Z.land_spec.
  assert (Z.testbit (-2) j = negb (j =? 0)) as ->.
  { change (-2) with (Z.lnot 1). rewrite Z.lnot_spec by done. by destruct j. }
  rewrite Z.pow2_bits_eqb by lia.
  destruct (Nat.eqb_spec i 0) as [->|]; [rewrite Z.bits_0|rewrite Z.pow2_bits_eqb by lia];
    match goal with |- context [?k =? j] => destruct (Z.eqb_spec k j), (Z.eqb_spec j 0) end;
    cbn [negb andb]; done || lia.
Qed.

Lemma artin_schreier a : tapply artin_schreier_inv (fv (a * a + a)%gf) = Z.land (fv a) (-2).
Proof.
  rewrite fv_add, <- (frob_table_1 a : _ = fv (a * a)%gf). generalize (fv a), (fe_fv a).
  apply linear_ext192.
  - apply (linear_comp (tapply artin_schreier_inv)
      (fun v => Z.lxor (tapply (square_table 192 1) v) v)); [apply tapply_linear|].
    apply linear_lxor; [apply tapply_linear|apply linear_id].
  - apply linear_land.
  - intros i Hi. rewrite land_m2_pow2, tapply_pow2. apply Z.eqb_eq.
    pose proof artin_schreier_check as H. rewrite forallb_forall in H. apply H, in_seq. lia.
Qed.

(** The ring has no idempotent but 0 and 1. *)
Lemma F_idempotent e : (e * e = e)%gf -> e = 0%gf \/ e = 1%gf.
Proof.
  intros He. pose proof (artin_schreier e) as H. rewrite He, F_self_add in H.
  change (fv 0%gf) with 0 in H. rewrite (linear_0 _ (tapply_linear _)) in H.
  pose proof (fe_fv e) as [Hr _].
  assert (fv e = Z.land (fv e) 1) as E.
  { apply Z.bits_inj'. intros i Hi. rewrite Z.land_spec.
    assert (Z.testbit (Z.land (fv e) (-2)) i = false) as Hb by by rewrite <- H, Z.bits_0.
    rewrite Z.land_spec in Hb. change (-2) with (Z.lnot 1) in Hb.
    rewrite Z.lnot_spec in Hb by done. destruct (Z.testbit (fv e) i), (Z.testbit 1 i); done. }
  destruct (land_1_bit (fv e)) as [H1|H1]; rewrite H1 in E; [left|right]; by apply F_eq.
Qed.

Lemma F_unit_of_fixed a e f : a <> 0%gf -> (a * e = a)%gf -> (e = a * f)%gf -> e = 1%gf.
Proof.
  intros Ha Hae He. destruct (F_idempotent e) as [E|E]; [| |done].
  - transitivity (a * e * f)%gf; [rewrite He; ring|]. by rewrite Hae, <- He.
  - destruct Ha. rewrite <- Hae, E. ring.
Qed.

Lemma Fpow_eq a n m : n = m -> (a ^ n = a ^ m)%gf.
Proof. by intros ->. Qed.

Lemma F_fermat a : a <> 0%gf -> (a ^ (2 ^ 192 - 1)%N = 1)%gf.
Proof.
  intros Ha. apply (F_unit_of_fixed a _ (a ^ (2 ^ 192 - 2)%N)%gf Ha).
  - rewrite <- Fpow_succ. transitivity (frob 192 a); [|apply frob_192].
    rewrite frob_pow. apply Fpow_eq. vm_compute. reflexivity.
  - rewrite <- Fpow_succ. apply Fpow_eq. vm_compute. reflexivity.
Qed.

(** Every nonzero element has its power 2^192 - 2 as inverse. *)
Lemma F_inv_r a : a <> 0%gf -> (a * a ^ (2 ^ 192 - 2)%N = 1)%gf.
Proof.
  intros Ha. transitivity (a ^ (2 ^ 192 - 1)%N)%gf; [|exact (F_fermat a Ha)].
  rewrite <- Fpow_succ. apply Fpow_eq. vm_compute. reflexivity.
Qed.

Lemma F_has_inv a : a <> 0%gf -> exists i, (a * i = 1)%gf.
Proof. intros Ha. eexists. exact (F_inv_r a Ha). Qed.

Lemma F_integral a b : (a * b = 0)%gf -> a = 0%gf \/ b = 0%gf.
Proof.
  intros H. destruct (decide (a = 0%gf)) as [Ha|Ha]; [by left|right].
  destruct (F_has_inv a Ha) as [i Hi].
  transitivity (b * (a * i))%gf; [rewrite Hi; ring|].
  transitivity (a * b * i)%gf; [ring|]. rewrite H. ring.
Qed.

(** Exponents of the powers that [invert] keeps. *)
Definition invert_exps (s : N * N * N) (k : nat) : N * N * N :=
  let '(ones, ones_zeros, res) := s in
  let ones := (ones_zeros + ones)%N in
  let ones_zeros := (ones * 2 ^ N.of_nat (2 ^ k))%N in
  (ones, ones_zeros, (res + ones_zeros)%N).

Definition powers_of (z : F) (s : Gf2_192 * Gf2_192 * Gf2_192) (e : N * N * N) : Prop :=
  gf (s.1.1) = (z ^ e.1.1)%gf /\ gf (s.1.2) = (z ^ e.1.2)%gf /\ gf (s.2) = (z ^ e.2)%gf.

Lemma gf_power_spec z k : (k <= 6)%nat -> gf (power_2_to_2_to_k z k) = frob (2 ^ k) (gf z).
Proof.
  intros Hk. unfold power_2_to_2_to_k. destruct (Nat.leb_spec 7 k); [lia|].
  by apply gf_pow_by_table_spec.
Qed.

Lemma invert_step_powers z s e k :
  (k <= 6)%nat -> powers_of z s e -> powers_of z (invert_step s k) (invert_exps e k).
Proof.
  intros Hk. destruct s as [[s1 s2] s3], e as [[e1 e2] e3]. unfold powers_of.
  cbn [fst snd invert_step invert_exps]. intros (H1 & H2 & H3).
  rewrite !gf_mul_spec, !gf_power_spec, !gf_mul_spec, frob_pow by done.
  rewrite H1, H2, H3. by rewrite <- !Fpow_add, Fpow_pow, <- Fpow_add.
Qed.

Lemma invert_steps_powers z ks s e :
  Forall (fun k => k <= 6)%nat ks -> powers_of z s e ->
  powers_of z (fold_left invert_step ks s) (fold_left invert_exps ks e).
Proof.
  revert s e. induction ks as [|k ks IH]; intros s e Hks H; [done|].
  apply Forall_cons in Hks as [Hk Hks]. apply IH; [done|]. by apply invert_step_powers.
Qed.

Lemma gf_invert_pow z : gf (invert z) = (gf z ^ (2 ^ 192 - 2)%N)%gf.
Proof.
  unfold invert.
  pose proof (invert_steps_powers (gf z) [1; 2; 3; 4; 5; 6]%nat
    (z, multiply z z, multiply z z) (1, 2, 2)%N) as H.
  destruct (fold_left invert_step _ _) as [[s1 s2] s3].
  destruct H as (H1 & H2 & H3).
  - repeat constructor; lia.
  - unfold powers_of. cbn [fst snd]. by rewrite gf_mul_spec, Fpow_1, Fpow_2.
  - rewrite gf_mul_spec, gf_power_spec, frob_pow by lia. cbn [fst snd] in H2, H3.
    rewrite H2, H3, Fpow_pow, <- Fpow_add. apply Fpow_eq. vm_compute. reflexivity.
Qed.

(** ** The operations keep the words in range *)

Lemma in_s64_lxor a b : in_s 64 a -> in_s 64 b -> in_s 64 (Z.lxor a b).
Proof. by apply in_s_lxor. Qed.
Lemma in_s64_lor a b : in_s 64 a -> in_s 64 b -> in_s 64 (Z.lor a b).
Proof. by apply in_s_lor. Qed.
Lemma in_s64_wrap z : in_s 64 (wrap_s 64 z).
Proof. by apply wrap_s_range. Qed.
Lemma in_s64_shl a s : in_s 64 (shl64 a s).
Proof. apply in_s64_wrap. Qed.
Lemma in_s64_lrs a s : in_s 64 (lrs_i64 a s).
Proof. apply in_s64_wrap. Qed.
Lemma in_s64_mul a b : in_s 64 (mul64 a b).
Proof. apply in_s64_wrap. Qed.
Lemma in_s64_0 : in_s 64 0.
Proof. by apply in_s_0. Qed.
Lemma in_s64_IRRED_MULS i : in_s 64 (IRRED_MULS !!! i).
Proof.
  apply Forall_lookup_total_default; [|exact in_s64_0].
  apply Forall_in_s_check. vm_compute. reflexivity.
Qed.
#[export] Hint Resolve in_s64_lxor in_s64_lor in_s64_shl in_s64_lrs in_s64_mul in_s64_0
  in_s64_IRRED_MULS : sigma.

Definition muls_wf (m : muls) : Prop :=
  Forall (in_s 64) (a0muls m) /\ Forall (in_s 64) (a1muls m) /\ Forall (in_s 64) (a2muls m).

Lemma muls_set_wf m i g : muls_wf m -> gf_wf g -> muls_wf (muls_set m i g).
Proof.
  intros (H0 & H1 & H2) (G0 & G1 & G2).
  split; [|split]; cbn; by apply Forall_insert.
Qed.

Lemma mul_at_wf m i : muls_wf m -> gf_wf (mul_at m i).
Proof.
  intros (H0 & H1 & H2). split; [|split]; cbn; apply Forall_lookup_total_default; done || exact in_s64_0.
Qed.

Lemma gf_add_wf a b : gf_wf a -> gf_wf b -> gf_wf (gf_add a b).
Proof. intros (?&?&?) (?&?&?). split; [|split]; cbn; auto with sigma. Qed.

Lemma muls_double_wf m i : muls_wf m -> muls_wf (muls_double m i).
Proof.
  intros H. pose proof (mul_at_wf m (i / 2) H) as (?&?&?). destruct H as (?&?&?).
  split; [|split]; cbn; apply Forall_insert; auto with sigma.
Qed.

Lemma muls_sum_wf m i j : muls_wf m -> muls_wf (muls_sum i m j).
Proof.
  intros H. change (muls_sum i m j) with
    (muls_set m (Nat.lor i j) (gf_add (mul_at m i) (mul_at m j))).
  apply muls_set_wf; [done|]. apply gf_add_wf; by apply mul_at_wf.
Qed.

Lemma muls_table_wf a : gf_wf a -> muls_wf (muls_table a).
Proof.
  intros (?&?&?). unfold muls_table. cbv zeta.
  apply fold_left_inv; [|intros; by apply muls_sum_wf].
  apply fold_left_inv; [|intros; by apply muls_sum_wf].
  apply muls_sum_wf. apply fold_left_inv; [|intros; by apply muls_double_wf].
  assert (Forall (in_s 64) (replicate 16 0)) by (apply Forall_replicate; auto with sigma).
  split; [|split]; by apply Forall_insert.
Qed.

Lemma gf_new_wf : gf_wf gf_new.
Proof. split; [|split]; apply in_s64_0. Qed.

Lemma multiply_wf a b : gf_wf a -> gf_wf (multiply a b).
Proof.
  intros Ha. unfold multiply. apply fold_left_inv; [apply gf_new_wf|]. intros s m Hs.
  apply fold_left_inv; [done|]. intros s' i Hs'. rewrite multiply_step_add.
  apply gf_add_wf; [|apply mul_at_wf, muls_table_wf, Ha].
  split; [|split]; cbn; auto with sigma.
Qed.

Lemma mul_by_i8_wf a b : gf_wf (mul_by_i8 a b).
Proof.
  unfold mul_by_i8. apply fold_left_inv; [apply gf_new_wf|]. intros s i _.
  split; [|split]; cbn -[mul64 shl64 lrs_i64 lrs_i8]; auto with sigma.
Qed.

Lemma pow_loop_wf t0 t1 t2 n i w t : gf_wf t -> gf_wf (pow_loop t0 t1 t2 n i w t).
Proof.
  revert i w t. induction n as [|n IH]; intros i w t Ht; [done|]. cbn [pow_loop]. apply IH.
  destruct Ht as (?&?&?). split; [|split]; cbn [word_0 word_1 word_2]; auto with sigma.
Qed.

Lemma power_wf z k : gf_wf (power_2_to_2_to_k z k).
Proof.
  assert (forall z k, gf_wf (pow_by_table z k)) as H
    by (intros; unfold pow_by_table; apply pow_loop_wf, pow_loop_wf, pow_loop_wf, gf_new_wf).
  unfold power_2_to_2_to_k. cbv zeta. destruct (7 <=? k)%nat; [destruct (Nat.odd k)|]; apply H.
Qed.

Lemma invert_wf z : gf_wf z -> gf_wf (invert z).
Proof.
  intros Hz. unfold invert.
  assert (let s := fold_left invert_step [1; 2; 3; 4; 5; 6]%nat (z, multiply z z, multiply z z) in
    gf_wf s.1.1 /\ gf_wf s.1.2 /\ gf_wf s.2) as H.
  { apply (fold_left_inv (fun s => gf_wf s.1.1 /\ gf_wf s.1.2 /\ gf_wf s.2)).
    - cbn [fst snd]. auto using multiply_wf.
    - intros [[s1 s2] s3] k (?&?&?). cbn [invert_step fst snd] in *.
      auto using multiply_wf, power_wf. }
  cbv zeta in H. destruct (fold_left invert_step _ _) as [[s1 s2] s3].
  apply multiply_wf. apply H.
Qed.

(** Elements in range are equal when they stand for the same field element. *)
Lemma val_inj g h : gf_wf g -> gf_wf h -> val g = val h -> g = h.
Proof.
  intros (G0 & G1 & G2) (H0 & H1 & H2) E.
  assert (forall k, 0 <= k < 3 -> in_s 64 (word g k) -> in_s 64 (word h k) -> word g k = word h k) as Hw.
  { intros k Hk Hg Hh. apply (in_s_bits_eq 64); [done..|]. intros i Hi.
    pose proof (val_word_bits g k i Hk Hi) as Eg. pose proof (val_word_bits h k i Hk Hi) as Eh.
    rewrite E, <- Eh, !wrap_u_testbit in Eg by lia.
    destruct (Z.ltb_spec i 64); [done|lia]. }
  destruct g, h. f_equal; [apply (Hw 0)|apply (Hw 1)|apply (Hw 2)]; done || lia.
Qed.

Lemma gf_inj g h : gf_wf g -> gf_wf h -> gf g = gf h -> g = h.
Proof. intros Hg Hh E. apply val_inj; [done..|]. by rewrite <- !fv_gf, E. Qed.

Lemma is_zero_spec g : gf_wf g -> is_zero g = true <-> gf g = 0%gf.
Proof.
  intros Hg. split.
  - destruct g as [a b c]. unfold is_zero. cbn. intros H.
    apply andb_prop in H as [[Ha Hb]%andb_prop Hc].
    apply Z.eqb_eq in Ha, Hb, Hc. subst. reflexivity.
  - intros H. assert (g = gf_new) as -> by (apply gf_inj; [done|apply gf_new_wf|done]). done.
Qed.

Lemma is_one_spec g : gf_wf g -> is_one g = true <-> gf g = 1%gf.
Proof.
  intros Hg. split.
  - destruct g as [a b c]. unfold is_one. cbn. intros H.
    apply andb_prop in H as [[Ha Hb]%andb_prop Hc].
    apply Z.eqb_eq in Ha, Hb, Hc. subst. reflexivity.
  - intros H. assert (g = mkGf 1 0 0) as ->; [|done].
    apply gf_inj; [done| |done]. by vm_compute.
Qed.

(** ** Byte conversions *)

Lemma byte_bit b i : 0 <= i -> Z.testbit (Z.land b 255) i = (i <? 8) && Z.testbit b i.
Proof.
  intros Hi. change 255 with (Z.ones 8). rewrite Z.land_spec, Z.testbit_ones_nonneg by lia.
  by rewrite andb_comm.
Qed.

Lemma in_u8_land b : in_u 8 (Z.land b 255).
Proof. change 255 with (Z.ones 8). rewrite Z.land_ones by lia. apply wrap_u_range. lia. Qed.

Definition byte_shift (i : nat) : Z := Z.shiftl (Z.of_nat i) 3.

Lemma byte_shift_mul i : byte_shift i = 8 * Z.of_nat i.
Proof. unfold byte_shift. rewrite Z.shiftl_mul_pow2 by lia. change (2 ^ 3) with 8. lia. Qed.

(** Bit [8 * q + r] of the bytes or-ed together. *)
Lemma bytes_fold_bits (f : nat -> Z) n w q r :
  (n <= 8)%nat -> 0 <= r < 8 -> (q < 8)%nat ->
  Z.testbit (fold_left (fun w i => Z.lor w (shl64 (Z.land (f i) 255) (byte_shift i))) (seq 0 n) w)
    (8 * Z.of_nat q + r) =
  Z.testbit w (8 * Z.of_nat q + r) || ((q <? n)%nat && Z.testbit (f q) r).
Proof.
  intros Hn Hr Hq. induction n as [|n IH].
  - cbn. by rewrite orb_false_r.
  - rewrite seq_S, fold_left_app. cbn [fold_left Nat.add].
    rewrite Z.lor_spec, IH by lia.
    rewrite shl64_testbit by (rewrite ?byte_shift_mul; lia). rewrite byte_shift_mul.
    destruct (lt_eq_lt_dec q n) as [[Hlt| ->]|Hgt].
    + destruct (Nat.ltb_spec q n); [|lia]. destruct (Nat.ltb_spec q (S n)); [|lia].
      rewrite (Z.testbit_neg_r _ (8 * Z.of_nat q + r - 8 * Z.of_nat n)) by lia.
      by rewrite orb_false_r.
    + replace (8 * Z.of_nat n + r - 8 * Z.of_nat n) with r by lia.
      rewrite byte_bit by lia. destruct (Z.ltb_spec r 8); [|lia].
      rewrite Nat.ltb_irrefl. destruct (Nat.ltb_spec n (S n)); [|lia].
      cbn [andb]. by rewrite ?orb_false_r.
    + rewrite byte_bit by lia. destruct (Z.ltb_spec (8 * Z.of_nat q + r - 8 * Z.of_nat n) 8); [lia|].
      destruct (Nat.ltb_spec q n); [lia|]. destruct (Nat.ltb_spec q (S n)); [lia|].
      by rewrite ?orb_false_r.
Qed.

Lemma bytes_word_bits bs j q r :
  0 <= r < 8 -> (q < 8)%nat ->
  Z.testbit (bytes_word bs j) (8 * Z.of_nat q + r) = Z.testbit (bs !!! (q + 8 * j)%nat) r.
Proof.
  intros Hr Hq. unfold bytes_word.
  pose proof (bytes_fold_bits (fun i => bs !!! (i + 8 * j)%nat) 8 0 q r) as H.
  unfold byte_shift in H. rewrite H by lia. rewrite Z.bits_0.
  by destruct (Nat.ltb_spec q 8); [|lia].
Qed.

Lemma length_gf_to_bytes g : length (gf_to_bytes g) = 24%nat.
Proof. reflexivity. Qed.

Lemma word_bytes_lookup w q : (q < 8)%nat -> word_bytes w !! q = Some (Z.land (Z.shiftr w (byte_shift q)) 255).
Proof. intros Hq. unfold word_bytes. by rewrite list_lookup_fmap, lookup_seq_lt by done. Qed.

Lemma gf_to_bytes_lookup g q j :
  (q < 8)%nat -> (j < 3)%nat ->
  gf_to_bytes g !! (q + 8 * j)%nat = Some (Z.land (Z.shiftr (word g (Z.of_nat j)) (byte_shift q)) 255).
Proof.
  intros Hq Hj. unfold gf_to_bytes.
  assert (forall w, length (word_bytes w) = 8%nat) as Hl by done.
  assert (j = 0 \/ j = 1 \/ j = 2)%nat as [-> | [-> | ->]] by lia.
  - rewrite Nat.mul_0_r, Nat.add_0_r, lookup_app_l by (rewrite Hl; lia). by apply word_bytes_lookup.
  - rewrite lookup_app_r, lookup_app_l by (rewrite !Hl; lia). rewrite Hl.
    replace (q + 8 * 1 - 8)%nat with q by lia. by apply word_bytes_lookup.
  - rewrite lookup_app_r, lookup_app_r by (rewrite !Hl; lia). rewrite !Hl.
    replace (q + 8 * 2 - 8 - 8)%nat with q by lia. by apply word_bytes_lookup.
Qed.

Lemma gf_to_bytes_total g q j :
  (q < 8)%nat -> (j < 3)%nat ->
  gf_to_bytes g !!! (q + 8 * j)%nat = Z.land (Z.shiftr (word g (Z.of_nat j)) (byte_shift q)) 255.
Proof. intros Hq Hj. by apply list_lookup_total_correct, gf_to_bytes_lookup. Qed.

Lemma in_s64_bytes_word bs j : in_s 64 (bytes_word bs j).
Proof. unfold bytes_word. apply fold_left_inv; auto with sigma. Qed.

Lemma gf_from_bytes_wf bs : gf_wf (gf_from_bytes bs).
Proof. split; [|split]; apply in_s64_bytes_word. Qed.

(** A bit position below 64 by byte. *)
Lemma bit_split i : 0 <= i < 64 -> exists q r, (q < 8)%nat /\ 0 <= r < 8 /\ i = 8 * Z.of_nat q + r.
Proof.
  intros Hi. exists (Z.to_nat (i / 8)), (i mod 8).
  pose proof (Z.div_mod i 8 ltac:(lia)). pose proof (Z.mod_pos_bound i 8 ltac:(lia)).
  lia.
Qed.

Lemma bytes_word_to_bytes g j :
  gf_wf g -> (j < 3)%nat -> bytes_word (gf_to_bytes g) j = word g (Z.of_nat j).
Proof.
  intros (H0 & H1 & H2) Hj. apply (in_s_bits_eq 64); [done|apply in_s64_bytes_word| |].
  - unfold word. destruct (Z.of_nat j =? 0), (Z.of_nat j =? 1); done.
  - intros i Hi. destruct (bit_split i Hi) as (q & r & Hq & Hr & ->).
    rewrite bytes_word_bits, gf_to_bytes_total, byte_bit by done || lia.
    destruct (Z.ltb_spec r 8); [|lia]. rewrite Z.shiftr_spec, byte_shift_mul by lia.
    cbn [andb]. f_equal. lia.
Qed.

Lemma gf_from_to_bytes g : gf_wf g -> gf_from_bytes (gf_to_bytes g) = g.
Proof.
  intros Hg. unfold gf_from_bytes. rewrite !bytes_word_to_bytes by (done || lia). by destruct g.
Qed.

(** Serializing an element to its 24 little-endian bytes and reading
    them back gives the same three words, so [From<Gf2_192> for [u8; 24]] and
    [From<[u8; 24]> for Gf2_192] lose nothing. *)
Theorem gf_bytes_roundtrip g : gf_wf g -> gf_try_from (gf_to_bytes g) = Ok g.
Proof.
  intros Hg. unfold gf_try_from. rewrite length_gf_to_bytes. cbn [Nat.ltb Nat.leb].
  by rewrite gf_from_to_bytes.
Qed.

Lemma gf_bytes_roundtrip_witness :
  gf_wf (mkGf (-1) 5 (2 ^ 62)) /\
  gf_try_from (gf_to_bytes (mkGf (-1) 5 (2 ^ 62))) = Ok (mkGf (-1) 5 (2 ^ 62)).
Proof.
  assert (gf_wf (mkGf (-1) 5 (2 ^ 62))) as H by (unfold gf_wf, in_s; cbn; lia).
  split; [exact H|exact (gf_bytes_roundtrip _ H)].
Defined.

Lemma gf_to_from_bytes_take bs :
  byte_list bs -> (24 <= length bs)%nat -> gf_to_bytes (gf_from_bytes bs) = take 24 bs.
Proof.
  intros Hbs Hlen.
  apply list_eq_same_length with 24%nat; [rewrite length_take; lia|by rewrite length_gf_to_bytes|].
  intros i x y Hi Hx Hy. rewrite lookup_take_lt in Hy by done.
  assert (exists q j, (q < 8)%nat /\ (j < 3)%nat /\ i = q + 8 * j)%nat as (q & j & Hq & Hj & ->).
  { exists (i mod 8)%nat, (i / 8)%nat. pose proof (Nat.div_mod i 8 ltac:(lia)).
    pose proof (Nat.mod_upper_bound i 8 ltac:(lia)). lia. }
  rewrite gf_to_bytes_lookup in Hx by done. simplify_eq.
  apply (in_u_bits_eq 8); [done|apply in_u8_land|by eapply (proj1 (Forall_lookup _ _))|].
  intros r Hr. rewrite byte_bit, Z.shiftr_spec, byte_shift_mul by lia.
  destruct (Z.ltb_spec r 8); [|lia]. cbn [andb].
  assert (word (gf_from_bytes bs) (Z.of_nat j) = bytes_word bs j) as ->
    by (assert (j = 0 \/ j = 1 \/ j = 2)%nat as [-> | [-> | ->]] by lia; done).
  rewrite Z.add_comm, bytes_word_bits by done. by erewrite list_lookup_total_correct.
Qed.

Lemma gf_to_from_bytes bs :
  byte_list bs -> length bs = 24%nat -> gf_to_bytes (gf_from_bytes bs) = bs.
Proof. intros Hbs Hl. rewrite gf_to_from_bytes_take by (done || lia). apply take_ge. lia. Qed.

(** Every 24 bytes stand for exactly one element: reading any byte
    string of at least 24 bytes succeeds and writing the element gives its first 24 bytes
    back, and a shorter string is the error of [try_from]. *)
Theorem gf_from_bytes_bytes bs :
  byte_list bs ->
  (length bs < 24)%nat /\ gf_try_from bs = Err Gf2_192TryFromByteArrayError \/
  exists g, gf_try_from bs = Ok g /\ gf_wf g /\ gf_to_bytes g = take 24 bs.
Proof.
  intros Hbs. unfold gf_try_from. destruct (Nat.ltb_spec (length bs) 24); [by left|right].
  eexists. split; [done|]. split; [apply gf_from_bytes_wf|]. by apply gf_to_from_bytes_take.
Qed.

Lemma gf_from_bytes_bytes_witness :
  byte_list (Z.of_nat <$> seq 7 30) /\
  exists g, gf_try_from (Z.of_nat <$> seq 7 30) = Ok g /\ gf_wf g /\
    gf_to_bytes g = Z.of_nat <$> seq 7 24.
Proof.
  assert (byte_list (Z.of_nat <$> seq 7 30)) as H
    by (apply Forall_forall; intros x; rewrite list_elem_of_fmap;
        intros (y & -> & [? ?]%elem_of_seq); unfold in_u; lia).
  split; [exact H|]. destruct (gf_from_bytes_bytes _ H) as [[Hl _]|Hg]; [|exact Hg].
  exfalso. revert Hl. vm_compute. lia.
Defined.

(** ** The arithmetic theorems *)

Lemma frob_period n j a : frob (n + 192 * j) a = frob n a.
Proof.
  induction j as [|j IH]; [by rewrite Nat.mul_0_r, Nat.add_0_r|].
  replace (n + 192 * S j)%nat with (n + 192 * j + 192)%nat by lia.
  by rewrite <- frob_frob, frob_192.
Qed.

(** 2^k is 64 or 128 modulo 192 from k = 6 on, by the parity of k. *)
Lemma pow2_mod_192 k : (6 <= k)%nat -> exists j,
  (2 ^ k = (if Nat.odd k then 128 else 64) + 192 * j)%nat.
Proof.
  intros Hk. induction k as [k IH] using lt_wf_ind.
  destruct (decide (k = 6)%nat) as [->|]; [exists 0%nat; reflexivity|].
  destruct (decide (k = 7)%nat) as [->|]; [exists 0%nat; reflexivity|].
  destruct (IH (k - 2)%nat) as [j Hj]; [lia..|].
  assert (k = S (S (k - 2))) as E by lia. rewrite E.
  rewrite !Nat.pow_succ_r', Hj, Nat.odd_succ_succ.
  destruct (Nat.odd (k - 2)); [exists (2 + 4 * j)%nat|exists (1 + 4 * j)%nat]; lia.
Qed.

Lemma gf_power_all z k : gf (power_2_to_2_to_k z k) = frob (2 ^ k) (gf z).
Proof.
  destruct (decide (k <= 6)%nat) as [|Hk]; [by apply gf_power_spec|].
  destruct (pow2_mod_192 k) as [j ->]; [lia|]. rewrite frob_period.
  unfold power_2_to_2_to_k. destruct (Nat.leb_spec 7 k); [|lia]. cbv zeta.
  assert (2 ^ 6 = 64)%nat as E by reflexivity.
  destruct (Nat.odd k); rewrite !gf_pow_by_table_spec, !E by lia; [|done].
  apply (frob_frob 64 64).
Qed.

Lemma gf_iter_square n z : gf (Nat.iter n (fun y => multiply y y) z) = frob n (gf z).
Proof. induction n as [|n IH]; [done|]. rewrite Nat.iter_succ, gf_mul_spec, IH. done. Qed.

Lemma iter_square_wf n z : gf_wf z -> gf_wf (Nat.iter n (fun y => multiply y y) z).
Proof. intros Hz. induction n; [done|]. rewrite Nat.iter_succ. by apply multiply_wf. Qed.

Lemma gf_from_i32_wf v : in_u 32 v -> gf_wf (gf_from_i32 v).
Proof.
  intros Hv. split; [|split; apply in_s64_0]. cbn [gf_from_i32 word_0].
  change 4294967295 with (Z.ones 32). rewrite Z.land_ones by lia.
  pose proof (wrap_u_range 32 v ltac:(lia)) as H. unfold wrap_u, in_u, in_s in *. lia.
Qed.

Lemma gf_gf_from_i32 v : in_u 32 v -> gf (gf_from_i32 v) = toF v.
Proof.
  intros Hv. apply F_eq. rewrite fv_gf, fv_toF by (unfold in_u in *; lia).
  unfold val, gf_from_i32. cbn [word_0 word_1 word_2].
  change 4294967295 with (Z.ones 32). rewrite Z.land_ones by lia.
  change (v mod 2 ^ 32) with (wrap_u 32 v). rewrite (wrap_u_id 32) by done.
  rewrite (wrap_u_id 64) by (unfold in_u in *; lia).
  apply Z.lor_0_r.
Qed.

(** C16: the table-driven multiplication is multiplication of polynomials over
    GF(2) modulo x^192 + x^7 + x^2 + x + 1: the three words of the product are in range and
    their value is the Horner product [gmul] of the operands' values. *)
Theorem multiply_correct a b :
  gf_wf a -> gf_wf (multiply a b) /\ val (multiply a b) = gmul (val a) (val b).
Proof. intros Ha. split; [by apply multiply_wf|apply val_multiply]. Qed.

Lemma multiply_correct_witness :
  gf_wf (mkGf (-1) 0 (- 2 ^ 63)) /\
  val (multiply (mkGf (-1) 0 (- 2 ^ 63)) (mkGf 2 0 0)) = Z.lxor (2 ^ 65 - 2) 135.
Proof.
  assert (gf_wf (mkGf (-1) 0 (- 2 ^ 63))) as H by (unfold gf_wf, in_s; cbn; lia).
  split; [exact H|].
  destruct (multiply_correct _ (mkGf 2 0 0) H) as [_ E]. rewrite E. vm_compute. reflexivity.
Defined.

(** Multiplying by a byte gives exactly the product with the element that
    has that byte, read as u8, in its low eight bits. *)
Theorem mul_by_i8_correct a b :
  gf_wf a -> mul_by_i8 a b = multiply a (gf_from_i32 (wrap_u 8 b)).
Proof.
  intros Ha. apply gf_inj; [apply mul_by_i8_wf|by apply multiply_wf|].
  rewrite gf_mul_by_i8_spec, gf_mul_spec, gf_gf_from_i32; [done|].
  pose proof (wrap_u_range 8 b ltac:(lia)). unfold in_u in *. lia.
Qed.

Lemma mul_by_i8_correct_witness :
  gf_wf (mkGf 1 2 3) /\ mul_by_i8 (mkGf 1 2 3) (-2) = multiply (mkGf 1 2 3) (mkGf 254 0 0).
Proof.
  assert (gf_wf (mkGf 1 2 3)) as H by (unfold gf_wf, in_s; cbn; lia).
  split; [exact H|exact (mul_by_i8_correct _ (-2) H)].
Defined.

(** [power_2_to_2_to_k z k] is [z] squared 2^k times, for every [k]: the
    tables for [k <= 6], and the reduction of the exponent for larger [k]. *)
Theorem power_correct z k :
  gf_wf z -> power_2_to_2_to_k z k = Nat.iter (2 ^ k) (fun y => multiply y y) z.
Proof.
  intros Hz. apply gf_inj; [apply power_wf|by apply iter_square_wf|].
  by rewrite gf_power_all, gf_iter_square.
Qed.

Lemma power_correct_witness :
  gf_wf (mkGf 7 0 (-1)) /\
  power_2_to_2_to_k (mkGf 7 0 (-1)) 9 = Nat.iter (2 ^ 9) (fun y => multiply y y) (mkGf 7 0 (-1)).
Proof.
  assert (gf_wf (mkGf 7 0 (-1))) as H by (unfold gf_wf, in_s; cbn; lia).
  split; [exact H|exact (power_correct _ 9 H)].
Defined.

(** Inversion is total and right: a nonzero element times its inverse is
    one, and zero is sent to zero. *)
Theorem invert_correct z :
  gf_wf z ->
  gf_wf (invert z) /\
  if is_zero z then invert z = gf_new else is_one (multiply z (invert z)) = true.
Proof.
  intros Hz. split; [by apply invert_wf|]. destruct (is_zero z) eqn:E.
  - apply is_zero_spec in E; [|done]. apply gf_inj; [by apply invert_wf|apply gf_new_wf|].
    rewrite gf_invert_pow, E. change (2 ^ 192 - 2)%N with (N.succ (N.pred (2 ^ 192 - 2))).
    rewrite Fpow_succ. change (gf gf_new) with 0%gf. ring.
  - apply is_one_spec; [by apply multiply_wf|]. rewrite gf_mul_spec, gf_invert_pow.
    apply F_inv_r. intros H. apply is_zero_spec in H; [|done]. congruence.
Qed.

Lemma invert_correct_witness :
  gf_wf (mkGf 2 0 0) /\ is_one (multiply (mkGf 2 0 0) (invert (mkGf 2 0 0))) = true.
Proof.
  assert (gf_wf (mkGf 2 0 0)) as H by (unfold gf_wf, in_s; cbn; lia).
  split; [exact H|exact (proj2 (invert_correct _ H))].
Defined.
