(* ===== verification/Gf2_192Poly.v ===== *)
(** Polynomials over GF(2^192) on the domain of bytes (src/gf2_192/src/gf2_192poly.rs):
    interpolation, evaluation and the byte representation, proved against sums of powers in
    the field of file Gf2Field. An index out of range panics in the source; [poly_wf] is the
    invariant under which none is, and every polynomial the public operations build has it. *)

From S2P Require Import Prelude Gf2Field Gf2_192.

#[export] Instance Gf2_192_inhabited : Inhabited Gf2_192 := populate gf_new.

Record Gf2_192Poly : Type := mkPoly { coefficients : list Gf2_192; degree : nat }.

#[export] Instance Gf2_192_eq_dec : EqDecision Gf2_192.
Proof. solve_decision. Defined.
#[export] Instance Gf2_192Poly_eq_dec : EqDecision Gf2_192Poly.
Proof. solve_decision. Defined.

(** [CoefficientsByteRepr] *)
Record CoefficientsByteRepr : Type := mkCoeffs { coeff0 : list Z; more_coeffs : list Z }.

Definition make_constant (max_degree : nat) (constant_term : Z) : Gf2_192Poly :=
  mkPoly (<[0%nat := gf_from_i32 constant_term]> (replicate (max_degree + 1) gf_new)) 0.

Definition evaluate (p : Gf2_192Poly) (x : Z) : Gf2_192 :=
  fold_left
    (fun res d => gf_add (mul_by_i8 res (wrap_s 8 x)) (coefficients p !!! d))
    (rev (seq 0 (degree p))) (coefficients p !!! degree p).

Definition add_monic_times_constant (self p : Gf2_192Poly) (r : Gf2_192) : Gf2_192Poly :=
  let cs := fold_left
    (fun cs i => <[i := gf_add (cs !!! i) (multiply (coefficients p !!! i) r)]> cs)
    (seq 0 (degree p)) (coefficients self) in
  mkPoly (<[degree p := r]> cs) (degree p).

Definition multiply_by_linear_binomial (self : Gf2_192Poly) (r : Z) : Gf2_192Poly :=
  let d := S (degree self) in
  let cs := <[d := gf_from_i32 1]> (coefficients self) in
  let cs := fold_left
    (fun cs i =>
       let cs := <[i := mul_by_i8 (cs !!! i) r]> cs in
       <[i := gf_add (cs !!! i) (cs !!! (i - 1)%nat)]> cs)
    (rev (seq 1 (d - 1))) cs in
  mkPoly (<[0%nat := mul_by_i8 (cs !!! 0%nat) r]> cs) d.

(** One point of the loop of [interpolate], on the pair of the result so far and the
    vanishing polynomial of the points so far. *)
Definition interpolate_step (s : Gf2_192Poly * Gf2_192Poly) (pv : Z * Gf2_192) :
    Gf2_192Poly * Gf2_192Poly :=
  let '(res, vanishing) := s in
  let '(point, value) := pv in
  let t := gf_add (evaluate res point) value in
  let t := multiply t (invert (evaluate vanishing point)) in
  (add_monic_times_constant res vanishing t,
   multiply_by_linear_binomial vanishing (wrap_s 8 point)).

Definition interpolate (points : list Z) (values : list Gf2_192) (value_at_zero : Gf2_192) :
    result Gf2_192PolyError Gf2_192Poly :=
  if negb (length points =? length values)%nat
  then Err InterpolatePointsAndValuesLengthDiffer
  else
    let result_degree := length values in
    let '(res, vanishing) := fold_left interpolate_step (zip points values)
      (make_constant result_degree 0, make_constant result_degree 1) in
    let t := gf_add (coefficients res !!! 0%nat) value_at_zero in
    let t := multiply t (invert (coefficients vanishing !!! 0%nat)) in
    Ok (add_monic_times_constant res vanishing t).

(** The [unwrap] of [to_i8_slice] panics on the error value. *)
Definition poly_to_bytes (p : Gf2_192Poly) : result Gf2_192Error (list Z) :=
  res ← fold_left
    (fun acc i => res ← acc; to_i8_slice (coefficients p !!! i) res ((i - 1) * 24))
    (seq 1 (degree p)) (Ok (replicate (degree p * 24) 0));
  Ok (wrap_u 8 <$> res).

Definition poly_try_from (c : CoefficientsByteRepr) : result Gf2_192Error Gf2_192Poly :=
  let d := (length (more_coeffs c) / 24)%nat in
  cs ← mapM_res (fun i => gf_try_from (drop ((i - 1) * 24) (more_coeffs c))) (seq 1 d);
  Ok (mkPoly (gf_from_bytes (coeff0 c) :: cs) d).

(** * Sums of powers *)

Section sums.
Local Open Scope gf_scope.

(** The sum of [c i * x^i] for [i < n]. *)
Fixpoint psum (c : nat -> F) (n : nat) (x : F) : F :=
  match n with
  | O => 0
  | S n => psum c n x + c n * x ^ N.of_nat n
  end.

Lemma psum_ext c c' n x : (forall i, (i < n)%nat -> c i = c' i) -> psum c n x = psum c' n x.
Proof.
  induction n as [|n IH]; intros H; cbn [psum]; [done|]. by rewrite IH, H by eauto with lia.
Qed.

Lemma psum_add c c' n x : psum (fun i => c i + c' i) n x = psum c n x + psum c' n x.
Proof. induction n as [|n IH]; cbn [psum]; [ring|]. rewrite IH. ring. Qed.

Lemma psum_scale c r n x : psum (fun i => c i * r) n x = psum c n x * r.
Proof. induction n as [|n IH]; cbn [psum]; [ring|]. rewrite IH. ring. Qed.

Lemma psum_head c n x : psum c (S n) x = c 0%nat + x * psum (fun i => c (S i)) n x.
Proof.
  induction n as [|n IH]; [cbn [psum]; rewrite Fpow_0; ring|].
  transitivity (psum c (S n) x + c (S n) * x ^ N.of_nat (S n)); [done|].
  rewrite IH. cbn [psum]. rewrite Nat2N.inj_succ, Fpow_succ. ring.
Qed.

(** Multiplying by [x + r], coefficient by coefficient. *)
Lemma psum_linear c c' r n x :
  c' 0%nat = c 0%nat * r ->
  (forall i, (S i < n)%nat -> c' (S i) = c (S i) * r + c i) -> c' n = c (n - 1)%nat ->
  (0 < n)%nat ->
  psum c' (S n) x = (x + r) * psum c n x.
Proof.
  intros H0 HS Hn Hpos.
  assert (forall m, (S m <= n)%nat -> psum c' (S m) x = psum c (S m) x * r + x * psum c m x) as H.
  { induction m as [|m IH]; intros Hm; cbn [psum].
    - rewrite H0, Fpow_0. ring.
    - cbn [psum] in IH. rewrite IH, HS by lia. rewrite Nat2N.inj_succ, Fpow_succ. ring. }
  cbn [psum]. rewrite Hn. destruct n as [|n]; [lia|]. rewrite (H n) by lia.
  replace (S n - 1)%nat with n by lia. cbn [psum]. rewrite Nat2N.inj_succ, Fpow_succ. ring.
Qed.

Lemma psum_at_0 c n : (0 < n)%nat -> psum c n 0 = c 0%nat.
Proof. intros Hn. destruct n as [|n]; [lia|]. rewrite psum_head. ring. Qed.
End sums.

(** * The loops, entry by entry *)

Section loops.
Context {A : Type} `{!Inhabited A}.
Implicit Types (cs : list A) (f : nat -> A -> A) (g : A -> A -> A).

Lemma total_insert cs i j x :
  (i < length cs)%nat -> <[i := x]> cs !!! j = if decide (j = i) then x else cs !!! j.
Proof.
  intros Hi. destruct (decide (j = i)) as [->|].
  - by apply list_lookup_total_insert_eq.
  - by apply list_lookup_total_insert_ne.
Qed.

(** [for i in 0..n { cs[i] = f(i, cs[i]) }] *)
Lemma update_loop f n cs :
  (n <= length cs)%nat ->
  let cs' := fold_left (fun cs i => <[i := f i (cs !!! i)]> cs) (seq 0 n) cs in
  length cs' = length cs /\
  forall j, cs' !!! j = if decide (j < n)%nat then f j (cs !!! j) else cs !!! j.
Proof.
  cbv zeta. induction n as [|n IH]; intros Hn; [done|].
  rewrite seq_S, fold_left_app. cbn [fold_left Nat.add].
  destruct IH as [Hl IH]; [lia|]. rewrite length_insert, Hl. split; [done|].
  intros j. rewrite total_insert by lia. rewrite !IH.
  destruct (decide (j = n)) as [->|]; repeat case_decide; done || lia.
Qed.

(** [for i in (1..=n).rev() { cs[i] = g(cs[i], cs[i - 1]) }] *)
Lemma shift_loop g n cs :
  (n < length cs)%nat ->
  let cs' := fold_left (fun cs i => <[i := g (cs !!! i) (cs !!! (i - 1)%nat)]> cs)
               (rev (seq 1 n)) cs in
  length cs' = length cs /\
  forall j, cs' !!! j = if decide (1 <= j <= n)%nat then g (cs !!! j) (cs !!! (j - 1)%nat)
                        else cs !!! j.
Proof.
  cbv zeta. revert cs. induction n as [|n IH]; intros cs Hn.
  { split; [done|]. intros j. case_decide; [lia|done]. }
  rewrite seq_S, rev_app_distr. cbn [rev app fold_left Nat.add].
  destruct (IH (<[S n := g (cs !!! S n) (cs !!! (S n - 1)%nat)]> cs)) as [Hl H];
    [rewrite length_insert; lia|].
  rewrite Hl, length_insert. split; [done|]. intros j. rewrite H, !total_insert by lia.
  destruct (decide (j = S n)) as [->|]; repeat case_decide; done || lia.
Qed.
End loops.

(** * The operations as polynomials *)

(** Room for degree [n], all coefficients in range. *)
Definition poly_room (n : nat) (p : Gf2_192Poly) : Prop :=
  length (coefficients p) = (n + 1)%nat /\ (degree p <= n)%nat /\
  Forall gf_wf (coefficients p).

Definition poly_wf (p : Gf2_192Poly) : Prop := exists n, poly_room n p.

Definition cf (p : Gf2_192Poly) (i : nat) : F := gf (coefficients p !!! i).

Lemma coef_wf n p i : poly_room n p -> gf_wf (coefficients p !!! i).
Proof. intros (_ & _ & H). apply Forall_lookup_total_default; [done|apply gf_new_wf]. Qed.

Lemma poly_room_intro n cs d :
  length cs = (n + 1)%nat -> (d <= n)%nat -> (forall i, gf_wf (cs !!! i)) -> poly_room n (mkPoly cs d).
Proof.
  intros Hl Hd Hwf. split; [done|]. split; [done|]. apply Forall_lookup. intros i x Hx. cbn in Hx.
  specialize (Hwf i). by erewrite list_lookup_total_correct in Hwf.
Qed.

Lemma wrap_byte x : in_u 8 x -> wrap_u 8 (wrap_s 8 x) = x.
Proof. intros Hx. unfold wrap_u. rewrite wrap_s_mod by lia. by apply wrap_u_id. Qed.

Lemma evaluate_spec p x :
  in_u 8 x -> gf (evaluate p x) = psum (cf p) (S (degree p)) (toF x).
Proof.
  intros Hx. unfold evaluate. rewrite fold_left_rev.
  enough (forall k n, gf (foldr
    (fun d res => gf_add (mul_by_i8 res (wrap_s 8 x)) (coefficients p !!! d))
    (coefficients p !!! (n + k)%nat) (seq n k)) = psum (fun i => cf p (n + i)) (S k) (toF x)) as H
    by apply (H (degree p) 0%nat).
  induction k as [|k IH]; intros n.
  - cbn [seq foldr psum]. rewrite Fpow_0. unfold cf. ring.
  - cbn [seq foldr]. rewrite gf_add_spec, gf_mul_by_i8_spec, wrap_byte by done.
    replace (n + S k)%nat with (S n + k)%nat by lia. rewrite IH, (psum_head (fun i => cf p (n + i)) (S k)).
    rewrite Nat.add_0_r.
    fold (cf p n). rewrite (psum_ext (fun i => cf p (n + S i)) (fun i => cf p (S n + i))); [ring|].
    intros i _. f_equal. lia.
Qed.

Lemma evaluate_wf n p x : poly_room n p -> gf_wf (evaluate p x).
Proof.
  intros Hp. unfold evaluate. apply fold_left_inv; [by eapply coef_wf|].
  intros s d Hs. apply gf_add_wf; [apply mul_by_i8_wf|by eapply coef_wf].
Qed.

Lemma make_constant_room n c : in_u 32 c -> poly_room n (make_constant n c).
Proof.
  intros Hc. apply poly_room_intro; [by rewrite length_insert, length_replicate|lia|].
  intros i. rewrite total_insert by (rewrite length_replicate; lia). case_decide.
  - by apply gf_from_i32_wf.
  - apply Forall_lookup_total_default; [apply Forall_replicate|]; apply gf_new_wf.
Qed.

Lemma make_constant_cf n c :
  in_u 32 c -> cf (make_constant n c) 0 = toF c.
Proof.
  intros Hc. unfold cf, make_constant. cbn [coefficients].
  rewrite total_insert by (rewrite length_replicate; lia). by apply gf_gf_from_i32.
Qed.

Lemma add_monic_spec n p q r :
  poly_room n p -> poly_room n q -> gf_wf r -> 
  let p' := add_monic_times_constant p q r in
  poly_room n p' /\ degree p' = degree q /\ cf p' (degree q) = gf r /\
  forall i, (i < degree q)%nat -> cf p' i = (cf p i + cf q i * gf r)%gf.
Proof.
  intros Hp Hq Hr. cbv zeta.
  destruct (update_loop (fun i c => gf_add c (multiply (coefficients q !!! i) r)) (degree q)
    (coefficients p)) as [Hl H]; [destruct Hp as [-> _], Hq as (_ & ? & _); lia|].
  unfold add_monic_times_constant. destruct Hq as (Hlq & Hdq & Hwq).
  set (cs := fold_left _ _ _) in *.
  assert (length cs = (n + 1)%nat) as Hcs by (rewrite Hl; apply Hp).
  split; [|split; [done|split]].
  - apply poly_room_intro; [by rewrite length_insert|done|].
    intros i. rewrite total_insert by lia. case_decide; [done|]. rewrite H. case_decide.
    + apply gf_add_wf; [by eapply coef_wf|]. apply multiply_wf.
      by apply (coef_wf n q i).
    + by eapply coef_wf.
  - unfold cf. cbn [coefficients]. rewrite total_insert by lia. by rewrite decide_True.
  - intros i Hi. unfold cf. cbn [coefficients]. rewrite total_insert by lia.
    rewrite decide_False, H, decide_True by lia. by rewrite gf_add_spec, gf_mul_spec.
Qed.

Lemma linear_binomial_spec n p r :
  poly_room n p -> (degree p < n)%nat ->
  let p' := multiply_by_linear_binomial p r in
  let d := degree p in
  let rf := toF (wrap_u 8 r) in
  poly_room n p' /\ degree p' = S d /\ cf p' (S d) = 1%gf /\ 
  cf p' 0 = (cf p 0 * rf)%gf /\
  forall i, (i < d)%nat -> cf p' (S i) = (cf p (S i) * rf + cf p i)%gf.
Proof.
  intros Hp Hd. cbv zeta. unfold multiply_by_linear_binomial.
  set (cs0 := <[S (degree p) := gf_from_i32 1]> (coefficients p)).
  assert (length cs0 = (n + 1)%nat) as Hl0 by (unfold cs0; rewrite length_insert; apply Hp).
  assert (forall i, gf_wf (cs0 !!! i)) as Hw0.
  { intros i. unfold cs0. destruct Hp as (Hl & ? & ?). rewrite total_insert by lia. case_decide.
    - by apply gf_from_i32_wf.
    - by apply (coef_wf n). }
  rewrite (fold_left_ext_inv (fun cs => length cs = (n + 1)%nat) _
    (fun cs i => <[i := gf_add (mul_by_i8 (cs !!! i) r) (cs !!! (i - 1)%nat)]> cs)).
  2: done.
  2: { intros cs i [Hi1 Hi2]%list_elem_of_In%in_rev%in_seq Hl. split; [|by rewrite length_insert].
       cbv zeta. rewrite list_insert_insert_eq, !total_insert by lia.
       by rewrite decide_True, decide_False by lia. }
  replace (S (degree p) - 1)%nat with (degree p) by lia.
  destruct (shift_loop (fun x y => gf_add (mul_by_i8 x r) y) (degree p) cs0) as [Hl H]; [lia|].
  set (cs := fold_left _ _ _) in *.
  unfold cf. cbn [coefficients degree].
  assert (forall i, (i <> S (degree p)) -> cs0 !!! i = coefficients p !!! i) as Hcs0.
  { intros i Hi. unfold cs0. destruct Hp as (Hlp & ? & ?). rewrite total_insert by lia.
    by rewrite decide_False. }
  assert (cs0 !!! S (degree p) = gf_from_i32 1) as Htop.
  { unfold cs0. destruct Hp as (Hlp & ? & ?). rewrite total_insert by lia. by rewrite decide_True. }
  split; [|split; [done|]].
  - apply poly_room_intro; [rewrite length_insert; lia|lia|]. intros i.
    rewrite total_insert by lia. case_decide; [apply mul_by_i8_wf|]. rewrite H.
    case_decide; [|done]. by apply gf_add_wf; [apply mul_by_i8_wf|].
  - split; [|split].
    + rewrite total_insert, decide_False, H, decide_False, Htop by lia. done.
    + rewrite total_insert, decide_True, H, decide_False, Hcs0 by lia. apply gf_mul_by_i8_spec.
    + intros i Hi. rewrite total_insert, decide_False, H, decide_True, !Hcs0 by lia.
      rewrite gf_add_spec, gf_mul_by_i8_spec. do 3 f_equal. lia.
Qed.

(** * Interpolation *)

(** The product of [x + p] over the points. *)
Fixpoint vanish (done : list (Z * Gf2_192)) (x : F) : F :=
  match done with
  | [] => 1
  | (p, _) :: done => ((x + toF p) * vanish done x)
  end%gf.

Lemma toF_u8_inj p q : in_u 8 p -> in_u 8 q -> toF p = toF q -> p = q.
Proof.
  intros Hp Hq H. rewrite <- (fv_toF p), <- (fv_toF q), H; [done|..];
    unfold in_u in *; cbn in *; lia.
Qed.

Lemma F_add_0 a b : (a + b = 0)%gf -> a = b.
Proof.
  intros H. transitivity (a + b + b)%gf; [|rewrite H; ring].
  transitivity (a + (b + b))%gf; [rewrite F_self_add; ring|ring].
Qed.

Lemma F1_neq_0 : (1 <> 0)%gf.
Proof. intros H. apply (f_equal fv) in H. discriminate H. Qed.

Lemma vanish_neq_0 done x :
  Forall (fun pv : Z * Gf2_192 => toF pv.1 <> x) done -> vanish done x <> 0%gf.
Proof.
  induction done as [|[p v] done IH]; intros Hf; cbn [vanish]; [apply F1_neq_0|].
  apply Forall_cons in Hf as [Hp Hf]. intros [H|H]%F_integral; [|by apply IH].
  apply Hp. symmetry. by apply F_add_0.
Qed.

Lemma vanish_0 done pv : pv ∈ done -> vanish done (toF pv.1) = 0%gf.
Proof.
  induction 1 as [[p v] done|pv [q w] done Hin IH]; cbn [vanish fst].
  - rewrite F_self_add. ring.
  - rewrite IH. ring.
Qed.

Lemma vanish_app done done' x : vanish (done ++ done') x = (vanish done x * vanish done' x)%gf.
Proof. induction done as [|[p v] done IH]; cbn [app vanish]; [ring|]. rewrite IH. ring. Qed.

(** The state of the loop of [interpolate] after the points [done]. *)
Record interp_inv (n : nat) (done : list (Z * Gf2_192)) (res van : Gf2_192Poly) : Prop := {
  inv_res_room : poly_room n res;
  inv_van_room : poly_room n van;
  inv_res_degree : degree res = pred (length done);
  inv_van_degree : degree van = length done;
  inv_res_start : done = [] -> cf res 0 = 0%gf;
  inv_van_monic : cf van (length done) = 1%gf;
  inv_van : forall x, psum (cf van) (S (length done)) x = vanish done x;
  inv_res : Forall (fun pv => psum (cf res) (length done) (toF pv.1) = gf pv.2) done
}.

Lemma interp_res_eval n done res van x :
  interp_inv n done res van ->
  psum (cf res) (S (degree res)) x = psum (cf res) (length done) x.
Proof.
  intros H. rewrite (inv_res_degree _ _ _ _ H). destruct done as [|pv done]; [|done].
  cbn [length pred psum]. rewrite (inv_res_start _ _ _ _ H) by done. ring.
Qed.

(** Adding the right multiple of the vanishing polynomial takes in one more point. *)
Lemma interp_add n done res van x v r :
  interp_inv n done res van -> gf_wf r ->
  (gf r * vanish done x = psum (cf res) (length done) x + v)%gf ->
  let res' := add_monic_times_constant res van r in
  poly_room n res' /\ degree res' = length done /\
  psum (cf res') (S (length done)) x = v /\
  Forall (fun pv => psum (cf res') (S (length done)) (toF pv.1) = gf pv.2) done.
Proof.
  intros H Hr Hx. cbv zeta.
  destruct (add_monic_spec n res van r) as (Hroom & Hdeg & Htop & Hlow); [apply H|apply H|done|].
  rewrite (inv_van_degree _ _ _ _ H) in *.
  assert (forall y, psum (cf (add_monic_times_constant res van r)) (S (length done)) y =
    psum (cf res) (length done) y + vanish done y * gf r)%gf as E.
  { intros y. rewrite <- (inv_van _ _ _ _ H), <- psum_scale. cbn [psum].
    rewrite Htop, (inv_van_monic _ _ _ _ H).
    rewrite (psum_ext _ _ _ y Hlow), (psum_add (cf res) (fun i => cf van i * gf r)%gf). ring. }
  split; [done|]. split; [done|]. split.
  - rewrite E. transitivity (psum (cf res) (length done) x + gf r * vanish done x)%gf; [ring|].
    rewrite Hx. transitivity (psum (cf res) (length done) x + psum (cf res) (length done) x + v)%gf;
      [ring|]. rewrite F_self_add. ring.
  - apply Forall_forall. intros pv Hpv. rewrite E, vanish_0 by done.
    pose proof (inv_res _ _ _ _ H) as Hf. rewrite Forall_forall in Hf. rewrite Hf by done. ring.
Qed.

Lemma gf_invert_r z : gf z <> 0%gf -> (gf z * gf (invert z) = 1)%gf.
Proof. intros Hz. rewrite gf_invert_pow. by apply F_inv_r. Qed.

(** The multiple the code computes. *)
Lemma interp_multiple t v s :
  gf s <> 0%gf -> (gf (multiply (gf_add t v) (invert s)) * gf s = gf t + gf v)%gf.
Proof.
  intros Hs. rewrite gf_mul_spec, gf_add_spec.
  transitivity ((gf t + gf v) * (gf s * gf (invert s)))%gf; [ring|].
  rewrite gf_invert_r by done. ring.
Qed.

Lemma interp_step_inv n done res van p v :
  interp_inv n done res van -> (length done < n)%nat -> in_u 8 p -> gf_wf v ->
  Forall (fun pv : Z * Gf2_192 => in_u 8 pv.1 /\ pv.1 <> p) done ->
  let s := interpolate_step (res, van) (p, v) in
  interp_inv n (done ++ [(p, v)]) s.1 s.2.
Proof.
  intros H Hn Hp Hv Hnew. cbv zeta. cbn [interpolate_step fst snd].
  set (r := multiply (gf_add (evaluate res p) v) (invert (evaluate van p))).
  assert (gf (evaluate van p) = vanish done (toF p)) as Hvan.
  { rewrite evaluate_spec, (inv_van_degree _ _ _ _ H) by done. apply H. }
  assert (vanish done (toF p) <> 0%gf) as Hne.
  { apply vanish_neq_0. eapply Forall_impl; [exact Hnew|]. intros pv [Hu Hpv] E.
    apply Hpv. by apply toF_u8_inj. }
  destruct (interp_add n done res van (toF p) (gf v) r) as (Hroom & Hdeg & Hnewpt & Hold); [done| | |].
  { apply multiply_wf, gf_add_wf; [eapply evaluate_wf; apply H|done]. }
  { rewrite <- Hvan. unfold r. rewrite interp_multiple by by rewrite Hvan.
    by rewrite evaluate_spec, (interp_res_eval _ _ _ _ _ H). }
  destruct (linear_binomial_spec n van (wrap_s 8 p)) as (Hvroom & Hvdeg & Hvtop & Hv0 & Hvs);
    [apply H|by rewrite (inv_van_degree _ _ _ _ H)|].
  rewrite wrap_byte in * by done. rewrite (inv_van_degree _ _ _ _ H) in *.
  assert (length (done ++ [(p, v)]) = S (length done)) as Hlen by (rewrite length_app; cbn; lia).
  split; rewrite ?Hlen; try done.
  - intros E. apply (f_equal length) in E. rewrite Hlen in E. discriminate E.
  - intros x. rewrite (psum_linear (cf van) _ (toF p) (S (length done))); [|done| | |lia].
    + rewrite (inv_van _ _ _ _ H), vanish_app. cbn [vanish]. ring.
    + intros i Hi. apply Hvs. lia.
    + rewrite Hvtop. cbn [Nat.sub]. rewrite Nat.sub_0_r. symmetry. apply H.
  - apply Forall_app. split; [exact Hold|]. by repeat constructor.
Qed.

Lemma interp_start n : interp_inv n [] (make_constant n 0) (make_constant n 1).
Proof.
  split; try (by apply make_constant_room); try done.
  - intros _. by rewrite make_constant_cf.
  - by rewrite make_constant_cf.
  - intros x. cbn [length psum vanish]. rewrite make_constant_cf by done.
    change (toF 1) with 1%gf. rewrite Fpow_0. ring.
Qed.

(** Points that [interpolate] accepts: distinct nonzero u8 values. *)
Definition good_points (points : list Z) : Prop :=
  NoDup points /\ Forall (fun p => in_u 8 p /\ p <> 0) points.

Lemma interp_loop n todo done res van :
  interp_inv n done res van -> (length done + length todo <= n)%nat ->
  good_points ((done ++ todo).*1) -> Forall (fun pv => gf_wf pv.2) todo ->
  let s := fold_left interpolate_step todo (res, van) in
  interp_inv n (done ++ todo) s.1 s.2.
Proof.
  revert done res van. induction todo as [|[p v] todo IH]; intros done res van H Hn Hpts Hwf.
  { by rewrite app_nil_r. }
  cbv zeta in *. cbn [fold_left]. apply Forall_cons in Hwf as [Hv Hwf].
  destruct Hpts as [Hnd Hu]. cbn [length] in Hn.
  rewrite fmap_app, fmap_cons in Hnd, Hu. cbn [fst] in Hnd, Hu.
  pose proof (interp_step_inv n done res van p v H) as Hs.
  destruct (interpolate_step (res, van) (p, v)) as [res' van'].
  rewrite (cons_middle (p, v)), (app_assoc done). apply IH.
  - apply Forall_app in Hu as [Hdone [[Hp _] _]%Forall_cons].
    apply Hs; [lia|done|done|]. apply Forall_forall. intros pv Hpv.
    rewrite Forall_forall in Hdone. pose proof (list_elem_of_fmap_2 fst _ _ Hpv) as Hin.
    split; [by apply Hdone|]. intros <-. apply NoDup_app in Hnd as (_ & Hdisj & _).
    by destruct (Hdisj _ Hin); left.
  - rewrite length_app. cbn [length]. lia.
  - rewrite <- app_assoc. cbn [app]. split; by rewrite fmap_app, fmap_cons.
  - done.
Qed.

Lemma psum_res_0 n done res van :
  interp_inv n done res van -> psum (cf res) (length done) 0%gf = cf res 0.
Proof.
  intros H. destruct done as [|pv done].
  - symmetry. by apply H.
  - apply psum_at_0. cbn. lia.
Qed.

Lemma good_points_zip points (values : list Gf2_192) :
  length points = length values -> good_points points ->
  Forall (fun pv => toF pv.1 <> 0%gf) (zip points values).
Proof.
  intros Hlen [_ Hu]. assert ((zip points values).*1 = points) as E by (apply fst_zip; lia).
  apply Forall_forall. intros pv Hpv. rewrite <- E in Hu. rewrite Forall_forall in Hu.
  destruct (Hu _ (list_elem_of_fmap_2 fst _ _ Hpv)) as [Hr Hne]. intros H0. apply Hne.
  by apply toF_u8_inj.
Qed.

(** What the last step of [interpolate] makes of the loop's result. *)
Lemma interp_last n done res van v0 :
  interp_inv n done res van -> Forall (fun pv => toF pv.1 <> 0%gf) done -> gf_wf v0 ->
  let t := gf_add (coefficients res !!! 0%nat) v0 in
  let r := multiply t (invert (coefficients van !!! 0%nat)) in
  let p := add_monic_times_constant res van r in
  poly_room n p /\ degree p = length done /\ psum (cf p) (S (length done)) 0%gf = gf v0 /\
  Forall (fun pv => psum (cf p) (S (length done)) (toF pv.1) = gf pv.2) done.
Proof.
  intros H Hne Hv0. cbv zeta. apply (interp_add n done res van).
  - done.
  - apply multiply_wf, gf_add_wf; [eapply coef_wf; apply H|done].
  - rewrite <- (inv_van _ _ _ _ H), psum_at_0, (psum_res_0 _ _ _ _ H) by lia.
    apply interp_multiple. change (gf _) with (cf van 0).
    rewrite <- (psum_at_0 (cf van) (S (length done))), (inv_van _ _ _ _ H) by lia.
    by apply vanish_neq_0.
Qed.

(** The interpolating polynomial of good points. *)
Lemma interpolate_spec points values value_at_zero :
  good_points points -> length points = length values ->
  Forall gf_wf values -> gf_wf value_at_zero ->
  exists p, interpolate points values value_at_zero = Ok p /\
    degree p = length points /\ poly_room (length points) p /\
    evaluate p 0 = value_at_zero /\
    Forall (fun pv => evaluate p pv.1 = pv.2) (zip points values).
Proof.
  intros Hpts Hlen Hwf H0. unfold interpolate. rewrite Hlen, Nat.eqb_refl. cbn [negb].
  pose proof (interp_loop (length values) (zip points values) [] _ _ (interp_start _)) as H.
  assert ((zip points values).*1 = points) as Hfst by (apply fst_zip; lia).
  assert (length (zip points values) = length values) as Hz by (rewrite length_zip; lia).
  cbn [app length] in H. rewrite Hfst, Hz in H.
  assert (Forall (fun pv => gf_wf pv.2) (zip points values)) as Hwf'.
  { apply Forall_forall. intros [p v] Hin. rewrite Forall_forall in Hwf.
    apply Hwf. by apply elem_of_zip_r in Hin. }
  specialize (H ltac:(lia) Hpts Hwf').
  destruct (fold_left interpolate_step _ _) as [res van]. cbn [fst snd] in H.
  destruct (interp_last _ _ _ _ value_at_zero H) as (Hroom & Hdeg & Hzero & Hall);
    [by apply good_points_zip|done|].
  rewrite Hz in *. eexists. split; [done|]. split; [done|]. split; [done|].
  assert (forall x v, in_u 8 x -> gf_wf v ->
    psum (cf (add_monic_times_constant res van
      (multiply (gf_add (coefficients res !!! 0%nat) value_at_zero)
         (invert (coefficients van !!! 0%nat))))) (S (length values)) (toF x) = gf v ->
    evaluate (add_monic_times_constant res van
      (multiply (gf_add (coefficients res !!! 0%nat) value_at_zero)
         (invert (coefficients van !!! 0%nat)))) x = v) as Heval.
  { intros x v Hx Hv E. apply gf_inj; [by eapply evaluate_wf|done|].
    by rewrite evaluate_spec, Hdeg. }
  split; [by apply Heval|].
  apply Forall_forall. intros pv Hin. rewrite Forall_forall in Hall, Hwf'.
  apply Heval; [|by apply Hwf'|by apply Hall].
  destruct Hpts as [_ Hu]. rewrite <- Hfst in Hu. rewrite Forall_forall in Hu.
  by apply Hu, list_elem_of_fmap_2.
Qed.

Lemma evaluate_0 n p : poly_room n p -> evaluate p 0 = coefficients p !!! 0%nat.
Proof.
  intros Hp. apply gf_inj; [by eapply evaluate_wf|by eapply coef_wf|].
  rewrite evaluate_spec by (unfold in_u; lia). apply psum_at_0. lia.
Qed.

(** C17: for distinct nonzero byte points, [Gf2_192Poly::interpolate] fails
    exactly when the numbers of points and values differ; otherwise it returns a polynomial of
    degree the number of points, all of whose coefficients are in range, that takes every given
    value at its point and [value_at_zero] at zero. *)
Theorem interpolate_correct points values value_at_zero :
  good_points points -> Forall gf_wf values -> gf_wf value_at_zero ->
  if decide (length points = length values) then
    exists p, interpolate points values value_at_zero = Ok p /\
      degree p = length points /\ poly_room (length points) p /\
      evaluate p 0 = value_at_zero /\
      Forall (fun pv => evaluate p pv.1 = pv.2) (zip points values)
  else interpolate points values value_at_zero = Err InterpolatePointsAndValuesLengthDiffer.
Proof.
  intros Hpts Hwf H0. case_decide as Hlen; [by apply interpolate_spec|].
  unfold interpolate. by destruct (Nat.eqb_spec (length points) (length values)).
Qed.

Lemma interpolate_correct_witness :
  good_points [1; 255] /\
  exists p, interpolate [1; 255] [mkGf 5 0 0; mkGf 0 (-1) 7] (mkGf 9 9 9) = Ok p /\
    evaluate p 0 = mkGf 9 9 9 /\ evaluate p 255 = mkGf 0 (-1) 7.
Proof.
  assert (good_points [1; 255]) as Hg.
  { split; [apply (bool_decide_unpack _); vm_compute; exact I|].
    repeat constructor; unfold in_u; lia. }
  assert (forall a b c, in_s 64 a -> in_s 64 b -> in_s 64 c -> gf_wf (mkGf a b c)) as Hw
    by (unfold gf_wf; auto).
  split; [exact Hg|].
  assert (Forall gf_wf [mkGf 5 0 0; mkGf 0 (-1) 7]) as Hv
    by (repeat constructor; apply Hw; unfold in_s; lia).
  assert (gf_wf (mkGf 9 9 9)) as Hz by (apply Hw; unfold in_s; lia).
  pose proof (interpolate_correct [1; 255] [mkGf 5 0 0; mkGf 0 (-1) 7] (mkGf 9 9 9) Hg Hv Hz) as H.
  destruct H as (p & Hp & _ & _ & H0 & Hall).
  exists p. split; [exact Hp|]. split; [exact H0|].
  change (zip _ _) with [(1, mkGf 5 0 0); (255, mkGf 0 (-1) 7)] in Hall.
  apply Forall_cons in Hall as [_ [H _]%Forall_cons]. exact H.
Defined.

(** * Uniqueness *)

Section uniqueness.
Local Open Scope gf_scope.

Lemma psum_zero c n x : (forall i, (i < n)%nat -> c i = 0) -> psum c n x = 0.
Proof.
  intros H. induction n as [|n IH]; [done|]. cbn [psum]. rewrite IH, H by eauto with lia. ring.
Qed.

(** Division by [x + a]; the dividend is zero above degree 0 when the quotient is. *)
Lemma psum_divide m : forall c a, exists q,
  (forall x, psum c (S m) x = (x + a) * psum q m x + psum c (S m) a) /\
  ((forall i, (i < m)%nat -> q i = 0) -> forall i, (i < m)%nat -> c (S i) = 0).
Proof.
  induction m as [|m IH]; intros c a.
  - exists (fun _ => 0). split; [|lia]. intros x. cbn [psum]. rewrite !Fpow_0. ring.
  - destruct (IH (fun i => c (S i)) a) as (q & Hq & Hz).
    set (ca := psum (fun i => c (S i)) (S m) a) in *.
    exists (fun i => match i with O => ca | S i => q i end). split.
    + intros x. rewrite (psum_head _ m), !(psum_head c (S m)), Hq. cbv beta iota. fold ca.
      change (psum (fun i => q i)) with (psum q).
      transitivity (c 0%nat + x * ((x + a) * psum q m x) + x * ca); [ring|].
      transitivity ((x + a) * (ca + x * psum q m x) + c 0%nat + a * ca); [|ring].
      transitivity (c 0%nat + x * ((x + a) * psum q m x) + x * ca + (a * ca + a * ca));
        [rewrite F_self_add; ring|ring].
    + intros H0. pose proof (H0 0%nat ltac:(lia) : ca = 0) as Hca.
      pose proof (Hz (fun i Hi => H0 (S i) ltac:(lia))) as Hc.
      intros [|i] Hi; [|by apply Hc; lia].
      transitivity ca; [|done]. unfold ca. rewrite psum_head, psum_zero by done. ring.
Qed.

(** A sum of [n] terms that is zero at [n] distinct points has only zero coefficients. *)
Lemma psum_roots n : forall c (pts : list F),
  NoDup pts -> length pts = n -> Forall (fun x => psum c n x = 0) pts ->
  forall i, (i < n)%nat -> c i = 0.
Proof.
  induction n as [|m IH]; intros c pts Hnd Hlen Hz; [lia|].
  destruct pts as [|a pts]; [done|]. injection Hlen as Hlen.
  apply NoDup_cons in Hnd as [Ha Hnd]. apply Forall_cons in Hz as [Hza Hz].
  destruct (psum_divide m c a) as (q & Hq & Hcq).
  assert (forall i, (i < m)%nat -> q i = 0) as Hq0.
  { apply (IH q pts Hnd Hlen). apply Forall_forall. intros x Hx.
    rewrite Forall_forall in Hz. specialize (Hz x Hx). rewrite Hq, Hza in Hz.
    destruct (F_integral (x + a) (psum q m x)) as [E|E]; [rewrite <- Hz; ring| |done].
    destruct Ha. by rewrite <- (F_add_0 _ _ E). }
  specialize (Hcq Hq0). intros [|i] Hi; [|apply Hcq; lia].
  rewrite <- Hza, psum_head, (psum_zero (fun i => c (S i))) by done. ring.
Qed.

Lemma psum_unique n c c' (pts : list F) :
  NoDup pts -> length pts = n -> Forall (fun x => psum c n x = psum c' n x) pts ->
  forall i, (i < n)%nat -> c i = c' i.
Proof.
  intros Hnd Hlen H i Hi. apply F_add_0.
  apply (psum_roots n (fun i => c i + c' i) pts); [done..| |done].
  eapply Forall_impl; [exact H|]. intros x Hx. cbn beta. rewrite psum_add, Hx.
  apply F_self_add.
Qed.
End uniqueness.

Lemma NoDup_toF (l : list Z) : Forall (in_u 8) l -> NoDup l -> NoDup (toF <$> l).
Proof.
  induction l as [|x l IH]; intros Hu Hnd; [constructor|].
  apply Forall_cons in Hu as [Hx Hu]. apply NoDup_cons in Hnd as [Hn Hnd].
  cbn [fmap list_fmap]. apply NoDup_cons. split; [|by apply IH].
  intros (y & E & Hy)%list_elem_of_fmap. rewrite Forall_forall in Hu.
  by rewrite (toF_u8_inj x y Hx (Hu y Hy) E) in Hn.
Qed.

(** Coefficients past the degree count as zero. *)
Lemma psum_room p n x :
  poly_room (degree p) p -> (degree p <= n)%nat ->
  psum (cf p) (S n) x = psum (cf p) (S (degree p)) x.
Proof.
  intros (Hl & _) H. induction n as [|n IH].
  - by replace (degree p) with 0%nat by lia.
  - destruct (decide (degree p = S n)) as [->|Hne]; [done|]. rewrite <- IH by lia.
    change (psum (cf p) (S (S n)) x) with (psum (cf p) (S n) x + cf p (S n) * Fpow x (N.of_nat (S n)))%gf.
    assert (cf p (S n) = F0) as ->.
    { unfold cf. rewrite list_lookup_total_alt, lookup_ge_None_2 by lia. reflexivity. }
    ring.
Qed.

(** Polynomials of degree at most [n] that agree at more than [n] points have the same value at
    zero. *)
Lemma poly_agree n p q points :
  poly_room (degree p) p -> poly_room (degree q) q -> (degree p <= n)%nat -> (degree q <= n)%nat ->
  NoDup points -> Forall (in_u 8) points -> (n < length points)%nat ->
  Forall (fun x => evaluate p x = evaluate q x) points ->
  coefficients p !!! 0%nat = coefficients q !!! 0%nat.
Proof.
  intros Hp Hq Hdp Hdq Hnd Hu Hlen Heq.
  apply gf_inj; [by eapply coef_wf|by eapply coef_wf|].
  apply (psum_unique (S n) (cf p) (cf q) (toF <$> take (S n) points)); [| | |lia].
  - apply NoDup_toF; [by apply Forall_take|]. eapply sublist_NoDup; [exact Hnd|apply sublist_take].
  - rewrite length_fmap, length_take. lia.
  - apply Forall_fmap, Forall_take, Forall_forall. intros x Hx.
    rewrite Forall_forall in Heq, Hu. specialize (Heq x Hx). specialize (Hu x Hx).
    change (psum (cf p) (S n) (toF x) = psum (cf q) (S n) (toF x)). rewrite (psum_room p n), (psum_room q n) by done.
    rewrite <- (evaluate_spec p), <- (evaluate_spec q) by done. by rewrite Heq.
Qed.

(** The interpolating polynomial is the only one of its degree: two
    polynomials of degree [n], filling their coefficient vectors, that agree at [n + 1] distinct
    bytes are equal. *)
Theorem interpolate_unique p q points :
  poly_room (degree p) p -> poly_room (degree q) q -> degree p = degree q ->
  NoDup points -> Forall (in_u 8) points -> length points = S (degree p) ->
  Forall (fun x => evaluate p x = evaluate q x) points ->
  p = q.
Proof.
  intros Hp Hq Hdeg Hnd Hu Hlen Heq.
  assert (forall i, (i < S (degree p))%nat -> cf p i = cf q i) as Hc.
  { apply (psum_unique _ _ _ (toF <$> points)).
    - by apply NoDup_toF.
    - by rewrite length_fmap.
    - apply Forall_fmap, Forall_forall. intros x Hx. cbn.
      rewrite Forall_forall in Heq, Hu. specialize (Heq x Hx). specialize (Hu x Hx).
      transitivity (gf (evaluate p x)); [by rewrite evaluate_spec|].
      rewrite Heq, evaluate_spec by done. by rewrite Hdeg. }
  destruct p as [cp dp], q as [cq dq]. cbn [degree] in *. subst dq. f_equal.
  destruct Hp as (Hlp & _ & Hwp), Hq as (Hlq & _ & Hwq). cbn [coefficients] in *.
  apply list_eq_same_length with (dp + 1)%nat; [done..|]. intros i x y Hi Hx Hy.
  specialize (Hc i ltac:(lia)). unfold cf in Hc. cbn [coefficients] in Hc.
  rewrite (list_lookup_total_correct _ _ _ Hx), (list_lookup_total_correct _ _ _ Hy) in Hc.
  rewrite Forall_lookup in Hwp, Hwq. apply gf_inj; eauto.
Qed.

Lemma interpolate_unique_witness :
  make_constant 0 7 = mkPoly [mkGf 7 0 0] 0 /\
  add_monic_times_constant (make_constant 1 7) (mkPoly [mkGf 0 0 0; mkGf 1 0 0] 1) (mkGf 2 0 0) =
  mkPoly [mkGf 7 0 0; mkGf 2 0 0] 1.
Proof.
  split; [reflexivity|].
  assert (forall a, 0 <= a < 8 -> gf_wf (mkGf a 0 0)) as Hw
    by (unfold gf_wf, in_s; cbn; lia).
  apply (interpolate_unique _ _ [3; 200]);
    [split; [reflexivity|split; [cbn; lia|vm_compute coefficients; repeat constructor]]..
    |reflexivity|apply (bool_decide_unpack _); vm_compute; exact I
    |repeat constructor; unfold in_u; lia|reflexivity|repeat constructor; vm_compute; reflexivity];
    apply Hw; lia.
Defined.

(** * Byte representation *)

Definition segments (p : Gf2_192Poly) (k : nat) : list Z :=
  concat ((fun i => gf_to_bytes (coefficients p !!! i)) <$> seq 1 k).

Lemma segments_S p k : segments p (S k) = segments p k ++ gf_to_bytes (coefficients p !!! S k).
Proof.
  unfold segments. rewrite seq_S, fmap_app, concat_app. cbn [Nat.add fmap list_fmap concat].
  by rewrite app_nil_r.
Qed.

Lemma length_segments p k : length (segments p k) = (24 * k)%nat.
Proof.
  induction k as [|k IH]; [done|]. rewrite segments_S, length_app, IH, length_gf_to_bytes. lia.
Qed.

Lemma to_bytes_loop p d k :
  (k <= d)%nat ->
  fold_left (fun acc i => res ← acc; to_i8_slice (coefficients p !!! i) res ((i - 1) * 24))
    (seq 1 k) (Ok (replicate (d * 24) 0)) =
  Ok ((wrap_s 8 <$> segments p k) ++ replicate ((d - k) * 24) 0).
Proof.
  induction k as [|k IH]; intros Hk.
  - cbn [seq fold_left]. by rewrite Nat.sub_0_r.
  - rewrite seq_S, fold_left_app, IH by lia. cbn [fold_left Nat.add mbind result_bind].
    unfold to_i8_slice. rewrite length_app, length_fmap, length_segments, length_replicate.
    destruct (Nat.ltb_spec (24 * k + (d - k) * 24) ((S k - 1) * 24 + 24)); [lia|].
    f_equal. rewrite take_app_length', drop_app, drop_ge by
      (rewrite length_fmap, length_segments; lia).
    rewrite length_fmap, length_segments, segments_S, fmap_app. rewrite <- app_assoc. do 2 f_equal.
    rewrite drop_replicate. cbn [app]. f_equal. lia.
Qed.

Lemma byte_list_gf_to_bytes g : byte_list (gf_to_bytes g).
Proof. repeat (apply Forall_cons; split; [apply in_u8_land|]). constructor. Qed.

Lemma byte_list_segments p k : byte_list (segments p k).
Proof.
  induction k as [|k IH]; [constructor|]. rewrite segments_S. apply Forall_app.
  split; [done|apply byte_list_gf_to_bytes].
Qed.

Lemma byte_list_wrap l : byte_list l -> wrap_u 8 <$> (wrap_s 8 <$> l) = l.
Proof.
  induction 1 as [|x l Hx _ IH]; [done|]. rewrite !fmap_cons. f_equal; [by apply wrap_byte|done].
Qed.

Lemma poly_to_bytes_eq p : poly_to_bytes p = Ok (segments p (degree p)).
Proof.
  unfold poly_to_bytes. rewrite to_bytes_loop by lia. cbn [mbind result_bind]. f_equal.
  rewrite Nat.sub_diag. cbn [Nat.mul replicate]. rewrite app_nil_r.
  apply byte_list_wrap, byte_list_segments.
Qed.

Lemma bytes_word_app l l' j : (j < 3)%nat -> length l = 24%nat -> bytes_word (l ++ l') j = bytes_word l j.
Proof.
  intros Hj Hl. apply (in_s_bits_eq 64); [done|apply in_s64_bytes_word..|].
  intros i Hi. destruct (bit_split i Hi) as (q & r & Hq & Hr & ->).
  rewrite !bytes_word_bits by done. f_equal. apply lookup_total_app_l. lia.
Qed.

Lemma gf_try_from_app g l' : gf_wf g -> gf_try_from (gf_to_bytes g ++ l') = Ok g.
Proof.
  intros Hg. unfold gf_try_from. rewrite length_app, length_gf_to_bytes. cbn [Nat.add Nat.ltb Nat.leb].
  unfold gf_from_bytes. rewrite !bytes_word_app, !bytes_word_to_bytes by (done || lia).
  by destruct g.
Qed.

Lemma segments_drop p k i :
  (i < k)%nat -> exists l, drop (i * 24) (segments p k) = gf_to_bytes (coefficients p !!! S i) ++ l.
Proof.
  induction k as [|k IH]; intros Hi; [lia|]. rewrite segments_S.
  destruct (decide (i = k)) as [->|].
  - exists []. rewrite drop_app_length' by (rewrite length_segments; lia). by rewrite app_nil_r.
  - destruct IH as [l Hl]; [lia|]. rewrite drop_app_le by (rewrite length_segments; lia).
    rewrite Hl. rewrite <- app_assoc. by eexists.
Qed.

Lemma poly_from_segments p :
  poly_room (degree p) p ->
  poly_try_from (mkCoeffs (gf_to_bytes (coefficients p !!! 0%nat)) (segments p (degree p))) = Ok p.
Proof.
  intros Hp. unfold poly_try_from. cbn [more_coeffs coeff0].
  rewrite length_segments, Nat.mul_comm, Nat.div_mul by lia.
  rewrite (proj2 (mapM_res_Forall2 _ _ (drop 1 (coefficients p)))).
  - cbn [mbind result_bind]. unfold gf_from_bytes.
    rewrite !bytes_word_to_bytes by (eapply coef_wf; eauto) || lia.
    destruct p as [[|c cs] d]; [by destruct Hp as [Hl _]; cbn in Hl; lia|]. cbn [degree].
    change ((c :: cs) !!! 0%nat) with c. cbn [coefficients drop]. by destruct c.
  - destruct Hp as (Hl & _ & Hw). apply Forall2_lookup. intros i.
    rewrite lookup_drop. destruct (decide (i < degree p)%nat) as [Hi|Hi].
    + rewrite lookup_seq_lt by done. destruct (lookup_lt_is_Some_2 (coefficients p) (1 + i)%nat)
        as [c Hc]; [lia|]. rewrite Hc. constructor.
      replace ((1 + i - 1) * 24)%nat with (i * 24)%nat by lia.
      destruct (segments_drop p (degree p) i Hi) as [l ->].
      rewrite (list_lookup_total_correct _ _ _ Hc). apply gf_try_from_app.
      by eapply (proj1 (Forall_lookup _ _)).
    + rewrite lookup_seq_ge by lia. rewrite lookup_ge_None_2 by lia. constructor.
Qed.

(** What [try_from] makes of any bytes: as many coefficients as there are whole groups of 24. *)
Lemma poly_try_from_room c0 bytes :
  exists q, poly_try_from (mkCoeffs c0 bytes) = Ok q /\ degree q = (length bytes / 24)%nat /\
    poly_room (degree q) q /\ coefficients q !!! 0%nat = gf_from_bytes c0.
Proof.
  unfold poly_try_from. cbn [more_coeffs coeff0]. set (k := (length bytes / 24)%nat).
  assert (24 * k <= length bytes)%nat as Hk by (apply Nat.Div0.mul_div_le).
  set (f i := gf_try_from (drop ((i - 1) * 24) bytes)).
  assert (exists cs, mapM_res f (seq 1 k) = Ok cs /\ Forall gf_wf cs /\ length cs = k)
    as (cs & -> & Hw & Hc).
  { exists (map (fun i => gf_from_bytes (drop ((i - 1) * 24) bytes)) (seq 1 k)).
    split_and!; [|by apply Forall_fmap, Forall_true; intros; apply gf_from_bytes_wf
                 |by rewrite length_map, length_seq].
    apply mapM_res_Forall2, Forall2_fmap_r, Forall_Forall2_diag, Forall_forall.
    intros i Hi%elem_of_seq. unfold f, gf_try_from. rewrite length_drop.
    by destruct (Nat.ltb_spec (length bytes - (i - 1) * 24) 24); [lia|]. }
  exists (mkPoly (gf_from_bytes c0 :: cs) k). split; [done|]. split; [done|]. split; [|done].
  split; [|split]; cbn [coefficients degree length]; [lia|lia|].
  constructor; [apply gf_from_bytes_wf|done].
Qed.

(** Writing the coefficients above degree zero never fails and takes
    24 bytes each, and reading them back together with the bytes of coefficient zero gives the
    same polynomial. *)
Theorem poly_bytes_roundtrip p :
  poly_room (degree p) p ->
  exists bs, poly_to_bytes p = Ok bs /\ length bs = (24 * degree p)%nat /\
    poly_try_from (mkCoeffs (gf_to_bytes (coefficients p !!! 0%nat)) bs) = Ok p.
Proof.
  intros Hp. exists (segments p (degree p)). split; [apply poly_to_bytes_eq|].
  split; [apply length_segments|by apply poly_from_segments].
Qed.

Lemma poly_bytes_roundtrip_witness :
  poly_room 1 (mkPoly [mkGf 1 2 3; mkGf 4 5 (-6)] 1) /\
  exists bs, poly_to_bytes (mkPoly [mkGf 1 2 3; mkGf 4 5 (-6)] 1) = Ok bs /\
    poly_try_from (mkCoeffs (gf_to_bytes (mkGf 1 2 3)) bs) =
    Ok (mkPoly [mkGf 1 2 3; mkGf 4 5 (-6)] 1).
Proof.
  assert (poly_room 1 (mkPoly [mkGf 1 2 3; mkGf 4 5 (-6)] 1)) as H.
  { split; [reflexivity|]. split; [reflexivity|].
    repeat constructor; unfold in_s; cbn; lia. }
  split; [exact H|].
  destruct (poly_bytes_roundtrip _ H) as (bs & H1 & _ & H2). exists bs. by split.
Defined.
