(* ===== verification/SigmaBoolean.v ===== *)
(** Sigma propositions (src/ergotree-ir/src/sigma_protocol/sigma_boolean.rs, cand.rs, cor.rs,
    cthreshold.rs) over the external code they are built on: the secp256k1 group and its scalars
    (crate k256), the blake2b256 hash and the random number generator, which are the interface
    [SigmaCrypto] with the laws [SigmaCryptoLaws]. *)

From S2P Require Import Prelude.

(** * The external code *)

(** Operations of crates k256 (points, scalars), blake2 and rand. The points are the group
    written additively, as k256 does; the program's [EcPoint] writes it multiplicatively. *)
Class SigmaCrypto : Type := {
  ProjectivePoint : Type;
  ProjectivePoint_eq_dec :: EqDecision ProjectivePoint;
  pp_add : ProjectivePoint -> ProjectivePoint -> ProjectivePoint;
  pp_neg : ProjectivePoint -> ProjectivePoint;
  pp_identity : ProjectivePoint;
  pp_generator : ProjectivePoint;
  Scalar : Type;
  Scalar_eq_dec :: EqDecision Scalar;
  pp_mul : ProjectivePoint -> Scalar -> ProjectivePoint;
  mul_by_generator : Scalar -> ProjectivePoint;
  sc_add : Scalar -> Scalar -> Scalar;
  sc_mul : Scalar -> Scalar -> Scalar;
  sc_negate : Scalar -> Scalar;
  (** [Reduce::reduce_bytes] and [Scalar::to_bytes], 32 bytes big-endian. *)
  reduce_bytes : list Z -> Scalar;
  scalar_to_bytes : Scalar -> list Z;
  (** [to_affine().to_encoded_point(true).as_bytes()] of a point that is not the identity. *)
  sec1_bytes : ProjectivePoint -> list Z;
  blake2b256_hash : list Z -> list Z;
  (** The thread's random number generator, its state passed explicitly. *)
  Rng : Type;
  fill_bytes : nat -> Rng -> list Z * Rng;
  generate_vartime : Rng -> Scalar * Rng
}.

(** What the program relies on: the group and scalar laws, and the sizes and round trips of the
    byte conversions. *)
Class SigmaCryptoLaws (C : SigmaCrypto) : Prop := {
  pp_add_assoc p q r : pp_add p (pp_add q r) = pp_add (pp_add p q) r;
  pp_add_comm p q : pp_add p q = pp_add q p;
  pp_add_identity p : pp_add p pp_identity = p;
  pp_add_neg p : pp_add p (pp_neg p) = pp_identity;
  mul_by_generator_spec s : mul_by_generator s = pp_mul pp_generator s;
  pp_mul_add p s t : pp_mul p (sc_add s t) = pp_add (pp_mul p s) (pp_mul p t);
  pp_mul_mul p s t : pp_mul p (sc_mul s t) = pp_mul (pp_mul p t) s;
  pp_mul_identity s : pp_mul pp_identity s = pp_identity;
  pp_mul_negate p s : pp_mul p (sc_negate s) = pp_neg (pp_mul p s);
  scalar_bytes_len s : length (scalar_to_bytes s) = 32%nat;
  scalar_bytes_range s : byte_list (scalar_to_bytes s);
  scalar_bytes_roundtrip s : reduce_bytes (scalar_to_bytes s) = s;
  blake2b256_len bs : length (blake2b256_hash bs) = 32%nat;
  blake2b256_range bs : byte_list (blake2b256_hash bs);
  fill_bytes_len n r : length (fill_bytes n r).1 = n;
  fill_bytes_range n r : byte_list (fill_bytes n r).1
}.

(** * Elliptic curve points (src/ergo-chain-types/src/ec_point.rs) *)

Section ec_point.
Context `{C : SigmaCrypto}.

Definition EcPoint : Type := ProjectivePoint.

Definition ec_mul (self other : EcPoint) : EcPoint := pp_add self other.
Definition ec_neg (self : EcPoint) : EcPoint := pp_neg self.
Definition generator : EcPoint := pp_generator.
Definition identity : EcPoint := pp_identity.
Definition is_identity (ge : EcPoint) : bool := bool_decide (ge = identity).
Definition inverse (ec : EcPoint) : EcPoint := ec_neg ec.
Definition exponentiate (base : EcPoint) (exponent : Scalar) : EcPoint :=
  if negb (is_identity base) then pp_mul base exponent else base.
Definition exponentiate_gen (exponent : Scalar) : EcPoint := mul_by_generator exponent.

(** [scorex_serialize]: 33 zeros for the identity, the SEC1 form otherwise. *)
Definition ec_point_bytes (p : EcPoint) : list Z :=
  if is_identity p then replicate 33 0 else sec1_bytes p.

Context `{L : !SigmaCryptoLaws C}.

Lemma exponentiate_eq p s : exponentiate p s = pp_mul p s.
Proof.
  unfold exponentiate, is_identity. case_bool_decide as H; [|done].
  unfold identity in H. by rewrite H, pp_mul_identity.
Qed.

Lemma exponentiate_gen_eq s : exponentiate_gen s = pp_mul pp_generator s.
Proof. apply mul_by_generator_spec. Qed.

Lemma pp_add_cancel_neg p q : pp_add (pp_add p q) (pp_neg q) = p.
Proof. by rewrite <- pp_add_assoc, pp_add_neg, pp_add_identity. Qed.
End ec_point.

(** * Propositions *)

Section sigma_boolean.
Context `{C : SigmaCrypto}.

Inductive SigmaProofOfKnowledgeTree : Type :=
| ProveDhTuple (g h u v : EcPoint)
| ProveDlog (h : EcPoint).

(** The three cases of [SigmaConjecture]; its children are the list of [SigmaConjecture]
    below, [items] of CAND and COR and [children] of CTHRESHOLD. *)
Inductive conjecture : Type :=
| Cand
| Cor
| Cthreshold (k : Z).

Inductive SigmaBoolean : Type :=
| TrivialProp (b : bool)
| ProofOfKnowledge (t : SigmaProofOfKnowledgeTree)
| SigmaConjecture (c : conjecture) (items : list SigmaBoolean).

#[global] Instance SigmaProofOfKnowledgeTree_eq_dec : EqDecision SigmaProofOfKnowledgeTree.
Proof. solve_decision. Defined.
#[global] Instance conjecture_eq_dec : EqDecision conjecture.
Proof. solve_decision. Defined.

Fixpoint sigma_boolean_eq_dec (x y : SigmaBoolean) {struct x} : {x = y} + {x <> y}.
Proof.
  refine (
    match x, y with
    | TrivialProp a, TrivialProp b => cast_if (decide (a = b))
    | ProofOfKnowledge a, ProofOfKnowledge b => cast_if (decide (a = b))
    | SigmaConjecture c l, SigmaConjecture d m =>
        cast_if_and (decide (c = d)) (@list_eq_dec _ sigma_boolean_eq_dec l m)
    | _, _ => right _
    end); abstract congruence.
Defined.
#[global] Instance SigmaBoolean_eq_dec : EqDecision SigmaBoolean := sigma_boolean_eq_dec.

(** Induction with the hypothesis for every child. *)
Lemma SigmaBoolean_ind' (P : SigmaBoolean -> Prop) :
  (forall b, P (TrivialProp b)) -> (forall t, P (ProofOfKnowledge t)) ->
  (forall c items, Forall P items -> P (SigmaConjecture c items)) ->
  forall sb, P sb.
Proof.
  intros H1 H2 H3. fix IH 1. intros [b|t|c items]; [apply H1|apply H2|].
  apply H3. induction items as [|x items IHl]; constructor; [apply IH|apply IHl].
Qed.

(** [SigmaBoolean::size] *)
Fixpoint size (sb : SigmaBoolean) : nat :=
  match sb with
  | TrivialProp _ => 1
  | ProofOfKnowledge (ProveDlog _) => 1
  | ProofOfKnowledge (ProveDhTuple _ _ _ _) => 4
  | SigmaConjecture _ items => 1 + sum_list_with size items
  end.

(** How many nodes lie on the longest path. *)
Fixpoint sb_depth (sb : SigmaBoolean) : nat :=
  match sb with
  | SigmaConjecture _ items => 1 + max_list_with sb_depth items
  | _ => 1
  end.

(** The loop of [Cand::normalized] ([unit = true]) and [Cor::normalized] ([unit = false]):
    [None] is the early return of the item that decides the result. *)
Fixpoint drop_trivial (unit : bool) (items res : list SigmaBoolean) : option (list SigmaBoolean) :=
  match items with
  | [] => Some res
  | TrivialProp b :: items => if Bool.eqb b unit then drop_trivial unit items res else None
  | it :: items => drop_trivial unit items (res ++ [it])
  end.

(** [Cand::normalized] *)
Definition cand_normalized (items : list SigmaBoolean) : SigmaBoolean :=
  match drop_trivial true items [] with
  | None => TrivialProp false
  | Some [] => TrivialProp true
  | Some [it] => it
  | Some res => SigmaConjecture Cand res
  end.

(** [Cor::normalized] *)
Definition cor_normalized (items : list SigmaBoolean) : SigmaBoolean :=
  match drop_trivial false items [] with
  | None => TrivialProp true
  | Some [] => TrivialProp false
  | Some [it] => it
  | Some res => SigmaConjecture Cor res
  end.

(** The loop of [Cthreshold::reduce] over the children not looked at yet; the conversions of
    [res] to a non-empty vector panic on an empty one. *)
Fixpoint cthreshold_loop (todo res : list SigmaBoolean) (curr_k children_left : Z) : SigmaBoolean :=
  match todo with
  | [] =>
      if curr_k =? 1 then cor_normalized res
      else if curr_k =? children_left then cand_normalized res
      else SigmaConjecture (Cthreshold curr_k) res
  | ch :: rest =>
      if curr_k =? 1 then cor_normalized (res ++ todo)
      else if curr_k =? children_left then cand_normalized (res ++ todo)
      else
        match ch with
        | TrivialProp true => cthreshold_loop rest res (curr_k - 1) (children_left - 1)
        | TrivialProp false => cthreshold_loop rest res curr_k (children_left - 1)
        | sigma => cthreshold_loop rest (res ++ [sigma]) curr_k children_left
        end
  end.

(** [Cthreshold::reduce] *)
Definition cthreshold_reduce (k : Z) (children : list SigmaBoolean) : SigmaBoolean :=
  if k =? 0 then TrivialProp true
  else if k >? Z.of_nat (length children) then TrivialProp false
  else cthreshold_loop children [] k (Z.of_nat (length children)).

(** ** What a proposition means when some leaves hold *)

Definition count_true (l : list bool) : Z := Z.of_nat (length (List.filter id l)).

Definition holds_conj (c : conjecture) (l : list bool) : bool :=
  match c with
  | Cand => forallb id l
  | Cor => existsb id l
  | Cthreshold k => k <=? count_true l
  end.

Fixpoint holds (v : SigmaProofOfKnowledgeTree -> bool) (sb : SigmaBoolean) : bool :=
  match sb with
  | TrivialProp b => b
  | ProofOfKnowledge t => v t
  | SigmaConjecture c items => holds_conj c (holds v <$> items)
  end.

Section reduction.
Context (v : SigmaProofOfKnowledgeTree -> bool).

Lemma drop_trivial_and items res :
  forallb (holds v) res && forallb (holds v) items =
  match drop_trivial true items res with
  | None => false
  | Some l => forallb (holds v) l
  end.
Proof.
  revert res. induction items as [|it items IH]; intros res; cbn [drop_trivial].
  { cbn. by rewrite andb_true_r. }
  destruct it as [[]|t|c its]; cbn [forallb Bool.eqb holds]; [by rewrite <- IH|by rewrite andb_false_r| |];
    rewrite <- IH, forallb_app; cbn [forallb]; by rewrite andb_true_r, andb_assoc.
Qed.

Lemma drop_trivial_or items res :
  existsb (holds v) res || existsb (holds v) items =
  match drop_trivial false items res with
  | None => true
  | Some l => existsb (holds v) l
  end.
Proof.
  revert res. induction items as [|it items IH]; intros res; cbn [drop_trivial].
  { cbn. by rewrite orb_false_r. }
  destruct it as [[]|t|c its]; cbn [existsb Bool.eqb holds]; [by rewrite orb_true_r|by rewrite <- IH| |];
    rewrite <- IH, existsb_app; cbn [existsb]; by rewrite orb_false_r, orb_assoc.
Qed.

Lemma forallb_fmap {A} (f : A -> bool) l : forallb id (f <$> l) = forallb f l.
Proof. induction l; cbn; [done|]. by rewrite IHl. Qed.
Lemma existsb_fmap {A} (f : A -> bool) l : existsb id (f <$> l) = existsb f l.
Proof. induction l; cbn; [done|]. by rewrite IHl. Qed.

Lemma cand_normalized_holds items : holds v (cand_normalized items) = forallb (holds v) items.
Proof.
  pose proof (drop_trivial_and items []) as H. cbn [forallb andb] in H. rewrite H.
  unfold cand_normalized. destruct (drop_trivial true items []) as [[|x [|y l]]|]; try done.
  - cbn. by rewrite andb_true_r.
  - change (forallb id (holds v <$> (x :: y :: l)) = forallb (holds v) (x :: y :: l)).
    apply forallb_fmap.
Qed.

Lemma cor_normalized_holds items : holds v (cor_normalized items) = existsb (holds v) items.
Proof.
  pose proof (drop_trivial_or items []) as H. cbn [existsb orb] in H. rewrite H.
  unfold cor_normalized. destruct (drop_trivial false items []) as [[|x [|y l]]|]; try done.
  - cbn. by rewrite orb_false_r.
  - change (existsb id (holds v <$> (x :: y :: l)) = existsb (holds v) (x :: y :: l)).
    apply existsb_fmap.
Qed.

Definition count_holds (l : list SigmaBoolean) : Z := count_true (holds v <$> l).

Lemma count_true_app l l' : count_true (l ++ l') = count_true l + count_true l'.
Proof. unfold count_true. rewrite List.filter_app, length_app. lia. Qed.

Lemma count_true_cons b l : count_true (b :: l) = (if b then 1 else 0) + count_true l.
Proof. unfold count_true. destruct b; cbn; lia. Qed.

Lemma count_true_le l : 0 <= count_true l <= Z.of_nat (length l).
Proof. induction l as [|b l IH]; [done|]. rewrite count_true_cons. cbn [length]. destruct b; lia. Qed.

Lemma count_true_all l : (count_true l =? Z.of_nat (length l)) = forallb id l.
Proof.
  induction l as [|b l IH]; [done|]. rewrite count_true_cons. cbn [length forallb].
  pose proof (count_true_le l). rewrite <- IH. destruct b; unfold id; cbn [andb];
    repeat match goal with |- context [?x =? ?y] => destruct (Z.eqb_spec x y) end; done || lia.
Qed.

Lemma count_true_any l : (1 <=? count_true l) = existsb id l.
Proof.
  induction l as [|b l IH]; [done|]. rewrite count_true_cons. cbn [existsb].
  pose proof (count_true_le l). rewrite <- IH. destruct b; unfold id; cbn [orb];
    repeat match goal with |- context [?x <=? ?y] => destruct (Z.leb_spec x y) end; done || lia.
Qed.

Lemma cthreshold_loop_holds todo res k left :
  1 <= k <= left -> left = Z.of_nat (length (res ++ todo)) ->
  holds v (cthreshold_loop todo res k left) = (k <=? count_holds (res ++ todo)).
Proof.
  assert (forall l, (1 <=? count_holds l) = existsb (holds v) l) as Hany
    by (intros; unfold count_holds; by rewrite count_true_any, existsb_fmap).
  assert (forall l left, left = Z.of_nat (length l) -> (left <=? count_holds l) = forallb (holds v) l)
    as Hall.
  { intros l lft ->. unfold count_holds. rewrite <- forallb_fmap, <- count_true_all, length_fmap.
    pose proof (count_true_le (holds v <$> l)) as H. rewrite length_fmap in H. lia. }
  revert res k left. induction todo as [|ch todo IH]; intros res k left Hk Hl; cbn [cthreshold_loop].
  - rewrite app_nil_r in *. destruct (Z.eqb_spec k 1) as [->|Hk1].
    { by rewrite cor_normalized_holds, Hany. }
    destruct (Z.eqb_spec k left) as [->|Hkl]; [|done].
    by rewrite cand_normalized_holds, Hall.
  - destruct (Z.eqb_spec k 1) as [->|Hk1]; [by rewrite cor_normalized_holds, Hany|].
    destruct (Z.eqb_spec k left) as [->|Hkl]; [by rewrite cand_normalized_holds, Hall|].
    rewrite length_app in Hl. cbn [length] in Hl.
    assert (forall b l l', count_holds (l ++ TrivialProp b :: l') =
      (if b then 1 else 0) + count_holds (l ++ l')) as Hc.
    { intros b l l'. unfold count_holds. rewrite !fmap_app, fmap_cons, !count_true_app,
        count_true_cons. cbn [holds]. lia. }
    destruct ch as [[]|t|c its].
    + rewrite IH, Hc by (rewrite ?length_app; lia). lia.
    + rewrite IH, Hc by (rewrite ?length_app; lia). lia.
    + rewrite IH by (rewrite ?length_app; cbn [length]; rewrite ?length_app; cbn [length]; lia).
      by rewrite <- app_assoc.
    + rewrite IH by (rewrite ?length_app; cbn [length]; rewrite ?length_app; cbn [length]; lia).
      by rewrite <- app_assoc.
Qed.

(** [Cthreshold::reduce] replaces a threshold by an equivalent
    proposition: whichever leaves hold, the reduced proposition holds exactly when at least
    [k] of the children do. *)
Theorem cthreshold_reduce_correct k children :
  0 <= k ->
  holds v (cthreshold_reduce k children) = (k <=? count_true (holds v <$> children)).
Proof.
  intros Hk. pose proof (count_true_le (holds v <$> children)) as Hc. rewrite length_fmap in Hc.
  unfold cthreshold_reduce. destruct (Z.eqb_spec k 0) as [->|Hk0]; [cbn; lia|].
  destruct (Z.gtb_spec k (Z.of_nat (length children))); [cbn; lia|].
  by rewrite cthreshold_loop_holds by (cbn [app]; lia).
Qed.

(** What [drop_trivial] keeps: the items that are not trivial, in their order. *)
Lemma drop_trivial_Some unit items res l :
  drop_trivial unit items res = Some l ->
  l = res ++ List.filter (fun it => if it is TrivialProp _ then false else true) items.
Proof.
  revert res. induction items as [|it items IH]; intros res; cbn [drop_trivial List.filter].
  { intros [= <-]. by rewrite app_nil_r. }
  destruct it as [b|t|c its].
  - destruct (Bool.eqb b unit); [apply IH|done].
  - intros ->%IH. by rewrite <- app_assoc.
  - intros ->%IH. by rewrite <- app_assoc.
Qed.
End reduction.

(** No child of a conjecture is trivial, at any depth, and a conjecture has children. *)
Inductive normal : SigmaBoolean -> Prop :=
| normal_leaf t : normal (ProofOfKnowledge t)
| normal_conj c items : items <> [] -> Forall normal items -> normal (SigmaConjecture c items).

Definition normal_or_trivial (sb : SigmaBoolean) : Prop :=
  (exists b, sb = TrivialProp b) \/ normal sb.

Lemma normal_filter items :
  Forall normal_or_trivial items ->
  Forall normal (List.filter (fun it => if it is TrivialProp _ then false else true) items).
Proof.
  induction 1 as [|it items [[b ->]|Hn] _ IH]; cbn [List.filter]; [done..|].
  destruct it; [done|by constructor..].
Qed.

(** For items that are trivial or have no trivial proposition inside,
    [Cand::normalized] and [Cor::normalized] give a proposition of the same kind, and it holds
    exactly when all, or some, of the items do, whichever leaves hold. *)
Theorem normalized_correct v items :
  Forall normal_or_trivial items ->
  (holds v (cand_normalized items) = forallb (holds v) items /\
   normal_or_trivial (cand_normalized items)) /\
  (holds v (cor_normalized items) = existsb (holds v) items /\
   normal_or_trivial (cor_normalized items)).
Proof.
  intros Hn. pose proof (normal_filter items Hn) as Hf.
  assert (forall unit c, match drop_trivial unit items [] with
    | None | Some [] => True
    | Some [it] => normal it
    | Some res => normal (SigmaConjecture c res) end) as H.
  { intros unit c. destruct (drop_trivial unit items []) as [l|] eqn:E; [|done].
    apply drop_trivial_Some in E. cbn [app] in E. rewrite <- E in Hf.
    destruct l as [|x [|y l]]; [done|by apply Forall_cons in Hf as [? _]|].
    by constructor. }
  split; (split; [apply cand_normalized_holds || apply cor_normalized_holds|]).
  - specialize (H true Cand). unfold cand_normalized.
    destruct (drop_trivial true items []) as [[|x [|y l]]|]; [left; by eexists|by right..|left; by eexists].
  - specialize (H false Cor). unfold cor_normalized.
    destruct (drop_trivial false items []) as [[|x [|y l]]|]; [left; by eexists|by right..|left; by eexists].
Qed.
End sigma_boolean.
