(* ===== verification/ConcreteCrypto.v ===== *)
(** A concrete instance of the interface to the external cryptography: the additive group of
    GF(2^192) with scalars of the same field, a checksum for a hash, a counter for a random
    number generator. It satisfies every law of [SigmaCryptoLaws] and computes, so that the
    theorems about the sigma protocol can be applied at concrete inputs. *)

From S2P Require Import Prelude Gf2Field SigmaBoolean.

Definition toy_scalar_bytes (s : F) : list Z := replicate 8 0 ++ be_bytes 24 (fv s).
Definition toy_reduce (bs : list Z) : F := toF (be_val (drop 8 bs)).
Definition toy_hash (bs : list Z) : list Z :=
  be_bytes 32 (foldr (fun b acc => (b + 1 + acc * 16777619 + acc / 65536) mod 2 ^ 256) 40503 bs).
Definition toy_fill (n : nat) (r : Z) : list Z * Z := (be_bytes n (r * 2654435761 + 12345), r + 1).
Definition toy_scalar (r : Z) : F * Z := (toF (r * 40503 + 7), r + 1).

#[export] Instance concrete_crypto : SigmaCrypto := {|
  ProjectivePoint := F;
  pp_add := Fadd;
  pp_neg := Fopp;
  pp_identity := F0;
  pp_generator := F1;
  Scalar := F;
  pp_mul := Fmul;
  mul_by_generator := fun s => s;
  sc_add := Fadd;
  sc_mul := Fmul;
  sc_negate := Fopp;
  reduce_bytes := toy_reduce;
  scalar_to_bytes := toy_scalar_bytes;
  sec1_bytes := fun p => 2 :: replicate 8 0 ++ be_bytes 24 (fv p);
  blake2b256_hash := toy_hash;
  Rng := Z;
  fill_bytes := toy_fill;
  generate_vartime := toy_scalar
|}.

Lemma toy_bytes_len s : length (toy_scalar_bytes s) = 32%nat.
Proof. unfold toy_scalar_bytes. by rewrite length_app, length_replicate, length_be_bytes. Qed.

Lemma toy_bytes_range s : byte_list (toy_scalar_bytes s).
Proof. apply Forall_app. split; [apply Forall_replicate; unfold in_u; lia|apply be_bytes_range]. Qed.

Lemma toy_bytes_roundtrip s : toy_reduce (toy_scalar_bytes s) = s.
Proof.
  unfold toy_reduce, toy_scalar_bytes. rewrite drop_app_length' by by rewrite length_replicate.
  rewrite be_val_bytes; [apply toF_fv|]. pose proof (fe_fv s) as H. unfold in_u in H.
  change (256 ^ Z.of_nat 24) with (2 ^ 192). done.
Qed.

Lemma toy_group_laws (p q r : F) :
  (p + (q + r) = p + q + r /\ p + q = q + p /\ p + 0 = p /\ p + Fopp p = 0 /\
   p * (q + r) = p * q + p * r /\ p * (q * r) = p * r * q /\ 0 * p = 0 /\ 1 * p = p)%gf.
Proof. split_and!; ring. Qed.

#[export] Instance concrete_laws : SigmaCryptoLaws concrete_crypto.
Proof.
  constructor.
  - intros p q r. apply (toy_group_laws p q r).
  - intros p q. apply (toy_group_laws p q p).
  - intros p. apply (toy_group_laws p p p).
  - intros p. apply (toy_group_laws p p p).
  - intros s. symmetry. apply (toy_group_laws s s s).
  - intros p s t. apply (toy_group_laws p s t).
  - intros p s t. apply (toy_group_laws p s t).
  - intros s. apply (toy_group_laws s s s).
  - done.
  - apply toy_bytes_len.
  - apply toy_bytes_range.
  - apply toy_bytes_roundtrip.
  - intros bs. apply length_be_bytes.
  - intros bs. apply be_bytes_range.
  - intros n r. apply length_be_bytes.
  - intros n r. apply be_bytes_range.
Qed.

(** * Reduction of propositions at concrete inputs *)

Definition knows_five (t : SigmaProofOfKnowledgeTree) : bool :=
  match t with ProveDlog h => fv h =? 5 | _ => false end.
Definition key (n : Z) : SigmaBoolean := ProofOfKnowledge (ProveDlog (toF n)).

Lemma cthreshold_reduce_correct_witness :
  0 <= 2 /\
  holds knows_five (cthreshold_reduce 2 [TrivialProp true; key 5; TrivialProp false; key 6]) =
  (2 <=? count_true (holds knows_five <$> [TrivialProp true; key 5; TrivialProp false; key 6])).
Proof.
  split; [lia|]. apply (cthreshold_reduce_correct knows_five 2). lia.
Defined.

Lemma normalized_correct_witness :
  holds knows_five (cand_normalized [key 5; TrivialProp true; key 6]) =
  forallb (holds knows_five) [key 5; TrivialProp true; key 6].
Proof.
  apply (normalized_correct knows_five [key 5; TrivialProp true; key 6]).
  constructor; [right; constructor|]. constructor; [left; eexists; reflexivity|].
  constructor; [right; constructor|constructor].
Defined.
