(* ===== verification/ProofTree.v ===== *)
(** Proof trees of the sigma protocol (src/ergotree-interpreter/src/sigma_protocol/: challenge.rs,
    unchecked_tree.rs, unproven_tree.rs, proof_tree.rs, and the messages of dlog_protocol.rs and
    dht_protocol.rs).

    The three conjecture types of the source, structs with the same fields but for the threshold's
    [k] and polynomial, are one constructor here with a [kind] that tells them apart. *)

From S2P Require Import Prelude Gf2_192 Gf2_192Poly SigmaBoolean.
From stdpp Require Export strings.
#[global] Open Scope list_scope.
#[global] Open Scope Z_scope.

Definition SOUNDNESS_BYTES : nat := 24.
Definition GROUP_SIZE : nat := 32.

(** * Challenges *)

(** The 24 bytes of a [FiatShamirHash]. *)
Definition Challenge : Type := list Z.

Definition challenge_xor (this that : Challenge) : Challenge := zip_with Z.lxor this that.

(** [From<Gf2_192> for Challenge] and back (gf2_192.rs). *)
Definition challenge_of_gf (e : Gf2_192) : Challenge := gf_to_bytes e.
Definition gf_of_challenge (c : Challenge) : Gf2_192 := gf_from_bytes c.

Definition gf2_192poly_from_byte_array (challenge : Challenge) (other_coefficients : list Z) :
    result Gf2_192Error Gf2_192Poly :=
  poly_try_from (mkCoeffs (gf_to_bytes (gf_of_challenge challenge)) other_coefficients).

(** [NodePosition] *)
Definition NodePosition : Type := list nat.
Definition crypto_tree_prefix : NodePosition := [0%nat].
Definition child (p : NodePosition) (child_idx : nat) : NodePosition := p ++ [child_idx].

Section trees.
Context `{C : SigmaCrypto}.

(** [From<&Challenge> for Scalar] (wscalar.rs): the bytes after eight zeros, big-endian. *)
Definition scalar_of_challenge (v : Challenge) : Scalar := reduce_bytes (replicate (32 - SOUNDNESS_BYTES) 0 ++ v).

(** * Messages *)

(** [FirstDlogProverMessage] and [FirstDhTupleProverMessage] as [FirstProverMessage]. *)
Definition FirstDlogProverMessage : Type := EcPoint.
Record FirstDhTupleProverMessage : Type := mkFirstDht { dht_a : EcPoint; dht_b : EcPoint }.
Inductive FirstProverMessage : Type :=
| FirstDlog (a : FirstDlogProverMessage)
| FirstDht (m : FirstDhTupleProverMessage).

Definition first_message_bytes (m : FirstProverMessage) : list Z :=
  match m with
  | FirstDlog a => ec_point_bytes a
  | FirstDht m => ec_point_bytes (dht_a m) ++ ec_point_bytes (dht_b m)
  end.

(** The statement of a Schnorr leaf is its point [h]; that of a tuple leaf its four points. *)
Record DhTuple : Type := mkDht { dh_g : EcPoint; dh_h : EcPoint; dh_u : EcPoint; dh_v : EcPoint }.
Definition dlog_prop (h : EcPoint) : SigmaBoolean := ProofOfKnowledge (ProveDlog h).
Definition dht_prop (d : DhTuple) : SigmaBoolean :=
  ProofOfKnowledge (ProveDhTuple (dh_g d) (dh_h d) (dh_u d) (dh_v d)).

(** * Unchecked trees *)

Record UncheckedSchnorr : Type := mkUncheckedSchnorr {
  us_proposition : EcPoint;
  us_commitment_opt : option FirstDlogProverMessage;
  us_challenge : Challenge;
  us_second_message : Scalar
}.

Record UncheckedDhTuple : Type := mkUncheckedDhTuple {
  ud_proposition : DhTuple;
  ud_commitment_opt : option FirstDhTupleProverMessage;
  ud_challenge : Challenge;
  ud_second_message : Scalar
}.

Inductive unchecked_kind : Type :=
| CandUnchecked
| CorUnchecked
| CthresholdUnchecked (k : Z) (polynomial : Gf2_192Poly).

Inductive UncheckedTree : Type :=
| UncheckedSchnorrLeaf (us : UncheckedSchnorr)
| UncheckedDhTupleLeaf (ud : UncheckedDhTuple)
| UncheckedConjecture (kind : unchecked_kind) (challenge : Challenge) (children : list UncheckedTree).

Definition unchecked_challenge (t : UncheckedTree) : Challenge :=
  match t with
  | UncheckedSchnorrLeaf us => us_challenge us
  | UncheckedDhTupleLeaf ud => ud_challenge ud
  | UncheckedConjecture _ challenge _ => challenge
  end.

Definition unchecked_with_challenge (t : UncheckedTree) (challenge : Challenge) : UncheckedTree :=
  match t with
  | UncheckedSchnorrLeaf us => UncheckedSchnorrLeaf
      (mkUncheckedSchnorr (us_proposition us) (us_commitment_opt us) challenge (us_second_message us))
  | UncheckedDhTupleLeaf ud => UncheckedDhTupleLeaf
      (mkUncheckedDhTuple (ud_proposition ud) (ud_commitment_opt ud) challenge (ud_second_message ud))
  | UncheckedConjecture kind _ children => UncheckedConjecture kind challenge children
  end.

(** * Unproven trees *)

#[global] Instance FirstDhTupleProverMessage_eq_dec : EqDecision FirstDhTupleProverMessage.
Proof. solve_decision. Defined.
#[global] Instance DhTuple_eq_dec : EqDecision DhTuple.
Proof. solve_decision. Defined.
#[global] Instance UncheckedSchnorr_eq_dec : EqDecision UncheckedSchnorr.
Proof. solve_decision. Defined.
#[global] Instance UncheckedDhTuple_eq_dec : EqDecision UncheckedDhTuple.
Proof. solve_decision. Defined.
#[global] Instance unchecked_kind_eq_dec : EqDecision unchecked_kind.
Proof. solve_decision. Defined.

Fixpoint unchecked_eq_dec (x y : UncheckedTree) {struct x} : {x = y} + {x <> y}.
Proof.
  refine (
    match x, y with
    | UncheckedSchnorrLeaf a, UncheckedSchnorrLeaf b => cast_if (decide (a = b))
    | UncheckedDhTupleLeaf a, UncheckedDhTupleLeaf b => cast_if (decide (a = b))
    | UncheckedConjecture k c l, UncheckedConjecture k' c' l' =>
        cast_if_and3 (decide (k = k')) (decide (c = c')) (@list_eq_dec _ unchecked_eq_dec l l')
    | _, _ => right _
    end); abstract congruence.
Defined.

(** The fields every unproven node has. *)
Record node_info : Type := mkInfo {
  challenge_opt : option Challenge;
  simulated : bool;
  position : NodePosition
}.

Definition info_with_challenge (i : node_info) (c : Challenge) : node_info :=
  mkInfo (Some c) (simulated i) (position i).
Definition info_with_simulated (i : node_info) (s : bool) : node_info :=
  mkInfo (challenge_opt i) s (position i).
Definition info_with_position (i : node_info) (p : NodePosition) : node_info :=
  mkInfo (challenge_opt i) (simulated i) p.

(** [UnprovenSchnorr] *)
Record UnprovenSchnorr : Type := mkUnprovenSchnorr {
  ups_proposition : EcPoint;
  ups_commitment_opt : option FirstDlogProverMessage;
  ups_randomness_opt : option Scalar
}.

(** [UnprovenDhTuple] *)
Record UnprovenDhTuple : Type := mkUnprovenDhTuple {
  upd_proposition : DhTuple;
  upd_commitment_opt : option FirstDhTupleProverMessage;
  upd_randomness_opt : option Scalar
}.

Inductive unproven_leaf : Type :=
| SchnorrLeaf (s : UnprovenSchnorr)
| DhTupleLeaf (d : UnprovenDhTuple).

Inductive unproven_kind : Type :=
| CandUnproven
| CorUnproven
| CthresholdUnproven (k : Z) (polinomial_opt : option Gf2_192Poly).

(** [ProofTree] and [UnprovenTree]; [items] is the number of children of the node's
    [proposition], the only part of it the code reads. *)
Inductive ProofTree : Type :=
| PUnchecked (t : UncheckedTree)
| PUnproven (t : UnprovenTree)
with UnprovenTree : Type :=
| UnprovenLeaf (l : unproven_leaf) (i : node_info)
| UnprovenConjecture (kind : unproven_kind) (items : nat) (i : node_info) (children : list ProofTree).

#[global] Instance node_info_eq_dec : EqDecision node_info.
Proof. solve_decision. Defined.
#[global] Instance UnprovenSchnorr_eq_dec : EqDecision UnprovenSchnorr.
Proof. solve_decision. Defined.
#[global] Instance UnprovenDhTuple_eq_dec : EqDecision UnprovenDhTuple.
Proof. solve_decision. Defined.
#[global] Instance unproven_leaf_eq_dec : EqDecision unproven_leaf.
Proof. solve_decision. Defined.
#[global] Instance unproven_kind_eq_dec : EqDecision unproven_kind.
Proof. solve_decision. Defined.

(** The derived structural equality of the trees. *)
Fixpoint proof_tree_eq_dec (x y : ProofTree) {struct x} : {x = y} + {x <> y}
with unproven_eq_dec (x y : UnprovenTree) {struct x} : {x = y} + {x <> y}.
Proof.
  - refine (
      match x, y with
      | PUnchecked a, PUnchecked b => cast_if (unchecked_eq_dec a b)
      | PUnproven a, PUnproven b => cast_if (unproven_eq_dec a b)
      | _, _ => right _
      end); abstract congruence.
  - refine (
      match x, y with
      | UnprovenLeaf l i, UnprovenLeaf l' i' => cast_if_and (decide (l = l')) (decide (i = i'))
      | UnprovenConjecture k n i cs, UnprovenConjecture k' n' i' cs' =>
          cast_if_and4 (decide (k = k')) (decide (n = n')) (decide (i = i'))
            (@list_eq_dec _ proof_tree_eq_dec cs cs')
      | _, _ => right _
      end); abstract congruence.
Defined.
#[global] Instance UnprovenTree_eq_dec : EqDecision UnprovenTree := unproven_eq_dec.

Definition tree_info (t : UnprovenTree) : node_info :=
  match t with
  | UnprovenLeaf _ i => i
  | UnprovenConjecture _ _ i _ => i
  end.

Definition map_info (f : node_info -> node_info) (t : UnprovenTree) : UnprovenTree :=
  match t with
  | UnprovenLeaf l i => UnprovenLeaf l (f i)
  | UnprovenConjecture kind n i children => UnprovenConjecture kind n (f i) children
  end.

Definition is_simulated (t : UnprovenTree) : bool := simulated (tree_info t).
Definition is_real (t : UnprovenTree) : bool := negb (is_simulated t).
Definition with_simulated (t : UnprovenTree) (s : bool) : UnprovenTree :=
  map_info (fun i => info_with_simulated i s) t.
Definition with_position (t : UnprovenTree) (p : NodePosition) : UnprovenTree :=
  map_info (fun i => info_with_position i p) t.
Definition unproven_with_challenge (t : UnprovenTree) (c : Challenge) : UnprovenTree :=
  map_info (fun i => info_with_challenge i c) t.
Definition unproven_challenge (t : UnprovenTree) : option Challenge := challenge_opt (tree_info t).

Definition leaf_proposition (l : unproven_leaf) : SigmaBoolean :=
  match l with
  | SchnorrLeaf s => dlog_prop (ups_proposition s)
  | DhTupleLeaf d => dht_prop (upd_proposition d)
  end.

Definition with_challenge (t : ProofTree) (c : Challenge) : ProofTree :=
  match t with
  | PUnchecked uc => PUnchecked (unchecked_with_challenge uc c)
  | PUnproven ut => PUnproven (unproven_with_challenge ut c)
  end.

Definition challenge (t : ProofTree) : option Challenge :=
  match t with
  | PUnchecked uc => Some (unchecked_challenge uc)
  | PUnproven ut => unproven_challenge ut
  end.

(** * Errors (prover.rs, fiat_shamir.rs) *)

Inductive FiatShamirTreeSerializationError : Type :=
| EmptyCommitmentInLeaf (proposition : SigmaBoolean).

(** The errors of proof generation; those that reducing a script to a proposition can give are
    not here. [OutOfFuel] is not in the source: it is what [rewrite_td] gives for a tree deeper
    than its fuel. *)
Inductive ProverError : Type :=
| ProverGf2_192Error (e : Gf2_192Error)
| ReducedToFalse
| TreeRootIsNotReal
| SimulatedLeafWithoutChallenge
| RealUnprovenTreeWithoutChallenge
| SecretNotFound
| Unexpected (msg : string)
| ProverFiatShamirError (e : FiatShamirTreeSerializationError)
| OutOfFuel.

(** * Rewriting *)

Definition cast_to_ust (children : list ProofTree) : result ProverError (list UncheckedTree) :=
  mapM_res
    (fun c => match c with
              | PUnchecked ust => Ok ust
              | PUnproven _ =>
                  Err (Unexpected "rewrite: expected UncheckedSigmaTree got UnprovenTree")
              end) children.

Section rewrite_bu.
Context (f : ProofTree -> result ProverError (option ProofTree)).

Definition apply_bu (tree : ProofTree) : result ProverError ProofTree :=
  o ← f tree; Ok (default tree o).

Fixpoint rewrite_bu_unchecked (t : UncheckedTree) : result ProverError ProofTree :=
  match t with
  | UncheckedSchnorrLeaf _ | UncheckedDhTupleLeaf _ => apply_bu (PUnchecked t)
  | UncheckedConjecture kind challenge children =>
      rewritten_children ← mapM_res rewrite_bu_unchecked children;
      casted_children ← cast_to_ust rewritten_children;
      apply_bu (PUnchecked (UncheckedConjecture kind challenge casted_children))
  end.

(** Bottom up: the children first, then [f] on the node with its new children. *)
Fixpoint rewrite_bu (tree : ProofTree) : result ProverError ProofTree :=
  match tree with
  | PUnchecked t => rewrite_bu_unchecked t
  | PUnproven t => rewrite_bu_unproven t
  end
with rewrite_bu_unproven (t : UnprovenTree) : result ProverError ProofTree :=
  match t with
  | UnprovenLeaf _ _ => apply_bu (PUnproven t)
  | UnprovenConjecture kind n i children =>
      children ← mapM_res rewrite_bu children;
      apply_bu (PUnproven (UnprovenConjecture kind n i children))
  end.
End rewrite_bu.

Section rewrite_td.
Context (f : ProofTree -> stateE Rng ProverError (option ProofTree)).

(** Top down: [f] on the node, then the children of the result, from left to right; the
    random number generator is threaded in that order. *)
Fixpoint rewrite_td (fuel : nat) (tree : ProofTree) : stateE Rng ProverError ProofTree :=
  match fuel with
  | O => fail OutOfFuel
  | S fuel =>
      o ← f tree;
      let rewritten_tree := default tree o in
      match rewritten_tree with
      | PUnproven (UnprovenLeaf _ _) => mret rewritten_tree
      | PUnproven (UnprovenConjecture kind n i children) =>
          children ← mapM_st (rewrite_td fuel) children;
          mret (PUnproven (UnprovenConjecture kind n i children))
      | PUnchecked (UncheckedConjecture kind challenge children) =>
          rewritten_children ← mapM_st (fun c => rewrite_td fuel (PUnchecked c)) children;
          casted_children ← liftE (cast_to_ust rewritten_children);
          mret (PUnchecked (UncheckedConjecture kind challenge casted_children))
      | PUnchecked _ => mret rewritten_tree
      end
  end.
End rewrite_td.

(** The depth of a tree: fuel for one [rewrite_td] whose function adds no level. *)
Fixpoint unchecked_depth (t : UncheckedTree) : nat :=
  match t with
  | UncheckedSchnorrLeaf _ | UncheckedDhTupleLeaf _ => 1
  | UncheckedConjecture _ _ children => 1 + max_list_with unchecked_depth children
  end.

Fixpoint proof_tree_depth (t : ProofTree) : nat :=
  match t with
  | PUnchecked t => unchecked_depth t
  | PUnproven t => unproven_depth t
  end
with unproven_depth (t : UnprovenTree) : nat :=
  match t with
  | UnprovenLeaf _ _ => 1
  | UnprovenConjecture _ _ _ children => 1 + max_list_with proof_tree_depth children
  end.

(** * The Fiat-Shamir string (fiat_shamir.rs) *)

(** [put_i16_be_bytes(n as i16)] *)
Definition put_i16_be_bytes (n : nat) : list Z := be_bytes 2 (wrap_s 16 (Z.of_nat n) mod 65536).

(** A proof-of-knowledge leaf as the code writes it: op code and points. *)
Definition leaf_sigma_bytes (t : SigmaProofOfKnowledgeTree) : list Z :=
  match t with
  | ProveDlog h => 205 :: ec_point_bytes h
  | ProveDhTuple g h u v =>
      206 :: ec_point_bytes g ++ ec_point_bytes h ++ ec_point_bytes u ++ ec_point_bytes v
  end.

(** [ErgoTree::new(v0 with constant segregation, Const(SigmaProp(leaf)))] serialized: header
    0x10, one constant of type SSigmaProp (8), and the placeholder 0x73 of index 0. *)
Definition prop_bytes (t : SigmaProofOfKnowledgeTree) : list Z :=
  [16; 1; 8] ++ leaf_sigma_bytes t ++ [115; 0].

Definition fs_leaf_bytes (t : SigmaProofOfKnowledgeTree) (commitment_opt : option FirstProverMessage) :
    result FiatShamirTreeSerializationError (list Z) :=
  let prop_bytes := prop_bytes t in
  commitment ← ok_or commitment_opt (EmptyCommitmentInLeaf (ProofOfKnowledge t));
  let commitment_bytes := first_message_bytes commitment in
  Ok (1 :: put_i16_be_bytes (length prop_bytes) ++ prop_bytes ++
      put_i16_be_bytes (length commitment_bytes) ++ commitment_bytes).

(** [conjecture_type() as u8] and, for a threshold, [k]. *)
Definition fs_conj_bytes (type : Z) (threshold_k : option Z) (children : list (list Z)) : list Z :=
  [0; type] ++ match threshold_k with Some k => [k] | None => [] end ++
  put_i16_be_bytes (length children) ++ concat children.

Definition dht_pok (d : DhTuple) : SigmaProofOfKnowledgeTree :=
  ProveDhTuple (dh_g d) (dh_h d) (dh_u d) (dh_v d).

Fixpoint fs_unchecked (t : UncheckedTree) : result FiatShamirTreeSerializationError (list Z) :=
  match t with
  | UncheckedSchnorrLeaf us =>
      fs_leaf_bytes (ProveDlog (us_proposition us)) (FirstDlog <$> us_commitment_opt us)
  | UncheckedDhTupleLeaf ud =>
      fs_leaf_bytes (dht_pok (ud_proposition ud)) (FirstDht <$> ud_commitment_opt ud)
  | UncheckedConjecture kind _ children =>
      children ← mapM_res fs_unchecked children;
      Ok (match kind with
          | CandUnchecked => fs_conj_bytes 0 None children
          | CorUnchecked => fs_conj_bytes 1 None children
          | CthresholdUnchecked k _ => fs_conj_bytes 2 (Some k) children
          end)
  end.

(** [fiat_shamir_tree_to_bytes] *)
Fixpoint fs_tree (t : ProofTree) : result FiatShamirTreeSerializationError (list Z) :=
  match t with
  | PUnchecked t => fs_unchecked t
  | PUnproven t => fs_unproven t
  end
with fs_unproven (t : UnprovenTree) : result FiatShamirTreeSerializationError (list Z) :=
  match t with
  | UnprovenLeaf (SchnorrLeaf s) _ =>
      fs_leaf_bytes (ProveDlog (ups_proposition s)) (FirstDlog <$> ups_commitment_opt s)
  | UnprovenLeaf (DhTupleLeaf d) _ =>
      fs_leaf_bytes (dht_pok (upd_proposition d)) (FirstDht <$> upd_commitment_opt d)
  | UnprovenConjecture kind _ _ children =>
      children ← mapM_res fs_tree children;
      Ok (match kind with
          | CandUnproven => fs_conj_bytes 0 None children
          | CorUnproven => fs_conj_bytes 1 None children
          | CthresholdUnproven k _ => fs_conj_bytes 2 (Some k) children
          end)
  end.

(** [fiat_shamir_hash_fn] *)
Definition fiat_shamir_hash_fn (input : list Z) : Challenge :=
  take SOUNDNESS_BYTES (blake2b256_hash input).
End trees.
