(* ===== verification/Prover.v ===== *)
(** The sigma-protocol prover (src/ergotree-interpreter/src/sigma_protocol/prover.rs, with
    prover/hint.rs, private_input.rs, and the interactive provers of dlog_protocol.rs and
    dht_protocol.rs), built with the feature [std].

    Each [assert!] of the source is about the node its only caller has just matched, and is left
    out. [secure_rng] and [Challenge::secure_random] draw from the threaded generator. *)

From S2P Require Import Prelude Gf2_192 Gf2_192Poly SigmaBoolean ProofTree.

Section prover.
Context `{C : SigmaCrypto}.

(** * Interactive provers *)

(** The randomness of one draw. *)
Definition secure_random_bytes (n : nat) : stateE Rng ProverError (list Z) :=
  fun r => Ok (fill_bytes n r).
Definition random_scalar_in_group_range : stateE Rng ProverError Scalar :=
  fun r => Ok (generate_vartime r).
Definition challenge_secure_random : stateE Rng ProverError Challenge :=
  secure_random_bytes SOUNDNESS_BYTES.

(** dlog_protocol.rs *)
Definition dlog_simulate (h : EcPoint) (challenge : Challenge) :
    stateE Rng ProverError (FirstDlogProverMessage * Scalar) :=
  z ← random_scalar_in_group_range;
  let e := scalar_of_challenge challenge in
  let minus_e := sc_negate e in
  let h_to_e := exponentiate h minus_e in
  let g_to_z := exponentiate_gen z in
  mret (ec_mul g_to_z h_to_e, z).

Definition dlog_first_message : stateE Rng ProverError (Scalar * FirstDlogProverMessage) :=
  r ← random_scalar_in_group_range;
  mret (r, exponentiate_gen r).

Definition second_message (w rnd : Scalar) (challenge : Challenge) : Scalar :=
  let e := scalar_of_challenge challenge in
  sc_add rnd (sc_mul e w).

Definition dlog_compute_commitment (h : EcPoint) (challenge : Challenge) (z : Scalar) : EcPoint :=
  let e := scalar_of_challenge challenge in
  let g_z := exponentiate_gen z in
  let h_e := exponentiate h e in
  ec_mul g_z (inverse h_e).

(** dht_protocol.rs *)
Definition dht_simulate (d : DhTuple) (challenge : Challenge) :
    stateE Rng ProverError (FirstDhTupleProverMessage * Scalar) :=
  z ← random_scalar_in_group_range;
  let e := scalar_of_challenge challenge in
  let minus_e := sc_negate e in
  let h_to_z := exponentiate (dh_h d) z in
  let g_to_z := exponentiate (dh_g d) z in
  let u_to_minus_e := exponentiate (dh_u d) minus_e in
  let v_to_minus_e := exponentiate (dh_v d) minus_e in
  mret (mkFirstDht (ec_mul g_to_z u_to_minus_e) (ec_mul h_to_z v_to_minus_e), z).

Definition dht_first_message (d : DhTuple) :
    stateE Rng ProverError (Scalar * FirstDhTupleProverMessage) :=
  r ← random_scalar_in_group_range;
  mret (r, mkFirstDht (exponentiate (dh_g d) r) (exponentiate (dh_h d) r)).

Definition dht_compute_commitment (d : DhTuple) (challenge : Challenge) (z : Scalar) :
    EcPoint * EcPoint :=
  let e := scalar_of_challenge challenge in
  let g_to_z := exponentiate (dh_g d) z in
  let h_to_z := exponentiate (dh_h d) z in
  let u_to_e := exponentiate (dh_u d) e in
  let v_to_e := exponentiate (dh_v d) e in
  (ec_mul g_to_z (inverse u_to_e), ec_mul h_to_z (inverse v_to_e)).

(** * Secrets (private_input.rs) *)

Record DlogProverInput : Type := mkDlogInput { dlog_w : Scalar; dlog_pk : EcPoint }.
(** [DlogProverInput::new], the only way to build one. *)
Definition dlog_input_new (w : Scalar) : DlogProverInput := mkDlogInput w (exponentiate_gen w).
Record DhTupleProverInput : Type := mkDhtInput { dht_w : Scalar; common_input : DhTuple }.
Inductive PrivateInput : Type :=
| PrivateDlog (d : DlogProverInput)
| PrivateDht (d : DhTupleProverInput).

Definition public_image (s : PrivateInput) : SigmaBoolean :=
  match s with
  | PrivateDlog dl => dlog_prop (dlog_pk dl)
  | PrivateDht dht => dht_prop (common_input dht)
  end.

(** * Hints (prover/hint.rs) *)

(** [RealSecretProof] and [SimulatedSecretProof] *)
Record SecretProof : Type := mkSecretProof {
  sp_image : SigmaBoolean;
  sp_challenge : Challenge;
  sp_unchecked_tree : UncheckedTree;
  sp_position : NodePosition
}.
Inductive SecretProven : Type :=
| RealSecretProof (p : SecretProof)
| SimulatedSecretProof (p : SecretProof).

Record Commitment : Type := mkCommitment {
  cm_image : SigmaBoolean;
  cm_commitment : FirstProverMessage;
  cm_position : NodePosition
}.
Inductive CommitmentHint : Type :=
| OwnCommitment (c : Commitment) (secret_randomness : Scalar)
| RealCommitment (c : Commitment)
| SimulatedCommitment (c : Commitment).

Inductive Hint : Type :=
| HintSecretProven (s : SecretProven)
| HintCommitment (c : CommitmentHint).

Definition HintsBag : Type := list Hint.
Definition hints_empty : HintsBag := [].
Definition from_bags (bags : list HintsBag) : HintsBag :=
  fold_left (fun hints bag => hints ++ bag) bags [].
Definition add_hint (bag : HintsBag) (h : Hint) : HintsBag := bag ++ [h].

Definition proven_proof (s : SecretProven) : SecretProof :=
  match s with RealSecretProof p => p | SimulatedSecretProof p => p end.
Definition hint_commitment (c : CommitmentHint) : Commitment :=
  match c with OwnCommitment c _ => c | RealCommitment c => c | SimulatedCommitment c => c end.

Definition commitments (bag : HintsBag) : list CommitmentHint :=
  omap (fun h => match h with HintCommitment c => Some c | _ => None end) bag.
Definition proofs (bag : HintsBag) : list SecretProven :=
  omap (fun h => match h with HintSecretProven s => Some s | _ => None end) bag.
Definition real_proofs (bag : HintsBag) : list SecretProof :=
  omap (fun h => match h with HintSecretProven (RealSecretProof p) => Some p | _ => None end) bag.
Definition simulated_proofs (bag : HintsBag) : list SecretProof :=
  omap (fun h => match h with HintSecretProven (SimulatedSecretProof p) => Some p | _ => None end) bag.
Definition real_commitments (bag : HintsBag) : list Commitment :=
  omap (fun h => match h with HintCommitment (RealCommitment c) => Some c | _ => None end) bag.
Definition simulated_commitments (bag : HintsBag) : list Commitment :=
  omap (fun h => match h with HintCommitment (SimulatedCommitment c) => Some c | _ => None end) bag.
Definition own_commitments (bag : HintsBag) : list (Commitment * Scalar) :=
  omap (fun h => match h with HintCommitment (OwnCommitment c r) => Some (c, r) | _ => None end) bag.
Definition real_images (bag : HintsBag) : list SigmaBoolean :=
  (sp_image <$> real_proofs bag) ++ (cm_image <$> real_commitments bag).

(** [iter().find(..)] *)
Definition find_first {A} (P : A -> bool) (l : list A) : option A := List.find P l.

(** * Step 1 *)

Definition cast_to_unp (children : list ProofTree) : result ProverError (list UnprovenTree) :=
  mapM_res
    (fun c => match c with
              | PUnproven ut => Ok ut
              | PUnchecked _ =>
                  Err (Unexpected "make_cor_children_simulated: expected UnprovenTree got UncheckedTree")
              end) children.

Section with_prover.
Context (secrets : list PrivateInput) (hints_bag : HintsBag).

Definition secret_known (prop : SigmaBoolean) : bool :=
  bool_decide (prop ∈ real_images hints_bag) ||
  existsb (fun s => bool_decide (public_image s = prop)) secrets.

Definition count_real (children : list UnprovenTree) : nat :=
  length (List.filter is_real children).

Definition mark_real_node (tree : ProofTree) : result ProverError (option ProofTree) :=
  match tree with
  | PUnproven (UnprovenLeaf l i) =>
      Ok (Some (PUnproven (with_simulated (UnprovenLeaf l i) (negb (secret_known (leaf_proposition l))))))
  | PUnproven (UnprovenConjecture kind n i children) =>
      unp ← cast_to_unp children;
      let simulated :=
        match kind with
        | CandUnproven => existsb is_simulated unp
        | CorUnproven => forallb is_simulated unp
        | CthresholdUnproven k _ => Z.of_nat (count_real unp) <? k
        end in
      Ok (Some (PUnproven (with_simulated (UnprovenConjecture kind n i children) simulated)))
  | PUnchecked _ => Ok None
  end.

Definition to_unproven (msg : string) (t : ProofTree) : result ProverError UnprovenTree :=
  match t with PUnproven ut => Ok ut | PUnchecked _ => Err (Unexpected msg) end.

Definition mark_real (unproven_tree : UnprovenTree) : result ProverError UnprovenTree :=
  t ← rewrite_bu mark_real_node (PUnproven unproven_tree);
  to_unproven "mark_real: failed to get UnprovenTree from ProofTree" t.
End with_prover.

(** * Step 3 *)

(** On the children and position of a conjecture. *)
Definition set_positions (pos : NodePosition) (children : list ProofTree) :
    result ProverError (list ProofTree) :=
  mapM_res
    (fun '(idx, c) =>
       match c with
       | PUnchecked _ => Err (Unexpected "set_positions: expected UnprovenTree, got UncheckedTree")
       | PUnproven utree => Ok (PUnproven (with_position utree (child pos idx)))
       end) (enumerate children).

Definition make_cor_children_simulated (children : list ProofTree) :
    result ProverError (list ProofTree) :=
  casted_children ← cast_to_unp children;
  first_real_child ← ok_or (find_first is_real casted_children)
    (Unexpected "make_cor_children_simulated: no real child is found amoung Cor children");
  Ok (map (fun c =>
         PUnproven (if bool_decide (c = first_real_child) || is_simulated c then c
                    else with_simulated c true)) casted_children).

Definition all_simulated (children : list ProofTree) : result ProverError (list ProofTree) :=
  unp ← cast_to_unp children;
  Ok (map (fun c => PUnproven (with_simulated c true)) unp).

(** The indices, from [idx] on, of the real children above the first [k]; the count is a u8. *)
Fixpoint excess_real (k count_of_real : Z) (idx : nat) (kids : list UnprovenTree) : list nat :=
  match kids with
  | [] => []
  | kid :: kids =>
      if is_real kid then
        let count_of_real := wrap_u 8 (count_of_real + 1) in
        if count_of_real >? k then idx :: excess_real k count_of_real (S idx) kids
        else excess_real k count_of_real (S idx) kids
      else excess_real k count_of_real (S idx) kids
  end.

Definition threshold_children_simulated (k : Z) (children : list ProofTree) :
    result ProverError (list ProofTree) :=
  unproven_children ← cast_to_unp children;
  let indices := excess_real k 0 0 unproven_children in
  Ok (map (fun '(idx, c) =>
         PUnproven (if bool_decide (idx ∈ indices) then with_simulated c true else c))
      (enumerate unproven_children)).

Definition polish_node (tree : ProofTree) : stateE Rng ProverError (option ProofTree) :=
  match tree with
  | PUnproven (UnprovenLeaf _ _) => mret None
  | PUnproven (UnprovenConjecture kind n i children) =>
      children ← liftE (
        if simulated i then all_simulated children
        else
          match kind with
          | CandUnproven => Ok children
          | CorUnproven => make_cor_children_simulated children
          | CthresholdUnproven k _ => threshold_children_simulated k children
          end);
      children ← liftE (set_positions (position i) children);
      mret (Some (PUnproven (UnprovenConjecture kind n i children)))
  | PUnchecked _ => mret None
  end.

Definition polish_simulated (unproven_tree : UnprovenTree) : stateE Rng ProverError UnprovenTree :=
  t ← rewrite_td polish_node (unproven_depth unproven_tree) (PUnproven unproven_tree);
  liftE (to_unproven "polish_simulated: failed to convert ProofTree to UnprovenTree" t).

(** * Steps 4 to 6 *)

(** [CthresholdUnproven::with_polynomial]; [to_bytes] panics where it has no bytes. *)
Definition with_polynomial (k : Z) (items : nat) (q : Gf2_192Poly) :
    result ProverError unproven_kind :=
  match poly_to_bytes q with
  | Err e => Err (ProverGf2_192Error e)
  | Ok bytes =>
      let n_coeff := Z.of_nat items - k in
      if (0 <=? n_coeff) && (n_coeff * Z.of_nat SOUNDNESS_BYTES =? Z.of_nat (length bytes))
      then Ok (CthresholdUnproven k (Some q))
      else Err (Unexpected "Invalid polynomial length in CthresholdUnproven (children.len() - k) * SOUNDNESS_BYTES != polynomial.len()")
  end.

Definition threshold_point (idx : nat) : result ProverError Z :=
  let p := Z.of_nat idx + 1 in
  if p <=? 255 then Ok p else Err (Unexpected "a threshold with more than 255 children").

Definition step4_real_conj (hints_bag : HintsBag) (kind : unproven_kind) (n : nat) (i : node_info)
    (children : list ProofTree) : stateE Rng ProverError (option ProofTree) :=
  match kind with
  | CandUnproven => mret None
  | CorUnproven | CthresholdUnproven _ _ =>
      unp ← liftE (cast_to_unp children);
      new_children ← mapM_st
        (fun c =>
           if is_real c then mret (PUnproven c)
           else
             new_challenge ←
               match find_first (fun p => bool_decide (sp_position (proven_proof p) = position (tree_info c)))
                       (proofs hints_bag) with
               | Some p => mret (sp_challenge (proven_proof p))
               | None => challenge_secure_random
               end;
             mret (PUnproven (unproven_with_challenge c new_challenge))) unp;
      mret (Some (PUnproven (UnprovenConjecture kind n i new_children)))
  end.

Definition step4_simulated_and_conj (n : nat) (i : node_info) (children : list ProofTree) :
    stateE Rng ProverError (option ProofTree) :=
  match challenge_opt i with
  | Some challenge =>
      mret (Some (PUnproven (UnprovenConjecture CandUnproven n i
        (map (fun it => with_challenge it challenge) children))))
  | None => fail (Unexpected "step4_simulated_and_conj: missing CandUnproven(simulated).challenge")
  end.

Definition step4_simulated_or_conj (n : nat) (i : node_info) (children : list ProofTree) :
    stateE Rng ProverError (option ProofTree) :=
  match challenge_opt i with
  | Some challenge =>
      unproven_children ← liftE (cast_to_unp children);
      tail ← mapM_st (fun it => c ← challenge_secure_random; mret (unproven_with_challenge it c))
               (drop 1 unproven_children);
      challenges ← liftE (mapM_res
        (fun it => ok_or (unproven_challenge it)
           (Unexpected "step4_simulated_or_conj: no challenge in UnprovenTree")) tail);
      let xored_challenge := fold_left challenge_xor challenges challenge in
      head ← liftE (ok_or (head unproven_children) (Unexpected "Or.unproven_children is empty"));
      mret (Some (PUnproven (UnprovenConjecture CorUnproven n i
        (map PUnproven (unproven_with_challenge head xored_challenge :: tail)))))
  | None => fail (Unexpected "step4_simulated_or_conj: missing CandUnproven(simulated).challenge")
  end.

Definition step4_simulated_threshold_conj (k : Z) (n : nat) (i : node_info)
    (children : list ProofTree) : stateE Rng ProverError (option ProofTree) :=
  match challenge_opt i with
  | Some challenge =>
      unproven_children ← liftE (cast_to_unp children);
      let n_coeff := Z.of_nat (length children) - k in
      if n_coeff <? 0
      then fail (Unexpected "step4_simulated_threshold_conj: k above the number of children")
      else
        bytes ← secure_random_bytes (SOUNDNESS_BYTES * Z.to_nat n_coeff);
        q ← liftE (result_map_err ProverGf2_192Error (gf2_192poly_from_byte_array challenge bytes));
        new_children ← liftE (mapM_res
          (fun '(idx, c) =>
             point ← threshold_point idx;
             Ok (PUnproven (unproven_with_challenge c (challenge_of_gf (evaluate q point)))))
          (enumerate unproven_children));
        kind ← liftE (with_polynomial k n q);
        mret (Some (PUnproven (UnprovenConjecture kind n i new_children)))
  | None =>
      fail (Unexpected "step4_simulated_threshold_conj: missing CthresholdUnproven(simulated).challenge")
  end.

Definition find_commitment (hints_bag : HintsBag) (pos : NodePosition) : option Commitment :=
  hint_commitment <$>
    find_first (fun c => bool_decide (cm_position (hint_commitment c) = pos)) (commitments hints_bag).

Definition step5_schnorr (hints_bag : HintsBag) (us : UnprovenSchnorr) (i : node_info) :
    stateE Rng ProverError (option ProofTree) :=
  match find_commitment hints_bag (position i) with
  | Some cmt_hint =>
      match cm_commitment cmt_hint with
      | FirstDlog a =>
          mret (Some (PUnproven (UnprovenLeaf
            (SchnorrLeaf (mkUnprovenSchnorr (ups_proposition us) (Some a) (ups_randomness_opt us))) i)))
      | FirstDht _ =>
          fail (Unexpected "step5_schnorr: failed to convert FirstProverMessage to FirstDlogProverMessage")
      end
  | None =>
      if simulated i then
        match challenge_opt i with
        | Some challenge =>
            '(fm, sm) ← dlog_simulate (ups_proposition us) challenge;
            mret (Some (PUnchecked (UncheckedSchnorrLeaf
              (mkUncheckedSchnorr (ups_proposition us) (Some fm) challenge sm))))
        | None => fail SimulatedLeafWithoutChallenge
        end
      else
        '(r, commitment) ← dlog_first_message;
        mret (Some (PUnproven (UnprovenLeaf
          (SchnorrLeaf (mkUnprovenSchnorr (ups_proposition us) (Some commitment) (Some r))) i)))
  end.

Definition step5_diffie_hellman_tuple (hints_bag : HintsBag) (dhu : UnprovenDhTuple) (i : node_info) :
    stateE Rng ProverError (option ProofTree) :=
  match find_commitment hints_bag (position i) with
  | Some cmt_hint =>
      match cm_commitment cmt_hint with
      | FirstDlog _ =>
          fail (Unexpected "Step 5 & 6 for UnprovenDhTuple: FirstDlogProverMessage is not expected here")
      | FirstDht dhtm =>
          mret (Some (PUnproven (UnprovenLeaf
            (DhTupleLeaf (mkUnprovenDhTuple (upd_proposition dhu) (Some dhtm) (upd_randomness_opt dhu))) i)))
      end
  | None =>
      if simulated i then
        match challenge_opt i with
        | Some dhu_challenge =>
            '(fm, sm) ← dht_simulate (upd_proposition dhu) dhu_challenge;
            mret (Some (PUnchecked (UncheckedDhTupleLeaf
              (mkUncheckedDhTuple (upd_proposition dhu) (Some fm) dhu_challenge sm))))
        | None => fail SimulatedLeafWithoutChallenge
        end
      else
        '(r, fm) ← dht_first_message (upd_proposition dhu);
        mret (Some (PUnproven (UnprovenLeaf
          (DhTupleLeaf (mkUnprovenDhTuple (upd_proposition dhu) (Some fm) (Some r))) i)))
  end.

Definition simulate_and_commit_node (hints_bag : HintsBag) (tree : ProofTree) :
    stateE Rng ProverError (option ProofTree) :=
  match tree with
  | PUnproven (UnprovenConjecture kind n i children) =>
      if negb (simulated i) then step4_real_conj hints_bag kind n i children
      else
        match kind with
        | CandUnproven => step4_simulated_and_conj n i children
        | CorUnproven => step4_simulated_or_conj n i children
        | CthresholdUnproven k _ => step4_simulated_threshold_conj k n i children
        end
  | PUnproven (UnprovenLeaf (SchnorrLeaf us) i) => step5_schnorr hints_bag us i
  | PUnproven (UnprovenLeaf (DhTupleLeaf dhu) i) => step5_diffie_hellman_tuple hints_bag dhu i
  | PUnchecked _ => mret None
  end.

Definition simulate_and_commit (hints_bag : HintsBag) (unproven_tree : UnprovenTree) :
    stateE Rng ProverError UnprovenTree :=
  t ← rewrite_td (simulate_and_commit_node hints_bag) (unproven_depth unproven_tree)
        (PUnproven unproven_tree);
  liftE (to_unproven "simulate_and_commit: failed to convert ProofTree to UnprovenTree" t).

(** * Step 9 *)

Definition step9_real_and (n : nat) (i : node_info) (children : list ProofTree) :
    result ProverError (option ProofTree) :=
  match challenge_opt i with
  | Some challenge =>
      Ok (Some (PUnproven (UnprovenConjecture CandUnproven n i
        (map (fun child => with_challenge child challenge) children))))
  | None => Err (Unexpected "step9_real_and: CandUnproven.challenge_opt is empty")
  end.

(** The children marked real get the challenge. *)
Definition challenge_real (c : Challenge) (child : ProofTree) : ProofTree :=
  match child with
  | PUnproven ut => if is_real ut then with_challenge child c else child
  | PUnchecked _ => child
  end.

Definition step9_real_or (n : nat) (i : node_info) (children : list ProofTree) :
    result ProverError (option ProofTree) :=
  match challenge_opt i with
  | Some root_challenge =>
      let challenge := fold_left challenge_xor (omap challenge children) root_challenge in
      Ok (Some (PUnproven (UnprovenConjecture CorUnproven n i
        (map (challenge_real challenge) children))))
  | None => Err (Unexpected "step9_real_or: CorUnproven.challenge_opt is empty")
  end.

Definition threshold_child_challenge (child : ProofTree) : result ProverError (option Challenge) :=
  match child with
  | PUnchecked (UncheckedConjecture _ _ _) =>
      Err (Unexpected "step9_real_threshold: CthresholdUnproven.children has unexpected UncheckedConjecture")
  | PUnchecked ul => Ok (Some (unchecked_challenge ul))
  | PUnproven unpt => Ok (unproven_challenge unpt)
  end.

Definition step9_real_threshold (k : Z) (n : nat) (i : node_info) (children : list ProofTree) :
    result ProverError (option ProofTree) :=
  match challenge_opt i with
  | Some challenge =>
      points_values ← mapM_res
        (fun '(idx, child) =>
           one_based_idx ← threshold_point idx;
           challenge_opt ← threshold_child_challenge child;
           Ok (option_map (fun c => (one_based_idx, gf_of_challenge c)) challenge_opt))
        (enumerate children);
      let known := omap (M := list) id points_values in
      q ← result_map_err (fun e => ProverGf2_192Error (Gf2_192PolyErr e))
            (interpolate known.*1 known.*2 (gf_of_challenge challenge));
      new_children ← mapM_res
        (fun '(idx, child) =>
           one_based_idx ← threshold_point idx;
           Ok (challenge_real (challenge_of_gf (evaluate q one_based_idx)) child))
        (enumerate children);
      kind ← with_polynomial k n q;
      Ok (Some (PUnproven (UnprovenConjecture kind n i new_children)))
  | None => Err (Unexpected "step9_real_threshold: CthresholdUnproven.challenge_opt is empty")
  end.

Section step9_leaves.
Context (secrets : list PrivateInput) (hints_bag : HintsBag).

Definition find_secret (prop : SigmaBoolean) : option PrivateInput :=
  find_first (fun s => bool_decide (public_image s = prop)) secrets.
Definition find_own_commitment (pos : NodePosition) : option Scalar :=
  snd <$> find_first (fun '(c, _) => bool_decide (cm_position c = pos)) (own_commitments hints_bag).
Definition find_real_proof (pos : NodePosition) : option SecretProof :=
  find_first (fun p => bool_decide (sp_position p = pos)) (real_proofs hints_bag).

Definition step9_real_schnorr (us : UnprovenSchnorr) (i : node_info) :
    stateE Rng ProverError (option ProofTree) :=
  match challenge_opt i with
  | None => fail RealUnprovenTreeWithoutChallenge
  | Some challenge =>
      z ← match find_secret (dlog_prop (ups_proposition us)) with
          | Some (PrivateDlog priv_key) =>
              match find_own_commitment (position i) with
              | Some secret_randomness => mret (second_message (dlog_w priv_key) secret_randomness challenge)
              | None =>
                  r ← liftE (ok_or (ups_randomness_opt us)
                        (Unexpected "step9_real_schnorr: empty randomness in UnprovenSchnorr"));
                  mret (second_message (dlog_w priv_key) r challenge)
              end
          | Some (PrivateDht _) =>
              fail (Unexpected "step9_real_schnorr: Expected DLOG prover input in prover secrets, got DhTupleProverInput")
          | None =>
              match find_real_proof (position i) with
              | Some tree =>
                  match sp_unchecked_tree tree with
                  | UncheckedSchnorrLeaf u => mret (us_second_message u)
                  | _ => fail SecretNotFound
                  end
              | None => random_scalar_in_group_range
              end
          end;
      mret (Some (PUnchecked (UncheckedSchnorrLeaf
        (mkUncheckedSchnorr (ups_proposition us) None challenge z))))
  end.

Definition step9_real_dh_tuple (dhu : UnprovenDhTuple) (i : node_info) :
    stateE Rng ProverError (option ProofTree) :=
  match challenge_opt i with
  | None => fail RealUnprovenTreeWithoutChallenge
  | Some dhu_challenge =>
      z ← match find_secret (dht_prop (upd_proposition dhu)) with
          | Some (PrivateDht priv_key) =>
              match find_own_commitment (position i) with
              | Some secret_randomness => mret (second_message (dht_w priv_key) secret_randomness dhu_challenge)
              | None =>
                  r ← liftE (ok_or (upd_randomness_opt dhu)
                        (Unexpected "step9_real_dh_tuple: empty randomness in UnprovenDhTuple"));
                  mret (second_message (dht_w priv_key) r dhu_challenge)
              end
          | Some (PrivateDlog _) =>
              fail (Unexpected "step9_real_dh_tuple: Expected DhTupleProverInput  in prover secrets, got DlogProverInput")
          | None =>
              match find_real_proof (position i) with
              | Some proof =>
                  match sp_unchecked_tree proof with
                  | UncheckedDhTupleLeaf u => mret (ud_second_message u)
                  | _ => fail (Unexpected "step9_real_dh_tuple: Expected unchecked DH tuple in proof.unchecked_tree")
                  end
              | None => random_scalar_in_group_range
              end
          end;
      mret (Some (PUnchecked (UncheckedDhTupleLeaf
        (mkUncheckedDhTuple (upd_proposition dhu) None dhu_challenge z))))
  end.

Definition proving_node (tree : ProofTree) : stateE Rng ProverError (option ProofTree) :=
  match tree with
  | PUnchecked (UncheckedConjecture _ _ _) =>
      fail (Unexpected "proving: unexpected UncheckedConjecture in proof_tree")
  | PUnchecked _ => mret None
  | PUnproven (UnprovenConjecture kind n i children) =>
      if negb (simulated i) then
        liftE (match kind with
               | CandUnproven => step9_real_and n i children
               | CorUnproven => step9_real_or n i children
               | CthresholdUnproven k _ => step9_real_threshold k n i children
               end)
      else mret None
  | PUnproven (UnprovenLeaf unp_leaf i) =>
      if negb (simulated i) then
        match unp_leaf with
        | SchnorrLeaf us => step9_real_schnorr us i
        | DhTupleLeaf dhu => step9_real_dh_tuple dhu i
        end
      else
        mret (Some
          match find_first (fun p => bool_decide (sp_image p = leaf_proposition unp_leaf))
                  (simulated_proofs hints_bag) with
          | Some proof => PUnchecked (sp_unchecked_tree proof)
          | None => PUnproven (UnprovenLeaf unp_leaf i)
          end)
  end.

(** A hint may put a proof in the place of a leaf, whose root's children are looked at: one
    more level of fuel than [proof_tree] has; a conjecture among them is an error. *)
Definition proving (proof_tree : ProofTree) : stateE Rng ProverError ProofTree :=
  rewrite_td proving_node (S (proof_tree_depth proof_tree)) proof_tree.
End step9_leaves.

(** * Trees of a proposition and of a proof *)

Definition new_info : node_info := mkInfo None false crypto_tree_prefix.

Fixpoint convert_to_unproven (sb : SigmaBoolean) : result ProverError UnprovenTree :=
  match sb with
  | ProofOfKnowledge (ProveDhTuple g h u v) =>
      Ok (UnprovenLeaf (DhTupleLeaf (mkUnprovenDhTuple (mkDht g h u v) None None)) new_info)
  | ProofOfKnowledge (ProveDlog h) =>
      Ok (UnprovenLeaf (SchnorrLeaf (mkUnprovenSchnorr h None None)) new_info)
  | SigmaConjecture c items =>
      children ← mapM_res (fun it => t ← convert_to_unproven it; Ok (PUnproven t)) items;
      Ok (UnprovenConjecture
            (match c with
             | Cand => CandUnproven
             | Cor => CorUnproven
             | Cthreshold k => CthresholdUnproven k None
             end) (length items) new_info children)
  | TrivialProp _ => Err (Unexpected "TrivialProp is not expected here")
  end.

Fixpoint convert_to_unchecked (tree : ProofTree) : result ProverError UncheckedTree :=
  match tree with
  | PUnchecked (UncheckedConjecture _ _ _) =>
      Err (Unexpected "convert_to_unchecked: unexpected UncheckedConjecture")
  | PUnchecked unch_tree => Ok unch_tree
  | PUnproven unp_tree => convert_unproven unp_tree
  end
with convert_unproven (tree : UnprovenTree) : result ProverError UncheckedTree :=
  match tree with
  | UnprovenLeaf _ _ => Err (Unexpected "convert_to_unchecked: unexpected UnprovenLeaf")
  | UnprovenConjecture kind _ i children =>
      match kind with
      | CandUnproven =>
          challenge ← ok_or (challenge_opt i) (Unexpected "no challenge in CandUnproven");
          children ← mapM_res convert_to_unchecked children;
          Ok (UncheckedConjecture CandUnchecked challenge children)
      | CorUnproven =>
          challenge ← ok_or (challenge_opt i) (Unexpected "no challenge in CorUnproven");
          children ← mapM_res convert_to_unchecked children;
          Ok (UncheckedConjecture CorUnchecked challenge children)
      | CthresholdUnproven k polinomial_opt =>
          challenge ← ok_or (challenge_opt i) (Unexpected "no challenge in CthresholdUnproven");
          children ← mapM_res convert_to_unchecked children;
          polynomial ← ok_or polinomial_opt (Unexpected "no polynomial in CthresholdUnproven");
          Ok (UncheckedConjecture (CthresholdUnchecked k polynomial) challenge children)
      end
  end.

(** * The prover *)

Definition prove_to_unchecked (secrets : list PrivateInput) (unproven_tree : UnprovenTree)
    (message : list Z) (hints_bag : HintsBag) : stateE Rng ProverError UncheckedTree :=
  step1 ← liftE (mark_real secrets hints_bag unproven_tree);
  if negb (is_real step1) then fail TreeRootIsNotReal
  else
    step3 ← polish_simulated step1;
    step6 ← simulate_and_commit hints_bag step3;
    s ← liftE (result_map_err ProverFiatShamirError (fs_tree (PUnproven step6)));
    let root_challenge := fiat_shamir_hash_fn (s ++ message) in
    let step8 := unproven_with_challenge step6 root_challenge in
    step9 ← proving secrets hints_bag (PUnproven step8);
    liftE (convert_to_unchecked step9).

End prover.
