(* ===== verification/SigSerializer.v ===== *)
(** Proof bytes (src/ergotree-interpreter/src/sigma_protocol/sig_serializer.rs and
    prover/prover_result.rs): writing a proof tree, reading one back along the proposition with
    the challenges computed on the way, and [Prover::generate_proof]. *)

From S2P Require Import Prelude Gf2_192 Gf2_192Poly SigmaBoolean ProofTree Prover.

Section sig_serializer.
Context `{C : SigmaCrypto}.

Inductive ProofBytes : Type :=
| ProofEmpty
| ProofSome (bytes : list Z).

Definition proof_to_bytes (p : ProofBytes) : list Z :=
  match p with ProofEmpty => [] | ProofSome bytes => bytes end.
Definition proof_from_bytes (bytes : list Z) : ProofBytes :=
  match bytes with [] => ProofEmpty | _ => ProofSome bytes end.

(** The bytes of [Gf2_192Poly::to_bytes], which panics where there are none. *)
Definition poly_bytes (q : Gf2_192Poly) : list Z :=
  match poly_to_bytes q with Ok bytes => bytes | Err _ => [] end.

(** An OR's last child is written without its challenge, the others with it. *)
Fixpoint sig_write_bytes (node : UncheckedTree) (write_challenges : bool) : list Z :=
  (if write_challenges then unchecked_challenge node else []) ++
  match node with
  | UncheckedSchnorrLeaf us => scalar_to_bytes (us_second_message us)
  | UncheckedDhTupleLeaf dh => scalar_to_bytes (ud_second_message dh)
  | UncheckedConjecture CandUnchecked _ children =>
      concat (map (fun child => sig_write_bytes child false) children)
  | UncheckedConjecture CorUnchecked _ children =>
      (fix write_or (children : list UncheckedTree) : list Z :=
         match children with
         | [] => []
         | [last] => sig_write_bytes last false
         | child :: children => sig_write_bytes child true ++ write_or children
         end) children
  | UncheckedConjecture (CthresholdUnchecked _ polynomial) _ children =>
      poly_bytes polynomial ++ concat (map (fun child => sig_write_bytes child false) children)
  end.

Definition serialize_sig (tree : UncheckedTree) : ProofBytes :=
  ProofSome (sig_write_bytes tree true).

(** * Reading *)

Inductive SigParsingError : Type :=
| EmptyProof (exp : SigmaBoolean)
| TrivialPropFound (b : bool)
| SigGf2_192Error (e : Gf2_192Error)
| ChallengeRead (exp : SigmaBoolean)
| CorWithoutChildren
| CthresholdKAboveChildren (exp : SigmaBoolean)
| TopLevelExpWrap (e : SigParsingError) (exp : SigmaBoolean).

(** The reader over the proof's bytes: those not read yet. *)
Abbreviation sig_reader := (stateE (list Z) SigParsingError).

(** [read_exact] of [n] bytes: an error when there are fewer. *)
Definition read_exact (n : nat) (e : SigParsingError) : sig_reader (list Z) :=
  fun r => if (length r <? n)%nat then Err e else Ok (take n r, drop n r).

(** [read], and [take] with [read_to_end]: at most [n] bytes, those that are left at the end. *)
Definition read_up_to (n : nat) : sig_reader (list Z) := fun r => Ok (take n r, drop n r).

(** The bytes read are moved to the end of the 32-byte buffer. *)
Definition read_scalar : sig_reader Scalar :=
  scalar_bytes ← read_up_to GROUP_SIZE;
  mret (reduce_bytes (replicate (GROUP_SIZE - length scalar_bytes) 0 ++ scalar_bytes)).

Section children.
Context (parse : SigmaBoolean -> option Challenge -> sig_reader UncheckedTree).

(** All but the last with the challenges of the proof, the last with the XOR. *)
Fixpoint parse_cor (challenge : Challenge) (items : list SigmaBoolean) :
    sig_reader (list UncheckedTree) :=
  match items with
  | [] => fail CorWithoutChildren
  | [last] => c ← parse last (Some challenge); mret [c]
  | it :: rest =>
      c ← parse it None;
      cs ← parse_cor (challenge_xor challenge (unchecked_challenge c)) rest;
      mret (c :: cs)
  end.

(** Each child with the polynomial's value at its 1-based index, cast to u8. *)
Fixpoint parse_threshold (polynomial : Gf2_192Poly) (idx : nat) (items : list SigmaBoolean) :
    sig_reader (list UncheckedTree) :=
  match items with
  | [] => mret []
  | child :: items =>
      let one_based_index := wrap_u 8 (Z.of_nat idx + 1) in
      c ← parse child (Some (challenge_of_gf (evaluate polynomial one_based_index)));
      cs ← parse_threshold polynomial (S idx) items;
      mret (c :: cs)
  end.
End children.

Fixpoint parse_sig_compute_challenges_reader (exp : SigmaBoolean) (challenge_opt : option Challenge) :
    sig_reader UncheckedTree :=
  challenge ← match challenge_opt with
              | Some c => mret c
              | None => read_exact SOUNDNESS_BYTES (ChallengeRead exp)
              end;
  match exp with
  | TrivialProp b => fail (TrivialPropFound b)
  | ProofOfKnowledge (ProveDlog dl) =>
      z ← read_scalar;
      mret (UncheckedSchnorrLeaf (mkUncheckedSchnorr dl None challenge z))
  | ProofOfKnowledge (ProveDhTuple g h u v) =>
      z ← read_scalar;
      mret (UncheckedDhTupleLeaf (mkUncheckedDhTuple (mkDht g h u v) None challenge z))
  | SigmaConjecture Cand items =>
      children ← mapM_st (fun it => parse_sig_compute_challenges_reader it (Some challenge)) items;
      mret (UncheckedConjecture CandUnchecked challenge children)
  | SigmaConjecture Cor items =>
      children ← parse_cor parse_sig_compute_challenges_reader challenge items;
      mret (UncheckedConjecture CorUnchecked challenge children)
  | SigmaConjecture (Cthreshold k) items =>
      let n_coeff := Z.of_nat (length items) - k in
      if n_coeff <? 0 then fail (CthresholdKAboveChildren exp)
      else
        coeff_bytes ← read_up_to (Z.to_nat n_coeff * SOUNDNESS_BYTES);
        polynomial ← liftE (result_map_err SigGf2_192Error
                              (gf2_192poly_from_byte_array challenge coeff_bytes));
        children ← parse_threshold parse_sig_compute_challenges_reader polynomial 0 items;
        mret (UncheckedConjecture (CthresholdUnchecked k polynomial) challenge children)
  end.

Definition parse_sig_compute_challenges (exp : SigmaBoolean) (proof_bytes : list Z) :
    result SigParsingError UncheckedTree :=
  match proof_bytes with
  | [] => Err (EmptyProof exp)
  | _ =>
      result_map_err (fun e => TopLevelExpWrap e exp)
        (fst <$> parse_sig_compute_challenges_reader exp None proof_bytes)
  end.

(** [Prover::generate_proof] (prover.rs) *)
Definition generate_proof (secrets : list PrivateInput) (sigmabool : SigmaBoolean)
    (message : list Z) (hints_bag : HintsBag) : stateE Rng ProverError ProofBytes :=
  match sigmabool with
  | TrivialProp true => mret ProofEmpty
  | TrivialProp false => fail ReducedToFalse
  | sb =>
      tree ← liftE (convert_to_unproven sb);
      unchecked_tree ← prove_to_unchecked secrets tree message hints_bag;
      mret (serialize_sig unchecked_tree)
  end.
End sig_serializer.
