(* ===== verification/Verifier.v ===== *)
(** The sigma-protocol verifier (src/ergotree-interpreter/src/sigma_protocol/verifier.rs). *)

From S2P Require Import Prelude Gf2_192 Gf2_192Poly SigmaBoolean ProofTree Prover SigSerializer.

Section verifier.
Context `{C : SigmaCrypto}.

(** The errors of checking a signature; those of evaluation join them in Spend.v. *)
Inductive VerifierError : Type :=
| VerifierSigParsingError (e : SigParsingError)
| VerifierFiatShamirError (e : FiatShamirTreeSerializationError).

Fixpoint compute_commitments (sp : UncheckedTree) : UncheckedTree :=
  match sp with
  | UncheckedSchnorrLeaf sn =>
      let a := dlog_compute_commitment (us_proposition sn) (us_challenge sn) (us_second_message sn) in
      UncheckedSchnorrLeaf
        (mkUncheckedSchnorr (us_proposition sn) (Some a) (us_challenge sn) (us_second_message sn))
  | UncheckedDhTupleLeaf dh =>
      let '(a, b) := dht_compute_commitment (ud_proposition dh) (ud_challenge dh) (ud_second_message dh) in
      UncheckedDhTupleLeaf
        (mkUncheckedDhTuple (ud_proposition dh) (Some (mkFirstDht a b)) (ud_challenge dh)
           (ud_second_message dh))
  | UncheckedConjecture kind challenge children =>
      UncheckedConjecture kind challenge (map compute_commitments children)
  end.

Definition check_commitments (sp : UncheckedTree) (message : list Z) : result VerifierError bool :=
  let new_root := compute_commitments sp in
  let root_challenge := unchecked_challenge new_root in
  s ← result_map_err VerifierFiatShamirError (fs_tree (PUnchecked new_root));
  let expected_challenge := fiat_shamir_hash_fn (s ++ message) in
  Ok (bool_decide (root_challenge = expected_challenge)).

Definition verify_signature (sigma_tree : SigmaBoolean) (message signature : list Z) :
    result VerifierError bool :=
  match sigma_tree with
  | TrivialProp b => Ok b
  | sb =>
      match signature with
      | [] => Ok false
      | _ =>
          unchecked_tree ← result_map_err VerifierSigParsingError
                             (parse_sig_compute_challenges sb signature);
          check_commitments unchecked_tree message
      end
  end.

Lemma compute_commitments_challenge u : unchecked_challenge (compute_commitments u) = unchecked_challenge u.
Proof. by destruct u. Qed.
End verifier.
