(* ===== verification/ProverTotal.v ===== *)
(** The fuel of the prover's tree rewritings is enough: whatever the secrets, the proposition, the
    hints and the random numbers, proof generation never runs out of it. *)

From S2P Require Import Prelude Gf2_192 Gf2_192Poly SigmaBoolean ProofTree Prover SigSerializer.

Create HintDb fueled discriminated.

(** * Runs that do not end for want of fuel *)

Section fueled.
Context `{C : SigmaCrypto}.

Definition res_fueled {A} (r : result ProverError A) : Prop := r <> Err OutOfFuel.
Definition st_fueled {A} (m : stateE Rng ProverError A) : Prop := forall s, m s <> Err OutOfFuel.

Lemma res_fueled_Ok {A} (a : A) : res_fueled (Ok a).
Proof. done. Qed.
Lemma res_fueled_bind {A B} (r : result ProverError A) (f : A -> result ProverError B) :
  res_fueled r -> (forall a, res_fueled (f a)) -> res_fueled (r ≫= f).
Proof. intros H Hf. destruct r as [a|e]; [apply Hf|]. intros [= ->]. by apply H. Qed.
Lemma res_fueled_mapM {A B} (f : A -> result ProverError B) l :
  (forall a, res_fueled (f a)) -> res_fueled (mapM_res f l).
Proof.
  intros Hf. induction l as [|x l IH]; cbn [mapM_res]; [apply res_fueled_Ok|].
  apply res_fueled_bind; [apply Hf|]. intros y. apply res_fueled_bind; [apply IH|]. intros. apply res_fueled_Ok.
Qed.
Lemma res_fueled_ok_or {A} (o : option A) e : e <> OutOfFuel -> res_fueled (ok_or o e).
Proof. destruct o; cbn; unfold res_fueled; congruence. Qed.
Lemma res_fueled_map_err {E A} (f : E -> ProverError) (r : result E A) :
  (forall e, f e <> OutOfFuel) -> res_fueled (result_map_err f r).
Proof. intros Hf. destruct r as [a|e]; cbn; [done|]. intros [= H]. by apply (Hf e). Qed.

Lemma st_fueled_ret {A} (a : A) : st_fueled (mret a).
Proof. done. Qed.
Lemma st_fueled_fail {A} e : e <> OutOfFuel -> st_fueled (A := A) (fail e).
Proof. unfold st_fueled, fail. congruence. Qed.
Lemma st_fueled_lift {A} (r : result ProverError A) : res_fueled r -> st_fueled (liftE r).
Proof. intros H s. unfold liftE. destruct r as [a|e]; [done|]. intros [= ->]. by apply H. Qed.
Lemma st_fueled_bind {A B} (m : stateE Rng ProverError A) (f : A -> stateE Rng ProverError B) :
  st_fueled m -> (forall a, st_fueled (f a)) -> st_fueled (m ≫= f).
Proof.
  intros H Hf s. unfold mbind, stateE_bind. specialize (H s). destruct (m s) as [[a s1]|e]; [apply Hf|].
  intros [= ->]. by apply H.
Qed.
Lemma st_fueled_mapM {A B} (f : A -> stateE Rng ProverError B) l :
  (forall a, st_fueled (f a)) -> st_fueled (mapM_st f l).
Proof.
  intros Hf. induction l as [|x l IH]; cbn [mapM_st]; [apply st_fueled_ret|].
  apply st_fueled_bind; [apply Hf|]. intros y. apply st_fueled_bind; [apply IH|]. intros. apply st_fueled_ret.
Qed.
Lemma st_fueled_bytes n : st_fueled (secure_random_bytes n).
Proof. done. Qed.
Lemma st_fueled_scalar : st_fueled random_scalar_in_group_range.
Proof. done. Qed.
End fueled.

#[export] Hint Resolve res_fueled_Ok res_fueled_bind res_fueled_mapM res_fueled_ok_or
  res_fueled_map_err st_fueled_ret st_fueled_fail st_fueled_lift st_fueled_bind st_fueled_mapM
  st_fueled_bytes st_fueled_scalar : fueled.

(** Case analysis on what a step branches on. *)
Ltac fueled :=
  repeat first
    [ progress intros
    | solve [eauto 2 with fueled]
    | congruence
    | match goal with
      | |- res_fueled (mbind _ _) => apply res_fueled_bind
      | |- st_fueled (mbind _ _) => apply st_fueled_bind
      | |- res_fueled (mapM_res _ _) => apply res_fueled_mapM
      | |- st_fueled (mapM_st _ _) => apply st_fueled_mapM
      | |- st_fueled (liftE _) => apply st_fueled_lift
      | |- res_fueled (Err _) => unfold res_fueled; congruence
      | |- context [match ?x with _ => _ end] => destruct x
      end ].

Section steps.
Context `{C : SigmaCrypto} (secrets : list PrivateInput) (hints_bag : HintsBag).

Lemma cast_to_unp_fueled cs : res_fueled (cast_to_unp cs).
Proof. unfold cast_to_unp. fueled. Qed.
#[local] Hint Resolve cast_to_unp_fueled : fueled.

Lemma polish_node_fueled t : st_fueled (polish_node t).
Proof.
  unfold polish_node, all_simulated, make_cor_children_simulated, threshold_children_simulated, set_positions.
  fueled.
Qed.

Lemma with_polynomial_fueled k n q : res_fueled (with_polynomial k n q).
Proof. unfold with_polynomial. fueled. Qed.
Lemma threshold_point_fueled j : res_fueled (threshold_point j).
Proof. unfold threshold_point. fueled. Qed.
#[local] Hint Resolve with_polynomial_fueled threshold_point_fueled : fueled.

Lemma simulate_and_commit_node_fueled t : st_fueled (simulate_and_commit_node hints_bag t).
Proof.
  unfold simulate_and_commit_node, step4_real_conj, step4_simulated_and_conj, step4_simulated_or_conj,
    step4_simulated_threshold_conj, step5_schnorr, step5_diffie_hellman_tuple, challenge_secure_random,
    dlog_simulate, dlog_first_message, dht_simulate, dht_first_message.
  fueled.
Qed.

Lemma proving_node_fueled t : st_fueled (proving_node secrets hints_bag t).
Proof.
  unfold proving_node, step9_real_and, step9_real_or, step9_real_threshold, step9_real_schnorr,
    step9_real_dh_tuple, threshold_child_challenge.
  fueled.
Qed.
End steps.

(** * The rewritings *)

Section rewriting.
Context `{C : SigmaCrypto}.

Definition tree_children (t : ProofTree) : list ProofTree :=
  match t with
  | PUnproven (UnprovenConjecture _ _ _ children) => children
  | PUnchecked (UncheckedConjecture _ _ children) => map PUnchecked children
  | _ => []
  end.

Lemma cast_to_ust_fueled cs : res_fueled (cast_to_ust cs).
Proof. unfold cast_to_ust. fueled. Qed.

(** [rewrite_td] with as much fuel as a measure that decreases from a node to the children of
    what the function makes of it. *)
Lemma rewrite_td_fueled f (m : ProofTree -> nat) fuel :
  (forall t, st_fueled (f t)) -> (forall t, (0 < m t)%nat) ->
  (forall t s o s', f t s = Ok (o, s') -> Forall (fun c => (m c < m t)%nat) (tree_children (default t o))) ->
  forall t s, (m t <= fuel)%nat -> rewrite_td f fuel t s <> Err OutOfFuel.
Proof.
  intros Hf Hpos Hm. induction fuel as [|fuel IH]; intros t s Ht; [specialize (Hpos t); lia|].
  cbn [rewrite_td]. unfold mbind, stateE_bind at 1. destruct (f t s) as [[o s1]|e] eqn:E.
  2:{ intros [= ->]. by apply (Hf t s). }
  specialize (Hm t s o s1 E).
  assert (forall l s, Forall (fun c => (m c < m t)%nat) l -> mapM_st (rewrite_td f fuel) l s <> Err OutOfFuel) as Hl.
  { clear - IH Ht. intros l. induction l as [|c l IHl]; intros s Hl; [done|]. apply Forall_cons in Hl as [Hc Hl].
    cbn [mapM_st]. unfold mbind, stateE_bind. specialize (IH c s ltac:(lia)).
    destruct (rewrite_td f fuel c s) as [[c' s1]|e]; [|congruence]. specialize (IHl s1 Hl).
    unfold mbind, stateE_bind in IHl. by destruct (mapM_st (rewrite_td f fuel) l s1) as [[l' s2]|e]. }
  destruct (default t o) as [[us|ud|kind c cs]|[l i|kind n i cs]] eqn:Et; cbn [tree_children] in Hm; try done.
  - assert (mapM_st (fun c => rewrite_td f fuel (PUnchecked c)) cs s1 <> Err OutOfFuel) as H.
    { specialize (Hl _ s1 Hm). by rewrite mapM_st_map in Hl. }
    unfold mbind, stateE_bind.
    destruct (mapM_st (fun c => rewrite_td f fuel (PUnchecked c)) cs s1) as [[ds s2]|e]; [|congruence].
    unfold liftE. pose proof (cast_to_ust_fueled ds) as Hc. unfold res_fueled in Hc.
    destruct (cast_to_ust ds); [done|congruence].
  - specialize (Hl _ s1 Hm). unfold mbind, stateE_bind.
    destruct (mapM_st (rewrite_td f fuel) cs s1) as [[ds s2]|e]; [unfold mret, stateE_ret; congruence|congruence].
Qed.

(** ** The depth of a node's children *)

Lemma depth_map_info g u : unproven_depth (map_info g u) = unproven_depth u.
Proof. by destruct u. Qed.

Lemma depth_children kind n i cs :
  Forall (fun c => (proof_tree_depth c < proof_tree_depth (PUnproven (UnprovenConjecture kind n i cs)))%nat) cs.
Proof.
  cbn [proof_tree_depth unproven_depth]. apply Forall_forall. intros c Hc.
  pose proof (elem_max_list_with proof_tree_depth cs c Hc). lia.
Qed.

End rewriting.

(** ** Steps change no depth *)

(** A measure of trees that the fields of a node do not count in. *)
Section measures.
Context `{C : SigmaCrypto} (m : ProofTree -> nat).
Context (m_info : forall g u, m (PUnproven (map_info g u)) = m (PUnproven u)).
Context (m_challenge : forall t c, m (with_challenge t c) = m t).

Definition same_measures (cs cs' : list ProofTree) : Prop := Forall2 (fun c c' => m c' = m c) cs cs'.

Lemma same_measures_below n cs cs' :
  same_measures cs cs' -> Forall (fun c => (m c < n)%nat) cs -> Forall (fun c => (m c < n)%nat) cs'.
Proof. induction 1 as [|c c' cs cs' E _ IH]; [done|]. intros [H1 H2]%Forall_cons. constructor; [lia|by apply IH]. Qed.

Lemma same_measures_trans l1 l2 l3 : same_measures l1 l2 -> same_measures l2 l3 -> same_measures l1 l3.
Proof.
  intros H. revert l3. induction H; intros l3 H'; inversion H'; subst; constructor; [congruence|].
  by apply IHForall2.
Qed.

Lemma same_measures_refl l : same_measures l l.
Proof. by induction l; constructor. Qed.

Lemma same_measures_map (f : ProofTree -> ProofTree) cs :
  (forall c, m (f c) = m c) -> same_measures cs (map f cs).
Proof. intros H. induction cs; constructor; [apply H|done]. Qed.

Lemma same_measures_unp (f : UnprovenTree -> UnprovenTree) us :
  (forall u, m (PUnproven (f u)) = m (PUnproven u)) ->
  same_measures (map PUnproven us) (map (fun u => PUnproven (f u)) us).
Proof. intros H. induction us; constructor; [apply H|done]. Qed.

(** A fallible function of the position and the child. *)
Lemma same_measures_mapM {E} (f : nat * ProofTree -> result E ProofTree) cs : forall n cs',
  (forall j c c', f (j, c) = Ok c' -> m c' = m c) -> mapM_res f (enumerate_from n cs) = Ok cs' ->
  same_measures cs cs'.
Proof.
  induction cs as [|c cs IH]; intros n cs' Hf H; cbn [enumerate_from mapM_res] in H.
  - injection H as <-. constructor.
  - res_inv H. injection H as <-. constructor; [by eapply Hf|by eapply IH].
Qed.

Lemma cast_to_unp_Ok cs us : cast_to_unp cs = Ok us -> cs = map PUnproven us.
Proof.
  unfold cast_to_unp. rewrite mapM_res_Forall2. induction 1 as [|c u cs us H _ IH]; [done|].
  destruct c; [done|]. injection H as ->. cbn [map]. by rewrite IH.
Qed.

Lemma set_positions_measures pos cs cs' : set_positions pos cs = Ok cs' -> same_measures cs cs'.
Proof.
  apply same_measures_mapM. intros j [|u] c' H; [done|]. injection H as <-. apply m_info.
Qed.

Lemma polish_node_measures kind n i cs s o s' :
  polish_node (PUnproven (UnprovenConjecture kind n i cs)) s = Ok (o, s') ->
  exists cs', o = Some (PUnproven (UnprovenConjecture kind n i cs')) /\ same_measures cs cs'.
Proof.
  intros H. cbn [polish_node] in H. st_inv H. apply liftE_Ok in Ha as [Ha ->], Ha0 as [Ha0 ->].
  eexists. split; [reflexivity|]. apply set_positions_measures in Ha0.
  eapply same_measures_trans; [|exact Ha0]. clear Ha0.
  destruct (simulated i); [|destruct kind as [| |k q]].
  - unfold all_simulated in Ha. res_inv Ha. injection Ha as <-. apply cast_to_unp_Ok in Ha0 as ->.
    apply same_measures_unp. intros u. apply m_info.
  - injection Ha as <-. apply same_measures_refl.
  - unfold make_cor_children_simulated in Ha. res_inv Ha. injection Ha as <-. apply cast_to_unp_Ok in Ha0 as ->.
    apply same_measures_unp. intros u. destruct (_ || _); [done|apply m_info].
  - unfold threshold_children_simulated in Ha. res_inv Ha. injection Ha as <-. apply cast_to_unp_Ok in Ha0 as ->.
    generalize (excess_real k 0 0 a1) as ex. intros ex. generalize 0%nat as j.
    induction a1 as [|u us IH]; intros j; constructor; [|apply IH].
    case_bool_decide; [apply m_info|done].
Qed.

(** A stateful traversal of unproven children that changes challenges only. *)
Lemma same_measures_mapM_st (f : UnprovenTree -> stateE Rng ProverError ProofTree) us : forall s cs s',
  (forall u s c s', f u s = Ok (c, s') -> m c = m (PUnproven u)) ->
  mapM_st f us s = Ok (cs, s') -> same_measures (map PUnproven us) cs.
Proof.
  induction us as [|u us IH]; intros s cs s' Hf H; cbn [mapM_st] in H.
  - injection H as <- <-. constructor.
  - st_inv H. constructor; [by eapply Hf|by eapply IH].
Qed.

Lemma step4_real_measures hints kind n i cs s o s' :
  step4_real_conj hints kind n i cs s = Ok (o, s') ->
  exists cs', tree_children (default (PUnproven (UnprovenConjecture kind n i cs)) o) = cs' /\ same_measures cs cs'.
Proof.
  intros H. destruct kind as [| |k q]; cbn [step4_real_conj] in H.
  - injection H as <- <-. eexists. split; [done|]. apply same_measures_refl.
  - st_inv H. apply liftE_Ok in Ha as [Ha ->]. apply cast_to_unp_Ok in Ha as ->. eexists. split; [done|].
    eapply same_measures_mapM_st; [|exact Ha0]. intros u s2 c s3 Hu. cbn beta in Hu. destruct (is_real u); st_inv Hu.
    + done.
    + apply m_info.
  - st_inv H. apply liftE_Ok in Ha as [Ha ->]. apply cast_to_unp_Ok in Ha as ->. eexists. split; [done|].
    eapply same_measures_mapM_st; [|exact Ha0]. intros u s2 c s3 Hu. cbn beta in Hu. destruct (is_real u); st_inv Hu.
    + done.
    + apply m_info.
Qed.

Lemma random_tail_measures us : forall s vs s',
  mapM_st (fun it => c ← challenge_secure_random; mret (unproven_with_challenge it c)) us s = Ok (vs, s') ->
  same_measures (map PUnproven us) (map PUnproven vs).
Proof.
  induction us as [|u us IH]; intros s vs s' H; cbn [mapM_st] in H.
  - injection H as <- <-. constructor.
  - st_inv H. cbn beta in Ha. st_inv Ha. cbn [map]. constructor; [apply m_info|by eapply IH].
Qed.

Lemma step4_or_measures n i cs s o s' :
  step4_simulated_or_conj n i cs s = Ok (o, s') ->
  exists cs' , o = Some (PUnproven (UnprovenConjecture CorUnproven n i cs')) /\ same_measures cs cs'.
Proof.
  intros H. unfold step4_simulated_or_conj in H. destruct (challenge_opt i) as [e|]; [|done].
  st_inv H. apply liftE_Ok in Ha as [Ha ->], Ha1 as [Ha1 ->], Ha2 as [Ha2 ->].
  eexists. split; [reflexivity|]. apply cast_to_unp_Ok in Ha as ->.
  destruct a as [|u us]; [done|]. injection Ha2 as <-. cbn [map]. constructor; [apply m_info|].
  by eapply random_tail_measures.
Qed.

Lemma step4_threshold_measures k n i cs s o s' :
  step4_simulated_threshold_conj k n i cs s = Ok (o, s') ->
  exists kind cs', o = Some (PUnproven (UnprovenConjecture kind n i cs')) /\ same_measures cs cs'.
Proof.
  intros H. unfold step4_simulated_threshold_conj in H. destruct (challenge_opt i) as [e|]; [|done].
  apply st_bind_Ok in H as (us & s1 & Ha & H). destruct (_ <? 0); [done|]. st_inv H.
  apply liftE_Ok in Ha as [Ha ->], Ha1 as [Ha1 ->], Ha2 as [Ha2 ->], Ha3 as [Ha3 ->].
  eexists _, _. split; [reflexivity|]. apply cast_to_unp_Ok in Ha as ->. clear - Ha2 m_info.
  revert Ha2. generalize 0%nat as j. intros j. revert j a1. induction us as [|u us IH]; intros j cs H;
    cbn [enumerate_from mapM_res] in H; [injection H as <-; constructor|].
  res_inv H. injection H as <-. res_inv Ha. injection Ha as <-. cbn [map]. constructor; [apply m_info|by eapply IH].
Qed.
End measures.

(** * The three rewritings *)

Section total.
Context `{C : SigmaCrypto} (secrets : list PrivateInput) (hints_bag : HintsBag).

Lemma depth_info g u : proof_tree_depth (PUnproven (map_info g u)) = proof_tree_depth (PUnproven u).
Proof. apply depth_map_info. Qed.

Lemma depth_challenge t c : proof_tree_depth (with_challenge t c) = proof_tree_depth t.
Proof. destruct t as [[| |]|u]; [done..|apply depth_map_info]. Qed.

Lemma depth_pos t : (0 < proof_tree_depth t)%nat.
Proof. destruct t as [[]|[]]; cbn; lia. Qed.

(** The children of a proof that is left as it is. *)
Lemma unchecked_children_depth t :
  Forall (fun c => (proof_tree_depth c < proof_tree_depth (PUnchecked t))%nat) (tree_children (PUnchecked t)).
Proof.
  destruct t as [| |kind c cs]; [constructor..|]. cbn [tree_children].
  apply Forall_map, Forall_forall. intros u Hu. cbn [proof_tree_depth unchecked_depth].
  pose proof (elem_max_list_with unchecked_depth cs u Hu). lia.
Qed.

Lemma polish_depths t s o s' :
  polish_node t s = Ok (o, s') ->
  Forall (fun c => (proof_tree_depth c < proof_tree_depth t)%nat) (tree_children (default t o)).
Proof.
  intros H. destruct t as [t|[l i|kind n i cs]].
  - injection H as <- <-. apply unchecked_children_depth.
  - injection H as <- <-. constructor.
  - destruct (polish_node_measures _ depth_info _ _ _ _ _ _ _ H) as (cs' & -> & Hs).
    eapply same_measures_below; [exact Hs|apply depth_children].
Qed.

Lemma simulate_depths t s o s' :
  simulate_and_commit_node hints_bag t s = Ok (o, s') ->
  Forall (fun c => (proof_tree_depth c < proof_tree_depth t)%nat) (tree_children (default t o)).
Proof.
  intros H. destruct t as [t|[l i|kind n i cs]]; cbn [simulate_and_commit_node] in H.
  - injection H as <- <-. apply unchecked_children_depth.
  - enough (tree_children (default (PUnproven (UnprovenLeaf l i)) o) = []) as -> by constructor.
    destruct l as [us|dhu]; unfold step5_schnorr, step5_diffie_hellman_tuple in H;
      repeat (case_match; simplify_eq/=; try done);
      first [st_inv H; done | apply st_bind_Ok in H as ([fm sm] & s1 & _ & H); by st_inv H].
  - destruct (simulated i); cbn [negb] in H; [destruct kind as [| |k q]|].
    + unfold step4_simulated_and_conj in H. destruct (challenge_opt i); [|done]. st_inv H.
      eapply same_measures_below; [|apply depth_children]. apply same_measures_map.
      intros c'. apply depth_challenge.
    + destruct (step4_or_measures _ depth_info _ _ _ _ _ _ H) as (cs' & -> & Hs).
      eapply same_measures_below; [exact Hs|apply depth_children].
    + destruct (step4_threshold_measures _ depth_info _ _ _ _ _ _ _ H) as (kind & cs' & -> & Hs).
      eapply same_measures_below; [exact Hs|apply depth_children].
    + destruct (step4_real_measures _ depth_info _ _ _ _ _ _ _ _ H) as (cs' & -> & Hs).
      eapply same_measures_below; [exact Hs|apply depth_children].
Qed.

(** Step 9 may put a hint's proof, whose children are looked at once, in the place of a leaf. *)
Fixpoint proving_measure (t : ProofTree) : nat :=
  match t with
  | PUnchecked _ => 1
  | PUnproven u => unproven_measure u
  end
with unproven_measure (u : UnprovenTree) : nat :=
  match u with
  | UnprovenLeaf _ _ => 2
  | UnprovenConjecture _ _ _ children => 1 + max_list_with proving_measure children
  end.

Lemma proving_measure_info g u : proving_measure (PUnproven (map_info g u)) = proving_measure (PUnproven u).
Proof. by destruct u. Qed.

Lemma proving_measure_challenge t c : proving_measure (with_challenge t c) = proving_measure t.
Proof. destruct t; [done|apply proving_measure_info]. Qed.

Lemma proving_measure_real t c : proving_measure (challenge_real c t) = proving_measure t.
Proof. destruct t as [|u]; [done|]. cbn [challenge_real]. destruct (is_real u); [apply proving_measure_info|done]. Qed.

Lemma proving_measure_pos t : (0 < proving_measure t)%nat.
Proof. destruct t as [|[]]; cbn; lia. Qed.

Lemma measure_children kind n i cs :
  Forall (fun c => (proving_measure c < proving_measure (PUnproven (UnprovenConjecture kind n i cs)))%nat) cs.
Proof.
  apply Forall_forall. intros c Hc. cbn [proving_measure unproven_measure].
  pose proof (elem_max_list_with proving_measure cs c Hc). lia.
Qed.

Fixpoint measure_depth (t : ProofTree) : (proving_measure t <= S (proof_tree_depth t))%nat.
Proof.
  destruct t as [u|[l i|kind n i cs]]; [cbn; lia..|].
  cbn [proving_measure unproven_measure proof_tree_depth unproven_depth]. apply le_n_S.
  induction cs as [|c cs IH]; cbn [max_list_with]; [lia|]. pose proof (measure_depth c). lia.
Qed.

Lemma step9_measures kind n i cs o :
  match kind with
  | CandUnproven => step9_real_and n i cs
  | CorUnproven => step9_real_or n i cs
  | CthresholdUnproven k _ => step9_real_threshold k n i cs
  end = Ok o ->
  exists kind' cs', o = Some (PUnproven (UnprovenConjecture kind' n i cs')) /\
    same_measures proving_measure cs cs'.
Proof.
  intros H. destruct kind as [| |k q]; unfold step9_real_and, step9_real_or, step9_real_threshold in H;
    (destruct (challenge_opt i) as [e|]; [|done]).
  - injection H as <-. eexists _, _. split; [reflexivity|]. apply same_measures_map.
    intros c. apply proving_measure_challenge.
  - injection H as <-. eexists _, _. split; [reflexivity|]. apply same_measures_map.
    intros c. apply proving_measure_real.
  - res_inv H. injection H as <-. eexists _, _. split; [reflexivity|].
    eapply same_measures_mapM; [|exact Ha1]. intros j c c' Hc. cbn beta iota in Hc. res_inv Hc.
    injection Hc as <-. apply proving_measure_real.
Qed.

Lemma proving_measures t s o s' :
  proving_node secrets hints_bag t s = Ok (o, s') ->
  Forall (fun c => (proving_measure c < proving_measure t)%nat) (tree_children (default t o)).
Proof.
  intros H. destruct t as [[us|ud|kind c cs]|[l i|kind n i cs]]; cbn [proving_node] in H.
  - injection H as <- <-. constructor.
  - injection H as <- <-. constructor.
  - done.
  - destruct (negb (simulated i)).
    + enough (tree_children (default (PUnproven (UnprovenLeaf l i)) o) = []) as -> by constructor.
      destruct l as [us|dhu]; unfold step9_real_schnorr, step9_real_dh_tuple in H;
        (destruct (challenge_opt i) as [e|]; [|done]); by st_inv H.
    + injection H as <- <-. cbn [default id]. destruct (find_first _ _) as [p|]; [|constructor].
      destruct (sp_unchecked_tree p); [constructor..|]. cbn [tree_children].
      apply Forall_map, Forall_true. intros c. cbn. lia.
  - destruct (negb (simulated i)).
    + apply liftE_Ok in H as [H ->]. apply step9_measures in H as (kind' & cs' & -> & Hs).
      eapply same_measures_below; [exact Hs|apply measure_children].
    + injection H as <- <-. apply measure_children.
Qed.

(** ** The parts of the prover that need no fuel *)

Lemma mark_real_node_fueled t : res_fueled (mark_real_node secrets hints_bag t).
Proof. unfold mark_real_node, cast_to_unp. fueled. Qed.

Lemma mark_real_fueled sb t :
  convert_to_unproven sb = Ok t -> res_fueled (rewrite_bu (mark_real_node secrets hints_bag) (PUnproven t)).
Proof.
  assert (forall t, res_fueled (apply_bu (mark_real_node secrets hints_bag) t)) as Hap.
  { intros t'. unfold apply_bu. apply res_fueled_bind; [apply mark_real_node_fueled|]. fueled. }
  revert t. induction sb as [b|p|c items IH] using SigmaBoolean_ind'; intros t H; [done| |].
  - destruct p; injection H as <-; apply Hap.
  - cbn [convert_to_unproven] in H. res_inv H. injection H as <-.
    change (rewrite_bu ?f (PUnproven (UnprovenConjecture ?k ?n ?i ?cs))) with
      (children ← mapM_res (rewrite_bu f) cs; apply_bu f (PUnproven (UnprovenConjecture k n i children))).
    apply res_fueled_bind; [|intros; apply Hap]. clear - IH Ha. revert a Ha.
    induction IH as [|it items Hit _ IHl]; intros cs H; cbn [mapM_res] in H; [by injection H as <-|].
    res_inv H. injection H as <-. res_inv Ha. injection Ha as <-. cbn [mapM_res].
    apply res_fueled_bind; [by apply Hit|]. intros b. apply res_fueled_bind; [by apply IHl|]. fueled.
Qed.

Fixpoint convert_fueled (t : ProofTree) : res_fueled (convert_to_unchecked t).
Proof.
  destruct t as [[us|ud|kind c cs]|[l i|kind n i cs]]; [clear convert_fueled; done..|].
  assert (res_fueled (mapM_res convert_to_unchecked cs)) as H.
  { induction cs as [|c cs IH]; [done|]. pose proof (convert_fueled c) as Hc. clear convert_fueled.
    cbn [mapM_res]. apply res_fueled_bind; [exact Hc|]. intros u. apply res_fueled_bind; [apply IH|]. fueled. }
  clear convert_fueled.
  cbn [convert_to_unchecked convert_unproven].
  destruct kind; (apply res_fueled_bind; [fueled|]); intros e; (apply res_fueled_bind; [exact H|]); fueled.
Qed.

Lemma fs_error_fueled {A} (r : result FiatShamirTreeSerializationError A) :
  res_fueled (result_map_err ProverFiatShamirError r).
Proof. fueled. Qed.

Lemma convert_to_unproven_fueled sb : res_fueled (convert_to_unproven sb).
Proof.
  induction sb as [b|p|c items IH] using SigmaBoolean_ind'; [done|by destruct p|].
  cbn [convert_to_unproven]. apply res_fueled_bind; [|fueled].
  induction IH as [|it items Hit _ IHl]; [done|]. cbn [mapM_res].
  apply res_fueled_bind; [by apply res_fueled_bind; [|fueled]|]. intros u. apply res_fueled_bind; [apply IHl|]. fueled.
Qed.

(** C18: proof generation ends. Every rewriting of the proof tree gets enough
    fuel, whatever the proposition, the secrets, the hints and the random numbers: a proof is
    returned or one of the errors of the source is. *)
Theorem generate_proof_total sb message r :
  generate_proof secrets sb message hints_bag r <> Err OutOfFuel.
Proof.
  assert (forall t, res_fueled (rewrite_bu (mark_real_node secrets hints_bag) (PUnproven t)) ->
    st_fueled (prove_to_unchecked secrets t message hints_bag)) as Hprove.
  { intros t Hm. unfold prove_to_unchecked. apply st_fueled_bind.
    { apply st_fueled_lift. unfold mark_real. apply res_fueled_bind; [exact Hm|]. unfold to_unproven. fueled. }
    intros step1. destruct (negb (is_real step1)); [fueled|]. apply st_fueled_bind.
    { apply st_fueled_bind; [|unfold to_unproven; fueled]. intros s.
      apply (rewrite_td_fueled _ proof_tree_depth); [apply polish_node_fueled|apply depth_pos|apply polish_depths|done]. }
    intros step3. apply st_fueled_bind.
    { apply st_fueled_bind; [|unfold to_unproven; fueled]. intros s.
      apply (rewrite_td_fueled _ proof_tree_depth);
        [apply simulate_and_commit_node_fueled|apply depth_pos|apply simulate_depths|done]. }
    intros step6. apply st_fueled_bind; [apply st_fueled_lift, fs_error_fueled|]. intros fs. cbv zeta.
    apply st_fueled_bind; [|intros; apply st_fueled_lift, convert_fueled]. intros s.
    apply (rewrite_td_fueled _ proving_measure);
      [apply proving_node_fueled|apply proving_measure_pos|apply proving_measures|apply measure_depth]. }
  assert (st_fueled (tree ← liftE (convert_to_unproven sb);
    unchecked_tree ← prove_to_unchecked secrets tree message hints_bag;
    mret (serialize_sig unchecked_tree))) as H.
  { intros s. unfold mbind, stateE_bind at 1, liftE.
    pose proof (convert_to_unproven_fueled sb) as Hc. pose proof (mark_real_fueled sb) as Hm.
    destruct (convert_to_unproven sb) as [t|e]; [|unfold res_fueled in Hc; congruence].
    apply st_fueled_bind; [apply Hprove, Hm; done|fueled]. }
  destruct sb as [[]| |]; [done..|apply H|apply H].
Qed.
End total.
