(* ===== verification/SigmaSteps.v ===== *)
(** Completeness of the sigma protocol: what the prover of file Prover makes for a proposition it
    has the secrets for, the verifier of file Verifier accepts. The proof follows the prover's
    steps; each step has a relation between the proposition and the tree after it. *)

From S2P Require Import Prelude Gf2Field Gf2_192 Gf2_192Poly SigmaBoolean ProofTree Prover.
From S2P Require Import SigSerializer Verifier ConcreteCrypto.

(** * The two leaf protocols *)

Section leaves.
Context `{C : SigmaCrypto} `{L : !SigmaCryptoLaws C}.

Lemma pp_mul_response p w r e :
  pp_mul p (sc_add r (sc_mul e w)) = pp_add (pp_mul p r) (pp_mul (pp_mul p w) e).
Proof. by rewrite pp_mul_add, pp_mul_mul. Qed.

(** The response to a challenge opens the commitment. *)
Lemma dlog_real_commitment w r challenge :
  dlog_compute_commitment (exponentiate_gen w) challenge (second_message w r challenge) =
  exponentiate_gen r.
Proof.
  unfold dlog_compute_commitment, second_message, ec_mul, inverse, ec_neg.
  rewrite exponentiate_eq, !exponentiate_gen_eq, pp_mul_response. apply pp_add_cancel_neg.
Qed.

Lemma dht_real_commitment g h w r challenge :
  dht_compute_commitment (mkDht g h (exponentiate g w) (exponentiate h w)) challenge
    (second_message w r challenge) = (exponentiate g r, exponentiate h r).
Proof.
  unfold dht_compute_commitment, second_message, ec_mul, inverse, ec_neg.
  cbn [dh_g dh_h dh_u dh_v].
  rewrite !exponentiate_eq, !pp_mul_response. by rewrite !pp_add_cancel_neg.
Qed.

(** The simulator's commitment is the one the verifier computes. *)
Lemma dlog_simulated_commitment h challenge z :
  ec_mul (exponentiate_gen z) (exponentiate h (sc_negate (scalar_of_challenge challenge))) =
  dlog_compute_commitment h challenge z.
Proof.
  unfold dlog_compute_commitment, ec_mul, inverse, ec_neg.
  by rewrite !exponentiate_eq, pp_mul_negate.
Qed.

Lemma dht_simulated_commitment d challenge z :
  let e := scalar_of_challenge challenge in
  (ec_mul (exponentiate (dh_g d) z) (exponentiate (dh_u d) (sc_negate e)),
   ec_mul (exponentiate (dh_h d) z) (exponentiate (dh_v d) (sc_negate e))) =
  dht_compute_commitment d challenge z.
Proof.
  cbv zeta. unfold dht_compute_commitment, ec_mul, inverse, ec_neg.
  by rewrite !exponentiate_eq, !pp_mul_negate.
Qed.
End leaves.

(** * Challenges *)

#[local] Arguments challenge_xor : simpl never.

Definition challenge_wf (c : Challenge) : Prop := byte_list c /\ length c = SOUNDNESS_BYTES.

Definition challenge_zero : Challenge := replicate SOUNDNESS_BYTES 0.
Definition challenge_sum (l : list Challenge) : Challenge := foldr challenge_xor challenge_zero l.

Lemma challenge_xor_wf a b : challenge_wf a -> challenge_wf b -> challenge_wf (challenge_xor a b).
Proof.
  intros [Ha La] [Hb Lb]. split; [|unfold challenge_xor; rewrite length_zip_with; lia].
  unfold challenge_xor. clear La Lb. revert b Hb. induction Ha as [|x a Hx _ IH]; intros b Hb.
  - constructor.
  - destruct Hb as [|y b Hy Hb]; constructor; [|by apply IH].
    apply in_u_of_bits; [lia|apply Z.lxor_nonneg; unfold in_u in *; lia|].
    intros i Hi. rewrite Z.lxor_spec, !(in_u_testbit_high 8) by (done || lia). done.
Qed.

Lemma challenge_xor_comm a b : challenge_xor a b = challenge_xor b a.
Proof.
  unfold challenge_xor. revert b.
  induction a as [|x a IH]; intros [|y b]; cbn; [done..|]. by rewrite Z.lxor_comm, IH.
Qed.

Lemma challenge_xor_assoc a b c :
  challenge_xor a (challenge_xor b c) = challenge_xor (challenge_xor a b) c.
Proof.
  unfold challenge_xor. revert b c.
  induction a as [|x a IH]; intros [|y b] [|z c]; cbn; [done..|].
  by rewrite Z.lxor_assoc, IH.
Qed.

Lemma challenge_xor_zero a : challenge_wf a -> challenge_xor a challenge_zero = a.
Proof.
  intros [_ Hl]. unfold challenge_zero, challenge_xor. rewrite <- Hl. clear Hl.
  induction a as [|x a IH]; cbn; [done|]. by rewrite Z.lxor_0_r, IH.
Qed.

Lemma challenge_xor_self a : challenge_wf a -> challenge_xor a a = challenge_zero.
Proof.
  intros [_ Hl]. unfold challenge_zero, challenge_xor. rewrite <- Hl. clear Hl.
  induction a as [|x a IH]; cbn; [done|]. by rewrite Z.lxor_nilpotent, IH.
Qed.

Lemma challenge_zero_wf : challenge_wf challenge_zero.
Proof. split; [|done]. apply Forall_replicate. unfold in_u. lia. Qed.

Lemma challenge_sum_wf l : Forall challenge_wf l -> challenge_wf (challenge_sum l).
Proof. induction 1; cbn; [apply challenge_zero_wf|by apply challenge_xor_wf]. Qed.

Lemma challenge_sum_app l l' :
  Forall challenge_wf l' -> challenge_sum (l ++ l') = challenge_xor (challenge_sum l) (challenge_sum l').
Proof.
  intros Hl'. induction l as [|x l IH]; cbn.
  - rewrite challenge_xor_comm, challenge_xor_zero; [done|by apply challenge_sum_wf].
  - etransitivity; [exact (f_equal (challenge_xor x) IH)|apply challenge_xor_assoc].
Qed.

Lemma fold_xor l c :
  challenge_wf c -> Forall challenge_wf l ->
  fold_left challenge_xor l c = challenge_xor c (challenge_sum l).
Proof.
  intros Hc Hl. revert c Hc. induction Hl as [|x l Hx _ IH]; intros c Hc; cbn [fold_left].
  - symmetry. by apply challenge_xor_zero.
  - rewrite IH by by apply challenge_xor_wf. symmetry. apply challenge_xor_assoc.
Qed.

(** The challenge that completes a list to the sum [c]. *)
Lemma challenge_sum_complete c l l' :
  challenge_wf c -> Forall challenge_wf l -> Forall challenge_wf l' ->
  challenge_sum (l ++ challenge_xor c (challenge_sum (l ++ l')) :: l') = c.
Proof.
  intros Hc Hl Hl'. pose proof (challenge_sum_wf l Hl) as Wl. pose proof (challenge_sum_wf l' Hl') as Wl'.
  rewrite (challenge_sum_app l l') by done.
  set (s := challenge_sum l) in *. set (s' := challenge_sum l') in *.
  rewrite challenge_sum_app
    by (constructor; [auto using challenge_xor_wf|done]).
  change (challenge_xor s (challenge_xor (challenge_xor c (challenge_xor s s')) s') = c).
  rewrite (challenge_xor_assoc c s s'), <- (challenge_xor_assoc (challenge_xor c s) s' s').
  rewrite (challenge_xor_self s') by done.
  rewrite challenge_xor_zero by by apply challenge_xor_wf.
  rewrite (challenge_xor_comm c s), challenge_xor_assoc, challenge_xor_self by done.
  rewrite challenge_xor_comm. by apply challenge_xor_zero.
Qed.

Lemma challenge_of_gf_wf e : challenge_wf (challenge_of_gf e).
Proof. split; [apply byte_list_gf_to_bytes|apply length_gf_to_bytes]. Qed.

Lemma challenge_gf_roundtrip c : challenge_wf c -> challenge_of_gf (gf_of_challenge c) = c.
Proof. intros [Hb Hl]. by apply gf_to_from_bytes. Qed.

Section hash.
Context `{C : SigmaCrypto} `{L : !SigmaCryptoLaws C}.
Lemma fiat_shamir_hash_wf bs : challenge_wf (fiat_shamir_hash_fn bs).
Proof.
  split; [apply Forall_take, blake2b256_range|].
  unfold fiat_shamir_hash_fn. rewrite length_take, blake2b256_len. done.
Qed.
End hash.

(** * Propositions the prover can be asked for *)

Section propositions.
Context `{C : SigmaCrypto}.

(** No trivial proposition inside, children where an OR or a threshold needs them, at most 255
    of them under a threshold, and no two equal children of an OR. *)
Inductive well_formed : SigmaBoolean -> Prop :=
| wf_leaf t : well_formed (ProofOfKnowledge t)
| wf_and items : Forall well_formed items -> well_formed (SigmaConjecture Cand items)
| wf_or items :
    Forall well_formed items -> items <> [] -> NoDup items ->
    well_formed (SigmaConjecture Cor items)
| wf_threshold k items :
    Forall well_formed items -> 0 <= k <= Z.of_nat (length items) -> (length items <= 255)%nat ->
    well_formed (SigmaConjecture (Cthreshold k) items).

Lemma well_formed_items c items : well_formed (SigmaConjecture c items) -> Forall well_formed items.
Proof. by inversion 1. Qed.

Definition unproven_kind_of (c : conjecture) : unproven_kind :=
  match c with
  | Cand => CandUnproven
  | Cor => CorUnproven
  | Cthreshold k => CthresholdUnproven k None
  end.

(** The leaf of a statement. *)
Definition leaf_of (t : SigmaProofOfKnowledgeTree) : unproven_leaf :=
  match t with
  | ProveDlog h => SchnorrLeaf (mkUnprovenSchnorr h None None)
  | ProveDhTuple g h u v => DhTupleLeaf (mkUnprovenDhTuple (mkDht g h u v) None None)
  end.

Lemma leaf_of_proposition t : leaf_proposition (leaf_of t) = ProofOfKnowledge t.
Proof. by destruct t. Qed.
End propositions.

(** * Steps 1 to 3: which nodes are real *)

Section marking.
Context `{C : SigmaCrypto} (secrets : list PrivateInput).

Definition known (t : SigmaProofOfKnowledgeTree) : bool :=
  secret_known secrets hints_empty (ProofOfKnowledge t).

(** The tree after step 1: each node is simulated where the prover's secrets do not prove it. *)
Fixpoint marked (sb : SigmaBoolean) : UnprovenTree :=
  match sb with
  | TrivialProp b => UnprovenConjecture CandUnproven 0 (mkInfo None b []) []
  | ProofOfKnowledge t => UnprovenLeaf (leaf_of t) (mkInfo None (negb (known t)) crypto_tree_prefix)
  | SigmaConjecture c items =>
      UnprovenConjecture (unproven_kind_of c) (length items)
        (mkInfo None (negb (holds known sb)) crypto_tree_prefix)
        (map (fun it => PUnproven (marked it)) items)
  end.

Lemma marked_simulated sb : well_formed sb -> is_simulated (marked sb) = negb (holds known sb).
Proof. by destruct 1. Qed.

Lemma cast_to_unp_map l : cast_to_unp (map PUnproven l) = Ok l.
Proof.
  unfold cast_to_unp. induction l as [|t l IH]; cbn [map mapM_res]; [done|].
  unfold mbind, result_bind. by rewrite IH.
Qed.

Lemma cast_to_unp_map_fun {A} (f : A -> UnprovenTree) l :
  cast_to_unp (map (fun x => PUnproven (f x)) l) = Ok (map f l).
Proof. rewrite <- cast_to_unp_map. by rewrite map_map. Qed.

(** The flag that step 1 computes from the children's flags. *)
Lemma marked_flag c items :
  Forall well_formed items ->
  match unproven_kind_of c with
  | CandUnproven => existsb is_simulated (map marked items)
  | CorUnproven => forallb is_simulated (map marked items)
  | CthresholdUnproven k _ => Z.of_nat (count_real (map marked items)) <? k
  end = negb (holds known (SigmaConjecture c items)).
Proof.
  intros Hwf. cbn [holds].
  assert (map is_simulated (map marked items) = negb <$> (holds known <$> items)) as E.
  { clear c. induction Hwf as [|it items Hit _ IH]; [done|]. cbn. f_equal; [|exact IH].
    by apply marked_simulated. }
  destruct c as [| |k]; cbn [unproven_kind_of holds_conj].
  - clear Hwf. revert E. generalize (map marked items), (holds known <$> items). intros l.
    induction l as [|t l IH]; intros [|b bs]; cbn; try done. intros [= -> E].
    rewrite (IH bs) by done. by destruct b.
  - clear Hwf. revert E. generalize (map marked items), (holds known <$> items). intros l.
    induction l as [|t l IH]; intros [|b bs]; cbn; try done. intros [= -> E].
    rewrite (IH bs) by done. by destruct b.
  - rewrite <- Z.ltb_antisym. f_equal. unfold count_real, count_true. f_equal.
    clear Hwf. revert E. generalize (map marked items), (holds known <$> items). intros l.
    induction l as [|t l IH]; intros [|b bs]; cbn; try done. intros [= E1 E].
    unfold is_real at 1. rewrite E1. destruct b; cbn; by rewrite (IH bs).
Qed.

(** Step 1 of the converted proposition. *)
Lemma mark_real_convert sb :
  well_formed sb ->
  exists t, convert_to_unproven sb = Ok t /\
    rewrite_bu (mark_real_node secrets hints_empty) (PUnproven t) = Ok (PUnproven (marked sb)).
Proof.
  induction sb as [b|t|c items IH] using SigmaBoolean_ind'; intros Hwf; [inversion Hwf| |].
  - destruct t as [g h u v|h]; eexists; (split; [reflexivity|]); reflexivity.
  - apply well_formed_items in Hwf.
    assert (exists ts, mapM_res (fun it => t ← convert_to_unproven it; Ok (PUnproven t)) items =
      Ok (map PUnproven ts) /\
      mapM_res (rewrite_bu (mark_real_node secrets hints_empty)) (map PUnproven ts) =
      Ok (map (fun it => PUnproven (marked it)) items)) as (ts & Hts & Hrw).
    { clear c. induction items as [|it items IHi]; [by exists []|].
      apply Forall_cons in IH as [IH1 IH2], Hwf as [W1 W2].
      destruct (IH1 W1) as (t & Ht & Hm). destruct (IHi IH2 W2) as (ts & Hts & Hms).
      exists (t :: ts). cbn [mapM_res map]. unfold mbind, result_bind in *.
      by rewrite Ht, Hm, Hts, Hms. }
    exists (UnprovenConjecture (unproven_kind_of c) (length items) new_info (map PUnproven ts)).
    split.
    + cbn [convert_to_unproven]. unfold mbind, result_bind in *. rewrite Hts.
      by destruct c.
    + change (rewrite_bu ?f (PUnproven (UnprovenConjecture ?k ?n ?i ?cs))) with
        (children ← mapM_res (rewrite_bu f) cs; apply_bu f (PUnproven (UnprovenConjecture k n i children))).
      rewrite Hrw. cbn [mbind result_bind]. unfold apply_bu, mark_real_node.
      rewrite cast_to_unp_map_fun. cbn [mbind result_bind default].
      rewrite marked_flag by done. done.
Qed.
End marking.

(** * Step 3: which nodes stay real *)

(** The simulated flags of a real conjecture's children: none set under an AND, all but one
    under an OR, all but [k] under a threshold; under a simulated conjecture all are set. *)
Definition count_unset (sims : list bool) : Z := Z.of_nat (length (List.filter negb sims)).

Definition sims_ok (c : conjecture) (simulated : bool) (sims : list bool) : Prop :=
  if simulated then Forall (fun s => s = true) sims
  else
    match c with
    | Cand => Forall (fun s => s = false) sims
    | Cor => exists l1 l2, sims = l1 ++ false :: l2 /\
        Forall (fun s => s = true) l1 /\ Forall (fun s => s = true) l2
    | Cthreshold k => count_unset sims = k
    end.

Section rewriting.
Context `{C : SigmaCrypto}.

(** One step of [rewrite_td] at a conjecture. *)
Lemma rewrite_td_conj f fuel t s o s1 kind n i cs ts s2 :
  f t s = Ok (o, s1) -> default t o = PUnproven (UnprovenConjecture kind n i cs) ->
  mapM_st (rewrite_td f fuel) cs s1 = Ok (ts, s2) ->
  rewrite_td f (S fuel) t s = Ok (PUnproven (UnprovenConjecture kind n i ts), s2).
Proof.
  intros Hf Ho Hts. cbn [rewrite_td]. unfold mbind, stateE_bind in *. rewrite Hf, Ho.
  unfold mbind, stateE_bind in *. by rewrite Hts.
Qed.

(** And at a leaf. *)
Lemma rewrite_td_leaf f fuel t s o s1 :
  f t s = Ok (o, s1) ->
  match default t o with
  | PUnproven (UnprovenLeaf _ _) | PUnchecked (UncheckedSchnorrLeaf _)
  | PUnchecked (UncheckedDhTupleLeaf _) => True
  | _ => False
  end ->
  rewrite_td f (S fuel) t s = Ok (default t o, s1).
Proof.
  intros Hf Ho. cbn [rewrite_td]. unfold mbind, stateE_bind in *. rewrite Hf.
  by destruct (default t o) as [[]|[]].
Qed.

Lemma find_split {A} (P : A -> bool) l :
  existsb P l = true ->
  exists l1 x l2, l = l1 ++ x :: l2 /\ find_first P l = Some x /\ P x = true /\
    Forall (fun y => P y = false) l1.
Proof.
  induction l as [|x l IH]; cbn [existsb]; [done|]. unfold find_first. cbn [List.find].
  destruct (P x) eqn:E; cbn [orb].
  - intros _. by exists [], x, l.
  - intros (l1 & y & l2 & -> & Hf & Hy & Hl1)%IH. exists (x :: l1), y, l2.
    split_and!; [done..|by constructor].
Qed.

End rewriting.

Section polishing.
Context `{C : SigmaCrypto} (secrets : list PrivateInput).
#[local] Notation known := (known secrets).
#[local] Notation marked := (marked secrets).

(** A child of a conjecture after step 1 or 3: the marked tree of its proposition with a flag
    that is set where the proposition does not hold, and any position. *)
Definition flagged (it : SigmaBoolean) (u : UnprovenTree) : Prop :=
  exists sim pos, u = map_info (fun _ => mkInfo None sim pos) (marked it) /\
    (sim = false -> holds known it = true).

Lemma flagged_marked it : well_formed it -> flagged it (marked it).
Proof.
  intros Hwf. exists (is_simulated (marked it)), (position (tree_info (marked it))). split.
  - by destruct Hwf.
  - rewrite (marked_simulated secrets it Hwf). by intros ->%negb_false_iff.
Qed.

Lemma flagged_with_simulated it u : flagged it u -> flagged it (with_simulated u true).
Proof. intros (sim & pos & -> & _). exists true, pos. by destruct (marked it). Qed.

Lemma flagged_with_position it u p : flagged it u -> flagged it (with_position u p).
Proof. intros (sim & pos & -> & H). exists sim, p. by destruct (marked it). Qed.

Lemma set_positions_ok items us pos :
  Forall2 flagged items us ->
  exists us', set_positions pos (map PUnproven us) = Ok (map PUnproven us') /\
    Forall2 flagged items us' /\ map is_simulated us' = map is_simulated us.
Proof.
  unfold set_positions. generalize 0%nat. intros n H. revert n.
  induction H as [|it u items us Hu _ IH]; intros n; [by exists []|].
  destruct (IH (S n)) as (us' & E & Hus & Hs). exists (with_position u (child pos n) :: us').
  cbn [map enumerate_from mapM_res]. rewrite E. split; [done|]. split.
  - constructor; [by apply flagged_with_position|done].
  - f_equal; [by destruct u|done].
Qed.

(** ** The three ways of giving up the superfluous real children *)

Lemma all_simulated_ok items us :
  Forall2 flagged items us ->
  exists us', all_simulated (map PUnproven us) = Ok (map PUnproven us') /\
    Forall2 flagged items us' /\ Forall (fun s => s = true) (map is_simulated us').
Proof.
  intros H. exists (map (fun c => with_simulated c true) us). unfold all_simulated.
  rewrite cast_to_unp_map. split; [cbn; by rewrite map_map|]. split.
  - induction H; constructor; [by apply flagged_with_simulated|done].
  - clear H. induction us as [|[] us IH]; by constructor.
Qed.

Lemma make_cor_ok items us :
  Forall2 flagged items us -> NoDup us -> existsb is_real us = true ->
  exists us', make_cor_children_simulated (map PUnproven us) = Ok (map PUnproven us') /\
    Forall2 flagged items us' /\ sims_ok Cor false (map is_simulated us').
Proof.
  intros H Hnd Hex. destruct (find_split _ _ Hex) as (l1 & x & l2 & El & Hf & Hx & Hl1).
  set (g c := if bool_decide (c = x) || is_simulated c then c else with_simulated c true).
  exists (map g us). unfold make_cor_children_simulated.
  rewrite cast_to_unp_map. cbn [mbind result_bind]. rewrite Hf. cbn [ok_or mbind result_bind].
  split; [by rewrite map_map|]. split.
  - clear - H. induction H; constructor; [|done]. unfold g.
    destruct (_ || _); [done|by apply flagged_with_simulated].
  - subst us. rewrite !map_app. cbn [map]. exists (map is_simulated (map g l1)), (map is_simulated (map g l2)).
    assert (g x = x) as -> by (unfold g; by rewrite bool_decide_true).
    apply negb_true_iff in Hx. rewrite Hx. split; [done|].
    assert (forall l, x ∉ l -> Forall (fun s => s = true) (map is_simulated (map g l))) as Hg.
    { intros l. induction l as [|y l IH]; intros Hin; [constructor|].
      apply not_elem_of_cons in Hin as [Hxy Hin]. constructor; [|by apply IH].
      unfold g. rewrite bool_decide_false by done. cbn [orb].
      destruct (is_simulated y) eqn:E; [done|]. by destruct y. }
    apply NoDup_app in Hnd as (_ & Hd & [Hx2 _]%NoDup_cons).
    split; apply Hg; [|done]. intros Hin. apply (Hd _ Hin). by left.
Qed.

Lemma excess_real_ge k cnt idx us j : j ∈ excess_real k cnt idx us -> (idx <= j)%nat.
Proof.
  revert cnt idx. induction us as [|u us IH]; intros cnt idx; cbn [excess_real].
  - by intros ?%not_elem_of_nil.
  - destruct (is_real u); [destruct (_ >? _)|]; rewrite ?elem_of_cons.
    + intros [->|H%IH]; lia.
    + intros H%IH; lia.
    + intros H%IH; lia.
Qed.

(** [ex] holds, from [idx] on, the indices that [excess_real] finds. *)
Lemma excess_real_count k cnt idx us (ex : list nat) :
  0 <= k -> 0 <= cnt -> cnt + Z.of_nat (length us) <= 255 ->
  (forall j, (idx <= j)%nat -> j ∈ ex <-> j ∈ excess_real k cnt idx us) ->
  count_unset (map is_simulated
    (map (fun '(j, c) => if bool_decide (j ∈ ex) then with_simulated c true else c)
       (enumerate_from idx us))) = Z.min (Z.of_nat (count_real us)) (Z.max 0 (k - cnt)).
Proof.
  intros Hk. revert cnt idx. induction us as [|u us IH]; intros cnt idx Hc Hl Hex.
  { cbn. unfold count_unset. cbn. lia. }
  cbn [enumerate_from map length] in *. rewrite Nat2Z.inj_succ in Hl.
  cbn [excess_real] in Hex. unfold count_unset, count_real in *. cbn [List.filter].
  assert (wrap_u 8 (cnt + 1) = cnt + 1) as Hw by (apply wrap_u_id; unfold in_u; lia).
  rewrite Hw in Hex.
  assert (forall cnt (l : list nat), (forall j, (idx <= j)%nat -> j ∈ ex <-> j ∈ l) ->
    (forall j, (S idx <= j)%nat -> j ∈ l <-> j ∈ excess_real k cnt (S idx) us) ->
    forall j, (S idx <= j)%nat -> j ∈ ex <-> j ∈ excess_real k cnt (S idx) us) as Hrest.
  { intros cnt' l H1 H2 j Hj. rewrite H1 by lia. by apply H2. }
  pose proof (excess_real_ge k) as Hge.
  assert (forall c : Z, ~ idx ∈ excess_real k c (S idx) us) as Hni by (intros c H%Hge; lia).
  unfold is_real in *. destruct (is_simulated u) eqn:Eu; cbn [negb] in *.
  - rewrite (bool_decide_false (idx ∈ ex)) by (rewrite Hex by lia; apply Hni). rewrite Eu. cbn [negb].
    rewrite (IH cnt (S idx)) by first [lia|eapply Hrest; [exact Hex|done]]. lia.
  - destruct (Z.gtb_spec (cnt + 1) k) as [Hgt|Hle].
    + rewrite (bool_decide_true (idx ∈ ex)) by (rewrite Hex by lia; by left).
      replace (is_simulated (with_simulated u true)) with true by by destruct u. cbn [negb].
      rewrite (IH (cnt + 1) (S idx)); [cbn [length]; lia|lia|lia|].
      eapply Hrest; [exact Hex|]. intros j Hj. rewrite elem_of_cons. intuition lia.
    + rewrite (bool_decide_false (idx ∈ ex)) by (rewrite Hex by lia; apply Hni). rewrite Eu.
      cbn [negb length]. rewrite !Nat2Z.inj_succ.
      rewrite (IH (cnt + 1) (S idx)); [lia|lia|lia|]. by eapply Hrest.
Qed.

Lemma threshold_ok k items us :
  Forall2 flagged items us -> 0 <= k -> (length us <= 255)%nat ->
  k <= Z.of_nat (count_real us) ->
  exists us', threshold_children_simulated k (map PUnproven us) = Ok (map PUnproven us') /\
    Forall2 flagged items us' /\ sims_ok (Cthreshold k) false (map is_simulated us').
Proof.
  intros H Hk Hl Hr. unfold threshold_children_simulated. rewrite cast_to_unp_map.
  cbn [mbind result_bind]. set (ex := excess_real k 0 0 us).
  exists (map (fun '(j, c) => if bool_decide (j ∈ ex) then with_simulated c true else c) (enumerate us)).
  split; [rewrite map_map; f_equal; apply map_ext; by intros [j c]|]. split.
  - clearbody ex. clear - H. generalize 0%nat. induction H as [|it u items us Hu _ IH]; intros n; constructor; [|done].
    case_bool_decide; [by apply flagged_with_simulated|done].
  - cbn [sims_ok]. rewrite (excess_real_count k 0); [lia|lia|lia|lia|done].
Qed.

(** ** What the children of a conjecture look like before step 3 *)

Lemma marked_inj x y : marked x = marked y -> x = y.
Proof.
  revert y. induction x as [b|t|c items IH] using SigmaBoolean_ind'; intros [b'|t'|c' items'];
    cbn [marked]; try done.
  - by intros [= ->].
  - destruct t, t'; cbn [leaf_of]; naive_solver.
  - intros [= Ek _ _ Em]. f_equal; [by destruct c, c'; naive_solver|].
    clear Ek. revert items' Em. induction IH as [|x items Hx _ IH]; intros [|y items']; cbn [map]; try done.
    intros [= Hxy E]. f_equal; [by apply Hx|by apply IH].
Qed.

Lemma marked_items_flagged items : Forall well_formed items -> Forall2 flagged items (map marked items).
Proof. induction 1; constructor; [by apply flagged_marked|done]. Qed.

Lemma marked_flags items :
  Forall well_formed items -> map is_simulated (map marked items) = map negb (map (holds known) items).
Proof.
  induction 1 as [|it items Hit _ IH]; cbn [map]; [done|]. rewrite IH.
  by rewrite (marked_simulated secrets it Hit).
Qed.

Lemma marked_reals items :
  Forall well_formed items -> map is_real (map marked items) = map (holds known) items.
Proof.
  induction 1 as [|it items Hit _ IH]; cbn [map]; [done|]. rewrite IH. unfold is_real.
  by rewrite (marked_simulated secrets it Hit), negb_involutive.
Qed.

(** Step 3 at one conjecture: the children it leaves. *)
Lemma polish_children c items sim pos :
  well_formed (SigmaConjecture c items) ->
  (sim = false -> holds known (SigmaConjecture c items) = true) ->
  exists us,
    (cs ← (if sim then all_simulated (map PUnproven (map marked items))
           else match unproven_kind_of c with
                | CandUnproven => Ok (map PUnproven (map marked items))
                | CorUnproven => make_cor_children_simulated (map PUnproven (map marked items))
                | CthresholdUnproven k _ =>
                    threshold_children_simulated k (map PUnproven (map marked items))
                end);
     set_positions pos cs) = Ok (map PUnproven us) /\
    Forall2 flagged items us /\ sims_ok c sim (map is_simulated us).
Proof.
  intros Hwf Hreal. pose proof (well_formed_items _ _ Hwf) as Hitems.
  pose proof (marked_items_flagged items Hitems) as Hfl.
  pose proof (marked_reals items Hitems) as Hrs.
  assert (exists us1, (if sim then all_simulated (map PUnproven (map marked items))
           else match unproven_kind_of c with
                | CandUnproven => Ok (map PUnproven (map marked items))
                | CorUnproven => make_cor_children_simulated (map PUnproven (map marked items))
                | CthresholdUnproven k _ =>
                    threshold_children_simulated k (map PUnproven (map marked items))
                end) = Ok (map PUnproven us1) /\
    Forall2 flagged items us1 /\ sims_ok c sim (map is_simulated us1)) as (us1 & E1 & F1 & S1).
  { destruct sim; [by apply all_simulated_ok|]. specialize (Hreal eq_refl). cbn [holds] in Hreal.
    change (holds known <$> items) with (map (holds known) items) in Hreal.
    destruct c as [| |k]; cbn [unproven_kind_of holds_conj] in *.
    - eexists. split; [done|]. split; [done|]. rewrite marked_flags by done. cbn [sims_ok].
      clear - Hreal. induction items as [|it items IH]; cbn in *; [constructor|].
      apply andb_true_iff in Hreal as [H1 H2]. unfold id in H1. rewrite H1. constructor; [done|by apply IH].
    - apply make_cor_ok; [done|..].
      + inversion Hwf; subst. apply NoDup_fmap_2; [|done]. intros x y. apply marked_inj.
      + rewrite <- Hreal, <- Hrs. clear. induction (map marked items) as [|u us IH]; [done|].
        cbn. by rewrite IH.
    - inversion Hwf; subst. apply threshold_ok; [done|lia|by rewrite length_map|].
      apply Z.leb_le in Hreal. rewrite <- Hrs in Hreal. unfold count_true in Hreal.
      etransitivity; [exact Hreal|]. apply inj_le. clear.
      unfold count_real. induction (map marked items) as [|u us IH]; [done|].
      cbn. change (id (is_real u)) with (is_real u). destruct (is_real u); cbn; lia. }
  rewrite E1. cbn [mbind result_bind].
  destruct (set_positions_ok items us1 pos F1) as (us & E & F & S).
  exists us. rewrite S. done.
Qed.

(** A tree after step 3, whatever its root's challenge: its leaves, and the flags of the
    children of each conjecture; no child has a challenge yet. *)
Inductive polished : SigmaBoolean -> UnprovenTree -> Prop :=
| polished_leaf p i :
    (simulated i = false -> known p = true) ->
    polished (ProofOfKnowledge p) (UnprovenLeaf (leaf_of p) i)
| polished_conj c items i us :
    Forall2 polished items us -> sims_ok c (simulated i) (map is_simulated us) ->
    Forall (fun u => unproven_challenge u = None) us ->
    polished (SigmaConjecture c items)
      (UnprovenConjecture (unproven_kind_of c) (length items) i (map PUnproven us)).

Lemma sb_depth_items c items fuel :
  (sb_depth (SigmaConjecture c items) <= S fuel)%nat ->
  Forall (fun it => (sb_depth it <= fuel)%nat) items.
Proof. cbn [sb_depth]. intros H. apply max_list_with_le. lia. Qed.

(** [rewrite_td] of step 3 on the marked tree, its root's flag and position any. *)
Lemma polish_td sb : forall fuel sim pos r,
  well_formed sb -> (sb_depth sb <= fuel)%nat -> (sim = false -> holds known sb = true) ->
  exists u r', rewrite_td polish_node fuel
    (PUnproven (map_info (fun _ => mkInfo None sim pos) (marked sb))) r = Ok (PUnproven u, r') /\
    polished sb u /\ tree_info u = mkInfo None sim pos.
Proof.
  induction sb as [b|p|c items IH] using SigmaBoolean_ind'; intros [|fuel] sim pos r Hwf Hd Hreal;
    try (cbn in Hd; lia); [inversion Hwf| |].
  - exists (UnprovenLeaf (leaf_of p) (mkInfo None sim pos)), r. split.
    + by apply (rewrite_td_leaf polish_node fuel _ r None).
    + split; [by constructor|done].
  - destruct (polish_children c items sim pos Hwf Hreal) as (us & Eus & Fus & Sus).
    pose proof (sb_depth_items _ _ _ Hd) as Hds. pose proof (well_formed_items _ _ Hwf) as Hws.
    destruct (mapM_st_related (rewrite_td polish_node fuel)
      (fun it a => exists u, a = PUnproven u /\ flagged it u)
      (fun it a b => exists u v, a = PUnproven u /\ b = PUnproven v /\ polished it v /\
         is_simulated v = is_simulated u /\ unproven_challenge v = None)
      items (map PUnproven us) r) as (bs & r' & Ebs & Fbs).
    { clear - Fus. induction Fus; constructor; [by eexists|done]. }
    { clear - IH Hds Hws. induction IH as [|it items Hit _ IHl]; constructor.
      - apply Forall_cons in Hds as [Hd _], Hws as [Hw _].
        intros a s (u & -> & sim' & pos' & -> & Hsim).
        destruct (Hit fuel sim' pos' s Hw Hd Hsim) as (v & s' & E & Hp & Hi).
        exists (PUnproven v), s'. split; [done|].
        eexists _, v. split; [reflexivity|]. split; [reflexivity|]. split; [done|].
        unfold is_simulated, unproven_challenge. rewrite Hi. by destruct (marked it).
      - apply Forall_cons in Hds as [_ Hds], Hws as [_ Hws]. by apply IHl. }
    assert (exists vs, bs = map PUnproven vs /\ Forall2 polished items vs /\
      map is_simulated vs = map is_simulated us /\ Forall (fun u => unproven_challenge u = None) vs)
      as (vs & -> & Hvs & Hsim & Hnone).
    { clear - Fbs. remember (map PUnproven us) as l eqn:El. revert us El.
      induction Fbs as [|it a b items l bs (u & v & -> & -> & Hp & Hs & Hn) _ IH]; intros [|u' us] El;
        try discriminate El; [by exists []|]. injection El as -> El.
      destruct (IH us El) as (vs & -> & H1 & H2 & H3). exists (v :: vs). cbn [map].
      by rewrite H2, Hs; split; [|split; [constructor|split; [|constructor]]]. }
    exists (UnprovenConjecture (unproven_kind_of c) (length items) (mkInfo None sim pos) (map PUnproven vs)), r'.
    split.
    + eapply (rewrite_td_conj _ _ _ r (Some (PUnproven (UnprovenConjecture (unproven_kind_of c)
        (length items) (mkInfo None sim pos) (map PUnproven us))))); [|reflexivity|exact Ebs].
      cbn [map_info marked polish_node]. unfold mbind, stateE_bind, liftE.
      change (simulated (mkInfo None sim pos)) with sim. rewrite <- (map_map marked PUnproven).
      unfold mbind, result_bind in Eus. cbn [position].
      destruct (if sim then _ else _) as [cs|e]; [|discriminate Eus]. by rewrite Eus.
    + split; [|done]. constructor; [done| |done]. by rewrite Hsim.
Qed.

Lemma unproven_depth_marked sb : well_formed sb -> unproven_depth (marked sb) = sb_depth sb.
Proof.
  induction sb as [b|p|c items IH] using SigmaBoolean_ind'; intros Hwf; [inversion Hwf|done|].
  apply well_formed_items in Hwf. cbn [marked unproven_depth sb_depth]. f_equal.
  induction IH as [|it items Hit _ IHl]; [done|]. apply Forall_cons in Hwf as [W1 W2].
  cbn [map max_list_with proof_tree_depth]. by rewrite Hit, IHl.
Qed.

(** Step 3 of the tree that step 1 marked. *)
Lemma polish_marked sb r :
  well_formed sb -> holds known sb = true ->
  exists u r', polish_simulated (marked sb) r = Ok (u, r') /\ polished sb u /\
    tree_info u = mkInfo None false crypto_tree_prefix.
Proof.
  intros Hwf Hh. destruct (polish_td sb (sb_depth sb) false crypto_tree_prefix r) as (u & r' & E & Hp & Hi);
    [done|done|done|].
  exists u, r'. split; [|done]. unfold polish_simulated. rewrite unproven_depth_marked by done.
  replace (map_info _ (marked sb)) with (marked sb) in E.
  - unfold mbind, stateE_bind. by rewrite E.
  - pose proof (marked_simulated secrets sb Hwf) as Hs. rewrite Hh in Hs.
    unfold is_simulated in Hs. destruct Hwf; cbn in *; by rewrite Hs.
Qed.

(** Steps 1 to 3 where the secrets do not prove the proposition: step 1 marks the root. *)
Lemma mark_real_ok sb :
  well_formed sb ->
  exists t, convert_to_unproven sb = Ok t /\ mark_real secrets hints_empty t = Ok (marked sb).
Proof.
  intros Hwf. destruct (mark_real_convert secrets sb Hwf) as (t & Ht & Hm). exists t.
  split; [done|]. unfold mark_real. by rewrite Hm.
Qed.
End polishing.
