(* ===== verification/SigmaCommit.v ===== *)
(** Steps 4 to 6 of the prover, for the completeness theorem of file SigmaComplete: the challenges
    of the simulated nodes, the simulated transcripts and the commitments of the real leaves. *)

From S2P Require Import Prelude Gf2Field Gf2_192 Gf2_192Poly SigmaBoolean ProofTree Prover.
From S2P Require Import SigmaSteps.

#[local] Arguments challenge_xor : simpl never.
#[local] Arguments challenge_of_gf : simpl never.
#[local] Arguments evaluate : simpl never.

Section commit.
Context `{C : SigmaCrypto} `{L : !SigmaCryptoLaws C} (secrets : list PrivateInput).
#[local] Notation known := (known secrets).
#[local] Notation polished := (polished secrets).

(** * Challenges of the children of a simulated conjecture *)

(** The polynomial of a threshold [k] of [n] children at challenge [e]. *)
Definition poly_for (n : nat) (k : Z) (e : Challenge) (q : Gf2_192Poly) : Prop :=
  Z.of_nat (degree q) = Z.of_nat n - k /\ poly_room (degree q) q /\
  coefficients q !!! 0%nat = gf_of_challenge e.

(** What the challenges [es] of the children have to be where the conjecture's is [e]. *)
Definition chal_ok (c : conjecture) (e : Challenge) (es : list Challenge) (q : option Gf2_192Poly) : Prop :=
  match c with
  | Cand => Forall (fun e' => e' = e) es
  | Cor => challenge_sum es = e
  | Cthreshold k => exists p, q = Some p /\ poly_for (length es) k e p /\
      es = map (fun j => challenge_of_gf (evaluate p (Z.of_nat j + 1))) (seq 0 (length es))
  end.

Definition kind_with (c : conjecture) (q : option Gf2_192Poly) : unproven_kind :=
  match c with
  | Cand => CandUnproven
  | Cor => CorUnproven
  | Cthreshold k => CthresholdUnproven k q
  end.

Lemma kind_with_None c : kind_with c None = unproven_kind_of c.
Proof. by destruct c. Qed.

Lemma gf_of_challenge_wf e : gf_wf (gf_of_challenge e).
Proof. apply gf_from_bytes_wf. Qed.

(** [CthresholdUnproven::with_polynomial] accepts such a polynomial. *)
Lemma with_polynomial_ok n k e q :
  poly_for n k e q -> with_polynomial k n q = Ok (CthresholdUnproven k (Some q)).
Proof.
  intros (Hd & Hr & _). unfold with_polynomial. rewrite poly_to_bytes_eq, length_segments.
  rewrite <- Hd, Nat2Z.inj_mul. unfold SOUNDNESS_BYTES.
  destruct (Z.leb_spec 0 (Z.of_nat (degree q))); [|lia].
  destruct (Z.eqb_spec (Z.of_nat (degree q) * Z.of_nat 24) (Z.of_nat 24 * Z.of_nat (degree q))); [done|lia].
Qed.

Lemma threshold_point_ok j : (j < 255)%nat -> threshold_point j = Ok (Z.of_nat j + 1).
Proof. intros H. unfold threshold_point. by destruct (Z.leb_spec (Z.of_nat j + 1) 255); [|lia]. Qed.

(** * The tree after step 6 *)

Definition sim_of (t : ProofTree) : bool :=
  match t with PUnchecked _ => true | PUnproven u => is_simulated u end.

(** A simulated leaf has a transcript whose commitment is the verifier's, a real one a commitment
    and its randomness; the challenges below a simulated conjecture agree with its own, and below
    a real one the simulated children have challenges and the real ones none yet. *)
Inductive committed : SigmaBoolean -> ProofTree -> Prop :=
| committed_sim_dlog h e z :
    challenge_wf e ->
    committed (ProofOfKnowledge (ProveDlog h))
      (PUnchecked (UncheckedSchnorrLeaf
         (mkUncheckedSchnorr h (Some (dlog_compute_commitment h e z)) e z)))
| committed_sim_dht d e z a b :
    challenge_wf e -> dht_compute_commitment d e z = (a, b) ->
    committed (ProofOfKnowledge (dht_pok d))
      (PUnchecked (UncheckedDhTupleLeaf (mkUncheckedDhTuple d (Some (mkFirstDht a b)) e z)))
| committed_real_dlog h r i :
    simulated i = false -> known (ProveDlog h) = true ->
    committed (ProofOfKnowledge (ProveDlog h))
      (PUnproven (UnprovenLeaf (SchnorrLeaf (mkUnprovenSchnorr h (Some (exponentiate_gen r)) (Some r))) i))
| committed_real_dht d r i :
    simulated i = false -> known (dht_pok d) = true ->
    committed (ProofOfKnowledge (dht_pok d))
      (PUnproven (UnprovenLeaf (DhTupleLeaf (mkUnprovenDhTuple d
         (Some (mkFirstDht (exponentiate (dh_g d) r) (exponentiate (dh_h d) r))) (Some r))) i))
| committed_sim_conj c items i e es q ts :
    simulated i = true -> challenge_opt i = Some e -> challenge_wf e ->
    Forall2 committed items ts -> Forall (fun t => sim_of t = true) ts ->
    map challenge ts = map Some es -> chal_ok c e es q ->
    committed (SigmaConjecture c items)
      (PUnproven (UnprovenConjecture (kind_with c q) (length items) i ts))
| committed_real_conj c items i ts :
    simulated i = false -> Forall2 committed items ts -> sims_ok c false (map sim_of ts) ->
    Forall (fun t => sim_of t = false -> challenge t = None) ts ->
    committed (SigmaConjecture c items)
      (PUnproven (UnprovenConjecture (unproven_kind_of c) (length items) i ts)).

Lemma committed_challenge sb t :
  committed sb t -> sim_of t = true -> exists e, challenge t = Some e /\ challenge_wf e.
Proof.
  destruct 1; cbn; intros Hs; try (unfold is_simulated in Hs; cbn in Hs; congruence);
    eauto.
Qed.

(** * Step 4: the challenges a conjecture gives its children *)

Definition kids_ok (c : conjecture) (i : node_info) (q : option Gf2_192Poly) (us : list UnprovenTree) : Prop :=
  if simulated i then
    exists e es, challenge_opt i = Some e /\ challenge_wf e /\ Forall challenge_wf es /\
      map unproven_challenge us = map Some es /\ chal_ok c e es q
  else
    q = None /\
    Forall (fun u => if is_simulated u then exists e, unproven_challenge u = Some e /\ challenge_wf e
                     else unproven_challenge u = None) us.

(** The children get challenges at most: their flags and what is below them stay. *)
Definition same_kids (us us' : list UnprovenTree) : Prop :=
  Forall2 (fun u u' => u' = u \/ exists e, u' = unproven_with_challenge u e) us us'.

Lemma polished_with_challenge sb u e : polished sb u -> polished sb (unproven_with_challenge u e).
Proof. destruct 1; by constructor. Qed.

Lemma is_simulated_with_challenge u e : is_simulated (unproven_with_challenge u e) = is_simulated u.
Proof. by destruct u. Qed.

Lemma challenge_with_challenge u e : unproven_challenge (unproven_with_challenge u e) = Some e.
Proof. by destruct u. Qed.

Lemma same_kids_polished items us us' :
  Forall2 polished items us -> same_kids us us' ->
  Forall2 polished items us' /\ map is_simulated us' = map is_simulated us.
Proof.
  intros H. revert us'. induction H as [|it u items us Hu _ IH]; intros us' Hs; inversion Hs as [|? u' ? us2 Hu' Hs']; subst.
  - done.
  - destruct (IH _ Hs') as [H1 H2]. cbn [map]. rewrite H2.
    destruct Hu' as [->|[e ->]].
    + split; [by constructor|done].
    + rewrite is_simulated_with_challenge. split; [|done].
      constructor; [by apply polished_with_challenge|done].
Qed.

Lemma same_kids_map us (f : UnprovenTree -> Challenge) :
  same_kids us (map (fun u => unproven_with_challenge u (f u)) us).
Proof. induction us; constructor; [by right; eexists|done]. Qed.

(** Random challenges for the elements of a list. *)
Lemma random_challenge_wf r :
  exists e r', challenge_secure_random r = Ok (e, r') /\ challenge_wf e.
Proof.
  unfold challenge_secure_random, secure_random_bytes.
  destruct (fill_bytes SOUNDNESS_BYTES r) as [e r'] eqn:E. exists e, r'. split; [done|].
  pose proof (fill_bytes_len SOUNDNESS_BYTES r) as Hl. pose proof (fill_bytes_range SOUNDNESS_BYTES r) as Hr.
  rewrite E in Hl, Hr. done.
Qed.

Lemma step4_real_ok kind n i us r :
  kind <> CandUnproven -> Forall (fun u => unproven_challenge u = None) us ->
  exists us' r', step4_real_conj hints_empty kind n i (map PUnproven us) r =
    Ok (Some (PUnproven (UnprovenConjecture kind n i (map PUnproven us'))), r') /\
    same_kids us us' /\
    Forall (fun u => if is_simulated u then exists e, unproven_challenge u = Some e /\ challenge_wf e
                     else unproven_challenge u = None) us'.
Proof.
  intros Hk Hnone.
  set (f c := if is_real c then mret (PUnproven c)
              else new_challenge ← challenge_secure_random;
                   mret (PUnproven (unproven_with_challenge c new_challenge)) :> stateE Rng ProverError ProofTree).
  assert (forall us r, Forall (fun u => unproven_challenge u = None) us ->
    exists us' r', mapM_st f us r = Ok (map PUnproven us', r') /\ same_kids us us' /\
      Forall (fun u => if is_simulated u then exists e, unproven_challenge u = Some e /\ challenge_wf e
                     else unproven_challenge u = None) us') as H.
  { clear us r Hnone. intros us. induction us as [|u us IH]; intros r Hn; [exists [], r; by split_and!; constructor|].
    apply Forall_cons in Hn as [Hu Hn].
    assert (exists v r1, f u r = Ok (PUnproven v, r1) /\
      (v = u \/ exists e, v = unproven_with_challenge u e) /\
      if is_simulated v then exists e, unproven_challenge v = Some e /\ challenge_wf e
      else unproven_challenge v = None) as (v & r1 & Ev & Hv1 & Hv2).
    { unfold f, is_real. destruct (is_simulated u) eqn:Eu; cbn [negb].
      - destruct (random_challenge_wf r) as (e & r1 & E & He).
        exists (unproven_with_challenge u e), r1. unfold mbind, stateE_bind. rewrite E. split; [done|].
        rewrite is_simulated_with_challenge, Eu, challenge_with_challenge. by split; [right; eexists|exists e].
      - exists u, r. rewrite Eu. by split_and!; [|left|]. }
    destruct (IH r1 Hn) as (us' & r2 & E & H1 & H2). exists (v :: us'), r2.
    cbn [mapM_st]. unfold mbind, stateE_bind in *. rewrite Ev, E. split; [done|].
    by split; constructor. }
  destruct (H us r Hnone) as (us' & r' & E & H1 & H2). exists us', r'. split; [|done].
  unfold step4_real_conj. destruct kind; [done|..]; rewrite cast_to_unp_map;
    unfold mbind, stateE_bind, liftE in *; change (mapM_st _ us r) with (mapM_st f us r); by rewrite E.
Qed.

Lemma step4_and_ok n i e us :
  challenge_opt i = Some e -> challenge_wf e ->
  exists us', (forall r, step4_simulated_and_conj n i (map PUnproven us) r =
      Ok (Some (PUnproven (UnprovenConjecture CandUnproven n i (map PUnproven us'))), r)) /\
    same_kids us us' /\ Forall challenge_wf (replicate (length us) e) /\
    map unproven_challenge us' = map Some (replicate (length us) e) /\
    chal_ok Cand e (replicate (length us) e) None.
Proof.
  intros He Hwf. exists (map (fun u => unproven_with_challenge u e) us). split_and!.
  - intros r. unfold step4_simulated_and_conj. rewrite He, !map_map. done.
  - apply (same_kids_map us (fun _ => e)).
  - by apply Forall_replicate.
  - induction us as [|u us IH]; [done|]. cbn [map length replicate].
    by rewrite challenge_with_challenge, IH.
  - by apply Forall_replicate.
Qed.

Lemma step4_or_ok n i e us r :
  challenge_opt i = Some e -> challenge_wf e -> us <> [] ->
  exists us' es r', step4_simulated_or_conj n i (map PUnproven us) r =
      Ok (Some (PUnproven (UnprovenConjecture CorUnproven n i (map PUnproven us'))), r') /\
    same_kids us us' /\ Forall challenge_wf es /\
    map unproven_challenge us' = map Some es /\ chal_ok Cor e es None.
Proof.
  intros He Hwf Hne. destruct us as [|u us]; [done|]. clear Hne.
  set (f it := c ← challenge_secure_random; mret (unproven_with_challenge it c) :> stateE Rng ProverError UnprovenTree).
  assert (exists es r', mapM_st f us r = Ok (zip_with unproven_with_challenge us es, r') /\
    length es = length us /\ Forall challenge_wf es) as (es & r' & E & Hl & Hes).
  { revert r. induction us as [|v us IH]; intros r; [by exists [], r|].
    destruct (random_challenge_wf r) as (c & r1 & Ec & Hc). destruct (IH r1) as (es & r2 & E & Hl & Hes).
    assert (f v r = Ok (unproven_with_challenge v c, r1)) as Ef
      by (unfold f, mbind, stateE_bind; by rewrite Ec).
    exists (c :: es), r2. cbn [mapM_st]. unfold mbind, stateE_bind in *. rewrite Ef, E.
    cbn [zip_with length]. split; [done|]. split; [by rewrite Hl|by constructor]. }
  set (e1 := challenge_xor e (challenge_sum es)).
  assert (map unproven_challenge (zip_with unproven_with_challenge us es) = map Some es) as Hch.
  { clear - Hl. revert es Hl. induction us as [|v us IH]; intros [|c es] Hl; cbn in Hl; try done.
    cbn [zip_with map]. by rewrite challenge_with_challenge, IH by lia. }
  exists (unproven_with_challenge u e1 :: zip_with unproven_with_challenge us es), (e1 :: es), r'.
  split_and!.
  - unfold step4_simulated_or_conj. rewrite He, cast_to_unp_map.
    unfold mbind, stateE_bind, liftE in *.
    change (mapM_st _ (drop 1 (u :: us)) r) with (mapM_st f us r). rewrite E.
    rewrite (proj2 (mapM_res_Forall2 _ _ es)); cbn [ok_or head hd].
    + by rewrite fold_xor.
    + revert Hch. generalize (zip_with unproven_with_challenge us es) as vs. clear.
      intros vs. revert es. induction vs as [|v vs IH]; intros [|c es]; cbn [map]; try done.
      intros [= H1 H2]. constructor; [by rewrite H1|by apply IH].
  - constructor; [by right; eexists|]. clear - Hl. revert es Hl.
    induction us as [|v us IH]; intros [|c es] Hl; cbn in Hl; try done.
    constructor; [by right; eexists|]. apply IH. lia.
  - constructor; [apply challenge_xor_wf; [done|by apply challenge_sum_wf]|done].
  - cbn [map]. by rewrite challenge_with_challenge, Hch.
  - cbn [chal_ok]. by apply (challenge_sum_complete e [] es).
Qed.

Lemma step4_threshold_ok k n i e us r :
  challenge_opt i = Some e -> challenge_wf e -> 0 <= k <= Z.of_nat (length us) ->
  (length us <= 255)%nat -> n = length us ->
  exists us' es q r', step4_simulated_threshold_conj k n i (map PUnproven us) r =
      Ok (Some (PUnproven (UnprovenConjecture (CthresholdUnproven k (Some q)) n i (map PUnproven us'))), r') /\
    same_kids us us' /\ Forall challenge_wf es /\
    map unproven_challenge us' = map Some es /\ chal_ok (Cthreshold k) e es (Some q).
Proof.
  intros He Hwf Hk Hl ->. unfold step4_simulated_threshold_conj. rewrite He, cast_to_unp_map, length_map.
  set (m := Z.to_nat (Z.of_nat (length us) - k)).
  destruct (fill_bytes (SOUNDNESS_BYTES * m) r) as [bytes r'] eqn:Eb.
  pose proof (fill_bytes_len (SOUNDNESS_BYTES * m) r) as Hbl. rewrite Eb in Hbl. cbn [fst] in Hbl.
  destruct (poly_try_from_room (gf_to_bytes (gf_of_challenge e)) bytes) as (q & Eq & Hd & Hr & H0).
  rewrite Hbl, Nat.mul_comm, Nat.div_mul in Hd by done.
  assert (gf_from_bytes (gf_to_bytes (gf_of_challenge e)) = gf_of_challenge e) as Hgf.
  { pose proof (challenge_gf_roundtrip e Hwf) as Hrt. unfold challenge_of_gf in Hrt. by rewrite Hrt. }
  set (g j := challenge_of_gf (evaluate q (Z.of_nat j + 1))).
  set (es := map g (seq 0 (length us))).
  assert (length es = length us) as Hel by (unfold es; by rewrite length_map, length_seq).
  assert (poly_for (length es) k e q) as Hq.
  { split; [rewrite Hel, Hd; unfold m; lia|]. split; [done|]. by rewrite H0, Hgf. }
  assert (forall idx vs, (idx + length vs <= 255)%nat ->
    exists vs', mapM_res (E := ProverError) (fun '(idx, c) =>
        point ← threshold_point idx;
        Ok (PUnproven (unproven_with_challenge c (challenge_of_gf (evaluate q point)))))
        (enumerate_from idx vs) = Ok (map PUnproven vs') /\ same_kids vs vs' /\
      map unproven_challenge vs' = map Some (map g (seq idx (length vs)))) as Hkids.
  { intros idx vs. revert idx. induction vs as [|v vs IH]; intros idx Hi.
    { exists []. split_and!; [done|constructor|done]. }
    cbn [length] in Hi. destruct (IH (S idx)) as (vs' & E & H1 & H2); [lia|].
    exists (unproven_with_challenge v (g idx) :: vs'). cbn [enumerate_from mapM_res].
    rewrite threshold_point_ok by lia. unfold mbind, result_bind in *. rewrite E.
    split; [done|]. split; [constructor; [by right; eexists|done]|].
    cbn [map length seq]. by rewrite challenge_with_challenge, H2. }
  destruct (Hkids 0%nat us) as (us' & Eus & Hs & Hch); [lia|].
  exists us', es, q, r'. split.
  - destruct (Z.ltb_spec (Z.of_nat (length us) - k) 0); [lia|]. fold m.
    unfold mbind, stateE_bind, liftE, secure_random_bytes in *. rewrite Eb.
    unfold gf2_192poly_from_byte_array. rewrite Eq. cbn [result_map_err]. rewrite Eus.
    rewrite (with_polynomial_ok _ _ e) by by rewrite <- Hel. done.
  - split; [done|]. split; [apply Forall_map, Forall_true; intros j; apply challenge_of_gf_wf|].
    split; [done|]. exists q. split; [done|]. split; [done|]. by rewrite Hel.
Qed.

(** Step 4 at any conjecture. *)
Lemma step4_ok c items i us r :
  well_formed (SigmaConjecture c items) -> length us = length items ->
  sims_ok c (simulated i) (map is_simulated us) ->
  Forall (fun u => unproven_challenge u = None) us ->
  (simulated i = true -> exists e, challenge_opt i = Some e /\ challenge_wf e) ->
  let t := PUnproven (UnprovenConjecture (unproven_kind_of c) (length items) i (map PUnproven us)) in
  exists o us' q r', simulate_and_commit_node hints_empty t r = Ok (o, r') /\
    default t o =
      PUnproven (UnprovenConjecture (kind_with c q) (length items) i (map PUnproven us')) /\
    same_kids us us' /\ kids_ok c i q us'.
Proof.
  intros Hwf Hlen Hsims Hnone He t. unfold kids_ok, simulate_and_commit_node, t.
  destruct (simulated i); cbn [negb].
  - destruct (He eq_refl) as (e & Hei & Hwe). clear He. destruct c as [| |k]; cbn [unproven_kind_of kind_with].
    + destruct (step4_and_ok (length items) i e us Hei Hwe) as (us' & E & H1 & H2 & H3 & H4).
      eexists _, us', None, r. split; [apply E|]. split; [done|]. split; [done|]. by exists e, (replicate (length us) e).
    + destruct (step4_or_ok (length items) i e us r Hei Hwe) as (us' & es & r' & E & H1 & H2 & H3 & H4).
      { intros ->. inversion Hwf as [|? | ? ? Hne| ]; subst. by destruct items. }
      eexists _, us', None, r'. split; [apply E|]. split; [done|]. split; [done|]. by exists e, es.
    + assert (0 <= k <= Z.of_nat (length us) /\ (length us <= 255)%nat) as [Hk H255]
        by (inversion Hwf; subst; lia).
      destruct (step4_threshold_ok k (length items) i e us r Hei Hwe Hk H255) as
        (us' & es & q & r' & E & H1 & H2 & H3 & H4); [done|].
      eexists _, us', (Some q), r'. split; [apply E|]. split; [done|]. split; [done|]. by exists e, es.
  - destruct c as [| |k].
    + exists None, us, None, r. cbn [unproven_kind_of step4_real_conj]. split; [done|]. split; [done|].
      split; [clear; induction us; constructor; auto; by left|]. split; [done|].
      cbn [sims_ok] in Hsims. clear - Hsims Hnone. induction us as [|u us IH]; [constructor|].
      apply Forall_cons in Hsims as [Hs Hsims], Hnone as [Hn Hnone]. constructor; [by rewrite Hs|by apply IH].
    + destruct (step4_real_ok CorUnproven (length items) i us r) as (us' & r' & E & H1 & H2); [done|done|].
      eexists _, us', None, r'. split; [apply E|]. done.
    + destruct (step4_real_ok (CthresholdUnproven k None) (length items) i us r) as (us' & r' & E & H1 & H2); [done|done|].
      eexists _, us', None, r'. split; [apply E|]. done.
Qed.

(** * Steps 5 and 6: the leaves *)

Lemma commit_leaf p i r :
  (simulated i = false -> known p = true) ->
  (simulated i = true -> exists e, challenge_opt i = Some e /\ challenge_wf e) ->
  let t := PUnproven (UnprovenLeaf (leaf_of p) i) in
  exists o r', simulate_and_commit_node hints_empty t r = Ok (o, r') /\
    committed (ProofOfKnowledge p) (default t o) /\ sim_of (default t o) = simulated i /\
    challenge (default t o) = challenge_opt i /\
    match default t o with
    | PUnproven (UnprovenLeaf _ _) | PUnchecked (UncheckedSchnorrLeaf _)
    | PUnchecked (UncheckedDhTupleLeaf _) => True
    | _ => False
    end.
Proof.
  intros Hk He t. unfold t. destruct p as [g h u v|h]; cbn [leaf_of simulate_and_commit_node].
  - unfold step5_diffie_hellman_tuple. change (find_commitment hints_empty _) with (@None Commitment).
    cbn [upd_proposition]. set (d := mkDht g h u v).
    change (ProveDhTuple g h u v) with (dht_pok d) in *.
    destruct (simulated i) eqn:Ei.
    + destruct (He eq_refl) as (e & -> & Hwe). unfold dht_simulate, random_scalar_in_group_range.
      unfold mbind, stateE_bind. destruct (generate_vartime r) as [z r'].
      eexists _, r'. split; [reflexivity|]. cbn [default id].
      pose proof (dht_simulated_commitment d e z) as Hc. cbv zeta in Hc.
      split; [apply committed_sim_dht; [done|by rewrite <- Hc]|]. done.
    + unfold dht_first_message, random_scalar_in_group_range.
      unfold mbind, stateE_bind. destruct (generate_vartime r) as [z r'].
      eexists _, r'. split; [reflexivity|]. cbn [default id].
      split; [by apply committed_real_dht; auto|]. done.
  - unfold step5_schnorr. change (find_commitment hints_empty _) with (@None Commitment).
    cbn [ups_proposition]. destruct (simulated i) eqn:Ei.
    + destruct (He eq_refl) as (e & -> & Hwe). unfold dlog_simulate, random_scalar_in_group_range.
      unfold mbind, stateE_bind. destruct (generate_vartime r) as [z r'].
      eexists _, r'. split; [reflexivity|]. cbn [default id].
      split; [rewrite dlog_simulated_commitment; by constructor|]. done.
    + unfold dlog_first_message, random_scalar_in_group_range.
      unfold mbind, stateE_bind. destruct (generate_vartime r) as [z r'].
      eexists _, r'. split; [reflexivity|]. cbn [default id].
      split; [by constructor; auto|]. done.
Qed.

(** * The whole step *)

(** The children of a conjecture, committed one after the other. *)
Lemma commit_kids c items i q us ts :
  kids_ok c i q us -> sims_ok c (simulated i) (map is_simulated us) ->
  Forall3 (fun it a t => exists u, a = PUnproven u /\ committed it t /\
             sim_of t = is_simulated u /\ challenge t = unproven_challenge u)
    items (map PUnproven us) ts ->
  committed (SigmaConjecture c items)
    (PUnproven (UnprovenConjecture (kind_with c q) (length items) i ts)).
Proof.
  intros Hk Hs H.
  assert (Forall2 committed items ts /\ map sim_of ts = map is_simulated us /\
    map challenge ts = map unproven_challenge us) as (Hts & Esim & Ech).
  { clear Hk Hs. remember (map PUnproven us) as l eqn:El. revert us El.
    induction H as [|it a t items l ts (u & -> & Hc & Hs & He) _ IH]; intros [|u' us] El;
      try discriminate El; [by split_and!|]. injection El as -> El.
    destruct (IH us El) as (H1 & H2 & H3). cbn [map]. rewrite H2, H3, Hs, He.
    by split_and!; [constructor|..]. }
  unfold kids_ok in Hk. destruct (simulated i) eqn:Ei.
  - destruct Hk as (e & es & He & Hwe & Hwes & Hes & Hok).
    apply (committed_sim_conj c items i e es q ts); try done; [|by rewrite Ech].
    cbn [sims_ok] in Hs. rewrite <- Esim in Hs. by apply Forall_map in Hs.
  - destruct Hk as [-> Hall]. rewrite kind_with_None. apply committed_real_conj; [done|done|by rewrite Esim|].
    clear - Hall Esim Ech. revert us Hall Esim Ech.
    induction ts as [|t ts IH]; intros [|u us] Hall; cbn [map]; try done.
    intros [= E1 E2] [= E3 E4]. apply Forall_cons in Hall as [Hu Hall]. constructor; [|by eapply IH].
    rewrite E1, E3. intros Hsim. by rewrite Hsim in Hu.
Qed.

Lemma commit_td sb : forall fuel u r,
  well_formed sb -> (sb_depth sb <= fuel)%nat -> polished sb u ->
  (is_simulated u = true -> exists e, unproven_challenge u = Some e /\ challenge_wf e) ->
  exists t r', rewrite_td (simulate_and_commit_node hints_empty) fuel (PUnproven u) r = Ok (t, r') /\
    committed sb t /\ sim_of t = is_simulated u /\ challenge t = unproven_challenge u.
Proof.
  induction sb as [b|p|c items IH] using SigmaBoolean_ind'; intros [|fuel] u r Hwf Hd Hp He;
    try (cbn in Hd; lia); [inversion Hwf| |].
  - inversion Hp as [p' i Hk|]; subst.
    destruct (commit_leaf p i r Hk He) as (o & r' & E & H1 & H2 & H3 & H4).
    eexists _, r'. split; [eapply rewrite_td_leaf; [exact E|exact H4]|]. done.
  - inversion Hp as [|c' items' i us Hus Hsims Hnone]; subst.
    assert (length us = length items) as Hlen by (symmetry; by eapply Forall2_length).
    destruct (step4_ok c items i us r Hwf Hlen Hsims Hnone He) as (o & us' & q & r1 & E & Eo & Hsame & Hkids).
    destruct (same_kids_polished _ _ _ Hus Hsame) as [Hus' Esim].
    pose proof (sb_depth_items _ _ _ Hd) as Hds. pose proof (well_formed_items _ _ Hwf) as Hws.
    destruct (mapM_st_related (rewrite_td (simulate_and_commit_node hints_empty) fuel)
      (fun it a => exists u, a = PUnproven u /\ polished it u /\
         (is_simulated u = true -> exists e, unproven_challenge u = Some e /\ challenge_wf e))
      (fun it a t => exists u, a = PUnproven u /\ committed it t /\
         sim_of t = is_simulated u /\ challenge t = unproven_challenge u)
      items (map PUnproven us') r1) as (ts & r' & Ets & Fts).
    { assert (Forall (fun u => is_simulated u = true ->
        exists e, unproven_challenge u = Some e /\ challenge_wf e) us') as Hch.
      { unfold kids_ok in Hkids. destruct (simulated i).
        - destruct Hkids as (e & es & _ & _ & Hwes & Hes & _). clear - Hwes Hes. revert us' Hes.
          induction Hwes as [|e es Hw _ IH]; intros [|u us]; cbn [map]; try done.
          intros [= H1 H2]. constructor; [by exists e|by apply IH].
        - destruct Hkids as [_ Hall]. eapply Forall_impl; [exact Hall|]. cbv beta. intros v Hv Hs. by rewrite Hs in Hv. }
      clear - Hus' Hch. induction Hus'; [constructor|]. apply Forall_cons in Hch as [H1 H2].
      constructor; [by eexists|by apply IHHus']. }
    { clear - IH Hds Hws. induction IH as [|it items Hit _ IHl]; constructor.
      - apply Forall_cons in Hds as [Hd _], Hws as [Hw _]. intros a s (u & -> & Hu & He).
        destruct (Hit fuel u s Hw Hd Hu He) as (t & s' & E & H). exists t, s'. split; [done|]. by exists u.
      - apply Forall_cons in Hds as [_ Hds], Hws as [_ Hws]. by apply IHl. }
    eexists _, r'. split.
    + eapply rewrite_td_conj; [exact E|exact Eo|exact Ets].
    + split; [|done]. eapply commit_kids; [exact Hkids|by rewrite Esim|exact Fts].
Qed.

Lemma polished_depth sb u : polished sb u -> unproven_depth u = sb_depth sb.
Proof.
  revert u. induction sb as [b|p|c items IH] using SigmaBoolean_ind'; intros u Hp;
    inversion Hp as [|c' items' i us Hus Hsims Hnone]; subst; [done|].
  cbn [unproven_depth sb_depth]. f_equal. clear - IH Hus.
  induction Hus as [|it u items us Hu _ IHl]; [done|]. apply Forall_cons in IH as [H1 H2].
  cbn [map max_list_with proof_tree_depth]. by rewrite (H1 u Hu), IHl.
Qed.

Lemma committed_depth sb t : committed sb t -> proof_tree_depth t = sb_depth sb.
Proof.
  revert t. induction sb as [b|p|c items IH] using SigmaBoolean_ind'; intros t Hc;
    [by inversion Hc|by inversion Hc|].
  assert (exists kind n i ts, t = PUnproven (UnprovenConjecture kind n i ts) /\ Forall2 committed items ts)
    as (kind & n & i & ts & -> & Hts) by (inversion Hc; subst; by eexists _, _, _, _).
  cbn [proof_tree_depth unproven_depth sb_depth]. f_equal. clear - IH Hts.
  induction Hts as [|it t items ts Ht _ IHl]; [done|]. apply Forall_cons in IH as [H1 H2].
  cbn [max_list_with]. by rewrite (H1 t Ht), IHl.
Qed.

(** ** The Fiat-Shamir string of such a tree *)

Lemma committed_fs sb t : committed sb t -> exists s, fs_tree t = Ok s.
Proof.
  revert t. induction sb as [b|p|c items IH] using SigmaBoolean_ind'; intros t Hc;
    [by inversion Hc|inversion Hc; subst; by eexists|].
  assert (exists kind n i ts, t = PUnproven (UnprovenConjecture kind n i ts) /\ Forall2 committed items ts)
    as (kind & n & i & ts & -> & Hts) by (inversion Hc; subst; by eexists _, _, _, _).
  assert (exists ss, mapM_res fs_tree ts = Ok ss) as [ss Hss].
  { clear - IH Hts. induction Hts as [|it t items ts Ht _ IHl]; [by eexists|].
    apply Forall_cons in IH as [H1 H2]. destruct (H1 t Ht) as [s Hs], (IHl H2) as [ss Hss].
    exists (s :: ss). cbn [mapM_res]. unfold mbind, result_bind in *. by rewrite Hs, Hss. }
  eexists. cbn [fs_tree fs_unproven]. unfold mbind, result_bind in *. by rewrite Hss.
Qed.

(** Steps 4 to 6 of a tree whose root is real. *)
Lemma simulate_and_commit_ok sb u r :
  well_formed sb -> polished sb u -> tree_info u = mkInfo None false crypto_tree_prefix ->
  exists v r', simulate_and_commit hints_empty u r = Ok (v, r') /\ committed sb (PUnproven v) /\
    is_simulated v = false.
Proof.
  intros Hwf Hp Hi. assert (is_simulated u = false) as Hs by (unfold is_simulated; by rewrite Hi).
  destruct (commit_td sb (sb_depth sb) u r Hwf (le_n _) Hp) as (t & r' & E & Hc & Hsim & _).
  { intros H. congruence. }
  rewrite Hs in Hsim. destruct t as [|v]; [discriminate Hsim|].
  exists v, r'. split; [|done]. unfold simulate_and_commit. rewrite (polished_depth sb u Hp).
  unfold mbind, stateE_bind. by rewrite E.
Qed.
End commit.
