(* ===== verification/SigmaRespond.v ===== *)
(** Step 9 of the prover and the conversion of its result, for the completeness theorem of file
    SigmaComplete: the challenges of the real nodes and the responses of the real leaves. *)

From S2P Require Import Prelude Gf2Field Gf2_192 Gf2_192Poly SigmaBoolean ProofTree Prover.
From S2P Require Import Verifier SigmaSteps SigmaCommit.

#[local] Arguments challenge_xor : simpl never.
#[local] Arguments challenge_of_gf : simpl never.
#[local] Arguments gf_of_challenge : simpl never.
#[local] Arguments evaluate : simpl never.

Section respond.
Context `{C : SigmaCrypto} `{L : !SigmaCryptoLaws C} (secrets : list PrivateInput).
#[local] Notation known := (known secrets).
#[local] Notation committed := (committed secrets).

(** The children of a real conjecture: the simulated ones have challenges, the real ones none. *)
Definition ready (t : ProofTree) : Prop :=
  if sim_of t then exists e, challenge t = Some e /\ challenge_wf e else challenge t = None.

(** Step 9 gives challenges to real children only. *)
Definition answered (t t' : ProofTree) : Prop :=
  t' = t \/ (sim_of t = false /\ exists e, t' = with_challenge t e).

Lemma committed_with_challenge sb t e :
  committed sb t -> sim_of t = false -> committed sb (with_challenge t e).
Proof.
  destruct 1; cbn [sim_of]; unfold is_simulated; cbn [tree_info]; try congruence; intros Hs; by constructor.
Qed.

Lemma challenge_of_with_challenge t e : challenge (with_challenge t e) = Some e.
Proof. by destruct t as [[]|[]]. Qed.

Lemma fs_with_challenge t e : sim_of t = false -> fs_tree (with_challenge t e) = fs_tree t.
Proof. by destruct t as [|[[]|]]. Qed.

Lemma challenge_real_real t e : sim_of t = false -> challenge_real e t = with_challenge t e.
Proof. destruct t as [|u]; cbn; [done|]. unfold is_real. by intros ->. Qed.

Lemma challenge_real_sim t e : sim_of t = true -> challenge_real e t = t.
Proof. destruct t as [|u]; cbn; [done|]. unfold is_real. by intros ->. Qed.

Lemma answered_challenge_real t e : answered t (challenge_real e t).
Proof.
  destruct (sim_of t) eqn:E.
  - left. by apply challenge_real_sim.
  - right. split; [done|]. exists e. by apply challenge_real_real.
Qed.

Lemma omap_cons_eq {A B} (f : A -> option B) x l :
  omap f (x :: l) = match f x with Some y => y :: omap f l | None => omap f l end.
Proof. done. Qed.

(** ** The three conjectures *)

Lemma step9_and_ok n i e ts :
  challenge_opt i = Some e -> challenge_wf e -> Forall (fun t => sim_of t = false) ts ->
  exists ts' es, step9_real_and n i ts = Ok (Some (PUnproven (UnprovenConjecture CandUnproven n i ts'))) /\
    Forall2 answered ts ts' /\ map challenge ts' = map Some es /\ Forall challenge_wf es /\
    chal_ok Cand e es None.
Proof.
  intros He Hwf Hreal. exists (map (fun t => with_challenge t e) ts), (replicate (length ts) e).
  unfold step9_real_and. rewrite He. split; [done|]. split.
  - induction Hreal; constructor; [by right; eauto|done].
  - split; [|by split; apply Forall_replicate]. clear. induction ts as [|t ts IH]; [done|].
    cbn [map length replicate]. by rewrite challenge_of_with_challenge, IH.
Qed.

Lemma ready_sims ts :
  Forall ready ts -> Forall (fun s => s = true) (map sim_of ts) ->
  exists es, map challenge ts = map Some es /\ omap challenge ts = es /\ Forall challenge_wf es /\
    forall e, map (challenge_real e) ts = ts.
Proof.
  induction 1 as [|t ts Ht _ IH]; cbn [map]; [by exists []|].
  intros [Hs Hsims]%Forall_cons. destruct (IH Hsims) as (es & H1 & H2 & H3 & H4).
  unfold ready in Ht. rewrite Hs in Ht. destruct Ht as (e & He & Hwe).
  exists (e :: es). rewrite omap_cons_eq, He. cbn [map]. rewrite H1, H2.
  split_and!; [done|done|by constructor|]. intros e'. by rewrite H4, challenge_real_sim.
Qed.

Lemma step9_or_ok n i e ts :
  challenge_opt i = Some e -> challenge_wf e -> Forall ready ts ->
  sims_ok Cor false (map sim_of ts) ->
  exists ts' es, step9_real_or n i ts = Ok (Some (PUnproven (UnprovenConjecture CorUnproven n i ts'))) /\
    Forall2 answered ts ts' /\ map challenge ts' = map Some es /\ Forall challenge_wf es /\
    chal_ok Cor e es None.
Proof.
  intros He Hwf Hready (l1 & l2 & Hsims & Hl1 & Hl2).
  assert (exists a t b, ts = a ++ t :: b /\ map sim_of a = l1 /\ sim_of t = false /\ map sim_of b = l2)
    as (a & t & b & -> & <- & Ht & <-).
  { clear - Hsims. revert ts Hsims. induction l1 as [|s l1 IH]; intros [|t ts]; cbn [map app]; try done.
    - intros [= H1 H2]. by exists [], t, ts.
    - intros [= H1 H2]. destruct (IH ts H2) as (a & t' & b & -> & H3 & H4 & H5).
      exists (t :: a), t', b. cbn [map]. by rewrite H1, H3. }
  apply Forall_app in Hready as [Ha [Hrt Hb]%Forall_cons].
  destruct (ready_sims a Ha Hl1) as (ea & Ea1 & Ea2 & Ea3 & Ea4).
  destruct (ready_sims b Hb Hl2) as (eb & Eb1 & Eb2 & Eb3 & Eb4).
  unfold ready in Hrt. rewrite Ht in Hrt.
  set (c := challenge_xor e (challenge_sum (ea ++ eb))).
  exists (a ++ with_challenge t c :: b), (ea ++ c :: eb). unfold step9_real_or. rewrite He.
  rewrite omap_app, omap_cons_eq, Hrt, Ea2, Eb2.
  rewrite fold_xor by (done || by apply Forall_app). fold c.
  rewrite map_app. cbn [map]. rewrite Ea4, Eb4, challenge_real_real by done.
  assert (forall l, Forall2 answered l l) as Hrefl by (induction l; constructor; [by left|done]).
  split; [done|]. split; [apply Forall2_app; [done|constructor; [by right; eauto|done]]|].
  split; [by rewrite !map_app; cbn [map]; rewrite challenge_of_with_challenge, Ea1, Eb1|].
  split; [|by apply challenge_sum_complete].
  apply Forall_app; split; [done|constructor; [|done]].
  apply challenge_xor_wf; [done|]. apply challenge_sum_wf. by apply Forall_app.
Qed.

(** The points and values of the children that have challenges. *)
Definition known_points (idx : nat) (ts : list ProofTree) : list (Z * Gf2_192) :=
  omap (fun '(j, t) => option_map (fun c => (Z.of_nat j + 1, gf_of_challenge c)) (challenge t))
    (enumerate_from idx ts).

Definition not_unchecked_conj (t : ProofTree) : Prop :=
  match t with PUnchecked (UncheckedConjecture _ _ _) => False | _ => True end.

Lemma threshold_points_ok idx ts :
  Forall not_unchecked_conj ts -> (idx + length ts <= 255)%nat ->
  exists l, mapM_res
      (fun '(idx, child) =>
         one_based_idx ← threshold_point idx;
         challenge_opt ← threshold_child_challenge child;
         Ok (option_map (fun c => (one_based_idx, gf_of_challenge c)) challenge_opt))
      (enumerate_from idx ts) = Ok l /\ omap (M := list) id l = known_points idx ts.
Proof.
  intros H. revert idx. induction H as [|t ts Ht _ IH]; intros idx Hl; [by exists []|].
  cbn [length] in Hl. destruct (IH (S idx)) as (l & E & El); [lia|].
  exists (option_map (fun c => (Z.of_nat idx + 1, gf_of_challenge c)) (challenge t) :: l).
  cbn [enumerate_from mapM_res]. rewrite threshold_point_ok by lia.
  assert (threshold_child_challenge t = Ok (challenge t)) as ->
    by (by destruct t as [[]|]).
  unfold mbind, result_bind in *. rewrite E. split; [done|].
  unfold known_points in *. cbn [enumerate_from]. rewrite !omap_cons_eq, El. by destruct (challenge t).
Qed.

Lemma known_points_range idx ts :
  (idx + length ts <= 255)%nat ->
  Forall (fun p => Z.of_nat idx + 1 <= p <= 255) (known_points idx ts).*1 /\ NoDup (known_points idx ts).*1.
Proof.
  unfold known_points. revert idx. induction ts as [|t ts IH]; intros idx Hl; [split; constructor|].
  cbn [length] in Hl. cbn [enumerate_from]. rewrite omap_cons_eq.
  destruct (IH (S idx)) as [H1 H2]; [lia|].
  assert (Forall (fun p => Z.of_nat idx + 1 < p <= 255)
    (omap (fun '(j, t) => option_map (fun c => (Z.of_nat j + 1, gf_of_challenge c)) (challenge t))
       (enumerate_from (S idx) ts)).*1) as H3 by (eapply Forall_impl; [exact H1|cbv beta; lia]).
  destruct (challenge t); cbn [option_map]; rewrite ?fmap_cons; cbn [fst].
  - split; constructor; [lia|eapply Forall_impl; [exact H3|cbv beta; lia]| |done].
    intros Hin. rewrite Forall_forall in H3. apply H3 in Hin. lia.
  - split; [eapply Forall_impl; [exact H3|cbv beta; lia]|done].
Qed.

Lemma known_points_good ts : (length ts <= 255)%nat -> good_points (known_points 0 ts).*1.
Proof.
  intros Hl. destruct (known_points_range 0 ts Hl) as [H1 H2]. split; [done|].
  eapply Forall_impl; [exact H1|]. cbv beta. unfold in_u. lia.
Qed.

Lemma length_known_points idx ts :
  Forall ready ts ->
  Z.of_nat (length (known_points idx ts)) = Z.of_nat (length ts) - count_unset (map sim_of ts).
Proof.
  intros H. unfold known_points, count_unset. revert idx. induction H as [|t ts Ht _ IH]; intros idx; [done|].
  cbn [enumerate_from]. rewrite omap_cons_eq. unfold ready in Ht. specialize (IH (S idx)).
  cbn [map List.filter length]. destruct (sim_of t); cbn [negb].
  - destruct Ht as (c & -> & _). cbn [option_map length]. lia.
  - rewrite Ht. cbn [option_map length]. lia.
Qed.

Lemma known_points_wf idx ts : Forall gf_wf (known_points idx ts).*2.
Proof.
  unfold known_points. revert idx. induction ts as [|t ts IH]; intros idx; [constructor|].
  cbn [enumerate_from]. rewrite omap_cons_eq.
  destruct (challenge t); cbn [option_map]; [|apply IH].
  constructor; [apply gf_of_challenge_wf|apply IH].
Qed.

(** The children after the interpolation: all have the polynomial's values for challenges. *)
Lemma threshold_answers q g idx ts :
  (forall j, g j = challenge_of_gf (evaluate q (Z.of_nat j + 1))) ->
  Forall ready ts -> (idx + length ts <= 255)%nat ->
  Forall (fun pv => evaluate q pv.1 = pv.2) (known_points idx ts) ->
  exists ts', mapM_res (E := ProverError)
      (fun '(idx, child) =>
         one_based_idx ← threshold_point idx;
         Ok (challenge_real (challenge_of_gf (evaluate q one_based_idx)) child))
      (enumerate_from idx ts) = Ok ts' /\
    Forall2 answered ts ts' /\ map challenge ts' = map Some (map g (seq idx (length ts))).
Proof.
  intros Hg H. revert idx. induction H as [|t ts Ht _ IH]; intros idx Hl Hq; [by exists []|].
  cbn [length] in Hl. unfold known_points in Hq. cbn [enumerate_from] in Hq. rewrite omap_cons_eq in Hq.
  destruct (IH (S idx)) as (ts' & E & H1 & H2); [lia| |].
  { unfold known_points. destruct (challenge t); [by apply Forall_cons in Hq as [_ Hq]|done]. }
  exists (challenge_real (g idx) t :: ts'). cbn [enumerate_from mapM_res].
  rewrite threshold_point_ok by lia. unfold mbind, result_bind in *. rewrite E, <- Hg.
  split; [done|]. split; [constructor; [apply answered_challenge_real|done]|].
  cbn [length seq map]. rewrite H2. f_equal. unfold ready in Ht. destruct (sim_of t) eqn:Es.
  - destruct Ht as (c & Hc & Hwc). rewrite challenge_real_sim by done. rewrite Hc in Hq |- *.
    apply Forall_cons in Hq as [Hq _]. cbn [fst snd] in Hq. rewrite Hg, Hq.
    by rewrite challenge_gf_roundtrip.
  - rewrite challenge_real_real by done. apply challenge_of_with_challenge.
Qed.

Lemma step9_threshold_ok k i e ts :
  challenge_opt i = Some e -> challenge_wf e -> Forall ready ts -> Forall not_unchecked_conj ts ->
  sims_ok (Cthreshold k) false (map sim_of ts) -> (length ts <= 255)%nat ->
  exists ts' es q, step9_real_threshold k (length ts) i ts =
      Ok (Some (PUnproven (UnprovenConjecture (CthresholdUnproven k (Some q)) (length ts) i ts'))) /\
    Forall2 answered ts ts' /\ map challenge ts' = map Some es /\ Forall challenge_wf es /\
    chal_ok (Cthreshold k) e es (Some q).
Proof.
  intros He Hwf Hready Hnu Hk Hl. cbn [sims_ok] in Hk.
  destruct (threshold_points_ok 0 ts Hnu Hl) as (l & El & Hid).
  pose proof (length_known_points 0 ts Hready) as Hlen. rewrite Hk in Hlen.
  destruct (interpolate_spec (known_points 0 ts).*1 (known_points 0 ts).*2 (gf_of_challenge e))
    as (q & Eq & Hd & Hr & H0 & Hv);
    [by apply known_points_good|by rewrite !length_fmap|apply known_points_wf|apply gf_of_challenge_wf|].
  rewrite zip_fst_snd in Hv. rewrite length_fmap in Hd, Hr.
  set (g j := challenge_of_gf (evaluate q (Z.of_nat j + 1))).
  destruct (threshold_answers q g 0 ts) as (ts' & Ets & Ha & Hc); [done|done|done|done|].
  assert (length (map g (seq 0 (length ts))) = length ts) as Hgl by by rewrite length_map, length_seq.
  assert (poly_for (length ts) k e q) as Hq.
  { split; [lia|]. rewrite Hd. split; [done|]. by rewrite <- (evaluate_0 _ q Hr). }
  exists ts', (map g (seq 0 (length ts))), q. split.
  - unfold step9_real_threshold. rewrite He, El. unfold mbind, result_bind in *. rewrite Hid, Eq.
    cbn [result_map_err]. rewrite Ets. by rewrite (with_polynomial_ok _ _ e).
  - split; [done|]. split; [done|].
    split; [apply Forall_map, Forall_true; intros j; apply challenge_of_gf_wf|].
    exists q. rewrite Hgl. split; [done|]. by split.
Qed.

(** ** The leaves *)

(** The public part of a secret is that of its private part. *)
Definition secret_wf (s : PrivateInput) : Prop :=
  match s with
  | PrivateDlog d => dlog_pk d = exponentiate_gen (dlog_w d)
  | PrivateDht d =>
      dh_u (common_input d) = exponentiate (dh_g (common_input d)) (dht_w d) /\
      dh_v (common_input d) = exponentiate (dh_h (common_input d)) (dht_w d)
  end.

Lemma find_known p :
  Forall secret_wf secrets -> known p = true ->
  exists s, find_secret secrets (ProofOfKnowledge p) = Some s /\
    public_image s = ProofOfKnowledge p /\ secret_wf s.
Proof.
  intros Hwf Hk. unfold find_secret. unfold SigmaSteps.known, secret_known in Hk. cbn [orb] in Hk.
  rewrite bool_decide_false in Hk by apply not_elem_of_nil. cbn [orb] in Hk.
  destruct (find_split _ _ Hk) as (l1 & s & l2 & El & Hf & Hs & _). exists s. split; [done|].
  apply bool_decide_eq_true in Hs. split; [done|].
  rewrite El in Hwf. by apply Forall_app in Hwf as [_ [Hwf _]%Forall_cons].
Qed.

Lemma respond_dlog h rnd i e r :
  Forall secret_wf secrets -> known (ProveDlog h) = true -> simulated i = false ->
  challenge_opt i = Some e ->
  exists z, proving_node secrets hints_empty
      (PUnproven (UnprovenLeaf (SchnorrLeaf (mkUnprovenSchnorr h (Some (exponentiate_gen rnd)) (Some rnd))) i)) r =
    Ok (Some (PUnchecked (UncheckedSchnorrLeaf (mkUncheckedSchnorr h None e z))), r) /\
    dlog_compute_commitment h e z = exponentiate_gen rnd.
Proof.
  intros Hwf Hk Hs He. destruct (find_known _ Hwf Hk) as ([d|d] & Hf & Hpi & Hw); [|discriminate Hpi].
  exists (second_message (dlog_w d) rnd e). cbn [secret_wf] in Hw. cbn [public_image] in Hpi.
  injection Hpi as Hpk. split.
  - unfold proving_node. rewrite Hs. cbn [negb]. unfold step9_real_schnorr. rewrite He.
    cbn [ups_proposition ups_randomness_opt]. unfold dlog_prop. rewrite Hf. done.
  - rewrite <- Hpk, Hw. apply dlog_real_commitment.
Qed.

Lemma respond_dht d rnd i e r :
  Forall secret_wf secrets -> known (dht_pok d) = true -> simulated i = false ->
  challenge_opt i = Some e ->
  exists z, proving_node secrets hints_empty
      (PUnproven (UnprovenLeaf (DhTupleLeaf (mkUnprovenDhTuple d
         (Some (mkFirstDht (exponentiate (dh_g d) rnd) (exponentiate (dh_h d) rnd))) (Some rnd))) i)) r =
    Ok (Some (PUnchecked (UncheckedDhTupleLeaf (mkUncheckedDhTuple d None e z))), r) /\
    dht_compute_commitment d e z = (exponentiate (dh_g d) rnd, exponentiate (dh_h d) rnd).
Proof.
  intros Hwf Hk Hs He. destruct (find_known _ Hwf Hk) as ([s|s] & Hf & Hpi & Hw); [discriminate Hpi|].
  exists (second_message (dht_w s) rnd e). cbn [secret_wf] in Hw. cbn [public_image] in Hpi.
  assert (common_input s = d) as Hd.
  { destruct (common_input s), d. unfold dht_prop, dht_pok in Hpi. cbn in Hpi. by injection Hpi as -> -> -> ->. }
  split.
  - unfold proving_node. rewrite Hs. cbn [negb]. unfold step9_real_dh_tuple. rewrite He.
    cbn [upd_proposition upd_randomness_opt]. change (dht_prop d) with (ProofOfKnowledge (dht_pok d)).
    rewrite Hf. done.
  - rewrite Hd in Hw. destruct Hw as [Hu Hv]. destruct d as [g h u v]. cbn [dh_g dh_h dh_u dh_v] in *.
    rewrite Hu, Hv. apply dht_real_commitment.
Qed.

(** * The proof *)

Definition unchecked_kind_with (c : conjecture) (q : option Gf2_192Poly) : option unchecked_kind :=
  match c with
  | Cand => Some CandUnchecked
  | Cor => Some CorUnchecked
  | Cthreshold k => CthresholdUnchecked k <$> q
  end.

(** A proof tree of a proposition at a challenge: its shape, and challenges that agree. *)
Inductive proven : SigmaBoolean -> Challenge -> UncheckedTree -> Prop :=
| proven_dlog h a e z :
    challenge_wf e ->
    proven (ProofOfKnowledge (ProveDlog h)) e (UncheckedSchnorrLeaf (mkUncheckedSchnorr h a e z))
| proven_dht d a e z :
    challenge_wf e ->
    proven (ProofOfKnowledge (dht_pok d)) e (UncheckedDhTupleLeaf (mkUncheckedDhTuple d a e z))
| proven_conj c items e es q kind us :
    challenge_wf e -> Forall3 proven items es us -> chal_ok c e es q ->
    unchecked_kind_with c q = Some kind ->
    proven (SigmaConjecture c items) e (UncheckedConjecture kind e us).

(** What step 9 has to make of a committed tree. *)
Definition answers (sb : SigmaBoolean) (t : ProofTree) (e : Challenge) (t' : ProofTree) : Prop :=
  exists u, convert_to_unchecked t' = Ok u /\ proven sb e u /\
    fs_unchecked (compute_commitments u) = fs_tree t.

Lemma committed_ready items ts :
  Forall2 committed items ts -> Forall (fun t => sim_of t = false -> challenge t = None) ts ->
  Forall ready ts /\ Forall not_unchecked_conj ts.
Proof.
  induction 1 as [|it t items ts Ht _ IH]; [done|]. intros [Hn Hall]%Forall_cons.
  destruct (IH Hall) as [H1 H2]. split; constructor; [|done| |done].
  - unfold ready. destruct (sim_of t) eqn:E; [|by apply Hn].
    by apply (committed_challenge secrets it).
  - by destruct Ht.
Qed.

(** Step 9 at a real conjecture. *)
Lemma step9_ok c items i ts e r :
  well_formed (SigmaConjecture c items) -> simulated i = false -> challenge_opt i = Some e ->
  challenge_wf e -> Forall2 committed items ts -> sims_ok c false (map sim_of ts) ->
  Forall (fun t => sim_of t = false -> challenge t = None) ts ->
  exists ts' es q, proving_node secrets hints_empty
      (PUnproven (UnprovenConjecture (unproven_kind_of c) (length items) i ts)) r =
    Ok (Some (PUnproven (UnprovenConjecture (kind_with c q) (length items) i ts')), r) /\
    Forall2 answered ts ts' /\ map challenge ts' = map Some es /\ Forall challenge_wf es /\
    chal_ok c e es q.
Proof.
  intros Hwf Hs He Hwe Hts Hsims Hnone. destruct (committed_ready items ts Hts Hnone) as [Hr Hnu].
  unfold proving_node. rewrite Hs. cbn [negb]. unfold liftE.
  destruct c as [| |k]; cbn [unproven_kind_of kind_with].
  - destruct (step9_and_ok (length items) i e ts He Hwe) as (ts' & es & E & H1).
    { cbn [sims_ok] in Hsims. by apply Forall_map in Hsims. }
    exists ts', es, None. rewrite E. by split.
  - destruct (step9_or_ok (length items) i e ts He Hwe Hr Hsims) as (ts' & es & E & H1).
    exists ts', es, None. rewrite E. by split.
  - assert (length items = length ts) as Hl by by eapply Forall2_length.
    destruct (step9_threshold_ok k i e ts He Hwe Hr Hnu Hsims) as (ts' & es & q & E & H1).
    { rewrite <- Hl. by inversion Hwf. }
    exists ts', es, (Some q). rewrite Hl, E. by split.
Qed.

Lemma answered_committed items ts ts' :
  Forall2 committed items ts -> Forall2 answered ts ts' ->
  Forall2 committed items ts' /\ mapM_res fs_tree ts' = mapM_res fs_tree ts.
Proof.
  intros H. revert ts'. induction H as [|it t items ts Ht _ IH]; intros ts' Ha;
    inversion Ha as [|? t' ? ts2 Ht' Hts']; subst; [done|].
  destruct (IH _ Hts') as [H1 H2]. cbn [mapM_res]. rewrite H2.
  destruct Ht' as [->|[Hs [e ->]]].
  - split; [by constructor|done].
  - rewrite fs_with_challenge by done. split; [|done].
    constructor; [by apply committed_with_challenge|done].
Qed.

(** The children's proofs make the conjecture's. *)
Lemma finish_conj c items i e es q ts bs :
  challenge_opt i = Some e -> challenge_wf e -> map challenge ts = map Some es ->
  chal_ok c e es q ->
  Forall3 (fun it t b => forall e, challenge t = Some e -> answers it t e b) items ts bs ->
  answers (SigmaConjecture c items) (PUnproven (UnprovenConjecture (kind_with c q) (length items) i ts)) e
    (PUnproven (UnprovenConjecture (kind_with c q) (length items) i bs)).
Proof.
  intros He Hwe Hch Hok H.
  assert (exists us, mapM_res convert_to_unchecked bs = Ok us /\ Forall3 proven items es us /\
    mapM_res fs_unchecked (map compute_commitments us) = mapM_res fs_tree ts) as (us & Eus & Hus & Hfs).
  { clear Hok. revert es Hch. induction H as [|it t b items ts bs Hb _ IH]; intros [|e' es]; cbn [map]; try done.
    - intros _. exists []. by split_and!; [|constructor|].
    - intros [= H1 H2]. destruct (IH es H2) as (us & E & H3 & H4). destruct (Hb e' H1) as (u & Eu & Hu & Hf).
      exists (u :: us). cbn [mapM_res map]. rewrite Eu, Hf, H4. unfold mbind, result_bind in *. rewrite E.
      by split_and!; [|constructor|]. }
  assert (exists kind, unchecked_kind_with c q = Some kind) as [kind Hkind].
  { destruct c; cbn; [by eexists..|]. destruct Hok as (p & -> & _). by eexists. }
  exists (UncheckedConjecture kind e us). split_and!.
  - cbn [convert_to_unchecked convert_unproven]. rewrite He. unfold mbind, result_bind in *. cbn [ok_or].
    destruct c, q; cbn in Hkind; simplify_eq; cbn [kind_with]; by rewrite Eus.
  - by econstructor.
  - cbn [compute_commitments fs_unchecked fs_tree fs_unproven]. rewrite Hfs.
    destruct c, q; cbn in Hkind; simplify_eq; done.
Qed.

Lemma respond_leaf p t e r :
  Forall secret_wf secrets -> committed (ProofOfKnowledge p) t -> challenge t = Some e -> challenge_wf e ->
  exists o, proving_node secrets hints_empty t r = Ok (o, r) /\
    answers (ProofOfKnowledge p) t e (default t o) /\
    match default t o with
    | PUnproven (UnprovenLeaf _ _) | PUnchecked (UncheckedSchnorrLeaf _)
    | PUnchecked (UncheckedDhTupleLeaf _) => True
    | _ => False
    end.
Proof.
  intros Hsec Hc He Hwe. inversion Hc as [h e' z Hwe' | d e' z a b Hwe' Hcomp | h rnd i Hs Hk | d rnd i Hs Hk | |]; subst.
  - injection He as ->. exists None. split; [done|]. split; [|done].
    eexists. split; [reflexivity|]. split; [by constructor|]. done.
  - injection He as ->. exists None. split; [done|]. split; [|done].
    eexists. split; [reflexivity|]. split; [by constructor|].
    cbn [compute_commitments ud_proposition ud_challenge ud_second_message]. by rewrite Hcomp.
  - destruct (respond_dlog h rnd i e r Hsec Hk Hs He) as (z & E & Hz). eexists. split; [exact E|].
    split; [|done]. eexists. split; [reflexivity|]. split; [by constructor|].
    cbn [compute_commitments us_proposition us_challenge us_second_message]. by rewrite Hz.
  - destruct (respond_dht d rnd i e r Hsec Hk Hs He) as (z & E & Hz). eexists. split; [exact E|].
    split; [|done]. eexists. split; [reflexivity|]. split; [by constructor|].
    cbn [compute_commitments ud_proposition ud_challenge ud_second_message]. by rewrite Hz.
Qed.

Lemma respond_td sb : forall fuel t e r,
  Forall secret_wf secrets -> well_formed sb -> (sb_depth sb <= fuel)%nat -> committed sb t ->
  challenge t = Some e -> challenge_wf e ->
  exists t' r', rewrite_td (proving_node secrets hints_empty) fuel t r = Ok (t', r') /\ answers sb t e t'.
Proof.
  induction sb as [b|p|c items IH] using SigmaBoolean_ind'; intros [|fuel] t e r Hsec Hwf Hd Hc He Hwe;
    try (cbn in Hd; lia); [inversion Hwf| |].
  { destruct (respond_leaf p t e r Hsec Hc He Hwe) as (o & E & Ha & Hl). eexists _, r.
    split; [eapply rewrite_td_leaf; [exact E|exact Hl]|exact Ha]. }
  pose proof (sb_depth_items _ _ _ Hd) as Hds. pose proof (well_formed_items _ _ Hwf) as Hws.
  assert (forall ts es r, Forall2 committed items ts -> map challenge ts = map Some es -> Forall challenge_wf es ->
    exists bs r', mapM_st (rewrite_td (proving_node secrets hints_empty) fuel) ts r = Ok (bs, r') /\
    Forall3 (fun it t b => forall e, challenge t = Some e -> answers it t e b) items ts bs) as Hkids.
  { clear - IH Hds Hws Hsec. intros ts es r Hts Hch Hwes.
    apply (mapM_st_related _ (fun it a => committed it a /\ exists e, challenge a = Some e /\ challenge_wf e)).
    - clear - Hts Hch Hwes. revert es Hch Hwes. induction Hts as [|it t items ts Ht _ IHt]; [constructor|].
      intros [|e es]; cbn [map]; [done|]. intros [= H1 H2] [Hw Hws]%Forall_cons.
      constructor; [by split; [|exists e]|by eapply IHt].
    - clear Hts. induction IH as [|it items Hit _ IHl]; constructor.
      + apply Forall_cons in Hds as [Hd _], Hws as [Hw _]. intros a s (Ha & e & He & Hwe).
        destruct (Hit fuel a e s Hsec Hw Hd Ha He Hwe) as (b & s' & E & Hb). exists b, s'. split; [done|].
        intros e' He'. by simplify_eq.
      + apply Forall_cons in Hds as [_ Hds], Hws as [_ Hws]. by apply IHl. }
  inversion Hc as [| | | |c' items' i e' es q ts Hs He' Hwe' Hts Hsims Hch Hok|c' items' i ts Hs Hts Hsims Hnone]; subst.
  - assert (Forall challenge_wf es) as Hwes.
    { clear - Hts Hsims Hch. revert es Hch. induction Hts as [|it t items ts Ht _ IHt]; intros [|e es]; cbn [map]; try done.
      intros [= H1 H2]. apply Forall_cons in Hsims as [Hs Hsims]. constructor; [|by apply IHt].
      destruct (committed_challenge secrets it t Ht Hs) as (e' & He & Hw). by simplify_eq. }
    destruct (Hkids ts es r Hts Hch Hwes) as (bs & r' & E & Hbs).
    assert (e' = e) as -> by (cbn in He; unfold unproven_challenge in He; cbn [tree_info] in He; congruence).
    eexists _, r'. split; [|by eapply finish_conj].
    eapply (rewrite_td_conj _ _ _ r None); [|reflexivity|exact E].
    unfold proving_node. by rewrite Hs.
  - destruct (step9_ok c items i ts e r Hwf Hs He Hwe Hts Hsims Hnone) as (ts' & es & q & E & Ha & Hch & Hwes & Hok).
    destruct (answered_committed items ts ts' Hts Ha) as [Hts' Hfs].
    destruct (Hkids ts' es r Hts' Hch Hwes) as (bs & r' & Ebs & Hbs).
    eexists _, r'. split.
    + eapply (rewrite_td_conj _ _ _ r _); [exact E|reflexivity|exact Ebs].
    + destruct (finish_conj c items i e es q ts' bs He Hwe Hch Hok Hbs) as (u & Eu & Hu & Hf).
      exists u. split; [done|]. split; [done|]. rewrite Hf. cbn [fs_tree fs_unproven]. rewrite Hfs.
      by destruct c.
Qed.
End respond.
