(* ===== verification/SigmaComplete.v ===== *)
(** Completeness of the sigma protocol: what the prover of file Prover makes for a proposition its
    secrets prove, the verifier of file Verifier accepts. Files SigmaSteps, SigmaCommit and
    SigmaRespond follow the prover's steps; this one reads the proof's bytes back and concludes. *)

From S2P Require Import Prelude Gf2Field Gf2_192 Gf2_192Poly SigmaBoolean ProofTree Prover.
From S2P Require Import SigSerializer Verifier ConcreteCrypto SigmaSteps SigmaCommit SigmaRespond.

#[local] Arguments challenge_xor : simpl never.
#[local] Arguments challenge_of_gf : simpl never.
#[local] Arguments gf_of_challenge : simpl never.
#[local] Arguments evaluate : simpl never.

(** * Reading the bytes of a proof tree back *)

Section reading.
Context `{C : SigmaCrypto} `{L : !SigmaCryptoLaws C}.

(** The reader's tree has the challenges and responses of the one that was written, whatever
    its commitments. *)
Definition same_proof (u u' : UncheckedTree) : Prop :=
  compute_commitments u' = compute_commitments u /\ unchecked_challenge u' = unchecked_challenge u.

(** With the challenge given, or to be read. *)
Definition reads_back (it : SigmaBoolean) (e : Challenge) (u : UncheckedTree) : Prop :=
  unchecked_challenge u = e /\ challenge_wf e /\ forall rest,
    (exists u', parse_sig_compute_challenges_reader it (Some e) (sig_write_bytes u false ++ rest) =
      Ok (u', rest) /\ same_proof u u') /\
    (exists u', parse_sig_compute_challenges_reader it None (sig_write_bytes u true ++ rest) =
      Ok (u', rest) /\ same_proof u u').

Lemma read_exact_app n e a rest : length a = n -> read_exact n e (a ++ rest) = Ok (a, rest).
Proof.
  intros <-. unfold read_exact. rewrite length_app.
  destruct (Nat.ltb_spec (length a + length rest) (length a)); [lia|].
  by rewrite take_app_length, drop_app_length.
Qed.

Lemma read_up_to_app n a rest : length a = n -> read_up_to n (a ++ rest) = Ok (a, rest).
Proof. intros <-. unfold read_up_to. by rewrite take_app_length, drop_app_length. Qed.

Lemma read_scalar_app z rest : read_scalar (scalar_to_bytes z ++ rest) = Ok (z, rest).
Proof.
  unfold read_scalar, mbind, stateE_bind. rewrite read_up_to_app by apply scalar_bytes_len.
  unfold mret, stateE_ret. rewrite scalar_bytes_len. cbn [Nat.sub replicate GROUP_SIZE app].
  by rewrite scalar_bytes_roundtrip.
Qed.

Lemma sig_write_true u : sig_write_bytes u true = unchecked_challenge u ++ sig_write_bytes u false.
Proof. by destruct u. Qed.

(** Reading the challenge first is reading with that challenge given. *)
Lemma parse_None sb e s :
  challenge_wf e ->
  parse_sig_compute_challenges_reader sb None (e ++ s) = parse_sig_compute_challenges_reader sb (Some e) s.
Proof.
  intros [_ Hl].
  assert (read_exact SOUNDNESS_BYTES (ChallengeRead sb) (e ++ s) = Ok (e, s)) as E by by apply read_exact_app.
  destruct sb; cbn [parse_sig_compute_challenges_reader]; unfold mbind, stateE_bind, mret, stateE_ret in *;
    by rewrite E.
Qed.

Lemma reads_back_intro it e u :
  unchecked_challenge u = e -> challenge_wf e ->
  (forall rest, exists u', parse_sig_compute_challenges_reader it (Some e) (sig_write_bytes u false ++ rest) =
      Ok (u', rest) /\ same_proof u u') ->
  reads_back it e u.
Proof.
  intros He Hwe H. split; [done|]. split; [done|]. intros rest. split; [apply H|].
  rewrite sig_write_true, <- app_assoc, He, parse_None by done. apply H.
Qed.

(** ** The children of a conjecture *)

Lemma parse_and e items es us rest :
  Forall3 reads_back items es us -> Forall (fun e' => e' = e) es ->
  exists us', mapM_st (fun it => parse_sig_compute_challenges_reader it (Some e)) items
      (concat (map (fun u => sig_write_bytes u false) us) ++ rest) = Ok (us', rest) /\
    Forall2 same_proof us us'.
Proof.
  intros H. induction H as [|it e' u items es us (He & Hwe & Hr) _ IH]; intros Hes; [by exists []|].
  apply Forall_cons in Hes as [-> Hes]. destruct (IH Hes) as (us' & E & Hs).
  cbn [map concat mapM_st]. rewrite <- app_assoc.
  destruct (Hr (concat (map (fun u => sig_write_bytes u false) us) ++ rest)) as [(u' & Eu & Hu) _].
  exists (u' :: us'). unfold mbind, stateE_bind in *. rewrite Eu, E. by split; [|constructor].
Qed.

(** The local loop of [sig_write_bytes] at an OR. *)
Fixpoint write_or (children : list UncheckedTree) : list Z :=
  match children with
  | [] => []
  | [last] => sig_write_bytes last false
  | child :: children => sig_write_bytes child true ++ write_or children
  end.

Lemma parse_or items es us : forall e rest,
  Forall3 reads_back items es us -> items <> [] -> challenge_sum es = e ->
  exists us', parse_cor parse_sig_compute_challenges_reader e items (write_or us ++ rest) = Ok (us', rest) /\
    Forall2 same_proof us us'.
Proof.
  intros e rest H. revert e. induction H as [|it e1 u items es us (He & Hwe & Hr) Hrest IH]; intros e Hne Hsum; [done|].
  destruct Hrest as [|it2 e2 u2 items es us H2 Hrest].
  - cbn [write_or parse_cor]. change (challenge_xor e1 challenge_zero = e) in Hsum.
    rewrite challenge_xor_zero in Hsum by done. rewrite Hsum in Hr.
    destruct (Hr rest) as [(u' & Eu & Hu) _]. exists [u'].
    unfold mbind, stateE_bind. rewrite Eu. split; [done|]. by constructor.
  - change (write_or (u :: u2 :: us)) with (sig_write_bytes u true ++ write_or (u2 :: us)).
    rewrite <- app_assoc. destruct (Hr (write_or (u2 :: us) ++ rest)) as [_ (u' & Eu & Hu)].
    assert (Forall challenge_wf (e2 :: es)) as Hws.
    { constructor; [by destruct H2 as (_ & ? & _)|]. clear - Hrest.
      induction Hrest as [|? ? ? ? ? ? (_ & ? & _)]; by constructor. }
    destruct (IH (challenge_sum (e2 :: es))) as (us' & E & Hs); [done|done|].
    exists (u' :: us'). change (parse_cor ?p e (it :: it2 :: items)) with
      (c ← p it None; cs ← parse_cor p (challenge_xor e (unchecked_challenge c)) (it2 :: items); mret (c :: cs)).
    unfold mbind, stateE_bind in *. rewrite Eu. destruct Hu as [Hu1 Hu2]. rewrite Hu2, He, <- Hsum.
    change (challenge_sum (e1 :: e2 :: es)) with (challenge_xor e1 (challenge_sum (e2 :: es))).
    pose proof (challenge_sum_wf _ Hws) as Hw2.
    rewrite (challenge_xor_comm e1), <- challenge_xor_assoc, challenge_xor_self, challenge_xor_zero by done.
    rewrite E. split; [done|]. by constructor.
Qed.

Lemma parse_threshold_ok q idx items es us rest :
  Forall3 reads_back items es us -> (idx + length items <= 255)%nat ->
  es = map (fun j => challenge_of_gf (evaluate q (Z.of_nat j + 1))) (seq idx (length es)) ->
  exists us', parse_threshold parse_sig_compute_challenges_reader q idx items
      (concat (map (fun u => sig_write_bytes u false) us) ++ rest) = Ok (us', rest) /\
    Forall2 same_proof us us'.
Proof.
  intros H. revert idx. induction H as [|it e u items es us (He & Hwe & Hr) _ IH]; intros idx Hl Hes; [by exists []|].
  cbn [length seq map] in Hl, Hes. injection Hes as He' Hes.
  destruct (IH (S idx)) as (us' & E & Hs); [lia|done|].
  cbn [map concat parse_threshold]. rewrite <- app_assoc.
  rewrite wrap_u_id by (unfold in_u; lia). rewrite <- He'.
  destruct (Hr (concat (map (fun u => sig_write_bytes u false) us) ++ rest)) as [(u' & Eu & Hu) _].
  exists (u' :: us'). unfold mbind, stateE_bind in *. rewrite Eu, E. by split; [|constructor].
Qed.

Lemma same_proof_conj kind e us us' :
  Forall2 same_proof us us' -> same_proof (UncheckedConjecture kind e us) (UncheckedConjecture kind e us').
Proof.
  intros H. split; [|done]. cbn [compute_commitments]. f_equal.
  induction H as [|u u' us us' [Hu _] _ IH]; [done|]. cbn [map]. by rewrite Hu, IH.
Qed.

(** ** A whole proof *)

Lemma forall3_length {A B D} (P : A -> B -> D -> Prop) l k m :
  Forall3 P l k m -> length l = length k.
Proof. induction 1; cbn; by f_equal. Qed.

Lemma proven_reads_back sb e u : well_formed sb -> proven sb e u -> reads_back sb e u.
Proof.
  revert e u. induction sb as [b|p|c items IH] using SigmaBoolean_ind'; intros e u Hwf Hp; [inversion Hwf| |].
  - inversion Hp as [h a e' z Hwe|[g h v w] a e' z Hwe|]; subst; apply reads_back_intro; try done;
      intros rest; eexists; cbn [sig_write_bytes parse_sig_compute_challenges_reader dht_pok];
      unfold mbind, stateE_bind, mret, stateE_ret; cbn [app us_second_message ud_second_message];
      rewrite read_scalar_app; (split; [reflexivity|done]).
  - inversion Hp as [| |c' items' e' es q kind us Hwe H3 Hok Hkind]; subst.
    assert (Forall3 reads_back items es us) as Hus.
    { pose proof (well_formed_items _ _ Hwf) as Hws. clear - IH H3 Hws.
      induction H3; [constructor|]. apply Forall_cons in IH as [H1 H2], Hws as [W1 W2]. constructor; auto. }
    apply reads_back_intro; [done..|]. intros rest.
    destruct c as [| |k]; cbn [chal_ok unchecked_kind_with] in *; simplify_eq.
    + destruct (parse_and e items es us rest Hus Hok) as (us' & E & Hs).
      exists (UncheckedConjecture CandUnchecked e us'). split; [|by apply same_proof_conj].
      cbn [parse_sig_compute_challenges_reader sig_write_bytes app].
      unfold mbind, stateE_bind, mret, stateE_ret in *. by rewrite E.
    + destruct (parse_or items es us (challenge_sum es) rest Hus) as (us' & E & Hs); [by inversion Hwf|done|].
      exists (UncheckedConjecture CorUnchecked (challenge_sum es) us'). split; [|by apply same_proof_conj].
      cbn [parse_sig_compute_challenges_reader sig_write_bytes app].
      change (_ us ++ rest) with (write_or us ++ rest).
      unfold mbind, stateE_bind, mret, stateE_ret in *. by rewrite E.
    + destruct Hok as (p & -> & (Hd & Hr & H0) & Hes). cbn in Hkind. injection Hkind as <-.
      rewrite <- (forall3_length _ _ _ _ Hus) in Hd.
      destruct (parse_threshold_ok p 0 items es us rest Hus) as (us' & E & Hs); [by inversion Hwf|done|].
      exists (UncheckedConjecture (CthresholdUnchecked k p) e us'). split; [|by apply same_proof_conj].
      cbn [parse_sig_compute_challenges_reader sig_write_bytes app]. rewrite <- app_assoc.
      unfold mbind, stateE_bind, mret, stateE_ret, liftE in *. cbn beta iota.
      destruct (Z.ltb_spec (Z.of_nat (length items) - k) 0); [lia|].
      unfold poly_bytes. rewrite poly_to_bytes_eq.
      rewrite read_up_to_app by (rewrite length_segments; unfold SOUNDNESS_BYTES; lia).
      unfold gf2_192poly_from_byte_array. rewrite <- H0, poly_from_segments by done.
      cbn [result_map_err]. by rewrite E.
Qed.
End reading.

(** C19: reading the bytes of a proof tree whose challenges agree with its
    proposition gives the tree back, with the challenges that are not written recomputed, up to
    the commitments, which are not written either; bytes after the proof are left alone. *)
Theorem signature_roundtrip `{C : SigmaCrypto} `{L : !SigmaCryptoLaws C} sb e u extra :
  well_formed sb -> proven sb e u ->
  exists u', parse_sig_compute_challenges sb (proof_to_bytes (serialize_sig u) ++ extra) = Ok u' /\
    unchecked_challenge u' = e /\ compute_commitments u' = compute_commitments u.
Proof.
  intros Hwf Hu. destruct (proven_reads_back sb e u Hwf Hu) as (He & [_ Hl] & Hr).
  destruct (Hr extra) as [_ (u' & Eu' & Hs1 & Hs2)]. exists u'. split; [|by rewrite Hs2].
  unfold parse_sig_compute_challenges, serialize_sig, proof_to_bytes. rewrite Eu'.
  rewrite sig_write_true, He in *. by destruct e.
Qed.

(** * The prover and the verifier together *)

Section completeness.
Context `{C : SigmaCrypto} `{L : !SigmaCryptoLaws C} (secrets : list PrivateInput).

(** The prover's run on a proposition its secrets prove. *)
Lemma prove_ok sb message r :
  well_formed sb -> Forall secret_wf secrets -> holds (known secrets) sb = true ->
  exists t u s r', convert_to_unproven sb = Ok t /\
    prove_to_unchecked secrets t message hints_empty r = Ok (u, r') /\
    proven sb (fiat_shamir_hash_fn (s ++ message)) u /\
    fs_unchecked (compute_commitments u) = Ok s.
Proof.
  intros Hwf Hsec Hh. destruct (mark_real_ok secrets sb Hwf) as (t & Ht & Hm).
  destruct (polish_marked secrets sb r Hwf Hh) as (u3 & r3 & E3 & Hp & Hi).
  destruct (simulate_and_commit_ok secrets sb u3 r3 Hwf Hp Hi) as (v & r6 & E6 & Hc & Hs).
  destruct (committed_fs secrets sb (PUnproven v) Hc) as [s Es].
  set (e := fiat_shamir_hash_fn (s ++ message)).
  assert (challenge_wf e) as Hwe by apply fiat_shamir_hash_wf.
  pose proof (committed_with_challenge secrets sb (PUnproven v) e Hc Hs) as Hc8. cbn [with_challenge] in Hc8.
  assert (unproven_challenge (unproven_with_challenge v e) = Some e) as He by apply challenge_with_challenge.
  destruct (respond_td secrets sb (S (sb_depth sb)) (PUnproven (unproven_with_challenge v e)) e r6)
    as (t9 & r9 & E9 & u & Eu & Hu & Hf); try done; [lia|].
  exists t, u, s, r9. split; [done|]. split; [|split; [done|]].
  - unfold prove_to_unchecked, mbind, stateE_bind, liftE in *. rewrite Hm. unfold is_real.
    rewrite (marked_simulated secrets sb Hwf), Hh. cbn [negb]. rewrite E3, E6, Es. cbn [result_map_err].
    fold e. unfold proving. rewrite (committed_depth secrets sb _ Hc8), E9, Eu. done.
  - rewrite Hf, <- Es. by apply (fs_with_challenge (PUnproven v)).
Qed.

Lemma complete_proof sb message r extra :
  well_formed sb -> Forall secret_wf secrets -> holds (known secrets) sb = true ->
  exists p r', generate_proof secrets sb message hints_empty r = Ok (ProofSome p, r') /\
    verify_signature sb message (p ++ extra) = Ok true.
Proof.
  intros Hwf Hsec Hh. destruct (prove_ok sb message r Hwf Hsec Hh) as (t & u & s & r' & Ht & Eu & Hu & Hf).
  destruct (proven_reads_back sb _ u Hwf Hu) as (He & Hwe & Hr).
  destruct (Hr extra) as [_ (u' & Eu' & Hs1 & Hs2)].
  exists (sig_write_bytes u true), r'. split.
  - destruct Hwf; cbn [generate_proof]; unfold mbind, stateE_bind, liftE in *; by rewrite Ht, Eu.
  - assert (exists b bs, sig_write_bytes u true ++ extra = b :: bs) as (b & bs & Ebs).
    { rewrite sig_write_true, He. destruct Hwe as [_ Hl]. destruct (fiat_shamir_hash_fn _); [done|]. by eexists _, _. }
    assert (parse_sig_compute_challenges sb (b :: bs) = Ok u') as Hparse.
    { unfold parse_sig_compute_challenges. rewrite <- Ebs, Eu'. done. }
    assert (check_commitments u' message = Ok true) as Hcheck.
    { unfold check_commitments. cbn [fs_tree]. rewrite Hs1, Hf. cbn [result_map_err mbind result_bind].
      rewrite <- Hs1, compute_commitments_challenge, Hs2, He. by rewrite bool_decide_true. }
    rewrite Ebs. destruct Hwf; cbn [verify_signature]; unfold mbind, result_bind; by rewrite Hparse.
Qed.

(** C1: the sigma protocol is complete. For a proposition of any shape without
    trivial propositions inside, without two equal children of an OR and with thresholds of at
    most 255 children, a prover whose secrets prove it produces a proof, whatever the random
    numbers, and the verifier accepts that proof for the same message; bytes after the proof's
    end do not matter. *)
Theorem proof_verifies sb message r extra :
  well_formed sb -> Forall secret_wf secrets -> holds (known secrets) sb = true ->
  exists p r', generate_proof secrets sb message hints_empty r = Ok (ProofSome p, r') /\
    verify_signature sb message (p ++ extra) = Ok true.
Proof. apply complete_proof. Qed.

Lemma unprovable_error sb message r :
  well_formed sb -> holds (known secrets) sb = false ->
  generate_proof secrets sb message hints_empty r = Err TreeRootIsNotReal.
Proof.
  intros Hwf Hh. destruct (mark_real_ok secrets sb Hwf) as (t & Ht & Hm).
  assert (prove_to_unchecked secrets t message hints_empty r = Err TreeRootIsNotReal) as E.
  { unfold prove_to_unchecked, mbind, stateE_bind, liftE. rewrite Hm. unfold is_real.
    by rewrite (marked_simulated secrets sb Hwf), Hh. }
  destruct Hwf; cbn [generate_proof]; unfold mbind, stateE_bind, liftE in *; by rewrite Ht, E.
Qed.

(** A prover whose secrets do not prove the proposition gives an error, not
    a proof. *)
Theorem unprovable_refused sb message r :
  well_formed sb -> holds (known secrets) sb = false ->
  generate_proof secrets sb message hints_empty r = Err TreeRootIsNotReal.
Proof. apply unprovable_error. Qed.
End completeness.

(** ** Equal children of an OR *)

(** The hypothesis on equal children is needed. The code tells the first real
    child of an OR from the others by equality of the trees, so that of two equal real children
    none is given up, both stay real. *)
Theorem or_twins_stay_real `{C : SigmaCrypto} c :
  is_real c = true ->
  make_cor_children_simulated [PUnproven c; PUnproven c] = Ok [PUnproven c; PUnproven c].
Proof.
  intros Hr. unfold make_cor_children_simulated, mbind, result_bind. cbn.
  rewrite Hr. cbn. by rewrite bool_decide_true.
Qed.

(** * At concrete inputs *)

(** A prover with one secret for each leaf protocol, and propositions over its statements. *)
Section concrete.
#[local] Existing Instance concrete_crypto.

Definition some_dlog (n : Z) : SigmaProofOfKnowledgeTree := ProveDlog (exponentiate_gen (toF n)).
Definition some_dht : DhTuple := mkDht (toF 3) (toF 7) (exponentiate (toF 3) (toF 11)) (exponentiate (toF 7) (toF 11)).
Definition some_secrets : list PrivateInput :=
  [PrivateDlog (dlog_input_new (toF 5)); PrivateDht (mkDhtInput (toF 11) some_dht)].

(** Two of: the prover's discrete logarithm, a stranger's, and an OR of a stranger's with the
    prover's tuple. *)
Definition some_proposition : SigmaBoolean :=
  SigmaConjecture (Cthreshold 2)
    [ProofOfKnowledge (some_dlog 5); ProofOfKnowledge (some_dlog 6);
     SigmaConjecture Cor [ProofOfKnowledge (some_dlog 8); ProofOfKnowledge (dht_pok some_dht)]].

Lemma some_proposition_wf : well_formed some_proposition.
Proof.
  constructor; [|cbn; lia|cbn; lia].
  constructor; [constructor|constructor; [constructor|constructor; [|constructor]]].
  constructor; [repeat constructor|done|]. apply (bool_decide_unpack _). vm_compute. exact I.
Qed.

Lemma some_secrets_wf : Forall secret_wf some_secrets.
Proof. by repeat constructor. Qed.

Lemma proof_verifies_witness :
  (well_formed some_proposition /\ holds (known some_secrets) some_proposition = true) /\
  exists p r', generate_proof some_secrets some_proposition [1; 2; 3] hints_empty 42 = Ok (ProofSome p, r') /\
    verify_signature some_proposition [1; 2; 3] (p ++ [7]) = Ok true.
Proof.
  split; [split; [exact some_proposition_wf|vm_compute; reflexivity]|].
  apply (proof_verifies some_secrets some_proposition [1; 2; 3] 42 [7]).
  - exact some_proposition_wf.
  - exact some_secrets_wf.
  - vm_compute. reflexivity.
Defined.

Lemma signature_roundtrip_witness :
  let u := UncheckedConjecture CorUnchecked (challenge_xor (replicate 24 1) (replicate 24 2))
    [UncheckedSchnorrLeaf (mkUncheckedSchnorr (toF 5) None (replicate 24 1) (toF 1));
     UncheckedDhTupleLeaf (mkUncheckedDhTuple some_dht None (replicate 24 2) (toF 1))] in
  exists u', parse_sig_compute_challenges
      (SigmaConjecture Cor [ProofOfKnowledge (ProveDlog (toF 5)); ProofOfKnowledge (dht_pok some_dht)])
      (proof_to_bytes (serialize_sig u) ++ [9]) = Ok u' /\
    unchecked_challenge u' = challenge_xor (replicate 24 1) (replicate 24 2) /\
    compute_commitments u' = compute_commitments u.
Proof.
  intros u.
  assert (forall b, in_u 8 b -> challenge_wf (replicate 24 b)) as Hw
    by (intros b Hb; split; [by apply Forall_replicate|reflexivity]).
  apply (signature_roundtrip _ (challenge_xor (replicate 24 1) (replicate 24 2))).
  - constructor; [repeat constructor|done|]. apply (bool_decide_unpack _). vm_compute. exact I.
  - apply (proven_conj Cor _ _ [replicate 24 1; replicate 24 2] None).
    + apply challenge_xor_wf; apply Hw; unfold in_u; lia.
    + constructor; [apply proven_dlog; apply Hw; unfold in_u; lia|].
      constructor; [apply proven_dht; apply Hw; unfold in_u; lia|constructor].
    + vm_compute. reflexivity.
    + reflexivity.
Defined.

Lemma unprovable_refused_witness :
  well_formed some_proposition /\
  generate_proof [] some_proposition [1; 2; 3] hints_empty 42 = Err TreeRootIsNotReal.
Proof.
  split; [exact some_proposition_wf|].
  apply (unprovable_refused [] some_proposition [1; 2; 3] 42).
  - exact some_proposition_wf.
  - vm_compute. reflexivity.
Defined.

Lemma or_twins_stay_real_witness :
  let c := UnprovenLeaf (leaf_of (some_dlog 5)) new_info in
  is_real c = true /\
  make_cor_children_simulated [PUnproven c; PUnproven c] = Ok [PUnproven c; PUnproven c].
Proof.
  intros c. split; [reflexivity|]. apply (or_twins_stay_real c). reflexivity.
Defined.

(** The prover's proof of such an OR, which the verifier does not accept. *)
Definition twins : SigmaBoolean :=
  SigmaConjecture Cor [ProofOfKnowledge (some_dlog 5); ProofOfKnowledge (some_dlog 5)].

Lemma twins_unverified :
  match generate_proof some_secrets twins [1; 2; 3] hints_empty 42 with
  | Ok (ProofSome p, _) =>
      match verify_signature twins [1; 2; 3] p with Ok b => negb b | Err _ => false end
  | _ => false
  end = true.
Proof. vm_compute. reflexivity. Qed.
End concrete.
