(* ===== verification/SigmaSound.v ===== *)
(** What an accepted proof is: the challenges of its tree agree with the proposition and its root
    is the hash of the recomputed commitments; and special soundness, that two such trees with
    the same commitments and different root challenges answer both challenges at leaves that
    satisfy the proposition. *)

From S2P Require Import Prelude Gf2Field Gf2_192 Gf2_192Poly SigmaBoolean ProofTree Prover.
From S2P Require Import SigSerializer Verifier ConcreteCrypto SigmaSteps SigmaCommit.

#[local] Arguments challenge_xor : simpl never.
#[local] Arguments challenge_of_gf : simpl never.
#[local] Arguments gf_of_challenge : simpl never.
#[local] Arguments evaluate : simpl never.

Section soundness.
Context `{C : SigmaCrypto}.
#[local] Notation sig_reader := (stateE (list Z) SigParsingError).

(** The challenges [es] of the children of a conjecture at challenge [e]: equal to it under an
    AND, with it for XOR under an OR, and the values at 1, 2, ... of a polynomial of degree at
    most [n - k] with it for value at zero under a threshold [k] of [n]. *)
Definition agree (c : conjecture) (n : nat) (e : Challenge) (es : list Challenge) (kind : unchecked_kind) : Prop :=
  match c with
  | Cand => kind = CandUnchecked /\ Forall (fun e' => e' = e) es
  | Cor => kind = CorUnchecked /\ es <> [] /\ challenge_sum es = e
  | Cthreshold k => exists p, kind = CthresholdUnchecked k p /\
      Z.of_nat (degree p) <= Z.of_nat n - k /\ poly_room (degree p) p /\
      coefficients p !!! 0%nat = gf_of_challenge e /\
      es = map (fun j => challenge_of_gf (evaluate p (wrap_u 8 (Z.of_nat j + 1)))) (seq 0 n)
  end.

Inductive agreeing : SigmaBoolean -> Challenge -> UncheckedTree -> Prop :=
| agreeing_dlog h a e z :
    challenge_wf e ->
    agreeing (ProofOfKnowledge (ProveDlog h)) e (UncheckedSchnorrLeaf (mkUncheckedSchnorr h a e z))
| agreeing_dht d a e z :
    challenge_wf e ->
    agreeing (ProofOfKnowledge (dht_pok d)) e (UncheckedDhTupleLeaf (mkUncheckedDhTuple d a e z))
| agreeing_conj c items e es kind us :
    challenge_wf e -> Forall3 agreeing items es us -> agree c (length items) e es kind ->
    agreeing (SigmaConjecture c items) e (UncheckedConjecture kind e us).

Lemma agreeing_wf sb e u : agreeing sb e u -> challenge_wf e /\ unchecked_challenge u = e.
Proof. by destruct 1. Qed.

Lemma agreeing_all_wf items es us : Forall3 agreeing items es us -> Forall challenge_wf es.
Proof. induction 1 as [|it e u items es us H]; constructor; [by apply agreeing_wf in H as [? _]|done]. Qed.

(** ** What the reader makes of any bytes *)

(** A reader that keeps to bytes, and what it gives where a challenge may be given. *)
Definition sound_reader (it : SigmaBoolean) (parse : option Challenge -> sig_reader UncheckedTree) : Prop :=
  forall eo s u rest, byte_list s -> (forall e, eo = Some e -> challenge_wf e) ->
    parse eo s = Ok (u, rest) ->
    byte_list rest /\ agreeing it (unchecked_challenge u) u /\
    (forall e, eo = Some e -> unchecked_challenge u = e).

Lemma read_up_to_bytes n s a rest :
  byte_list s -> read_up_to n s = Ok (a, rest) -> byte_list rest /\ (length a <= n)%nat.
Proof.
  intros Hs. unfold read_up_to. intros [= <- <-]. split; [by apply Forall_drop|].
  rewrite length_take. lia.
Qed.

Lemma read_scalar_bytes s z rest : byte_list s -> read_scalar s = Ok (z, rest) -> byte_list rest.
Proof.
  intros Hs H. unfold read_scalar in H. st_inv H. by apply (read_up_to_bytes _ _ _ _ Hs) in Ha as [? _].
Qed.

Lemma read_exact_bytes e s a rest :
  byte_list s -> read_exact SOUNDNESS_BYTES e s = Ok (a, rest) -> byte_list rest /\ challenge_wf a.
Proof.
  intros Hs. unfold read_exact. destruct (Nat.ltb_spec (length s) SOUNDNESS_BYTES); [done|].
  intros [= <- <-]. split; [by apply Forall_drop|]. split; [by apply Forall_take|].
  rewrite length_take. lia.
Qed.

(** The challenge, given or read, and the rest of the reader's run. *)
Lemma given_challenge sb eo s u rest :
  byte_list s -> (forall e, eo = Some e -> challenge_wf e) ->
  parse_sig_compute_challenges_reader sb eo s = Ok (u, rest) ->
  exists e s1, byte_list s1 /\ challenge_wf e /\ (forall e', eo = Some e' -> e = e') /\
    parse_sig_compute_challenges_reader sb (Some e) s1 = Ok (u, rest).
Proof.
  intros Hs He H. destruct eo as [e|].
  - exists e, s. split; [done|]. split; [by apply He|]. split; [by intros ? [= <-]|done].
  - assert (exists e s1, read_exact SOUNDNESS_BYTES (ChallengeRead sb) s = Ok (e, s1)) as (e & s1 & E).
    { destruct sb; cbn [parse_sig_compute_challenges_reader] in H;
        apply st_bind_Ok in H as (e & s1 & E & _); by exists e, s1. }
    destruct (read_exact_bytes _ _ _ _ Hs E) as [Hs1 Hwe]. exists e, s1.
    split; [done|]. split; [done|]. split; [done|].
    destruct sb; cbn [parse_sig_compute_challenges_reader] in *;
      apply st_bind_Ok in H as (e' & s1' & E' & H); rewrite E in E'; injection E' as <- <-; exact H.
Qed.

Lemma parse_and_sound parse e items : forall s us rest,
  Forall (fun it => sound_reader it (parse it)) items -> challenge_wf e -> byte_list s ->
  mapM_st (fun it => parse it (Some e)) items s = Ok (us, rest) ->
  byte_list rest /\ exists es, Forall3 agreeing items es us /\ Forall (fun e' => e' = e) es.
Proof.
  induction items as [|it items IH]; intros s us rest Hp He Hs H.
  - injection H as <- <-. split; [done|]. exists []. by split; constructor.
  - cbn [mapM_st] in H. apply Forall_cons in Hp as [H1 H2]. st_inv H.
    destruct (H1 (Some e) s a s0 Hs) as (Hs0 & Ha1 & Ha2); [by intros ? [= <-]|done|].
    destruct (IH s0 a0 s1 H2 He Hs0 Ha0) as (Hs1 & es & Hes & Hall). split; [done|].
    exists (unchecked_challenge a :: es). split; constructor; try done. by apply Ha2.
Qed.

Lemma parse_or_sound parse items : forall e s us rest,
  Forall (fun it => sound_reader it (parse it)) items -> challenge_wf e -> byte_list s ->
  parse_cor parse e items s = Ok (us, rest) ->
  byte_list rest /\ exists es, Forall3 agreeing items es us /\ es <> [] /\ challenge_sum es = e.
Proof.
  induction items as [|it items IH]; intros e s us rest Hp He Hs H; [done|].
  apply Forall_cons in Hp as [H1 H2]. destruct items as [|it2 items].
  - cbn [parse_cor] in H. st_inv H.
    destruct (H1 (Some e) s a s0 Hs) as (Hs0 & Ha1 & Ha2); [by intros ? [= <-]|done|].
    split; [done|]. exists [e]. rewrite (Ha2 e eq_refl) in Ha1. split; [by repeat constructor|].
    split; [done|]. by apply challenge_xor_zero.
  - change (parse_cor parse e (it :: it2 :: items)) with
      (c ← parse it None; cs ← parse_cor parse (challenge_xor e (unchecked_challenge c)) (it2 :: items); mret (c :: cs)) in H.
    apply st_bind_Ok in H as (u & s0 & Ha & H).
    apply st_bind_Ok in H as (us0 & s1 & Hb & H). st_inv H.
    destruct (H1 None s u s0 Hs) as (Hs0 & Ha1 & _); [done|done|].
    pose proof (proj1 (agreeing_wf _ _ _ Ha1)) as Hwu.
    destruct (IH (challenge_xor e (unchecked_challenge u)) s0 us0 s1 H2) as (Hs1 & es & Hes & Hne & Hsum);
      [by apply challenge_xor_wf|done|done|].
    split; [done|]. exists (unchecked_challenge u :: es). split; [by constructor|]. split; [done|].
    change (challenge_xor (unchecked_challenge u) (challenge_sum es) = e). rewrite Hsum.
    rewrite (challenge_xor_comm e), challenge_xor_assoc, challenge_xor_self, challenge_xor_comm by done.
    by apply challenge_xor_zero.
Qed.

Lemma parse_threshold_sound parse p items : forall idx s us rest,
  Forall (fun it => sound_reader it (parse it)) items -> byte_list s ->
  parse_threshold parse p idx items s = Ok (us, rest) ->
  byte_list rest /\
  Forall3 agreeing items
    (map (fun j => challenge_of_gf (evaluate p (wrap_u 8 (Z.of_nat j + 1)))) (seq idx (length items))) us.
Proof.
  induction items as [|it items IH]; intros idx s us rest Hp Hs H.
  - injection H as <- <-. split; [done|]. constructor.
  - cbn [parse_threshold] in H. apply Forall_cons in Hp as [H1 H2]. st_inv H.
    destruct (H1 (Some (challenge_of_gf (evaluate p (wrap_u 8 (Z.of_nat idx + 1))))) s a s0 Hs)
      as (Hs0 & Ha1 & Ha2); [intros ? [= <-]; apply challenge_of_gf_wf|done|].
    destruct (IH (S idx) s0 a0 s1 H2 Hs0 Ha0) as (Hs1 & Hes). split; [done|].
    cbn [length seq map]. constructor; [|done]. by rewrite (Ha2 _ eq_refl) in Ha1.
Qed.

Lemma parse_sound sb : sound_reader sb (parse_sig_compute_challenges_reader sb).
Proof.
  induction sb as [b|p|c items IH] using SigmaBoolean_ind'; intros eo s u rest Hs He H.
  - destruct eo; cbn [parse_sig_compute_challenges_reader] in H; by st_inv H.
  - assert (exists e s1, byte_list s1 /\ challenge_wf e /\ (forall e', eo = Some e' -> e = e') /\
      parse_sig_compute_challenges_reader (ProofOfKnowledge p) (Some e) s1 = Ok (u, rest))
      as (e & s1 & Hs1 & Hwe & Heq & H1).
    { by apply (given_challenge _ eo s u rest). }
    clear H. cbn [parse_sig_compute_challenges_reader] in H1. destruct p as [g h v w|h]; st_inv H1.
    all: injection Ha as <- <-; apply read_scalar_bytes in Ha0 as Hr; [|done].
    all: split; [done|]; split; [|done].
    + by apply (agreeing_dht (mkDht g h v w)).
    + by constructor.
  - assert (exists e s1, byte_list s1 /\ challenge_wf e /\ (forall e', eo = Some e' -> e = e') /\
      parse_sig_compute_challenges_reader (SigmaConjecture c items) (Some e) s1 = Ok (u, rest))
      as (e & s1 & Hs1 & Hwe & Heq & H1).
    { by apply (given_challenge _ eo s u rest). }
    clear H. cbn [parse_sig_compute_challenges_reader] in H1. destruct c as [| |k].
    + st_inv H1. injection Ha as <- <-.
      destruct (parse_and_sound _ e items s1 a0 s2 IH Hwe Hs1 Ha0) as (Hr & es & Hes & Hall).
      split; [done|]. split; [|done]. econstructor; [done|exact Hes|done].
    + st_inv H1. injection Ha as <- <-.
      destruct (parse_or_sound _ items e s1 a0 s2 IH Hwe Hs1 Ha0) as (Hr & es & Hes & Hne & Hsum).
      split; [done|]. split; [|done]. econstructor; [done|exact Hes|done].
    + apply st_bind_Ok in H1 as (e0 & s2 & [= <- <-] & H1).
      destruct (Z.ltb_spec (Z.of_nat (length items) - k) 0); [done|]. st_inv H1.
      destruct (read_up_to_bytes _ _ _ _ Hs1 Ha) as [Hb Hl].
      apply liftE_Ok in Ha0 as [Hp ->].
      destruct (poly_try_from_room (gf_to_bytes (gf_of_challenge e)) a) as (q & Eq & Hd & Hr & H0).
      unfold gf2_192poly_from_byte_array in Hp. rewrite Eq in Hp. injection Hp as <-.
      destruct (parse_threshold_sound _ q items 0 s0 a1 s3 IH Hb Ha1) as (Hr3 & Hes).
      split; [done|]. split; [|done]. econstructor; [done|exact Hes|].
      exists q. split; [done|]. split.
      { rewrite Hd. unfold SOUNDNESS_BYTES in Hl.
        assert (length a / 24 <= Z.to_nat (Z.of_nat (length items) - k))%nat; [|lia].
        apply Nat.Div0.div_le_upper_bound. lia. }
      split; [done|]. split; [|done]. rewrite H0.
      pose proof (challenge_gf_roundtrip e Hwe) as Hrt. unfold challenge_of_gf in Hrt. by rewrite Hrt.
Qed.

(** ** Two trees with different root challenges *)

(** Does the fork of two proof trees of a proposition answer it: is it satisfied when a leaf
    holds where its two challenges differ? *)
Fixpoint forks (sb : SigmaBoolean) (u u' : UncheckedTree) : bool :=
  match sb, u, u' with
  | SigmaConjecture c items, UncheckedConjecture _ _ us, UncheckedConjecture _ _ us' =>
      holds_conj c (map3 forks items us us')
  | _, _, _ => negb (bool_decide (unchecked_challenge u = unchecked_challenge u'))
  end.

(** Every threshold has at most 255 children. *)
Fixpoint small_thresholds (sb : SigmaBoolean) : bool :=
  match sb with
  | SigmaConjecture c items =>
      match c with Cthreshold _ => (length items <=? 255)%nat | _ => true end &&
      forallb small_thresholds items
  | _ => true
  end.

Definition fork_at (e e' : Challenge) (d : bool) : Prop := e <> e' -> d = true.

Lemma fork_and e e' es es' ds :
  e <> e' -> Forall (fun c => c = e) es -> Forall (fun c => c = e') es' -> Forall3 fork_at es es' ds ->
  forallb id ds = true.
Proof.
  intros Hne H1 H2 H. induction H as [|c c' d es es' ds Hd _ IH]; [done|].
  apply Forall_cons in H1 as [-> H1], H2 as [-> H2]. cbn [forallb]. rewrite (Hd Hne). by apply IH.
Qed.

Lemma fork_or es es' ds :
  challenge_sum es <> challenge_sum es' -> Forall3 fork_at es es' ds -> existsb id ds = true.
Proof.
  intros Hne H. induction H as [|c c' d es es' ds Hd _ IH]; [done|]. cbn [existsb].
  destruct (decide (c = c')) as [->|Hc]; [|by rewrite (Hd Hc)].
  rewrite IH; [by rewrite orb_true_r|]. intros E. apply Hne.
  exact (f_equal (challenge_xor c') E).
Qed.

Lemma challenge_of_gf_inj a b : gf_wf a -> gf_wf b -> challenge_of_gf a = challenge_of_gf b -> a = b.
Proof.
  intros Ha Hb E. unfold challenge_of_gf in E. apply (f_equal gf_from_bytes) in E.
  by rewrite !gf_from_to_bytes in E.
Qed.

(** The children whose challenges agree are no more than the other flags leave. *)
Lemma fork_count (g g' : nat -> Challenge) js ds :
  Forall3 fork_at (map g js) (map g' js) ds ->
  Z.of_nat (length js) <= Z.of_nat (length (filter (fun j => g j = g' j) js)) + count_true ds.
Proof.
  remember (map g js) as es eqn:E. remember (map g' js) as es' eqn:E'. intros H. revert js E E'.
  induction H as [|c c' d es es' ds Hd _ IH]; intros [|j js]; cbn [map]; try done.
  intros [= -> ->] [= -> ->]. specialize (IH js eq_refl eq_refl). rewrite count_true_cons.
  rewrite filter_cons. cbn [length]. case_decide as Hj; cbn [length].
  - destruct d; lia.
  - rewrite (Hd Hj). lia.
Qed.

Lemma fork_threshold k n e e' p p' ds :
  (n <= 255)%nat -> e <> e' -> challenge_wf e -> challenge_wf e' ->
  Z.of_nat (degree p) <= Z.of_nat n - k -> poly_room (degree p) p ->
  coefficients p !!! 0%nat = gf_of_challenge e ->
  Z.of_nat (degree p') <= Z.of_nat n - k -> poly_room (degree p') p' ->
  coefficients p' !!! 0%nat = gf_of_challenge e' ->
  Forall3 fork_at (map (fun j => challenge_of_gf (evaluate p (wrap_u 8 (Z.of_nat j + 1)))) (seq 0 n))
    (map (fun j => challenge_of_gf (evaluate p' (wrap_u 8 (Z.of_nat j + 1)))) (seq 0 n)) ds ->
  (k <=? count_true ds) = true.
Proof.
  intros Hn Hne Hwe Hwe' Hd Hr H0 Hd' Hr' H0' H. apply fork_count in H. rewrite length_seq in H.
  apply Z.leb_le. destruct (Z.le_gt_cases k (count_true ds)) as [Hk|Hk]; [done|exfalso]. apply Hne.
  set (js := filter _ (seq 0 n)) in H.
  assert (coefficients p !!! 0%nat = coefficients p' !!! 0%nat) as E.
  { apply (poly_agree (Z.to_nat (Z.of_nat n - k)) p p' (map (fun j => Z.of_nat j + 1) js)); try done; try lia.
    - apply NoDup_fmap_2; [intros a b; lia|]. apply NoDup_filter, NoDup_seq.
    - apply Forall_map, Forall_forall. intros j [_ Hj]%list_elem_of_filter.
      apply elem_of_seq in Hj. unfold in_u. lia.
    - rewrite length_map. lia.
    - apply Forall_map, Forall_forall. intros j [Hj Hin]%list_elem_of_filter. apply elem_of_seq in Hin.
      rewrite wrap_u_id in Hj by (unfold in_u; lia).
      apply challenge_of_gf_inj; [by eapply evaluate_wf..|done]. }
  rewrite H0, H0' in E. rewrite <- (challenge_gf_roundtrip e Hwe), <- (challenge_gf_roundtrip e' Hwe').
  by rewrite E.
Qed.

(** C3: two proof trees of the same proposition whose challenges agree with it, as
    the verifier's reader makes sure, and whose root challenges differ, have different challenges
    at leaves that together satisfy the proposition: all children of an AND, one of an OR, [k] of
    a threshold [k]. *)
Theorem special_soundness sb e e' u u' :
  small_thresholds sb = true -> agreeing sb e u -> agreeing sb e' u' -> e <> e' ->
  forks sb u u' = true.
Proof.
  revert e e' u u'. induction sb as [b|p|c items IH] using SigmaBoolean_ind'; intros e e' u u' Hs H H' Hne;
    [by inversion H| |].
  - apply agreeing_wf in H as [_ E], H' as [_ E']. cbn [forks]. rewrite E, E'.
    by rewrite bool_decide_false.
  - inversion H as [| |? ? ? es kind us Hwe Hes Hok]; subst.
    inversion H' as [| |? ? ? es' kind' us' Hwe' Hes' Hok']; subst.
    cbn [forks small_thresholds] in *. apply andb_true_iff in Hs as [Hn Hs].
    assert (Forall3 fork_at es es' (map3 forks items us us')) as Hds.
    { clear - IH Hs Hes Hes'. revert es' us' Hes'.
      induction Hes as [|it c u items es us Hc _ IHl]; intros es' us' Hes'; inversion Hes'; subst; [constructor|].
      cbn [forallb map3] in *. apply andb_true_iff in Hs as [Hs1 Hs2]. apply Forall_cons in IH as [IH1 IH2].
      constructor; [|by apply IHl]. intros Hne. by eapply IH1. }
    destruct c as [| |k]; cbn [holds_conj agree] in *.
    + destruct Hok as [_ Hok], Hok' as [_ Hok']. by apply (fork_and e e' es es').
    + destruct Hok as (_ & _ & <-), Hok' as (_ & _ & <-). by apply (fork_or es es').
    + destruct Hok as (p & _ & Hd & Hr & H0 & ->), Hok' as (p' & _ & Hd' & Hr' & H0' & ->).
      apply Nat.leb_le in Hn. by apply (fork_threshold k (length items) e e' p p').
Qed.

(** The proof's bytes prove a proposition for a message: they are read as a tree whose challenges agree with the proposition
    at every node and whose root challenge is the hash of its Fiat-Shamir string, with the commitments computed from its
    challenges and responses, and of the message. *)
Definition proves (sb : SigmaBoolean) (message proof : list Z) : Prop :=
  exists u s, parse_sig_compute_challenges sb proof = Ok u /\ agreeing sb (unchecked_challenge u) u /\
    fs_unchecked (compute_commitments u) = Ok s /\ unchecked_challenge u = fiat_shamir_hash_fn (s ++ message).

Lemma check_commitments_spec u message :
  check_commitments u message = Ok true <->
  exists s, fs_unchecked (compute_commitments u) = Ok s /\ unchecked_challenge u = fiat_shamir_hash_fn (s ++ message).
Proof.
  unfold check_commitments, mbind, result_bind. cbn [fs_tree]. rewrite compute_commitments_challenge.
  destruct (fs_unchecked (compute_commitments u)) as [s|e]; cbn [result_map_err]; split.
  - intros [= H%bool_decide_eq_true]. by exists s.
  - intros (s' & [= <-] & H). by rewrite bool_decide_true.
  - done.
  - by intros (s' & ? & _).
Qed.

(** What the reader made of a proof, and that it is of a proposition that is not trivial. *)
Lemma parsed_agrees sb proof u :
  byte_list proof -> parse_sig_compute_challenges sb proof = Ok u ->
  proof <> [] /\ (forall b, sb <> TrivialProp b) /\ agreeing sb (unchecked_challenge u) u.
Proof.
  unfold parse_sig_compute_challenges. destruct proof as [|b bs]; [done|]. intros Hb E. split; [done|].
  destruct (parse_sig_compute_challenges_reader sb None (b :: bs)) as [[u0 rest]|] eqn:Er; [|done].
  injection E as ->. destruct (parse_sound sb None (b :: bs) u rest Hb) as (_ & Ha & _); [done|done|].
  split; [|done]. intros t ->. inversion Ha.
Qed.

Lemma accepted_iff sb message proof :
  byte_list proof -> verify_signature sb message proof = Ok true <-> sb = TrivialProp true \/ proves sb message proof.
Proof.
  intros Hb. assert ((u ← result_map_err VerifierSigParsingError (parse_sig_compute_challenges sb proof);
    check_commitments u message) = Ok true <-> proves sb message proof) as Hi.
  { unfold proves. destruct (parse_sig_compute_challenges sb proof) as [u|e] eqn:E; cbn.
    - rewrite check_commitments_spec. pose proof (parsed_agrees sb proof u Hb E) as (_ & _ & Ha). split.
      + intros (s & Hs & Hh). by exists u, s.
      + intros (u' & s & [= <-] & _ & Hs & Hh). by exists s.
    - split; [done|]. by intros (u & s & ? & _). }
  assert (proves sb message proof -> proof <> [] /\ forall b, sb <> TrivialProp b) as Hn.
  { intros (u & s & E & _). by destruct (parsed_agrees sb proof u Hb E) as (? & ? & _). }
  destruct sb as [t|t|c items]; cbn [verify_signature].
  - split; [intros [= ->]; by left|]. intros [[= ->]|Hp]; [done|]. by destruct (proj2 (Hn Hp) t).
  - destruct proof as [|b bs]; [split; [done|]; intros [|[]%Hn]; done|]. rewrite Hi. naive_solver.
  - destruct proof as [|b bs]; [split; [done|]; intros [|[]%Hn]; done|]. rewrite Hi. naive_solver.
Qed.

(** C2: a proof is accepted exactly where the proposition is trivially true or the bytes of the proof are read as
    a tree whose challenges agree with the proposition at every node and whose root challenge is the hash of its
    Fiat-Shamir string, with the commitments computed from the challenges and responses of that tree, and of the message. *)
Theorem accepted_proof sb message proof :
  byte_list proof -> verify_signature sb message proof = Ok true <-> sb = TrivialProp true \/ proves sb message proof.
Proof. apply accepted_iff. Qed.
End soundness.

(** ** At a leaf *)

Section leaf_soundness.
Context `{C : SigmaCrypto} `{L : !SigmaCryptoLaws C}.

Definition sc_sub (a b : Scalar) : Scalar := sc_add a (sc_negate b).

Lemma pp_cancel a b c d :
  pp_add a (pp_neg b) = pp_add c (pp_neg d) -> pp_add b (pp_neg d) = pp_add a (pp_neg c).
Proof.
  intros H.
  assert (forall p q, pp_add (pp_add p (pp_neg q)) q = p) as Hcancel.
  { intros p q. by rewrite <- pp_add_assoc, (pp_add_comm (pp_neg q)), pp_add_neg, pp_add_identity. }
  assert (a = pp_add (pp_add c (pp_neg d)) b) as ->.
  { rewrite <- H. symmetry. apply Hcancel. }
  rewrite (pp_add_comm c), <- !pp_add_assoc, (pp_add_comm b (pp_neg c)), (pp_add_assoc c), pp_add_neg.
  rewrite (pp_add_comm pp_identity), pp_add_identity. apply pp_add_comm.
Qed.

Lemma pp_mul_sub p a b : pp_mul p (sc_sub a b) = pp_add (pp_mul p a) (pp_neg (pp_mul p b)).
Proof. unfold sc_sub. by rewrite pp_mul_add, pp_mul_negate. Qed.

Lemma commitment_fork g h z z' e e' :
  ec_mul (exponentiate g z) (inverse (exponentiate h e)) =
  ec_mul (exponentiate g z') (inverse (exponentiate h e')) ->
  pp_mul h (sc_sub e e') = pp_mul g (sc_sub z z').
Proof.
  unfold ec_mul, inverse, ec_neg. rewrite !exponentiate_eq, !pp_mul_sub. apply pp_cancel.
Qed.

(** Two responses to different challenges that give a leaf the same commitment
    determine its secret: the response difference over the challenge difference is the discrete
    logarithm of the public point, of both points for a Diffie-Hellman tuple. *)
Theorem leaf_soundness h d c c' z z' :
  (dlog_compute_commitment h c z = dlog_compute_commitment h c' z' ->
   pp_mul h (sc_sub (scalar_of_challenge c) (scalar_of_challenge c')) = pp_mul pp_generator (sc_sub z z')) /\
  (dht_compute_commitment d c z = dht_compute_commitment d c' z' ->
   pp_mul (dh_u d) (sc_sub (scalar_of_challenge c) (scalar_of_challenge c')) = pp_mul (dh_g d) (sc_sub z z') /\
   pp_mul (dh_v d) (sc_sub (scalar_of_challenge c) (scalar_of_challenge c')) = pp_mul (dh_h d) (sc_sub z z')).
Proof.
  unfold dlog_compute_commitment, dht_compute_commitment. split.
  - intros H. apply commitment_fork. rewrite !exponentiate_gen_eq in H. by rewrite !(exponentiate_eq pp_generator).
  - intros H. injection H as H1 H2. split; by apply commitment_fork.
Qed.
End leaf_soundness.

(** * At concrete inputs *)

Section concrete.
#[local] Existing Instance concrete_crypto.

Definition two_keys : SigmaBoolean :=
  SigmaConjecture Cor [ProofOfKnowledge (ProveDlog (toF 5)); ProofOfKnowledge (ProveDlog (toF 6))].
Definition two_answers (c1 c2 : Challenge) : UncheckedTree :=
  UncheckedConjecture CorUnchecked (challenge_xor c1 c2)
    [UncheckedSchnorrLeaf (mkUncheckedSchnorr (toF 5) None c1 (toF 1));
     UncheckedSchnorrLeaf (mkUncheckedSchnorr (toF 6) None c2 (toF 1))].

Lemma two_answers_agree c1 c2 :
  challenge_wf c1 -> challenge_wf c2 -> agreeing two_keys (challenge_xor c1 c2) (two_answers c1 c2).
Proof.
  intros H1 H2. apply (agreeing_conj Cor _ _ [c1; c2]).
  - by apply challenge_xor_wf.
  - constructor; [by apply agreeing_dlog|]. constructor; [by apply agreeing_dlog|constructor].
  - split; [done|]. split; [done|]. change (challenge_xor c1 (challenge_xor c2 challenge_zero) = challenge_xor c1 c2).
    by rewrite (challenge_xor_zero c2).
Qed.

Lemma special_soundness_witness :
  forks two_keys (two_answers (replicate 24 1) (replicate 24 2)) (two_answers (replicate 24 1) (replicate 24 3)) = true.
Proof.
  assert (forall b, in_u 8 b -> challenge_wf (replicate 24 b)) as Hw
    by (intros b Hb; split; [by apply Forall_replicate|reflexivity]).
  apply (special_soundness two_keys (challenge_xor (replicate 24 1) (replicate 24 2))
    (challenge_xor (replicate 24 1) (replicate 24 3))).
  - reflexivity.
  - apply two_answers_agree; apply Hw; unfold in_u; lia.
  - apply two_answers_agree; apply Hw; unfold in_u; lia.
  - vm_compute. discriminate.
Defined.

Definition key_proof : list Z :=
  match generate_proof [PrivateDlog (dlog_input_new (toF 5))] two_keys [1; 2; 3] hints_empty 42 with
  | Ok (ProofSome p, _) => p
  | _ => []
  end.

Lemma byte_list_check l : forallb (fun b => (0 <=? b) && (b <? 256)) l = true -> byte_list l.
Proof.
  intros H. apply Forall_forall. intros b Hb%list_elem_of_In.
  rewrite forallb_forall in H. specialize (H b Hb). unfold in_u. change (2 ^ 8) with 256. lia.
Qed.

Lemma accepted_proof_witness :
  verify_signature two_keys [1; 2; 3] key_proof = Ok true /\ proves two_keys [1; 2; 3] key_proof.
Proof.
  assert (verify_signature two_keys [1; 2; 3] key_proof = Ok true) as Hv
    by (apply is_ok_true_spec; vm_compute; reflexivity).
  assert (byte_list key_proof) as Hb by (apply byte_list_check; vm_compute; reflexivity).
  split; [exact Hv|].
  destruct (proj1 (accepted_proof two_keys [1; 2; 3] key_proof Hb) Hv) as [H|H]; [discriminate H|exact H].
Defined.

(** Two runs of the prover with the secret 3 and the randomness 9. *)
Lemma leaf_soundness_witness :
  let h := exponentiate_gen (toF 3) in
  let c := replicate 24 1 in let c' := replicate 24 2 in
  let z := second_message (toF 3) (toF 9) c in let z' := second_message (toF 3) (toF 9) c' in
  dlog_compute_commitment h c z = dlog_compute_commitment h c' z' /\
  pp_mul h (sc_sub (scalar_of_challenge c) (scalar_of_challenge c')) = pp_mul pp_generator (sc_sub z z').
Proof.
  intros h c c' z z'.
  assert (dlog_compute_commitment h c z = dlog_compute_commitment h c' z') as H
    by (unfold h, z, z'; rewrite !dlog_real_commitment; reflexivity).
  split; [exact H|].
  apply (leaf_soundness h (mkDht h h h h) c c' z z'). exact H.
Defined.
End concrete.
