(* ===== verification/Vlq.v ===== *)
(** Variable-length integers (src/sigma-ser/src/zig_zag_encode.rs and vlq_encode.rs): the writers
    give the bytes they put, the readers move over a byte string with the position limit of
    [PositionLimit]. A writer that panics gives [None]. *)

From S2P Require Import Prelude.

(** * ZigZag *)

Definition encode_i32 (v : Z) : Z := wrap_u 64 (Z.lxor (wrap_s 32 (Z.shiftl v 1)) (Z.shiftr v 31)).
Definition decode_u32 (v : Z) : Z :=
  Z.lxor (wrap_s 32 (Z.shiftr (wrap_u 32 v) 1)) (- Z.land (wrap_s 32 v) 1).
Definition encode_i64 (v : Z) : Z := wrap_u 64 (Z.lxor (wrap_s 64 (Z.shiftl v 1)) (Z.shiftr v 63)).
Definition decode_u64 (v : Z) : Z :=
  wrap_s 64 (Z.lxor (Z.shiftr v 1) (wrap_u 64 (- wrap_s 64 (Z.land v 1)))).

(** * Writers *)

(** The loop of [put_u64] over the ten bytes of its buffer; writing an eleventh panics. *)
Fixpoint put_u64_loop (room : nat) (value : Z) : option (list Z) :=
  match room with
  | O => None
  | S room =>
      if Z.land value (Z.lxor (2 ^ 64 - 1) 127) =? 0 then Some [wrap_u 8 value]
      else
        bytes ← put_u64_loop room (Z.shiftr value 7);
        Some (wrap_u 8 (Z.lor (Z.land (wrap_s 32 value) 127) 128) :: bytes)
  end.

Definition put_u64 (v : Z) : option (list Z) := put_u64_loop 10 v.
Definition put_u8 (v : Z) : list Z := [v].
Definition put_i8 (v : Z) : list Z := put_u8 (wrap_u 8 v).
Definition put_u32 (v : Z) : option (list Z) := put_u64 v.
Definition put_u16 (v : Z) : option (list Z) := put_u64 v.
Definition put_i16 (v : Z) : option (list Z) := put_u32 (wrap_u 32 (encode_i32 v)).
Definition put_i32 (v : Z) : option (list Z) := put_u64 (encode_i32 v).
Definition put_i64 (v : Z) : option (list Z) := put_u64 (encode_i64 v).
Definition put_usize_as_u16_unwrapped (v : nat) : option (list Z) :=
  if Z.of_nat v <? 2 ^ 16 then put_u16 (Z.of_nat v) else None.
Definition put_usize_as_u32_unwrapped (v : nat) : option (list Z) :=
  if Z.of_nat v <? 2 ^ 32 then put_u32 (Z.of_nat v) else None.
Definition put_u32_be_bytes (v : Z) : list Z := be_bytes 4 v.
Definition put_i16_be_bytes (v : Z) : list Z := be_bytes 2 (v mod 2 ^ 16).

(** A bit vector in bytes, least significant bit first. *)
Definition bits_byte (bools : list bool) : Z := foldr (fun (b : bool) acc => (if b then 1 else 0) + 2 * acc) 0 bools.
Definition div_ceil_8 (n : nat) : nat := (n + 7) / 8.
Definition put_bits (bools : list bool) : list Z :=
  map (fun i => bits_byte (take 8 (drop (8 * i) bools))) (seq 0 (div_ceil_8 (length bools))).

Definition put_option {T} (put_value : T -> option (list Z)) (opt : option T) : option (list Z) :=
  match opt with
  | Some s => bytes ← put_value s; Some (put_u8 1 ++ bytes)
  | None => Some (put_u8 0)
  end.

(** * Readers *)

(** [io::Error] by the two kinds there are here: the end of the input, and [InvalidData]. *)
Inductive io_error : Type := UnexpectedEof | InvalidData.

(** The error's texts are left out. *)
Inductive VlqEncodingError : Type :=
| VlqIo
| VlqTryFrom (v : Z)
| VlqDecodingFailed
| VlqPositionLimitExceeded.

(** [From<io::Error> for VlqEncodingError] *)
Definition vlq_error (e : io_error) : VlqEncodingError :=
  match e with InvalidData => VlqPositionLimitExceeded | UnexpectedEof => VlqIo end.

(** The bytes left, the position, the position limit ([u64::MAX] for none) and the nesting level
    of a [SigmaByteReader]. *)
Record reader : Type := mkReader {
  rd_bytes : list Z;
  rd_position : Z;
  rd_limit : Z;
  rd_level : nat
}.

Definition U64_MAX : Z := 2 ^ 64 - 1.

Definition advance (n : nat) (r : reader) : reader :=
  mkReader (drop n (rd_bytes r)) (rd_position r + Z.of_nat n) (rd_limit r) (rd_level r).

(** [Read::read_exact] of the underlying reader. *)
Definition rd_exact (n : nat) : stateE reader io_error (list Z) :=
  fun r => if (length (rd_bytes r) <? n)%nat then Err UnexpectedEof else Ok (take n (rd_bytes r), advance n r).

Definition check_position_limit : stateE reader io_error unit :=
  fun r =>
    if rd_limit r =? U64_MAX then Ok (tt, r)
    else if rd_position r >? rd_limit r then Err InvalidData
    else Ok (tt, r).

(** [?] on an [io::Error] where the caller's error is another one. *)
Definition map_st_err {S E E' A} (f : E -> E') (m : stateE S E A) : stateE S E' A :=
  fun s => result_map_err f (m s).

Definition get_u8 : stateE reader io_error Z :=
  _ ← check_position_limit;
  slice ← rd_exact 1;
  mret (slice !!! 0%nat).
Definition get_i8 : stateE reader io_error Z := v ← get_u8; mret (wrap_s 8 v).

(** A byte looked at, not consumed, wherever the limit is. *)
Definition peek_u8 : stateE reader io_error Z :=
  fun r => match rd_exact 1 r with Ok (slice, _) => Ok (slice !!! 0%nat, r) | Err e => Err e end.

Fixpoint get_u64_loop (shifts : list Z) (result : Z) : stateE reader VlqEncodingError Z :=
  match shifts with
  | [] => fail VlqDecodingFailed
  | shift :: shifts =>
      slice ← map_st_err vlq_error (rd_exact 1);
      let b := slice !!! 0%nat in
      let result := Z.lor result (wrap_s 64 (Z.shiftl (Z.land b 127) shift)) in
      if Z.land b 128 =? 0 then mret (wrap_u 64 result) else get_u64_loop shifts result
  end.

(** The shifts of the loop, up to 63. *)
Definition vlq_shifts : list Z := [0; 7; 14; 21; 28; 35; 42; 49; 56; 63].

Definition get_u64 : stateE reader VlqEncodingError Z :=
  _ ← map_st_err vlq_error check_position_limit;
  get_u64_loop vlq_shifts 0.

(** [and_then(|v| ..try_from..)]: the value if it is in range, an error for the value [read] otherwise. *)
Definition try_from (in_range : bool) (read v : Z) : stateE reader VlqEncodingError Z :=
  if in_range then mret v else fail (VlqTryFrom read).

Definition get_u32 : stateE reader VlqEncodingError Z := v ← get_u64; try_from (v <? 2 ^ 32) v v.
Definition get_u16 : stateE reader VlqEncodingError Z :=
  v ← get_u64; let w := wrap_u 32 v in try_from (w <? 2 ^ 16) v w.
Definition get_i32 : stateE reader VlqEncodingError Z := v ← get_u64; mret (decode_u32 v).
Definition get_i16 : stateE reader VlqEncodingError Z :=
  v ← get_u64; let vd := decode_u32 v in try_from ((- 2 ^ 15 <=? vd) && (vd <? 2 ^ 15)) vd vd.
Definition get_i64 : stateE reader VlqEncodingError Z := v ← get_u64; mret (decode_u64 v).

Definition byte_bits (b : Z) : list bool := map (fun i => Z.testbit b (Z.of_nat i)) (seq 0 8).
Definition get_bits (size : nat) : stateE reader VlqEncodingError (list bool) :=
  _ ← map_st_err vlq_error check_position_limit;
  buf ← map_st_err vlq_error (rd_exact (div_ceil_8 size));
  mret (take size (concat (map byte_bits buf))).

Definition get_bytes_into (n : nat) : stateE reader io_error (list Z) :=
  _ ← check_position_limit; rd_exact n.

Definition get_option {T E} (of_io : io_error -> E) (get_value : stateE reader E T) :
    stateE reader E (option T) :=
  tag ← map_st_err of_io get_u8;
  if negb (tag =? 0) then v ← get_value; mret (Some v) else mret None.

Definition check_remaining (needed : Z) : stateE reader io_error unit :=
  fun r => if needed >? Z.of_nat (length (rd_bytes r)) then Err UnexpectedEof else Ok (tt, r).

(** * ZigZag is a bijection *)

Lemma wrap_u_wrap_s w z : 0 < w -> wrap_u w (wrap_s w z) = wrap_u w z.
Proof. intros Hw. unfold wrap_u. by apply wrap_s_mod. Qed.

Lemma wrap_s_wrap_u w z : 0 < w -> wrap_s w (wrap_u w z) = wrap_s w z.
Proof.
  intros Hw. apply (in_s_bits_eq w); [done|by apply wrap_s_range..|]. intros i Hi.
  rewrite !wrap_s_testbit_low, wrap_u_testbit by lia. by destruct (Z.ltb_spec i w); [|lia].
Qed.

Lemma wrap_u_u32 z : wrap_u 32 (wrap_u 64 z) = wrap_u 32 z.
Proof.
  unfold wrap_u. apply Z.bits_inj'. intros i Hi. destruct (Z.ltb_spec i 32).
  - by rewrite !Z.mod_pow2_bits_low by lia.
  - by rewrite !Z.mod_pow2_bits_high by lia.
Qed.

Lemma wrap_u_lnot w z : 0 < w -> wrap_u w (Z.lnot z) = 2 ^ w - 1 - wrap_u w z.
Proof.
  intros Hw. unfold wrap_u. pose proof (Z.mod_pos_bound z (2 ^ w) ltac:(lia)) as Hb.
  symmetry. apply Z.mod_unique with (- (z / 2 ^ w) - 1); [lia|].
  pose proof (Z.div_mod z (2 ^ w) ltac:(lia)). unfold Z.lnot. lia.
Qed.

(** The low [w] bits of the encoding of a [w]-bit value. *)
Lemma zigzag_encode w v :
  0 < w -> in_s w v ->
  wrap_u w (Z.lxor (wrap_s w (Z.shiftl v 1)) (Z.shiftr v (w - 1))) = if v <? 0 then - 2 * v - 1 else 2 * v.
Proof.
  intros Hw Hv. rewrite Z.shiftl_mul_pow2 by lia. change (2 ^ 1) with 2.
  destruct (proj1 (in_s_shiftr w v Hw) Hv) as [E|E]; rewrite E; unfold in_s in Hv.
  - assert (0 <= v) by (apply (Z.shiftr_nonneg v (w - 1)); lia).
    destruct (Z.ltb_spec v 0); [lia|]. rewrite Z.lxor_0_r, wrap_u_wrap_s by done.
    unfold wrap_u. rewrite (pow2_half w), Z.mod_small by lia. lia.
  - assert (v < 0) by (apply (Z.shiftr_neg v (w - 1)); lia).
    destruct (Z.ltb_spec v 0); [|lia]. rewrite Z.lxor_m1_r, wrap_u_lnot, wrap_u_wrap_s by done.
    unfold wrap_u. rewrite <- (Z.mod_add (v * 2) 1), (pow2_half w), Z.mod_small by lia. lia.
Qed.

Lemma land_1_mod z : Z.land z 1 = z mod 2.
Proof. change 1 with (Z.ones 1). by rewrite Z.land_ones by lia. Qed.

(** Half of it, negated bit by bit for odd values. *)
Lemma zigzag_half u : 0 <= u -> Z.lxor (Z.shiftr u 1) (- Z.land u 1) = if Z.odd u then - (u / 2) - 1 else u / 2.
Proof.
  intros Hu. rewrite land_1_mod, Zmod_odd, Z.shiftr_div_pow2 by lia. change (2 ^ 1) with 2.
  destruct (Z.odd u); [|apply Z.lxor_0_r]. rewrite Z.lxor_m1_r. unfold Z.lnot. lia.
Qed.

Lemma decode_u32_eq v : decode_u32 v = let u := wrap_u 32 v in if Z.odd u then - (u / 2) - 1 else u / 2.
Proof.
  unfold decode_u32. pose proof (wrap_u_range 32 v ltac:(lia)) as Hr. cbv zeta.
  assert (Z.land (wrap_s 32 v) 1 = Z.land (wrap_u 32 v) 1) as ->.
  { apply Z.bits_inj'. intros i Hi. rewrite !Z.land_spec. destruct (Z.eq_dec i 0) as [->|].
    - by rewrite wrap_s_testbit_low, wrap_u_testbit by lia.
    - by rewrite (Z.bits_above_log2 1 i), !andb_false_r by (cbn; lia). }
  rewrite wrap_s_id; [apply zigzag_half; unfold in_u in Hr; lia|done|].
  unfold in_u, in_s in *. rewrite Z.shiftr_div_pow2 by lia. change (2 ^ 1) with 2.
  split; [pose proof (Z.div_pos (wrap_u 32 v) 2); lia|]. apply Z.div_lt_upper_bound; lia.
Qed.

Lemma decode_u64_eq v : in_u 64 v -> decode_u64 v = if Z.odd v then - (v / 2) - 1 else v / 2.
Proof.
  intros Hv. unfold decode_u64. pose proof (land_1_mod v) as E. pose proof (Z.mod_pos_bound v 2 ltac:(lia)).
  rewrite (wrap_s_id 64 (Z.land v 1)) by (unfold in_s; lia).
  rewrite <- zigzag_half by (unfold in_u in Hv; lia).
  assert (in_s 64 (Z.lxor (Z.shiftr v 1) (- Z.land v 1))) as Hs.
  { apply in_s_lxor; [done| |unfold in_s; lia]. unfold in_u, in_s in *. rewrite Z.shiftr_div_pow2 by lia.
    change (2 ^ 1) with 2. split; [pose proof (Z.div_pos v 2); lia|]. apply Z.div_lt_upper_bound; lia. }
  rewrite <- (wrap_s_id 64 (Z.lxor (Z.shiftr v 1) (- Z.land v 1))) by done.
  apply (in_s_bits_eq 64); [done|by apply wrap_s_range..|]. intros i Hi.
  rewrite !wrap_s_testbit_low, !Z.lxor_spec, wrap_u_testbit by lia.
  by destruct (Z.ltb_spec i 64); [|lia].
Qed.

Lemma zigzag_i32 v : in_s 32 v -> decode_u32 (encode_i32 v) = v.
Proof.
  intros Hv. rewrite decode_u32_eq. unfold encode_i32. cbv zeta. rewrite wrap_u_u32, (zigzag_encode 32) by done.
  destruct (Z.ltb_spec v 0).
  - replace (- 2 * v - 1) with (1 + 2 * (- v - 1)) by lia. rewrite Z.odd_add_mul_2, (Z.mul_comm 2), Z.div_add by lia.
    change (Z.odd 1) with true. change (1 / 2) with 0. cbv iota. lia.
  - rewrite Z.odd_mul. change (Z.odd 2) with false. cbn [andb]. rewrite (Z.mul_comm 2), Z.div_mul by lia. done.
Qed.

Lemma zigzag_i64 v : in_s 64 v -> decode_u64 (encode_i64 v) = v.
Proof.
  intros Hv. rewrite decode_u64_eq by by apply wrap_u_range. unfold encode_i64. rewrite (zigzag_encode 64) by done.
  destruct (Z.ltb_spec v 0).
  - replace (- 2 * v - 1) with (1 + 2 * (- v - 1)) by lia. rewrite Z.odd_add_mul_2, (Z.mul_comm 2), Z.div_add by lia.
    change (Z.odd 1) with true. change (1 / 2) with 0. cbv iota. lia.
  - rewrite Z.odd_mul. change (Z.odd 2) with false. cbn [andb]. rewrite (Z.mul_comm 2), Z.div_mul by lia. done.
Qed.

(** * The bytes of a number *)

(** What a sequence of VLQ bytes stands for: seven bits a byte, the lowest first. *)
Fixpoint vlq_value (l : list Z) : Z :=
  match l with
  | [] => 0
  | b :: l => Z.land b 127 + 128 * vlq_value l
  end.

(** Continuation bytes have their high bit set, the last one has not. *)
Definition continues (b : Z) : Prop := Z.land b 128 <> 0.
Definition vlq_form (l : list Z) : Prop :=
  exists cs b, l = cs ++ [b] /\ Forall continues cs /\ ~ continues b.

Lemma land_127 b : Z.land b 127 = b mod 128.
Proof. change 127 with (Z.ones 7). rewrite Z.land_ones by lia. done. Qed.

Lemma vlq_value_nonneg l : 0 <= vlq_value l.
Proof.
  induction l as [|b l IH]; cbn [vlq_value]; [done|].
  rewrite land_127. pose proof (Z.mod_pos_bound b 128). lia.
Qed.

Lemma testbit_add_shift a b n i :
  0 <= a < 2 ^ n -> 0 <= n -> 0 <= i ->
  Z.testbit (a + 2 ^ n * b) i = if i <? n then Z.testbit a i else Z.testbit b (i - n).
Proof.
  intros Ha Hn Hi. destruct (Z.ltb_spec i n).
  - rewrite <- (Z.mod_pow2_bits_low (a + 2 ^ n * b) n i) by lia.
    rewrite (Z.mul_comm (2 ^ n)), Z.mod_add, Z.mod_small by lia. done.
  - replace (Z.testbit (a + 2 ^ n * b) i) with (Z.testbit (a + 2 ^ n * b) ((i - n) + n)) by (f_equal; lia).
    rewrite <- Z.shiftr_spec by lia.
    rewrite Z.shiftr_div_pow2, (Z.mul_comm (2 ^ n)), Z.div_add, Z.div_small by lia. done.
Qed.

Lemma vlq_value_bits b l i :
  0 <= i -> Z.testbit (vlq_value (b :: l)) i =
  if i <? 7 then Z.testbit (Z.land b 127) i else Z.testbit (vlq_value l) (i - 7).
Proof.
  intros Hi. cbn [vlq_value]. change 128 with (2 ^ 7). apply testbit_add_shift; [|lia|done].
  rewrite land_127. apply Z.mod_pos_bound. lia.
Qed.

(** The accumulated result with the bits of the bytes to come. *)
Definition vlq_acc (acc shift : Z) (l : list Z) : Z := wrap_u 64 (Z.lor acc (Z.shiftl (vlq_value l) shift)).

Lemma vlq_acc_cons acc shift b l :
  0 <= shift ->
  vlq_acc (Z.lor acc (wrap_s 64 (Z.shiftl (Z.land b 127) shift))) (shift + 7) l = vlq_acc acc shift (b :: l).
Proof.
  intros Hs. apply (in_u_bits_eq 64); [done|by apply wrap_u_range..|]. intros i Hi. unfold vlq_acc.
  rewrite !wrap_u_testbit, !Z.lor_spec, wrap_s_testbit_low, !Z.shiftl_spec by lia.
  destruct (Z.ltb_spec i 64); [cbn [andb]|lia]. rewrite <- orb_assoc. f_equal.
  destruct (Z.ltb_spec i shift).
  { by rewrite !Z.testbit_neg_r by lia. }
  rewrite vlq_value_bits by lia. destruct (Z.ltb_spec (i - shift) 7).
  - rewrite (Z.testbit_neg_r _ (i - (shift + 7))) by lia. apply orb_false_r.
  - rewrite land_127. change 128 with (2 ^ 7). rewrite Z.mod_pow2_bits_high by lia. cbn [orb]. f_equal. lia.
Qed.

Lemma vlq_acc_last acc shift b :
  0 <= shift ->
  wrap_u 64 (Z.lor acc (wrap_s 64 (Z.shiftl (Z.land b 127) shift))) = vlq_acc acc shift [b].
Proof.
  intros Hs. rewrite <- vlq_acc_cons by done. unfold vlq_acc. by rewrite Z.shiftl_0_l, Z.lor_0_r.
Qed.

(** A reader over given bytes. *)
Definition at_bytes (l : list Z) (r : reader) : reader :=
  mkReader l (rd_position r) (rd_limit r) (rd_level r).
Definition past (l : list Z) (r : reader) : reader :=
  mkReader (rd_bytes r) (rd_position r + Z.of_nat (length l)) (rd_limit r) (rd_level r).
(** The reader [r] with [l] before what it has to read. *)
Definition before (l : list Z) (r : reader) : reader := at_bytes (l ++ rd_bytes r) r.

Lemma rd_exact_before l r n : length l = n -> rd_exact n (before l r) = Ok (l, past l r).
Proof.
  intros <-. unfold rd_exact, before, at_bytes, advance, past. cbn [rd_bytes rd_position rd_limit rd_level].
  rewrite length_app. destruct (Nat.ltb_spec (length l + length (rd_bytes r)) (length l)); [lia|].
  by rewrite take_app_length, drop_app_length.
Qed.

Lemma before_nil r : before [] r = r.
Proof. by destruct r. Qed.

Lemma past_nil r : past [] r = r.
Proof. destruct r. unfold past. cbn. f_equal. lia. Qed.

Lemma past_app l k r : past k (past l r) = past (l ++ k) r.
Proof. unfold past. cbn. rewrite length_app. f_equal. lia. Qed.

Lemma before_app l k r : before (l ++ k) r = before l (before k r).
Proof. unfold before, at_bytes. cbn. by rewrite app_assoc. Qed.

Lemma past_before l k r : past l (before k r) = before k (past l r).
Proof. done. Qed.

(** One byte of the loop of [get_u64]. *)
Lemma get_u64_loop_cons shift shifts result b l r :
  get_u64_loop (shift :: shifts) result (before (b :: l) r) =
  let result := Z.lor result (wrap_s 64 (Z.shiftl (Z.land b 127) shift)) in
  if Z.land b 128 =? 0 then Ok (wrap_u 64 result, past [b] (before l r))
  else get_u64_loop shifts result (past [b] (before l r)).
Proof.
  cbn [get_u64_loop]. unfold mbind, stateE_bind, map_st_err.
  rewrite (before_app [b] l), (rd_exact_before [b]) by done. cbn [result_map_err].
  change ([b] !!! 0%nat) with b. by destruct (Z.land b 128 =? 0).
Qed.

Lemma get_u64_loop_value cs b : forall shift acc r,
  Forall continues cs -> ~ continues b -> 0 <= shift -> (length cs <= 9)%nat ->
  forall shifts, shifts = map (fun i => shift + 7 * Z.of_nat i) (seq 0 (length shifts)) ->
  (length cs < length shifts)%nat ->
  get_u64_loop shifts acc (before (cs ++ [b]) r) = Ok (vlq_acc acc shift (cs ++ [b]), past (cs ++ [b]) r).
Proof.
  induction cs as [|c cs IH]; intros shift acc r Hcs Hb Hs Hl shifts Hsh Hlen;
    (destruct shifts as [|s0 shifts]; [cbn in Hlen; lia|]); cbn [length seq map] in Hsh; injection Hsh as -> Hsh.
  - cbn [app]. rewrite get_u64_loop_cons. cbv zeta.
    replace (shift + 7 * Z.of_nat 0) with shift by lia. rewrite vlq_acc_last by done.
    unfold continues in Hb. destruct (Z.eqb_spec (Z.land b 128) 0) as [_|]; [done|]. tauto.
  - apply Forall_cons in Hcs as [Hc Hcs]. cbn [app length] in *. rewrite get_u64_loop_cons. cbv zeta.
    unfold continues in Hc. destruct (Z.eqb_spec (Z.land c 128) 0) as [|_]; [done|].
    replace (shift + 7 * Z.of_nat 0) with shift by lia.
    rewrite past_before. rewrite (IH (shift + 7)); try done; try lia.
    + by rewrite past_app, vlq_acc_cons.
    + rewrite Hsh. rewrite length_map, length_seq. rewrite <- seq_shift, map_map. apply map_ext. intros i. lia.
Qed.

Lemma get_u64_loop_short cs : forall acc r shifts,
  Forall continues cs -> rd_bytes r = [] -> (length cs < length shifts)%nat ->
  get_u64_loop shifts acc (before cs r) = Err VlqIo.
Proof.
  induction cs as [|c cs IH]; intros acc r shifts Hcs Hr Hl; (destruct shifts as [|s0 shifts]; [cbn in Hl; lia|]).
  - cbn [get_u64_loop]. unfold mbind, stateE_bind, map_st_err, rd_exact, before, at_bytes. cbn [rd_bytes app].
    by rewrite Hr.
  - apply Forall_cons in Hcs as [Hc Hcs]. rewrite get_u64_loop_cons. cbv zeta.
    unfold continues in Hc. destruct (Z.eqb_spec (Z.land c 128) 0) as [|_]; [done|].
    rewrite past_before. apply IH; [done|done|cbn in Hl; lia].
Qed.

Lemma get_u64_loop_long cs : forall acc r shifts,
  Forall continues cs -> length cs = length shifts ->
  get_u64_loop shifts acc (before cs r) = Err VlqDecodingFailed.
Proof.
  induction cs as [|c cs IH]; intros acc r [|s0 shifts] Hcs Hl; try done.
  apply Forall_cons in Hcs as [Hc Hcs]. rewrite get_u64_loop_cons. cbv zeta.
  unfold continues in Hc. destruct (Z.eqb_spec (Z.land c 128) 0) as [|_]; [done|].
  rewrite past_before. apply IH; [done|cbn in Hl; lia].
Qed.

(** A read may start here: what [check_position_limit] lets through. *)
Definition readable (r : reader) : Prop := rd_limit r = U64_MAX \/ rd_position r <= rd_limit r.

#[export] Instance readable_dec r : Decision (readable r) := _.

(** Whether a reader is readable follows from its position and its limit. *)
Ltac readable :=
  solve [unfold readable, past, before, at_bytes, put_u8 in *; cbn [rd_position rd_limit app length] in *;
         rewrite ?length_app in *; cbn [length] in *; lia].

Lemma check_readable r : readable r -> check_position_limit r = Ok (tt, r).
Proof.
  intros H. unfold check_position_limit. destruct (Z.eqb_spec (rd_limit r) U64_MAX); [done|].
  destruct H; [done|]. by destruct (Z.gtb_spec (rd_position r) (rd_limit r)); [lia|].
Qed.

Lemma check_unreadable r : ~ readable r -> check_position_limit r = Err InvalidData.
Proof.
  intros H. unfold check_position_limit, readable in *. destruct (Z.eqb_spec (rd_limit r) U64_MAX); [tauto|].
  by destruct (Z.gtb_spec (rd_position r) (rd_limit r)); [|lia].
Qed.

Lemma get_u64_form l r :
  readable r -> vlq_form l -> (length l <= 10)%nat ->
  get_u64 (before l r) = Ok (wrap_u 64 (vlq_value l), past l r).
Proof.
  intros Hr (cs & b & -> & Hcs & Hb) Hl. rewrite length_app in Hl. cbn [length] in Hl.
  unfold get_u64, mbind, stateE_bind, map_st_err. rewrite (check_readable (before (cs ++ [b]) r)) by done.
  cbn [result_map_err]. rewrite (get_u64_loop_value cs b 0 0) by (done || cbn; lia || reflexivity).
  unfold vlq_acc. by rewrite Z.lor_0_l, Z.shiftl_0_r.
Qed.

(** ** What [put_u64] writes *)

Lemma put_mask v : in_u 64 v -> (Z.land v (Z.lxor (2 ^ 64 - 1) 127) =? 0) = (v <? 128).
Proof.
  intros Hv.
  assert (Z.land v (Z.lxor (2 ^ 64 - 1) 127) = Z.shiftl (Z.shiftr v 7) 7) as ->.
  { apply Z.bits_inj'. intros i Hi. change (2 ^ 64 - 1) with (Z.ones 64). change 127 with (Z.ones 7).
    rewrite Z.land_spec, Z.lxor_spec, Z.shiftl_spec, !Z.testbit_ones_nonneg by lia.
    destruct (Z.ltb_spec i 7), (Z.ltb_spec i 64); cbn [xorb]; try lia.
    - by rewrite andb_false_r, Z.testbit_neg_r by lia.
    - rewrite andb_true_r, Z.shiftr_spec by lia. f_equal. lia.
    - rewrite andb_false_r, Z.shiftr_spec by lia. symmetry. apply (in_u_testbit_high 64); [lia|done|lia]. }
  rewrite Z.shiftl_mul_pow2, Z.shiftr_div_pow2 by lia. change (2 ^ 7) with 128. unfold in_u in Hv.
  pose proof (Z.div_mod v 128 ltac:(lia)). pose proof (Z.mod_pos_bound v 128 ltac:(lia)).
  destruct (Z.ltb_spec v 128); [rewrite Z.div_small by lia; done|].
  assert (0 < v / 128) by (apply Z.div_str_pos; lia). by destruct (Z.eqb_spec (v / 128 * 128) 0); [lia|].
Qed.

Lemma put_byte v :
  0 <= v -> let b := wrap_u 8 (Z.lor (Z.land (wrap_s 32 v) 127) 128) in
  Z.land b 127 = v mod 128 /\ continues b /\ in_u 8 b.
Proof.
  intros Hv b.
  assert (forall i, 0 <= i < 8 -> Z.testbit b i = if i <? 7 then Z.testbit v i else true) as Hb.
  { intros i Hi. unfold b. rewrite wrap_u_testbit, Z.lor_spec, Z.land_spec by lia.
    destruct (Z.ltb_spec i 8); [|lia]. cbn [andb]. change 127 with (Z.ones 7). change 128 with (2 ^ 7).
    rewrite Z.testbit_ones_nonneg, Z.pow2_bits_eqb by lia.
    destruct (Z.ltb_spec i 7), (Z.eqb_spec 7 i); try lia.
    by rewrite andb_true_r, orb_false_r, wrap_s_testbit_low by lia. }
  split; [|split; [|by apply wrap_u_range]].
  - rewrite land_127. apply Z.bits_inj'. intros i Hi. change 128 with (2 ^ 7).
    destruct (Z.ltb_spec i 7); [|by rewrite !Z.mod_pow2_bits_high by lia].
    rewrite !Z.mod_pow2_bits_low, Hb by lia. by destruct (Z.ltb_spec i 7); [|lia].
  - intros E. assert (Z.testbit (Z.land b 128) 7 = false) as Hf by by rewrite E.
    rewrite Z.land_spec, Hb in Hf by lia. by discriminate Hf.
Qed.

(** The last byte. *)
Lemma put_last v :
  0 <= v < 128 -> vlq_form [wrap_u 8 v] /\ vlq_value [wrap_u 8 v] = v /\ byte_list [wrap_u 8 v].
Proof.
  intros Hv. rewrite wrap_u_id by (unfold in_u; lia). split; [|split].
  - exists [], v. split; [done|]. split; [constructor|]. intros H. apply H. change 128 with (2 ^ 7).
    apply Z.bits_inj'. intros i Hi. rewrite Z.land_spec, Z.pow2_bits_eqb, Z.bits_0 by lia.
    destruct (Z.eqb_spec 7 i) as [<-|]; [|by rewrite andb_false_r].
    by rewrite (in_u_testbit_high 7) by (done || unfold in_u; lia).
  - cbn [vlq_value]. rewrite land_127, Z.mod_small by lia. lia.
  - repeat constructor; unfold in_u; lia.
Qed.

Lemma put_u64_loop_form room : forall v,
  in_u 64 v -> v < 2 ^ (7 * Z.of_nat (S room)) ->
  exists l, put_u64_loop (S room) v = Some l /\ vlq_form l /\ vlq_value l = v /\
    (length l <= S room)%nat /\ byte_list l.
Proof.
  induction room as [|room IH]; intros v Hv Hlt;
    (change (put_u64_loop (S ?n) v) with
       (if Z.land v (Z.lxor (2 ^ 64 - 1) 127) =? 0 then Some [wrap_u 8 v]
        else bytes ← put_u64_loop n (Z.shiftr v 7);
             Some (wrap_u 8 (Z.lor (Z.land (wrap_s 32 v) 127) 128) :: bytes)));
    rewrite put_mask by done; destruct (Z.ltb_spec v 128) as [Hs|Hs].
  - destruct (put_last v) as (H1 & H2 & H3); [unfold in_u in Hv; lia|].
    exists [wrap_u 8 v]. split_and!; try done.
  - cbn in Hlt. lia.
  - destruct (put_last v) as (H1 & H2 & H3); [unfold in_u in Hv; lia|].
    exists [wrap_u 8 v]. split_and!; try done. cbn. lia.
  - destruct (IH (Z.shiftr v 7)) as (l & El & (cs & b & -> & Hcs & Hb) & Hval & Hlen & Hbytes).
    { rewrite Z.shiftr_div_pow2 by lia. unfold in_u in *. change (2 ^ 7) with 128.
      pose proof (Z.div_pos v 128). pose proof (Z.div_le_upper_bound v 128 v). lia. }
    { rewrite Z.shiftr_div_pow2 by lia. apply Z.div_lt_upper_bound; [lia|]. rewrite <- Z.pow_add_r by lia.
      replace (7 + 7 * Z.of_nat (S room)) with (7 * Z.of_nat (S (S room))) by lia. done. }
    destruct (put_byte v) as (H1 & H2 & H3); [unfold in_u in Hv; lia|].
    exists (wrap_u 8 (Z.lor (Z.land (wrap_s 32 v) 127) 128) :: cs ++ [b]). rewrite El.
    split; [done|].
    split; [eexists (_ :: cs), b; split; [reflexivity|]; split; [by constructor|done]|].
    split; [|split; [cbn [length] in *; lia|by constructor]].
    change (vlq_value (?x :: ?y)) with (Z.land x 127 + 128 * vlq_value y). rewrite H1, Hval.
    rewrite Z.shiftr_div_pow2 by lia. change (2 ^ 7) with 128. pose proof (Z.div_mod v 128 ltac:(lia)). lia.
Qed.

Lemma put_u64_form v :
  in_u 64 v -> exists l, put_u64 v = Some l /\ vlq_form l /\ vlq_value l = v /\ (length l <= 10)%nat /\ byte_list l.
Proof.
  intros Hv. apply (put_u64_loop_form 9); [done|]. unfold in_u in Hv.
  eapply Z.lt_trans; [apply Hv|]. apply Z.pow_lt_mono_r; lia.
Qed.

(** Reading what was written. *)
Lemma get_put_u64 v r :
  in_u 64 v -> readable r ->
  exists l, put_u64 v = Some l /\ byte_list l /\ get_u64 (before l r) = Ok (v, past l r).
Proof.
  intros Hv Hr. destruct (put_u64_form v Hv) as (l & E & Hf & Hval & Hl & Hb). exists l. split; [done|].
  split; [done|]. rewrite get_u64_form, Hval by done. by rewrite wrap_u_id.
Qed.


(** * The readers on any input *)

(** What a number's bytes at the reader are: the longest run of continuation bytes and the byte
    after it. *)
Fixpoint continuation (l : list Z) : list Z :=
  match l with
  | b :: l => if Z.land b 128 =? 0 then [] else b :: continuation l
  | [] => []
  end.

(** The number a reader gives, by what is there to read. *)
Definition u64_at (r : reader) : result VlqEncodingError (Z * reader) :=
  let cs := continuation (rd_bytes r) in
  match drop (length cs) (rd_bytes r) with
  | b :: l =>
      if (length cs <? 10)%nat then
        Ok (wrap_u 64 (vlq_value (cs ++ [b])),
            mkReader l (rd_position r + Z.of_nat (S (length cs))) (rd_limit r) (rd_level r))
      else Err VlqDecodingFailed
  | [] => if (length cs <? 10)%nat then Err VlqIo else Err VlqDecodingFailed
  end.

Lemma continuation_split l :
  l = continuation l ++ drop (length (continuation l)) l /\ Forall continues (continuation l) /\
  forall b k, drop (length (continuation l)) l = b :: k -> ~ continues b.
Proof.
  induction l as [|b l (IH1 & IH2 & IH3)]; cbn [continuation]; [by split_and!|].
  destruct (Z.eqb_spec (Z.land b 128) 0) as [E|E].
  - split_and!; [done|constructor|]. intros c k [= <- <-] H. by apply H.
  - cbn [length app drop]. split_and!; [by f_equal|by constructor|done].
Qed.

(** Ten continuation bytes are too many, whatever follows them. *)
Lemma get_u64_loop_too_long cs l r :
  Forall continues cs -> (10 <= length cs)%nat ->
  get_u64_loop vlq_shifts 0 (before (cs ++ l) r) = Err VlqDecodingFailed.
Proof.
  intros Hcs Hl. rewrite <- (take_drop 10 cs), <- app_assoc, before_app.
  apply get_u64_loop_long; [by apply Forall_take|]. rewrite length_take. cbn [length vlq_shifts]. lia.
Qed.

(** [get_u64] on every input: with the position past the limit it fails with that;
    otherwise ten continuation bytes fail the decoding, an input that ends before the number does
    is an end-of-file error, and anything else reads as the seven-bit digits, the low 64 bits of
    them, with the reader past the bytes of the number. *)
Theorem get_u64_correct (r : reader) :
  get_u64 r = if decide (readable r) then u64_at r else Err VlqPositionLimitExceeded.
Proof.
  unfold get_u64, mbind, stateE_bind, map_st_err. destruct (decide (readable r)) as [Hr|Hr];
    [rewrite check_readable by done|by rewrite check_unreadable].
  cbn [result_map_err]. unfold u64_at. destruct (continuation_split (rd_bytes r)) as (E & Hcs & Hlast).
  set (cs := continuation (rd_bytes r)) in *. set (k := drop (length cs) (rd_bytes r)) in *. clearbody cs k.
  replace r with (before (cs ++ k) (at_bytes [] r)) at 1
    by (destruct r; unfold before, at_bytes; cbn in *; by rewrite app_nil_r, E).
  destruct (Nat.ltb_spec (length cs) 10) as [Hl|Hl]; [|rewrite get_u64_loop_too_long by done; by destruct k].
  destruct k as [|b k].
  - rewrite app_nil_r. by apply get_u64_loop_short.
  - rewrite (cons_middle b cs k), app_assoc, before_app.
    rewrite (get_u64_loop_value cs b 0 0) by (try (cbn; lia); try done; by apply (Hlast b k)).
    unfold vlq_acc. rewrite Z.lor_0_l, Z.shiftl_0_r. do 2 f_equal.
    unfold past, before, at_bytes. cbn. rewrite length_app, app_nil_r. cbn [length]. f_equal. lia.
Qed.

(** * Codecs *)

(** What a writer and a reader of the same data promise to each other: the writer does not panic
    on the values [good], and where the reader finds what was written, it gives the value and
    stops right after it. The position limit is not passed before the last byte. *)
Class Codec {E A} (good : A -> Prop) (put : A -> option (list Z)) (get : stateE reader E A) : Prop := {
  codec_puts x : good x -> exists l, put x = Some l /\ byte_list l;
  codec_roundtrip x l r :
    good x -> put x = Some l -> readable (past l r) -> get (before l r) = Ok (x, past l r)
}.

Lemma readable_past l r : readable (past l r) -> readable r.
Proof. unfold readable, past. cbn. lia. Qed.

Lemma before_readable k l r : readable (past l r) -> readable (before k r).
Proof. apply readable_past. Qed.

(** A number that was put, read back. *)
Lemma read_back_u64 v l r :
  in_u 64 v -> put_u64 v = Some l -> readable (past l r) -> get_u64 (before l r) = Ok (v, past l r).
Proof.
  intros Hv E Hr. destruct (get_put_u64 v r Hv (readable_past l r Hr)) as (l' & E' & _ & Hg). by simplify_eq.
Qed.

Lemma puts_u64 v : in_u 64 v -> exists l, put_u64 v = Some l /\ byte_list l.
Proof. intros Hv. destruct (put_u64_form v Hv) as (l & E & _ & _ & _ & Hb). by exists l. Qed.

(** A codec that puts and gets numbers in an encoding. *)
Lemma codec_via_u64 {A} (good : A -> Prop) (enc : A -> Z) (dec : Z -> stateE reader VlqEncodingError A) :
  (forall x, good x -> in_u 64 (enc x)) ->
  (forall x r, good x -> dec (enc x) r = Ok (x, r)) ->
  Codec good (fun x => put_u64 (enc x)) (v ← get_u64; dec v).
Proof.
  intros Henc Hdec. split; intros x; intros.
  - by apply puts_u64, Henc.
  - unfold mbind, stateE_bind. erewrite read_back_u64 by eauto. by apply Hdec.
Qed.

#[export] Instance u64_codec : Codec (in_u 64) put_u64 get_u64.
Proof. split; intros; [by apply puts_u64|by apply read_back_u64]. Qed.

#[export] Instance u32_codec : Codec (in_u 32) put_u32 get_u32.
Proof.
  apply (codec_via_u64 _ id (fun v => try_from (v <? 2 ^ 32) v v)); unfold in_u, id; intros; [lia|].
  unfold try_from. by destruct (Z.ltb_spec x (2 ^ 32)); [|lia].
Qed.

#[export] Instance u16_codec : Codec (in_u 16) put_u16 get_u16.
Proof.
  apply (codec_via_u64 _ id (fun v => let w := wrap_u 32 v in try_from (w <? 2 ^ 16) v w)); unfold in_u, id;
    intros; [lia|].
  unfold try_from. cbv zeta. rewrite wrap_u_id by (unfold in_u; lia). by destruct (Z.ltb_spec x (2 ^ 16)); [|lia].
Qed.

#[export] Instance i64_codec : Codec (in_s 64) put_i64 get_i64.
Proof.
  apply (codec_via_u64 _ encode_i64 (fun v => mret (decode_u64 v))); intros x; intros.
  - by apply wrap_u_range.
  - by rewrite zigzag_i64.
Qed.

#[export] Instance i32_codec : Codec (in_s 32) put_i32 get_i32.
Proof.
  apply (codec_via_u64 _ encode_i32 (fun v => mret (decode_u32 v))); intros x; intros.
  - by apply wrap_u_range.
  - by rewrite zigzag_i32.
Qed.

Lemma decode_u32_low v : decode_u32 (wrap_u 32 v) = decode_u32 v.
Proof. rewrite !decode_u32_eq. cbv zeta. by rewrite (wrap_u_id 32 (wrap_u 32 v)) by by apply wrap_u_range. Qed.

#[export] Instance i16_codec : Codec (in_s 16) put_i16 get_i16.
Proof.
  apply (codec_via_u64 _ (fun v => wrap_u 32 (encode_i32 v))
    (fun v => let vd := decode_u32 v in try_from ((- 2 ^ 15 <=? vd) && (vd <? 2 ^ 15)) vd vd)); intros x; intros.
  - pose proof (wrap_u_range 32 (encode_i32 x) ltac:(lia)). unfold in_u in *. lia.
  - cbv zeta. rewrite decode_u32_low, zigzag_i32 by (unfold in_s in *; lia).
    unfold try_from, in_s in *. by destruct (Z.leb_spec (- 2 ^ 15) x), (Z.ltb_spec x (2 ^ 15)); try lia.
Qed.

Lemma get_u8_before b r : readable r -> get_u8 (before [b] r) = Ok (b, past [b] r).
Proof.
  intros Hr. unfold get_u8, mbind, stateE_bind. rewrite (check_readable (before [b] r)) by done.
  by rewrite (rd_exact_before [b]).
Qed.

#[export] Instance u8_codec : Codec (in_u 8) (fun v => Some (put_u8 v)) get_u8.
Proof.
  split.
  - intros x Hx. eexists. split; [done|]. by apply Forall_singleton.
  - intros x l r _ [= <-] Hr. apply get_u8_before. by eapply readable_past.
Qed.

#[export] Instance i8_codec : Codec (in_s 8) (fun v => Some (put_i8 v)) get_i8.
Proof.
  split.
  - intros x _. eexists. split; [done|]. apply Forall_singleton. by apply wrap_u_range.
  - intros x l r Hx [= <-] Hr. unfold get_i8, put_i8, put_u8, mbind, stateE_bind. rewrite get_u8_before by by eapply readable_past.
    unfold mret, stateE_ret. by rewrite wrap_s_wrap_u, wrap_s_id.
Qed.

(** Readers that report an error as another one. *)
#[export] Instance map_err_codec {E E' A} (f : E -> E') good (put : A -> option (list Z)) (get : stateE reader E A) :
  Codec good put get -> Codec good put (map_st_err f get).
Proof.
  intros H. split; [apply codec_puts|]. intros x l r Hx Hl Hr. unfold map_st_err.
  by rewrite (codec_roundtrip x l r).
Qed.

Lemma past_readable l k r : readable (past k (past l r)) -> readable (past l r).
Proof. apply readable_past. Qed.

Lemma before_cons b l r : before (b :: l) r = before [b] (before l r).
Proof. apply (before_app [b]). Qed.

(** [put_option] and [get_option] over any codec. *)
#[export] Instance option_codec {E A} (of_io : io_error -> E) good (put : A -> option (list Z)) (get : stateE reader E A) :
  Codec good put get -> Codec (fun o => forall x, o = Some x -> good x) (put_option put) (get_option of_io get).
Proof.
  intros H. split.
  - intros [x|] Hx; cbn [put_option]; [|exists [0]; split; [done|]; by apply Forall_singleton].
    destruct (codec_puts x (Hx x eq_refl)) as (l & E' & Hl). exists (1 :: l). rewrite E'. split; [done|]. by constructor.
  - intros [x|] l r Hx Hl Hr; cbn [put_option] in Hl; unfold get_option, mbind, stateE_bind, map_st_err.
    + destruct (put x) as [k|] eqn:E'; [apply (inj Some) in Hl as <-|done]. change (put_u8 1 ++ k) with (1 :: k).
      rewrite before_cons, get_u8_before by by eapply before_readable. cbn [result_map_err Z.eqb negb].
      rewrite past_before, (codec_roundtrip x k); [by rewrite past_app| |done|by rewrite past_app]. by apply Hx.
    + injection Hl as <-. unfold put_u8. by rewrite get_u8_before by by eapply readable_past.
Qed.

(** * What a reader consumes *)

(** The reader read some bytes, and nothing else of it changed. *)
Definition moved (r r' : reader) : Prop :=
  exists l, rd_bytes r = l ++ rd_bytes r' /\ rd_position r' = rd_position r + Z.of_nat (length l) /\
    rd_limit r' = rd_limit r /\ rd_level r' = rd_level r.

#[export] Instance moved_preorder : PreOrder moved.
Proof.
  split.
  - intros r. exists []. split_and!; try done. cbn. lia.
  - intros r1 r2 r3 (l & E1 & P1 & L1 & V1) (k & E2 & P2 & L2 & V2). exists (l ++ k).
    rewrite E1, E2, length_app, app_assoc. split_and!; congruence || lia.
Qed.

(** A computation that only reads. *)
Definition reads {E A} (m : stateE reader E A) : Prop := forall r a r', m r = Ok (a, r') -> moved r r'.

Lemma reads_ret {E A} (a : A) : reads (E := E) (mret a).
Proof. intros r a' r' [= <- <-]. done. Qed.

Lemma reads_fail {E A} (e : E) : reads (A := A) (fail e).
Proof. by intros r a r' ?. Qed.

Lemma reads_bind {E A B} (m : stateE reader E A) (f : A -> stateE reader E B) :
  reads m -> (forall a, reads (f a)) -> reads (m ≫= f).
Proof. intros Hm Hf r b r' H. apply st_bind_Ok in H as (a & r1 & H1 & H2). etrans; [by eapply Hm|by eapply Hf]. Qed.

Lemma reads_fmap {E A B} (f : A -> B) (m : stateE reader E A) : reads m -> reads (f <$> m).
Proof.
  intros Hm r b r' H. unfold fmap, stateE_fmap in H. destruct (m r) as [[a r1]|] eqn:E1; [|done]. simplify_eq.
  by eapply Hm.
Qed.

Lemma reads_map_err {E E' A} (f : E -> E') (m : stateE reader E A) : reads m -> reads (map_st_err f m).
Proof.
  intros Hm r a r' H. unfold map_st_err, result_map_err in H. destruct (m r) as [[? ?]|] eqn:E1; [|done]. simplify_eq.
  by eapply Hm.
Qed.

Lemma reads_liftE {E A} (x : result E A) : reads (liftE x).
Proof. intros r a r' H. apply liftE_Ok in H as [_ ->]. done. Qed.

Lemma reads_if {E A} (b : bool) (m k : stateE reader E A) : reads m -> reads k -> reads (if b then m else k).
Proof. by destruct b. Qed.

Lemma reads_exact n : reads (rd_exact n).
Proof.
  intros r a r' H. unfold rd_exact in H. destruct (Nat.ltb_spec (length (rd_bytes r)) n); [done|]. simplify_eq.
  exists (take n (rd_bytes r)). unfold advance. cbn. rewrite take_drop, length_take. split_and!; (done || lia).
Qed.

Lemma reads_check : reads check_position_limit.
Proof. intros r a r' H. unfold check_position_limit in H. by repeat case_match; simplify_eq. Qed.

Create HintDb reads discriminated.
#[export] Hint Resolve reads_ret reads_fail reads_bind reads_fmap reads_map_err reads_liftE reads_if
  reads_exact reads_check : reads.

Lemma reads_u8 : reads get_u8.
Proof. unfold get_u8. auto with reads. Qed.

Lemma reads_bytes n : reads (get_bytes_into n).
Proof. unfold get_bytes_into. auto with reads. Qed.

Lemma reads_u64 : reads get_u64.
Proof.
  unfold get_u64. apply reads_bind; [auto with reads|]. intros _. generalize 0. generalize vlq_shifts.
  intros shifts. induction shifts as [|s l IH]; intros acc; cbn [get_u64_loop]; auto with reads.
Qed.

Lemma reads_u16 : reads get_u16.
Proof. unfold get_u16, try_from. auto using reads_u64 with reads. Qed.

Lemma get_u16_range r v r' : get_u16 r = Ok (v, r') -> in_u 16 v.
Proof.
  intros H. apply st_bind_Ok in H as (w & r1 & _ & H). unfold try_from in H.
  pose proof (wrap_u_range 32 w). destruct (Z.ltb_spec (wrap_u 32 w) (2 ^ 16)); [|done].
  unfold mret, stateE_ret in H. simplify_eq. unfold in_u in *. lia.
Qed.
#[export] Hint Resolve reads_u8 reads_bytes reads_u16 reads_u64 : reads.

(** * Bit vectors *)

Lemma bits_byte_testbit l i : Z.testbit (bits_byte l) (Z.of_nat i) = nth i l false.
Proof.
  revert i. induction l as [|b l IH]; intros i; [by rewrite Z.testbit_0_l; destruct i|].
  change (bits_byte (b :: l)) with ((if b then 1 else 0) + 2 ^ 1 * bits_byte l).
  rewrite testbit_add_shift by (destruct b; lia). destruct i as [|i]; [by destruct b|].
  destruct (Z.ltb_spec (Z.of_nat (S i)) 1); [lia|]. cbn [nth]. rewrite <- IH. f_equal. lia.
Qed.

Lemma byte_bits_byte l : (length l <= 8)%nat -> byte_bits (bits_byte l) = l ++ replicate (8 - length l) false.
Proof.
  intros Hl. unfold byte_bits. rewrite (map_ext _ _ (bits_byte_testbit l)).
  do 9 (destruct l as [|? l]; [reflexivity|]). cbn in Hl. lia.
Qed.

Lemma bits_byte_range l : (length l <= 8)%nat -> in_u 8 (bits_byte l).
Proof.
  intros Hl. unfold in_u. assert (0 <= bits_byte l < 2 ^ Z.of_nat (length l)) as H.
  { clear Hl. induction l as [|b l IH]; [done|]. cbn [length bits_byte foldr].
    change (foldr _ 0 l) with (bits_byte l). rewrite Nat2Z.inj_succ, Z.pow_succ_r by lia. destruct b; lia. }
  pose proof (Z.pow_le_mono_r 2 (Z.of_nat (length l)) 8). lia.
Qed.

Lemma vlq_value_bound l : vlq_value l < 2 ^ (7 * Z.of_nat (length l)).
Proof.
  induction l as [|b l IH]; [done|]. cbn [vlq_value length].
  replace (7 * Z.of_nat (S (length l))) with (7 + 7 * Z.of_nat (length l)) by lia.
  rewrite Z.pow_add_r, land_127 by lia. pose proof (Z.mod_pos_bound b 128). change (2 ^ 7) with 128. lia.
Qed.

(** More room changes nothing. *)
Lemma put_u64_loop_room m n : forall v l, put_u64_loop m v = Some l -> (m <= n)%nat -> put_u64_loop n v = Some l.
Proof.
  revert n. induction m as [|m IH]; intros [|n] v l E Hl; try done; [lia|]. cbn [put_u64_loop] in *.
  destruct (_ =? 0); [done|]. destruct (put_u64_loop m _) as [k|] eqn:E'; [|done].
  by rewrite (IH n _ k) by (done || lia).
Qed.

Lemma put_bits_cons bs : bs <> [] -> put_bits bs = bits_byte (take 8 bs) :: put_bits (drop 8 bs).
Proof.
  intros Hb. unfold put_bits, div_ceil_8. rewrite length_drop.
  assert (0 < length bs)%nat by (destruct bs; [done|cbn; lia]).
  assert ((length bs + 7) / 8 = S ((length bs - 8 + 7) / 8))%nat as ->.
  { destruct (Nat.le_gt_cases 8 (length bs)).
    - replace (length bs + 7)%nat with (length bs - 8 + 7 + 1 * 8)%nat by lia. rewrite Nat.div_add by lia. lia.
    - replace (length bs - 8)%nat with 0%nat by lia. symmetry. apply (Nat.div_unique _ 8 1 (length bs - 1)); lia. }
  rewrite <- cons_seq, <- seq_shift, map_cons, map_map. f_equal. apply map_ext. intros i. do 2 f_equal.
  rewrite drop_drop. f_equal. lia.
Qed.

Lemma put_bits_length bs : length (put_bits bs) = div_ceil_8 (length bs).
Proof. unfold put_bits. by rewrite length_map, length_seq. Qed.

(** The bits written, and [false] up to the end of the last byte. *)
Lemma put_bits_bits n : forall bs, (length bs <= n)%nat ->
  exists k, concat (map byte_bits (put_bits bs)) = bs ++ replicate k false /\ byte_list (put_bits bs).
Proof.
  induction n as [|n IH]; intros bs Hl.
  { destruct bs; [exists 0%nat; split; [done|constructor]|cbn in Hl; lia]. }
  destruct (decide (bs = [])) as [->|Hb]; [exists 0%nat; split; [done|constructor]|].
  rewrite put_bits_cons by done. assert (length (take 8 bs) <= 8)%nat by (rewrite length_take; lia).
  assert (0 < length bs)%nat by (destruct bs; [done|cbn; lia]).
  destruct (IH (drop 8 bs)) as (k & E & Hbytes); [rewrite length_drop; lia|].
  cbn [map concat]. rewrite E, byte_bits_byte by done.
  exists (8 - length (take 8 bs) + k)%nat. split; [|constructor; [by apply bits_byte_range|done]].
  destruct (Nat.le_gt_cases 8 (length bs)).
  - rewrite length_take. replace (8 - 8 `min` length bs)%nat with 0%nat by lia. cbn [replicate].
    by rewrite app_nil_r, app_assoc, take_drop.
  - rewrite drop_ge, take_ge by lia. cbn [app]. by rewrite replicate_add, app_assoc.
Qed.

(** * The theorems *)

(** ZigZag is a bijection of the [w]-bit signed integers onto the [w]-bit
    unsigned ones that takes 0, -1, 1, -2, ... to 0, 1, 2, 3, ...: the decoders undo the encoders and
    the encoders the decoders. The 32-bit encoder's result is [u64], of which the low half is the
    encoding. *)
Theorem zigzag_bijection (v u v' u' : Z) :
  in_s 32 v -> in_u 32 u -> in_s 64 v' -> in_u 64 u' ->
  (decode_u32 (encode_i32 v) = v /\ wrap_u 32 (encode_i32 (decode_u32 u)) = u /\
   wrap_u 32 (encode_i32 v) = if v <? 0 then - 2 * v - 1 else 2 * v) /\
  (decode_u64 (encode_i64 v') = v' /\ encode_i64 (decode_u64 u') = u' /\
   encode_i64 v' = if v' <? 0 then - 2 * v' - 1 else 2 * v').
Proof.
  intros Hv Hu Hv' Hu'. split; (split; [by auto using zigzag_i32, zigzag_i64|]).
  - unfold encode_i32. rewrite !wrap_u_u32.
    split; [|by apply (zigzag_encode 32)]. rewrite decode_u32_eq. cbv zeta. rewrite (wrap_u_id 32 u) by done.
    unfold in_u in Hu. pose proof (Z.div_pos u 2). pose proof (Z.div_mod u 2 ltac:(lia)) as E.
    rewrite Zmod_odd in E. pose proof (Z.div_lt_upper_bound u 2 (2 ^ 31)).
    destruct (Z.odd u); rewrite (zigzag_encode 32 _ ltac:(lia)) by (unfold in_s; lia); case_match; lia.
  - unfold encode_i64. split; [|by apply (zigzag_encode 64)]. rewrite decode_u64_eq by done.
    unfold in_u in Hu'. pose proof (Z.div_pos u' 2). pose proof (Z.div_mod u' 2 ltac:(lia)) as E.
    rewrite Zmod_odd in E. pose proof (Z.div_lt_upper_bound u' 2 (2 ^ 63)).
    destruct (Z.odd u'); rewrite (zigzag_encode 64) by (unfold in_s; lia); case_match; lia.
Qed.

Lemma zigzag_bijection_witness : decode_u64 (encode_i64 (- 2 ^ 63)) = - 2 ^ 63 /\ encode_i64 (decode_u64 7) = 7.
Proof.
  destruct (zigzag_bijection 5 6 (- 2 ^ 63) 7) as (_ & H1 & H2 & _); [unfold in_s, in_u; lia..|]. by split.
Defined.

(** Each [get] reads back what its [put] wrote, wherever it stands in the input,
    and stops right after it; no [put] panics on a value of its type. *)
Theorem numbers_roundtrip :
  Codec (in_u 8) (fun v => Some (put_u8 v)) get_u8 /\ Codec (in_s 8) (fun v => Some (put_i8 v)) get_i8 /\
  Codec (in_u 16) put_u16 get_u16 /\ Codec (in_u 32) put_u32 get_u32 /\ Codec (in_u 64) put_u64 get_u64 /\
  Codec (in_s 16) put_i16 get_i16 /\ Codec (in_s 32) put_i32 get_i32 /\ Codec (in_s 64) put_i64 get_i64.
Proof. split_and!; apply _. Qed.

(** [put_u64] writes the number's digits in a byte string no longer than any other
    that reads as the same number, and no longer than the ten bytes of its buffer. *)
Theorem put_u64_shortest (v : Z) (k : list Z) :
  in_u 64 v -> vlq_form k -> vlq_value k = v ->
  exists l, put_u64 v = Some l /\ vlq_form l /\ vlq_value l = v /\ (length l <= length k)%nat /\ (length l <= 10)%nat.
Proof.
  intros Hv (cs & b & -> & _ & _) Hk. destruct (put_u64_form v Hv) as (l & E & Hf & Hval & Hl & _).
  exists l. split_and!; try done. rewrite length_app. cbn [length].
  destruct (Nat.le_gt_cases 10 (length cs)); [lia|].
  destruct (put_u64_loop_form (length cs) v) as (l' & E' & _ & _ & Hl' & _); [done| |].
  { pose proof (vlq_value_bound (cs ++ [b])). rewrite length_app in *. cbn [length] in *. by rewrite Nat.add_comm in *; subst. }
  apply (put_u64_loop_room _ 10) in E'; [|lia]. unfold put_u64 in E. rewrite E in E'. simplify_eq. lia.
Qed.

Lemma put_u64_shortest_witness :
  vlq_value [129; 128; 0] = 1 /\ exists l, put_u64 1 = Some l /\ (length l <= 3)%nat.
Proof.
  split; [done|]. destruct (put_u64_shortest 1 [129; 128; 0]) as (l & E & _ & _ & H & _).
  - unfold in_u. lia.
  - exists [129; 128], 0. split; [done|]. split; [repeat constructor; unfold continues; by vm_compute|].
    unfold continues. by vm_compute.
  - done.
  - by exists l.
Defined.

(** [get_bits] reads the bit vector [put_bits] wrote, which takes one byte for eight
    bits, the last one filled with [false]. *)
Theorem bits_roundtrip (bs : list bool) (r : reader) :
  readable r -> length (put_bits bs) = div_ceil_8 (length bs) /\ byte_list (put_bits bs) /\
  get_bits (length bs) (before (put_bits bs) r) = Ok (bs, past (put_bits bs) r).
Proof.
  intros Hr. destruct (put_bits_bits (length bs) bs) as (k & E & Hb); [done|].
  split; [apply put_bits_length|]. split; [done|]. unfold get_bits, mbind, stateE_bind, map_st_err.
  rewrite (check_readable (before (put_bits bs) r)) by done. cbn [result_map_err].
  rewrite rd_exact_before by apply put_bits_length. cbn [result_map_err]. rewrite E.
  by rewrite take_app_length.
Qed.

Lemma bits_roundtrip_witness :
  exists r, get_bits 9 (before (put_bits [true; false; true; true; false; false; true; false; true]) r) =
    Ok ([true; false; true; true; false; false; true; false; true], mkReader [7] 2 1 0%nat).
Proof.
  exists (mkReader [7] 0 1 0%nat). set (bs := [true; false; true; true; false; false; true; false; true]).
  destruct (bits_roundtrip bs (mkReader [7] 0 1 0%nat)) as (_ & _ & H); [by right|exact H].
Defined.
