(* ===== verification/Codecs.v ===== *)
(** Codecs of composed data: what a writer and a reader built from others promise when these do
    ([Vlq.Codec]). *)

From S2P Require Import Prelude Vlq.

(** * A field after another *)

Definition put_seq (k l : option (list Z)) : option (list Z) := k1 ← k; l1 ← l; Some (k1 ++ l1).

Lemma put_seq_Some k l out : put_seq k l = Some out -> exists k1 l1, k = Some k1 /\ l = Some l1 /\ out = k1 ++ l1.
Proof. unfold put_seq. destruct k, l; cbn; naive_solver. Qed.

Lemma put_seq_puts k l :
  (exists k1, k = Some k1 /\ byte_list k1) -> (exists l1, l = Some l1 /\ byte_list l1) ->
  exists out, put_seq k l = Some out /\ byte_list out.
Proof. intros (k1 & -> & H1) (l1 & -> & H2). eexists. split; [done|]. by apply Forall_app. Qed.

#[export] Instance Ok_inj E A : Inj (=) (=) (@Ok E A).
Proof. by intros ?? [= ->]. Qed.

(** Reading the first of two fields. *)
Lemma codec_first {E A} (good : A -> Prop) put (get : stateE reader E A) `{!Codec good put get} x k l r :
  good x -> put x = Some k -> readable (past (k ++ l) r) ->
  get (before (k ++ l) r) = Ok (x, past k (before l r)) /\ readable (past l (past k r)).
Proof.
  intros Hx Hk Hr. rewrite before_app, (codec_roundtrip x k).
  - split; [done|]. by rewrite past_app.
  - done.
  - done.
  - apply (readable_past l). by rewrite past_app.
Qed.

(** A part of the input, in a computation that goes on after it. *)
Lemma read_step {E A B} (get : stateE reader E A) y k l r (f : A -> stateE reader E B) :
  get (before k (before l r)) = Ok (y, past k (before l r)) -> (get ≫= f) (before (k ++ l) r) = f y (before l (past k r)).
Proof. intros H. unfold mbind, stateE_bind. by rewrite before_app, H. Qed.

(** A field; and the last one. *)
Lemma read_field {E A B} (good : A -> Prop) put (get : stateE reader E A) `{!Codec good put get} x k l r
    (f : A -> stateE reader E B) :
  good x -> put x = Some k -> readable (past (k ++ l) r) -> (get ≫= f) (before (k ++ l) r) = f x (before l (past k r)).
Proof.
  intros Hx Hk Hr. apply read_step, codec_roundtrip; [done|done|]. apply (readable_past l). by rewrite past_app.
Qed.

Lemma read_last {E A B} (good : A -> Prop) put (get : stateE reader E A) `{!Codec good put get} x k r
    (f : A -> stateE reader E B) :
  good x -> put x = Some k -> readable (past k r) -> (get ≫= f) (before k r) = f x (past k r).
Proof. intros Hx Hk Hr. rewrite <- (app_nil_r k) at 1. rewrite (read_field good put get x), before_nil by (rewrite ?app_nil_r; done). done. Qed.

(** Reading the field [x], whose bytes come first in those that [Hr] says are readable. *)
Ltac next_field Hr good put x :=
  rewrite (read_field good put _ x); [|solve [auto]|reflexivity || eassumption|exact Hr]; rewrite <- past_app in Hr.

#[export] Instance pair_codec {E A B} (gooda : A -> Prop) puta (geta : stateE reader E A)
    (goodb : B -> Prop) putb (getb : stateE reader E B) :
  Codec gooda puta geta -> Codec goodb putb getb ->
  Codec (fun p => gooda p.1 /\ goodb p.2) (fun p => put_seq (puta p.1) (putb p.2))
    (a ← geta; b ← getb; mret (a, b)).
Proof.
  intros Ha Hb. split.
  - intros [a b] [Ga Gb]. apply put_seq_puts; by apply codec_puts.
  - intros [a b] l r [Ga Gb] Hl Hr. apply put_seq_Some in Hl as (k1 & l1 & Hk & Hl & ->). cbn [fst snd] in *.
    unfold mbind, stateE_bind, mret, stateE_ret.
    destruct (codec_first gooda puta geta a k1 l1 r Ga Hk Hr) as [-> Hr1].
    by rewrite past_before, (codec_roundtrip b l1), past_app.
Qed.

(** A codec through functions that are inverse on the good values. *)
Lemma map_codec {E A B} (gooda : A -> Prop) (put : A -> option (list Z)) (get : stateE reader E A)
    (goodb : B -> Prop) (f : B -> A) (g : A -> stateE reader E B) :
  Codec gooda put get -> (forall b, goodb b -> gooda (f b)) -> (forall b r, goodb b -> g (f b) r = Ok (b, r)) ->
  Codec goodb (fun b => put (f b)) (a ← get; g a).
Proof.
  intros H Hf Hg. split.
  - intros b Hb. by apply codec_puts, Hf.
  - intros b l r Hb Hl Hr. unfold mbind, stateE_bind. rewrite (codec_roundtrip (f b) l); [|by apply Hf|done|done]. by apply Hg.
Qed.

(** * Lists of a known length *)

Definition put_list {A} (put : A -> option (list Z)) (l : list A) : option (list Z) :=
  foldr (fun x out => put_seq (put x) out) (Some []) l.

(** [for _ in 0..n { v.push(get()?) }] *)
Fixpoint get_list {E A} (get : stateE reader E A) (n : nat) : stateE reader E (list A) :=
  match n with
  | O => mret []
  | S n => x ← get; l ← get_list get n; mret (x :: l)
  end.

Lemma put_list_puts {E A} (good : A -> Prop) put (get : stateE reader E A) `{!Codec good put get} l :
  Forall good l -> exists out, put_list put l = Some out /\ byte_list out.
Proof.
  induction 1 as [|x l Hx _ IH]; [exists []; by split; [|constructor]|]. apply put_seq_puts; [by apply codec_puts|exact IH].
Qed.

Lemma get_list_roundtrip {E A} (good : A -> Prop) put (get : stateE reader E A) `{!Codec good put get} l : forall out r,
  Forall good l -> put_list put l = Some out -> readable (past out r) ->
  get_list get (length l) (before out r) = Ok (l, past out r).
Proof.
  induction l as [|x l IH]; intros out r Hl Ho Hr.
  - injection Ho as <-. cbn. by rewrite before_nil, past_nil.
  - apply Forall_cons in Hl as [Hx Hl]. cbn [put_list foldr] in Ho.
    apply put_seq_Some in Ho as (k1 & l1 & Hk & Ho & ->). cbn [length get_list].
    unfold mbind, stateE_bind, mret, stateE_ret.
    destruct (codec_first good put get x k1 l1 r Hx Hk Hr) as [-> Hr1].
    by rewrite past_before, IH, past_app.
Qed.

(** A count and then the elements. *)
#[export] Instance counted_codec {E A} (goodn : Z -> Prop) putn (getn : stateE reader E Z)
    (good : A -> Prop) put (get : stateE reader E A) :
  Codec goodn putn getn -> Codec good put get ->
  Codec (fun l => goodn (Z.of_nat (length l)) /\ Forall good l)
    (fun l => put_seq (putn (Z.of_nat (length l))) (put_list put l))
    (n ← getn; get_list get (Z.to_nat n)).
Proof.
  intros Hn Hx. split.
  - intros l [G1 G2]. apply put_seq_puts; [by apply codec_puts|by eapply put_list_puts].
  - intros l out r [G1 G2] Ho Hr. apply put_seq_Some in Ho as (k1 & l1 & Hk & Ho & ->).
    unfold mbind, stateE_bind. destruct (codec_first goodn putn getn (Z.of_nat (length l)) k1 l1 r G1 Hk Hr) as [-> Hr1].
    rewrite past_before, Nat2Z.id, (get_list_roundtrip good put get); [by rewrite past_app|done..].
Qed.

(** * Fields of a fixed width *)

(** Bytes as they are. *)
Lemma exact_codec n : Codec (fun l => length l = n /\ byte_list l) Some (rd_exact n).
Proof.
  split; [by intros l [_ ?]; exists l|]. intros l k r [Hl _] [= <-] _. by apply rd_exact_before.
Qed.

Lemma bytes_into_codec n : Codec (fun l => length l = n /\ byte_list l) Some (get_bytes_into n).
Proof.
  split; [by intros l [_ ?]; exists l|]. intros l k r [Hl _] [= <-] Hr. unfold get_bytes_into, mbind, stateE_bind.
  rewrite check_readable by by eapply before_readable. by apply rd_exact_before.
Qed.

(** A big-endian number. *)
Lemma be_codec n : Codec (fun v => 0 <= v < 256 ^ Z.of_nat n) (fun v => Some (be_bytes n v)) (bs ← rd_exact n; mret (be_val bs)).
Proof.
  apply (map_codec (fun l => length l = n /\ byte_list l) Some (rd_exact n)); [apply exact_codec| |].
  - intros v _. split; [apply length_be_bytes|apply be_bytes_range].
  - intros v r Hv. unfold mret, stateE_ret. by rewrite be_val_bytes.
Qed.

(** * What a parser promises on any bytes *)

(** A success only consumed bytes and has [P], an error has [Q]. *)
Definition yields {E A} (Q : E -> Prop) (P : A -> Prop) (m : stateE reader E A) : Prop :=
  forall r, byte_list (rd_bytes r) ->
    match m r with Ok (a, r') => moved r r' /\ P a | Err e => Q e end.

Lemma moved_bytes r r' : moved r r' -> byte_list (rd_bytes r) -> byte_list (rd_bytes r').
Proof. intros (l & E & _) H. rewrite E in H. by apply Forall_app in H as [_ H]. Qed.

Section yields.
Context {E : Type} (Q : E -> Prop).

Lemma yields_ret {A} (P : A -> Prop) a : P a -> yields Q P (mret a).
Proof. intros H r _. by split. Qed.

Lemma yields_fail {A} (P : A -> Prop) e : Q e -> yields Q P (fail e).
Proof. by intros H r _. Qed.

Lemma yields_bind {A B} (P : A -> Prop) (R : B -> Prop) m f :
  yields Q P m -> (forall a, P a -> yields Q R (f a)) -> yields Q R (m ≫= f).
Proof.
  intros Hm Hf r Hr. specialize (Hm r Hr). unfold mbind, stateE_bind. destruct (m r) as [[a r1]|]; [|done].
  destruct Hm as [Hmv Ha]. specialize (Hf a Ha r1 (moved_bytes r r1 Hmv Hr)). destruct (f a r1) as [[b r2]|]; [|done].
  destruct Hf as [Hmv2 Hb]. split; [by etrans|done].
Qed.

Lemma yields_fmap {A B} (P : A -> Prop) (R : B -> Prop) (f : A -> B) m :
  yields Q P m -> (forall a, P a -> R (f a)) -> yields Q R (f <$> m).
Proof.
  intros Hm Hf r Hr. specialize (Hm r Hr). unfold fmap, stateE_fmap. destruct (m r) as [[a r1]|]; [|done].
  destruct Hm. split; [done|]. by apply Hf.
Qed.

Lemma yields_lift {A} (P : A -> Prop) (x : result E A) :
  match x with Ok a => P a | Err e => Q e end -> yields Q P (liftE x).
Proof. intros H r _. unfold liftE. destruct x; by try split. Qed.

Lemma yields_list {A} (P : A -> Prop) m n : yields Q P m -> yields Q (fun l => length l = n /\ Forall P l) (get_list m n).
Proof.
  intros Hm. induction n as [|n IH]; cbn [get_list]; [by apply yields_ret; split; [|constructor]|].
  eapply yields_bind; [exact Hm|]. intros x Hx. eapply yields_bind; [exact IH|]. intros l [Hl HP]. apply yields_ret.
  split; [cbn; by f_equal|by constructor].
Qed.

Lemma yields_weaken {A} (P R : A -> Prop) m : yields Q P m -> (forall a, P a -> R a) -> yields Q R m.
Proof. intros Hm H r Hr. specialize (Hm r Hr). destruct (m r) as [[a r1]|]; [|done]. destruct Hm. split; auto. Qed.

Lemma yields_check (f : io_error -> E) : (forall e, Q (f e)) -> yields Q (fun _ => True) (map_st_err f check_position_limit).
Proof.
  intros H r _. unfold map_st_err, check_position_limit, result_map_err.
  destruct (_ =? _); [by split|]. destruct (_ >? _); [apply H|by split].
Qed.

Lemma yields_exact (f : io_error -> E) n : (forall e, Q (f e)) ->
  yields Q (fun l => length l = n /\ byte_list l) (map_st_err f (rd_exact n)).
Proof.
  intros H r Hr. pose proof (reads_exact n r) as Hm. unfold map_st_err, result_map_err. unfold rd_exact in *.
  destruct (Nat.ltb_spec (length (rd_bytes r)) n); [apply H|]. split; [by eapply Hm|].
  rewrite length_take. split; [lia|]. by apply Forall_take.
Qed.

Lemma yields_bytes_into (f : io_error -> E) n : (forall e, Q (f e)) ->
  yields Q (fun l => length l = n /\ byte_list l) (map_st_err f (get_bytes_into n)).
Proof.
  intros H r Hr. pose proof (yields_bind _ _ _ _ (yields_check f H) (fun _ _ => yields_exact f n H) r Hr) as Hy.
  unfold map_st_err, get_bytes_into, mbind, stateE_bind in *. destruct (check_position_limit r) as [[u r1]|]; [|done].
  cbn [result_map_err] in Hy. done.
Qed.

Lemma yields_u8 (f : io_error -> E) : (forall e, Q (f e)) -> yields Q (in_u 8) (map_st_err f get_u8).
Proof.
  intros H r Hr. pose proof (yields_bytes_into f 1 H r Hr) as Hy.
  unfold map_st_err, get_bytes_into, get_u8, mbind, stateE_bind in *. destruct (check_position_limit r) as [[u r1]|]; [|done].
  destruct (rd_exact 1 r1) as [[l r2]|]; [|done]. cbn [result_map_err mret stateE_ret] in *.
  destruct Hy as (Hm & Hl & Hb). split; [done|]. destruct l as [|b [|]]; try done. cbn. by inversion Hb.
Qed.

(** A number of the eight-byte format, and those of its conversions. *)
Lemma yields_u64 (f : VlqEncodingError -> E) : (forall e, Q (f e)) -> yields Q (in_u 64) (map_st_err f get_u64).
Proof.
  intros H r Hr. pose proof (reads_u64 r) as Hm. unfold map_st_err, result_map_err. destruct (get_u64 r) as [[v r1]|] eqn:Ev; [|apply H].
  split; [by eapply Hm|]. unfold get_u64 in Ev. apply st_bind_Ok in Ev as (u & r2 & _ & Ev). clear -Ev. revert Ev.
  generalize 0. generalize vlq_shifts. intros shifts. revert r2. induction shifts as [|s l IH]; intros r2 acc Ev; cbn [get_u64_loop] in Ev; [done|].
  apply st_bind_Ok in Ev as (sl & r3 & _ & Ev). destruct (_ =? 0); [|by eapply IH]. unfold mret, stateE_ret in Ev. injection Ev as <- _.
  by apply wrap_u_range.
Qed.
End yields.
