(* ===== verification/SigmaSerial.v ===== *)
(** Serialization of sigma propositions (src/ergotree-ir/src/serialization/sigmaboolean.rs and
    op_code.rs, the [SigmaSerializable] implementations in cand.rs, cor.rs and cthreshold.rs, the
    point format of src/ergo-chain-types/src/ec_point.rs) and the nesting level of
    [SigmaByteReader]: a writer that gives bytes or an error, a reader over [Vlq.reader], the round
    trip between them and what a successful parse promises. *)

From S2P Require Import Prelude Gf2Field SigmaBoolean ConcreteCrypto Vlq.

(** * Errors *)

(** The variants that occur here, without their texts; the headers' serializer fails with the first type. *)
Inductive ScorexSerializationError : Type :=
| ScorexTryFrom
| ScorexSerMisc
(** A panicking writer. *)
| ScorexSerPanic.

Inductive SigmaSerializationError : Type :=
| SerNotSupported
| SerUnexpectedValue
| SerScorex (e : ScorexSerializationError)
(** A panicking writer. *)
| SerPanic.

Inductive ScorexParsingError : Type :=
| ScorexIo
| ScorexVlqEncode (e : VlqEncodingError)
| ScorexMisc
| ScorexValueOutOfBounds
| ScorexPositionLimitExceeded.

Inductive SigmaParsingError : Type :=
| SpVlqEncode (e : VlqEncodingError)
| SpIo
| SpPositionLimitExceeded
| SpScorex (e : ScorexParsingError)
| SpDeserializeCallDepthExceeded (level : nat)
| SpCthresholdOutOfBounds (k : Z) (n : nat)
| SpInvalidSigmaBooleanOpCode (b : Z)
| SpInvalidTypeCode (b : Z)
| SpInvalidTypePrefix
| SpInvalidTypeParameter
| SpTypeDepthExceeded (depth : nat)
| SpBoundedVecOutOfBounds (len : nat)
| SpNotSupported
| SpNonSerializableTypeCode (c : Z)
| SpInvalidBigIntSize (size : Z)
| SpZeroWidthCollection
| SpValueOutOfBounds
| SpV6TypeError
| SpUnevaluatedValue
| SpNegativeTupleSize (size : Z)
| SpNotImplementedOpCode (code : Z)
| SpConstantForPlaceholderNotFound (id : Z)
| SpValDefIdNotFound (id : Z)
| SpArrayLengthExceeded (len : Z)
| SpExceedsIntMax (v : Z)
| SpInvalidArgument
| SpCollectionInputExpected
| SpCollectionItemTypeMismatch
| SpNumericCastTargetNotNumeric
| SpNumericOperandExpected
| SpConstraintFailed
| SpIndexUpcastFailed
| SpBlockItemNotValDef
| SpOptionInputExpected
| SpFunctionExpected
| SpBitOpOperandsNotNumeric
| SpErgoTreeHeader
| SpTreeVersionAboveActivated (tree activated : Z)
| SpUnsizedTreeValidation
(** Not an error of the source: the model stops at the op code of a node that [Expr] leaves out. *)
| SpUnmodelledNode (code : Z)
(** Nor is this: the model stops where the data of a box begins. *)
| SpUnmodelledBox
(** A panic of the parser. *)
| SpPanic
(** The fuel of [sigma_parse_fuel], which [sigma_parse] never runs out of. *)
| SpOutOfFuel.

(** [From<io::Error>] of the two error types. *)
Definition scorex_io_error (e : io_error) : ScorexParsingError :=
  match e with InvalidData => ScorexPositionLimitExceeded | UnexpectedEof => ScorexIo end.
Definition sigma_io_error (e : io_error) : SigmaParsingError :=
  match e with InvalidData => SpPositionLimitExceeded | UnexpectedEof => SpIo end.

(** [SigmaParsingError::is_position_limit_exceeded] *)
Definition is_position_limit_exceeded (e : SigmaParsingError) : bool :=
  match e with
  | SpPositionLimitExceeded => true
  | SpVlqEncode VlqPositionLimitExceeded => true
  | SpScorex ScorexPositionLimitExceeded => true
  | SpScorex (ScorexVlqEncode VlqPositionLimitExceeded) => true
  | _ => false
  end.

(** * The reader's nesting level *)

Definition MAX_TREE_DEPTH : nat := 110.

Definition level : stateE reader SigmaParsingError nat := fun r => Ok (rd_level r, r).

Definition at_level (n : nat) (r : reader) : reader :=
  mkReader (rd_bytes r) (rd_position r) (rd_limit r) n.

Definition set_level (n : nat) : stateE reader SigmaParsingError unit :=
  fun r => if (MAX_TREE_DEPTH <? n)%nat then Err (SpDeserializeCallDepthExceeded n) else Ok (tt, at_level n r).

(** * Op codes *)

Definition LAST_CONSTANT_CODE : Z := 111 + 1.
Definition new_op_code (shift : Z) : Z := LAST_CONSTANT_CODE + shift.
Definition AND : Z := new_op_code 38.
Definition OR : Z := new_op_code 39.
Definition ATLEAST : Z := new_op_code 40.
Definition PROVE_DLOG : Z := new_op_code 93.
Definition PROVE_DIFFIE_HELLMAN_TUPLE : Z := new_op_code 94.
Definition TRIVIAL_PROP_FALSE : Z := new_op_code 98.
Definition TRIVIAL_PROP_TRUE : Z := new_op_code 99.

Section serial.
Context `{C : SigmaCrypto}.

Definition conj_op_code (c : conjecture) : Z :=
  match c with Cand => AND | Cor => OR | Cthreshold _ => ATLEAST end.

(** [HasOpCode for SigmaBoolean] *)
Definition op_code (sb : SigmaBoolean) : Z :=
  match sb with
  | ProofOfKnowledge (ProveDhTuple _ _ _ _) => PROVE_DIFFIE_HELLMAN_TUPLE
  | ProofOfKnowledge (ProveDlog _) => PROVE_DLOG
  | SigmaConjecture c _ => conj_op_code c
  | TrivialProp tp => if tp then TRIVIAL_PROP_TRUE else TRIVIAL_PROP_FALSE
  end.

(** * The writer *)

Definition pok_serialize (t : SigmaProofOfKnowledgeTree) : list Z :=
  match t with
  | ProveDlog h => ec_point_bytes h
  | ProveDhTuple g h u v => ec_point_bytes g ++ ec_point_bytes h ++ ec_point_bytes u ++ ec_point_bytes v
  end.

(** What the three conjectures write before their items: CAND and COR refuse a count above [u16],
    CTHRESHOLD casts its own, which its vector bounds by 255. *)
Definition conj_header (c : conjecture) (len : nat) : result SigmaSerializationError (list Z) :=
  match c with
  | Cthreshold k =>
      k ← ok_or (put_u16 k) SerPanic;
      n ← ok_or (put_u16 (wrap_u 16 (Z.of_nat len))) SerPanic;
      Ok (k ++ n)
  | _ =>
      if Z.of_nat len <? 2 ^ 16 then ok_or (put_u16 (Z.of_nat len)) SerPanic
      else Err SerNotSupported
  end.

Fixpoint sigma_serialize (sb : SigmaBoolean) : result SigmaSerializationError (list Z) :=
  match sb with
  | ProofOfKnowledge t => Ok (put_u8 (op_code sb) ++ pok_serialize t)
  | SigmaConjecture c items =>
      header ← conj_header c (length items);
      items ← mapM_res sigma_serialize items;
      Ok (put_u8 (op_code sb) ++ header ++ concat items)
  | TrivialProp _ => Ok (put_u8 (op_code sb))
  end.
End serial.

(** * The reader *)

(** [PublicKey::from_sec1_bytes] and [to_projective] of crate k256. *)
Class SigmaCryptoParsing (C : SigmaCrypto) : Type := {
  from_sec1_bytes : list Z -> option ProjectivePoint
}.

(** The compressed SEC1 form of a point that is not the identity has 33 bytes, a tag that is
    not zero, and reads back. *)
Class SigmaCryptoParsingLaws (C : SigmaCrypto) (P : SigmaCryptoParsing C) : Prop := {
  sec1_len p : p <> pp_identity -> length (sec1_bytes p) = 33%nat;
  sec1_range p : p <> pp_identity -> byte_list (sec1_bytes p);
  sec1_tag p : p <> pp_identity -> sec1_bytes p !!! 0%nat <> 0;
  sec1_roundtrip p : p <> pp_identity -> from_sec1_bytes (sec1_bytes p) = Some p
}.

(** [for _ in 0..n { items.push(m(r)?) }] *)
Section repeatM.
Context {S E A : Type} (m : stateE S E A).
Fixpoint repeatM (n : nat) : stateE S E (list A) :=
  match n with
  | O => mret []
  | Datatypes.S n => x ← m; xs ← repeatM n; mret (x :: xs)
  end.
End repeatM.

Section parse.
Context `{C : SigmaCrypto} `{P : !SigmaCryptoParsing C}.

(** [EcPoint::scorex_parse] *)
Definition ec_point_parse : stateE reader ScorexParsingError EcPoint :=
  buf ← map_st_err scorex_io_error (get_bytes_into 33);
  if negb (buf !!! 0%nat =? 0) then liftE (ok_or (from_sec1_bytes buf) ScorexMisc)
  else mret identity.

Definition sigma_ec_point : stateE reader SigmaParsingError EcPoint := map_st_err SpScorex ec_point_parse.

Definition prove_dlog_parse : stateE reader SigmaParsingError SigmaProofOfKnowledgeTree :=
  p ← sigma_ec_point; mret (ProveDlog p).

Definition prove_dh_tuple_parse : stateE reader SigmaParsingError SigmaProofOfKnowledgeTree :=
  g ← sigma_ec_point; h ← sigma_ec_point; u ← sigma_ec_point; v ← sigma_ec_point;
  mret (ProveDhTuple g h u v).

(** Reading a count. *)
Definition count_u16 : stateE reader SigmaParsingError Z := map_st_err SpVlqEncode get_u16.

(** [Cand::sigma_parse] and [Cor::sigma_parse], with the parser of the items. *)
Definition conj_parse (item : stateE reader SigmaParsingError SigmaBoolean) (c : conjecture) :
    stateE reader SigmaParsingError SigmaBoolean :=
  items_count ← count_u16;
  items ← repeatM item (Z.to_nat items_count);
  mret (SigmaConjecture c items).

(** [Cthreshold::sigma_parse]: its conversion of the items to a bounded vector succeeds after the
    check. *)
Definition cthreshold_parse (item : stateE reader SigmaParsingError SigmaBoolean) :
    stateE reader SigmaParsingError SigmaBoolean :=
  k ← count_u16;
  items_count ← count_u16;
  items ← repeatM item (Z.to_nat items_count);
  if (255 <? length items)%nat || (k >? Z.of_nat (length items)) then
    fail (SpCthresholdOutOfBounds k (length items))
  else mret (SigmaConjecture (Cthreshold (wrap_u 8 k)) items).

(** The match on the op code. *)
Definition body_parse (item : stateE reader SigmaParsingError SigmaBoolean) (op_code : Z) :
    stateE reader SigmaParsingError SigmaBoolean :=
  if op_code =? PROVE_DLOG then ProofOfKnowledge <$> prove_dlog_parse
  else if op_code =? PROVE_DIFFIE_HELLMAN_TUPLE then ProofOfKnowledge <$> prove_dh_tuple_parse
  else if op_code =? AND then conj_parse item Cand
  else if op_code =? OR then conj_parse item Cor
  else if op_code =? ATLEAST then cthreshold_parse item
  else if op_code =? TRIVIAL_PROP_TRUE then mret (TrivialProp true)
  else if op_code =? TRIVIAL_PROP_FALSE then mret (TrivialProp false)
  else fail (SpInvalidSigmaBooleanOpCode op_code).

(** [SigmaBoolean::sigma_parse]: a node is one nesting level. *)
Fixpoint sigma_parse_fuel (fuel : nat) : stateE reader SigmaParsingError SigmaBoolean :=
  match fuel with
  | O => fail SpOutOfFuel
  | S fuel =>
      depth ← level;
      _ ← set_level (depth + 1)%nat;
      op_code ← map_st_err sigma_io_error get_u8;
      sigma_boolean ← body_parse (sigma_parse_fuel fuel) op_code;
      depth ← level;
      _ ← set_level (depth - 1)%nat;
      mret sigma_boolean
  end.

(** The level bounds the recursion. *)
Definition parse_fuel (r : reader) : nat := S (MAX_TREE_DEPTH - rd_level r).

Definition sigma_parse : stateE reader SigmaParsingError SigmaBoolean :=
  fun r => sigma_parse_fuel (parse_fuel r) r.

Definition from_bytes (bytes : list Z) : reader := mkReader bytes 0 U64_MAX 0%nat.

(** [sigma_parse_bytes]: bytes left over are not looked at. *)
Definition sigma_parse_bytes (bytes : list Z) : result SigmaParsingError SigmaBoolean :=
  fst <$> sigma_parse (from_bytes bytes).
End parse.

(** * Bounded propositions *)

Section bounded.
Context `{C : SigmaCrypto}.

(** The counts the format has room for. *)
Definition conj_bounds (c : conjecture) (len : nat) : Prop :=
  match c with
  | Cthreshold k => 0 <= k <= Z.of_nat len /\ Z.of_nat len <= 255
  | _ => Z.of_nat len < 2 ^ 16
  end.

Inductive bounded : SigmaBoolean -> Prop :=
| bounded_trivial b : bounded (TrivialProp b)
| bounded_leaf t : bounded (ProofOfKnowledge t)
| bounded_conj c items : conj_bounds c (length items) -> Forall bounded items -> bounded (SigmaConjecture c items).

Lemma put_u16_ok v : in_u 16 v -> exists l, put_u16 v = Some l /\ byte_list l.
Proof. intros H. by apply (codec_puts (get := get_u16) v). Qed.

Lemma conj_header_ok c len :
  conj_bounds c len -> exists l, conj_header c len = Ok l /\ byte_list l.
Proof.
  intros H. destruct c as [| |k]; cbn [conj_bounds conj_header] in *.
  1-2: destruct (Z.ltb_spec (Z.of_nat len) (2 ^ 16)); [|lia];
    destruct (put_u16_ok (Z.of_nat len)) as (l & -> & Hl); [unfold in_u; lia|]; by exists l.
  destruct (put_u16_ok k) as (l1 & -> & H1); [unfold in_u; lia|].
  destruct (put_u16_ok (wrap_u 16 (Z.of_nat len))) as (l2 & -> & H2); [by apply wrap_u_range|].
  exists (l1 ++ l2). split; [done|]. by apply Forall_app.
Qed.
End bounded.

(** * The round trip *)

Section roundtrip.
Context `{C : SigmaCrypto} `{P : !SigmaCryptoParsing C} `{PL : !SigmaCryptoParsingLaws C P}.

Lemma ec_point_bytes_len p : length (ec_point_bytes p) = 33%nat.
Proof.
  unfold ec_point_bytes, is_identity. case_bool_decide; [by rewrite length_replicate|by apply sec1_len].
Qed.

Lemma ec_point_bytes_range p : byte_list (ec_point_bytes p).
Proof.
  unfold ec_point_bytes, is_identity. case_bool_decide; [|by apply sec1_range].
  apply Forall_replicate. unfold in_u. lia.
Qed.

#[export] Instance ec_point_codec : Codec (fun _ => True) (fun p => Some (ec_point_bytes p)) ec_point_parse.
Proof.
  split.
  - intros p _. eexists. split; [done|]. apply ec_point_bytes_range.
  - intros p l r _ [= <-] Hr. unfold ec_point_parse, mbind, stateE_bind, map_st_err, get_bytes_into.
    unfold mbind, stateE_bind. rewrite check_readable by by eapply before_readable.
    rewrite rd_exact_before by apply ec_point_bytes_len. cbn [result_map_err].
    unfold ec_point_bytes, is_identity. case_bool_decide as E; [by rewrite E|].
    destruct (Z.eqb_spec (sec1_bytes p !!! 0%nat) 0) as [H0|_]; [by apply sec1_tag in H0|].
    cbn [negb]. unfold liftE. by rewrite sec1_roundtrip.
Qed.

#[export] Instance sigma_ec_point_codec : Codec (fun _ => True) (fun p => Some (ec_point_bytes p)) sigma_ec_point.
Proof. apply _. Qed.

#[export] Instance count_codec : Codec (in_u 16) put_u16 count_u16.
Proof. apply _. Qed.

Lemma sigma_ec_point_back p r :
  readable (past (ec_point_bytes p) r) ->
  sigma_ec_point (before (ec_point_bytes p) r) = Ok (p, past (ec_point_bytes p) r).
Proof. intros Hr. by apply (codec_roundtrip (put := fun p => Some (ec_point_bytes p))). Qed.

Lemma pok_serialize_range t : byte_list (pok_serialize t).
Proof. destruct t; cbn [pok_serialize]; unfold byte_list; rewrite ?Forall_app; split_and?; apply ec_point_bytes_range. Qed.

Lemma op_code_range sb : in_u 8 (op_code sb).
Proof. destruct sb as [[]|[]|[]]; (split; vm_compute; congruence). Qed.

Lemma sigma_serialize_ok sb : bounded sb -> exists l, sigma_serialize sb = Ok l /\ byte_list l.
Proof.
  induction sb as [b|t|c items IH] using SigmaBoolean_ind'; intros Hb.
  - eexists. split; [done|]. apply Forall_singleton, op_code_range.
  - eexists. split; [done|]. constructor; [apply op_code_range|apply pok_serialize_range].
  - inversion Hb as [| |? ? Hc Hi]; subst. destruct (conj_header_ok c _ Hc) as (h & Eh & Hh).
    assert (exists ls, mapM_res sigma_serialize items = Ok ls /\ Forall byte_list ls) as (ls & E & Hls).
    { clear Hc Eh Hb. induction items as [|x items IHi]; [by exists []|].
      apply Forall_cons in IH as [IHx IH]. apply Forall_cons in Hi as [Hx Hi].
      destruct (IHx Hx) as (l & El & Hl). destruct (IHi IH Hi) as (ls & Els & Hls).
      exists (l :: ls). cbn [mapM_res]. rewrite El. cbn. rewrite Els. split; [done|by constructor]. }
    cbn [sigma_serialize]. rewrite Eh. cbn. rewrite E. eexists. split; [done|].
    constructor; [apply (op_code_range (SigmaConjecture c items))|]. apply Forall_app. split; [done|].
    by apply Forall_concat.
Qed.

(** What a parse of the bytes of [sb] at level [n] gives: [sb] if the levels allow its depth, the
    error of the first level above them if not. *)
Definition deep {A} (n d : nat) (x : A) : result SigmaParsingError A :=
  if (n + d <=? MAX_TREE_DEPTH)%nat then Ok x else Err (SpDeserializeCallDepthExceeded (S MAX_TREE_DEPTH)).

Definition reads_back (item : stateE reader SigmaParsingError SigmaBoolean) (n : nat) (sb : SigmaBoolean) (l : list Z) : Prop :=
  forall r, rd_level r = n -> readable (past l r) -> item (before l r) = deep n (sb_depth sb) (sb, past l r).

Lemma repeatM_back item n items ls :
  (n <= MAX_TREE_DEPTH)%nat -> Forall2 (reads_back item n) items ls ->
  forall r, rd_level r = n -> readable (past (concat ls) r) ->
  repeatM item (length items) (before (concat ls) r) =
    deep n (max_list_with sb_depth items) (items, past (concat ls) r).
Proof.
  intros Hn. induction 1 as [|sb l items ls Hsb _ IH]; intros r Hlev Hr.
  - unfold deep. cbn [max_list_with]. destruct (Nat.leb_spec (n + 0) MAX_TREE_DEPTH); [|lia].
    cbn [concat]. by rewrite before_nil, past_nil.
  - cbn [length concat repeatM] in *. rewrite before_app. unfold mbind, stateE_bind.
    rewrite <- (past_app l) in *. rewrite Hsb by (done || readable).
    unfold deep. cbn [max_list_with]. rewrite past_before.
    destruct (Nat.leb_spec (n + sb_depth sb) MAX_TREE_DEPTH).
    + rewrite IH by done. unfold deep, mret, stateE_ret.
      destruct (Nat.leb_spec (n + max_list_with sb_depth items) MAX_TREE_DEPTH),
        (Nat.leb_spec (n + sb_depth sb `max` max_list_with sb_depth items) MAX_TREE_DEPTH); try lia; done.
    + by destruct (Nat.leb_spec (n + sb_depth sb `max` max_list_with sb_depth items) MAX_TREE_DEPTH); [lia|].
Qed.

Lemma count_back v l r :
  in_u 16 v -> put_u16 v = Some l -> readable (past l r) -> count_u16 (before l r) = Ok (v, past l r).
Proof. apply codec_roundtrip. Qed.

Lemma pok_back item t r :
  readable (past (pok_serialize t) r) ->
  body_parse item (op_code (ProofOfKnowledge t)) (before (pok_serialize t) r) =
    Ok (ProofOfKnowledge t, past (pok_serialize t) r).
Proof.
  destruct t as [g h u v|h]; cbn [pok_serialize op_code]; intros Hr.
  - change (body_parse item PROVE_DIFFIE_HELLMAN_TUPLE) with (ProofOfKnowledge <$> prove_dh_tuple_parse).
    rewrite <- !past_app in *. unfold fmap, stateE_fmap, prove_dh_tuple_parse, mbind, stateE_bind.
    do 3 (rewrite before_app, sigma_ec_point_back, past_before by readable).
    by rewrite sigma_ec_point_back.
  - change (body_parse item PROVE_DLOG) with (ProofOfKnowledge <$> prove_dlog_parse).
    unfold fmap, stateE_fmap, prove_dlog_parse, mbind, stateE_bind. by rewrite sigma_ec_point_back.
Qed.

(** Every conjecture reads its header and then its items. *)
Lemma conj_back item n c items h ls r :
  (n <= MAX_TREE_DEPTH)%nat -> conj_bounds c (length items) -> conj_header c (length items) = Ok h ->
  Forall2 (reads_back item n) items ls -> rd_level r = n -> readable (past (h ++ concat ls) r) ->
  body_parse item (conj_op_code c) (before (h ++ concat ls) r) =
    deep n (max_list_with sb_depth items) (SigmaConjecture c items, past (h ++ concat ls) r).
Proof.
  intros Hn Hc Hh Hls Hlev Hr. rewrite before_app, <- past_app in *.
  assert (forall v, Z.of_nat (length items) = v -> Z.to_nat v = length items) as Hlen by lia.
  destruct c as [| |k]; cbn [conj_bounds conj_header conj_op_code] in *.
  1-2: destruct (Z.ltb_spec (Z.of_nat (length items)) (2 ^ 16)); [|lia];
    destruct (put_u16 (Z.of_nat (length items))) as [l|] eqn:El; [|done]; injection Hh as ->;
    change (body_parse item _) with (conj_parse item Cand) || change (body_parse item _) with (conj_parse item Cor);
    unfold conj_parse, mbind, stateE_bind;
    rewrite (count_back (Z.of_nat (length items)) h) by (done || readable || (unfold in_u; lia));
    rewrite past_before, (Hlen _ eq_refl), (repeatM_back item n items ls) by done;
    unfold deep; by destruct (_ <=? MAX_TREE_DEPTH)%nat.
  rewrite wrap_u_id in Hh by (unfold in_u; lia).
  destruct (put_u16 k) as [l1|] eqn:E1; [|done].
  destruct (put_u16 (Z.of_nat (length items))) as [l2|] eqn:E2; [|done]. injection Hh as <-.
  change (body_parse item _) with (cthreshold_parse item). rewrite before_app, <- past_app in *.
  unfold cthreshold_parse, mbind, stateE_bind.
  rewrite (count_back k l1) by (done || readable || (unfold in_u; lia)). rewrite !past_before.
  rewrite (count_back (Z.of_nat (length items)) l2) by (done || readable || (unfold in_u; lia)).
  rewrite past_before, (Hlen _ eq_refl), (repeatM_back item n items ls) by done.
  unfold deep. destruct (_ <=? MAX_TREE_DEPTH)%nat; [|done].
  destruct (Nat.ltb_spec 255 (length items)); [lia|]. rewrite Z.gtb_ltb.
  destruct (Z.ltb_spec (Z.of_nat (length items)) k); [lia|]. cbn [orb].
  rewrite wrap_u_id by (unfold in_u; lia). done.
Qed.

Lemma at_level_past n l r : at_level n (past l r) = past l (at_level n r).
Proof. done. Qed.

Lemma at_level_before n l r : at_level n (before l r) = before l (at_level n r).
Proof. done. Qed.

Lemma at_level_readable n r : readable (at_level n r) <-> readable r.
Proof. done. Qed.

(** One node: the level, the op code and the body. *)
Lemma node_back fuel sb b l r :
  in_u 8 b -> (rd_level r <= MAX_TREE_DEPTH)%nat -> readable (past (b :: l) r) -> (0 < sb_depth sb)%nat ->
  ((rd_level r < MAX_TREE_DEPTH)%nat ->
   body_parse (sigma_parse_fuel fuel) b (before l (at_level (rd_level r + 1)%nat (past [b] r))) =
     deep (rd_level r + 1) (pred (sb_depth sb)) (sb, past l (at_level (rd_level r + 1)%nat (past [b] r)))) ->
  sigma_parse_fuel (S fuel) (before (b :: l) r) = deep (rd_level r) (sb_depth sb) (sb, past (b :: l) r).
Proof.
  intros Hb Hlev Hr Hd Hbody. cbn [sigma_parse_fuel]. unfold mbind, stateE_bind, level, set_level.
  cbn [before at_bytes rd_level]. unfold deep in *.
  destruct (Nat.ltb_spec MAX_TREE_DEPTH (rd_level r + 1)).
  { destruct (Nat.leb_spec (rd_level r + sb_depth sb) MAX_TREE_DEPTH); [lia|]. do 2 f_equal. lia. }
  unfold map_st_err. rewrite at_level_before, before_cons, get_u8_before by by (unfold at_level; readable).
  cbn [result_map_err]. rewrite past_before, <- at_level_past, Hbody by lia.
  replace (rd_level r + 1 + pred (sb_depth sb))%nat with (rd_level r + sb_depth sb)%nat by lia.
  destruct (rd_level r + sb_depth sb <=? MAX_TREE_DEPTH)%nat; [|done].
  change (rd_level (past l _)) with (rd_level r + 1)%nat.
  destruct (Nat.ltb_spec MAX_TREE_DEPTH (rd_level r + 1 - 1)); [lia|].
  unfold mret, stateE_ret. rewrite !at_level_past, past_app. cbn [app]. do 2 f_equal.
  unfold past, at_level. cbn. f_equal. lia.
Qed.

Lemma sigma_parse_fuel_back sb : forall l r fuel,
  bounded sb -> sigma_serialize sb = Ok l -> readable (past l r) -> (rd_level r <= MAX_TREE_DEPTH)%nat ->
  (MAX_TREE_DEPTH - rd_level r < fuel)%nat ->
  sigma_parse_fuel fuel (before l r) = deep (rd_level r) (sb_depth sb) (sb, past l r).
Proof.
  assert (forall n, (n < MAX_TREE_DEPTH)%nat -> (n + 1 + pred 1 <=? MAX_TREE_DEPTH)%nat = true) as Hleaf
    by (intros n Hn; apply Nat.leb_le; cbn; lia).
  induction sb as [b|t|c items IH] using SigmaBoolean_ind'; intros l r [|fuel] Hb Hl Hr Hlev Hf; try lia.
  - injection Hl as <-. apply (node_back fuel (TrivialProp b)); cbn [sb_depth]; [apply (op_code_range (TrivialProp b))|done|done|lia|].
    intros Hlt. rewrite before_nil, past_nil. unfold deep. rewrite Hleaf by done. by destruct b.
  - injection Hl as <-.
    apply (node_back fuel (ProofOfKnowledge t)); cbn [sb_depth]; [apply (op_code_range (ProofOfKnowledge t))|done|done|lia|].
    intros Hlt. etrans; [apply pok_back; by (unfold at_level; readable)|]. unfold deep. by rewrite Hleaf by done.
  - inversion Hb as [| |? ? Hc Hi]; subst. cbn [sigma_serialize] in Hl.
    apply bind_Ok_inv in Hl as (h & Hh & Hl). apply bind_Ok_inv in Hl as (ls & Hls & Hl). injection Hl as <-.
    apply (node_back fuel (SigmaConjecture c items)); cbn [sb_depth]; [by apply (op_code_range (SigmaConjecture c items))|done|done|lia|].
    intros Hlt. apply conj_back; try done; [lia| |by (unfold at_level; readable)].
    apply mapM_res_Forall2 in Hls. revert IH Hi. clear - Hls Hlev Hlt Hf.
    induction Hls as [|sb l items ls Hl _ IHls]; intros IH Hi; constructor.
    + intros r' Hr' Hread. apply Forall_cons in IH as [IH _]. apply Forall_cons in Hi as [Hi _].
      rewrite <- Hr'. apply IH; try done; lia.
    + apply Forall_cons in IH as [_ IH]. apply Forall_cons in Hi as [_ Hi]. by apply IHls.
Qed.
End roundtrip.

(** * What a successful parse promises *)

Section sound.
Context `{C : SigmaCrypto} `{P : !SigmaCryptoParsing C}.

Lemma reads_ec_point : reads sigma_ec_point.
Proof. unfold sigma_ec_point, ec_point_parse. auto 7 with reads. Qed.

Lemma reads_count : reads count_u16.
Proof. unfold count_u16. auto with reads. Qed.
#[local] Hint Resolve reads_ec_point reads_count : reads.

Lemma reads_repeatM {E A} (m : stateE reader E A) n : reads m -> reads (repeatM m n).
Proof. intros Hm. induction n; cbn [repeatM]; auto with reads. Qed.
#[local] Hint Resolve reads_repeatM : reads.

Lemma reads_body item b : reads item -> reads (body_parse item b).
Proof.
  intros Hm. unfold body_parse, prove_dlog_parse, prove_dh_tuple_parse, conj_parse, cthreshold_parse.
  repeat apply reads_if; auto 12 with reads.
Qed.

(** What a parse at level [n] promises: of the items of a node, and of a node's body. *)
Definition within (n : nat) (sb : SigmaBoolean) : Prop := bounded sb /\ (n + sb_depth sb <= MAX_TREE_DEPTH)%nat.
Definition inner (n : nat) (sb : SigmaBoolean) : Prop := bounded sb /\ (n + pred (sb_depth sb) <= MAX_TREE_DEPTH)%nat.

Definition item_within (item : stateE reader SigmaParsingError SigmaBoolean) (n : nat) : Prop :=
  forall r sb r', rd_level r = n -> item r = Ok (sb, r') -> within n sb.

Lemma moved_level r r' : moved r r' -> rd_level r' = rd_level r.
Proof. by intros (l & _ & _ & _ & H). Qed.

Lemma count_sound r k r' : count_u16 r = Ok (k, r') -> in_u 16 k /\ rd_level r' = rd_level r.
Proof.
  intros H. split; [|by eapply moved_level, reads_count].
  unfold count_u16, map_st_err, result_map_err in H. destruct (get_u16 r) as [[? ?]|] eqn:E; [|done].
  simplify_eq. by eapply get_u16_range.
Qed.

Section body.
Context (item : stateE reader SigmaParsingError SigmaBoolean) (n : nat).
Context (Hn : (n <= MAX_TREE_DEPTH)%nat) (Hm : reads item) (Hi : item_within item n).

Lemma repeatM_within k : forall r items r',
  rd_level r = n -> repeatM item k r = Ok (items, r') -> length items = k /\ Forall (within n) items.
Proof.
  induction k as [|k IH]; intros r items r' Hlev H; cbn [repeatM] in H.
  - injection H as <- <-. by split.
  - apply st_bind_Ok in H as (x & r1 & H1 & H). apply st_bind_Ok in H as (xs & r2 & H2 & H).
    injection H as <- <-. destruct (IH r1 xs r2) as [Hl HF]; [|done|].
    { rewrite <- Hlev. by eapply moved_level, Hm. }
    cbn [length]. split; [by f_equal|]. constructor; [by eapply Hi|done].
Qed.

Lemma inner_conj c items : conj_bounds c (length items) -> Forall (within n) items -> inner n (SigmaConjecture c items).
Proof.
  intros Hc HF. split.
  - constructor; [done|]. eapply Forall_impl; [exact HF|]. by intros ? [].
  - cbn [sb_depth]. enough (max_list_with sb_depth items <= MAX_TREE_DEPTH - n)%nat by lia.
    apply max_list_with_le. eapply Forall_impl; [exact HF|]. intros sb [_ H]. cbn beta. lia.
Qed.

Lemma conj_parse_sound c r sb r' :
  (c = Cand \/ c = Cor) -> rd_level r = n -> conj_parse item c r = Ok (sb, r') -> inner n sb.
Proof.
  intros Hc Hlev H. apply st_bind_Ok in H as (k & r1 & E1 & H). apply count_sound in E1 as [Hk E1].
  apply st_bind_Ok in H as (items & r2 & E2 & H). injection H as <- _.
  apply repeatM_within in E2 as [Hl HF]; [|congruence]. apply inner_conj; [|done].
  rewrite Hl. unfold in_u in Hk. destruct Hc as [-> | ->]; cbn [conj_bounds]; lia.
Qed.

Lemma cthreshold_parse_sound r sb r' : rd_level r = n -> cthreshold_parse item r = Ok (sb, r') -> inner n sb.
Proof.
  intros Hlev H. apply st_bind_Ok in H as (k & r1 & E1 & H). apply count_sound in E1 as [Hk E1].
  apply st_bind_Ok in H as (m & r2 & E2 & H). apply count_sound in E2 as [_ E2].
  apply st_bind_Ok in H as (items & r3 & E3 & H). apply repeatM_within in E3 as [Hl HF]; [|congruence].
  destruct (Nat.ltb_spec 255 (length items)); [done|]. rewrite Z.gtb_ltb in H.
  destruct (Z.ltb_spec (Z.of_nat (length items)) k); [done|]. injection H as <- _.
  apply inner_conj; [|done]. unfold in_u in Hk. cbn [conj_bounds]. rewrite wrap_u_id by (unfold in_u; lia). lia.
Qed.

Lemma body_sound b r sb r' : rd_level r = n -> body_parse item b r = Ok (sb, r') -> inner n sb.
Proof.
  intros Hlev H. unfold body_parse in H.
  assert (forall sb', bounded sb' -> sb_depth sb' = 1%nat -> inner n sb') as Hleaf
    by (intros sb' ? E; split; [done|rewrite E; cbn; lia]).
  assert (forall m : stateE reader SigmaParsingError SigmaProofOfKnowledgeTree,
    (ProofOfKnowledge <$> m) r = Ok (sb, r') -> inner n sb) as Hpok.
  { intros m E. unfold fmap, stateE_fmap in E. destruct (m r) as [[t ?]|]; [|done]. injection E as <- _.
    apply Hleaf; [constructor|done]. }
  repeat match type of H with (if ?b then _ else _) _ = _ => destruct b end;
    eauto using conj_parse_sound, cthreshold_parse_sound; try done;
    injection H as <- _; apply Hleaf; (constructor || done).
Qed.
End body.

Lemma node_inv fuel r sb r' :
  sigma_parse_fuel (S fuel) r = Ok (sb, r') ->
  exists b r1 r2, (rd_level r < MAX_TREE_DEPTH)%nat /\ get_u8 (at_level (S (rd_level r)) r) = Ok (b, r1) /\
    body_parse (sigma_parse_fuel fuel) b r1 = Ok (sb, r2) /\ r' = at_level (rd_level r2 - 1)%nat r2.
Proof.
  cbn [sigma_parse_fuel]. intros H. apply st_bind_Ok in H as (d & r0 & [= <- <-] & H).
  apply st_bind_Ok in H as ([] & r1 & E1 & H). unfold set_level in E1.
  destruct (Nat.ltb_spec MAX_TREE_DEPTH (rd_level r + 1)); [done|]. injection E1 as <-.
  apply st_bind_Ok in H as (b & r1 & E1 & H). unfold map_st_err, result_map_err in E1.
  destruct (get_u8 _) as [[? ?]|] eqn:E2; [|done]. injection E1 as -> ->.
  apply st_bind_Ok in H as (sb' & r2 & E3 & H). apply st_bind_Ok in H as (d & r3 & [= <- <-] & H).
  apply st_bind_Ok in H as ([] & r3 & E4 & H). unfold set_level in E4.
  destruct (Nat.ltb_spec MAX_TREE_DEPTH (rd_level r2 - 1)); [done|]. injection E4 as <-. injection H as <- <-.
  exists b, r1, r2. rewrite Nat.add_1_r in E2. split_and!; try done. lia.
Qed.

Lemma reads_parse fuel : reads (sigma_parse_fuel fuel).
Proof.
  induction fuel as [|fuel IH]; [apply reads_fail|]. intros r sb r' H.
  apply node_inv in H as (b & r1 & r2 & _ & H1 & H2 & ->).
  apply reads_u8 in H1. apply (reads_body _ _ IH) in H2.
  destruct (transitivity H1 H2) as (l & E & Hp & Hl & Hv). exists l. cbn in *. split_and!; try done. lia.
Qed.

Lemma sigma_parse_fuel_sound fuel : forall r sb r', sigma_parse_fuel fuel r = Ok (sb, r') -> within (rd_level r) sb.
Proof.
  induction fuel as [|fuel IH]; intros r sb r' H; [done|].
  apply node_inv in H as (b & r1 & r2 & Hlev & H1 & H2 & _). apply reads_u8, moved_level in H1. cbn in H1.
  apply (body_sound (sigma_parse_fuel fuel) (S (rd_level r))) in H2 as [Hb Hd]; [|lia|apply reads_parse| |done].
  - split; [done|]. destruct (sb_depth sb); cbn in *; lia.
  - intros r0 sb0 r0' <- H0. by eapply IH.
Qed.

(** * The fuel is enough *)

(** The errors with which the model stops where the source goes on. *)
Definition unmodelled (e : SigmaParsingError) : bool :=
  match e with SpUnmodelledNode _ | SpUnmodelledBox => true | _ => false end.

(** Errors that are neither a panic nor the end of the fuel. *)
Definition sane (e : SigmaParsingError) : Prop := e <> SpOutOfFuel /\ e <> SpPanic.

(** Errors of the source that are no panic. *)
Definition proper (e : SigmaParsingError) : Prop := sane e /\ unmodelled e = false.

Lemma proper_sane e : proper e -> sane e.
Proof. by intros [H _]. Qed.

Lemma io_proper e : proper (sigma_io_error e).
Proof. by destruct e. Qed.

(** A computation at level [n] that fails in no other way. *)
Definition enough {A} (n : nat) (m : stateE reader SigmaParsingError A) : Prop :=
  forall r e, rd_level r = n -> m r = Err e -> proper e.

Lemma enough_ret {A} n (a : A) : enough n (mret a).
Proof. by intros r e _ ?. Qed.

Lemma enough_bind {A B} n (m : stateE reader SigmaParsingError A) (f : A -> stateE reader SigmaParsingError B) :
  reads m -> enough n m -> (forall a, enough n (f a)) -> enough n (m ≫= f).
Proof.
  intros Hm Hs Hf r e Hr H. unfold mbind, stateE_bind in H. destruct (m r) as [[a r1]|e'] eqn:E.
  - apply (Hf a r1); [|done]. rewrite <- Hr. by eapply moved_level, Hm.
  - apply (Hs r); congruence.
Qed.

Lemma enough_fmap {A B} n (f : A -> B) (m : stateE reader SigmaParsingError A) : enough n m -> enough n (f <$> m).
Proof. intros Hm r e Hr H. apply (Hm r); [done|]. unfold fmap, stateE_fmap in H. destruct (m r) as [[? ?]|]; congruence. Qed.

Lemma enough_map_err {E A} n (f : E -> SigmaParsingError) (m : stateE reader E A) :
  (forall e, proper (f e)) -> enough n (map_st_err f m).
Proof.
  intros Hf r e _ H. unfold map_st_err, result_map_err in H. destruct (m r) as [[? ?]|e']; [done|]. injection H as <-. apply Hf.
Qed.

Lemma enough_ec n : enough n sigma_ec_point.
Proof. by apply enough_map_err. Qed.

Lemma enough_count n : enough n count_u16.
Proof. by apply enough_map_err. Qed.
#[local] Hint Resolve enough_ret enough_bind enough_fmap enough_ec enough_count : reads.

Lemma enough_repeatM {A} n (m : stateE reader SigmaParsingError A) k : reads m -> enough n m -> enough n (repeatM m k).
Proof. intros Hm Hs. induction k; cbn [repeatM]; auto with reads. Qed.
#[local] Hint Resolve enough_repeatM : reads.

Lemma enough_body item n b : reads item -> enough n item -> enough n (body_parse item b).
Proof.
  intros Hm Hs. unfold body_parse, prove_dlog_parse, prove_dh_tuple_parse, conj_parse, cthreshold_parse.
  repeat match goal with |- enough _ (if ?b then _ else _) => destruct b end; auto 12 with reads.
  - repeat (apply enough_bind; [by auto with reads..|intros ?]). destruct (_ || _); intros r e _ H; injection H as <- || done; done.
  - intros r e _ [= <-]. done.
Qed.

Lemma enough_parse fuel : forall n, (MAX_TREE_DEPTH < n + fuel)%nat -> (0 < fuel)%nat -> enough n (sigma_parse_fuel fuel).
Proof.
  induction fuel as [|fuel IH]; intros n Hn Hf; [lia|]. intros r e Hr H. cbn [sigma_parse_fuel] in H.
  unfold mbind at 1, stateE_bind at 1, level, set_level in H. unfold mbind at 1, stateE_bind at 1 in H.
  destruct (Nat.ltb_spec MAX_TREE_DEPTH (rd_level r + 1)); [by injection H as <-|]. revert H.
  apply (enough_bind (n + 1)); [auto with reads|apply enough_map_err, io_proper| |by cbn; lia]. intros b.
  apply enough_bind; [apply reads_body, reads_parse|apply enough_body; [apply reads_parse|apply IH; lia]|].
  intros sb r1 e1 Hr1 H. unfold mbind, stateE_bind in H. destruct (MAX_TREE_DEPTH <? rd_level r1 - 1)%nat; [by injection H as <-|done].
Qed.

(** On any bytes. *)
Lemma sigma_parse_any (r : reader) :
  match sigma_parse r with
  | Ok (sb, r') => moved r r' /\ bounded sb /\ (rd_level r + sb_depth sb <= MAX_TREE_DEPTH)%nat
  | Err e => proper e
  end.
Proof.
  destruct (sigma_parse r) as [[sb r']|e] eqn:E; unfold sigma_parse in E.
  - split; [by eapply reads_parse|]. by eapply sigma_parse_fuel_sound.
  - revert E. apply enough_parse with (rd_level r); unfold parse_fuel; lia || done.
Qed.

(** * The theorems *)

(** A parse never runs out of the fuel its level gives it and never panics; if it succeeds, it has only
    moved over the bytes it read, with the reader's level as before, and the proposition is inside
    the format's bounds and the levels left. *)
Theorem sigma_parse_sound (r : reader) :
  match sigma_parse r with
  | Ok (sb, r') => moved r r' /\ bounded sb /\ (rd_level r + sb_depth sb <= MAX_TREE_DEPTH)%nat
  | Err e => e <> SpOutOfFuel /\ e <> SpPanic
  end.
Proof.
  pose proof (sigma_parse_any r) as H. destruct (sigma_parse r) as [[sb r']|e]; [exact H|by apply proper_sane].
Qed.
End sound.

Section theorems.
Context `{C : SigmaCrypto} `{P : !SigmaCryptoParsing C} `{PL : !SigmaCryptoParsingLaws C P}.

Lemma sigma_parse_back sb l r :
  bounded sb -> sigma_serialize sb = Ok l -> readable (past l r) -> (rd_level r <= MAX_TREE_DEPTH)%nat ->
  sigma_parse (before l r) = deep (rd_level r) (sb_depth sb) (sb, past l r).
Proof.
  intros. unfold sigma_parse. apply sigma_parse_fuel_back; try done.
  unfold parse_fuel. change (rd_level (before l r)) with (rd_level r). lia.
Qed.

(** From the first byte, with no limit. *)
Lemma from_bytes_back sb l k :
  bounded sb -> sigma_serialize sb = Ok l -> (sb_depth sb <= MAX_TREE_DEPTH)%nat ->
  sigma_parse (from_bytes (l ++ k)) = Ok (sb, past l (from_bytes k)).
Proof.
  intros Hb Hl Hd. change (from_bytes (l ++ k)) with (before l (from_bytes k)).
  rewrite (sigma_parse_back sb l) by (done || (by left) || apply Nat.le_0_l).
  unfold deep. change (rd_level (from_bytes k)) with 0%nat. by destruct (Nat.leb_spec (0 + sb_depth sb) MAX_TREE_DEPTH); [|lia].
Qed.

(** A proposition inside the format's bounds serializes, and a reader that
    finds its bytes gives it back and stops right after them, unless its depth is more than the
    levels left: then the error names the first level above [MAX_TREE_DEPTH]. *)
Theorem sigma_serialize_roundtrip (sb : SigmaBoolean) :
  bounded sb ->
  exists l, sigma_serialize sb = Ok l /\ byte_list l /\
  forall r, readable (past l r) -> (rd_level r <= MAX_TREE_DEPTH)%nat ->
    sigma_parse (before l r) =
      if (rd_level r + sb_depth sb <=? MAX_TREE_DEPTH)%nat then Ok (sb, past l r)
      else Err (SpDeserializeCallDepthExceeded 111).
Proof.
  intros Hb. destruct (sigma_serialize_ok sb Hb) as (l & El & Hl). exists l. split; [done|]. split; [done|].
  intros r Hr Hlev. by rewrite (sigma_parse_back sb l).
Qed.

(** What is written for one proposition is no prefix of what is written for another,
    so the bytes determine the proposition wherever they stand. *)
Theorem sigma_bytes_unambiguous (sb sb' : SigmaBoolean) (l l' k k' : list Z) :
  bounded sb -> bounded sb' -> (sb_depth sb <= MAX_TREE_DEPTH)%nat -> (sb_depth sb' <= MAX_TREE_DEPTH)%nat ->
  sigma_serialize sb = Ok l -> sigma_serialize sb' = Ok l' -> l ++ k = l' ++ k' -> sb = sb' /\ k = k'.
Proof.
  intros Hb Hb' Hd Hd' Hl Hl' E. pose proof (from_bytes_back sb l k Hb Hl Hd) as H.
  rewrite E, (from_bytes_back sb' l' k' Hb' Hl' Hd') in H. by injection H as -> ->.
Qed.

(** Whatever bytes a proposition is parsed from, the bytes it serializes to parse to it. *)
Theorem sigma_parse_canonical (bytes : list Z) (sb : SigmaBoolean) :
  sigma_parse_bytes bytes = Ok sb ->
  exists l, sigma_serialize sb = Ok l /\ sigma_parse_bytes l = Ok sb.
Proof.
  intros H. unfold sigma_parse_bytes, fmap, result_fmap in H.
  destruct (sigma_parse (from_bytes bytes)) as [[sb' r']|] eqn:E; [|done]. injection H as <-.
  unfold sigma_parse in E. apply sigma_parse_fuel_sound in E as [Hb Hd].
  destruct (sigma_serialize_ok _ Hb) as (l & El & _). exists l. split; [done|].
  unfold sigma_parse_bytes, fmap, result_fmap. rewrite <- (app_nil_r l). by rewrite (from_bytes_back sb').
Qed.
End theorems.

(** * Concrete inputs *)

Definition toy_from_sec1 (bs : list Z) : option F :=
  match bs with
  | 2 :: bs => Some (toF (be_val (drop 8 bs)))
  | _ => None
  end.

#[export] Instance concrete_parsing : SigmaCryptoParsing concrete_crypto := {| from_sec1_bytes := toy_from_sec1 |}.

#[export] Instance concrete_parsing_laws : SigmaCryptoParsingLaws concrete_crypto concrete_parsing.
Proof.
  split; intros p _; cbn [sec1_bytes concrete_crypto from_sec1_bytes concrete_parsing].
  - apply (f_equal S), (toy_bytes_len p).
  - constructor; [unfold in_u; lia|]. apply (toy_bytes_range p).
  - done.
  - unfold toy_from_sec1. f_equal. apply (toy_bytes_roundtrip p).
Qed.

(** Two of a key, a Diffie-Hellman tuple and a nested AND. *)
Definition sample_proposition : SigmaBoolean :=
  SigmaConjecture (Cthreshold 2)
    [ProofOfKnowledge (ProveDlog (toF 5));
     ProofOfKnowledge (ProveDhTuple (toF 2) (toF 3) identity (toF 7));
     SigmaConjecture Cand [TrivialProp true; ProofOfKnowledge (ProveDlog (toF 9))]].

Lemma sample_bounded : bounded sample_proposition.
Proof.
  repeat constructor; cbn; lia.
Qed.

Lemma sigma_serialize_roundtrip_witness :
  exists l r, sigma_serialize sample_proposition = Ok l /\ rd_level r = 3%nat /\
    sigma_parse (before l r) = Ok (sample_proposition, past l r).
Proof.
  destruct (sigma_serialize_roundtrip sample_proposition sample_bounded) as (l & El & _ & H).
  exists l, (mkReader [7; 8] 100 U64_MAX 3%nat). split; [exact El|]. split; [reflexivity|].
  apply (H (mkReader [7; 8] 100 U64_MAX 3%nat)); [by left|]. apply Nat.leb_le; reflexivity.
Defined.

Lemma sigma_bytes_unambiguous_witness :
  exists l k, sigma_serialize sample_proposition = Ok l /\ forall sb l' k', bounded sb -> (sb_depth sb <= 3)%nat ->
    sigma_serialize sb = Ok l' -> l ++ k = l' ++ k' -> sb = sample_proposition.
Proof.
  destruct (sigma_serialize_ok sample_proposition sample_bounded) as (l & El & _).
  exists l, [1; 2]. split; [exact El|]. intros sb l' k' Hb Hd Hl' E. symmetry.
  apply (sigma_bytes_unambiguous sample_proposition sb l l' [1; 2] k' sample_bounded Hb); try done.
  - apply Nat.leb_le; reflexivity.
  - etrans; [exact Hd|]. apply Nat.leb_le; reflexivity.
Defined.

(** The zero points of a tuple may be written with any bytes after the tag. *)
Definition loose_bytes : list Z := [205; 0] ++ replicate 32 77.

Lemma sigma_parse_canonical_witness :
  sigma_parse_bytes loose_bytes = Ok (ProofOfKnowledge (ProveDlog identity)) /\
  exists l, sigma_serialize (ProofOfKnowledge (ProveDlog identity)) = Ok l /\ l <> loose_bytes /\
    sigma_parse_bytes l = Ok (ProofOfKnowledge (ProveDlog identity)).
Proof.
  assert (sigma_parse_bytes loose_bytes = Ok (ProofOfKnowledge (ProveDlog identity))) as H by reflexivity.
  split; [exact H|]. destruct (sigma_parse_canonical loose_bytes _ H) as (l & El & Hl).
  exists l. split; [exact El|]. split; [|exact Hl]. injection El as <-. done.
Defined.
