(* ===== verification/FiatShamir.v ===== *)
(** The Fiat-Shamir string is unambiguous (src/ergotree-interpreter/src/sigma_protocol/fiat_shamir.rs,
    on the model of [fiat_shamir_tree_to_bytes] in ProofTree.v): a string is written for one tree of
    statements and commitments only. *)

From S2P Require Import Prelude Gf2Field Gf2_192 Gf2_192Poly SigmaBoolean ConcreteCrypto ProofTree SigmaSerial.

Section skeletons.
Context `{C : SigmaCrypto}.

(** What the string is meant to hold of a tree: statements, commitments and the conjectures over
    them; no challenge, no response, nothing of which leaves are simulated. *)
Inductive skeleton : Type :=
| SkLeaf (t : SigmaProofOfKnowledgeTree) (commitment : option FirstProverMessage)
| SkConj (c : conjecture) (children : list skeleton).

Definition unchecked_conj (kind : unchecked_kind) : conjecture :=
  match kind with CandUnchecked => Cand | CorUnchecked => Cor | CthresholdUnchecked k _ => Cthreshold k end.
Definition unproven_conj (kind : unproven_kind) : conjecture :=
  match kind with CandUnproven => Cand | CorUnproven => Cor | CthresholdUnproven k _ => Cthreshold k end.

Fixpoint skeleton_of_unchecked (t : UncheckedTree) : skeleton :=
  match t with
  | UncheckedSchnorrLeaf us => SkLeaf (ProveDlog (us_proposition us)) (FirstDlog <$> us_commitment_opt us)
  | UncheckedDhTupleLeaf ud => SkLeaf (dht_pok (ud_proposition ud)) (FirstDht <$> ud_commitment_opt ud)
  | UncheckedConjecture kind _ children => SkConj (unchecked_conj kind) (map skeleton_of_unchecked children)
  end.

Fixpoint skeleton_of (t : ProofTree) : skeleton :=
  match t with
  | PUnchecked t => skeleton_of_unchecked t
  | PUnproven t => skeleton_of_unproven t
  end
with skeleton_of_unproven (t : UnprovenTree) : skeleton :=
  match t with
  | UnprovenLeaf (SchnorrLeaf s) _ => SkLeaf (ProveDlog (ups_proposition s)) (FirstDlog <$> ups_commitment_opt s)
  | UnprovenLeaf (DhTupleLeaf d) _ => SkLeaf (dht_pok (upd_proposition d)) (FirstDht <$> upd_commitment_opt d)
  | UnprovenConjecture kind _ _ children => SkConj (unproven_conj kind) (map skeleton_of children)
  end.

(** Counts that [put_i16_be_bytes] keeps apart. *)
Inductive sk_bounded : skeleton -> Prop :=
| sk_leaf t c : sk_bounded (SkLeaf t c)
| sk_conj c children : Z.of_nat (length children) < 2 ^ 16 -> Forall sk_bounded children -> sk_bounded (SkConj c children).

Lemma skeleton_ind' (P : skeleton -> Prop) :
  (forall t c, P (SkLeaf t c)) -> (forall c children, Forall P children -> P (SkConj c children)) -> forall s, P s.
Proof.
  intros H1 H2. fix IH 1. intros [t c|c children]; [apply H1|].
  apply H2. induction children as [|x l IHl]; constructor; [apply IH|apply IHl].
Qed.

(** The string of a skeleton. *)
Definition conj_string (c : conjecture) (children : list (list Z)) : list Z :=
  match c with
  | Cand => fs_conj_bytes 0 None children
  | Cor => fs_conj_bytes 1 None children
  | Cthreshold k => fs_conj_bytes 2 (Some k) children
  end.

Fixpoint fs_skeleton (s : skeleton) : result FiatShamirTreeSerializationError (list Z) :=
  match s with
  | SkLeaf t c => fs_leaf_bytes t c
  | SkConj c children => children ← mapM_res fs_skeleton children; Ok (conj_string c children)
  end.

Lemma mapM_res_map {E A B D} (f : B -> result E D) (g : A -> B) l : mapM_res f (map g l) = mapM_res (fun x => f (g x)) l.
Proof. induction l as [|x l IH]; [done|]. cbn [map mapM_res]. by rewrite IH. Qed.

Lemma fs_unchecked_skeleton : forall t, fs_unchecked t = fs_skeleton (skeleton_of_unchecked t).
Proof.
  fix IH 1. intros [us|ud|kind e children]; [done|done|].
  cbn [fs_unchecked skeleton_of_unchecked fs_skeleton]. rewrite mapM_res_map.
  assert (mapM_res fs_unchecked children = mapM_res (fun x => fs_skeleton (skeleton_of_unchecked x)) children) as ->.
  { induction children as [|x l IHl]; [done|]. cbn [mapM_res]. by rewrite IH, IHl. }
  by destruct kind.
Qed.

Fixpoint fs_tree_skeleton (t : ProofTree) : fs_tree t = fs_skeleton (skeleton_of t)
with fs_unproven_skeleton (t : UnprovenTree) : fs_unproven t = fs_skeleton (skeleton_of_unproven t).
Proof.
  - destruct t as [t|t]; [apply fs_unchecked_skeleton|apply fs_unproven_skeleton].
  - destruct t as [[s|d] i|kind n i children]; [done|done|].
    cbn [fs_unproven skeleton_of_unproven fs_skeleton]. rewrite mapM_res_map.
    assert (mapM_res fs_tree children = mapM_res (fun x => fs_skeleton (skeleton_of x)) children) as ->.
    { induction children as [|x l IHl]; [done|]. cbn [mapM_res]. by rewrite fs_tree_skeleton, IHl. }
    by destruct kind.
Qed.
End skeletons.

Section unambiguous.
Context `{C : SigmaCrypto} `{P : !SigmaCryptoParsing C} `{PL : !SigmaCryptoParsingLaws C P}.

Lemma ec_point_bytes_inj p q : ec_point_bytes p = ec_point_bytes q -> p = q.
Proof.
  unfold ec_point_bytes, is_identity. do 2 case_bool_decide; intros E; try congruence.
  - exfalso. apply (sec1_tag q); [done|]. by rewrite <- E.
  - exfalso. apply (sec1_tag p); [done|]. by rewrite E.
  - apply (f_equal from_sec1_bytes) in E. rewrite !sec1_roundtrip in E by done. by injection E.
Qed.

(** Points have one length, so the first one can be cut off. *)
Lemma ec_point_app p q l k : ec_point_bytes p ++ l = ec_point_bytes q ++ k -> p = q /\ l = k.
Proof.
  intros E. apply app_inj_1 in E as [E ->]; [|by rewrite !ec_point_bytes_len]. split; [|done].
  by apply ec_point_bytes_inj.
Qed.

(** The leaf's bytes are those of its serialization. *)
Lemma leaf_sigma_bytes_serialize t : sigma_serialize (ProofOfKnowledge t) = Ok (leaf_sigma_bytes t).
Proof. by destruct t. Qed.

Lemma leaf_sigma_app t t' l k : leaf_sigma_bytes t ++ l = leaf_sigma_bytes t' ++ k -> t = t' /\ l = k.
Proof.
  destruct t as [g h u v|h], t' as [g' h' u' v'|h']; cbn [leaf_sigma_bytes app]; intros E; try discriminate E;
    injection E as E; rewrite <- ?app_assoc in E.
  - apply ec_point_app in E as [-> E]. apply ec_point_app in E as [-> E].
    apply ec_point_app in E as [-> E]. by apply ec_point_app in E as [-> ->].
  - by apply ec_point_app in E as [-> ->].
Qed.

Lemma i16_be_app n m l k :
  Z.of_nat n < 2 ^ 16 -> Z.of_nat m < 2 ^ 16 -> put_i16_be_bytes n ++ l = put_i16_be_bytes m ++ k -> n = m /\ l = k.
Proof.
  intros Hn Hm E. unfold put_i16_be_bytes in E. change 65536 with (2 ^ 16) in E. rewrite !wrap_s_mod in E by done.
  apply app_inj_1 in E as [E ->]; [|by rewrite !length_be_bytes]. split; [|done].
  apply (f_equal be_val) in E. rewrite !Z.mod_small, !be_val_bytes in E; change (256 ^ Z.of_nat 2) with (2 ^ 16); lia.
Qed.

Lemma first_message_length m :
  length (first_message_bytes m) = match m with FirstDlog _ => 33%nat | FirstDht _ => 66%nat end.
Proof. destruct m; cbn [first_message_bytes]; by rewrite ?length_app, !ec_point_bytes_len. Qed.

Lemma first_message_inj m m' : first_message_bytes m = first_message_bytes m' -> m = m'.
Proof.
  intros E. pose proof (f_equal length E) as El. rewrite !first_message_length in El.
  destruct m as [a|[a b]], m' as [a'|[a' b']]; try discriminate El; cbn [first_message_bytes dht_a dht_b] in E.
  - f_equal. by apply ec_point_bytes_inj.
  - apply ec_point_app in E as [-> E]. by apply ec_point_bytes_inj in E as ->.
Qed.

Lemma prop_bytes_length t : (length (prop_bytes t) <= 138)%nat.
Proof. destruct t; unfold prop_bytes; cbn [leaf_sigma_bytes]; cbn [length app]; rewrite ?length_app, !ec_point_bytes_len; cbn [length]; lia. Qed.

Lemma fs_leaf_Ok t c s :
  fs_leaf_bytes t c = Ok s -> exists m, c = Some m /\
    s = [1] ++ put_i16_be_bytes (length (prop_bytes t)) ++ [16; 1; 8] ++ leaf_sigma_bytes t ++ [115; 0] ++
      put_i16_be_bytes (length (first_message_bytes m)) ++ first_message_bytes m.
Proof.
  destruct c as [m|]; [|done]. intros H. exists m. split; [done|]. assert (s = default [] (match fs_leaf_bytes t (Some m) with Ok l => Some l | _ => None end)) as -> by by rewrite H.
  unfold fs_leaf_bytes, prop_bytes. cbn [ok_or mbind result_bind default]. by rewrite <- !app_assoc.
Qed.

Lemma fs_leaf_app t c t' c' s s' k k' :
  fs_leaf_bytes t c = Ok s -> fs_leaf_bytes t' c' = Ok s' -> s ++ k = s' ++ k' -> t = t' /\ c = c' /\ k = k'.
Proof.
  intros (m & -> & ->)%fs_leaf_Ok (m' & -> & ->)%fs_leaf_Ok E. rewrite <- !app_assoc in E.
  pose proof (prop_bytes_length t). pose proof (prop_bytes_length t').
  assert (forall m, Z.of_nat (length (first_message_bytes m)) < 2 ^ 16) as Hm by (intros []; rewrite first_message_length; lia).
  apply (app_inj_1 [1] [1]) in E as [_ E]; [|done]. apply i16_be_app in E as [_ E]; [|lia..].
  apply (app_inj_1 [16; 1; 8] [16; 1; 8]) in E as [_ E]; [|done]. apply leaf_sigma_app in E as [-> E].
  apply (app_inj_1 [115; 0] [115; 0]) in E as [_ E]; [|done].
  apply i16_be_app in E as [Hl E]; [|done..]. apply app_inj_1 in E as [E ->]; [|done].
  by apply first_message_inj in E as ->.
Qed.

Lemma conj_string_app c c' ls ls' k k' :
  Z.of_nat (length ls) < 2 ^ 16 -> Z.of_nat (length ls') < 2 ^ 16 ->
  conj_string c ls ++ k = conj_string c' ls' ++ k' ->
  c = c' /\ length ls = length ls' /\ concat ls ++ k = concat ls' ++ k'.
Proof.
  intros Hl Hl' E.
  assert (forall t o t' o' (A B : list Z), (fs_conj_bytes t o ls) ++ A = (fs_conj_bytes t' o' ls') ++ B ->
    length (from_option (fun k => [k]) [] o) = length (from_option (fun k => [k]) [] o') ->
    o = o' /\ length ls = length ls' /\ concat ls ++ A = concat ls' ++ B) as H.
  { intros t o t' o' A B H Ho. unfold fs_conj_bytes in H. rewrite <- !app_assoc in H.
    apply (app_inj_1 [0; t] [0; t']) in H as [_ H]; [|done]. apply app_inj_1 in H as [H1 H]; [|by destruct o, o'].
    apply i16_be_app in H as [? ?]; [|done..]. split; [|done]. destruct o, o'; (done || by injection H1 as ->). }
  pose proof (f_equal (take 2) E) as E2.
  destruct c as [| |n], c' as [| |n']; cbn [conj_string] in *; try discriminate E2;
    apply H in E as (? & ? & ?); simplify_eq; done.
Qed.

(** The string of a skeleton, whatever comes after it, is of no other skeleton. *)
Lemma fs_skeleton_app a : forall b s s' k k',
  sk_bounded a -> sk_bounded b -> fs_skeleton a = Ok s -> fs_skeleton b = Ok s' -> s ++ k = s' ++ k' -> a = b /\ k = k'.
Proof.
  assert (forall t c s, fs_leaf_bytes t c = Ok s -> exists l, s = 1 :: l) as Hleaf.
  { intros t [m|] s E; [|done]. injection E as <-. by eexists. }
  assert (forall c ls, exists l, conj_string c ls = 0 :: l) as Hconj by (intros [] ls; by eexists).
  induction a as [t c|c children IH] using skeleton_ind'; intros [t' c'|c' children'] s s' k k' Ha Hb Hs Hs' E;
    cbn [fs_skeleton] in *.
  - by destruct (fs_leaf_app t c t' c' s s' k k') as (-> & -> & ->).
  - apply bind_Ok_inv in Hs' as (ls' & _ & [= <-]). apply Hleaf in Hs as [l ->].
    destruct (Hconj c' ls') as [l' El]. by rewrite El in E.
  - apply bind_Ok_inv in Hs as (ls & _ & [= <-]). apply Hleaf in Hs' as [l ->].
    destruct (Hconj c ls) as [l' El]. by rewrite El in E.
  - apply bind_Ok_inv in Hs as (ls & Hs & [= <-]). apply bind_Ok_inv in Hs' as (ls' & Hs' & [= <-]).
    inversion Ha as [|? ? Hla Hca]; inversion Hb as [|? ? Hlb Hcb]; subst.
    pose proof (mapM_res_length _ _ _ Hs) as Hl. pose proof (mapM_res_length _ _ _ Hs') as Hl'.
    apply conj_string_app in E as (-> & Hll & E); [|congruence..].
    apply mapM_res_Forall2 in Hs, Hs'.
    assert (children = children' /\ k = k') as [-> ->]; [|done].
    clear Ha Hb Hla Hlb Hl Hl'. revert ls' children' Hs' Hca Hcb IH E Hll.
    induction Hs as [|x l children ls Hx _ IHl]; intros ? ? [|x' l' children' ls' Hx' Hs'] Hca Hcb IH E Hll;
      try discriminate Hll; [by split|].
    apply Forall_cons in Hca as [Hcx Hca]. apply Forall_cons in Hcb as [Hcx' Hcb]. apply Forall_cons in IH as [IHx IH].
    cbn [concat] in E. rewrite <- !app_assoc in E.
    destruct (IHx _ _ _ _ _ Hcx Hcx' Hx Hx' E) as [-> E'].
    destruct (IHl _ _ Hs' Hca Hcb IH E') as [-> ->]; [by injection Hll|done].
Qed.

(** C26: trees the string is written for are told apart by it, up to challenges, responses and
    which leaves are simulated: from the string of a tree with fewer than 65536 children at a
    node, followed by any message, its statements, its commitments and the message can be
    recovered. *)
Theorem fiat_shamir_unambiguous (t t' : ProofTree) (s s' message message' : list Z) :
  sk_bounded (skeleton_of t) -> sk_bounded (skeleton_of t') ->
  fs_tree t = Ok s -> fs_tree t' = Ok s' -> s ++ message = s' ++ message' ->
  skeleton_of t = skeleton_of t' /\ message = message'.
Proof. rewrite !fs_tree_skeleton. intros. by eapply fs_skeleton_app. Qed.
End unambiguous.

(** An AND of a key and a simulated key. *)
Definition sample_tree (simulated_first : bool) : ProofTree :=
  let leaf h b i := PUnproven (UnprovenLeaf (SchnorrLeaf (mkUnprovenSchnorr (toF h) (Some (toF 11)) None)) (mkInfo None b [0%nat; i])) in
  PUnproven (UnprovenConjecture CandUnproven 2 (mkInfo None false [0%nat]) [leaf 5 simulated_first 0%nat; leaf 6 (negb simulated_first) 1%nat]).

Lemma sample_sk_bounded b : sk_bounded (skeleton_of (sample_tree b)).
Proof. repeat constructor. Qed.

(** The two trees differ in what is simulated, and no other skeleton has their string. *)
Lemma fiat_shamir_unambiguous_witness :
  exists s, fs_tree (sample_tree true) = Ok s /\ fs_tree (sample_tree false) = Ok s /\
    forall t' s' message', sk_bounded (skeleton_of t') -> fs_tree t' = Ok s' -> s ++ [1; 2] = s' ++ message' ->
      skeleton_of t' = skeleton_of (sample_tree true) /\ message' = [1; 2].
Proof.
  eexists. split; [reflexivity|]. split; [reflexivity|]. intros t' s' message' Hb Hs E.
  destruct (fiat_shamir_unambiguous (sample_tree true) t' _ s' [1; 2] message' (sample_sk_bounded true) Hb eq_refl Hs E)
    as [H1 H2]. by split; symmetry.
Defined.
