(* ===== verification/BigNum.v ===== *)
(** The conversions of big integers that the chain types use, which are those of crate num_bigint: the interface
    [NumBigint], what its documentation promises as [NumBigintLaws], what follows for numbers that fit some number of
    bytes, and an instance that computes. A big integer is a [Z]. *)

From S2P Require Import Prelude.

(** * The external code *)

Class NumBigint : Type := {
  (** [BigUint::from_bytes_be], and [BigInt::from_bytes_be] with [Sign::Plus]. *)
  from_bytes_be : list Z -> Z;
  (** [BigUint::to_bytes_be] *)
  to_bytes_be : Z -> list Z;
  from_signed_bytes_be : list Z -> Z;
  to_signed_bytes_be : Z -> list Z;
  to_signed_bytes_le : Z -> list Z;
  (** [None] is the panic of an exponent below zero or of a modulus zero. *)
  modpow : Z -> Z -> Z -> option Z;
  (** The digits of [to_u32_digits], the lowest first. *)
  to_u32_digits : Z -> list Z
}.

(** Two's complement. *)
Definition signed_val (l : list Z) : Z := wrap_s (8 * Z.of_nat (length l)) (be_val l).

(** The value of digits of [w] bits, the lowest first. *)
Definition digits_val (w : Z) (l : list Z) : Z := foldr (fun d acc => d + 2 ^ w * acc) 0 l.

Class NumBigintLaws (B : NumBigint) : Prop := {
  from_bytes_val l : byte_list l -> from_bytes_be l = be_val l;
  to_bytes_range z : byte_list (to_bytes_be z);
  to_bytes_val z : 0 <= z -> be_val (to_bytes_be z) = z;
  to_bytes_shortest z l : 0 <= z -> l <> [] -> byte_list l -> be_val l = z -> (length (to_bytes_be z) <= length l)%nat;
  from_signed_val l : byte_list l -> l <> [] -> from_signed_bytes_be l = signed_val l;
  to_signed_range z : byte_list (to_signed_bytes_be z);
  to_signed_not_nil z : to_signed_bytes_be z <> [];
  to_signed_val z : signed_val (to_signed_bytes_be z) = z;
  to_signed_shortest z l :
    l <> [] -> byte_list l -> signed_val l = z -> (length (to_signed_bytes_be z) <= length l)%nat;
  to_signed_le z : to_signed_bytes_le z = reverse (to_signed_bytes_be z);
  modpow_spec b e m : 0 <= e -> 0 < m -> modpow b e m = Some (b ^ e mod m);
  modpow_zero b e : modpow b e 0 = None;
  to_u32_digits_range z : Forall (in_u 32) (to_u32_digits z);
  to_u32_digits_val z : digits_val 32 (to_u32_digits z) = Z.abs z
}.

(** * Big-endian values *)

Lemma be_val_range l : byte_list l -> 0 <= be_val l < 256 ^ Z.of_nat (length l).
Proof. intros Hl. unfold be_val. rewrite <- length_reverse. by apply le_val_range, Forall_reverse. Qed.

Lemma be_bytes_val l : byte_list l -> be_bytes (length l) (be_val l) = l.
Proof.
  intros Hl. unfold be_bytes, be_val. rewrite <- length_reverse, le_bytes_val; [apply reverse_involutive|].
  by apply Forall_reverse.
Qed.

Lemma be_bytes_eq n l z : byte_list l -> length l = n -> be_val l = z -> l = be_bytes n z.
Proof. intros Hl <- <-. by rewrite be_bytes_val. Qed.

Lemma le_val_app l k : le_val (l ++ k) = le_val l + 256 ^ Z.of_nat (length l) * le_val k.
Proof.
  induction l as [|b l IH]; [cbn [app le_val length]; rewrite Z.pow_0_r; lia|]. cbn [app le_val length].
  rewrite IH, Nat2Z.inj_succ, Z.pow_succ_r by lia. lia.
Qed.

Lemma be_val_app l k : be_val (l ++ k) = be_val l * 256 ^ Z.of_nat (length k) + be_val k.
Proof. unfold be_val. rewrite reverse_app, le_val_app, length_reverse. lia. Qed.

Lemma be_val_cons b l : be_val (b :: l) = b * 256 ^ Z.of_nat (length l) + be_val l.
Proof. change (b :: l) with ([b] ++ l). rewrite be_val_app. unfold be_val at 1. cbn. lia. Qed.

Lemma be_val_zeros n : be_val (replicate n 0) = 0.
Proof. induction n as [|n IH]; [done|]. cbn [replicate]. by rewrite be_val_cons, IH. Qed.

Lemma pow_256 n : 256 ^ Z.of_nat n = 2 ^ (8 * Z.of_nat n).
Proof. change 256 with (2 ^ 8). rewrite <- Z.pow_mul_r by lia. done. Qed.

Lemma pow_256_pos n : 0 < 256 ^ Z.of_nat n.
Proof. apply Z.pow_pos_nonneg; lia. Qed.

(** A byte string whose first bit is clear is its own two's complement. *)
Lemma signed_val_small l : byte_list l -> l <> [] -> 2 * be_val l < 256 ^ Z.of_nat (length l) -> signed_val l = be_val l.
Proof.
  intros Hl Hn Hs. assert (0 < Z.of_nat (length l)) by (destruct l; [done|cbn; lia]).
  pose proof (be_val_range l Hl). rewrite pow_256 in *. apply wrap_s_id; [lia|]. unfold in_s.
  rewrite (pow2_half (8 * Z.of_nat (length l))) in Hs by lia. lia.
Qed.

(** * What the conversions give for numbers of a known size *)

Section numbers.
Context {B : NumBigint} {BL : NumBigintLaws B}.

Lemma from_be_bytes n z : 0 <= z < 256 ^ Z.of_nat n -> from_bytes_be (be_bytes n z) = z.
Proof. intros Hz. by rewrite from_bytes_val, be_val_bytes by (done || apply be_bytes_range). Qed.

Lemma from_bytes_range l : byte_list l -> 0 <= from_bytes_be l < 256 ^ Z.of_nat (length l).
Proof. intros Hl. rewrite from_bytes_val by done. by apply be_val_range. Qed.

Lemma from_to_bytes z : 0 <= z -> from_bytes_be (to_bytes_be z) = z.
Proof. intros Hz. by rewrite from_bytes_val, to_bytes_val by (done || apply to_bytes_range). Qed.

(** A number below 256^n has at most n bytes. *)
Lemma to_bytes_length n z : 0 <= z < 256 ^ Z.of_nat n -> n <> 0%nat -> (length (to_bytes_be z) <= n)%nat.
Proof.
  intros Hz Hn. rewrite <- (length_be_bytes n z). apply to_bytes_shortest; [lia| |apply be_bytes_range|by apply be_val_bytes].
  intros E. apply (f_equal length) in E. by rewrite length_be_bytes in E.
Qed.

Lemma first_digit z : 0 <= z < 2 ^ 32 -> default 0 (head (to_u32_digits z)) = z.
Proof.
  intros Hz. pose proof (to_u32_digits_range z) as Hr. pose proof (to_u32_digits_val z) as Hv.
  rewrite Z.abs_eq in Hv by lia. destruct (to_u32_digits z) as [|d ds]; cbn in *; [done|].
  apply Forall_cons in Hr as [Hd Hds]. change (foldr _ 0 ds) with (digits_val 32 ds) in Hv. unfold in_u in Hd.
  assert (0 <= digits_val 32 ds).
  { clear -Hds. induction Hds as [|e ds He _ IH]; [done|]. cbn. change (foldr _ 0 ds) with (digits_val 32 ds). unfold in_u in He. lia. }
  lia.
Qed.

(** The size of a number's two's complement, which begins with a clear bit. *)
Lemma to_signed_length n z : 0 <= z -> n <> 0%nat -> 2 * z < 256 ^ Z.of_nat n -> (length (to_signed_bytes_be z) <= n)%nat.
Proof.
  intros Hz Hn0 Hs. destruct n as [|n]; [done|].
  assert (0 <= z < 256 ^ Z.of_nat (S n)) as Hr by lia.
  rewrite <- (length_be_bytes (S n) z). assert (be_bytes (S n) z <> []) as Hn.
  { intros E. apply (f_equal length) in E. by rewrite length_be_bytes in E. }
  apply to_signed_shortest; [done|apply be_bytes_range|].
  by rewrite signed_val_small, be_val_bytes by (rewrite ?length_be_bytes, ?be_val_bytes by done; done || apply be_bytes_range).
Qed.

Lemma to_signed_nonneg z :
  0 <= z -> be_val (to_signed_bytes_be z) = z /\ 2 * z < 256 ^ Z.of_nat (length (to_signed_bytes_be z)).
Proof.
  intros Hz. pose proof (to_signed_val z) as Hv. pose proof (to_signed_range z) as Hr. pose proof (to_signed_not_nil z) as Hn.
  set (l := to_signed_bytes_be z) in *. assert (0 < Z.of_nat (length l)) by (destruct l; [done|cbn; lia]).
  pose proof (wrap_s_range (8 * Z.of_nat (length l)) (be_val l) ltac:(lia)) as Hs.
  pose proof (wrap_s_mod (8 * Z.of_nat (length l)) (be_val l) ltac:(lia)) as Hm. unfold signed_val in Hv. rewrite Hv in *.
  pose proof (be_val_range l Hr) as Hb. rewrite pow_256 in *. unfold in_s in Hs.
  rewrite (pow2_half (8 * Z.of_nat (length l))) in * by lia. rewrite !Z.mod_small in Hm by lia. lia.
Qed.

(** The bytes themselves. *)
Lemma to_signed_eq z : 0 <= z -> to_signed_bytes_be z = be_bytes (length (to_signed_bytes_be z)) z.
Proof. intros Hz. apply be_bytes_eq; [apply to_signed_range|done|by apply to_signed_nonneg]. Qed.
End numbers.

(** * An instance that computes *)

Definition nbytes (z : Z) : nat := Z.to_nat (Z.log2 z / 8 + 1).
Definition signed_nbytes (z : Z) : nat := nbytes (2 * (if z <? 0 then - z - 1 else z)).

Fixpoint le_digits (w : Z) (n : nat) (z : Z) : list Z :=
  match n with
  | O => []
  | S n => z mod 2 ^ w :: le_digits w n (z / 2 ^ w)
  end.

#[export] Instance concrete_bigint : NumBigint := {|
  from_bytes_be := be_val;
  to_bytes_be z := be_bytes (nbytes z) z;
  from_signed_bytes_be := signed_val;
  to_signed_bytes_be z := be_bytes (signed_nbytes z) (z mod 256 ^ Z.of_nat (signed_nbytes z));
  to_signed_bytes_le z := reverse (be_bytes (signed_nbytes z) (z mod 256 ^ Z.of_nat (signed_nbytes z)));
  modpow b e m := if (m =? 0) || (e <? 0) then None else Some (b ^ e mod m);
  to_u32_digits z := le_digits 32 (Z.to_nat (Z.log2 (Z.abs z) / 32 + 1)) (Z.abs z)
|}.

Lemma nbytes_pos z : nbytes z <> 0%nat.
Proof. unfold nbytes. pose proof (Z.log2_nonneg z). pose proof (Z.div_pos (Z.log2 z) 8). lia. Qed.

Lemma nbytes_enough z : 0 <= z -> z < 256 ^ Z.of_nat (nbytes z).
Proof.
  intros Hz. unfold nbytes. pose proof (Z.log2_nonneg z). pose proof (Z.div_pos (Z.log2 z) 8).
  rewrite pow_256, Z2Nat.id by lia. destruct (Z.eq_dec z 0) as [->|]; [apply Z.pow_pos_nonneg; lia|].
  apply Z.log2_lt_pow2; [lia|]. pose proof (Z.div_mod (Z.log2 z) 8). pose proof (Z.mod_pos_bound (Z.log2 z) 8). lia.
Qed.

Lemma nbytes_least z n : 0 <= z < 256 ^ Z.of_nat n -> n <> 0%nat -> (nbytes z <= n)%nat.
Proof.
  intros Hz Hn. unfold nbytes. rewrite pow_256 in Hz. destruct (Z.eq_dec z 0) as [->|]; [change (1 <= n)%nat; lia|].
  destruct Hz as [Hz Hlt]. apply Z.log2_lt_pow2 in Hlt; [|lia].
  pose proof (Z.div_lt_upper_bound (Z.log2 z) 8 (Z.of_nat n)). pose proof (Z.log2_nonneg z).
  pose proof (Z.div_pos (Z.log2 z) 8). lia.
Qed.

Lemma in_s_signed_nbytes z : in_s (8 * Z.of_nat (signed_nbytes z)) z.
Proof.
  unfold signed_nbytes. set (m := if z <? 0 then - z - 1 else z). assert (0 <= m) by (unfold m; destruct (Z.ltb_spec z 0); lia).
  pose proof (nbytes_enough (2 * m) ltac:(lia)) as He. pose proof (nbytes_pos (2 * m)). rewrite pow_256, pow2_half in He by lia.
  unfold in_s, m in *. destruct (Z.ltb_spec z 0); lia.
Qed.

Lemma signed_nbytes_least n z : in_s (8 * Z.of_nat n) z -> n <> 0%nat -> (signed_nbytes z <= n)%nat.
Proof.
  intros Hz Hn. apply nbytes_least; [|done]. rewrite pow_256, pow2_half by lia. unfold in_s in Hz.
  destruct (Z.ltb_spec z 0); lia.
Qed.

Lemma wrap_s_mod_pow w z : wrap_s w (z mod 2 ^ w) = wrap_s w z.
Proof. unfold wrap_s. by rewrite Zplus_mod_idemp_l. Qed.

Lemma not_nil_length {A} (l : list A) : l <> [] <-> length l <> 0%nat.
Proof. by destruct l. Qed.

Lemma signed_val_range l : l <> [] -> in_s (8 * Z.of_nat (length l)) (signed_val l).
Proof. intros Hl. apply wrap_s_range. destruct l; [done|cbn; lia]. Qed.

Lemma le_digits_val w n : 0 < w -> forall z, 0 <= z < 2 ^ (w * Z.of_nat n) -> digits_val w (le_digits w n z) = z.
Proof.
  intros Hw. induction n as [|n IH]; intros z Hz; [rewrite Z.mul_0_r in Hz; cbn in *; lia|].
  replace (w * Z.of_nat (S n)) with (w + w * Z.of_nat n) in Hz by lia. rewrite Z.pow_add_r in Hz by lia.
  assert (0 < 2 ^ w) by (apply Z.pow_pos_nonneg; lia). cbn [le_digits digits_val foldr].
  change (foldr _ 0 ?l) with (digits_val w l). rewrite IH.
  - pose proof (Z.div_mod z (2 ^ w)). lia.
  - split; [apply Z.div_pos; lia|]. apply Z.div_lt_upper_bound; lia.
Qed.

#[export] Instance concrete_bigint_laws : NumBigintLaws concrete_bigint.
Proof.
  constructor.
  - done.
  - intros z. apply be_bytes_range.
  - intros z Hz. apply be_val_bytes. split; [done|by apply nbytes_enough].
  - intros z l Hz Hn Hl <-. cbn [to_bytes_be concrete_bigint]. rewrite length_be_bytes.
    apply nbytes_least; [by apply be_val_range|by apply not_nil_length].
  - done.
  - intros z. apply be_bytes_range.
  - intros z. apply not_nil_length. cbn [to_signed_bytes_be concrete_bigint]. rewrite length_be_bytes. apply nbytes_pos.
  - intros z. cbn [to_signed_bytes_be concrete_bigint]. unfold signed_val. pose proof (nbytes_pos (2 * (if z <? 0 then - z - 1 else z))).
    fold (signed_nbytes z) in *. rewrite length_be_bytes, be_val_bytes by (apply Z.mod_pos_bound, pow_256_pos).
    rewrite pow_256. rewrite wrap_s_mod_pow. apply wrap_s_id; [lia|apply in_s_signed_nbytes].
  - intros z l Hn Hl <-. cbn [to_signed_bytes_be concrete_bigint]. rewrite length_be_bytes.
    apply signed_nbytes_least; [by apply signed_val_range|by apply not_nil_length].
  - done.
  - intros b e m He Hm. cbn. destruct (Z.eqb_spec m 0), (Z.ltb_spec e 0); done || lia.
  - done.
  - intros z. cbn. generalize (Z.to_nat (Z.log2 (Z.abs z) / 32 + 1)). intros n. generalize (Z.abs z). induction n as [|n IH]; intros a; cbn [le_digits]; constructor; [|apply IH].
    by apply Z.mod_pos_bound.
  - intros z. cbn. apply le_digits_val; [lia|]. split; [lia|]. pose proof (Z.log2_nonneg (Z.abs z)).
    pose proof (Z.div_pos (Z.log2 (Z.abs z)) 32). rewrite Z2Nat.id by lia.
    destruct (Z.eq_dec (Z.abs z) 0) as [->|]; [reflexivity|]. apply Z.log2_lt_pow2; [lia|].
    pose proof (Z.div_mod (Z.log2 (Z.abs z)) 32). pose proof (Z.mod_pos_bound (Z.log2 (Z.abs z)) 32). lia.
Qed.

(** The examples of the crate's documentation. *)
Example bigint_examples :
  to_signed_bytes_be (- 1125) = [251; 155] /\ to_bytes_be 1125 = [4; 101] /\ to_u32_digits 4294967295 = [4294967295] /\
  to_u32_digits 4294967296 = [0; 1] /\ to_signed_bytes_be 128 = [0; 128] /\ to_signed_bytes_be 0 = [0].
Proof. by vm_compute. Qed.
