(* ===== verification/Header.v ===== *)
(** Block headers (src/ergo-chain-types/src/header.rs): the data, its bytes with and without the proof of work, and the
    parser, which computes the header's id from the bytes it consumed. *)

From S2P Require Import Prelude SigmaBoolean ConcreteCrypto Vlq Codecs SigmaSerial BigNum.

(** * Data *)

(** [Digest<N>], and other arrays of bytes. *)
Definition bytes_n (n : nat) (l : list Z) : Prop := length l = n /\ byte_list l.

Section header.
Context `{C : SigmaCrypto} {B : NumBigint}.

Record AutolykosSolution : Type := mkSolution {
  miner_pk : EcPoint;
  pow_onetime_pk : option EcPoint;
  nonce : list Z;
  pow_distance : option Z
}.

Record Header : Type := mkHeader {
  version : Z;
  hd_id : list Z;
  parent_id : list Z;
  ad_proofs_root : list Z;
  state_root : list Z;
  transaction_root : list Z;
  timestamp : Z;
  n_bits : Z;
  height : Z;
  extension_root : list Z;
  autolykos_solution : AutolykosSolution;
  votes : list Z;
  unparsed_bytes : list Z
}.

(** * Writing *)

(** The test [(version as i8) > 1]. *)
Definition has_new_fields (version : Z) : bool := 1 <? wrap_s 8 version.

Definition put_unparsed (h : Header) : result ScorexSerializationError (list Z) :=
  if has_new_fields (version h) then
    _ ← guard_or (Z.of_nat (length (unparsed_bytes h)) <? 2 ^ 8) ScorexTryFrom;
    Ok (put_u8 (Z.of_nat (length (unparsed_bytes h))) ++ unparsed_bytes h)
  else Ok [].

Definition serialize_without_pow (h : Header) : result ScorexSerializationError (list Z) :=
  timestamp ← ok_or (put_u64 (timestamp h)) ScorexSerPanic;
  height ← ok_or (put_u32 (height h)) ScorexSerPanic;
  unparsed ← put_unparsed h;
  Ok (put_u8 (version h) ++ parent_id h ++ ad_proofs_root h ++ transaction_root h ++ state_root h ++ timestamp ++
      extension_root h ++ be_bytes 4 (n_bits h) ++ height ++ votes h ++ unparsed).

(** The bytes of a distance; [put_u8] gets their number cut to 8 bits. *)
Definition distance_bytes (pow_distance : Z) : list Z := if pow_distance =? 0 then [] else to_bytes_be pow_distance.

Definition solution_bytes (s : AutolykosSolution) (version : Z) : result ScorexSerializationError (list Z) :=
  if version =? 1 then
    onetime_pk ← ok_or (pow_onetime_pk s) ScorexSerMisc;
    distance ← ok_or (pow_distance s) ScorexSerMisc;
    let d_bytes := distance_bytes distance in
    Ok (ec_point_bytes (miner_pk s) ++ ec_point_bytes onetime_pk ++ nonce s ++
        put_u8 (wrap_u 8 (Z.of_nat (length d_bytes))) ++ d_bytes)
  else Ok (ec_point_bytes (miner_pk s) ++ nonce s).

Definition header_serialize (h : Header) : result ScorexSerializationError (list Z) :=
  bytes ← serialize_without_pow h;
  solution ← solution_bytes (autolykos_solution h) (version h);
  Ok (bytes ++ solution).

(** * Reading *)

Context `{P : !SigmaCryptoParsing C}.

Abbreviation io := (map_st_err scorex_io_error).
Abbreviation vlq := (map_st_err ScorexVlqEncode).

(** [Digest::<N>::scorex_parse] *)
Definition digest_parse (n : nat) : stateE reader ScorexParsingError (list Z) := io (get_bytes_into n).

Definition unparsed_parse (version : Z) : stateE reader ScorexParsingError (list Z) :=
  if has_new_fields version then
    new_field_size ← io get_u8;
    if 0 <? new_field_size then io (get_bytes_into (Z.to_nat new_field_size)) else mret []
  else mret [].

Definition solution_parse (version : Z) : stateE reader ScorexParsingError AutolykosSolution :=
  if version =? 1 then
    miner_pk ← ec_point_parse;
    pow_onetime_pk ← ec_point_parse;
    nonce ← io (get_bytes_into 8);
    d_bytes_len ← io get_u8;
    d_bytes ← io (get_bytes_into (Z.to_nat d_bytes_len));
    mret (mkSolution miner_pk (Some pow_onetime_pk) nonce (Some (from_bytes_be d_bytes)))
  else
    miner_pk ← ec_point_parse;
    nonce ← io (get_bytes_into 8);
    mret (mkSolution miner_pk (Some generator) nonce None).

(** The header's fields, for any id. *)
Definition fields_parse : stateE reader ScorexParsingError (list Z -> Header) :=
  version ← io get_u8;
  parent_id ← digest_parse 32;
  ad_proofs_root ← digest_parse 32;
  transaction_root ← digest_parse 32;
  state_root ← digest_parse 33;
  timestamp ← vlq get_u64;
  extension_root ← digest_parse 32;
  n_bits ← io (get_bytes_into 4);
  height ← vlq get_u32;
  votes ← io (get_bytes_into 3);
  unparsed_bytes ← unparsed_parse version;
  autolykos_solution ← solution_parse version;
  mret (fun hd_id => mkHeader version hd_id parent_id ad_proofs_root state_root transaction_root timestamp
                       (be_val n_bits) height extension_root autolykos_solution votes unparsed_bytes).

(** [r.seek(SeekFrom::Start(start))] for a position the reader was at; the limit stays. *)
Definition seek_to (start : reader) : stateE reader ScorexParsingError unit :=
  fun r => Ok (tt, mkReader (rd_bytes start) (rd_position start) (rd_limit r) (rd_level r)).

Definition header_parse : stateE reader ScorexParsingError Header :=
  start ← getS;
  fields ← fields_parse;
  end_ ← getS;
  _ ← seek_to start;
  header_bytes ← io (get_bytes_into (Z.to_nat (rd_position end_ - rd_position start)));
  mret (fields (blake2b256_hash header_bytes)).

(** * Well-formed headers *)

(** The types of the fields. *)
Definition solution_wf (s : AutolykosSolution) : Prop := byte_list (nonce s) /\ forall d, pow_distance s = Some d -> 0 <= d.
Definition header_wf (h : Header) : Prop :=
  in_u 8 (version h) /\ bytes_n 32 (parent_id h) /\ bytes_n 32 (ad_proofs_root h) /\ bytes_n 33 (state_root h) /\
  bytes_n 32 (transaction_root h) /\ in_u 64 (timestamp h) /\ in_u 32 (n_bits h) /\ in_u 32 (height h) /\
  bytes_n 32 (extension_root h) /\ bytes_n 3 (votes h) /\ byte_list (unparsed_bytes h) /\
  solution_wf (autolykos_solution h).

(** What the format has room for. *)
Definition solution_fits (version : Z) (s : AutolykosSolution) : Prop :=
  length (nonce s) = 8%nat /\
  (version = 1 -> pow_onetime_pk s <> None /\ exists d, pow_distance s = Some d /\ d < 256 ^ 255).
Definition header_fits (h : Header) : Prop :=
  solution_fits (version h) (autolykos_solution h) /\
  (has_new_fields (version h) = true -> (length (unparsed_bytes h) < 256)%nat).

(** A header as it is read back: without what the format leaves out for its version, and with the hash of [bytes]. *)
Definition solution_read (version : Z) (s : AutolykosSolution) : AutolykosSolution :=
  if version =? 1 then s else mkSolution (miner_pk s) (Some generator) (nonce s) None.
Definition header_read (bytes : list Z) (h : Header) : Header :=
  mkHeader (version h) (blake2b256_hash bytes) (parent_id h) (ad_proofs_root h) (state_root h) (transaction_root h)
    (timestamp h) (n_bits h) (height h) (extension_root h) (solution_read (version h) (autolykos_solution h)) (votes h)
    (if has_new_fields (version h) then unparsed_bytes h else []).
End header.

(** * The round trip *)

#[export] Instance bytes_n_dec n l : Decision (bytes_n n l).
Proof. unfold bytes_n, byte_list, in_u. apply _. Defined.

Lemma bytes_n_be n z : bytes_n n (be_bytes n z).
Proof. split; [apply length_be_bytes|apply be_bytes_range]. Qed.

#[local] Hint Resolve bytes_n_be : core.

Section roundtrip.
Context {C : SigmaCrypto} {L : SigmaCryptoLaws C} {B : NumBigint} {BL : NumBigintLaws B}.
Context {P : SigmaCryptoParsing C} {PL : SigmaCryptoParsingLaws C P}.

Abbreviation io := (map_st_err scorex_io_error).

#[local] Instance bytes_codec n : Codec (bytes_n n) Some (io (get_bytes_into n)).
Proof. apply map_err_codec, bytes_into_codec. Qed.
#[local] Instance digest_parse_codec n : Codec (bytes_n n) Some (digest_parse n).
Proof. apply bytes_codec. Qed.
#[local] Instance scorex_u8_codec : Codec (in_u 8) (fun v => Some (put_u8 v)) (io get_u8).
Proof. apply _. Qed.

Lemma has_new_fields_not_1 : has_new_fields 1 = false.
Proof. done. Qed.

Lemma unparsed_back h k r :
  byte_list (unparsed_bytes h) -> put_unparsed h = Ok k -> readable (past k r) ->
  unparsed_parse (version h) (before k r) = Ok (if has_new_fields (version h) then unparsed_bytes h else [], past k r).
Proof.
  unfold put_unparsed, unparsed_parse. intros Hb Hk Hr. destruct (has_new_fields _); [|injection Hk as <-; by rewrite before_nil, past_nil].
  unfold guard_or in Hk. destruct (Z.ltb_spec (Z.of_nat (length (unparsed_bytes h))) (2 ^ 8)) as [Hl|]; [|done]. apply (inj Ok) in Hk as <-.
  assert (in_u 8 (Z.of_nat (length (unparsed_bytes h)))) by (unfold in_u; lia).
  next_field Hr (in_u 8) (fun v => Some (put_u8 v)) (Z.of_nat (length (unparsed_bytes h))).
  destruct (Z.ltb_spec 0 (Z.of_nat (length (unparsed_bytes h)))) as [Hn|Hn].
  - rewrite Nat2Z.id, (codec_roundtrip (good := bytes_n _) (put := Some) (unparsed_bytes h)) by (done || by split). by rewrite past_app.
  - destruct (unparsed_bytes h); [|cbn in Hn; lia]. rewrite before_nil, app_nil_r. done.
Qed.

Lemma put_unparsed_ok h :
  byte_list (unparsed_bytes h) -> (has_new_fields (version h) = true -> (length (unparsed_bytes h) < 256)%nat) ->
  exists k, put_unparsed h = Ok k /\ byte_list k.
Proof.
  intros Hb Hl. unfold put_unparsed, guard_or. destruct (has_new_fields _); [|by exists []; split; [|constructor]].
  specialize (Hl eq_refl). destruct (Z.ltb_spec (Z.of_nat (length (unparsed_bytes h))) (2 ^ 8)); [|lia].
  eexists. split; [done|]. constructor; [unfold in_u; lia|done].
Qed.

(** A distance's bytes are fewer than 256, and read as the distance. *)
Lemma distance_bytes_ok d :
  0 <= d < 256 ^ 255 -> byte_list (distance_bytes d) /\ Z.of_nat (length (distance_bytes d)) < 256 /\ from_bytes_be (distance_bytes d) = d.
Proof.
  intros Hd. unfold distance_bytes. destruct (Z.eqb_spec d 0) as [->|]; [split_and!; [constructor|done|]; by rewrite from_bytes_val by constructor|].
  pose proof (to_bytes_length 255 d Hd ltac:(done)). split_and!; [apply to_bytes_range|lia|apply from_to_bytes, Hd].
Qed.

Lemma solution_bytes_ok v s :
  solution_wf s -> solution_fits v s -> exists k, solution_bytes s v = Ok k /\ byte_list k.
Proof.
  intros [Hn Hd] [Hl H1]. unfold solution_bytes. destruct (Z.eqb_spec v 1) as [E|].
  - destruct (H1 E) as [Hpk (d & Ed & Hlt)]. destruct (pow_onetime_pk s) as [pk|]; [|done]. rewrite Ed. cbn.
    destruct (distance_bytes_ok d) as (Hb & _ & _); [auto|]. eexists. split; [done|].
    repeat (apply Forall_app; split); try done; try apply ec_point_bytes_range. apply Forall_cons. split; [by apply wrap_u_range|done].
  - eexists. split; [done|]. apply Forall_app. split; [apply ec_point_bytes_range|done].
Qed.

Lemma solution_back v s k r :
  solution_wf s -> solution_fits v s -> solution_bytes s v = Ok k -> readable (past k r) ->
  solution_parse v (before k r) = Ok (solution_read v s, past k r).
Proof.
  intros [Hn Hd] [Hl H1] Hk Hr. unfold solution_bytes, solution_parse, solution_read in *. destruct (Z.eqb_spec v 1) as [E|].
  - destruct (H1 E) as [Hpk (d & Ed & Hlt)]. destruct s as [pk [opk|] n dist]; cbn [pow_onetime_pk pow_distance nonce miner_pk] in *; [|done]. subst dist.
    cbn [ok_or mbind result_bind] in Hk. apply (inj Ok) in Hk as <-.
    destruct (distance_bytes_ok d) as (Hb & Hlen & Hval); [auto|].
    assert (in_u 8 (Z.of_nat (length (distance_bytes d)))) by (unfold in_u; lia). rewrite wrap_u_id in * by done.
    assert (bytes_n 8 n) by by split.
    next_field Hr (fun _ : EcPoint => True) (fun p => Some (ec_point_bytes p)) pk.
    next_field Hr (fun _ : EcPoint => True) (fun p => Some (ec_point_bytes p)) opk.
    next_field Hr (bytes_n 8) (@Some (list Z)) n.
    next_field Hr (in_u 8) (fun v => Some (put_u8 v)) (Z.of_nat (length (distance_bytes d))).
    rewrite Nat2Z.id, (read_last (bytes_n _) Some _ (distance_bytes d)) by (done || by split). by rewrite Hval, !past_app.
  - apply (inj Ok) in Hk as <-. next_field Hr (fun _ : EcPoint => True) (fun p => Some (ec_point_bytes p)) (miner_pk s).
    rewrite (read_last (bytes_n 8) Some _ (nonce s)) by (done || by split). by rewrite past_app.
Qed.

(** The two as fields. *)
Lemma unparsed_field {A} h k l r (f : list Z -> stateE reader ScorexParsingError A) :
  byte_list (unparsed_bytes h) -> put_unparsed h = Ok k -> readable (past (k ++ l) r) ->
  (unparsed_parse (version h) ≫= f) (before (k ++ l) r) =
    f (if has_new_fields (version h) then unparsed_bytes h else []) (before l (past k r)).
Proof. intros Hb Hk Hr. apply read_step, unparsed_back; [done|done|]. apply (readable_past l). by rewrite past_app. Qed.

Lemma solution_last {A} v s k r (f : AutolykosSolution -> stateE reader ScorexParsingError A) :
  solution_wf s -> solution_fits v s -> solution_bytes s v = Ok k -> readable (past k r) ->
  (solution_parse v ≫= f) (before k r) = f (solution_read v s) (past k r).
Proof. intros Hs Hf Hk Hr. unfold mbind, stateE_bind. by rewrite (solution_back v s). Qed.

(** Every field, and then an id. *)
Lemma fields_back h k r :
  header_wf h -> header_fits h -> header_serialize h = Ok k -> readable (past k r) ->
  exists f, fields_parse (before k r) = Ok (f, past k r) /\ forall bytes, f (blake2b256_hash bytes) = header_read bytes h.
Proof.
  intros (Hv & Hpid & Had & Hst & Htx & Hts & Hnb & Hht & Hex & Hvo & Hun & Hsol) [Hfit Hfun] Hk Hr.
  apply bind_Ok_inv in Hk as (front & Hfront & Hk). apply bind_Ok_inv in Hk as (sol & Hs & Hk). apply (inj Ok) in Hk as <-.
  apply bind_Ok_inv in Hfront as (ts & Ets & Hfront). apply bind_Ok_inv in Hfront as (ht & Eht & Hfront).
  apply bind_Ok_inv in Hfront as (un & Hun' & Hfront). apply (inj Ok) in Hfront as <-. apply ok_or_Ok in Ets, Eht.
  rewrite <- !app_assoc in *. unfold fields_parse.
  next_field Hr (in_u 8) (fun v => Some (put_u8 v)) (version h).
  next_field Hr (bytes_n 32) (@Some (list Z)) (parent_id h).
  next_field Hr (bytes_n 32) (@Some (list Z)) (ad_proofs_root h).
  next_field Hr (bytes_n 32) (@Some (list Z)) (transaction_root h).
  next_field Hr (bytes_n 33) (@Some (list Z)) (state_root h).
  next_field Hr (in_u 64) put_u64 (timestamp h).
  next_field Hr (bytes_n 32) (@Some (list Z)) (extension_root h).
  next_field Hr (bytes_n 4) (@Some (list Z)) (be_bytes 4 (n_bits h)).
  next_field Hr (in_u 32) put_u32 (height h).
  next_field Hr (bytes_n 3) (@Some (list Z)) (votes h).
  rewrite (unparsed_field h un) by assumption. rewrite <- past_app in Hr.
  rewrite (solution_last (version h) (autolykos_solution h) sol) by assumption.
  rewrite !past_app. eexists. split; [reflexivity|]. intros bytes. unfold header_read.
  by rewrite be_val_bytes by (unfold in_u in Hnb; lia).
Qed.

Lemma seek_back k r :
  readable (past k r) ->
  (_ ← seek_to (before k r); io (get_bytes_into (Z.to_nat (rd_position (past k r) - rd_position (before k r))))) (past k r) =
    Ok (k, past k r).
Proof.
  intros Hr. unfold mbind, stateE_bind, seek_to. cbn [rd_position rd_bytes rd_limit rd_level past before at_bytes].
  replace (Z.to_nat (rd_position r + Z.of_nat (length k) - rd_position r)) with (length k) by lia.
  change (mkReader (k ++ rd_bytes r) (rd_position r) (rd_limit r) (rd_level r)) with (before k r).
  unfold map_st_err, get_bytes_into, mbind, stateE_bind. rewrite (check_readable (before k r)) by by eapply before_readable.
  by rewrite rd_exact_before.
Qed.

Lemma header_back h k r :
  header_wf h -> header_fits h -> header_serialize h = Ok k -> readable (past k r) ->
  header_parse (before k r) = Ok (header_read k h, past k r).
Proof.
  intros Hwf Hfit Hk Hr. destruct (fields_back h k r Hwf Hfit Hk Hr) as (f & Hf & Hread).
  pose proof (seek_back k r Hr) as Hseek. unfold header_parse, getS, mbind, stateE_bind in *. rewrite Hf.
  destruct (seek_to (before k r) (past k r)) as [[[] r1]|]; [|done]. rewrite Hseek. by rewrite <- Hread.
Qed.

Lemma header_serialize_ok h : header_wf h -> header_fits h -> exists k, header_serialize h = Ok k /\ byte_list k.
Proof.
  intros (Hv & [_ Hpid] & [_ Had] & [_ Hst] & [_ Htx] & Hts & Hnb & Hht & [_ Hex] & [_ Hvo] & Hun & Hsol) [Hfit Hfun].
  destruct (solution_bytes_ok _ _ Hsol Hfit) as (sol & Es & Hs). destruct (put_unparsed_ok h Hun Hfun) as (un & Eu & Hu).
  destruct (codec_puts (Codec := u64_codec) _ Hts) as (ts & Et & Ht). destruct (codec_puts (Codec := u32_codec) _ Hht) as (ht & Eh & Hh).
  unfold header_serialize, serialize_without_pow. rewrite Et, Eh, Eu, Es. cbn [ok_or mbind result_bind].
  eexists. split; [reflexivity|]. unfold byte_list in *. rewrite !Forall_app. split_and!; try assumption; [|apply be_bytes_range].
  by apply Forall_singleton.
Qed.
End roundtrip.

(** * What a successful parse promises *)

Section sound.
Context {C : SigmaCrypto} {L : SigmaCryptoLaws C} {B : NumBigint} {BL : NumBigintLaws B}.
Context {P : SigmaCryptoParsing C} {PL : SigmaCryptoParsingLaws C P}.

Abbreviation io := (map_st_err scorex_io_error).
Abbreviation any := (fun _ : ScorexParsingError => True).

Lemma yields_any {E A} (m : stateE reader E A) : reads m -> yields (fun _ => True) (fun _ => True) m.
Proof. intros Hm r _. destruct (m r) as [[a r']|] eqn:Em; [|done]. split; [by eapply Hm|done]. Qed.

Lemma yields_ec_point : yields any (fun _ => True) ec_point_parse.
Proof. apply yields_any. unfold ec_point_parse. auto 7 with reads. Qed.

Lemma yields_u32 : yields any (in_u 32) (map_st_err ScorexVlqEncode get_u32).
Proof.
  intros r Hr. unfold map_st_err, get_u32, mbind, stateE_bind. pose proof (yields_u64 any ScorexVlqEncode ltac:(done) r Hr) as H.
  unfold map_st_err in H. destruct (get_u64 r) as [[v r']|]; [|done]. destruct H as [Hm Hv]. unfold in_u, try_from in *.
  destruct (Z.ltb_spec v (2 ^ 32)); [|done]. split; [done|lia].
Qed.

Lemma yields_array n : yields any (bytes_n n) (io (get_bytes_into n)).
Proof. by apply yields_bytes_into. Qed.

Lemma yields_unparsed v :
  yields any (fun l => byte_list l /\ l = (if has_new_fields v then l else []) /\ (length l < 256)%nat) (unparsed_parse v).
Proof.
  unfold unparsed_parse. destruct (has_new_fields v); [|by apply yields_ret; split_and!; [constructor|..|cbn; lia]].
  eapply yields_bind; [by apply yields_u8|]. intros n Hn. unfold in_u in Hn. destruct (0 <? n).
  - eapply yields_weaken; [apply yields_array|]. intros l [Hl Hb]. split_and!; [done|done|lia].
  - apply yields_ret. split_and!; [constructor|done|cbn; lia].
Qed.

Lemma yields_solution v :
  yields any (fun s => solution_wf s /\ solution_fits v s /\ solution_read v s = s) (solution_parse v).
Proof.
  unfold solution_parse, solution_read, solution_fits. destruct (Z.eqb_spec v 1).
  - do 2 (eapply yields_bind; [apply yields_ec_point|]; intros ? _).
    eapply yields_bind; [apply yields_array|]. intros n [Hn Hb]. eapply yields_bind; [by apply yields_u8|]. intros len Hlen.
    eapply yields_bind; [apply yields_array|]. intros l [Hl Hlb]. apply yields_ret. unfold in_u in Hlen.
    pose proof (from_bytes_range l Hlb) as Hd. pose proof (Z.pow_le_mono_r 256 (Z.of_nat (length l)) 255).
    split_and!; [|done| |done].
    + split; [done|]. intros d [= <-]. lia.
    + intros _. split; [done|]. eexists. split; [reflexivity|lia].
  - eapply yields_bind; [apply yields_ec_point|]. intros pk _. eapply yields_bind; [apply yields_array|]. intros k [Hn Hb].
    apply yields_ret. by split_and!.
Qed.

Lemma yields_fields :
  yields any (fun f => exists h, header_wf h /\ header_fits h /\ forall bytes, f (blake2b256_hash bytes) = header_read bytes h) fields_parse.
Proof.
  unfold fields_parse, digest_parse. eapply yields_bind; [by apply yields_u8|]. intros v Hv.
  eapply yields_bind; [apply yields_array|]. intros parent Hpar. eapply yields_bind; [apply yields_array|]. intros ad Had.
  eapply yields_bind; [apply yields_array|]. intros tx Htx. eapply yields_bind; [apply yields_array|]. intros st Hst.
  eapply yields_bind; [by apply yields_u64|]. intros ts Hts.
  eapply yields_bind; [apply yields_array|]. intros ext Hext. eapply yields_bind; [apply yields_array|]. intros nb [Hnl Hnb].
  eapply yields_bind; [apply yields_u32|]. intros ht Hht. eapply yields_bind; [apply yields_array|]. intros vo Hvo.
  eapply yields_bind; [apply yields_unparsed|]. intros un (Hun & Eun & Hlun).
  eapply yields_bind; [apply yields_solution|]. intros sol (Hsol & Hfit & Esol). apply yields_ret.
  exists (mkHeader v [] parent ad st tx ts (be_val nb) ht ext sol vo un). split_and!; [|split; [exact Hfit|intros _; exact Hlun]|].
  - unfold header_wf. cbn. split_and!; try done. pose proof (be_val_range nb Hnb) as Hr. by rewrite Hnl in Hr.
  - intros bytes. unfold header_read. cbn. by rewrite <- Eun, Esol.
Qed.

(** Reading keeps a header well-formed, and changes nothing the second time. *)
Lemma solution_read_again v s : solution_read v (solution_read v s) = solution_read v s.
Proof. unfold solution_read. by destruct (v =? 1). Qed.

Lemma header_read_again bytes bytes' h : header_read bytes (header_read bytes' h) = header_read bytes h.
Proof. unfold header_read. cbn. rewrite solution_read_again. by destruct (has_new_fields _). Qed.

Lemma header_read_wf bytes h : header_wf h -> header_wf (header_read bytes h).
Proof.
  intros (Hv & Hpid & Had & Hst & Htx & Hts & Hnb & Hht & Hex & Hvo & Hun & Hn & Hd). unfold header_wf. cbn.
  split_and!; try done; [by destruct (has_new_fields _); [|constructor]|]. unfold solution_read.
  destruct (_ =? 1); split; done.
Qed.

Lemma header_read_fits bytes h : header_fits h -> header_fits (header_read bytes h).
Proof.
  intros [[Hn H1] Hu]. split; cbn.
  - unfold solution_fits, solution_read. destruct (Z.eqb_spec (version h) 1); [by split|]. by split.
  - intros E. rewrite E. by apply Hu.
Qed.

(** The id of a header that was read is the hash of the bytes that were read. *)
Lemma header_parse_Ok r h r' :
  byte_list (rd_bytes r) -> header_parse r = Ok (h, r') ->
  exists l, rd_bytes r = l ++ rd_bytes r' /\ moved r r' /\ header_wf h /\ header_fits h /\ h = header_read l h.
Proof.
  intros Hb H. unfold header_parse, getS, mbind, stateE_bind in H. pose proof (yields_fields r Hb) as Hf.
  destruct (fields_parse r) as [[f r1]|]; [|done]. destruct Hf as [Hm (h0 & Hwf & Hfit & Hread)].
  destruct (Hm) as (l & E & Hp & Hlim & Hlev). cbn in H. rewrite Hp, Hlim, Hlev in H.
  replace (Z.to_nat (rd_position r + Z.of_nat (length l) - rd_position r)) with (length l) in H by lia.
  unfold map_st_err, get_bytes_into, mbind, stateE_bind in H. rewrite E in H.
  destruct (check_position_limit _) as [[u r2]|] eqn:Ec; [|done].
  assert (r2 = mkReader (l ++ rd_bytes r1) (rd_position r) (rd_limit r) (rd_level r)) as ->.
  { clear -Ec. unfold check_position_limit in Ec. by repeat case_match; simplify_eq. }
  unfold rd_exact, advance in H. cbn [rd_bytes rd_position rd_limit rd_level] in H. rewrite length_app in H.
  destruct (Nat.ltb_spec (length l + length (rd_bytes r1)) (length l)); [lia|]. cbn [result_map_err] in H.
  rewrite take_app_length, drop_app_length in H. injection H as <- <-. exists l. cbn [rd_bytes]. rewrite Hread.
  split_and!; [done| | | |].
  - exists l. cbn. by split_and!.
  - by apply header_read_wf.
  - by apply header_read_fits.
  - symmetry. apply header_read_again.
Qed.
End sound.

(** * The theorems *)

Section theorems.
Context {C : SigmaCrypto} {L : SigmaCryptoLaws C} {B : NumBigint} {BL : NumBigintLaws B}.
Context {P : SigmaCryptoParsing C} {PL : SigmaCryptoParsingLaws C P}.

(** The header with another id. *)
Definition with_id (id : list Z) (h : Header) : Header :=
  mkHeader (version h) id (parent_id h) (ad_proofs_root h) (state_root h) (transaction_root h) (timestamp h) (n_bits h)
    (height h) (extension_root h) (autolykos_solution h) (votes h) (unparsed_bytes h).

(** C40: a header within the format's bounds serializes, and parsing the bytes stops after them and gives
    the header back with the hash of the bytes for its id, less what the format has no place for: new fields of a version
    that is not above 1 as a signed byte, and the one-time key and the distance of a version that is not 1. *)
Theorem header_roundtrip (h : Header) (r : reader) :
  header_wf h -> header_fits h ->
  exists k, header_serialize h = Ok k /\ byte_list k /\
    (readable (past k r) -> header_parse (before k r) = Ok (header_read k h, past k r)).
Proof.
  intros Hwf Hfit. destruct (header_serialize_ok h Hwf Hfit) as (k & Ek & Hk). exists k. split_and!; [done|done|].
  by apply header_back.
Qed.

(** A header that was parsed from any bytes has the hash of the bytes it was parsed from for its id,
    is well-formed, and serializes to bytes that parse to the same header up to the id, which is then their hash. *)
Theorem header_parse_sound (h : Header) (r r' : reader) :
  byte_list (rd_bytes r) -> header_parse r = Ok (h, r') ->
  exists l k, rd_bytes r = l ++ rd_bytes r' /\ moved r r' /\ hd_id h = blake2b256_hash l /\ header_wf h /\
    header_serialize h = Ok k /\
    forall r0, readable (past k r0) -> header_parse (before k r0) = Ok (with_id (blake2b256_hash k) h, past k r0).
Proof.
  intros Hb H. destruct (header_parse_Ok r h r' Hb H) as (l & E & Hm & Hwf & Hfit & Eh).
  destruct (header_serialize_ok h Hwf Hfit) as (k & Ek & Hk). exists l, k. split_and!; try done; [by rewrite Eh|].
  intros r0 Hr0. rewrite (header_back h k r0) by done. do 2 f_equal. rewrite Eh, header_read_again. done.
Qed.
End theorems.

(** * At concrete headers *)

Definition sample_header : Header := {|
  version := 2; hd_id := []; parent_id := replicate 32 1; ad_proofs_root := replicate 32 2; state_root := replicate 33 3;
  transaction_root := replicate 32 4; timestamp := 4928911477310178288; n_bits := 37748736; height := 614400;
  extension_root := replicate 32 5;
  autolykos_solution := mkSolution (generator : EcPoint) None [0; 0; 0; 0; 0; 0; 49; 5] None;
  votes := [0; 0; 0]; unparsed_bytes := [9; 9]
|}.

#[export] Instance solution_wf_dec s : Decision (solution_wf s).
Proof.
  unfold solution_wf, byte_list, in_u. refine (and_dec _ _).
  destruct (pow_distance s) as [d|]; [destruct (decide (0 <= d)); [left|right]; naive_solver|left; done].
Defined.
#[export] Instance header_wf_dec h : Decision (header_wf h).
Proof. unfold header_wf, bytes_n, byte_list, in_u. apply _. Defined.

Lemma sample_header_fits : header_fits sample_header.
Proof. split; [split; [done|discriminate]|intros _; cbn; lia]. Qed.

Lemma header_roundtrip_witness :
  header_wf sample_header /\ exists k, header_serialize sample_header = Ok k /\
    header_parse (before k (mkReader [7] 0 U64_MAX 0%nat)) = Ok (header_read k sample_header, past k (mkReader [7] 0 U64_MAX 0%nat)) /\
    hd_id (header_read k sample_header) = toy_hash k.
Proof.
  assert (header_wf sample_header) as Hwf by (refine (bool_decide_unpack _ _); vm_compute; exact I).
  split; [exact Hwf|]. destruct (header_roundtrip sample_header (mkReader [7] 0 U64_MAX 0%nat) Hwf sample_header_fits) as (k & E & _ & H).
  exists k. split; [exact E|]. split; [apply H; by left|reflexivity].
Defined.

(** A version 1 header whose miner's key is written as an identity with other bytes after its tag: its id is the hash of
    those bytes, while it serializes to others. *)
Definition loose_header : list Z :=
  1 :: replicate 32 1 ++ replicate 32 2 ++ replicate 32 4 ++ replicate 33 3 ++ [7] ++ replicate 32 5 ++ [2; 64; 0; 0; 9; 0; 0; 0] ++
  (0 :: replicate 32 77) ++ replicate 33 0 ++ replicate 8 6 ++ [2; 1; 0].

(** What the parser gives there, as a test that evaluates. *)
Lemma loose_ok :
  match header_parse (mkReader loose_header 0 U64_MAX 0%nat) with
  | Ok (h, r') =>
      bool_decide (rd_bytes r' = [] /\ pow_distance (autolykos_solution h) = Some 256) &&
      negb (bool_decide (hd_id h = blake2b256_hash (match header_serialize h with Ok k => k | Err _ => [] end)))
  | Err _ => false
  end = true.
Proof. vm_compute. reflexivity. Qed.

#[export] Instance byte_list_dec l : Decision (byte_list l).
Proof. unfold byte_list, in_u. apply _. Defined.

Lemma loose_header_bytes : byte_list loose_header.
Proof. apply (bool_decide_eq_true (byte_list loose_header)). vm_compute. reflexivity. Qed.

Lemma header_parse_sound_witness :
  exists h r' k, header_parse (mkReader loose_header 0 U64_MAX 0%nat) = Ok (h, r') /\ rd_bytes r' = [] /\
    pow_distance (autolykos_solution h) = Some 256 /\ hd_id h = blake2b256_hash loose_header /\ header_serialize h = Ok k /\
    blake2b256_hash k <> hd_id h.
Proof.
  pose proof loose_ok as H.
  destruct (header_parse (mkReader loose_header 0 U64_MAX 0%nat)) as [[h r']|] eqn:E; [|discriminate H].
  destruct (header_parse_sound h (mkReader loose_header 0 U64_MAX 0%nat) r' loose_header_bytes E) as (l & k & El & _ & Hid & _ & Ek & _).
  rewrite Ek in H. apply andb_true_iff in H as [H1 H2]. apply bool_decide_eq_true in H1 as [H1 H3].
  exists h, r', k. cbn [rd_bytes] in El. rewrite H1, app_nil_r in El. refine (conj eq_refl (conj H1 (conj H3 (conj _ (conj Ek _))))); [rewrite El; exact Hid|].
  intros Eh. rewrite bool_decide_eq_true_2 in H2 by (symmetry; exact Eh). discriminate H2.
Defined.
