(* ===== verification/Autolykos.v ===== *)
(** The Autolykos proof of work (src/ergo-chain-types/src/autolykos_pow_scheme.rs and [Header::check_pow] of header.rs):
    the compact form of difficulties, the size of the table, the hit of a header, and its check. Big integers are the
    interface [NumBigint]; the hash is that of [SigmaCrypto]. *)

From S2P Require Import Prelude SigmaBoolean ConcreteCrypto Vlq Codecs SigmaSerial BigNum Header.

(** [Scalar::MODULUS] of crate k256. *)
Class ScalarModulus : Type := {
  MODULUS : Z;
  MODULUS_pos : 0 < MODULUS
}.

(** The errors, without their texts. *)
Inductive AutolykosPowSchemeError : Type :=
| PowScorexSerialization (e : ScorexSerializationError)
| BigIntToByteArrayError
| MissingPowDistanceParameter
| PowUnsupported
| PowOutOfBounds
(** A panic, of a slice, an [unwrap], an overflow or a modulus zero. *)
| PowPanic.

(** [&l[a..b]] *)
Definition slice (l : list Z) (a b : nat) : result AutolykosPowSchemeError (list Z) :=
  if ((a <=? b) && (b <=? length l))%nat then Ok (take (b - a) (drop a l)) else Err PowPanic.

Section autolykos.
Context `{C : SigmaCrypto} {B : NumBigint}.

(** * Compact bits *)

Definition decode_compact_bits (n_bits : Z) : Z :=
  let compact := n_bits in
  let size := Z.land (wrap_s 32 (Z.shiftr compact 24)) 255 in
  if size =? 0 then 0
  else
    let buf := replicate (Z.to_nat size) 0 in
    let buf := if 1 <=? size then <[0%nat := wrap_u 8 (Z.land (Z.shiftr compact 16) 255)]> buf else buf in
    let buf := if 2 <=? size then <[1%nat := wrap_u 8 (Z.land (Z.shiftr compact 8) 255)]> buf else buf in
    let buf := if 3 <=? size then <[2%nat := wrap_u 8 (Z.land compact 255)]> buf else buf in
    let is_negative := Z.land (buf !!! 0%nat) 128 =? 128 in
    if is_negative then
      let buf := <[0%nat := Z.land (buf !!! 0%nat) 127]> buf in
      - from_signed_bytes_be buf
    else from_signed_bytes_be buf.

(** The low 64 bits, from the bytes extended by the sign. *)
Definition truncate (input : Z) : Z :=
  let bytes := to_signed_bytes_le input in
  let bytes := bytes ++ replicate (8 - length bytes) (if input <? 0 then 255 else 0) in
  wrap_s 64 (le_val (take 8 bytes)).

Definition encode_compact_bits (bigint : Z) : Z :=
  let bytes := to_signed_bytes_be bigint in
  let size := Z.of_nat (length bytes) in
  let result :=
    if size <? 3 then wrap_s 64 (Z.shiftl (truncate bigint) (8 * (3 - size)))
    else truncate (Z.shiftr bigint (8 * (size - 3))) in
  let '(result, size) := if negb (Z.land result 0x800000 =? 0) then (Z.shiftr result 8, size + 1) else (result, size) in
  let result := Z.lor result (wrap_s 64 (Z.shiftl size 24)) in
  if bigint <? 0 then Z.lor result 0x800000 else result.

(** * The scheme *)

Record AutolykosPowScheme : Type := mkScheme { k : Z; big_n_base : Z }.

(** The bounds of the two fields' types. *)
Definition scheme_wf (s : AutolykosPowScheme) : Prop := 2 <= k s <= 32 /\ 16 <= big_n_base s <= 2 ^ 31 - 1.

Definition scheme_new (k big_n : Z) : result AutolykosPowSchemeError AutolykosPowScheme :=
  k ← (if (2 <=? k) && (k <=? 32) then Ok k else Err PowOutOfBounds);
  big_n ← (if (16 <=? big_n) && (big_n <=? 2 ^ 31 - 1) then Ok big_n else Err PowOutOfBounds);
  Ok (mkScheme k big_n).

Definition default_scheme : AutolykosPowScheme := mkScheme 32 (2 ^ 26).

Definition as_unsigned_byte_array (length_ : nat) (big_int : Z) : result AutolykosPowSchemeError (list Z) :=
  let bytes := to_signed_bytes_be big_int in
  if (length bytes =? length_)%nat then Ok bytes
  else
    let start := if bytes !!! 0%nat =? 0 then 1%nat else 0%nat in
    let count := (length bytes - start)%nat in
    if (length_ <? count)%nat then Err BigIntToByteArrayError
    else Ok (replicate (length_ - count) 0 ++ drop start bytes).

Definition calc_big_m : list Z := flat_map (fun x => be_bytes 8 (Z.of_nat x)) (seq 0 1024).

Definition calc_seed_v2 (big_n : Z) (msg nonce header_height_bytes : list Z) : result AutolykosPowSchemeError (list Z) :=
  let pre_i8 := from_bytes_be (drop (32 - 8) (blake2b256_hash (msg ++ nonce))) in
  m ← ok_or (modpow pre_i8 1 big_n) PowPanic;
  i ← as_unsigned_byte_array 4 m;
  let f := blake2b256_hash (i ++ header_height_bytes ++ calc_big_m) in
  Ok (blake2b256_hash (drop 1 f ++ msg ++ nonce)).

Definition gen_indexes (s : AutolykosPowScheme) (seed_hash : list Z) (big_n : Z) : result AutolykosPowSchemeError (list Z) :=
  let extended_hash := seed_hash ++ take 3 seed_hash in
  mapM_res (fun i =>
    window ← slice extended_hash i (i + 4);
    m ← ok_or (modpow (from_bytes_be window) 1 big_n) PowPanic;
    Ok (default 0 (head (to_u32_digits m)))) (seq 0 (Z.to_nat (k s))).

(** The table's element of an index. *)
Definition table_element (h : list Z) (idx : Z) : Z :=
  from_bytes_be (drop 1 (blake2b256_hash (be_bytes 4 idx ++ h ++ calc_big_m))).

Definition pow_hit_message_v2 (s : AutolykosPowScheme) (msg nonce h : list Z) (big_n : Z) : result AutolykosPowSchemeError Z :=
  seed_hash ← calc_seed_v2 big_n msg nonce h;
  indexes ← gen_indexes s seed_hash big_n;
  let f2 := foldr Z.add 0 (map (table_element h) indexes) in
  array ← result_map_err (fun _ => PowPanic) (as_unsigned_byte_array 32 f2);
  Ok (from_bytes_be (blake2b256_hash array)).

(** The fold of [calc_big_n] over [n] increases; the multiplication of [u32] panics when it overflows. *)
Fixpoint big_n_grow (n : nat) (acc : Z) : result AutolykosPowSchemeError Z :=
  match n with
  | O => Ok acc
  | S n =>
      let next := acc / 100 * 105 in
      if next <? 2 ^ 32 then big_n_grow n next else Err PowPanic
  end.

Definition calc_big_n (s : AutolykosPowScheme) (header_version header_height : Z) : result AutolykosPowSchemeError Z :=
  let n_base := big_n_base s in
  if header_version =? 1 then Ok n_base
  else
    let n_increasement_height_max := 4198400 in
    let height := Z.min n_increasement_height_max header_height in
    let increase_start := 600 * 1024 in
    if height <? increase_start then Ok n_base
    else
      let increase_period_for_big_n := 50 * 1024 in
      let iters_number := (height - increase_start) / increase_period_for_big_n + 1 in
      big_n_grow (Z.to_nat iters_number) n_base.

Definition pow_hit (s : AutolykosPowScheme) (header : Header) : result AutolykosPowSchemeError Z :=
  if version header =? 1 then ok_or (pow_distance (autolykos_solution header)) MissingPowDistanceParameter
  else
    bytes ← result_map_err PowScorexSerialization (serialize_without_pow header);
    let msg := blake2b256_hash bytes in
    let nonce := nonce (autolykos_solution header) in
    let height_bytes := be_bytes 4 (height header) in
    big_n ← calc_big_n s (version header) (height header);
    pow_hit_message_v2 s msg nonce height_bytes big_n.

(** * The check of a header *)

Context {M : ScalarModulus}.

Definition order_bigint : Z := MODULUS.

Definition check_pow (h : Header) : result AutolykosPowSchemeError bool :=
  if negb (version h =? 1) then
    hit ← pow_hit default_scheme h;
    let difficulty := decode_compact_bits (n_bits h) in
    if difficulty =? 0 then Err PowOutOfBounds
    else
      let target := Z.quot order_bigint difficulty in
      Ok (hit <? target)
  else Err PowUnsupported.
End autolykos.

(** * The tests of the source *)

#[export] Instance secp256k1_modulus : ScalarModulus := {|
  MODULUS := 0xFFFFFFFFFFFFFFFFFFFFFFFFFFFFFFFEBAAEDCE6AF48A03BBFD25E8CD0364141;
  MODULUS_pos := eq_refl
|}.

Example calc_big_n_tests :
  map (fun '(v, h) => calc_big_n default_scheme v h)
    [(1, 700000); (2, 500000); (2, 614400); (2, 665600); (2, 700000); (2, 788400); (2, 1051200); (2, 4198400); (2, 41984000)] =
  map Ok [67108864; 67108864; 70464240; 73987410; 73987410; 81571035; 104107290; 2143944600; 2143944600].
Proof. by vm_compute. Qed.

Example decode_tests :
  map decode_compact_bits [0x181bc330; 0x01003456; 0x01123456; 0x04923456; 0x04123456; 0x05123456; 16842752] =
  [0x1bc330000000000000000000000000000000000000000000; 0; 0x12; - 0x12345600; 0x12345600; 0x1234560000; 1].
Proof. by vm_compute. Qed.

Example encode_tests :
  map encode_compact_bits [0x1bc330000000000000000000000000000000000000000000; 0x12345600; - 0x12345600] =
  [0x181bc330; 0x04123456; - 0x1235].
Proof. by vm_compute. Qed.

Example target_test :
  Z.quot order_bigint (decode_compact_bits 37748736) =
  7067388259113537318333190002971674063283542741642755394446115914399301849.
Proof. by vm_compute. Qed.

Example gen_indexes_tests :
  gen_indexes default_scheme ([4; 0; 0; 0] ++ replicate 28 0) (2 ^ 26) =
    Ok (map (fun i => if (i =? 29)%nat then 4 else if (i =? 30)%nat then 1024 else if (i =? 31)%nat then 262144 else 0) (seq 0 32)) /\
  gen_indexes default_scheme (replicate 32 0) (2 ^ 26) = Ok (replicate 32 0).
Proof. by vm_compute. Qed.

(** * Compact bits as numbers *)

(** What the compact form stands for: bits 24 to 31 are the number of bytes, bit 23 the sign, the rest the first bits. *)
Definition compact_value (n : Z) : Z :=
  let exponent := n / 2 ^ 24 in
  let mantissa := n mod 2 ^ 23 in
  let v := if exponent <? 3 then mantissa / 256 ^ (3 - exponent) else mantissa * 256 ^ (exponent - 3) in
  if Z.testbit n 23 then - v else v.

Section compact.
Context {B : NumBigint} {BL : NumBigintLaws B}.

Lemma land_ones_mod n w : 0 <= w -> Z.land n (Z.ones w) = n mod 2 ^ w.
Proof. intros Hw. by apply Z.land_ones. Qed.

Lemma byte_at n i : 0 <= i -> Z.land (Z.shiftr n i) 255 = n / 2 ^ i mod 256.
Proof. intros Hi. change 255 with (Z.ones 8). by rewrite Z.land_ones, Z.shiftr_div_pow2 by lia. Qed.

(** The bits of a byte, by trying them all. *)
Lemma byte_bits_high a :
  0 <= a < 256 ->
  (Z.land a 128 =? 128) = (128 <=? a) /\ Z.testbit a 7 = (128 <=? a) /\ Z.land a 127 = a mod 128.
Proof.
  intros Ha.
  assert (forallb (fun i => let a := Z.of_nat i in
    Bool.eqb (Z.land a 128 =? 128) (128 <=? a) && Bool.eqb (Z.testbit a 7) (128 <=? a) && (Z.land a 127 =? a mod 128))
    (seq 0 256) = true) as H by (vm_compute; reflexivity).
  rewrite forallb_forall in H. specialize (H (Z.to_nat a) ltac:(apply in_seq; lia)). rewrite Z2Nat.id in H by lia. cbv zeta in H.
  apply andb_true_iff in H as [H H3]. apply andb_true_iff in H as [H1 H2].
  apply Bool.eqb_prop in H1, H2. by apply Z.eqb_eq in H3.
Qed.

Lemma bit_23 n : Z.testbit n 23 = (128 <=? n / 2 ^ 16 mod 256).
Proof.
  pose proof (byte_bits_high (n / 2 ^ 16 mod 256)) as (_ & <- & _); [apply Z.mod_pos_bound; lia|].
  change 256 with (2 ^ 8). by rewrite Z.mod_pow2_bits_low, <- Z.shiftr_div_pow2, Z.shiftr_spec by lia.
Qed.

(** The three bytes of the mantissa and the zeros after them, cut to the size. *)
Definition compact_buf (s : nat) (a b c : Z) : list Z := take s [a; b; c] ++ replicate (s - 3) 0.

Lemma insert_bytes s a b c :
  s <> 0%nat ->
  (let buf := replicate s 0 in
   let buf := if 1 <=? Z.of_nat s then <[0%nat := a]> buf else buf in
   let buf := if 2 <=? Z.of_nat s then <[1%nat := b]> buf else buf in
   if 3 <=? Z.of_nat s then <[2%nat := c]> buf else buf) = compact_buf s a b c.
Proof.
  intros Hs. cbv zeta. destruct (Z.leb_spec 1 (Z.of_nat s)); [|lia].
  destruct (Z.leb_spec 2 (Z.of_nat s)), (Z.leb_spec 3 (Z.of_nat s)); try lia;
    destruct s as [|[|[|s]]]; try lia; unfold compact_buf; cbn; rewrite ?take_nil; try done.
  by replace (s - 0)%nat with s by lia.
Qed.

Lemma decode_buf s a b c :
  s <> 0%nat -> in_u 8 a -> in_u 8 b -> in_u 8 c -> a < 128 ->
  from_signed_bytes_be (compact_buf s a b c) = be_val (compact_buf s a b c).
Proof.
  intros Hs Ha Hb Hc Hlt.
  assert (byte_list (compact_buf s a b c)) as Hl.
  { apply Forall_app. split; [apply Forall_take; by rewrite !Forall_cons|]. apply Forall_replicate. unfold in_u. lia. }
  assert (exists l, compact_buf s a b c = a :: l) as [l E] by (unfold compact_buf; destruct s; [done|cbn; eauto]).
  assert (compact_buf s a b c <> []) as Hn by by rewrite E. rewrite from_signed_val by done. apply signed_val_small; [done|done|].
  rewrite E in *. apply Forall_cons in Hl as [_ Hl]. rewrite be_val_cons. cbn [length]. rewrite Nat2Z.inj_succ, Z.pow_succ_r by lia.
  pose proof (be_val_range l Hl). unfold in_u in Ha. pose proof (pow_256_pos (length l)). nia.
Qed.

Lemma decode_eq n :
  in_u 32 n -> let s := Z.to_nat (n / 2 ^ 24) in let a := n / 2 ^ 16 mod 256 in
  decode_compact_bits n =
    if (s =? 0)%nat then 0
    else let v := be_val (compact_buf s (a mod 128) (n / 2 ^ 8 mod 256) (n mod 256)) in if Z.testbit n 23 then - v else v.
Proof.
  intros Hn s a. unfold in_u in Hn. pose proof (Z.div_pos n (2 ^ 24)). pose proof (Z.div_lt_upper_bound n (2 ^ 24) 256).
  unfold decode_compact_bits. cbv zeta.
  assert (Z.land (wrap_s 32 (Z.shiftr n 24)) 255 = n / 2 ^ 24) as ->.
  { rewrite wrap_s_id by (unfold in_s; rewrite ?Z.shiftr_div_pow2; lia). rewrite Z.shiftr_div_pow2 by lia.
    change 255 with (Z.ones 8). rewrite Z.land_ones, Z.mod_small by lia. done. }
  assert (Z.land n 255 = n mod 256) as -> by (change 255 with (Z.ones 8); by rewrite Z.land_ones by lia).
  rewrite !byte_at, !wrap_u_id by (lia || (unfold in_u; apply Z.mod_pos_bound; lia)). fold a.
  replace (n / 2 ^ 24) with (Z.of_nat s) by (unfold s; lia). rewrite Nat2Z.id, bit_23. fold a.
  pose proof (Z.mod_pos_bound (n / 2 ^ 16) 256 ltac:(lia)) as Ha. fold a in Ha.
  pose proof (Z.mod_pos_bound (n / 2 ^ 8) 256 ltac:(lia)) as Hb. set (b := n / 2 ^ 8 mod 256) in *.
  pose proof (Z.mod_pos_bound n 256 ltac:(lia)) as Hc. set (c := n mod 256) in *.
  destruct (byte_bits_high a Ha) as (Hh & _ & Hm). clearbody a b c s.
  destruct (Nat.eqb_spec s 0) as [->|Hs]; [done|]. destruct (Z.eqb_spec (Z.of_nat s) 0); [lia|].
  pose proof (insert_bytes s a b c Hs) as E. cbv zeta in E. rewrite !E. clear E.
  assert (exists l, forall x, compact_buf s x b c = x :: l) as [l El] by (unfold compact_buf; destruct s; [done|cbn; eauto]).
  assert (compact_buf s a b c !!! 0%nat = a) as -> by by rewrite El.
  assert (<[0%nat := Z.land a 127]> (compact_buf s a b c) = compact_buf s (a mod 128) b c) as -> by by rewrite !El, Hm.
  pose proof (Z.mod_pos_bound a 128 ltac:(lia)). rewrite Hh. destruct (Z.leb_spec 128 a).
  - by rewrite decode_buf by (done || unfold in_u; lia).
  - rewrite (Z.mod_small a 128) by lia. by rewrite decode_buf by (done || unfold in_u; lia).
Qed.

(** The value of the buffer, by the mantissa. *)
Lemma compact_buf_val s a b c :
  s <> 0%nat -> 0 <= a -> 0 <= b < 256 -> 0 <= c < 256 ->
  let m := a * 65536 + b * 256 + c in
  be_val (compact_buf s a b c) = if Z.of_nat s <? 3 then m / 256 ^ (3 - Z.of_nat s) else m * 256 ^ (Z.of_nat s - 3).
Proof.
  intros Hs Ha Hb Hc m. unfold compact_buf. destruct s as [|[|[|j]]]; [done|..].
  - change (take 1 [a; b; c] ++ replicate (1 - 3) 0) with [a]. change (Z.of_nat 1 <? 3) with true. change (256 ^ (3 - Z.of_nat 1)) with 65536. unfold m.
    rewrite be_val_cons. cbn [length]. change (256 ^ Z.of_nat 0) with 1. change (be_val []) with 0. apply (Z.div_unique _ _ _ (b * 256 + c)); lia.
  - change (take 2 [a; b; c] ++ replicate (2 - 3) 0) with [a; b]. change (Z.of_nat 2 <? 3) with true. change (256 ^ (3 - Z.of_nat 2)) with 256. unfold m.
    rewrite !be_val_cons. cbn [length]. change (256 ^ Z.of_nat 0) with 1. change (256 ^ Z.of_nat 1) with 256. change (be_val []) with 0. apply (Z.div_unique _ _ _ c); lia.
  - destruct (Z.ltb_spec (Z.of_nat (S (S (S j)))) 3); [lia|].
    change (take (S (S (S j))) [a; b; c]) with ([a; b; c] ++ take j []). rewrite take_nil, app_nil_r.
    rewrite be_val_app, be_val_zeros, length_replicate. replace (S (S (S j)) - 3)%nat with j by lia.
    replace (Z.of_nat (S (S (S j))) - 3) with (Z.of_nat j) by lia. rewrite !be_val_cons. unfold m. cbn. lia.
Qed.

Lemma mantissa_bytes n : n mod 2 ^ 23 = (n / 2 ^ 16 mod 256) mod 128 * 65536 + n / 2 ^ 8 mod 256 * 256 + n mod 256.
Proof.
  change (2 ^ 16) with 65536. change (2 ^ 8) with 256. change (2 ^ 23) with 8388608.
  Z.div_mod_to_equations. lia.
Qed.

Lemma decode_compact_value n : in_u 32 n -> decode_compact_bits n = compact_value n.
Proof.
  intros Hn. rewrite decode_eq by done. cbv zeta. unfold compact_value. unfold in_u in Hn.
  pose proof (Z.div_pos n (2 ^ 24)). pose proof (Z.div_lt_upper_bound n (2 ^ 24) 256).
  destruct (Nat.eqb_spec (Z.to_nat (n / 2 ^ 24)) 0) as [E|Hs].
  - replace (n / 2 ^ 24) with 0 by lia. change (0 <? 3) with true. cbv iota. pose proof (Z.mod_pos_bound n (2 ^ 23) ltac:(lia)).
    rewrite Z.div_small by (change (256 ^ (3 - 0)) with 16777216; lia).
    by destruct (Z.testbit n 23).
  - rewrite compact_buf_val by (done || apply Z.mod_pos_bound; lia). rewrite <- mantissa_bytes. by replace (Z.of_nat (Z.to_nat (n / 2 ^ 24))) with (n / 2 ^ 24) by lia.
Qed.

(** * Encoding *)

(** [truncate] keeps the low 64 bits. *)
Lemma truncate_eq z : 0 <= z -> truncate z = wrap_s 64 z.
Proof.
  intros Hz. unfold truncate. rewrite to_signed_le. destruct (to_signed_nonneg z Hz) as [Hv _].
  set (l := to_signed_bytes_be z) in *. destruct (Z.ltb_spec z 0); [lia|].
  assert (le_val (reverse l ++ replicate (8 - length (reverse l)) 0) = z) as E.
  { rewrite le_val_app. assert (le_val (replicate (8 - length (reverse l)) 0) = 0) as ->.
    { generalize (8 - length (reverse l))%nat. intros n. induction n as [|n IH]; [done|]. cbn. lia. }
    unfold be_val in Hv. lia. }
  set (r := reverse l ++ replicate (8 - length (reverse l)) 0) in *.
  assert (8 <= length r)%nat by (unfold r; rewrite length_app, length_replicate; lia).
  rewrite <- (take_drop 8 r), le_val_app, length_take_le in E by done.
  rewrite <- E. unfold wrap_s. f_equal. rewrite <- (Z.mod_add _ (le_val (drop 8 r)) (2 ^ 64)) by lia.
  change (256 ^ Z.of_nat 8) with (2 ^ 64). f_equal. lia.
Qed.

(** The mantissa and the size of a number that is not negative. *)
Definition mantissa (z : Z) (n : Z) : Z := if n <? 3 then z * 256 ^ (3 - n) else z / 256 ^ (n - 3).

Lemma mantissa_bound z n : 0 <= z -> 0 < n -> 2 * z < 256 ^ n -> 0 <= mantissa z n < 2 ^ 23.
Proof.
  intros Hz Hn Hs. unfold mantissa. destruct (Z.ltb_spec n 3).
  - pose proof (Z.pow_pos_nonneg 256 (3 - n)). split; [lia|].
    assert (256 ^ n * 256 ^ (3 - n) = 2 ^ 24) as E by (rewrite <- Z.pow_add_r by lia; by replace (n + (3 - n)) with 3 by lia). nia.
  - pose proof (Z.pow_pos_nonneg 256 (n - 3)). split; [apply Z.div_pos; lia|]. apply Z.div_lt_upper_bound; [lia|].
    assert (256 ^ n = 256 ^ (n - 3) * 2 ^ 24) as E by (change (2 ^ 24) with (256 ^ 3); rewrite <- Z.pow_add_r by lia; f_equal; lia). lia.
Qed.

Lemma lor_disjoint m s : 0 <= m < 2 ^ 24 -> Z.lor m (s * 2 ^ 24) = m + s * 2 ^ 24.
Proof.
  intros Hm. symmetry. rewrite Z.add_comm, Z.lor_comm. apply Z.bits_inj'. intros i Hi. 
  rewrite Z.add_comm, (Z.mul_comm s), testbit_add_shift, Z.lor_spec, Z.mul_comm, <- Z.shiftl_mul_pow2, Z.shiftl_spec by lia.
  destruct (Z.ltb_spec i 24); [by rewrite (Z.testbit_neg_r s) by lia|].
  rewrite (in_u_testbit_high 24 m) by (done || lia). by rewrite orb_false_r.
Qed.

Lemma encode_eq z :
  0 <= z -> let n := Z.of_nat (length (to_signed_bytes_be z)) in n < 2 ^ 32 ->
  encode_compact_bits z = mantissa z n + n * 2 ^ 24.
Proof.
  intros Hz n Hlt. destruct (to_signed_nonneg z Hz) as [_ Hs]. pose proof (to_signed_not_nil z) as Hnil.
  assert (0 < n) as Hn by (unfold n; destruct (to_signed_bytes_be z); [done|cbn; lia]).
  pose proof (mantissa_bound z n Hz Hn Hs) as Hm. unfold encode_compact_bits. cbv zeta. fold n.
  assert ((if n <? 3 then wrap_s 64 (Z.shiftl (truncate z) (8 * (3 - n))) else truncate (Z.shiftr z (8 * (n - 3)))) = mantissa z n) as ->.
  { unfold mantissa in *. destruct (Z.ltb_spec n 3).
    - assert (256 ^ n <= 256 ^ 2) by (apply Z.pow_le_mono_r; lia). fold n in Hs.
      rewrite truncate_eq, (wrap_s_id 64 z), Z.shiftl_mul_pow2, Z.pow_mul_r by (lia || unfold in_s; lia). apply wrap_s_id; [lia|]. unfold in_s. lia.
    - rewrite Z.shiftr_div_pow2, Z.pow_mul_r, truncate_eq by (lia || apply Z.div_pos; lia). apply wrap_s_id; [lia|]. unfold in_s. lia. }
  assert (Z.land (mantissa z n) 0x800000 = 0) as ->.
  { apply Z.bits_inj'. intros i Hi. change 0x800000 with (2 ^ 23). rewrite Z.land_spec, Z.pow2_bits_eqb, Z.bits_0 by lia.
    destruct (Z.eqb_spec 23 i) as [<-|]; [|by rewrite andb_false_r]. by rewrite (in_u_testbit_high 23) by (done || unfold in_u; lia). }
  cbn [Z.eqb negb]. destruct (Z.ltb_spec z 0); [lia|]. rewrite Z.shiftl_mul_pow2 by lia.
  rewrite wrap_s_id by (unfold in_s; lia). apply lor_disjoint. lia.
Qed.

(** What is left of a number: the first three bytes of its two's complement. *)
Definition three_bytes (z : Z) : Z := z - z mod 256 ^ Z.max 0 (Z.of_nat (length (to_signed_bytes_be z)) - 3).

Lemma decode_encode z :
  0 <= z < 2 ^ (8 * 255 - 1) -> in_u 32 (encode_compact_bits z) /\ decode_compact_bits (encode_compact_bits z) = three_bytes z.
Proof.
  intros [Hz Hlt]. pose proof (to_signed_length 255 z Hz ltac:(done)) as Hlen. rewrite pow_256, pow2_half in Hlen by lia.
  specialize (Hlen ltac:(lia)). destruct (to_signed_nonneg z Hz) as [_ Hs]. pose proof (to_signed_not_nil z) as Hnil.
  pose proof (encode_eq z Hz) as E. cbv zeta in E. unfold three_bytes. set (n := Z.of_nat (length (to_signed_bytes_be z))) in *.
  assert (0 < n) as Hn by (unfold n; destruct (to_signed_bytes_be z); [done|cbn; lia]).
  pose proof (mantissa_bound z n Hz Hn Hs) as Hm. rewrite E by lia. assert (in_u 32 (mantissa z n + n * 2 ^ 24)) as Hu by (unfold in_u; lia).
  split; [done|]. rewrite decode_compact_value by done. unfold compact_value.
  assert ((mantissa z n + n * 2 ^ 24) / 2 ^ 24 = n) as -> by (rewrite Z.div_add, Z.div_small by lia; lia).
  assert ((mantissa z n + n * 2 ^ 24) mod 2 ^ 23 = mantissa z n) as ->.
  { replace (n * 2 ^ 24) with ((2 * n) * 2 ^ 23) by lia. by rewrite Z.mod_add, Z.mod_small by lia. }
  assert (Z.testbit (mantissa z n + n * 2 ^ 24) 23 = false) as ->.
  { rewrite (Z.mul_comm n), testbit_add_shift by lia. by rewrite (in_u_testbit_high 23) by (done || unfold in_u; lia). }
  unfold mantissa. destruct (Z.ltb_spec n 3).
  - rewrite Z.div_mul by (pose proof (Z.pow_pos_nonneg 256 (3 - n)); lia). rewrite Z.max_l by lia. rewrite Z.pow_0_r, Z.mod_1_r. lia.
  - rewrite Z.max_r by lia. pose proof (Z.pow_pos_nonneg 256 (n - 3)). pose proof (Z.div_mod z (256 ^ (n - 3))). lia.
Qed.
End compact.

(** The compact form of 32 bits stands for its mantissa shifted by its exponent, with its sign,
    and the form a number that is not negative is encoded in, for every size the exponent has room for, fits 32 bits
    and stands for the number with all but the first three bytes of its two's complement cleared. *)
Theorem compact_bits_correct {B : NumBigint} {BL : NumBigintLaws B} (n z : Z) :
  in_u 32 n -> 0 <= z < 2 ^ (8 * 255 - 1) ->
  decode_compact_bits n = compact_value n /\
  in_u 32 (encode_compact_bits z) /\ compact_value (encode_compact_bits z) = three_bytes z.
Proof.
  intros Hn Hz. destruct (decode_encode z Hz) as [Hu Hd]. split; [by apply decode_compact_value|].
  split; [done|]. by rewrite <- decode_compact_value.
Qed.

Lemma compact_bits_correct_witness :
  decode_compact_bits 0x05c0de00 = - 0x40de000000 /\ compact_value (encode_compact_bits 0x1234567890) = 0x1234560000.
Proof.
  destruct (compact_bits_correct 0x05c0de00 0x1234567890) as (H1 & _ & H2); [unfold in_u; lia|lia|].
  split; [exact H1|exact H2].
Defined.

(** * The hit *)

Section unsigned_bytes.
Context {B : NumBigint} {BL : NumBigintLaws B}.

(** A number that is not negative in exactly [n] bytes, or an error when it needs more. *)
Lemma unsigned_bytes_eq n z :
  0 <= z -> as_unsigned_byte_array n z = if z <? 256 ^ Z.of_nat n then Ok (be_bytes n z) else Err BigIntToByteArrayError.
Proof.
  intros Hz. unfold as_unsigned_byte_array. cbv zeta. destruct (to_signed_nonneg z Hz) as [Hv Hs].
  pose proof (to_signed_range z) as Hr. pose proof (to_signed_not_nil z) as Hn.
  pose proof (fun m Hm H => to_signed_length m z Hz Hm H) as Hleast.
  set (l := to_signed_bytes_be z) in *. pose proof (be_val_range l Hr) as Hb.
  destruct (Nat.eqb_spec (length l) n) as [<-|Hne].
  { rewrite Hv in Hb. destruct (Z.ltb_spec z (256 ^ Z.of_nat (length l))); [|lia]. by rewrite <- (be_bytes_eq (length l) l z). }
  destruct l as [|b l]; [done|]. cbn [length] in *. change ((b :: l) !!! 0%nat) with b.
  apply Forall_cons in Hr as [Hbr Hlr]. pose proof (be_val_range l Hlr) as Hl. rewrite be_val_cons in Hv. unfold in_u in Hbr.
  pose proof (pow_256_pos (length l)). pose proof (pow_256_pos n).
  set (start := if b =? 0 then 1%nat else 0%nat).
  assert (be_val (drop start (b :: l)) = z /\ byte_list (drop start (b :: l))) as [Hdv Hdr].
  { unfold start. destruct (Z.eqb_spec b 0) as [->|]; [change (drop 1 (0 :: l)) with l; split; [lia|done]|change (drop 0 (b :: l)) with (b :: l)]. rewrite be_val_cons. split; [done|by constructor]. }
  assert (length (drop start (b :: l)) = (S (length l) - start)%nat) as Hdl by by rewrite length_drop.
  assert (z < 256 ^ Z.of_nat n <-> (S (length l) - start <= n)%nat) as Hiff.
  { split; intros Hlt.
    - destruct (Nat.le_gt_cases (S (length l) - start) n) as [|Hgt]; [done|exfalso]. unfold start in *. destruct (Z.eqb_spec b 0) as [->|].
      + assert (S (length l) <= S n)%nat; [|lia]. apply Hleast; [lia|]. rewrite Nat2Z.inj_succ, Z.pow_succ_r by lia. lia.
      + assert (256 ^ Z.of_nat n <= 256 ^ Z.of_nat (length l)) by (apply Z.pow_le_mono_r; lia). nia.
    - rewrite <- Hdv. eapply Z.lt_le_trans; [by apply be_val_range|]. rewrite Hdl. apply Z.pow_le_mono_r; lia. }
  destruct (Nat.ltb_spec n (S (length l) - start)); destruct (Z.ltb_spec z (256 ^ Z.of_nat n)); try (exfalso; lia); [done|].
  f_equal. apply be_bytes_eq.
  - apply Forall_app. split; [apply Forall_replicate; unfold in_u; lia|done].
  - rewrite length_app, length_replicate, Hdl. lia.
  - rewrite be_val_app, be_val_zeros. lia.
Qed.
End unsigned_bytes.

(** The hit as the paper gives it, in plain numbers. *)
Section reference.
Context {C : SigmaCrypto}.

Definition ref_element (h : list Z) (idx : Z) : Z := be_val (drop 1 (blake2b256_hash (be_bytes 4 idx ++ h ++ calc_big_m))).
Definition ref_seed (big_n : Z) (msg nonce h : list Z) : list Z :=
  let i := be_val (drop 24 (blake2b256_hash (msg ++ nonce))) mod big_n in
  blake2b256_hash (drop 1 (blake2b256_hash (be_bytes 4 i ++ h ++ calc_big_m)) ++ msg ++ nonce).
Definition ref_index (big_n : Z) (seed : list Z) (j : nat) : Z := be_val (take 4 (drop j (seed ++ take 3 seed))) mod big_n.
Definition ref_indexes (k big_n : Z) (msg nonce h : list Z) : list Z :=
  map (ref_index big_n (ref_seed big_n msg nonce h)) (seq 0 (Z.to_nat k)).
Definition ref_sum (k big_n : Z) (msg nonce h : list Z) : Z := foldr Z.add 0 (map (ref_element h) (ref_indexes k big_n msg nonce h)).
Definition ref_hit (k big_n : Z) (msg nonce h : list Z) : Z := be_val (blake2b256_hash (be_bytes 32 (ref_sum k big_n msg nonce h))).
End reference.

Section hit.
Context {C : SigmaCrypto} {L : SigmaCryptoLaws C} {B : NumBigint} {BL : NumBigintLaws B}.

Lemma element_eq h idx : table_element h idx = ref_element h idx /\ 0 <= ref_element h idx < 2 ^ 248.
Proof.
  unfold table_element, ref_element. set (f := blake2b256_hash _). assert (byte_list (drop 1 f)) as Hb by apply Forall_drop, blake2b256_range.
  split; [by apply from_bytes_val|]. pose proof (be_val_range _ Hb) as H. rewrite length_drop in H. unfold f in H at 3.
  by rewrite blake2b256_len in H.
Qed.

Lemma seed_eq big_n msg nonce h : 0 < big_n < 2 ^ 32 -> calc_seed_v2 big_n msg nonce h = Ok (ref_seed big_n msg nonce h).
Proof.
  intros HN. unfold calc_seed_v2, ref_seed. cbv zeta. rewrite from_bytes_val by apply Forall_drop, blake2b256_range.
  change (32 - 8)%nat with 24%nat. rewrite modpow_spec, Z.pow_1_r by lia. cbn [ok_or mbind result_bind].
  set (m := be_val _ mod big_n). assert (0 <= m < big_n) by (apply Z.mod_pos_bound; lia).
  rewrite unsigned_bytes_eq by lia. by destruct (Z.ltb_spec m (256 ^ Z.of_nat 4)); [|change (256 ^ Z.of_nat 4) with (2 ^ 32) in *; lia].
Qed.

Lemma indexes_eq s seed big_n :
  scheme_wf s -> 0 < big_n < 2 ^ 32 -> length seed = 32%nat -> byte_list seed ->
  gen_indexes s seed big_n = Ok (map (ref_index big_n seed) (seq 0 (Z.to_nat (k s)))).
Proof.
  intros [Hk _] HN Hl Hb. unfold gen_indexes. cbv zeta. apply mapM_res_succeeds, Forall_forall.
  intros j Hj%elem_of_seq. unfold slice, ref_index. set (ext := seed ++ take 3 seed).
  assert (byte_list ext) as Hext by (apply Forall_app; split; [done|by apply Forall_take]).
  assert (length ext = 35%nat) as Hel by (unfold ext; rewrite length_app, length_take; lia). rewrite Hel.
  destruct (Nat.leb_spec j (j + 4)); [|lia]. destruct (Nat.leb_spec (j + 4) 35); [|lia]. cbn [andb mbind result_bind].
  replace (j + 4 - j)%nat with 4%nat by lia. rewrite from_bytes_val by by apply Forall_take, Forall_drop.
  rewrite modpow_spec, Z.pow_1_r by lia. cbn [ok_or mbind result_bind]. f_equal. apply first_digit.
  pose proof (Z.mod_pos_bound (be_val (take 4 (drop j ext))) big_n). lia.
Qed.

Lemma sum_bound f (l : list Z) b : (forall x, 0 <= f x < b) -> 0 <= foldr Z.add 0 (map f l) <= Z.of_nat (length l) * b.
Proof. intros Hf. induction l as [|x l IH]; cbn [map foldr length]; [lia|]. specialize (Hf x). lia. Qed.

Lemma ref_sum_bound k big_n msg nonce h : 2 <= k <= 32 -> 0 <= ref_sum k big_n msg nonce h < 2 ^ 254.
Proof.
  intros Hk. unfold ref_sum. pose proof (sum_bound (ref_element h) (ref_indexes k big_n msg nonce h) (2 ^ 248) (fun i => proj2 (element_eq h i))) as H.
  unfold ref_indexes in H at 3. rewrite length_map, length_seq in H. lia.
Qed.

Lemma default_scheme_wf : scheme_wf default_scheme.
Proof. unfold scheme_wf, default_scheme. cbn [k big_n_base]. lia. Qed.

(** C39: with a table of any size that 32 bits hold, computing the hit of a message fails nowhere and gives the
    number of the paper's algorithm, of 256 bits, for k indexes below the table's size; with an empty table it panics. *)
Theorem pow_hit_refines (s : AutolykosPowScheme) (msg nonce h : list Z) (big_n : Z) :
  scheme_wf s ->
  (0 < big_n < 2 ^ 32 ->
     pow_hit_message_v2 s msg nonce h big_n = Ok (ref_hit (k s) big_n msg nonce h) /\ 0 <= ref_hit (k s) big_n msg nonce h < 2 ^ 256 /\
     Forall (fun i => 0 <= i < big_n) (ref_indexes (k s) big_n msg nonce h)) /\
  (big_n = 0 -> pow_hit_message_v2 s msg nonce h big_n = Err PowPanic).
Proof.
  intros Hs. split.
  - intros HN. unfold pow_hit_message_v2. rewrite seed_eq by done. cbn [mbind result_bind].
    rewrite indexes_eq by (done || apply blake2b256_len || apply blake2b256_range). cbn [mbind result_bind].
    rewrite (map_ext _ (ref_element h)) by apply element_eq. fold (ref_indexes (k s) big_n msg nonce h). fold (ref_sum (k s) big_n msg nonce h).
    pose proof (ref_sum_bound (k s) big_n msg nonce h (proj1 Hs)) as Hsum. rewrite unsigned_bytes_eq by lia.
    destruct (Z.ltb_spec (ref_sum (k s) big_n msg nonce h) (256 ^ Z.of_nat 32)); [|change (256 ^ Z.of_nat 32) with (2 ^ 256) in *; lia].
    cbn [result_map_err mbind result_bind]. pose proof (blake2b256_range (be_bytes 32 (ref_sum (k s) big_n msg nonce h))) as Hb.
    rewrite from_bytes_val by done. split_and!; [done| | |].
    + by apply be_val_range.
    + pose proof (proj2 (be_val_range _ Hb)) as Hv. rewrite blake2b256_len in Hv. exact Hv.
    + apply Forall_fmap, Forall_forall. intros j _. apply Z.mod_pos_bound. lia.
  - intros ->. unfold pow_hit_message_v2, calc_seed_v2. cbv zeta. by rewrite modpow_zero.
Qed.
End hit.

Lemma pow_hit_refines_witness :
  pow_hit_message_v2 (mkScheme 2 16) [1; 2] [3] [4] 1000 = Ok (ref_hit 2 1000 [1; 2] [3] [4]) /\
  pow_hit_message_v2 (mkScheme 2 16) [1; 2] [3] [4] 0 = Err PowPanic.
Proof.
  destruct (pow_hit_refines (mkScheme 2 16) [1; 2] [3] [4] 1000) as [H1 _]; [unfold scheme_wf; cbn; lia|].
  destruct (pow_hit_refines (mkScheme 2 16) [1; 2] [3] [4] 0) as [_ H2]; [unfold scheme_wf; cbn; lia|].
  split; [|by apply H2]. destruct H1 as (H1 & _); [lia|exact H1].
Defined.

(** * The size of the table *)

(** The sizes after each number of increases, which never get smaller. *)
Definition grown (i : nat) : Z := match big_n_grow i (2 ^ 26) with Ok n => n | Err _ => 0 end.

Lemma grown_table :
  forallb (fun i =>
    (match big_n_grow i (2 ^ 26) with Ok _ => true | Err _ => false end) && (2 ^ 26 <=? grown i) &&
    (grown i <=? grown (S i)) && (grown i <=? 2143944600)) (seq 0 71) = true /\
  grown 71%nat = 2143944600 /\ big_n_grow 71%nat (2 ^ 26) = Ok (grown 71%nat).
Proof. vm_compute. auto. Qed.

Lemma grown_step i :
  (i < 71)%nat -> big_n_grow i (2 ^ 26) = Ok (grown i) /\ 2 ^ 26 <= grown i <= grown (S i) /\ grown i <= 2143944600.
Proof.
  intros Hi. destruct grown_table as [H _]. rewrite forallb_forall in H. specialize (H i ltac:(apply in_seq; lia)).
  apply andb_true_iff in H as [H H4]. apply andb_true_iff in H as [H H3]. apply andb_true_iff in H as [H1 H2].
  apply Z.leb_le in H2, H3, H4. split; [|lia]. unfold grown. by destruct (big_n_grow i (2 ^ 26)).
Qed.

Lemma grown_range i : (i < 72)%nat -> big_n_grow i (2 ^ 26) = Ok (grown i) /\ 2 ^ 26 <= grown i <= 2143944600.
Proof.
  intros Hi. destruct (Nat.eq_dec i 71%nat) as [->|].
  - destruct grown_table as (_ & E & ->). rewrite E. split; [done|lia].
  - destruct (grown_step i) as (E & ? & ?); [lia|]. split; [done|lia].
Qed.

Lemma grown_le i j : (i <= j < 72)%nat -> grown i <= grown j.
Proof.
  intros [Hij Hj]. revert Hj. induction Hij as [|j Hij IH]; intros Hj; [done|]. etrans; [apply IH; lia|].
  apply grown_step. lia.
Qed.

(** The number of increases at a height. *)
Definition increases (version height : Z) : nat :=
  if (version =? 1) || (height <? 614400) then 0%nat else Z.to_nat ((Z.min 4198400 height - 614400) / 51200 + 1).

Lemma increases_le v h h' : h <= h' -> (increases v h <= increases v h' < 72)%nat.
Proof.
  intros Hh. unfold increases. destruct (v =? 1); [cbn; lia|].
  destruct (Z.ltb_spec h 614400), (Z.ltb_spec h' 614400); cbn [orb]; try lia.
  - pose proof (Z.div_le_upper_bound (Z.min 4198400 h' - 614400) 51200 70). lia.
  - pose proof (Z.div_le_upper_bound (Z.min 4198400 h' - 614400) 51200 70).
    pose proof (Z.div_le_mono (Z.min 4198400 h - 614400) (Z.min 4198400 h' - 614400) 51200).
    pose proof (Z.div_pos (Z.min 4198400 h - 614400) 51200). lia.
Qed.

Lemma calc_big_n_eq v h : calc_big_n default_scheme v h = big_n_grow (increases v h) (2 ^ 26).
Proof.
  unfold calc_big_n, increases. cbv zeta. destruct (v =? 1); [done|]. cbn [orb big_n_base default_scheme].
  change (600 * 1024) with 614400. change (50 * 1024) with 51200.
  destruct (Z.ltb_spec (Z.min 4198400 h) 614400), (Z.ltb_spec h 614400); done || lia.
Qed.

(** With the default parameters the size of the table never overflows, starts at 2^26, never shrinks
    with the height, and ends at 2143944600 from height 4198400 on. *)
Theorem calc_big_n_bounds (version h h' : Z) :
  h <= h' ->
  exists n n', calc_big_n default_scheme version h = Ok n /\ calc_big_n default_scheme version h' = Ok n' /\
    2 ^ 26 <= n <= n' /\ n' <= 2143944600 /\ (version = 1 \/ h' < 614400 -> n' = 2 ^ 26) /\
    (version <> 1 -> 4198400 <= h -> n = 2143944600).
Proof.
  intros Hh. rewrite !calc_big_n_eq. pose proof (increases_le version h h' Hh) as Hi.
  pose proof (grown_le _ _ Hi) as Hle. destruct (grown_range (increases version h)) as [E Hr]; [lia|].
  destruct (grown_range (increases version h')) as [E' Hr']; [lia|].
  exists (grown (increases version h)), (grown (increases version h')). split_and!; try done; try lia.
  - intros Hv. unfold increases. destruct Hv as [->|Hv]; [done|]. destruct (Z.ltb_spec h' 614400); [|lia]. by rewrite orb_true_r.
  - intros Hv Hhigh. unfold increases. destruct (Z.eqb_spec version 1); [done|]. destruct (Z.ltb_spec h 614400); [lia|].
    cbn [orb]. by rewrite Z.min_l by lia.
Qed.

Lemma calc_big_n_bounds_witness :
  614400 <= 5000000 /\ exists n, calc_big_n default_scheme 2 614400 = Ok n /\ n <= 2143944600.
Proof.
  split; [lia|]. destruct (calc_big_n_bounds 2 614400 5000000) as (n & n' & E & _ & Hn & Hmax & _); [lia|].
  exists n. split; [exact E|lia].
Defined.

(** A scheme the types permit for which it does overflow. *)
Lemma calc_big_n_overflow :
  scheme_new 32 (2 ^ 31 - 1) = Ok (mkScheme 32 (2 ^ 31 - 1)) /\
  calc_big_n (mkScheme 32 (2 ^ 31 - 1)) 2 4198400 = Err PowPanic.
Proof. by vm_compute. Qed.

(** * The check of a header *)

Section check.
Context {C : SigmaCrypto} {L : SigmaCryptoLaws C} {B : NumBigint} {BL : NumBigintLaws B} {M : ScalarModulus}.

Lemma target_spec hit d : 0 <= hit -> d <> 0 -> (hit <? Z.quot order_bigint d) = bool_decide (0 < d /\ (hit + 1) * d <= order_bigint).
Proof.
  intros Hh Hd. pose proof MODULUS_pos as Hm. fold order_bigint in Hm. destruct (Z.ltb_spec d 0).
  - rewrite bool_decide_eq_false_2 by lia. apply Z.ltb_ge. etrans; [|exact Hh].
    rewrite <- (Z.opp_involutive d), Z.quot_opp_r by lia. rewrite Z.quot_div_nonneg by lia. pose proof (Z.div_pos order_bigint (- d)). lia.
  - rewrite Z.quot_div_nonneg by lia. pose proof (Z.div_mod order_bigint d). pose proof (Z.mod_pos_bound order_bigint d).
    symmetry. destruct (Z.ltb_spec hit (order_bigint / d)).
    + apply bool_decide_eq_true_2. split; [lia|]. nia.
    + apply bool_decide_eq_false_2. intros [_ Hle]. nia.
Qed.

(** C38: checking a header fails for version 1, for a header that does not serialize and for a difficulty
    of zero; otherwise it accepts exactly the headers of a positive difficulty [d] whose hit, of the hash of their bytes, is
    below the quotient of the order of the curve by [d], that is [(hit + 1) * d <= order_bigint]; it never panics. *)
Theorem check_pow_correct (h : Header) (n : Z) :
  header_wf h -> calc_big_n default_scheme (version h) (height h) = Ok n ->
  let d := compact_value (n_bits h) in
  check_pow h =
    if version h =? 1 then Err PowUnsupported
    else
      match serialize_without_pow h with
      | Err e => Err (PowScorexSerialization e)
      | Ok bytes =>
          let hit := ref_hit 32 n (blake2b256_hash bytes) (nonce (autolykos_solution h)) (be_bytes 4 (height h)) in
          if d =? 0 then Err PowOutOfBounds else Ok (bool_decide (0 < d /\ (hit + 1) * d <= order_bigint))
      end.
Proof.
  intros Hwf En d. assert (in_u 32 (n_bits h)) as Hb by apply Hwf. unfold check_pow, pow_hit.
  destruct (version h =? 1); [done|]. cbn [negb]. rewrite En. destruct (serialize_without_pow h) as [bytes|e]; [|done].
  cbn [result_map_err mbind result_bind]. cbv zeta.
  destruct (calc_big_n_bounds (version h) (height h) (height h)) as (n0 & n1 & E0 & E1 & H1 & H2 & _); [done|].
  rewrite En in E0, E1. apply (inj Ok) in E0 as <-. apply (inj Ok) in E1 as <-.
  destruct (pow_hit_refines default_scheme (blake2b256_hash bytes) (nonce (autolykos_solution h)) (be_bytes 4 (height h)) n) as [Hhit _];
    [exact default_scheme_wf|].
  destruct Hhit as (E & Hr & _); [lia|]. change (k default_scheme) with 32 in *. rewrite E. cbn [mbind result_bind]. rewrite decode_compact_value by done. fold d.
  destruct (Z.eqb_spec d 0); [done|]. f_equal. apply target_spec; [lia|done].
Qed.
End check.

Lemma check_pow_correct_witness : exists bytes, serialize_without_pow sample_header = Ok bytes /\
  check_pow sample_header =
    Ok (bool_decide (0 < 16384 /\
      (ref_hit 32 70464240 (blake2b256_hash bytes) [0; 0; 0; 0; 0; 0; 49; 5] (be_bytes 4 614400) + 1) * 16384 <= order_bigint)).
Proof.
  assert (header_wf sample_header) as Hwf by (refine (bool_decide_unpack _ _); vm_compute; exact I).
  pose proof (check_pow_correct sample_header 70464240 Hwf ltac:(vm_compute; reflexivity)) as H. cbv zeta in H.
  change (compact_value (n_bits sample_header)) with 16384 in H. change (version sample_header =? 1) with false in H.
  destruct (serialize_without_pow sample_header) as [bytes|e] eqn:E; [|vm_compute in E; discriminate E].
  exists bytes. split; [reflexivity|exact H].
Defined.
