(* ===== verification/Merkle.v ===== *)
(** Merkle trees (src/ergo-merkle-tree/src/lib.rs, merkletree.rs and merkleproof.rs): the tree laid
    out in an array, its root, the proof of one leaf and its check, over a hash function with
    digests of 32 bytes. A step that panics is an error of [panic]. *)

From S2P Require Import Prelude ConcreteCrypto.
From stdpp Require Import gmap.
#[local] Open Scope Z_scope.

(** * Array positions *)

Definition get_left (node_index : nat) : nat := 2 * node_index + 1.
Definition get_right (node_index : nat) : nat := 2 * node_index + 2.
Definition get_parent (index : nat) : option nat :=
  match index with O => None | S v => Some (v / 2)%nat end.
Definition get_sibling (index : nat) : option nat :=
  parent_index ← get_parent index;
  if negb (get_left parent_index =? index)%nat then Some (get_left parent_index)
  else Some (get_right parent_index).

Definition next_power_of_two (n : nat) : nat := 2 ^ Nat.log2_up n.

(** [Digest32]: 32 bytes. *)
Abbreviation Digest32 := (list Z) (only parsing).

Section merkle.
Context (blake2b256_hash : list Z -> list Z).

Definition HASH_SIZE : nat := 32.
Definition INTERNAL_PREFIX : Z := 1.
Definition LEAF_PREFIX : Z := 0.

Definition prefixed_hash (prefix : Z) (data : list Z) : Digest32 := blake2b256_hash (prefix :: data).
Definition prefixed_hash2 (prefix : Z) (data data2 : option (list Z)) : Digest32 :=
  blake2b256_hash (prefix :: default [] data ++ default [] data2).

(** * Nodes *)

Inductive MerkleNode : Type :=
| Node (hash : Digest32)
| Leaf (hash : Digest32) (data : list Z)
| EmptyNode.

Definition node_from_bytes (bytes : list Z) : MerkleNode := Leaf (prefixed_hash LEAF_PREFIX bytes) bytes.

Definition get_hash (n : MerkleNode) : option Digest32 :=
  match n with Node hash => Some hash | Leaf hash _ => Some hash | EmptyNode => None end.
Definition get_leaf_data (n : MerkleNode) : option (list Z) :=
  match n with Leaf _ data => Some data | _ => None end.

(** * The tree *)

Record MerkleTree : Type := mkTree {
  nodes : list MerkleNode;
  elements_hash_index : gmap Digest32 nat;
  internal_nodes : nat
}.

(** [nodes[i]] *)
Definition node_at (ns : list MerkleNode) (i : nat) : result panic MerkleNode := ok_or (ns !! i) Panicked.
Definition unwrap {A} (o : option A) : result panic A := ok_or o Panicked.

(** The hash of the pair's parent; a left node that is empty beside one that is not panics. *)
Definition parent_node (left_hash right_hash : option Digest32) : result panic MerkleNode :=
  match left_hash, right_hash with
  | Some left_hash, Some right_hash => Ok (Node (prefixed_hash2 INTERNAL_PREFIX (Some left_hash) (Some right_hash)))
  | Some hash, None => Ok (Node (prefixed_hash INTERNAL_PREFIX hash))
  | None, None => Ok EmptyNode
  | None, Some _ => Err Panicked
  end.

Definition build_step (ns : list MerkleNode) (p : nat) : result panic (list MerkleNode) :=
  left ← node_at ns p;
  sibling ← unwrap (get_sibling p);
  right ← node_at ns sibling;
  node ← parent_node (get_hash left) (get_hash right);
  parent ← unwrap (get_parent p);
  _ ← node_at ns parent;
  Ok (<[parent := node]> ns).

Fixpoint build_loop (pairs : list nat) (ns : list MerkleNode) : result panic (list MerkleNode) :=
  match pairs with
  | [] => Ok ns
  | p :: pairs => ns ← build_step ns p; build_loop pairs ns
  end.

(** [(1..len).step_by(2)] *)
Definition odd_positions (len : nat) : list nat := map (fun k => 2 * k + 1)%nat (seq 0 (len / 2)).

Definition build_nodes (ns : list MerkleNode) : result panic (list MerkleNode) :=
  build_loop (reverse (odd_positions (length ns))) ns.

(** Later positions of an equal hash replace earlier ones. *)
Definition hash_index (ns : list MerkleNode) : gmap Digest32 nat :=
  foldl (fun m p => <[snd p := fst p]> m) ∅ (enumerate (omap get_hash ns)).

Definition tree_new (ns : list MerkleNode) : result panic MerkleTree :=
  let tree_nodes := if (length ns mod 2 =? 1)%nat then ns ++ [EmptyNode] else ns in
  let elements_hash_index := hash_index tree_nodes in
  let leaf_nodes := length tree_nodes in
  let tree_nodes := replicate (next_power_of_two (length tree_nodes) - 1) EmptyNode ++ tree_nodes in
  tree_nodes ← build_nodes tree_nodes;
  Ok (mkTree tree_nodes elements_hash_index (length tree_nodes - leaf_nodes)).

Definition root_hash (t : MerkleTree) : Digest32 :=
  default (replicate 32 0) (head (nodes t) ≫= get_hash).
Definition root_hash_special (t : MerkleTree) : Digest32 :=
  default (blake2b256_hash []) (head (nodes t) ≫= get_hash).

(** * Proofs of one leaf *)

Inductive NodeSide : Type := Left | Right.
#[export] Instance NodeSide_eq_dec : EqDecision NodeSide.
Proof. solve_decision. Defined.

Record LevelNode : Type := mkLevel { level_hash : option Digest32; side : NodeSide }.
Definition level_new (hash : Digest32) (side : NodeSide) : LevelNode := mkLevel (Some hash) side.
Definition empty_node (side : NodeSide) : LevelNode := mkLevel None side.

Record MerkleProof : Type := mkProof { leaf_data : list Z; levels : list LevelNode }.

(** One step of [valid]'s fold. *)
Definition level_step (prev_hash : Digest32) (node : LevelNode) : Digest32 :=
  match level_hash node, side node with
  | Some hash, Left => prefixed_hash2 INTERNAL_PREFIX (Some prev_hash) (Some hash)
  | Some hash, Right => prefixed_hash2 INTERNAL_PREFIX (Some hash) (Some prev_hash)
  | None, _ => prefixed_hash INTERNAL_PREFIX prev_hash
  end.

Definition valid (p : MerkleProof) (expected_root : list Z) : bool :=
  let leaf_hash := prefixed_hash 0 (leaf_data p) in
  bool_decide (fold_left level_step (levels p) leaf_hash = expected_root).

Definition add_node (p : MerkleProof) (node : LevelNode) : MerkleProof :=
  mkProof (leaf_data p) (levels p ++ [node]).

(** The loop of [build_proof], up to the root. *)
Fixpoint proof_levels (fuel : nat) (ns : list MerkleNode) (leaf_index : nat) :
    result panic (option (list LevelNode)) :=
  match get_sibling leaf_index with
  | None => Ok (Some [])
  | Some sibling =>
      match fuel with
      | O => Err OutOfFuel
      | S fuel =>
          let side := if (sibling =? leaf_index + 1)%nat then Left else Right in
          node ← node_at ns sibling;
          let level := match get_hash node with Some hash => level_new hash side | None => empty_node side end in
          match get_parent leaf_index with
          | None => Ok None
          | Some parent =>
              rest ← proof_levels fuel ns parent;
              Ok (option_map (cons level) rest)
          end
      end
  end.

(** The sum of a leaf's index and the number of internal nodes, in usize. *)
Definition leaf_position (leaf_index internal_nodes : nat) : result panic nat :=
  let position := (leaf_index + internal_nodes)%nat in
  if Z.of_nat position <? 2 ^ 64 then Ok position else Err Panicked.

Definition build_proof (ns : list MerkleNode) (leaf_index internal_nodes : nat) : result panic (option MerkleProof) :=
  leaf_index ← leaf_position leaf_index internal_nodes;
  match ns !! leaf_index with
  | Some (Leaf _ data) =>
      proof_nodes ← proof_levels leaf_index ns leaf_index;
      Ok (option_map (mkProof data) proof_nodes)
  | _ => Ok None
  end.

Definition proof_by_index (t : MerkleTree) (leaf_index : nat) : result panic (option MerkleProof) :=
  build_proof (nodes t) leaf_index (internal_nodes t).
Definition proof_by_element_hash (t : MerkleTree) (hash : Digest32) : result panic (option MerkleProof) :=
  match elements_hash_index t !! hash with
  | Some index => proof_by_index t index
  | None => Ok None
  end.
Definition proof_by_element (t : MerkleTree) (data : list Z) : result panic (option MerkleProof) :=
  proof_by_element_hash t (prefixed_hash LEAF_PREFIX data).

(** * The reference: a list of digests hashed in pairs, level by level *)

Definition pair_digest (left_hash right_hash : option Digest32) : option Digest32 :=
  match left_hash with
  | Some l => Some (blake2b256_hash (INTERNAL_PREFIX :: l ++ default [] right_hash))
  | None => None
  end.

Fixpoint up (l : list Digest32) : list Digest32 :=
  match l with
  | a :: b :: l => blake2b256_hash (INTERNAL_PREFIX :: a ++ b) :: up l
  | [a] => [blake2b256_hash (INTERNAL_PREFIX :: a)]
  | [] => []
  end.

Definition level (k : nat) (l : list Digest32) : list Digest32 := Nat.iter k up l.

(** The levels above the leaves; a single leaf has one. *)
Definition height (n : nat) : nat := Nat.log2_up (n + n mod 2).

Definition merkle_root (datas : list (list Z)) : option Digest32 :=
  head (level (height (length datas)) (map (prefixed_hash LEAF_PREFIX) datas)).

Lemma list_two_ind {A} (P : list A -> Prop) :
  P [] -> (forall a, P [a]) -> (forall a b l, P l -> P (a :: b :: l)) -> forall l, P l.
Proof. intros H0 H1 H2. fix IH 1. intros [|a [|b l]]; [done|done|]. by apply H2, IH. Qed.

Lemma up_lookup l j : up l !! j = pair_digest (l !! (2 * j)%nat) (l !! (2 * j + 1)%nat).
Proof.
  revert j. induction l as [|a|a b l IH] using list_two_ind; intros j; [by rewrite !lookup_nil| |];
    (destruct j as [|j]; [cbn; by rewrite ?app_nil_r|]); replace (2 * S j)%nat with (S (S (2 * j))) by lia;
    [done|apply IH].
Qed.

(** * The array as levels of the reference *)

(** The digest of a position. *)
Definition hash_at (ns : list MerkleNode) (i : nat) : option Digest32 := ns !! i ≫= get_hash.

(** With positions counted from one, [pos] has the children [2 pos] and [2 pos + 1] and stands on
    level [Nat.log2 pos], in which it is number [pos - 2 ^ Nat.log2 pos]. *)
Definition digest_at (d : nat) (l : list Digest32) (pos : nat) : option Digest32 :=
  level (d - Nat.log2 pos) l !! (pos - 2 ^ Nat.log2 pos)%nat.

Lemma digest_at_children d l pos :
  (0 < pos)%nat -> (Nat.log2 pos < d)%nat ->
  digest_at d l pos = pair_digest (digest_at d l (2 * pos)) (digest_at d l (2 * pos + 1)).
Proof.
  intros Hp Hd. unfold digest_at. rewrite Nat.log2_double, Nat.log2_succ_double by done.
  pose proof (Nat.log2_spec pos Hp) as [Hlo _]. rewrite Nat.pow_succ_r'.
  replace (d - Nat.log2 pos)%nat with (S (d - S (Nat.log2 pos))) by lia.
  change (level (S ?n) l) with (up (level n l)). rewrite up_lookup. f_equal; f_equal; lia.
Qed.

(** Digests stand at the left of their level. *)
Lemma digest_at_left d l pos : digest_at d l (2 * pos) = None -> digest_at d l (2 * pos + 1) = None.
Proof.
  destruct (Nat.eq_0_gt_0_cases pos) as [->|Hp]; [by cbn|]. unfold digest_at.
  rewrite Nat.log2_double, Nat.log2_succ_double by done. intros H%lookup_ge_None. apply lookup_ge_None.
  pose proof (Nat.log2_spec pos Hp) as [Hlo _]. rewrite Nat.pow_succ_r' in *. lia.
Qed.

Lemma digest_at_leaf d l pos : (2 ^ d <= pos < 2 * 2 ^ d)%nat -> digest_at d l pos = l !! (pos - 2 ^ d)%nat.
Proof.
  intros H. unfold digest_at. rewrite (Nat.log2_unique pos d); [by rewrite Nat.sub_diag|lia|].
  rewrite Nat.pow_succ_r'. lia.
Qed.

Lemma pow2_pos d : (0 < 2 ^ d)%nat.
Proof. apply Nat.neq_0_lt_0, Nat.pow_nonzero. lia. Qed.

(** ** Building *)

Lemma left_child k : get_sibling (2 * k + 1) = Some (2 * k + 2)%nat /\ get_parent (2 * k + 1) = Some k.
Proof.
  assert (get_parent (2 * k + 1) = Some k) as E.
  { rewrite Nat.add_1_r. cbn [get_parent]. by rewrite Nat.mul_comm, Nat.div_mul. }
  split; [|done]. unfold get_sibling. rewrite E. cbn [mbind option_bind]. unfold get_left, get_right.
  by rewrite Nat.eqb_refl.
Qed.

Lemma right_child k : get_sibling (2 * k + 2) = Some (2 * k + 1)%nat /\ get_parent (2 * k + 2) = Some k.
Proof.
  assert (get_parent (2 * k + 2) = Some k) as E.
  { replace (2 * k + 2)%nat with (S (1 + k * 2)) by lia. cbn [get_parent]. by rewrite Nat.div_add. }
  split; [|done]. unfold get_sibling. rewrite E. cbn [mbind option_bind]. unfold get_left, get_right.
  by destruct (Nat.eqb_spec (2 * k + 1) (2 * k + 2)); [lia|].
Qed.

(** The nodes at leaf positions and those whose children are at [c] or later have their digests. *)
Definition built (d : nat) (l : list Digest32) (ns : list MerkleNode) (c : nat) : Prop :=
  forall i, (i < 2 * 2 ^ d - 1)%nat -> (2 ^ d <= i + 1 \/ c <= 2 * i + 1)%nat ->
    hash_at ns i = digest_at d l (i + 1).

Lemma node_at_Ok ns i : (i < length ns)%nat -> exists n, node_at ns i = Ok n /\ ns !! i = Some n.
Proof. intros [n Hn]%lookup_lt_is_Some. exists n. unfold node_at. by rewrite Hn. Qed.

Lemma parent_node_Ok l r :
  (l = None -> r = None) -> exists n, parent_node l r = Ok n /\ get_hash n = pair_digest l r.
Proof.
  intros H. destruct l as [l|], r as [r|]; cbn; eauto.
  - eexists. split; [done|]. cbn. by rewrite app_nil_r.
  - by specialize (H eq_refl).
Qed.

Lemma build_step_Ok d l ns k :
  (2 * k + 2 < length ns)%nat -> (length ns <= 2 * 2 ^ d - 1)%nat -> built d l ns (2 * k + 3) ->
  exists ns', build_step ns (2 * k + 1) = Ok ns' /\ built d l ns' (2 * k + 1) /\ length ns' = length ns /\
    forall i, i <> k -> ns' !! i = ns !! i.
Proof.
  intros Hk Hlen Hb. destruct (left_child k) as [Es Ep]. unfold build_step.
  destruct (node_at_Ok ns (2 * k + 1)) as (a & Ea & Ha); [lia|].
  destruct (node_at_Ok ns (2 * k + 2)) as (b & Eb & Hb'); [lia|].
  destruct (node_at_Ok ns k) as (c & Ec & _); [lia|].
  rewrite Ea, Es, Ep. cbn [unwrap ok_or mbind result_bind]. rewrite Eb, Ec. cbn [mbind result_bind].
  assert (get_hash a = digest_at d l (2 * (k + 1))) as Hda.
  { replace (2 * (k + 1))%nat with (2 * k + 1 + 1)%nat by lia. rewrite <- Hb by lia. unfold hash_at. by rewrite Ha. }
  assert (get_hash b = digest_at d l (2 * (k + 1) + 1)) as Hdb.
  { replace (2 * (k + 1) + 1)%nat with (2 * k + 2 + 1)%nat by lia. rewrite <- Hb by lia. unfold hash_at. by rewrite Hb'. }
  destruct (parent_node_Ok (get_hash a) (get_hash b)) as (n & -> & Hn).
  { rewrite Hda, Hdb. apply digest_at_left. }
  eexists. split; [done|]. split; [|split; [by rewrite length_insert|]].
  - intros i Hi Hor. unfold hash_at. destruct (decide (i = k)) as [->|Hne].
    + rewrite list_lookup_insert_eq by lia. cbn [mbind option_bind]. rewrite Hn, Hda, Hdb.
      symmetry. apply digest_at_children; [lia|]. apply Nat.log2_lt_pow2; lia.
    + rewrite list_lookup_insert_ne by done. apply Hb; lia.
  - intros i Hne. by apply list_lookup_insert_ne.
Qed.

Lemma build_loop_Ok d l n : forall ns,
  (n = 0 \/ 2 * n < length ns)%nat -> (length ns <= 2 * 2 ^ d - 1)%nat -> built d l ns (2 * n + 1) ->
  exists ns', build_loop (reverse (map (fun k => 2 * k + 1)%nat (seq 0 n))) ns = Ok ns' /\
    built d l ns' 1 /\ length ns' = length ns /\ forall i, (n <= i)%nat -> ns' !! i = ns !! i.
Proof.
  induction n as [|n IH]; intros ns Hn Hlen Hb; [by exists ns|].
  rewrite seq_S, map_app, reverse_app. cbn [map reverse rev_append app plus].
  change (reverse [?x]) with [x]. cbn [app build_loop].
  destruct (build_step_Ok d l ns n) as (ns1 & -> & Hb1 & Hl1 & Hs1); [lia|done|by replace (2 * n + 3)%nat with (2 * S n + 1)%nat by lia|].
  cbn [mbind result_bind]. destruct (IH ns1) as (ns2 & -> & Hb2 & Hl2 & Hs2); [lia|lia|done|].
  exists ns2. split; [done|]. split; [done|]. split; [congruence|]. intros i Hi. rewrite Hs2, Hs1 by lia. done.
Qed.

Definition padded (n : nat) : nat := n + n mod 2.

Lemma padded_even n : exists k, padded n = (2 * k)%nat.
Proof.
  unfold padded. exists (n / 2 + n mod 2)%nat. pose proof (Nat.div_mod n 2 ltac:(lia)).
  pose proof (Nat.mod_upper_bound n 2 ltac:(lia)). lia.
Qed.

Lemma padded_height n : (padded n <= 2 ^ height n)%nat.
Proof.
  unfold height. fold (padded n). destruct (Nat.eq_0_gt_0_cases (padded n)) as [->|H]; [cbn; lia|].
  destruct (decide (padded n = 1%nat)) as [->|]; [cbn; lia|]. apply Nat.log2_up_spec. lia.
Qed.

Lemma height_bound n : (0 < n)%nat -> (2 ^ height n <= 2 * n + 2)%nat.
Proof.
  intros Hn. pose proof (Nat.mod_upper_bound n 2 ltac:(lia)). unfold height. destruct (padded_even n) as [k Hk]. unfold padded in Hk.
  destruct (Nat.log2_up_spec (n + n mod 2) ltac:(lia)) as [Hl _].
  destruct (Nat.log2_up (n + n mod 2)) as [|d]; [cbn; lia|]. cbn [Nat.pred] in Hl. rewrite Nat.pow_succ_r'. lia.
Qed.

(** ** The tree of the given leaves *)

(** The nodes the constructor is given for its leaves, with the empty one it adds. *)
Definition leaf_nodes (datas : list (list Z)) : list MerkleNode :=
  map node_from_bytes datas ++ replicate (length datas mod 2) EmptyNode.
Definition leaf_hashes (datas : list (list Z)) : list Digest32 := map (prefixed_hash LEAF_PREFIX) datas.

Lemma leaf_nodes_length datas : length (leaf_nodes datas) = padded (length datas).
Proof. unfold leaf_nodes. by rewrite length_app, length_map, length_replicate. Qed.

Lemma leaf_nodes_hash datas j : leaf_nodes datas !! j ≫= get_hash = leaf_hashes datas !! j.
Proof.
  unfold leaf_nodes, leaf_hashes. destruct (Nat.lt_ge_cases j (length datas)).
  - rewrite lookup_app_l by by rewrite length_map. rewrite !list_lookup_fmap. by destruct (datas !! j).
  - rewrite lookup_app_r by by rewrite length_map. rewrite (proj2 (lookup_ge_None (map _ datas) j)) by by rewrite length_map.
    destruct (replicate _ _ !! _) as [n|] eqn:E; [|done]. by apply lookup_replicate in E as [-> _].
Qed.

Lemma tree_new_nodes datas :
  tree_new (map node_from_bytes datas) =
    (ns ← build_nodes (replicate (2 ^ height (length datas) - 1) EmptyNode ++ leaf_nodes datas);
     Ok (mkTree ns (hash_index (leaf_nodes datas)) (length ns - padded (length datas)))).
Proof.
  unfold tree_new. rewrite length_map.
  assert ((if (length datas mod 2 =? 1)%nat then map node_from_bytes datas ++ [EmptyNode] else map node_from_bytes datas)
    = leaf_nodes datas) as ->; [|by rewrite leaf_nodes_length].
  unfold leaf_nodes. pose proof (Nat.mod_upper_bound (length datas) 2 ltac:(lia)).
  destruct (length datas mod 2)%nat as [|[|]]; cbn; [by rewrite app_nil_r|done|lia].
Qed.

Lemma hash_at_start d (ls : list MerkleNode) i :
  hash_at (replicate (2 ^ d - 1) EmptyNode ++ ls) i =
    if (2 ^ d <=? i + 1)%nat then ls !! (i + 1 - 2 ^ d)%nat ≫= get_hash else None.
Proof.
  pose proof (pow2_pos d). unfold hash_at. destruct (Nat.leb_spec (2 ^ d) (i + 1)).
  - rewrite lookup_app_r, length_replicate by (rewrite length_replicate; lia). do 2 f_equal. lia.
  - rewrite lookup_app_l, lookup_replicate_2 by (rewrite ?length_replicate; lia). done.
Qed.

Lemma built_start datas :
  let ns := replicate (2 ^ height (length datas) - 1) EmptyNode ++ leaf_nodes datas in
  built (height (length datas)) (leaf_hashes datas) ns (2 * (length ns / 2) + 1).
Proof.
  intros ns i Hi Hor. unfold ns. rewrite hash_at_start. set (d := height (length datas)) in *.
  pose proof (pow2_pos d) as Hpos.
  destruct (Nat.leb_spec (2 ^ d) (i + 1)) as [Hleaf|Hint].
  - rewrite leaf_nodes_hash, digest_at_leaf by lia. done.
  - destruct Hor as [?|Hc]; [lia|]. rewrite digest_at_children; [|lia|apply Nat.log2_lt_pow2; lia].
    assert (length ns = 2 ^ d - 1 + padded (length datas))%nat as Hlen
      by (unfold ns; by rewrite length_app, length_replicate, leaf_nodes_length).
    rewrite Hlen in Hc. pose proof (Nat.div_mod (2 ^ d - 1 + padded (length datas)) 2 ltac:(lia)).
    pose proof (Nat.mod_upper_bound (2 ^ d - 1 + padded (length datas)) 2 ltac:(lia)).
    assert (padded (length datas) = length (leaf_nodes datas)) as Hp by by rewrite leaf_nodes_length.
    destruct (padded_even (length datas)) as [k Hk].
    rewrite (digest_at_leaf d _ (2 * (i + 1))), (proj2 (lookup_ge_None _ _)); [done| |lia].
    unfold leaf_hashes. rewrite length_map. unfold padded in *. 
    destruct d as [|d']; [cbn in Hint; lia|]. rewrite Nat.pow_succ_r' in *.
    lia.
Qed.

Lemma odd_length datas :
  let len := length (replicate (2 ^ height (length datas) - 1) EmptyNode ++ leaf_nodes datas) in
  (len / 2 = 0 \/ 2 * (len / 2) < len)%nat.
Proof.
  cbv zeta. rewrite length_app, length_replicate, leaf_nodes_length.
  pose proof (padded_height (length datas)) as Hp. destruct (padded_even (length datas)) as [k Hk].
  set (d := height (length datas)) in *.
  set (len := (2 ^ d - 1 + padded (length datas))%nat).
  pose proof (Nat.div_mod len 2 ltac:(lia)). pose proof (Nat.mod_upper_bound len 2 ltac:(lia)).
  destruct d as [|d']; [cbn in *; left; unfold len; rewrite Hk; destruct k; [done|lia]|].
  pose proof (pow2_pos d').
  unfold len in *. rewrite Nat.pow_succ_r' in *. lia.
Qed.

Lemma tree_new_Ok datas :
  exists t, tree_new (map node_from_bytes datas) = Ok t /\
    internal_nodes t = (2 ^ height (length datas) - 1)%nat /\
    length (nodes t) = (2 ^ height (length datas) - 1 + padded (length datas))%nat /\
    (forall i, (i < 2 * 2 ^ height (length datas) - 1)%nat ->
       hash_at (nodes t) i = digest_at (height (length datas)) (leaf_hashes datas) (i + 1)) /\
    (forall j, nodes t !! (2 ^ height (length datas) - 1 + j)%nat = leaf_nodes datas !! j) /\
    elements_hash_index t = hash_index (leaf_nodes datas).
Proof.
  rewrite tree_new_nodes. set (d := height (length datas)).
  set (ns := replicate (2 ^ d - 1) EmptyNode ++ leaf_nodes datas).
  assert (length ns = 2 ^ d - 1 + padded (length datas))%nat as Hlen
    by (unfold ns; by rewrite length_app, length_replicate, leaf_nodes_length).
  pose proof (padded_height (length datas)) as Hp. fold d in Hp.
  pose proof (pow2_pos d) as Hpos.
  pose proof (Nat.div_mod (length ns) 2 ltac:(lia)).
  destruct (build_loop_Ok d (leaf_hashes datas) (length ns / 2) ns) as (ns' & E & Hb & Hl & Hs);
    [by apply odd_length|lia|apply built_start|].
  unfold build_nodes, odd_positions. rewrite E. cbn [mbind result_bind]. eexists. split; [done|].
  cbn [nodes internal_nodes elements_hash_index]. rewrite Hl, Hlen. split_and!; try done; [lia| |].
  - intros i Hi. apply Hb; [done|]. destruct (Nat.le_gt_cases (2 ^ d) (i + 1)); lia.
  - intros j. rewrite Hs by lia. unfold ns. rewrite lookup_app_r by (rewrite length_replicate; lia).
    rewrite length_replicate. f_equal. lia.
Qed.

(** ** Proofs of the leaves *)

(** An array that holds a reference tree. *)
Definition holds_tree (d : nat) (l : list Digest32) (ns : list MerkleNode) : Prop :=
  (forall i, (i < 2 * 2 ^ d - 1)%nat -> hash_at ns i = digest_at d l (i + 1)) /\
  (length ns <= 2 * 2 ^ d - 1)%nat /\ exists q, length ns = (2 * q + 1)%nat.

Lemma position_cases i : i = 0%nat \/ (exists k, i = 2 * k + 1)%nat \/ (exists k, i = 2 * k + 2)%nat.
Proof.
  destruct i as [|i]; [by left|right]. pose proof (Nat.div_mod i 2 ltac:(lia)).
  pose proof (Nat.mod_upper_bound i 2 ltac:(lia)).
  destruct (decide (i mod 2 = 0)%nat); [left; exists (i / 2)%nat; lia|right; exists (i / 2)%nat; lia].
Qed.

Lemma digest_parent d l ns k :
  holds_tree d l ns -> (2 * k + 2 < length ns)%nat ->
  hash_at ns k = pair_digest (hash_at ns (2 * k + 1)) (hash_at ns (2 * k + 2)) /\
  (hash_at ns (2 * k + 1) = None -> hash_at ns (2 * k + 2) = None).
Proof.
  intros (Ha & Hlen & _) Hk. rewrite !Ha by lia.
  replace (2 * k + 1 + 1)%nat with (2 * (k + 1))%nat by lia. replace (2 * k + 2 + 1)%nat with (2 * (k + 1) + 1)%nat by lia.
  split; [|apply digest_at_left]. apply digest_at_children; [lia|]. apply Nat.log2_lt_pow2; lia.
Qed.

Lemma level_step_left h o : pair_digest (Some h) o = Some (level_step h (mkLevel o Left)).
Proof. destruct o; cbn; by rewrite ?app_nil_r. Qed.

Lemma proof_levels_Ok d l ns : holds_tree d l ns -> forall fuel i h,
  (i <= fuel)%nat -> (i < length ns)%nat -> hash_at ns i = Some h ->
  exists ls, proof_levels fuel ns i = Ok (Some ls) /\ hash_at ns 0 = Some (fold_left level_step ls h).
Proof.
  intros Ht. pose proof Ht as (_ & _ & q & Hq). induction fuel as [|fuel IH]; intros i h Hi Hlen Hh.
  { exists []. replace i with 0%nat in * by lia. done. }
  destruct (position_cases i) as [->|[[k ->]|[k ->]]]; [by exists []| |];
    (assert (2 * k + 2 < length ns)%nat as Hk by lia); destruct (digest_parent d l ns k Ht Hk) as [Hp Hleft];
    [destruct (left_child k) as [Es Ep]; destruct (node_at_Ok ns (2 * k + 2)) as (n & En & Hn)
    |destruct (right_child k) as [Es Ep]; destruct (node_at_Ok ns (2 * k + 1)) as (n & En & Hn)]; try lia;
    cbn [proof_levels]; rewrite Es, Ep, En; cbn [mbind result_bind].
  - destruct (IH k (level_step h (mkLevel (get_hash n) Left))) as (ls & -> & Hls); [lia..| |].
    { rewrite Hp, Hh, level_step_left. unfold hash_at. by rewrite Hn. }
    destruct (Nat.eqb_spec (2 * k + 2) (2 * k + 1 + 1)); [|lia]. eexists. split; [done|]. by destruct (get_hash n).
  - destruct (hash_at ns (2 * k + 1)) as [h'|] eqn:E; [|by rewrite (Hleft eq_refl) in Hh].
    unfold hash_at in E. rewrite Hn in E. cbn in E. rewrite E.
    destruct (IH k (level_step h (mkLevel (Some h') Right))) as (ls & -> & Hls); [lia..| |].
    { by rewrite Hp, Hh. }
    destruct (Nat.eqb_spec (2 * k + 1) (2 * k + 2 + 1)); [lia|]. eexists. split; [done|]. done.
Qed.

(** What the constructor gives. *)
Lemma tree_new_holds datas :
  exists t, tree_new (map node_from_bytes datas) = Ok t /\
    (datas <> [] -> holds_tree (height (length datas)) (leaf_hashes datas) (nodes t)) /\
    root_hash t = default (replicate 32 0) (merkle_root datas) /\
    internal_nodes t = (2 ^ height (length datas) - 1)%nat /\
    (forall j, nodes t !! (internal_nodes t + j)%nat = leaf_nodes datas !! j) /\
    elements_hash_index t = hash_index (leaf_nodes datas).
Proof.
  destruct (tree_new_Ok datas) as (t & E & Hint & Hlen & Hh & Hl & Hx). exists t. rewrite Hint.
  pose proof (pow2_pos (height (length datas))). pose proof (padded_height (length datas)).
  split_and!; try done.
  - intros Hne. split; [done|]. rewrite Hlen. split; [lia|]. destruct (padded_even (length datas)) as [k Hk].
    assert (0 < padded (length datas))%nat by (unfold padded; destruct datas; [done|cbn; lia]).
    destruct (height (length datas)) as [|d]; [cbn in *; lia|]. rewrite Nat.pow_succ_r' in *.
    pose proof (pow2_pos d). exists (2 ^ d - 1 + k)%nat. lia.
  - unfold root_hash, merkle_root. rewrite !head_lookup. f_equal.
    pose proof (Hh 0%nat ltac:(lia)) as Hroot. unfold hash_at in Hroot. rewrite Hroot.
    unfold digest_at. cbn [Nat.log2 Nat.add]. by rewrite Nat.sub_0_r.
Qed.

(** ** The index of hashes *)

Lemma hash_index_lookup (l : list Digest32) (h : Digest32) : forall n (m : gmap Digest32 nat),
  (forall i, m !! h = Some i -> (i < n)%nat) ->
  let m' := foldl (fun m p => <[snd p := fst p]> m) m (enumerate_from n l) in
  match m' !! h with
  | Some i => m !! h = Some i \/ ((n <= i)%nat /\ l !! (i - n)%nat = Some h)
  | None => m !! h = None /\ h ∉ l
  end.
Proof.
  induction l as [|x l IH]; intros n m Hm; cbn [enumerate_from foldl].
  - cbn. destruct (m !! h); [by left|]. split; [done|]. apply not_elem_of_nil.
  - specialize (IH (S n) (<[x := n]> m)). cbn [fst snd] in *. cbv zeta in IH.
    destruct (decide (x = h)) as [->|Hne].
    + rewrite lookup_insert_eq in IH. destruct (foldl _ _ _ !! h) as [i|].
      * right. destruct IH as [[= <-]|[Hi Hl]]; [by intros ? [= <-]; lia| |].
        -- rewrite Nat.sub_diag. done.
        -- split; [lia|]. by replace (i - n)%nat with (S (i - S n)) by lia.
      * destruct IH as [? _]; [by intros ? [= <-]; lia|done].
    + rewrite lookup_insert_ne in IH by done. destruct (foldl _ _ _ !! h) as [i|].
      * destruct IH as [?|[Hi Hl]]; [intros i' Hi'; specialize (Hm i' Hi'); lia|by left|].
        right. split; [lia|]. by replace (i - n)%nat with (S (i - S n)) by lia.
      * destruct IH as [? Hn]; [intros i' Hi'; specialize (Hm i' Hi'); lia|]. split; [done|].
        apply not_elem_of_cons. by split.
Qed.

Lemma leaf_nodes_hashes datas : omap get_hash (leaf_nodes datas) = leaf_hashes datas.
Proof.
  unfold leaf_nodes, leaf_hashes. rewrite omap_app.
  assert (omap get_hash (map node_from_bytes datas) = map (prefixed_hash LEAF_PREFIX) datas) as ->
    by (induction datas as [|x l IH]; [done|cbn; by f_equal]).
  assert (forall n, omap get_hash (replicate n EmptyNode) = []) as -> by (intros n; by induction n).
  by rewrite app_nil_r.
Qed.

Lemma hash_index_leaf datas data :
  data ∈ datas -> exists i data', hash_index (leaf_nodes datas) !! prefixed_hash LEAF_PREFIX data = Some i /\
    datas !! i = Some data' /\ prefixed_hash LEAF_PREFIX data' = prefixed_hash LEAF_PREFIX data.
Proof.
  intros Hin. unfold hash_index. rewrite leaf_nodes_hashes. set (h := prefixed_hash LEAF_PREFIX data).
  pose proof (hash_index_lookup (leaf_hashes datas) h 0 ∅) as H. cbv zeta in H.
  destruct (foldl _ _ _ !! h) as [i|].
  - destruct H as [H|[_ H]]; [done|done|]. rewrite Nat.sub_0_r in H. unfold leaf_hashes in H.
    rewrite list_lookup_fmap in H. destruct (datas !! i) as [data'|] eqn:E; [|done]. injection H as H. by exists i, data'.
  - destruct H as [_ H]; [done|]. exfalso. apply H. by apply (list_elem_of_fmap_2 (prefixed_hash LEAF_PREFIX)).
Qed.

(** The positions of the nodes, where the leaves leave room for them. *)
Lemma leaf_position_Ok (datas : list (list Z)) i :
  Z.of_nat (length datas) <= 2 ^ 62 -> (i < length datas)%nat ->
  leaf_position i (2 ^ height (length datas) - 1) = Ok (i + (2 ^ height (length datas) - 1))%nat.
Proof.
  intros Hn Hi. unfold leaf_position. cbv zeta. pose proof (height_bound (length datas) ltac:(lia)) as Hh.
  destruct (Z.ltb_spec (Z.of_nat (i + (2 ^ height (length datas) - 1))) (2 ^ 64)); [done|]. lia.
Qed.

Lemma proof_by_index_Ok datas t i data :
  Z.of_nat (length datas) <= 2 ^ 62 -> tree_new (map node_from_bytes datas) = Ok t -> datas !! i = Some data ->
  exists p, proof_by_index t i = Ok (Some p) /\ leaf_data p = data /\ valid p (root_hash t) = true.
Proof.
  intros Hsize Ht Hi. destruct (tree_new_holds datas) as (t' & E & Hold & _ & Hint & Hl & _). rewrite Ht in E. injection E as <-.
  pose proof (leaf_position_Ok datas i Hsize (lookup_lt_Some _ _ _ Hi)) as Hposition. rewrite <- Hint in Hposition.
  specialize (Hold ltac:(by intros ->)). pose proof (Hl i) as Hnode. rewrite Nat.add_comm in Hnode.
  assert (leaf_nodes datas !! i = Some (node_from_bytes data)) as Hleaf.
  { unfold leaf_nodes. apply lookup_app_l_Some. by rewrite list_lookup_fmap, Hi. }
  rewrite Hleaf in Hnode. pose proof (lookup_lt_Some _ _ _ Hnode).
  destruct (proof_levels_Ok _ _ _ Hold (i + internal_nodes t) (i + internal_nodes t) (prefixed_hash LEAF_PREFIX data))
    as (ls & Els & Hroot); [done|done|unfold hash_at; by rewrite Hnode|].
  exists (mkProof data ls). unfold proof_by_index, build_proof. rewrite Hposition. cbn [mbind result_bind]. rewrite Hnode. cbn [node_from_bytes]. rewrite Els.
  split; [done|]. split; [done|]. unfold valid. apply bool_decide_eq_true. cbn [levels leaf_data].
  unfold root_hash. unfold hash_at in Hroot. rewrite <- head_lookup in Hroot. by rewrite Hroot.
Qed.

(** C24: the tree of any list of leaves is built without a panic; its root is the one of the reference, the
    digests paired level by level; of up to 2^62 leaves every leaf, by its index or by its data, has a proof that the
    root accepts, and an index past the leaves has none (or panics, where its sum with the number of internal nodes
    overflows). *)
Theorem merkle_tree_correct (datas : list (list Z)) :
  exists t, tree_new (map node_from_bytes datas) = Ok t /\
    root_hash t = default (replicate 32 0) (merkle_root datas) /\
    (Z.of_nat (length datas) <= 2 ^ 62 -> forall i, match datas !! i with
     | Some data =>
         (exists p, proof_by_index t i = Ok (Some p) /\ leaf_data p = data /\ valid p (root_hash t) = true) /\
         (exists p, proof_by_element t data = Ok (Some p) /\ valid p (root_hash t) = true)
     | None => proof_by_index t i = if Z.of_nat (i + internal_nodes t) <? 2 ^ 64 then Ok None else Err Panicked
     end).
Proof.
  destruct (tree_new_holds datas) as (t & E & _ & Hr & _ & Hl & Hx). exists t. split; [done|]. split; [done|].
  intros Hsize i. destruct (datas !! i) as [data|] eqn:Hi.
  - split; [by apply (proof_by_index_Ok datas)|]. unfold proof_by_element, proof_by_element_hash. rewrite Hx.
    destruct (hash_index_leaf datas data) as (j & data' & -> & Hj & _); [by eapply list_elem_of_lookup_2|].
    destruct (proof_by_index_Ok datas t j data' Hsize E Hj) as (p & Hp & _ & Hv). by exists p.
  - unfold proof_by_index, build_proof, leaf_position. cbv zeta.
    destruct (_ <? _); cbn [mbind result_bind]; [|done]. rewrite Nat.add_comm, Hl.
    destruct (leaf_nodes datas !! i) as [n|] eqn:En; [|done]. unfold leaf_nodes in En.
    apply lookup_app_Some in En as [En|[_ En]].
    + rewrite list_lookup_fmap, Hi in En. done.
    + by apply lookup_replicate in En as [-> _].
Qed.
End merkle.

(** * What an accepted proof binds *)

Section binding.
Context (blake2b256_hash : list Z -> list Z).
Context (Hlen : forall bytes, length (blake2b256_hash bytes) = HASH_SIZE).

Abbreviation up := (up blake2b256_hash).
Abbreviation level := (level blake2b256_hash).
Abbreviation leaf_hashes := (leaf_hashes blake2b256_hash).
Abbreviation level_step := (level_step blake2b256_hash).

(** The strings hashed to build a level, a tree, and to check a proof. *)
Fixpoint up_strings (l : list Digest32) : list (list Z) :=
  match l with
  | a :: b :: l => (INTERNAL_PREFIX :: a ++ b) :: up_strings l
  | [a] => [INTERNAL_PREFIX :: a]
  | [] => []
  end.

Definition tree_strings (datas : list (list Z)) : list (list Z) :=
  map (cons LEAF_PREFIX) datas ++
  concat (map (fun k => up_strings (level k (leaf_hashes datas))) (seq 0 (height (length datas)))).

Definition level_string (prev_hash : Digest32) (node : LevelNode) : list Z :=
  match level_hash node, side node with
  | Some hash, Left => INTERNAL_PREFIX :: prev_hash ++ hash
  | Some hash, Right => INTERNAL_PREFIX :: hash ++ prev_hash
  | None, _ => INTERNAL_PREFIX :: prev_hash
  end.

Fixpoint level_strings (prev_hash : Digest32) (ls : list LevelNode) : list (list Z) :=
  match ls with
  | [] => []
  | n :: ls => level_string prev_hash n :: level_strings (level_step prev_hash n) ls
  end.

Definition proof_strings (p : MerkleProof) : list (list Z) :=
  (LEAF_PREFIX :: leaf_data p) :: level_strings (prefixed_hash blake2b256_hash 0 (leaf_data p)) (levels p).

(** Two different strings with one hash, one of the tree's and one of the proof's. *)
Definition collision (datas : list (list Z)) (p : MerkleProof) : Prop :=
  exists x y, x ∈ tree_strings datas /\ y ∈ proof_strings p /\ x <> y /\ blake2b256_hash x = blake2b256_hash y.

(** The index of a leaf, its bits the sides of a proof's levels. *)
Fixpoint leaf_index (ls : list LevelNode) : nat :=
  match ls with
  | [] => 0
  | n :: ls => (match level_hash n, side n with Some _, Right => 1 | _, _ => 0 end) + 2 * leaf_index ls
  end.

(** The type of a level's hash, an array of 32 bytes. *)
Definition levels_wf (ls : list LevelNode) : Prop :=
  Forall (fun n => forall h, level_hash n = Some h -> length h = HASH_SIZE) ls.

Lemma level_step_hash prev n : level_step prev n = blake2b256_hash (level_string prev n).
Proof. by destruct n as [[h|] []]. Qed.

Lemma level_strings_app ls n : forall prev,
  level_strings prev (ls ++ [n]) = level_strings prev ls ++ [level_string (fold_left level_step ls prev) n].
Proof. induction ls as [|m ls IH]; intros prev; [done|]. cbn. by rewrite IH. Qed.

Lemma level_strings_prefix x ls r : forall prev, x ∈ level_strings prev ls -> x ∈ level_strings prev (ls ++ r).
Proof.
  induction ls as [|y ls IH]; cbn; intros prev Hx; [by apply not_elem_of_nil in Hx|].
  apply elem_of_cons in Hx as [->|Hx]; apply elem_of_cons; [by left|right]. by apply IH.
Qed.

Lemma leaf_index_app ls n :
  leaf_index (ls ++ [n]) = (leaf_index ls + 2 ^ length ls * leaf_index [n])%nat.
Proof.
  induction ls as [|m ls IH]; [cbn; lia|]. cbn [app leaf_index length]. rewrite IH, Nat.pow_succ_r'.
  cbn [leaf_index]. lia.
Qed.

Lemma up_string_lookup l : forall j,
  up_strings l !! j = (fun a => INTERNAL_PREFIX :: a ++ default [] (l !! (2 * j + 1)%nat)) <$> l !! (2 * j)%nat.
Proof.
  induction l as [|a|a b l IH] using list_two_ind; intros j; [by rewrite !lookup_nil| |];
    (destruct j as [|j]; [cbn; by rewrite ?app_nil_r|]); replace (2 * S j)%nat with (S (S (2 * j))) by lia;
    [done|apply IH].
Qed.

Lemma level_digest_len k l h : Forall (fun d => length d = HASH_SIZE) l -> h ∈ level k l -> length h = HASH_SIZE.
Proof.
  intros Hl Hh. destruct k as [|k]; [by eapply Forall_forall in Hl|].
  change (level (S k) l) with (up (level k l)) in Hh. clear Hl. revert Hh. generalize (level k l). intros m.
  induction m as [|a|a b m IH] using list_two_ind; cbn [Merkle.up]; rewrite ?elem_of_cons, ?elem_of_nil; naive_solver.
Qed.

Lemma leaf_hashes_len datas : Forall (fun d => length d = HASH_SIZE) (leaf_hashes datas).
Proof. apply Forall_map, Forall_forall. intros x _. apply Hlen. Qed.

(** The strings that are hashed to a node of the tree. *)
Lemma node_string datas k j h :
  (k <= height (length datas))%nat -> level k (leaf_hashes datas) !! j = Some h ->
  exists x, x ∈ tree_strings datas /\ h = blake2b256_hash x /\
    match k with
    | O => exists data, datas !! j = Some data /\ x = LEAF_PREFIX :: data
    | S k => exists a, level k (leaf_hashes datas) !! (2 * j)%nat = Some a /\
        x = INTERNAL_PREFIX :: a ++ default [] (level k (leaf_hashes datas) !! (2 * j + 1)%nat)
    end.
Proof.
  intros Hk Hh. destruct k as [|k].
  - cbn in Hh. unfold Merkle.leaf_hashes in Hh. rewrite list_lookup_fmap in Hh.
    destruct (datas !! j) as [data|] eqn:E; [|done]. injection Hh as <-.
    exists (LEAF_PREFIX :: data). split; [|split; [done|by exists data]]. apply elem_of_app. left.
    apply (list_elem_of_fmap_2 (cons LEAF_PREFIX)). by eapply list_elem_of_lookup_2.
  - change (level (S k) ?l) with (up (level k l)) in Hh. rewrite up_lookup in Hh.
    destruct (level k (leaf_hashes datas) !! (2 * j)%nat) as [a|] eqn:E; [|done]. injection Hh as <-.
    eexists. split; [|split; [done|by exists a]]. apply elem_of_app. right.
    apply list_elem_of_In, in_concat. eexists. split.
    + apply in_map_iff. exists k. split; [done|]. apply in_seq. lia.
    + apply list_elem_of_In, (list_elem_of_lookup_2 _ j). rewrite up_string_lookup. by rewrite E.
Qed.

Lemma same_string datas p x y :
  x ∈ tree_strings datas -> y ∈ proof_strings p -> blake2b256_hash x = blake2b256_hash y -> x = y \/ collision datas p.
Proof. intros. destruct (decide (x = y)); [by left|right]. by exists x, y. Qed.

(** A proof's string that is one of the tree's has the digest so far at the side it says. *)
Lemma level_string_inv prev n a o :
  length prev = HASH_SIZE -> length a = HASH_SIZE -> (forall b, o = Some b -> length b = HASH_SIZE) ->
  (forall h, level_hash n = Some h -> length h = HASH_SIZE) ->
  level_string prev n = INTERNAL_PREFIX :: a ++ default [] o ->
  (leaf_index [n] = 0%nat /\ prev = a) \/ (leaf_index [n] = 1%nat /\ o = Some prev).
Proof.
  intros Hlp Hla Hlo Hln Hs. destruct n as [[h|] []]; unfold level_string in Hs; cbn [level_hash side leaf_index] in *;
    injection Hs as Hs; pose proof (f_equal length Hs) as Hl; try rewrite !length_app in Hl;
    try specialize (Hln _ eq_refl); destruct o as [b|]; try specialize (Hlo _ eq_refl);
    cbn [default from_option length] in *; unfold HASH_SIZE, id in *; try lia.
  - apply app_inj_1 in Hs as [-> _]; [by left|congruence].
  - apply app_inj_1 in Hs as [_ ->]; [by right|congruence].
  - rewrite app_nil_r in Hs. by left.
  - rewrite app_nil_r in Hs. by left.
Qed.

(** Down from a node of the tree that a prefix of the levels hashes to. *)
Lemma descend datas p : forall ls rest k j,
  levels p = ls ++ rest -> levels_wf (levels p) -> (k <= height (length datas))%nat ->
  level k (leaf_hashes datas) !! j = Some (fold_left level_step ls (prefixed_hash blake2b256_hash 0 (leaf_data p))) ->
  (k = length ls /\ datas !! (leaf_index ls + 2 ^ k * j)%nat = Some (leaf_data p)) \/ collision datas p.
Proof.
  induction ls as [|n ls IH] using rev_ind; intros rest k j Hp Hwf Hk Hh.
  - destruct (node_string datas k j _ Hk Hh) as (x & Hx & E & Hs).
    destruct (same_string datas p x (LEAF_PREFIX :: leaf_data p)) as [->|Hc]; [done|by left|done| |by right].
    left. destruct k as [|k]; [|by destruct Hs as (a & _ & ?)]. destruct Hs as (data & Hd & [= <-]).
    split; [done|]. cbn [leaf_index Nat.pow]. by rewrite Nat.mul_1_l.
  - rewrite fold_left_app in Hh. cbn [fold_left] in Hh. rewrite level_step_hash in Hh.
    set (prev := fold_left level_step ls _) in *.
    destruct (node_string datas k j _ Hk Hh) as (x & Hx & E & Hs).
    assert (level_string prev n ∈ proof_strings p) as Hy.
    { unfold proof_strings. rewrite Hp. apply elem_of_cons. right. apply level_strings_prefix.
      rewrite level_strings_app. apply elem_of_app. right. by apply list_elem_of_singleton. }
    destruct (same_string datas p x _ Hx Hy (eq_sym E)) as [->|Hc]; [|by right].
    destruct k as [|k]; [destruct Hs as (data & _ & Hs); by destruct n as [[h|] []]|].
    destruct Hs as (a & Ha & Hs). set (o := level k (leaf_hashes datas) !! (2 * j + 1)%nat) in *.
    assert (length a = HASH_SIZE) as Hla by (eapply level_digest_len; [apply leaf_hashes_len|by eapply list_elem_of_lookup_2]).
    assert (length prev = HASH_SIZE) as Hlp.
    { unfold prev. destruct ls as [|m ls] using rev_ind; [apply Hlen|]. rewrite fold_left_app. cbn. rewrite level_step_hash. apply Hlen. }
    assert (forall b, o = Some b -> length b = HASH_SIZE) as Hlo
      by (intros b Hb; eapply level_digest_len; [apply leaf_hashes_len|by eapply list_elem_of_lookup_2]).
    assert (forall h, level_hash n = Some h -> length h = HASH_SIZE) as Hln.
    { rewrite Hp in Hwf. apply Forall_app in Hwf as [Hwf _]. apply Forall_app in Hwf as [_ Hwf].
      apply Forall_cons in Hwf as [Hwf _]. exact Hwf. }
    assert (level k (leaf_hashes datas) !! (2 * j + leaf_index [n])%nat = Some prev) as Hprev.
    { destruct (level_string_inv prev n a o Hlp Hla Hlo Hln Hs) as [[-> ->]|[-> Ho]]; [by rewrite Nat.add_0_r|exact Ho]. }
    destruct (IH ([n] ++ rest) k _ ltac:(by rewrite Hp, <- app_assoc) Hwf ltac:(lia) Hprev) as [[-> Hd]|Hc]; [left|by right].
    rewrite length_app. cbn [length]. split; [lia|]. rewrite <- Hd, leaf_index_app, Nat.pow_succ_r'. f_equal. lia.
Qed.

(** C25: a proof that the root of a tree with leaves accepts is a proof of one of its leaves: it has as many levels
    as the tree, and its data is the leaf at the position its sides spell, unless checking it hashed
    a string that collides with one of those hashed to build the tree. *)
Theorem merkle_proof_binds (datas : list (list Z)) (t : MerkleTree) (p : MerkleProof) :
  tree_new blake2b256_hash (map (node_from_bytes blake2b256_hash) datas) = Ok t -> datas <> [] -> levels_wf (levels p) ->
  valid blake2b256_hash p (root_hash t) = true ->
  (length (levels p) = height (length datas) /\ datas !! leaf_index (levels p) = Some (leaf_data p)) \/
  collision datas p.
Proof.
  intros Ht Hne Hwf Hv. destruct (tree_new_holds blake2b256_hash datas) as (t' & E & _ & Hr & _).
  rewrite Ht in E. injection E as <-. unfold valid in Hv. apply bool_decide_eq_true in Hv. rewrite Hr in Hv.
  destruct (merkle_root blake2b256_hash datas) as [r|] eqn:Er.
  - unfold merkle_root in Er. rewrite head_lookup in Er. cbn [default from_option id] in Hv. rewrite <- Hv in Er.
    destruct (descend datas p (levels p) [] (height (length datas)) 0) as [[Hk Hd]|Hc];
      [by rewrite app_nil_r|done|done|exact Er|left|by right].
    split; [done|]. by rewrite Nat.mul_0_r, Nat.add_0_r in Hd.
  - exfalso. unfold merkle_root in Er. rewrite head_lookup in Er. apply lookup_ge_None in Er.
    assert (forall k (l : list Digest32), l <> [] -> level k l <> []) as Hk.
    { intros k. induction k as [|k IH]; intros l Hl; [done|]. change (level (S k) l) with (up (level k l)).
      specialize (IH l Hl). by destruct (level k l) as [|? []]. }
    specialize (Hk (height (length datas)) (leaf_hashes datas)). apply Hk; [by destruct datas|].
    apply nil_length_inv. unfold Merkle.leaf_hashes. lia.
Qed.
End binding.

(** * Concrete inputs *)

Definition sample_leaves : list (list Z) := [[1; 2]; [3]; [4; 5; 6]].

Definition sample_tree : MerkleTree :=
  match tree_new toy_hash (map (node_from_bytes toy_hash) sample_leaves) with
  | Ok t => t
  | Err _ => mkTree [] ∅ 0
  end.

Definition sample_proof : MerkleProof :=
  match proof_by_index sample_tree 2 with Ok (Some p) => p | _ => mkProof [] [] end.

Lemma merkle_proof_binds_witness :
  valid toy_hash sample_proof (root_hash sample_tree) = true /\
  ((length (levels sample_proof) = 2%nat /\ sample_leaves !! leaf_index (levels sample_proof) = Some [4; 5; 6]) \/
   collision toy_hash sample_leaves sample_proof).
Proof.
  assert (valid toy_hash sample_proof (root_hash sample_tree) = true) as Hv by (vm_compute; reflexivity).
  split; [exact Hv|].
  apply (merkle_proof_binds toy_hash (fun bytes => length_be_bytes 32 _) sample_leaves sample_tree sample_proof).
  - vm_compute. reflexivity.
  - discriminate.
  - vm_compute. repeat constructor; intros h [= <-]; reflexivity.
  - exact Hv.
Defined.

Lemma merkle_tree_correct_witness :
  exists t, tree_new toy_hash (map (node_from_bytes toy_hash) sample_leaves) = Ok t /\
    root_hash t = default (replicate 32 0) (merkle_root toy_hash sample_leaves) /\
    (exists p, proof_by_index t 1 = Ok (Some p) /\ leaf_data p = [3] /\ valid toy_hash p (root_hash t) = true) /\
    proof_by_index t 5 = if Z.of_nat (5 + internal_nodes t) <? 2 ^ 64 then Ok None else Err Panicked.
Proof.
  destruct (merkle_tree_correct toy_hash sample_leaves) as (t & E & Hr & Hi).
  assert (Z.of_nat (length sample_leaves) <= 2 ^ 62) as Hn by (apply Z.leb_le; vm_compute; reflexivity).
  exists t. split; [exact E|]. split; [exact Hr|].
  split; [exact (proj1 (Hi Hn 1%nat))|exact (Hi Hn 5%nat)].
Defined.
