(* ===== verification/MerkleBatch.v ===== *)
(** Proofs of several leaves at once (src/ergo-merkle-tree/src/batchmerkleproof.rs and
    [proof_by_indices] of merkletree.rs): making them, checking them, and their byte format. A
    [BTreeSet] of positions is a sorted list. *)

From S2P Require Import Prelude ConcreteCrypto Vlq Merkle.
From Stdlib Require Import ZifyNat.
From stdpp Require Import gmap sorting.
#[local] Open Scope Z_scope.

(** * Sorted lists *)

Section sorted.
Context {A : Type} (key : A -> nat).

(** A stable sort by a key. *)
Fixpoint insert_by (x : A) (l : list A) : list A :=
  match l with
  | [] => [x]
  | y :: l => if (key x <=? key y)%nat then x :: y :: l else y :: insert_by x l
  end.
Definition sort_by_key (l : list A) : list A := foldr insert_by [] l.
End sorted.

(** [Vec::dedup]: equal neighbours once. *)
Fixpoint dedup (l : list nat) : list nat :=
  match l with
  | x :: l' => match l' with
               | y :: _ => if (x =? y)%nat then dedup l' else x :: dedup l'
               | [] => [x]
               end
  | [] => []
  end.

(** [BTreeSet::insert] and the collection of an iterator into a set. *)
Fixpoint set_insert (x : nat) (l : list nat) : list nat :=
  match l with
  | [] => [x]
  | y :: l' => if (x <? y)%nat then x :: l else if (x =? y)%nat then l else y :: set_insert x l'
  end.
Definition set_of (l : list nat) : list nat := fold_left (fun s x => set_insert x s) l [].

Section batch.
Context (blake2b256_hash : list Z -> list Z).

Record BatchMerkleProofIndex : Type := mkIndex { bi_index : nat; bi_hash : Digest32 }.
Record BatchMerkleProof : Type := mkBatch { indices : list BatchMerkleProofIndex; proofs : list LevelNode }.

(** * Making a proof *)

(** [b_pruned]: every position and its sibling; [None] where there is no sibling. *)
Fixpoint with_siblings (a b_pruned : list nat) : option (list nat) :=
  match a with
  | [] => Some b_pruned
  | node :: a =>
      sibling ← get_sibling node;
      with_siblings a (set_insert sibling (set_insert node b_pruned))
  end.

(** The entry of a position that is in the proof. *)
Definition multiproof_node (ns : list MerkleNode) (node : nat) : result panic LevelNode :=
  sibling ← unwrap (get_sibling node);
  let side := if (sibling =? node - 1)%nat then Right else Left in
  n ← node_at ns node;
  Ok (match get_hash n with Some hash => level_new hash side | None => empty_node side end).

(** The loop up to the root. *)
Fixpoint multiproof_loop (fuel : nat) (ns : list MerkleNode) (a : list nat) (multiproof : list LevelNode) :
    result panic (option (list LevelNode)) :=
  if bool_decide (0%nat ∈ a) then Ok (Some multiproof)
  else
    match fuel with
    | O => Err OutOfFuel
    | S fuel =>
        match with_siblings a [] with
        | None => Ok None
        | Some b_pruned =>
            let diff := filter (fun x => x ∉ a) b_pruned in
            levels ← mapM_res (multiproof_node ns) diff;
            multiproof_loop fuel ns (set_of (omap get_parent b_pruned)) (multiproof ++ levels)
        end
    end.

Definition index_entry (ns : list MerkleNode) (internal_nodes idx : nat) : result panic (option BatchMerkleProofIndex) :=
  n ← node_at ns (idx + internal_nodes);
  Ok (option_map (mkIndex idx) (get_hash n)).

Definition build_multiproof (ns : list MerkleNode) (leaf_indices : list nat) (internal_nodes : nat) :
    result panic (option BatchMerkleProof) :=
  let a := set_of (map (fun idx => idx + internal_nodes)%nat leaf_indices) in
  multiproof ← multiproof_loop (S (max_list a)) ns a [];
  match multiproof with
  | None => Ok None
  | Some multiproof =>
      entries ← mapM_res (index_entry ns internal_nodes) leaf_indices;
      Ok (Some (mkBatch (omap id entries) multiproof))
  end.

(** Is one of the positions not that of a leaf? The first that is not ends the search. *)
Fixpoint any_missing (t : MerkleTree) (leaf_indices : list nat) : result panic bool :=
  match leaf_indices with
  | [] => Ok false
  | i :: leaf_indices =>
      position ← leaf_position i (internal_nodes t);
      if bool_decide (is_Some (nodes t !! position ≫= get_leaf_data)) then any_missing t leaf_indices else Ok true
  end.

Definition proof_by_indices (t : MerkleTree) (leaf_indices : list nat) : result panic (option BatchMerkleProof) :=
  let leaf_indices := dedup (sort_by_key id leaf_indices) in
  missing ← (if bool_decide (leaf_indices = []) then Ok true else any_missing t leaf_indices);
  if (missing : bool) then Ok None else build_multiproof (nodes t) leaf_indices (internal_nodes t).

(** * Checking a proof *)

(** A position with its neighbour, the left one first. *)
Definition pair_of (i : nat) : nat * nat := if (i mod 2 =? 0)%nat then (i, i + 1)%nat else (i - 1, i)%nat.

(** The hash of a node and the proof's [head]. *)
Definition head_hash (hash : Digest32) (head : LevelNode) : Digest32 :=
  match side head with
  | Left => prefixed_hash2 blake2b256_hash INTERNAL_PREFIX (level_hash head) (Some hash)
  | Right => prefixed_hash2 blake2b256_hash INTERNAL_PREFIX (Some hash) (level_hash head)
  end.

(** The loop over [b] and [e], which takes from [m] what is missing: the new hashes and the rest of
    [m], or [None] when [m] has too few. *)
Fixpoint pair_up (many : bool) (b : list (nat * nat)) (e : list Digest32) (m : list LevelNode) :
    option (list Digest32 * list LevelNode) :=
  match b, e with
  | b0 :: bs, e0 :: es =>
      match bs, es with
      | b1 :: bs', e1 :: es' =>
          if many && bool_decide (b0 = b1) then
            '(e_new, m) ← pair_up many bs' es' m;
            Some (prefixed_hash2 blake2b256_hash INTERNAL_PREFIX (Some e0) (Some e1) :: e_new, m)
          else
            match m with
            | head :: m => '(e_new, m) ← pair_up many bs es m; Some (head_hash e0 head :: e_new, m)
            | [] => None
            end
      | _, _ =>
          match m with
          | head :: m => '(e_new, m) ← pair_up many bs es m; Some (head_hash e0 head :: e_new, m)
          | [] => None
          end
      end
  | _, _ => Some ([], m)
  end.

Fixpoint validate (fuel : nat) (a : list nat) (e : list BatchMerkleProofIndex) (m : list LevelNode) :
    result panic (option (list Digest32)) :=
  match fuel with
  | O => Err OutOfFuel
  | S fuel =>
      let b := map pair_of a in
      if negb (length e =? length b)%nat then Ok None
      else
        match pair_up (1 <? length b)%nat b (map bi_hash e) m with
        | None => Ok None
        | Some (e_new, m_new) =>
            let a_new := dedup (sort_by_key id (map (fun p => p.2 / 2)%nat b)) in
            if (negb (bool_decide (length m_new = 0%nat)) || (1 <? length e_new)%nat) && negb (bool_decide (a_new = [])) then
              validate fuel a_new (zip_with mkIndex a_new e_new) m_new
            else Ok (Some e_new)
        end
  end.

Definition batch_valid (p : BatchMerkleProof) (expected_root : list Z) : result panic bool :=
  let e := sort_by_key bi_index (indices p) in
  r ← validate (S (length e + length (proofs p))) (map bi_index e) e (proofs p);
  Ok (match r with Some [root_hash] => bool_decide (root_hash = expected_root) | _ => false end).
End batch.

(** * Sorted lists without repetition *)

Definition ascending (l : list nat) : Prop := StronglySorted lt l.

Lemma ascending_unique l1 l2 : ascending l1 -> ascending l2 -> (forall x, x ∈ l1 <-> x ∈ l2) -> l1 = l2.
Proof.
  intros H1. revert l2. induction H1 as [|x l1 H1 IH Hx]; intros l2 H2 E.
  - destruct l2 as [|y l2]; [done|]. destruct (not_elem_of_nil y). apply E. by left.
  - destruct H2 as [|y l2 H2 Hy]; [destruct (not_elem_of_nil x); apply E; by left|].
    rewrite Forall_forall in Hx, Hy. assert (x = y) as <-.
    { pose proof (proj1 (E x) ltac:(by left)) as Hxy. pose proof (proj2 (E y) ltac:(by left)) as Hyx.
      apply elem_of_cons in Hxy as [->|Hxy]; [done|]. apply elem_of_cons in Hyx as [->|Hyx]; [done|].
      specialize (Hy _ Hxy). specialize (Hx _ Hyx). lia. }
    f_equal. apply IH; [done|]. intros z. split; intros Hz.
    + specialize (Hx _ Hz). pose proof (proj1 (E z) ltac:(by right)) as H. apply elem_of_cons in H as [->|H]; [lia|done].
    + specialize (Hy _ Hz). pose proof (proj2 (E z) ltac:(by right)) as H. apply elem_of_cons in H as [->|H]; [lia|done].
Qed.

Lemma elem_of_set_insert x l y : y ∈ set_insert x l <-> y = x \/ y ∈ l.
Proof.
  induction l as [|z l IH]; cbn [set_insert]; [set_solver|].
  destruct (Nat.ltb_spec x z); [set_solver|]. destruct (Nat.eqb_spec x z) as [->|]; set_solver.
Qed.

Lemma set_insert_ascending x l : ascending l -> ascending (set_insert x l).
Proof.
  unfold ascending. induction 1 as [|y l Hl IH Hy]; cbn [set_insert]; [by repeat constructor|].
  destruct (Nat.ltb_spec x y); [|destruct (Nat.eqb_spec x y); [by constructor|]].
  - constructor; [by constructor|]. constructor; [done|]. eapply Forall_impl; [exact Hy|]. cbn. lia.
  - constructor; [done|]. apply Forall_forall. intros z [->|Hz]%elem_of_set_insert; [lia|].
    by eapply Forall_forall in Hz; [|exact Hy].
Qed.

Lemma set_of_spec l : ascending (set_of l) /\ forall x, x ∈ set_of l <-> x ∈ l.
Proof.
  unfold set_of. enough (forall s, ascending s ->
    ascending (fold_left (fun s x => set_insert x s) l s) /\
    forall x, x ∈ fold_left (fun s x => set_insert x s) l s <-> x ∈ s \/ x ∈ l) as H.
  { destruct (H []) as [H1 H2]; [constructor|]. split; [done|]. intros x. rewrite H2. set_solver. }
  induction l as [|y l IH]; intros s Hs; cbn [fold_left]; [set_solver|].
  destruct (IH (set_insert y s)) as [H1 H2]; [by apply set_insert_ascending|]. split; [done|].
  intros x. rewrite H2, elem_of_set_insert. set_solver.
Qed.

Lemma set_of_ascending l : ascending l -> set_of l = l.
Proof. intros Hl. destruct (set_of_spec l) as [H1 H2]. by apply ascending_unique. Qed.

(** A sort leaves a sorted list as it is. *)
Lemma sort_by_key_sorted {A} (key : A -> nat) l :
  StronglySorted (fun x y => key x <= key y)%nat l -> sort_by_key key l = l.
Proof.
  induction 1 as [|x l Hl IH Hx]; [done|]. unfold sort_by_key in *. cbn [foldr]. rewrite IH.
  destruct Hx as [|y l Hy _]; [done|]. cbn [insert_by]. by destruct (Nat.leb_spec (key x) (key y)); [|lia].
Qed.

Lemma elem_of_insert_by {A} (key : A -> nat) x l y : y ∈ insert_by key x l <-> y = x \/ y ∈ l.
Proof. induction l as [|z l IH]; cbn [insert_by]; [set_solver|]. destruct (_ <=? _)%nat; set_solver. Qed.

Lemma sort_by_key_spec {A} (key : A -> nat) l :
  StronglySorted (fun x y => key x <= key y)%nat (sort_by_key key l) /\ forall x, x ∈ sort_by_key key l <-> x ∈ l.
Proof.
  unfold sort_by_key. induction l as [|x l [IH1 IH2]]; cbn [foldr]; [split; [constructor|done]|].
  split; [|intros y; rewrite elem_of_insert_by, IH2; set_solver].
  clear IH2. induction IH1 as [|y k Hk IH Hy]; cbn [insert_by]; [by repeat constructor|].
  destruct (Nat.leb_spec (key x) (key y)).
  - constructor; [by constructor|]. constructor; [done|]. eapply Forall_impl; [exact Hy|]. cbn. lia.
  - constructor; [done|]. apply Forall_forall. intros z [->|Hz]%elem_of_insert_by; [lia|].
    by eapply Forall_forall in Hz; [|exact Hy].
Qed.

Lemma dedup_spec l : StronglySorted le l -> ascending (dedup l) /\ forall x, x ∈ dedup l <-> x ∈ l.
Proof.
  unfold ascending. induction 1 as [|x l Hl [IH1 IH2] Hx]; [split; [constructor|done]|]. cbn [dedup].
  destruct l as [|y l]; [split; [by repeat constructor|done]|].
  destruct (Nat.eqb_spec x y) as [->|Hne].
  - split; [done|]. intros z. rewrite IH2. set_solver.
  - split; [|intros z; rewrite !(elem_of_cons _ z x), IH2; done]. constructor; [done|]. apply Forall_forall.
    intros z Hz%IH2. inversion Hl as [|?? _ Hyl]; subst. inversion Hx as [|?? Hxy _]; subst.
    apply elem_of_cons in Hz as [->|Hz]; [lia|]. eapply Forall_forall in Hz; [|exact Hyl]. cbn in Hz. lia.
Qed.

Lemma ascending_le l : ascending l -> StronglySorted le l.
Proof. induction 1; constructor; [done|]. eapply Forall_impl; [eassumption|]. cbn. lia. Qed.

Lemma sort_dedup_spec l :
  ascending (dedup (sort_by_key id l)) /\ forall x, x ∈ dedup (sort_by_key id l) <-> x ∈ l.
Proof.
  destruct (sort_by_key_spec id l) as [H1 H2]. destruct (dedup_spec (sort_by_key id l)) as [H3 H4].
  - exact H1.
  - split; [done|]. intros x. by rewrite H4, H2.
Qed.

Lemma ascending_app l k :
  ascending l -> ascending k -> (forall x y, x ∈ l -> y ∈ k -> x < y)%nat -> ascending (l ++ k).
Proof.
  unfold ascending. induction 1 as [|x l Hl IH Hx]; intros Hk H; [done|]. cbn. constructor.
  - apply IH; [done|]. intros a b Ha. apply H. by right.
  - apply Forall_app. split; [done|]. apply Forall_forall. intros b Hb. apply H; [by left|done].
Qed.

Lemma ascending_map f l :
  ascending l -> (forall x y, x < y -> f x < f y)%nat -> ascending (map f l).
Proof.
  intros Hl Hf. unfold ascending in *. induction Hl as [|x l Hl IH Hx]; cbn; constructor; [done|].
  apply Forall_map. eapply Forall_impl; [exact Hx|]. intros y. apply Hf.
Qed.

(** * One level of a proof *)

(** The neighbour of a position in its level, the parents of a level's positions and what has to be
    known beside their digests. *)
Definition neighbour (j : nat) : nat := if (j mod 2 =? 0)%nat then (j + 1)%nat else (j - 1)%nat.
Fixpoint parents (l : list nat) : list nat :=
  match l with
  | j :: l' => match l' with
               | j' :: l'' => if (j / 2 =? j' / 2)%nat then (j / 2)%nat :: parents l'' else (j / 2)%nat :: parents l'
               | [] => [(j / 2)%nat]
               end
  | [] => []
  end.
Fixpoint missing (l : list nat) : list nat :=
  match l with
  | j :: l' => match l' with
               | j' :: l'' => if (j / 2 =? j' / 2)%nat then missing l'' else neighbour j :: missing l'
               | [] => [neighbour j]
               end
  | [] => []
  end.

#[local] Ltac Zify.zify_post_hook ::= Z.to_euclidean_division_equations.

Lemma pairing_ind (P : list nat -> Prop) :
  P [] -> (forall j, P [j]) ->
  (forall j j' l, j / 2 = j' / 2 -> P l -> P (j :: j' :: l))%nat ->
  (forall j j' l, j / 2 <> j' / 2 -> P (j' :: l) -> P (j :: j' :: l))%nat -> forall l, P l.
Proof.
  intros H0 H1 H2 H3 l. induction l as [l IH] using (induction_ltof1 _ (@length nat)). unfold ltof in IH.
  destruct l as [|j [|j' l]]; [done|done|]. destruct (decide (j / 2 = j' / 2)%nat).
  - apply H2; [done|]. apply IH. cbn. lia.
  - apply H3; [done|]. apply IH. cbn. lia.
Qed.

Lemma neighbour_half j :
  (j = 2 * (j / 2) /\ neighbour j = 2 * (j / 2) + 1 \/ j = 2 * (j / 2) + 1 /\ neighbour j = 2 * (j / 2))%nat.
Proof. unfold neighbour. destruct (Nat.eqb_spec (j mod 2) 0); lia. Qed.

Lemma neighbour_neighbour j : neighbour (neighbour j) = j.
Proof. pose proof (neighbour_half j). pose proof (neighbour_half (neighbour j)). lia. Qed.

Lemma neighbour_div j : (neighbour j / 2 = j / 2)%nat.
Proof. pose proof (neighbour_half j). lia. Qed.

Lemma same_half j j' : (j / 2 = j' / 2)%nat <-> j' = j \/ j' = neighbour j.
Proof. pose proof (neighbour_half j). pose proof (neighbour_half j'). lia. Qed.

Lemma parents_cons j j' l :
  parents (j :: j' :: l) = if (j / 2 =? j' / 2)%nat then (j / 2)%nat :: parents l else (j / 2)%nat :: parents (j' :: l).
Proof. done. Qed.
Lemma missing_cons j j' l :
  missing (j :: j' :: l) = if (j / 2 =? j' / 2)%nat then missing l else neighbour j :: missing (j' :: l).
Proof. done. Qed.

Lemma ascending_single j : ascending [j].
Proof. unfold ascending. by repeat constructor. Qed.

(** The elements after two neighbours or after one without. *)
Lemma ascending_pair j j' l :
  ascending (j :: j' :: l) ->
  ascending (j' :: l) /\ ascending l /\ (j < j')%nat /\ (forall x, x ∈ l -> j' < x)%nat.
Proof.
  unfold ascending. intros H. inversion H as [|?? H1 Hj]; subst. inversion H1 as [|?? H2 Hj']; subst.
  rewrite Forall_forall in Hj, Hj'. split_and!; try done. apply Hj. by left.
Qed.

Lemma elem_of_parents l q : q ∈ parents l <-> exists j, j ∈ l /\ q = (j / 2)%nat.
Proof.
  induction l as [|j|j j' l Hjj IH|j j' l Hjj IH] using pairing_ind; [set_solver..| |]; rewrite parents_cons;
    destruct (Nat.eqb_spec (j / 2) (j' / 2)); try done; rewrite elem_of_cons, IH; split.
  - intros [->|(y & Hy & ->)]; [exists j|exists y]; set_solver.
  - intros (y & [->|[->|Hy]%elem_of_cons]%elem_of_cons & ->); [by left|by left|eauto].
  - intros [->|(y & Hy & ->)]; [exists j|exists y]; set_solver.
  - intros (y & [->|Hy]%elem_of_cons & ->); [by left|eauto].
Qed.

Lemma parents_ascending l : ascending l -> ascending (parents l).
Proof.
  induction l as [|j|j j' l Hjj IH|j j' l Hjj IH] using pairing_ind; [done|intros _; apply ascending_single| |]; intros Hl;
    rewrite parents_cons; destruct (Nat.eqb_spec (j / 2) (j' / 2)); try done;
    apply ascending_pair in Hl as (H1 & H2 & Hlt & Hx); (constructor; [by apply IH|apply Forall_forall]).
  - intros q (x & Hin%Hx & ->)%elem_of_parents. pose proof (neighbour_half j). pose proof (neighbour_half j'). lia.
  - intros q (x & [->|Hin%Hx]%elem_of_cons & ->)%elem_of_parents; lia.
Qed.

Lemma elem_of_missing l x : ascending l -> x ∈ missing l <-> x ∉ l /\ neighbour x ∈ l.
Proof.
  induction l as [|j|j j' l Hjj IH|j j' l Hjj IH] using pairing_ind; intros Hl; [set_solver| | |].
  - cbn [missing]. rewrite !list_elem_of_singleton. pose proof (neighbour_half j). pose proof (neighbour_half x). lia.
  - rewrite missing_cons. destruct (Nat.eqb_spec (j / 2) (j' / 2)); [|done].
    apply ascending_pair in Hl as (H1 & H2 & Hlt & Hx). rewrite IH by done. rewrite !elem_of_cons.
    pose proof (neighbour_half j). pose proof (neighbour_half j'). pose proof (neighbour_half x).
    split.
    + intros [Hn Hi]. specialize (Hx _ Hi) as ?. split; [|by right; right]. intros [?|[?|?]]; [lia..|done].
    + intros [Hn Hi]. split; [tauto|]. destruct Hi as [?|[?|?]]; [|lia|done]. destruct Hn. right. left. lia.
  - rewrite missing_cons. destruct (Nat.eqb_spec (j / 2) (j' / 2)); [done|].
    apply ascending_pair in Hl as (H1 & H2 & Hlt & Hx). rewrite elem_of_cons, IH by done.
    rewrite !(elem_of_cons _ _ j). pose proof (neighbour_half j). pose proof (neighbour_half j'). pose proof (neighbour_half x).
    assert (forall y, y ∈ j' :: l -> j' <= y)%nat as Hy by (intros y [->|?%Hx]%elem_of_cons; lia).
    split.
    + intros [->|[Hn Hi]]; [split; [|left; apply neighbour_neighbour]|].
      * intros [?|Hi]; [lia|]. specialize (Hy _ Hi). lia.
      * split; [|by right]. intros [->|?]; [|done]. specialize (Hy _ Hi). lia.
    + intros [Hn [Hi|Hi]]; [left; rewrite <- Hi; by rewrite neighbour_neighbour|right; tauto].
Qed.

Lemma missing_ascending l : ascending l -> ascending (missing l).
Proof.
  induction l as [|j|j j' l Hjj IH|j j' l Hjj IH] using pairing_ind; [done|intros _; apply ascending_single| |]; intros Hl;
    rewrite missing_cons; destruct (Nat.eqb_spec (j / 2) (j' / 2)); try done;
    apply ascending_pair in Hl as (H1 & H2 & Hlt & Hx); [by apply IH|]. constructor; [by apply IH|].
  apply Forall_forall. intros x [_ Hn]%elem_of_missing; [|done].
  assert (j' <= neighbour x)%nat by (apply elem_of_cons in Hn as [->|?%Hx]; lia).
  pose proof (neighbour_half j). pose proof (neighbour_half j'). pose proof (neighbour_half x). lia.
Qed.

Lemma parents_missing_length l : (2 * length (parents l) = length l + length (missing l))%nat.
Proof.
  induction l as [|j|j j' l Hjj IH|j j' l Hjj IH] using pairing_ind; [done..| |]; rewrite parents_cons, missing_cons;
    destruct (Nat.eqb_spec (j / 2) (j' / 2)); try done; cbn [length] in *; lia.
Qed.

(** ** Positions in the array *)

(** The position of number [j] of the level that has [2 ^ e] places. *)
Definition place (e j : nat) : nat := j + (2 ^ e - 1).

Lemma place_children e j :
  get_sibling (place (S e) j) = Some (place (S e) (neighbour j)) /\
  get_parent (place (S e) j) = Some (place e (j / 2)%nat).
Proof.
  unfold place. rewrite Nat.pow_succ_r'. pose proof (pow2_pos e). pose proof (neighbour_half j) as Hj.
  set (k := (j / 2 + (2 ^ e - 1))%nat).
  destruct Hj as [[Hj Hn]|[Hj Hn]].
  - replace (j + (2 * 2 ^ e - 1))%nat with (2 * k + 1)%nat by lia. destruct (left_child k) as [-> ->]. split; f_equal; lia.
  - replace (j + (2 * 2 ^ e - 1))%nat with (2 * k + 2)%nat by lia. destruct (right_child k) as [-> ->]. split; f_equal; lia.
Qed.

Lemma place_inj e i j : place e i = place e j -> i = j.
Proof. unfold place. lia. Qed.

Lemma elem_of_places e l x : x ∈ map (place e) l <-> exists j, j ∈ l /\ x = place e j.
Proof. change (map (place e) l) with (place e <$> l). rewrite list_elem_of_fmap. naive_solver. Qed.

Lemma places_ascending e l : ascending l -> ascending (map (place e) l).
Proof. intros. apply ascending_map; [done|]. unfold place. lia. Qed.

Lemma with_siblings_spec e l : forall b,
  ascending b -> exists r, with_siblings (map (place (S e)) l) b = Some r /\ ascending r /\
    forall x, x ∈ r <-> x ∈ b \/ exists j, (j ∈ l \/ neighbour j ∈ l) /\ x = place (S e) j.
Proof.
  induction l as [|j l IH]; intros b Hb; cbn [map with_siblings].
  { exists b. split; [done|]. split; [done|]. intros x. split; [by left|].
    intros [?|(j & [H|H] & _)]; [done|by apply not_elem_of_nil in H..]. }
  destruct (place_children e j) as [Es _]. rewrite Es. cbn [mbind option_bind].
  destruct (IH (set_insert (place (S e) (neighbour j)) (set_insert (place (S e) j) b))) as (r & -> & Hr & Hin).
  { by apply set_insert_ascending, set_insert_ascending. }
  exists r. split; [done|]. split; [done|]. intros x. rewrite Hin, !elem_of_set_insert. split.
  - intros [[->|[->|?]]|(i & Hi & ->)].
    + right. exists (neighbour j). split; [|done]. right. rewrite neighbour_neighbour. by left.
    + right. exists j. split; [|done]. left. by left.
    + by left.
    + right. exists i. split; [|done]. destruct Hi; [left|right]; by right.
  - intros [?|(i & [[->|?]%elem_of_cons|[Hi|?]%elem_of_cons] & ->)]; [by left; right; right|by left; right; left|by eauto| |by eauto].
    left. left. by rewrite <- Hi, neighbour_neighbour.
Qed.

(** One round of the builder. *)
Lemma round_positions e l : ascending l ->
  exists b, with_siblings (map (place (S e)) l) [] = Some b /\
    filter (fun x => x ∉ map (place (S e)) l) b = map (place (S e)) (missing l) /\
    set_of (omap get_parent b) = map (place e) (parents l).
Proof.
  intros Hl. destruct (with_siblings_spec e l []) as (b & E & Hb & Hin); [constructor|]. exists b. split; [done|].
  split; apply ascending_unique.
  - clear -Hb. unfold ascending in *. induction Hb as [|x b Hb IH Hx]; [constructor|].
    rewrite filter_cons. case_decide; [|done]. constructor; [done|]. apply Forall_forall.
    intros y [_ Hy]%list_elem_of_filter. by eapply Forall_forall in Hy; [|exact Hx].
  - by apply places_ascending, missing_ascending.
  - intros x. rewrite list_elem_of_filter, Hin, !elem_of_places. setoid_rewrite elem_of_missing; [|done]. split.
    + intros [Hn [H|(j & [Hj|Hj] & ->)]]; [by apply not_elem_of_nil in H|destruct Hn; eauto|].
      exists j. split; [|done]. split; [|done]. intros Hj'. apply Hn. eauto.
    + intros (j & [Hj Hj'] & ->). split; [intros (i & Hi & ->%place_inj); done|]. right. eauto.
  - apply set_of_spec.
  - by apply places_ascending, parents_ascending.
  - intros x. rewrite (proj2 (set_of_spec _)), list_elem_of_omap, elem_of_places. setoid_rewrite elem_of_parents.
    split.
    + intros (y & [H|(j & Hj & ->)]%Hin & Hy); [by apply not_elem_of_nil in H|].
      rewrite (proj2 (place_children e j)) in Hy. injection Hy as <-. exists (j / 2)%nat. split; [|done].
      destruct Hj as [Hj|Hj]; [by exists j|]. exists (neighbour j). by rewrite neighbour_div.
    + intros (q & (j & Hj & ->) & ->). exists (place (S e) j). split; [|apply place_children]. apply Hin. right. eauto.
Qed.

(** One round of the check. *)
Lemma parents_sorted l : ascending l ->
  dedup (sort_by_key id (map (fun p => p.2 / 2)%nat (map pair_of l))) = parents l.
Proof.
  intros Hl. apply ascending_unique; [apply sort_dedup_spec|by apply parents_ascending|].
  intros x. rewrite (proj2 (sort_dedup_spec _)), elem_of_parents, map_map.
  change (map ?f l) with (f <$> l). rewrite list_elem_of_fmap.
  assert (forall j, ((pair_of j).2 / 2 = j / 2)%nat) as E.
  { intros j. unfold pair_of. destruct (Nat.eqb_spec (j mod 2) 0); cbn [snd]; lia. }
  split; intros (j & H1 & H2); exists j; rewrite E in *; done.
Qed.

(** * Proofs that are made are accepted *)

Section complete.
Context (blake2b256_hash : list Z -> list Z).
Context (l : list Digest32).

Abbreviation level k := (level blake2b256_hash k l).

Definition digest_of (k j : nat) : Digest32 := default [] (level k !! j).
Definition missing_node (k j : nat) : LevelNode := mkLevel (level k !! j) (if (j mod 2 =? 0)%nat then Left else Right).
Definition present (k : nat) (js : list nat) : Prop := Forall (fun j => is_Some (level k !! j)) js.

Lemma level_S k q : level (S k) !! q = pair_digest blake2b256_hash (level k !! (2 * q)%nat) (level k !! (2 * q + 1)%nat).
Proof. apply up_lookup. Qed.

Lemma level_left k q : level k !! (2 * q)%nat = None -> level k !! (2 * q + 1)%nat = None.
Proof. intros H%lookup_ge_None. apply lookup_ge_None. lia. Qed.

Lemma present_parent k j : is_Some (level k !! j) -> is_Some (level (S k) !! (j / 2)%nat).
Proof.
  intros Hj. rewrite level_S. destruct (level k !! (2 * (j / 2))%nat) eqn:E; [done|]. pose proof (level_left _ _ E) as E'.
  destruct Hj as [b Hb]. destruct (neighbour_half j) as [[Hh _]|[Hh _]]; rewrite Hh in Hb; congruence.
Qed.

Lemma level_first k : l <> [] -> is_Some (level k !! 0%nat).
Proof.
  intros Hne. induction k as [|k IH]; [by destruct l|]. by apply (present_parent k 0).
Qed.

Lemma present_parents k js : present k js -> present (S k) (parents js).
Proof.
  intros H. apply Forall_forall. intros q (j & Hj & ->)%elem_of_parents. apply present_parent.
  unfold present in H. rewrite Forall_forall in H. by apply H.
Qed.

Lemma digest_pair k q : is_Some (level k !! (2 * q + 1)%nat) ->
  prefixed_hash2 blake2b256_hash INTERNAL_PREFIX (Some (digest_of k (2 * q))) (Some (digest_of k (2 * q + 1))) = digest_of (S k) q.
Proof.
  intros [b Hb]. unfold digest_of. rewrite level_S. rewrite Hb.
  destruct (level k !! (2 * q)%nat) eqn:E; [reflexivity|]. pose proof (level_left _ _ E). congruence.
Qed.

Lemma digest_single k j : is_Some (level k !! j) ->
  head_hash blake2b256_hash (digest_of k j) (missing_node k (neighbour j)) = digest_of (S k) (j / 2).
Proof.
  intros [b Hb]. unfold head_hash, missing_node, digest_of. cbn [side level_hash]. rewrite level_S.
  pose proof (neighbour_half j) as H. revert H. generalize (j / 2)%nat as q. intros q [[-> ->]|[-> ->]].
  - destruct (Nat.eqb_spec ((2 * q + 1) mod 2) 0); [lia|]. rewrite Hb. by destruct (level k !! (2 * q + 1)%nat).
  - destruct (Nat.eqb_spec ((2 * q) mod 2) 0); [|lia]. rewrite Hb.
    destruct (level k !! (2 * q)%nat) eqn:E; [done|]. by rewrite (level_left _ _ E) in Hb.
Qed.

Lemma pair_of_half j : pair_of j = (2 * (j / 2), 2 * (j / 2) + 1)%nat.
Proof. unfold pair_of. destruct (Nat.eqb_spec (j mod 2) 0); f_equal; lia. Qed.

Lemma pair_up_two many b0 b1 bs e0 e1 es m :
  pair_up blake2b256_hash many (b0 :: b1 :: bs) (e0 :: e1 :: es) m =
    if many && bool_decide (b0 = b1) then
      '(e_new, m) ← pair_up blake2b256_hash many bs es m;
      Some (prefixed_hash2 blake2b256_hash INTERNAL_PREFIX (Some e0) (Some e1) :: e_new, m)
    else
      match m with
      | head :: m =>
          '(e_new, m) ← pair_up blake2b256_hash many (b1 :: bs) (e1 :: es) m;
          Some (head_hash blake2b256_hash e0 head :: e_new, m)
      | [] => None
      end.
Proof. done. Qed.

Lemma pair_up_levels many k m js :
  ascending js -> present k js -> (many = true \/ (length js <= 1)%nat) ->
  pair_up blake2b256_hash many (map pair_of js) (map (digest_of k) js) (map (missing_node k) (missing js) ++ m) =
    Some (map (digest_of (S k)) (parents js), m).
Proof.
  unfold present. induction js as [|j|j j' js Hjj IH|j j' js Hjj IH] using pairing_ind; intros Ha Hp Hm; [done| | |].
  - cbn. rewrite digest_single; [done|]. by inversion Hp.
  - destruct Hm as [->|?]; [|cbn in *; lia]. apply ascending_pair in Ha as (_ & Ha & Hlt & _).
    apply Forall_cons in Hp as [Hj Hp]. apply Forall_cons in Hp as [Hj' Hp].
    rewrite parents_cons, missing_cons. destruct (Nat.eqb_spec (j / 2) (j' / 2)); [|done].
    cbn [map]. rewrite pair_up_two, bool_decide_eq_true_2 by (rewrite !pair_of_half; congruence). cbn [andb].
    rewrite IH by (auto || by left). cbn [mbind option_bind map]. do 3 f_equal.
    pose proof (neighbour_half j). pose proof (neighbour_half j').
    replace j' with (2 * (j / 2) + 1)%nat at 1 by lia. replace j with (2 * (j / 2))%nat at 1 by lia.
    apply digest_pair. by replace (2 * (j / 2) + 1)%nat with j' by lia.
  - apply ascending_pair in Ha as (Ha & _ & Hlt & _). apply Forall_cons in Hp as [Hj Hp].
    rewrite parents_cons, missing_cons. destruct (Nat.eqb_spec (j / 2) (j' / 2)); [done|].
    rewrite !(map_cons _ j). cbn [map app]. specialize (IH Ha Hp ltac:(destruct Hm; [by left|cbn in *; lia])). cbn [map] in IH.
    rewrite pair_up_two, bool_decide_eq_false_2; [|rewrite !pair_of_half; intros E%(f_equal fst); cbn [fst] in E; lia].
    rewrite andb_false_r. rewrite IH. cbn [mbind option_bind]. by rewrite digest_single.
Qed.

(** ** The array *)

Context (d : nat) (ns : list MerkleNode).
Context (Hns : holds_tree blake2b256_hash d l ns).

Lemma place_hash e k j : (e + k = d)%nat -> (j < 2 ^ e)%nat -> hash_at ns (place e j) = level k !! j.
Proof.
  intros Hd Hj. pose proof (pow2_pos e). assert (2 ^ e <= 2 ^ d)%nat by (apply Nat.pow_le_mono_r; lia).
  destruct Hns as [Hh _]. unfold place. rewrite Hh by lia. unfold digest_at.
  replace (j + (2 ^ e - 1) + 1)%nat with (2 ^ e + j)%nat by lia.
  rewrite (Nat.log2_unique' (2 ^ e + j) e j) by lia. replace (d - e)%nat with k by lia. f_equal. lia.
Qed.

Lemma present_bound e k j : (e + k = d)%nat -> (length l <= 2 ^ d)%nat -> is_Some (level k !! j) -> (j < 2 ^ e)%nat.
Proof.
  intros Hd Hl Hj%lookup_lt_is_Some. eapply Nat.lt_le_trans; [exact Hj|]. clear Hj j Hns.
  revert e Hd. induction k as [|k IH]; intros e Hd; [by replace e with d by lia|].
  specialize (IH (S e) ltac:(lia)). rewrite Nat.pow_succ_r' in IH.
  destruct (decide (2 ^ e < length (level (S k)))%nat) as [Hlt|]; [|lia]. exfalso.
  apply lookup_lt_is_Some in Hlt as [x Hx]. rewrite level_S in Hx.
  rewrite (proj2 (lookup_ge_None _ _)) in Hx by lia. done.
Qed.

Context (Hl : (length l <= 2 ^ d)%nat).

Lemma multiproof_node_Ok e k j :
  (S e + k = d)%nat -> is_Some (level k !! neighbour j) -> multiproof_node ns (place (S e) j) = Ok (missing_node k j).
Proof.
  intros Hd Hj. assert (neighbour j < 2 ^ S e)%nat as Hlt by by eapply present_bound.
  pose proof (place_hash (S e) k (neighbour j) Hd Hlt) as Hn.
  assert (place (S e) (neighbour j) < length ns)%nat as Hlen.
  { apply lookup_lt_is_Some. unfold hash_at in Hn. destruct Hj as [x Hx]. rewrite Hx in Hn.
    destruct (ns !! place (S e) (neighbour j)); [done|done]. }
  destruct Hns as (_ & _ & q & Hq). rewrite Nat.pow_succ_r' in Hlt. pose proof (pow2_pos e) as Hpos.
  pose proof (neighbour_half j) as Hh.
  assert (place (S e) j < length ns)%nat as Hlen'.
  { unfold place in *. rewrite Nat.pow_succ_r' in *. lia. }
  destruct (node_at_Ok ns (place (S e) j) Hlen') as (n & En & Hnj).
  assert (get_hash n = level k !! j) as Hg.
  { rewrite <- (place_hash (S e) k j Hd); [unfold hash_at; by rewrite Hnj|]. rewrite Nat.pow_succ_r'. lia. }
  unfold multiproof_node. rewrite (proj1 (place_children e j)). cbn [unwrap ok_or mbind result_bind].
  rewrite En. cbn [mbind result_bind]. rewrite Hg. unfold missing_node.
  assert ((place (S e) (neighbour j) =? place (S e) j - 1)%nat = negb (j mod 2 =? 0)%nat) as ->.
  { unfold place. rewrite Nat.pow_succ_r'. destruct (Nat.eqb_spec (j mod 2) 0), (Nat.eqb_spec (neighbour j + (2 * 2 ^ e - 1)) (j + (2 * 2 ^ e - 1) - 1)); cbn; lia. }
  by destruct (level k !! j), (j mod 2 =? 0)%nat.
Qed.

Lemma missing_nodes_Ok e k js : (S e + k = d)%nat -> ascending js -> present k js ->
  mapM_res (multiproof_node ns) (map (place (S e)) (missing js)) = Ok (map (missing_node k) (missing js)).
Proof.
  intros Hd Ha Hp. apply mapM_res_Forall2. apply Forall2_fmap_2, Forall_Forall2_diag, Forall_forall.
  intros j [_ Hj]%elem_of_missing; [|done]. apply multiproof_node_Ok; [done|].
  unfold present in Hp. rewrite Forall_forall in Hp. by apply Hp.
Qed.

Lemma zero_not_placed e js : bool_decide (0%nat ∈ map (place (S e)) js) = false.
Proof.
  apply bool_decide_eq_false. intros (j & _ & Hj)%elem_of_places. unfold place in Hj.
  pose proof (pow2_pos e). rewrite Nat.pow_succ_r' in Hj. lia.
Qed.

(** The whole array's level has one digest. *)
Lemma top_level js : ascending js -> js <> [] -> present d js -> js = [0%nat].
Proof.
  intros Ha Hne Hp. assert (forall j, j ∈ js -> j = 0%nat) as H0.
  { intros j Hj. unfold present in Hp. rewrite Forall_forall in Hp.
    assert (j < 2 ^ 0)%nat by (eapply present_bound; [|done|by apply Hp]; lia). cbn in *. lia. }
  destruct js as [|j js]; [done|]. rewrite (H0 j) by by left. f_equal. destruct js as [|j' js]; [done|].
  apply ascending_pair in Ha as (_ & _ & Hlt & _). pose proof (H0 j' ltac:(right; left)). lia.
Qed.

Lemma map_bi_hash js k : map bi_hash (zip_with mkIndex js (map (digest_of k) js)) = map (digest_of k) js.
Proof. induction js as [|j js IH]; [done|]. cbn. by f_equal. Qed.

Lemma zip_length js k : length (zip_with mkIndex js (map (digest_of k) js)) = length js.
Proof. rewrite length_zip_with, length_map. lia. Qed.

(** What the builder makes, the check takes back to the root. *)
Lemma build_then_validate e : forall k js mp fuel,
  (e + k = d)%nat -> ascending js -> js <> [] -> present k js -> (e < fuel)%nat ->
  exists ms, multiproof_loop fuel ns (map (place e) js) mp = Ok (Some (mp ++ ms)) /\
    match e with
    | O => ms = []
    | S _ => (length js = 1%nat -> ms <> []) /\
        forall vfuel, (length js + length ms < vfuel)%nat ->
          validate blake2b256_hash vfuel js (zip_with mkIndex js (map (digest_of k) js)) ms = Ok (Some [digest_of d 0])
    end.
Proof.
  induction e as [|e IH]; intros k js mp fuel Hd Ha Hne Hp Hf.
  { replace k with d in * by lia. rewrite (top_level js Ha Hne Hp). exists []. by destruct fuel; rewrite app_nil_r. }
  destruct fuel as [|fuel]; [lia|]. cbn [multiproof_loop]. rewrite zero_not_placed.
  destruct (round_positions e js Ha) as (b & -> & -> & ->). rewrite missing_nodes_Ok with (k := k) by done.
  cbn [mbind result_bind].
  assert (parents js <> []) as Hne'.
  { intros E. pose proof (parents_missing_length js) as Hlen. rewrite E in Hlen. by destruct js. }
  destruct (IH (S k) (parents js) (mp ++ map (missing_node k) (missing js)) fuel) as (ms & -> & Hms);
    [lia|by apply parents_ascending|done|by apply present_parents|lia|].
  exists (map (missing_node k) (missing js) ++ ms). split; [by rewrite app_assoc|].
  pose proof (parents_missing_length js) as Hlen. assert (0 < length (parents js))%nat by (by destruct (parents js); [|cbn; lia]).
  split.
  { intros H1 E%app_nil. destruct E as [E%map_eq_nil _]. rewrite E, H1 in Hlen. cbn in Hlen. lia. }
  intros vfuel Hv. rewrite length_app, length_map in Hv. destruct vfuel as [|vfuel]; [lia|]. cbn [validate].
  rewrite zip_length, length_map, Nat.eqb_refl. cbn [negb]. rewrite map_bi_hash.
  rewrite pair_up_levels; [|done|done|destruct (Nat.ltb_spec 1 (length js)); [by left|right; lia]].
  rewrite parents_sorted by done. rewrite length_map. rewrite (bool_decide_eq_false_2 (parents js = [])) by done.
  cbn [negb]. rewrite andb_true_r. destruct e as [|e].
  - subst ms. rewrite (top_level (parents js)); [|by apply parents_ascending|done|by replace d with (S k) by lia; apply present_parents].
    cbn. by replace (S k) with d by lia.
  - destruct Hms as [Hne1 Hval]. rewrite (Hval vfuel) by lia.
    destruct (bool_decide_reflect (length ms = 0%nat)) as [E%nil_length_inv|]; [|done].
    destruct (Nat.ltb_spec 1 (length (parents js))); [done|]. exfalso. apply Hne1; [lia|done].
Qed.
End complete.

Lemma pair_up_measure hash many m : forall b e e' m',
  length e = length b -> pair_up hash many b e m = Some (e', m') ->
  (2 * length e' + length m' = length e + length m /\ length m' <= length m)%nat.
Proof.
  intros b. revert m. induction b as [b IH] using (induction_ltof1 _ (@length _)). unfold ltof in IH.
  intros m e e' m' Hlen H. destruct b as [|b0 bs], e as [|e0 es]; try done; [cbn in H; injection H as <- <-; cbn; lia|].
  assert (forall head m1, m = head :: m1 ->
    ('(e_new, m2) ← pair_up hash many bs es m1; Some (head_hash hash e0 head :: e_new, m2)) = Some (e', m') ->
    (2 * length e' + length m' = length (e0 :: es) + length m /\ length m' <= length m)%nat) as Hone.
  { intros head m1 -> H1. destruct (pair_up hash many bs es m1) as [[e1 m2]|] eqn:E; [|done]. injection H1 as <- <-.
    apply IH in E; [cbn [length] in *; lia|cbn; lia|by injection Hlen]. }
  destruct bs as [|b1 bs], es as [|e1 es]; try done; [by destruct m as [|head m]; [|eapply Hone]|].
  rewrite pair_up_two in H. destruct (many && bool_decide (b0 = b1)).
  - destruct (pair_up hash many bs es m) as [[e2 m2]|] eqn:E; [|done]. injection H as <- <-.
    apply IH in E; [cbn [length] in *; lia|cbn; lia|by injection Hlen].
  - destruct m as [|head m]; [done|]. by eapply Hone.
Qed.

Lemma validate_total hash : forall fuel a e m,
  (length e + length m < fuel)%nat -> exists r, validate hash fuel a e m = Ok r.
Proof.
  induction fuel as [|fuel IH]; intros a e m Hf; [lia|]. cbn [validate]. rewrite length_map.
  destruct (Nat.eqb_spec (length e) (length a)) as [Hlen|]; cbn [negb]; [|by eexists].
  destruct (pair_up hash _ (map pair_of a) (map bi_hash e) m) as [[e' m']|] eqn:E; [|by eexists].
  apply pair_up_measure in E as [E1 E2]; [|by rewrite !length_map]. rewrite length_map in E1.
  set (a' := dedup _). destruct (bool_decide_reflect (a' = [])) as [Ha|Ha]; [rewrite andb_false_r; by eexists|].
  destruct (_ && _); [|by eexists]. apply IH. rewrite length_zip_with.
  destruct a as [|i a]; [done|]. destruct e; [done|]. cbn [length] in *. lia.
Qed.

(** Checking a proof of several leaves always ends, whatever the proof. *)
Theorem batch_valid_total (blake2b256_hash : list Z -> list Z) (p : BatchMerkleProof) (expected_root : list Z) :
  exists b, batch_valid blake2b256_hash p expected_root = Ok b.
Proof.
  unfold batch_valid. set (e := sort_by_key bi_index (indices p)).
  destruct (validate_total blake2b256_hash (S (length e + length (proofs p))) (map bi_index e) e (proofs p)) as [r ->]; [lia|].
  by eexists.
Qed.

Lemma ascending_keys (es : list BatchMerkleProofIndex) :
  ascending (map bi_index es) -> sort_by_key bi_index es = es.
Proof.
  intros H. apply sort_by_key_sorted. unfold ascending in H. revert H. induction es as [|x es IH]; intros H; [constructor|].
  inversion H as [|?? H1 H2]; subst. constructor; [by apply IH|]. rewrite Forall_forall in H2.
  apply Forall_forall. intros y Hy. assert (bi_index x < bi_index y)%nat; [|lia]. apply H2. by apply (list_elem_of_fmap_2 bi_index).
Qed.

Section complete_proof.
Context (blake2b256_hash : list Z -> list Z).

Abbreviation tree_new := (tree_new blake2b256_hash).
Abbreviation leaf_hashes := (leaf_hashes blake2b256_hash).

Lemma leaf_node_data datas j :
  is_Some (leaf_nodes blake2b256_hash datas !! j ≫= get_leaf_data) <-> (j < length datas)%nat.
Proof.
  unfold leaf_nodes. destruct (Nat.lt_ge_cases j (length datas)) as [Hj|Hj].
  - rewrite lookup_app_l by by rewrite length_map. rewrite list_lookup_fmap.
    destruct (lookup_lt_is_Some_2 datas j Hj) as [x ->]. cbn. split; [done|by eexists].
  - rewrite lookup_app_r by by rewrite length_map. destruct (replicate _ _ !! _) as [n|] eqn:E.
    + apply lookup_replicate in E as [-> _]. cbn. split; [by intros []|lia].
    + cbn. split; [by intros []|lia].
Qed.

Lemma leaf_digest datas j data :
  datas !! j = Some data ->
  level blake2b256_hash 0 (leaf_hashes datas) !! j = Some (prefixed_hash blake2b256_hash LEAF_PREFIX data) /\
  digest_of blake2b256_hash (leaf_hashes datas) 0 j = prefixed_hash blake2b256_hash LEAF_PREFIX data.
Proof.
  intros H. unfold digest_of. change (level blake2b256_hash 0 (leaf_hashes datas)) with (map (prefixed_hash blake2b256_hash LEAF_PREFIX) datas).
  change (map ?f datas) with (f <$> datas). by rewrite list_lookup_fmap, H.
Qed.

(** The listed leaves of a proof. *)
Definition entry_of (datas : list (list Z)) (j : nat) : BatchMerkleProofIndex :=
  mkIndex j (digest_of blake2b256_hash (leaf_hashes datas) 0 j).

Lemma entries_zip datas js :
  map (entry_of datas) js = zip_with mkIndex js (map (digest_of blake2b256_hash (leaf_hashes datas) 0) js).
Proof. induction js as [|j js IH]; [done|]. cbn. by f_equal. Qed.

Lemma entries_index datas js : map bi_index (map (entry_of datas) js) = js.
Proof. induction js as [|j js IH]; [done|]. cbn. by f_equal. Qed.

Lemma elem_of_entries datas js i h :
  Forall (fun j => j < length datas)%nat js ->
  mkIndex i h ∈ map (entry_of datas) js <->
    i ∈ js /\ exists data, datas !! i = Some data /\ h = prefixed_hash blake2b256_hash LEAF_PREFIX data.
Proof.
  intros Hjs. rewrite Forall_forall in Hjs. change (map ?f js) with (f <$> js). rewrite list_elem_of_fmap. split.
  - intros (j & [= -> ->] & Hj). split; [done|]. destruct (lookup_lt_is_Some_2 datas j (Hjs _ Hj)) as [x Hx].
    exists x. split; [done|]. by apply leaf_digest.
  - intros (Hi & x & Hx & ->). exists i. split; [|done]. unfold entry_of. by rewrite (proj2 (leaf_digest _ _ _ Hx)).
Qed.

Lemma index_entries_Ok datas t js :
  tree_new (map (node_from_bytes blake2b256_hash) datas) = Ok t -> Forall (fun j => j < length datas)%nat js ->
  exists entries, mapM_res (index_entry (nodes t) (internal_nodes t)) js = Ok entries /\
    omap id entries = map (entry_of datas) js.
Proof.
  intros Ht Hjs. destruct (tree_new_holds blake2b256_hash datas) as (t' & E & _ & _ & _ & Hl & _). rewrite Ht in E. injection E as <-.
  exists (map (fun j => Some (entry_of datas j)) js). split.
  - apply mapM_res_Forall2, Forall2_fmap_r, Forall_Forall2_diag. eapply Forall_impl; [exact Hjs|]. intros j Hj. cbn beta.
    destruct (lookup_lt_is_Some_2 datas j Hj) as [x Hx]. unfold compose, index_entry, node_at, entry_of.
    rewrite Nat.add_comm, Hl, (proj2 (leaf_digest _ _ _ Hx)). unfold leaf_nodes.
    by rewrite (lookup_app_l_Some _ _ _ (node_from_bytes blake2b256_hash x)) by by rewrite list_lookup_fmap, Hx.
  - clear. induction js as [|j js IH]; [done|]. cbn in *. by f_equal.
Qed.

(** Where no sum overflows, all positions are looked at. *)
Lemma any_missing_Ok t js : Forall (fun j => Z.of_nat (j + internal_nodes t) < 2 ^ 64) js ->
  any_missing t js = Ok (existsb (fun i => negb (bool_decide (is_Some (nodes t !! (internal_nodes t + i)%nat ≫= get_leaf_data)))) js).
Proof.
  induction 1 as [|j js Hj _ IH]; [done|]. cbn [any_missing existsb]. unfold leaf_position. cbv zeta.
  rewrite (proj2 (Z.ltb_lt _ _) Hj). cbn [mbind result_bind]. rewrite IH, (Nat.add_comm (internal_nodes t)).
  by destruct (bool_decide _).
Qed.

(** When the positions are refused. *)
Lemma positions_refused datas t leaf_indices :
  let js := dedup (sort_by_key id leaf_indices) in
  (forall j, nodes t !! (internal_nodes t + j)%nat = leaf_nodes blake2b256_hash datas !! j) ->
  bool_decide (js = []) ||
     existsb (fun i => negb (bool_decide (is_Some (nodes t !! (internal_nodes t + i)%nat ≫= get_leaf_data)))) js =
  negb (bool_decide (js <> [] /\ Forall (fun i => i < length datas)%nat js)).
Proof.
  intros js Hl. destruct (bool_decide_reflect (js = [])) as [E|E]; [by rewrite bool_decide_eq_false_2 by tauto|].
  apply eq_true_iff_eq. cbn [orb]. rewrite existsb_exists, negb_true_iff, bool_decide_eq_false. split.
  - intros (i & Hi & Hn) [_ H]. rewrite negb_true_iff, bool_decide_eq_false, Hl, leaf_node_data in Hn.
    rewrite Forall_forall in H. by apply Hn, H, list_elem_of_In.
  - intros H. assert (not (Forall (fun i => i < length datas)%nat js)) as Hn by tauto.
    apply not_Forall_Exists, Exists_exists in Hn as (i & Hi & Hn); [|apply _]. exists i. split; [by apply list_elem_of_In|].
    by rewrite negb_true_iff, bool_decide_eq_false, Hl, leaf_node_data.
Qed.

Lemma positions_sorted_ok (datas : list (list Z)) leaf_indices :
  let js := dedup (sort_by_key id leaf_indices) in
  (js <> [] /\ Forall (fun i => i < length datas)%nat js) <->
  (leaf_indices <> [] /\ Forall (fun i => i < length datas)%nat leaf_indices).
Proof.
  intros js. destruct (sort_dedup_spec leaf_indices) as [_ Hin]. fold js in Hin. rewrite !Forall_forall.
  assert (js = [] <-> leaf_indices = []) as ->; [|split; intros [? H]; (split; [done|]); intros x Hx; apply H; by apply Hin].
  split; intros E; apply elem_of_nil_inv; intros x Hx; apply Hin in Hx; rewrite E in Hx; by apply not_elem_of_nil in Hx.
Qed.

Lemma tree_height (datas : list (list Z)) : datas <> [] ->
  exists d, height (length datas) = S d /\ (length datas <= 2 ^ S d)%nat.
Proof.
  intros H. pose proof (padded_height (length datas)) as Hp. unfold padded in Hp.
  assert (0 < length datas)%nat by (destruct datas; [done|cbn; lia]).
  destruct (height (length datas)) as [|d]; [cbn [Nat.pow] in Hp; exfalso; lia|]. exists d. split; [done|lia].
Qed.

(** The proof made of positions of leaves, in order and without repetition. *)
Lemma build_multiproof_Ok datas t js :
  tree_new (map (node_from_bytes blake2b256_hash) datas) = Ok t ->
  ascending js -> js <> [] -> Forall (fun i => i < length datas)%nat js ->
  exists ms, build_multiproof (nodes t) js (internal_nodes t) = Ok (Some (mkBatch (map (entry_of datas) js) ms)) /\
    batch_valid blake2b256_hash (mkBatch (map (entry_of datas) js) ms) (root_hash t) = Ok true.
Proof.
  intros Ht Ha Hne Hjs. destruct (tree_new_holds blake2b256_hash datas) as (t' & E & Hold & Hr & Hint & Hl & _).
  rewrite Ht in E. injection E as <-.
  assert (datas <> []) as Hd by (intros ->; destruct js as [|i ?]; [done|]; inversion Hjs; cbn in *; lia).
  specialize (Hold Hd). destruct (tree_height datas Hd) as (d & Ed & Hle). rewrite Ed in *.
  unfold build_multiproof. rewrite Hint.
  rewrite (set_of_ascending (map (fun idx => idx + (2 ^ S d - 1))%nat js)) by by apply (places_ascending (S d)).
  change (map (fun idx => idx + (2 ^ S d - 1))%nat js) with (map (place (S d)) js).
  destruct (build_then_validate blake2b256_hash (leaf_hashes datas) (S d) (nodes t) Hold) with
    (e := S d) (k := 0%nat) (js := js) (mp := @nil LevelNode) (fuel := S (max_list (map (place (S d)) js)))
    as (ms & Eb & _ & Hval); [by unfold Merkle.leaf_hashes; rewrite length_map|lia|done..| | |].
  { eapply Forall_impl; [exact Hjs|]. intros j [x Hx]%lookup_lt_is_Some. rewrite (proj1 (leaf_digest _ _ _ Hx)). by eexists. }
  { destruct js as [|j js']; [done|]. cbn [map max_list_with]. unfold place, id at 1.
    pose proof (Nat.pow_gt_lin_r 2 (S d) ltac:(lia)). lia. }
  exists ms. rewrite Eb. cbn [mbind result_bind app].
  destruct (index_entries_Ok datas t js Ht Hjs) as (entries & Em & Hes). rewrite Hint in Em. rewrite Em.
  cbn [mbind result_bind]. rewrite Hes. split; [done|].
  unfold batch_valid. cbn [indices proofs]. rewrite ascending_keys by by rewrite entries_index.
  rewrite entries_index, entries_zip, Hval by (rewrite length_zip_with, length_map; lia). cbn [mbind result_bind]. f_equal.
  apply bool_decide_eq_true. rewrite Hr. unfold merkle_root. rewrite Ed, head_lookup. unfold digest_of.
  destruct (level_first blake2b256_hash (leaf_hashes datas) (S d)) as [x Hx]; [by destruct datas|].
  unfold Merkle.leaf_hashes in *. by rewrite Hx.
Qed.

(** On the tree of any leaves a batch proof of positions, whose sums with the number of internal nodes do not overflow, is
    refused exactly when there is no position or one is not a leaf's; otherwise it lists the digests of just those leaves, and the root accepts it. *)
Theorem batch_proof_complete (datas : list (list Z)) (leaf_indices : list nat) :
  Forall (fun i => Z.of_nat (i + (2 ^ height (length datas) - 1)) < 2 ^ 64) leaf_indices ->
  exists t, tree_new (map (node_from_bytes blake2b256_hash) datas) = Ok t /\
    if bool_decide (leaf_indices <> [] /\ Forall (fun i => i < length datas)%nat leaf_indices) then
      exists p, proof_by_indices t leaf_indices = Ok (Some p) /\
        batch_valid blake2b256_hash p (root_hash t) = Ok true /\
        forall i h, mkIndex i h ∈ indices p <->
          i ∈ leaf_indices /\ exists data, datas !! i = Some data /\ h = prefixed_hash blake2b256_hash LEAF_PREFIX data
    else proof_by_indices t leaf_indices = Ok None.
Proof.
  intros Hfit. destruct (tree_new_holds blake2b256_hash datas) as (t & E & _ & _ & Hint & Hl & _). exists t. split; [done|].
  assert (proof_by_indices t leaf_indices = if negb (bool_decide (dedup (sort_by_key id leaf_indices) <> [] /\
    Forall (fun i => i < length datas)%nat (dedup (sort_by_key id leaf_indices))))
    then Ok None else build_multiproof (nodes t) (dedup (sort_by_key id leaf_indices)) (internal_nodes t)) as ->.
  { unfold proof_by_indices. rewrite <- (positions_refused datas t) by done. rewrite any_missing_Ok; [by destruct (bool_decide _)|].
    rewrite Hint. destruct (sort_dedup_spec leaf_indices) as [_ Hin]. rewrite Forall_forall in *. intros i Hi. by apply Hfit, Hin. }
  rewrite (bool_decide_ext _ _ (positions_sorted_ok datas leaf_indices)).
  set (js := dedup (sort_by_key id leaf_indices)). case_bool_decide as Hok; [|done]. cbn [negb].
  apply positions_sorted_ok in Hok as [Hne Hjs]. fold js in Hne, Hjs.
  destruct (sort_dedup_spec leaf_indices) as [Ha Hin]. fold js in Ha, Hin.
  destruct (build_multiproof_Ok datas t js E Ha Hne Hjs) as (ms & Hb & Hv). eexists. split; [exact Hb|].
  split; [exact Hv|]. intros i h. cbn [indices]. by rewrite elem_of_entries, Hin.
Qed.
End complete_proof.

(** * What an accepted proof binds *)

Section binding.
Context (blake2b256_hash : list Z -> list Z).
Context (Hlen : forall bytes, length (blake2b256_hash bytes) = HASH_SIZE).

Abbreviation level := (level blake2b256_hash).
Abbreviation leaf_hashes := (leaf_hashes blake2b256_hash).
Abbreviation pair_up := (pair_up blake2b256_hash).
Abbreviation validate := (validate blake2b256_hash).
Abbreviation tree_strings := (tree_strings blake2b256_hash).

(** The strings that are hashed by a check, as its loops go. *)
Definition head_string (hash : Digest32) (head : LevelNode) : list Z :=
  match side head with
  | Left => INTERNAL_PREFIX :: default [] (level_hash head) ++ hash
  | Right => INTERNAL_PREFIX :: hash ++ default [] (level_hash head)
  end.

Fixpoint pair_strings (many : bool) (b : list (nat * nat)) (e : list Digest32) (m : list LevelNode) : list (list Z) :=
  match b, e with
  | b0 :: bs, e0 :: es =>
      match bs, es with
      | b1 :: bs', e1 :: es' =>
          if many && bool_decide (b0 = b1) then (INTERNAL_PREFIX :: e0 ++ e1) :: pair_strings many bs' es' m
          else match m with head :: m => head_string e0 head :: pair_strings many bs es m | [] => [] end
      | _, _ => match m with head :: m => head_string e0 head :: pair_strings many bs es m | [] => [] end
      end
  | _, _ => []
  end.

Fixpoint validate_strings (fuel : nat) (a : list nat) (e : list BatchMerkleProofIndex) (m : list LevelNode) : list (list Z) :=
  match fuel with
  | O => []
  | S fuel =>
      let b := map pair_of a in
      pair_strings (1 <? length b)%nat b (map bi_hash e) m ++
      match pair_up (1 <? length b)%nat b (map bi_hash e) m with
      | None => []
      | Some (e_new, m_new) =>
          let a_new := dedup (sort_by_key id (map (fun p => p.2 / 2)%nat b)) in
          validate_strings fuel a_new (zip_with mkIndex a_new e_new) m_new
      end
  end.

Definition batch_strings (p : BatchMerkleProof) : list (list Z) :=
  let e := sort_by_key bi_index (indices p) in
  validate_strings (S (length e + length (proofs p))) (map bi_index e) e (proofs p).

Definition batch_collision (datas : list (list Z)) (strings : list (list Z)) : Prop :=
  exists x y, x ∈ tree_strings datas /\ y ∈ strings /\ x <> y /\ blake2b256_hash x = blake2b256_hash y.

(** A string that joins a digest to another or to nothing. *)
Definition joins (h : Digest32) (y : list Z) : Prop :=
  exists o : option Digest32, (forall x, o = Some x -> length x = HASH_SIZE) /\
    (y = INTERNAL_PREFIX :: h ++ default [] o \/ y = INTERNAL_PREFIX :: default [] o ++ h).

Definition hashes_wf (e : list Digest32) : Prop := Forall (fun h => length h = HASH_SIZE) e.

Lemma head_hash_string h n : head_hash blake2b256_hash h n = blake2b256_hash (head_string h n).
Proof. by destruct n as [[] []]. Qed.

Lemma head_joins h n : levels_wf [n] -> joins h (head_string h n).
Proof.
  intros Hn. exists (level_hash n). split; [by inversion Hn|]. destruct n as [o []]; cbn; [by right|by left].
Qed.

(** The new digests are those of the strings, and every digest of the list is in one of them. *)
Lemma pair_up_strings many b : forall e m e' m',
  length e = length b -> hashes_wf e -> levels_wf m -> pair_up many b e m = Some (e', m') ->
  e' = map blake2b256_hash (pair_strings many b e m) /\ levels_wf m' /\
  forall h, h ∈ e -> exists y, y ∈ pair_strings many b e m /\ joins h y.
Proof.
  induction b as [b IH] using (induction_ltof1 _ (@length _)). unfold ltof in IH.
  intros e m e' m' Hl He Hm H. destruct b as [|b0 bs], e as [|e0 es]; try done.
  { cbn in H. injection H as <- <-. split_and!; try done. by intros h ?%not_elem_of_nil. }
  apply Forall_cons in He as [He0 He]. injection Hl as Hl.
  assert (forall head m1, m = head :: m1 ->
    ('(e_new, m2) ← pair_up many bs es m1; Some (head_hash blake2b256_hash e0 head :: e_new, m2)) = Some (e', m') ->
    e' = map blake2b256_hash (head_string e0 head :: pair_strings many bs es m1) /\ levels_wf m' /\
    forall h, h ∈ e0 :: es -> exists y, y ∈ head_string e0 head :: pair_strings many bs es m1 /\ joins h y) as Hone.
  { intros head m1 -> H1. destruct (pair_up many bs es m1) as [[e1 m2]|] eqn:E; [|done]. injection H1 as <- <-.
    apply Forall_cons in Hm as [Hh Hm]. apply IH in E as (-> & Hm2 & Hy); [|cbn; lia|done..].
    split; [cbn [map]; by rewrite head_hash_string|]. split; [done|]. intros h [->|Hin]%elem_of_cons.
    - eexists. split; [by left|]. apply head_joins. by repeat constructor.
    - destruct (Hy h Hin) as (y & ? & ?). exists y. split; [by right|done]. }
  destruct bs as [|b1 bs], es as [|e1 es]; try done; [by destruct m as [|head m]; [|eapply Hone]|].
  rewrite pair_up_two in H. cbn [pair_strings]. destruct (many && bool_decide (b0 = b1)).
  - destruct (pair_up many bs es m) as [[e2 m2]|] eqn:E; [|done]. injection H as <- <-.
    apply Forall_cons in He as [He1 He]. injection Hl as Hl.
    apply IH in E as (-> & Hm2 & Hy); [|cbn; lia|done..]. split; [done|]. split; [done|].
    intros h [->|[->|Hin]%elem_of_cons]%elem_of_cons.
    + eexists. split; [by left|]. exists (Some e1). split; [by intros ? [= <-]|by left].
    + eexists. split; [by left|]. exists (Some e0). split; [by intros ? [= <-]|by right].
    + destruct (Hy h Hin) as (y & ? & ?). exists y. split; [by right|done].
  - destruct m as [|head m]; [done|]. by eapply Hone.
Qed.

Lemma pair_up_length many js : forall e m e' m',
  ascending js -> length e = length js -> (many = true \/ (length js <= 1)%nat) ->
  pair_up many (map pair_of js) e m = Some (e', m') -> length e' = length (parents js).
Proof.
  induction js as [|j|j j' js Hjj IH|j j' js Hjj IH] using pairing_ind; intros e m e' m' Ha Hl Hm H.
  - by destruct e; [injection H as <- <-|].
  - destruct e as [|e0 [|]]; try done. cbn in H. destruct m; [done|]. by injection H as <- <-.
  - destruct Hm as [->|?]; [|cbn in *; lia]. destruct e as [|e0 [|e1 e]]; try done.
    apply ascending_pair in Ha as (_ & Ha & _). rewrite parents_cons. destruct (Nat.eqb_spec (j / 2) (j' / 2)); [|done].
    cbn [map] in H. rewrite pair_up_two, bool_decide_eq_true_2 in H by (rewrite !pair_of_half; congruence). cbn [andb] in H.
    destruct (pair_up true _ _ _) as [[er mr]|] eqn:E; [|done]. injection H as <- <-. cbn [length]. f_equal.
    eapply IH; [done| |by left|exact E]. by injection Hl.
  - destruct e as [|e0 [|e1 e]]; try done. apply ascending_pair in Ha as (Ha & _).
    rewrite parents_cons. destruct (Nat.eqb_spec (j / 2) (j' / 2)); [done|].
    cbn [map] in H. rewrite pair_up_two, bool_decide_eq_false_2, andb_false_r in H
      by (rewrite !pair_of_half; intros E%(f_equal fst); cbn [fst] in E; lia).
    destruct m as [|head m]; [done|]. change (pair_of j' :: map pair_of js) with (map pair_of (j' :: js)) in H.
    destruct (pair_up many _ _ _) as [[er mr]|] eqn:E; [|done]. injection H as <- <-. cbn [length]. f_equal.
    eapply IH; [done| | |exact E]; [cbn in *; lia|]. destruct Hm; [by left|cbn in *; lia].
Qed.

(** One level down from digests of the tree. *)
Lemma joined_one datas K h y :
  (K <= height (length datas))%nat -> length h = HASH_SIZE -> joins h y ->
  blake2b256_hash y ∈ level K (leaf_hashes datas) ->
  (exists k, K = S k /\ h ∈ level k (leaf_hashes datas)) \/ batch_collision datas [y].
Proof.
  intros HK Hh (o & Ho & Hy) Hin. apply list_elem_of_lookup in Hin as [j Hj].
  destruct (node_string blake2b256_hash datas K j _ HK Hj) as (x & Hx & E & Hs).
  destruct (decide (x = y)) as [->|Hne]; [left|right; exists x, y; split_and!; try done; by left].
  destruct K as [|k]; [destruct Hs as (? & _ & ->); by destruct Hy|]. exists k. split; [done|].
  destruct Hs as (a & Ha & Hs). set (r := level k (leaf_hashes datas) !! (2 * j + 1)%nat) in *.
  assert (length a = HASH_SIZE) as Hla
    by (eapply level_digest_len; [done|by apply leaf_hashes_len|by eapply list_elem_of_lookup_2]).
  assert (forall b, r = Some b -> length b = HASH_SIZE) as Hlr
    by (intros b Hb; eapply level_digest_len; [done|by apply leaf_hashes_len|by eapply list_elem_of_lookup_2]).
  destruct Hy as [Hy|Hy]; rewrite Hy in Hs; injection Hs as Hs; pose proof (f_equal length Hs) as Hl; rewrite !length_app in Hl.
  - apply app_inj_1 in Hs as [-> _]; [by eapply list_elem_of_lookup_2|congruence].
  - destruct o as [c|], r as [b|] eqn:Er; cbn [default from_option length] in *;
      try specialize (Ho _ eq_refl); try specialize (Hlr _ eq_refl); unfold HASH_SIZE, id in *; try lia.
    + apply app_inj_1 in Hs as [_ ->]; [by eapply list_elem_of_lookup_2|congruence].
    + rewrite app_nil_r in Hs. cbn in Hs. subst h. by eapply list_elem_of_lookup_2.
Qed.

Lemma collision_incl datas ys strings : (forall y, y ∈ ys -> y ∈ strings) -> batch_collision datas ys -> batch_collision datas strings.
Proof. intros H (x & y & ? & ? & ?). exists x, y. auto. Qed.

Lemma joined_below datas K e ys :
  (K <= height (length datas))%nat -> e <> [] -> hashes_wf e ->
  (forall y, y ∈ ys -> blake2b256_hash y ∈ level K (leaf_hashes datas)) ->
  (forall h, h ∈ e -> exists y, y ∈ ys /\ joins h y) ->
  (exists k, K = S k /\ forall h, h ∈ e -> h ∈ level k (leaf_hashes datas)) \/ batch_collision datas ys.
Proof.
  intros HK Hne He Hys Hj.
  assert (forall h, h ∈ e -> (exists k, K = S k /\ h ∈ level k (leaf_hashes datas)) \/ batch_collision datas ys) as Hone.
  { intros h Hh. destruct (Hj h Hh) as (y & Hy & Hjy). unfold hashes_wf in He. rewrite Forall_forall in He.
    destruct (joined_one datas K h y HK (He _ Hh) Hjy (Hys _ Hy)) as [?|Hc]; [by left|right].
    eapply collision_incl; [|exact Hc]. by intros ? ->%list_elem_of_singleton. }
  clear Hj He. induction e as [|h e IH]; [done|].
  destruct (Hone h) as [(k & -> & Hh)|?]; [by left| |by right].
  destruct (decide (e = [])) as [->|Hne'].
  { left. exists k. split; [done|]. by intros ? ->%list_elem_of_singleton. }
  destruct IH as [(k' & [= <-] & He)|?]; [done|intros; apply Hone; by right| |by right].
  left. exists k. split; [done|]. intros x [->|?]%elem_of_cons; auto.
Qed.

Lemma zip_hashes a e : length a = length e -> map bi_hash (zip_with mkIndex a e) = e.
Proof. revert e. induction a as [|i a IH]; intros [|h e] H; try done. cbn. f_equal. apply IH. by injection H. Qed.

Lemma validate_binds datas : forall fuel a e m r K,
  ascending a -> hashes_wf (map bi_hash e) -> levels_wf m -> e <> [] ->
  validate fuel a e m = Ok (Some [r]) -> (K <= height (length datas))%nat -> r ∈ level K (leaf_hashes datas) ->
  (exists k, (k <= K)%nat /\ forall h, h ∈ map bi_hash e -> h ∈ level k (leaf_hashes datas)) \/
  batch_collision datas (validate_strings fuel a e m).
Proof.
  induction fuel as [|fuel IH]; intros a e m r K Ha He Hm Hne Hv HK Hr; [done|].
  cbn [MerkleBatch.validate validate_strings] in *. destruct (Nat.eqb_spec (length e) (length (map pair_of a))) as [Hl|]; [|done].
  cbn [negb] in Hv. set (many := (1 <? length (map pair_of a))%nat) in *.
  destruct (pair_up many (map pair_of a) (map bi_hash e) m) as [[e' m']|] eqn:E; [|done].
  rewrite parents_sorted in * by done. rewrite length_map in Hl.
  assert (length e' = length (parents a)) as Hle'.
  { eapply pair_up_length; [done| | |exact E]; [by rewrite length_map|]. unfold many. rewrite length_map.
    destruct (Nat.ltb_spec 1 (length a)); [by left|right; lia]. }
  assert (length (map bi_hash e) = length (map pair_of a)) as Hlb by (by rewrite !length_map).
  destruct (pair_up_strings many _ _ _ _ _ Hlb He Hm E) as (Ee & Hm' & Hj).
  set (ys := pair_strings many (map pair_of a) (map bi_hash e) m) in *.
  assert (map bi_hash e <> []) as Hne1 by by destruct e.
  assert (forall K', (K' <= K)%nat -> (forall h, h ∈ e' -> h ∈ level K' (leaf_hashes datas)) ->
    (exists k, (k <= K)%nat /\ forall h, h ∈ map bi_hash e -> h ∈ level k (leaf_hashes datas)) \/ batch_collision datas ys) as Hdown.
  { intros K' HK' Hin. destruct (joined_below datas K' (map bi_hash e) ys ltac:(lia) Hne1 He) as [(k & -> & Hk)|?]; [|done| |by right].
    - intros y Hy. apply Hin. rewrite Ee. by apply (list_elem_of_fmap_2 blake2b256_hash).
    - left. exists k. split; [lia|done]. }
  destruct (_ && _) eqn:Ec.
  - assert (e' <> []) as Hne'.
    { apply andb_true_iff in Ec as [_ Ec]. apply negb_true_iff, bool_decide_eq_false in Ec. intros ->. by destruct (parents a). }
    destruct (IH (parents a) (zip_with mkIndex (parents a) e') m' r K) as [(k & Hk & Hin)|Hc]; try done.
    + by apply parents_ascending.
    + rewrite zip_hashes by done. rewrite Ee. apply Forall_map, Forall_forall. intros. apply Hlen.
    + intros Ez. apply (f_equal (map bi_hash)) in Ez. rewrite zip_hashes in Ez by done. done.
    + rewrite zip_hashes in Hin by done. destruct (Hdown k Hk Hin) as [?|Hc]; [by left|right].
      eapply collision_incl; [|exact Hc]. intros y Hy. apply elem_of_app. by left.
    + right. eapply collision_incl; [|exact Hc]. intros y Hy. apply elem_of_app. by right.
  - injection Hv as ->. destruct (Hdown K) as [?|Hc]; [done|by intros ? ->%list_elem_of_singleton|by left|right].
    eapply collision_incl; [|exact Hc]. intros y Hy. apply elem_of_app. by left.
Qed.

Lemma sort_by_key_perm {A} (key : A -> nat) (l : list A) : sort_by_key key l ≡ₚ l.
Proof.
  unfold sort_by_key. induction l as [|x l IH]; [done|]. cbn [foldr]. rewrite <- IH at 2. generalize (foldr (insert_by key) [] l).
  intros k. induction k as [|y k IHk]; [done|]. cbn [insert_by]. destruct (_ <=? _)%nat; [done|].
  rewrite IHk. apply Permutation_swap.
Qed.

Lemma sorted_keys_ascending (es : list BatchMerkleProofIndex) :
  NoDup (map bi_index es) -> ascending (map bi_index (sort_by_key bi_index es)).
Proof.
  intros Hnd. assert (NoDup (map bi_index (sort_by_key bi_index es))) as Hnd'.
  { change (map bi_index ?l) with (bi_index <$> l) in *. by rewrite (sort_by_key_perm bi_index es). }
  pose proof (proj1 (sort_by_key_spec bi_index es)) as Hs. unfold ascending.
  induction Hs as [|x l Hs IH Hx]; [constructor|]. cbn [map] in *. apply NoDup_cons in Hnd' as [Hn Hnd'].
  constructor; [by apply IH|]. rewrite Forall_forall in Hx. apply Forall_map, Forall_forall. intros y Hy.
  specialize (Hx y Hy). cbn in Hx. destruct (decide (bi_index x = bi_index y)) as [E|]; [|lia].
  destruct Hn. rewrite E. by apply (list_elem_of_fmap_2 bi_index).
Qed.

(** When the root of a tree accepts a proof that lists each position once, the digests it lists are all
    digests of one level of the tree, unless checking it hashed a string that collides with one of
    those hashed to build the tree. *)
Theorem batch_proof_binds (datas : list (list Z)) (t : MerkleTree) (p : BatchMerkleProof) :
  tree_new blake2b256_hash (map (node_from_bytes blake2b256_hash) datas) = Ok t -> datas <> [] ->
  hashes_wf (map bi_hash (indices p)) -> levels_wf (proofs p) -> NoDup (map bi_index (indices p)) ->
  batch_valid blake2b256_hash p (root_hash t) = Ok true ->
  (exists k, (k <= height (length datas))%nat /\
     forall i h, mkIndex i h ∈ indices p -> h ∈ level k (leaf_hashes datas)) \/
  batch_collision datas (batch_strings p).
Proof.
  intros Ht Hne Hh Hm Hnd Hv. destruct (tree_new_holds blake2b256_hash datas) as (t' & E & _ & Hr & _).
  rewrite Ht in E. injection E as <-. unfold batch_valid in Hv. unfold batch_strings.
  pose proof (sort_by_key_perm bi_index (indices p)) as Hp. set (e := sort_by_key bi_index (indices p)) in *.
  destruct (validate _ _ _ _) as [[[|r [|]]|]|] eqn:Ev; try done. injection Hv as Hv%bool_decide_eq_true.
  destruct (level_first blake2b256_hash (leaf_hashes datas) (height (length datas))) as [x Hx]; [by destruct datas|].
  unfold merkle_root in Hr. fold (leaf_hashes datas) in Hr. rewrite head_lookup, Hx in Hr. cbn in Hr.
  destruct (decide (e = [])) as [He|He].
  { left. exists 0%nat. split; [lia|]. intros i h Hin. rewrite <- Hp, He in Hin. by apply not_elem_of_nil in Hin. }
  assert (hashes_wf (map bi_hash e)) as Hhe.
  { unfold hashes_wf in *. change (map bi_hash ?l) with (bi_hash <$> l) in *. by rewrite Hp. }
  assert (r ∈ level (height (length datas)) (leaf_hashes datas)) as Hin by (rewrite Hv, Hr; by eapply list_elem_of_lookup_2).
  destruct (validate_binds datas _ _ e (proofs p) r _ (sorted_keys_ascending _ Hnd) Hhe Hm He Ev (le_n _) Hin)
    as [(k & Hk & Hin')|?].
  - left. exists k. split; [done|]. intros i h Hi. apply Hin'. rewrite <- Hp in Hi. by apply (list_elem_of_fmap_2 bi_hash) in Hi.
  - by right.
Qed.
End binding.

(** A proof that lists a position twice: the digest of its second entry is dropped, so any will do. *)
Theorem batch_duplicate_accepted (blake2b256_hash : list Z -> list Z) (d0 d1 d2 d3 : list Z) (forged : Digest32) :
  let leaf := prefixed_hash blake2b256_hash LEAF_PREFIX in
  let right := prefixed_hash2 blake2b256_hash INTERNAL_PREFIX (Some (leaf d2)) (Some (leaf d3)) in
  let p := mkBatch [mkIndex 0 (leaf d0); mkIndex 1 (leaf d1); mkIndex 1 forged]
             [level_new forged Right; level_new right Right] in
  exists t, tree_new blake2b256_hash (map (node_from_bytes blake2b256_hash) [d0; d1; d2; d3]) = Ok t /\
    batch_valid blake2b256_hash p (root_hash t) = Ok true.
Proof.
  intros leaf right p. destruct (tree_new_holds blake2b256_hash [d0; d1; d2; d3]) as (t & E & _ & Hr & _). exists t.
  split; [done|]. rewrite Hr.
  assert (validate blake2b256_hash 6 [0; 1; 1]%nat (indices p) (proofs p) =
    Ok (Some [prefixed_hash2 blake2b256_hash INTERNAL_PREFIX
      (Some (prefixed_hash2 blake2b256_hash INTERNAL_PREFIX (Some (leaf d0)) (Some (leaf d1)))) (Some right)])) as Hv
    by (vm_compute; reflexivity).
  unfold batch_valid. change (sort_by_key bi_index (indices p)) with (indices p).
  change (map bi_index (indices p)) with [0; 1; 1]%nat. change (S (length (indices p) + length (proofs p))) with 6%nat. rewrite Hv.
  cbn [mbind result_bind]. f_equal. by apply bool_decide_eq_true.
Qed.

(** * Concrete inputs *)

Definition sample_batch : BatchMerkleProof :=
  match proof_by_indices sample_tree [2; 0]%nat with Ok (Some p) => p | _ => mkBatch [] [] end.

Lemma batch_proof_binds_witness :
  batch_valid toy_hash sample_batch (root_hash sample_tree) = Ok true /\
  ((exists k, (k <= 2)%nat /\ forall i h, mkIndex i h ∈ indices sample_batch ->
      h ∈ level toy_hash k (leaf_hashes toy_hash sample_leaves)) \/
   batch_collision toy_hash sample_leaves (batch_strings toy_hash sample_batch)).
Proof.
  assert (batch_valid toy_hash sample_batch (root_hash sample_tree) = Ok true) as Hv by (vm_compute; reflexivity).
  split; [exact Hv|].
  apply (batch_proof_binds toy_hash (fun bytes => length_be_bytes 32 _) sample_leaves sample_tree sample_batch).
  - vm_compute. reflexivity.
  - discriminate.
  - vm_compute. repeat constructor.
  - vm_compute. repeat constructor; intros h [= <-]; reflexivity.
  - refine (bool_decide_unpack _ _). vm_compute. exact I.
  - exact Hv.
Defined.
