(* ===== verification/MerkleSerial.v ===== *)
(** The byte format of proofs of several leaves ([ScorexSerializable] of [BatchMerkleProof] in
    src/ergo-merkle-tree/src/batchmerkleproof.rs). *)

From S2P Require Import Prelude ConcreteCrypto Vlq Codecs SigmaSerial Merkle MerkleBatch.
#[local] Open Scope Z_scope.

(** [side as u8] and [NodeSide::try_from]. *)
Definition side_as_u8 (s : NodeSide) : Z := match s with Left => 0 | Right => 1 end.
Definition node_side_try_from (b : Z) : option NodeSide :=
  if b =? 0 then Some Left else if b =? 1 then Some Right else None.

(** [u32::try_from] of a [usize], and its big-endian bytes; the writers give [None] for the error [TryFrom]. *)
Definition put_usize_be (n : nat) : option (list Z) :=
  if Z.of_nat n <? 2 ^ 32 then Some (put_u32_be_bytes (Z.of_nat n)) else None.

Definition put_index_entry (i : BatchMerkleProofIndex) : option (list Z) := put_seq (put_usize_be (bi_index i)) (Some (bi_hash i)).

Definition put_level_node (n : LevelNode) : option (list Z) :=
  Some (match level_hash n with Some hash => hash | None => replicate 32 0 end ++ put_u8 (side_as_u8 (side n))).

Definition batch_serialize (p : BatchMerkleProof) : option (list Z) :=
  put_seq (put_usize_be (length (indices p)))
    (put_seq (put_usize_be (length (proofs p)))
      (put_seq (put_list put_index_entry (indices p)) (put_list put_level_node (proofs p)))).

Definition read_u32_be : stateE reader ScorexParsingError Z :=
  map_st_err scorex_io_error (bytes ← rd_exact 4; mret (be_val bytes)).

Definition get_index_entry : stateE reader ScorexParsingError BatchMerkleProofIndex :=
  index ← read_u32_be;
  hash ← map_st_err scorex_io_error (rd_exact 32);
  mret (mkIndex (Z.to_nat index) hash).

Definition get_level_node : stateE reader ScorexParsingError LevelNode :=
  hash ← map_st_err scorex_io_error (rd_exact 32);
  let empty := forallb (fun b => b =? 0) hash in
  b ← map_st_err scorex_io_error get_u8;
  side ← liftE (ok_or (node_side_try_from b) ScorexValueOutOfBounds);
  mret (if empty then empty_node side else level_new hash side).

Definition batch_parse : stateE reader ScorexParsingError BatchMerkleProof :=
  indices_len ← read_u32_be;
  proofs_len ← read_u32_be;
  indices ← get_list get_index_entry (Z.to_nat indices_len);
  proofs ← get_list get_level_node (Z.to_nat proofs_len);
  mret (mkBatch indices proofs).

(** * The round trip *)

(** The types of a proof: hashes are arrays of 32 bytes. *)
Definition digest_wf (h : Digest32) : Prop := length h = 32%nat /\ byte_list h.
Definition batch_wf (p : BatchMerkleProof) : Prop :=
  Forall (fun i => digest_wf (bi_hash i)) (indices p) /\
  Forall (fun n => forall h, level_hash n = Some h -> digest_wf h) (proofs p).

#[export] Instance digest_wf_dec h : Decision (digest_wf h).
Proof. unfold digest_wf, byte_list, in_u. apply _. Defined.
#[export] Instance level_wf_dec n : Decision (forall h, level_hash n = Some h -> digest_wf h).
Proof.
  refine (match level_hash n as o return Decision (forall h, o = Some h -> digest_wf h) with
          | Some h => cast_if (decide (digest_wf h)) | None => left _ end); naive_solver.
Defined.
#[export] Instance batch_wf_dec p : Decision (batch_wf p).
Proof. unfold batch_wf. apply _. Defined.

(** The numbers of a proof that the format has room for. *)
Definition batch_fits (p : BatchMerkleProof) : Prop :=
  Forall (fun n => Z.of_nat n < 2 ^ 32)
    (length (indices p) :: length (proofs p) :: map bi_index (indices p)).
#[export] Instance batch_fits_dec p : Decision (batch_fits p).
Proof. unfold batch_fits. apply _. Defined.

(** An all-zero hash is how the format writes no hash. *)
Definition canonical_level (n : LevelNode) : LevelNode :=
  if forallb (fun b => b =? 0) (default (replicate 32 0) (level_hash n)) then empty_node (side n) else n.
Definition canonical (p : BatchMerkleProof) : BatchMerkleProof := mkBatch (indices p) (map canonical_level (proofs p)).

#[export] Instance u32_be_codec : Codec (fun n => 0 <= n < 2 ^ 32) (fun n => Some (put_u32_be_bytes n)) read_u32_be.
Proof. apply map_err_codec, (be_codec 4). Qed.

Lemma read_u32_first n l r :
  Z.of_nat n < 2 ^ 32 -> readable (past (put_u32_be_bytes (Z.of_nat n) ++ l) r) ->
  read_u32_be (before (put_u32_be_bytes (Z.of_nat n) ++ l) r) =
    Ok (Z.of_nat n, past (put_u32_be_bytes (Z.of_nat n)) (before l r)) /\
  readable (past l (past (put_u32_be_bytes (Z.of_nat n)) r)).
Proof.
  intros Hn Hr. apply (codec_first (fun n => 0 <= n < 2 ^ 32) (fun n => Some (put_u32_be_bytes n))); [apply _|lia|done|done].
Qed.

#[export] Instance digest_codec : Codec digest_wf Some (map_st_err scorex_io_error (rd_exact 32)).
Proof. apply map_err_codec, exact_codec. Qed.

#[export] Instance index_entry_codec :
  Codec (fun i => Z.of_nat (bi_index i) < 2 ^ 32 /\ digest_wf (bi_hash i)) put_index_entry get_index_entry.
Proof.
  split.
  - intros i [Hi Hh]. unfold put_index_entry, put_usize_be. destruct (Z.ltb_spec (Z.of_nat (bi_index i)) (2 ^ 32)); [|lia].
    apply put_seq_puts; [|by apply codec_puts]. eexists. split; [done|]. apply be_bytes_range.
  - intros i l r [Hi Hh] Hl Hr. apply put_seq_Some in Hl as (k1 & l1 & Hk & [= <-] & ->). 
    unfold put_usize_be in Hk. destruct (Z.ltb_spec (Z.of_nat (bi_index i)) (2 ^ 32)); [|done]. injection Hk as <-.
    unfold get_index_entry, mbind, stateE_bind, mret, stateE_ret.
    destruct (read_u32_first (bi_index i) (bi_hash i) r Hi Hr) as [-> Hr1].
    rewrite past_before, (codec_roundtrip (bi_hash i) (bi_hash i)), past_app by done. rewrite Nat2Z.id. by destruct i.
Qed.

(** Levels come back in their canonical form. *)
Lemma level_node_roundtrip n l r :
  (forall h, level_hash n = Some h -> digest_wf h) -> put_level_node n = Some l -> readable (past l r) ->
  get_level_node (before l r) = Ok (canonical_level n, past l r).
Proof.
  intros Hn E Hr. unfold put_level_node in E. apply (inj Some) in E. subst l. set (h := match level_hash n with Some hash => hash | None => replicate 32 0 end) in *.
  assert (digest_wf h) as Hh.
  { unfold h. destruct (level_hash n) as [x|]; [by apply Hn|]. split; [done|]. apply Forall_replicate. unfold in_u. lia. }
  unfold get_level_node, mbind, stateE_bind, mret, stateE_ret.
  destruct (codec_first digest_wf Some _ h h (put_u8 (side_as_u8 (side n))) r Hh eq_refl Hr) as [-> Hr1].
  rewrite past_before. unfold map_st_err, put_u8 in *. rewrite get_u8_before by by eapply readable_past. cbn [result_map_err].
  unfold canonical_level. change (default (replicate 32 0) (level_hash n)) with h.
  assert (node_side_try_from (side_as_u8 (side n)) = Some (side n)) as -> by by destruct (side n).
  cbn [ok_or liftE]. rewrite past_app. destruct (forallb _ h) eqn:E; [done|].
  unfold h in *. destruct n as [[x|] s]; [done|]. by cbn in E.
Qed.

Lemma level_nodes_roundtrip ls : forall out r,
  Forall (fun n => forall h, level_hash n = Some h -> digest_wf h) ls -> put_list put_level_node ls = Some out ->
  readable (past out r) -> get_list get_level_node (length ls) (before out r) = Ok (map canonical_level ls, past out r).
Proof.
  induction ls as [|n ls IH]; intros out r Hl Ho Hr.
  - injection Ho as <-. cbn. by rewrite before_nil, past_nil.
  - apply Forall_cons in Hl as [Hn Hl]. cbn [put_list foldr] in Ho. apply put_seq_Some in Ho as (k1 & l1 & Hk & Ho & ->).
    cbn [length get_list map]. unfold mbind, stateE_bind, mret, stateE_ret. rewrite before_app.
    rewrite (level_node_roundtrip n k1 (before l1 r)) by (done || readable).
    rewrite past_before, IH; [by rewrite past_app|done|done|by rewrite past_app].
Qed.

Lemma put_levels_puts ls : exists out, put_list put_level_node ls = Some out.
Proof.
  induction ls as [|n ls [out IH]]; [by eexists|]. cbn [put_list foldr]. unfold put_list in IH. rewrite IH. by eexists.
Qed.

Lemma put_entries_puts es : is_Some (put_list put_index_entry es) <-> Forall (fun n => Z.of_nat n < 2 ^ 32) (map bi_index es).
Proof.
  induction es as [|i es IH]; [by split|]. cbn [put_list foldr map]. rewrite Forall_cons, <- IH.
  unfold put_list, put_seq, put_index_entry, put_usize_be. destruct (Z.ltb_spec (Z.of_nat (bi_index i)) (2 ^ 32)); cbn.
  - destruct (foldr _ _ es); cbn; [by split; [split|]|]. split; [by intros []|by intros [_ []]].
  - split; [by intros []|]. intros [? _]. lia.
Qed.

Lemma put_usize_be_Some n l : put_usize_be n = Some l <-> Z.of_nat n < 2 ^ 32 /\ put_u32_be_bytes (Z.of_nat n) = l.
Proof. unfold put_usize_be. destruct (Z.ltb_spec (Z.of_nat n) (2 ^ 32)); naive_solver lia. Qed.

Lemma batch_fits_alt p : batch_fits p <->
  Z.of_nat (length (indices p)) < 2 ^ 32 /\ Z.of_nat (length (proofs p)) < 2 ^ 32 /\
  is_Some (put_list put_index_entry (indices p)).
Proof. unfold batch_fits. by rewrite !Forall_cons, put_entries_puts. Qed.

(** A proof is written exactly when its lengths and positions fit 32 bits; reading its bytes gives it
    back, with an all-zero hash of a level as no hash, and stops after them. *)
Theorem batch_bytes_roundtrip (p : BatchMerkleProof) (r : reader) :
  batch_wf p ->
  match batch_serialize p with
  | Some l => batch_fits p /\ (readable (past l r) -> batch_parse (before l r) = Ok (canonical p, past l r))
  | None => ~ batch_fits p
  end.
Proof.
  intros [Hi Hp]. pose proof (batch_fits_alt p) as Hfits.
  destruct (batch_serialize p) as [l|] eqn:E; unfold batch_serialize in E.
  - apply put_seq_Some in E as (k1 & l1 & Hk1 & E & ->). apply put_seq_Some in E as (k2 & l2 & Hk2 & E & ->).
    apply put_seq_Some in E as (k3 & k4 & Hk3 & Hk4 & ->).
    apply put_usize_be_Some in Hk1 as [H1 <-]. apply put_usize_be_Some in Hk2 as [H2 <-]. split; [apply Hfits; by rewrite Hk3|]. intros Hr. unfold batch_parse, mbind, stateE_bind, mret, stateE_ret.
    destruct (read_u32_first (length (indices p)) _ r H1 Hr) as [-> Hr1].
    rewrite past_before.
    destruct (read_u32_first (length (proofs p)) _ _ H2 Hr1) as [-> Hr2].
    rewrite past_before, before_app, !Nat2Z.id.
    rewrite (get_list_roundtrip _ put_index_entry get_index_entry (indices p) k3); [|
      |done|readable].
    + rewrite past_before, level_nodes_roundtrip by (done || by rewrite past_app). unfold canonical. by rewrite !past_app, ?app_assoc.
    + apply Forall_forall. intros i Hin. rewrite Forall_forall in Hi. split; [|by apply Hi].
      pose proof (proj1 (put_entries_puts (indices p)) ltac:(by rewrite Hk3)) as Hf. rewrite Forall_forall in Hf.
      apply Hf. by apply (list_elem_of_fmap_2 bi_index).
  - intros (H1 & H2 & [k3 H3])%Hfits. destruct (put_levels_puts (proofs p)) as [k4 H4]. rewrite H3, H4 in E.
    unfold put_usize_be in E. by destruct (Z.ltb_spec (Z.of_nat (length (indices p))) (2 ^ 32)), (Z.ltb_spec (Z.of_nat (length (proofs p))) (2 ^ 32)); try lia.
Qed.

Definition sample_reader : reader := mkReader [7] 0 U64_MAX 0.

Lemma batch_bytes_roundtrip_witness :
  exists l, batch_serialize sample_batch = Some l /\
    batch_parse (before l sample_reader) = Ok (canonical sample_batch, past l sample_reader).
Proof.
  assert (batch_wf sample_batch) as Hwf by (refine (bool_decide_unpack _ _); vm_compute; exact I).
  pose proof (batch_bytes_roundtrip sample_batch sample_reader Hwf) as H.
  destruct (batch_serialize sample_batch) as [l|] eqn:E.
  - exists l. split; [reflexivity|]. apply H. by left.
  - exfalso. vm_compute in E. discriminate E.
Defined.
