(* ===== verification/Types.v ===== *)
(** The types of ErgoTree (src/ergotree-ir/src/types/stype.rs, stype_param.rs, sfunc.rs, stuple.rs
    and type_unify.rs): the type descriptors, substitution of type variables and unification. *)

From S2P Require Import Prelude.
From stdpp Require Import gmap.
#[local] Open Scope Z_scope.

(** A type variable, by the UTF-8 bytes of its name. *)
Record STypeVar : Type := mkTypeVar { name_bytes : list Z }.
Record STypeParam : Type := mkTypeParam { ident : STypeVar }.

#[export] Instance STypeVar_eq_dec : EqDecision STypeVar.
Proof. solve_decision. Defined.
#[export] Instance STypeVar_countable : Countable STypeVar.
Proof. refine (inj_countable' name_bytes mkTypeVar _). by intros []. Defined.
#[export] Instance STypeParam_eq_dec : EqDecision STypeParam.
Proof. solve_decision. Defined.

(** [SType]; the structs [STuple] and [SFunc] of the last two variants are their arguments. *)
Inductive SType : Type :=
| SVar (v : STypeVar)
| SAny | SUnit | SBoolean | SByte | SShort | SInt | SLong | SBigInt | SGroupElement | SSigmaProp
| SUnsignedBigInt | SBox | SAvlTree
| SOption (t : SType)
| SColl (t : SType)
| STuple (items : list SType)
| SFunc (t_dom : list SType) (t_range : SType) (tpe_params : list STypeParam)
| SContext | SString | SHeader | SPreHeader | SGlobal | SNoType.

Definition is_numeric (t : SType) : bool :=
  match t with SByte | SShort | SInt | SLong | SBigInt | SUnsignedBigInt => true | _ => false end.

Definition is_prim (t : SType) : bool :=
  match t with
  | SByte | SShort | SInt | SLong | SBigInt | SAny | SUnit | SGroupElement | SSigmaProp | SUnsignedBigInt
  | SBox | SAvlTree | SContext | SString | SBoolean | SHeader | SPreHeader | SGlobal => true
  | _ => false
  end.

(** [V6TypeError] where there is one. *)
Fixpoint check_v6_type (t : SType) : bool :=
  match t with
  | SUnsignedBigInt | SOption _ | SHeader => false
  | SColl elem_tpe => check_v6_type elem_tpe
  | STuple items => forallb check_v6_type items
  | _ => true
  end.

(** Induction with the hypothesis for every component. *)
Lemma SType_ind' (P : SType -> Prop) :
  (forall v, P (SVar v)) -> (forall t, is_prim t = true -> P t) -> P SNoType ->
  (forall t, P t -> P (SOption t)) -> (forall t, P t -> P (SColl t)) ->
  (forall items, Forall P items -> P (STuple items)) ->
  (forall t_dom t_range tpe_params, Forall P t_dom -> P t_range -> P (SFunc t_dom t_range tpe_params)) ->
  forall t, P t.
Proof.
  intros Hv Hp Hn Ho Hc Ht Hf. fix IH 1. intros [v| | | | | | | | | | | | | |t|t|items|t_dom t_range ps| | | | | |];
    try (by apply Hp); [apply Hv|apply Ho, IH|apply Hc, IH|apply Ht|apply Hf; [|apply IH]|exact Hn].
  - induction items as [|x items IHi]; constructor; [apply IH|exact IHi].
  - induction t_dom as [|x l IHi]; constructor; [apply IH|exact IHi].
Qed.

Fixpoint stype_eq_dec (x y : SType) {struct x} : {x = y} + {x <> y}.
Proof.
  refine (
    match x, y with
    | SVar a, SVar b => cast_if (decide (a = b))
    | SOption a, SOption b => cast_if (stype_eq_dec a b)
    | SColl a, SColl b => cast_if (stype_eq_dec a b)
    | STuple l, STuple m => cast_if (@list_eq_dec _ stype_eq_dec l m)
    | SFunc d r p, SFunc d' r' p' =>
        cast_if_and3 (@list_eq_dec _ stype_eq_dec d d') (stype_eq_dec r r') (decide (p = p'))
    | SAny, SAny | SUnit, SUnit | SBoolean, SBoolean | SByte, SByte | SShort, SShort | SInt, SInt
    | SLong, SLong | SBigInt, SBigInt | SGroupElement, SGroupElement | SSigmaProp, SSigmaProp
    | SUnsignedBigInt, SUnsignedBigInt | SBox, SBox | SAvlTree, SAvlTree | SContext, SContext
    | SString, SString | SHeader, SHeader | SPreHeader, SPreHeader | SGlobal, SGlobal
    | SNoType, SNoType => left eq_refl
    | _, _ => right _
    end); abstract congruence.
Defined.
#[export] Instance SType_eq_dec : EqDecision SType := stype_eq_dec.

(** * Substitution *)

(** A [HashMap<STypeVar, SType>]. *)
Abbreviation Subst := (gmap STypeVar SType).

Fixpoint with_subst (subst : Subst) (t : SType) : SType :=
  match t with
  | SVar tpe_var => default t (subst !! tpe_var)
  | SOption tpe => SOption (with_subst subst tpe)
  | SColl tpe => SColl (with_subst subst tpe)
  | STuple items => STuple (map (with_subst subst) items)
  | SFunc t_dom t_range tpe_params =>
      let remaining_vars := filter (fun v => subst !! ident v = None) tpe_params in
      SFunc (map (with_subst subst) t_dom) (with_subst subst t_range) remaining_vars
  | _ => t
  end.

(** * Unification *)

Inductive TypeUnificationError : Type := CannotUnify (t1 t2 : SType) | CannotMerge (v : STypeVar).

(** [zip] and [map] into a result, up to the shorter list and to the first error. *)
Section zip_res.
Context {A B R E : Type} (f : A -> B -> result E R).
Fixpoint zip_res (l : list A) (k : list B) : result E (list R) :=
  match l, k with
  | x :: l, y :: k => z ← f x y; zs ← zip_res l k; Ok (z :: zs)
  | _, _ => Ok []
  end.
End zip_res.

(** The entries of one substitution put into [res]. *)
Fixpoint insert_entries (res : Subst) (entries : list (STypeVar * SType)) : result TypeUnificationError Subst :=
  match entries with
  | [] => Ok res
  | (type_var, tpe) :: entries =>
      match res !! type_var with
      | Some previous_val =>
          if negb (bool_decide (previous_val = tpe)) then Err (CannotMerge type_var)
          else insert_entries (<[type_var := tpe]> res) entries
      | None => insert_entries (<[type_var := tpe]> res) entries
      end
  end.

Fixpoint merge_substitutions (res : Subst) (list_of_substitutions : list Subst) : result TypeUnificationError Subst :=
  match list_of_substitutions with
  | [] => Ok res
  | substitutions :: rest =>
      res ← insert_entries res (map_to_list substitutions);
      merge_substitutions res rest
  end.

(** Two functions of one number of parameters unify as the lists of the parameters and the result. *)
Fixpoint unify_one (t1 t2 : SType) {struct t1} : result TypeUnificationError Subst :=
  match t1, t2 with
  | SVar tv1, SVar tv2 => if bool_decide (tv1 = tv2) then Ok ∅ else Err (CannotUnify t1 t2)
  | SVar id1, t2 => Ok {[id1 := t2]}
  | SColl elem_type1, SColl elem_type2 => unify_one elem_type1 elem_type2
  | SColl elem_type1, STuple _ => unify_one elem_type1 SAny
  | STuple items1, STuple items2 =>
      if (length items1 =? length items2)%nat then
        substitutions ← zip_res unify_one items1 items2;
        merge_substitutions ∅ substitutions
      else Err (CannotUnify t1 t2)
  | SOption elem_type1, SOption elem_type2 => unify_one elem_type1 elem_type2
  | SFunc t_dom1 t_range1 _, SFunc t_dom2 t_range2 _ =>
      if (length t_dom1 =? length t_dom2)%nat then
        substitutions ← zip_res unify_one t_dom1 t_dom2;
        last ← unify_one t_range1 t_range2;
        merge_substitutions ∅ (substitutions ++ [last])
      else Err (CannotUnify t1 t2)
  | SAny, _ => Ok ∅
  | SBoolean, SSigmaProp => Ok ∅
  | t1, t2 => if is_prim t1 && is_prim t2 && bool_decide (t1 = t2) then Ok ∅ else Err (CannotUnify t1 t2)
  end.

Definition unify_many (items1 items2 : list SType) : result TypeUnificationError Subst :=
  list_of_substitutions ← zip_res unify_one items1 items2;
  merge_substitutions ∅ list_of_substitutions.

(** * Merging substitutions *)

Lemma insert_entries_Ok entries : forall res r,
  insert_entries res entries = Ok r ->
  res ⊆ r /\ (forall v t, (v, t) ∈ entries -> r !! v = Some t) /\
  forall v t, r !! v = Some t -> res !! v = Some t \/ (v, t) ∈ entries.
Proof.
  induction entries as [|[v t] entries IH]; intros res r H; cbn [insert_entries] in H.
  - injection H as <-. split; [done|]. split; [by intros v t ?%not_elem_of_nil|]. by left.
  - assert (insert_entries (<[v:=t]> res) entries = Ok r /\ (res !! v = Some t \/ res !! v = None)) as [H' Hv].
    { destruct (res !! v) as [p|]; [|by split; [|right]]. case_bool_decide; [|done]. subst. by split; [|left]. }
    apply IH in H' as (Hs & Hin & Hr).
    assert (r !! v = Some t) as Hrv by (eapply lookup_weaken; [|exact Hs]; apply lookup_insert_eq).
    split_and!.
    + apply map_subseteq_spec. intros w u Hw. destruct (decide (v = w)) as [->|Hne]; [destruct Hv as [E|E]; rewrite E in Hw; [by injection Hw as <-|done]|].
      eapply lookup_weaken; [|exact Hs]. by rewrite lookup_insert_ne.
    + intros w u [[= -> ->]|Hw]%elem_of_cons; [done|by apply Hin].
    + intros w u Hw. destruct (Hr w u Hw) as [Hi|Hi]; [|right; by right].
      destruct (decide (v = w)) as [->|Hne]; [rewrite lookup_insert_eq in Hi; injection Hi as ->; right; by left|].
      rewrite lookup_insert_ne in Hi by done. by left.
Qed.

Lemma insert_entries_bound (m : Subst) entries : forall res,
  res ⊆ m -> (forall v t, (v, t) ∈ entries -> m !! v = Some t) ->
  exists r, insert_entries res entries = Ok r /\ r ⊆ m.
Proof.
  induction entries as [|[v t] entries IH]; intros res Hres He; [by exists res|]. cbn [insert_entries].
  assert (m !! v = Some t) as Hv by (apply He; by left).
  assert (exists r, insert_entries (<[v:=t]> res) entries = Ok r /\ r ⊆ m) as (r & E & Hr).
  { apply IH; [by apply insert_subseteq_l|]. intros w u Hw. apply He. by right. }
  exists r. split; [|done]. destruct (res !! v) as [p|] eqn:Ep; [|done].
  assert (p = t) as -> by (pose proof (lookup_weaken _ _ _ _ Ep Hres); congruence).
  by rewrite bool_decide_eq_true_2.
Qed.

Lemma merge_Ok ss : forall res r,
  merge_substitutions res ss = Ok r ->
  res ⊆ r /\ Forall (fun s => s ⊆ r) ss /\
  forall v t, r !! v = Some t -> res !! v = Some t \/ exists s, s ∈ ss /\ s !! v = Some t.
Proof.
  induction ss as [|s ss IH]; intros res r H; cbn [merge_substitutions] in H.
  - injection H as <-. split_and!; [done|constructor|by left].
  - apply bind_Ok_inv in H as (r1 & H1 & H). apply insert_entries_Ok in H1 as (Hs1 & Hin1 & Hr1).
    apply IH in H as (Hs & Hall & Hr). split_and!; [by etrans|constructor; [|done]|].
    + apply map_subseteq_spec. intros v t Hv. eapply lookup_weaken; [|exact Hs]. apply Hin1. by apply elem_of_map_to_list.
    + intros v t Hv. destruct (Hr v t Hv) as [Hi|(s' & Hs' & Hi)]; [|right; exists s'; split; [by right|done]].
      destruct (Hr1 v t Hi) as [?|Hi']; [by left|right; exists s; split; [by left|]]. by apply elem_of_map_to_list.
Qed.

Lemma merge_bound (m : Subst) ss : forall res,
  res ⊆ m -> Forall (fun s => s ⊆ m) ss -> exists r, merge_substitutions res ss = Ok r /\ r ⊆ m.
Proof.
  induction ss as [|s ss IH]; intros res Hres Hall; [by exists res|]. apply Forall_cons in Hall as [Hs Hall].
  cbn [merge_substitutions].
  destruct (insert_entries_bound m (map_to_list s) res Hres) as (r1 & -> & Hr1).
  { intros v t Hv%elem_of_map_to_list. by eapply lookup_weaken. }
  cbn [mbind result_bind]. by apply IH.
Qed.

Lemma zip_res_Forall2 {A B R E} (f : A -> B -> result E R) l k zs :
  length l = length k -> zip_res f l k = Ok zs <-> Forall3 (fun x y z => f x y = Ok z) l k zs.
Proof.
  revert k zs. induction l as [|x l IH]; intros [|y k] zs Hl; try done; cbn [zip_res].
  - split; [by intros [= <-]; constructor|]. by inversion 1.
  - injection Hl as Hl. split.
    + intros H. apply bind_Ok_inv in H as (z & Hz & H). apply bind_Ok_inv in H as (zs' & Hzs & [= <-]).
      constructor; [done|]. by apply IH.
    + inversion 1 as [|?????? Hz Hzs]; subst. rewrite Hz. cbn [mbind result_bind]. apply IH in Hzs; [|done]. by rewrite Hzs.
Qed.

(** * Unification with a type that has no variables *)

(** A type without type variables and without [NoType]. *)
Fixpoint concrete (t : SType) : bool :=
  match t with
  | SVar _ | SNoType => false
  | SOption t | SColl t => concrete t
  | STuple items => forallb concrete items
  | SFunc t_dom t_range _ => forallb concrete t_dom && concrete t_range
  | _ => true
  end.

Lemma forallb_concrete l : forallb concrete l = true <-> Forall (fun t => concrete t = true) l.
Proof. rewrite forallb_forall, Forall_forall. by setoid_rewrite list_elem_of_In. Qed.

Lemma merge_empty ss : Forall (fun s => s = ∅) ss -> merge_substitutions ∅ ss = Ok ∅.
Proof.
  induction 1 as [|s ss -> _ IH]; [done|]. cbn [merge_substitutions]. rewrite map_to_list_empty. exact IH.
Qed.

Lemma unify_prim t1 t2 s : is_prim t1 = true -> unify_one t1 t2 = Ok s -> s = ∅.
Proof.
  intros Hp H. destruct t1; try discriminate Hp; destruct t2; cbn [unify_one is_prim andb] in H; try congruence;
    destruct (bool_decide _); congruence.
Qed.

Lemma unify_prim_refl t : is_prim t = true -> unify_one t t = Ok ∅.
Proof. by destruct t. Qed.

Lemma with_subst_prim s t : is_prim t = true -> with_subst s t = t.
Proof. by destruct t. Qed.

Lemma zip_res_same {E} (f : SType -> SType -> result E Subst) l :
  Forall (fun t => f t t = Ok ∅) l -> exists es, zip_res f l l = Ok es /\ Forall (fun s => s = ∅) es.
Proof.
  induction 1 as [|t l Ht _ (es & IH & Hes)]; [by exists []; split; [|constructor]|]. exists (∅ :: es). cbn [zip_res].
  rewrite Ht. cbn [mbind result_bind]. rewrite IH. split; [done|]. by constructor.
Qed.

Lemma unify_refl t : concrete t = true -> unify_one t t = Ok ∅.
Proof.
  induction t as [v|t Hp| |t IH|t IH|items IH|t_dom t_range ps IHd IHr] using SType_ind'; intros Hc; try done;
    [by apply unify_prim_refl|by apply IH|by apply IH| |]; cbn [concrete unify_one] in *; rewrite Nat.eqb_refl.
  - apply forallb_concrete in Hc. destruct (zip_res_same unify_one items) as (es & -> & Hes).
    { apply Forall_forall. intros t Ht. rewrite Forall_forall in IH, Hc. by apply IH; [|apply Hc]. }
    by apply merge_empty.
  - apply andb_true_iff in Hc as [Hd Hr]. apply forallb_concrete in Hd.
    destruct (zip_res_same unify_one t_dom) as (es & -> & Hes).
    { apply Forall_forall. intros t Ht. rewrite Forall_forall in IHd, Hd. by apply IHd; [|apply Hd]. }
    cbn [mbind result_bind]. rewrite IHr by done. cbn [mbind result_bind]. apply merge_empty, Forall_app.
    split; [done|]. by constructor.
Qed.

Lemma all_below (s s' : Subst) ss : Forall (fun u => u ⊆ s) ss -> s ⊆ s' -> Forall (fun u => u ⊆ s') ss.
Proof. intros H Hs. eapply Forall_impl; [exact H|]. cbn beta. intros u Hu. exact (transitivity Hu Hs). Qed.

(** ** The substitution found makes the types unify *)

Definition unifies_under (s' : Subst) (t1 : SType) : Prop :=
  forall t2 s, concrete t2 = true -> unify_one t1 t2 = Ok s -> s ⊆ s' -> unify_one (with_subst s' t1) t2 = Ok ∅.

Lemma zip_unifies s' l : Forall (unifies_under s') l -> forall k ss,
  Forall (fun t => concrete t = true) k -> zip_res unify_one l k = Ok ss -> Forall (fun s => s ⊆ s') ss ->
  exists es, zip_res unify_one (map (with_subst s') l) k = Ok es /\ Forall (fun s => s = ∅) es.
Proof.
  induction 1 as [|t l Ht _ IH]; intros k ss Hk Hz Hs; [by exists []; split; [|constructor]|].
  destruct k as [|u k]; [by exists []; split; [|constructor]|]. cbn [zip_res map] in *.
  apply bind_Ok_inv in Hz as (s1 & H1 & Hz). apply bind_Ok_inv in Hz as (ss1 & Hz & [= <-]).
  apply Forall_cons in Hk as [Hu Hk]. apply Forall_cons in Hs as [Hs1 Hs].
  destruct (IH k ss1 Hk Hz Hs) as (es & E & Hes). exists (∅ :: es). rewrite (Ht u s1) by done. cbn [mbind result_bind].
  rewrite E. split; [done|]. by constructor.
Qed.

Lemma unify_under s' t1 : unifies_under s' t1.
Proof.
  induction t1 as [v|t Hp| |t IH|t IH|items IH|t_dom t_range ps IHd IHr] using SType_ind'; intros t2 s Hc H Hs.
  - assert (s = {[v := t2]}) as -> by (destruct t2; try discriminate Hc; by injection H).
    cbn [with_subst]. assert (s' !! v = Some t2) as -> by (eapply lookup_weaken; [apply lookup_singleton_eq|done]).
    by apply unify_refl.
  - rewrite with_subst_prim by done. by rewrite <- (unify_prim _ _ _ Hp H).
  - destruct t2; done.
  - destruct t2; try done. cbn in *. by eapply IH.
  - destruct t2; try done; cbn in *; by eapply IH.
  - destruct t2 as [| | | | | | | | | | | | | | | |items2| | | | | | |]; try done. cbn [unify_one with_subst concrete] in *.
    rewrite length_map. destruct (length items =? length items2)%nat; [|done]. apply forallb_concrete in Hc.
    apply bind_Ok_inv in H as (ss & Hz & H). apply merge_Ok in H as (_ & Hss & _).
    destruct (zip_unifies s' items IH items2 ss Hc Hz) as (es & -> & Hes).
    { by eapply all_below. }
    by apply merge_empty.
  - destruct t2 as [| | | | | | | | | | | | | | | | |t_dom2 t_range2 ps2| | | | | |]; try done. cbn [unify_one with_subst concrete] in *.
    rewrite length_map. destruct (length t_dom =? length t_dom2)%nat; [|done].
    apply andb_true_iff in Hc as [Hd Hr]. apply forallb_concrete in Hd.
    apply bind_Ok_inv in H as (ss & Hz & H). apply bind_Ok_inv in H as (sr & Hzr & H).
    apply merge_Ok in H as (_ & Hss & _). apply Forall_app in Hss as [Hss Hsr]. apply Forall_cons in Hsr as [Hsr _].
    destruct (zip_unifies s' t_dom IHd t_dom2 ss Hd Hz) as (es & -> & Hes).
    { by eapply all_below. }
    cbn [mbind result_bind]. rewrite (IHr t_range2 sr) by (done || by etrans). cbn [mbind result_bind].
    apply merge_empty, Forall_app. split; [done|]. by constructor.
Qed.

(** When a list of types unifies with one of concrete types, the substitution found, applied to the first list,
    makes it unify with the second without one; so it does for two types. *)
Theorem unify_sound (items1 items2 : list SType) (t1 t2 : SType) (s u : Subst) :
  forallb concrete items2 = true -> unify_many items1 items2 = Ok s ->
  concrete t2 = true -> unify_one t1 t2 = Ok u ->
  unify_many (map (with_subst s) items1) items2 = Ok ∅ /\ unify_one (with_subst u t1) t2 = Ok ∅.
Proof.
  intros Hc H Hc2 Hu. split; [|by eapply unify_under]. apply forallb_concrete in Hc. unfold unify_many in *.
  apply bind_Ok_inv in H as (ss & Hz & H). apply merge_Ok in H as (_ & Hss & _).
  destruct (zip_unifies s items1) with (k := items2) (ss := ss) as (es & -> & Hes); [|done..|by apply merge_empty].
  apply Forall_forall. intros t _. apply unify_under.
Qed.

(** ** A substitution that makes them equal is found *)

Definition found_below (s : Subst) (t : SType) : Prop :=
  concrete (with_subst s t) = true -> exists u, unify_one t (with_subst s t) = Ok u /\ u ⊆ s.

Lemma zip_found s l : Forall (found_below s) l -> Forall (fun t => concrete t = true) (map (with_subst s) l) ->
  exists us, zip_res unify_one l (map (with_subst s) l) = Ok us /\ Forall (fun u => u ⊆ s) us.
Proof.
  induction 1 as [|t l Ht _ IH]; intros Hc; [by exists []; split; [|constructor]|]. cbn [map zip_res] in *.
  apply Forall_cons in Hc as [Hct Hc]. destruct (Ht Hct) as (u & -> & Hu). destruct (IH Hc) as (us & -> & Hus).
  exists (u :: us). split; [done|]. by constructor.
Qed.

Lemma unify_found s t : found_below s t.
Proof.
  induction t as [v|t Hp| |t IH|t IH|items IH|t_dom t_range ps IHd IHr] using SType_ind'; intros Hc; cbn [with_subst] in *.
  - destruct (s !! v) as [t|] eqn:E; [|done]. exists {[v := t]}. cbn in *.
    split; [by destruct t|]. by apply map_singleton_subseteq_l.
  - rewrite with_subst_prim by done. exists ∅. split; [by apply unify_prim_refl|apply map_empty_subseteq].
  - done.
  - by apply IH.
  - by apply IH.
  - cbn [unify_one concrete] in *. rewrite length_map, Nat.eqb_refl. apply forallb_concrete in Hc.
    destruct (zip_found s items IH Hc) as (us & -> & Hus). by apply merge_bound; [apply map_empty_subseteq|].
  - cbn [unify_one concrete] in *. rewrite length_map, Nat.eqb_refl. apply andb_true_iff in Hc as [Hd Hr].
    apply forallb_concrete in Hd. destruct (zip_found s t_dom IHd Hd) as (us & -> & Hus). cbn [mbind result_bind].
    destruct (IHr Hr) as (u & -> & Hu). cbn [mbind result_bind].
    apply merge_bound; [apply map_empty_subseteq|]. apply Forall_app. split; [done|]. by constructor.
Qed.

(** Whenever some substitution turns types into concrete ones, unification finds one, and one that
    substitutes nothing but what that one does. *)
Theorem unify_most_general (s : Subst) (items : list SType) :
  forallb concrete (map (with_subst s) items) = true ->
  exists u, unify_many items (map (with_subst s) items) = Ok u /\ u ⊆ s.
Proof.
  intros Hc. apply forallb_concrete in Hc. unfold unify_many. destruct (zip_found s items) as (us & -> & Hus); [|done|].
  - apply Forall_forall. intros t _. apply unify_found.
  - cbn [mbind result_bind]. by apply merge_bound; [apply map_empty_subseteq|].
Qed.

(** With type variables on both sides the substitution need not make the types unify. *)
Theorem unify_variables_differ :
  let a := SVar (mkTypeVar [65]) in
  let t1 := STuple [a; a] in
  let t2 := STuple [a; SInt] in
  exists s, unify_one t1 t2 = Ok s /\ unify_one (with_subst s t1) t2 = Err (CannotUnify SInt a).
Proof. eexists. split; [vm_compute; reflexivity|]. vm_compute. reflexivity. Qed.

(** * Concrete inputs *)

Definition var_T : STypeVar := mkTypeVar [84].

Lemma unify_sound_witness :
  exists s u, unify_many [SColl (SVar var_T); SVar var_T] [SColl SInt; SInt] = Ok s /\
    unify_one (SOption (SVar var_T)) (SOption SBox) = Ok u /\
    unify_many (map (with_subst s) [SColl (SVar var_T); SVar var_T]) [SColl SInt; SInt] = Ok ∅ /\
    unify_one (with_subst u (SOption (SVar var_T))) (SOption SBox) = Ok ∅.
Proof.
  exists {[var_T := SInt]}, {[var_T := SBox]}. split; [vm_compute; reflexivity|]. split; [vm_compute; reflexivity|].
  apply unify_sound; vm_compute; reflexivity.
Defined.

Lemma unify_most_general_witness :
  exists u, unify_many [SFunc [SVar var_T] (SVar var_T) []] [SFunc [SInt] SInt []] = Ok u /\ u ⊆ {[var_T := SInt]}.
Proof.
  assert (map (with_subst {[var_T := SInt]}) [SFunc [SVar var_T] (SVar var_T) []] = [SFunc [SInt] SInt []]) as E
    by (vm_compute; reflexivity).
  pose proof (unify_most_general {[var_T := SInt]} [SFunc [SVar var_T] (SVar var_T) []]) as H. rewrite E in H.
  apply H. reflexivity.
Defined.
