(* ===== verification/TypeSerial.v ===== *)
(** Serialization of types (src/ergotree-ir/src/serialization/types.rs and the names of
    src/ergotree-ir/src/types/stype_param.rs): the type codes, writing a type in its shortest form,
    parsing it with the limit on its nesting, and the UTF-8 names of type variables. The costs the
    writer adds up are left out. *)

From S2P Require Import Prelude Vlq Codecs SigmaSerial Types.
#[local] Open Scope Z_scope.

(** * Type codes *)

Inductive TypeCode : Type :=
| SBOOLEAN | SBYTE | SSHORT | SINT | SLONG | SBIGINT | SGROUP_ELEMENT | SSIGMAPROP | SUNSIGNEDBIGINT
| COLL | NESTED_COLL | OPTION | OPTION_COLL | TUPLE_PAIR1 | TUPLE_PAIR2 | TUPLE_PAIR_SYMMETRIC | TUPLE
| SANY | SUNIT | SBOX | SAVL_TREE | SCONTEXT | SSTRING | STYPE_VAR | SHEADER | SPRE_HEADER | SGLOBAL | SFUNC.

#[export] Instance TypeCode_eq_dec : EqDecision TypeCode.
Proof. solve_decision. Defined.

Definition MAX_PRIM_TYPECODE : Z := 11.
Definition TUPLE_TYPECODE : Z := (MAX_PRIM_TYPECODE + 1) * 8.

Definition value (c : TypeCode) : Z :=
  match c with
  | SBOOLEAN => 1 | SBYTE => 2 | SSHORT => 3 | SINT => 4 | SLONG => 5 | SBIGINT => 6 | SGROUP_ELEMENT => 7
  | SSIGMAPROP => 8 | SUNSIGNEDBIGINT => 9
  | COLL => 12 | NESTED_COLL => 24 | OPTION => 36 | OPTION_COLL => 48 | TUPLE_PAIR1 => 60 | TUPLE_PAIR2 => 72
  | TUPLE_PAIR_SYMMETRIC => 84 | TUPLE => 96
  | SANY => 97 | SUNIT => 98 | SBOX => 99 | SAVL_TREE => 100 | SCONTEXT => 101 | SSTRING => 102 | STYPE_VAR => 103
  | SHEADER => 104 | SPRE_HEADER => 105 | SGLOBAL => 106 | SFUNC => 112
  end.

Definition all_type_codes : list TypeCode :=
  [SBOOLEAN; SBYTE; SSHORT; SINT; SLONG; SBIGINT; SGROUP_ELEMENT; SSIGMAPROP; SUNSIGNEDBIGINT; COLL; NESTED_COLL;
   OPTION; OPTION_COLL; TUPLE_PAIR1; TUPLE_PAIR2; TUPLE_PAIR_SYMMETRIC; TUPLE; SANY; SUNIT; SBOX; SAVL_TREE; SCONTEXT;
   SSTRING; STYPE_VAR; SHEADER; SPRE_HEADER; SGLOBAL; SFUNC].

(** The derived [from_u8], and [TypeCode::parse]. *)
Definition type_code_parse (b : Z) : result SigmaParsingError TypeCode :=
  ok_or (find (fun c => value c =? b) all_type_codes) (SpInvalidTypeCode b).

Definition unpack_tag (tag : Z) : result SigmaParsingError (option TypeCode * option TypeCode) :=
  if tag <? TUPLE_TYPECODE then
    let container_id := tag / (MAX_PRIM_TYPECODE + 1) * (MAX_PRIM_TYPECODE + 1) in
    let type_id := tag mod (MAX_PRIM_TYPECODE + 1) in
    container_code ← (if container_id =? 0 then Ok None else Some <$> type_code_parse container_id);
    type_code ← (if type_id =? 0 then Ok None else Some <$> type_code_parse type_id);
    Ok (container_code, type_code)
  else Ok (None, None).

Definition V3 : Z := 3.

Definition get_embeddable_type (tree_version : Z) (c : TypeCode) : result SigmaParsingError SType :=
  match c with
  | SBOOLEAN => Ok SBoolean | SBYTE => Ok SByte | SSHORT => Ok SShort | SINT => Ok SInt | SLONG => Ok SLong
  | SBIGINT => Ok SBigInt | SGROUP_ELEMENT => Ok SGroupElement | SSIGMAPROP => Ok SSigmaProp
  | SUNSIGNEDBIGINT => if V3 <=? tree_version then Ok SUnsignedBigInt else Err (SpInvalidTypeCode (value c))
  | _ => Err (SpInvalidTypeCode (value c))
  end.

Definition from_primitive_type (stype : SType) : option TypeCode :=
  match stype with
  | SNoType => None
  | SAny => Some SANY | SUnit => Some SUNIT | SBoolean => Some SBOOLEAN | SByte => Some SBYTE | SShort => Some SSHORT
  | SInt => Some SINT | SLong => Some SLONG | SBigInt => Some SBIGINT | SGroupElement => Some SGROUP_ELEMENT
  | SSigmaProp => Some SSIGMAPROP | SUnsignedBigInt => Some SUNSIGNEDBIGINT | SBox => Some SBOX
  | SAvlTree => Some SAVL_TREE | SContext => Some SCONTEXT | SString => Some SSTRING | SHeader => Some SHEADER
  | SPreHeader => Some SPRE_HEADER | SGlobal => Some SGLOBAL
  | SVar _ | SOption _ | SColl _ | STuple _ | SFunc _ _ _ => None
  end.

(** * Names of type variables *)

(** [core::str::from_utf8(seq).is_ok()] *)
Definition in_range (lo hi b : Z) : bool := (lo <=? b) && (b <=? hi).
Definition is_continuation (b : Z) : bool := in_range 128 191 b.

Definition second_of_three (b b1 : Z) : bool :=
  if b =? 224 then in_range 160 191 b1 else if b =? 237 then in_range 128 159 b1 else is_continuation b1.
Definition second_of_four (b b1 : Z) : bool :=
  if b =? 240 then in_range 144 191 b1 else if b =? 244 then in_range 128 143 b1 else is_continuation b1.

Fixpoint from_utf8_is_ok (seq : list Z) : bool :=
  match seq with
  | [] => true
  | b :: seq =>
      if b <? 128 then from_utf8_is_ok seq
      else if in_range 194 223 b then
        match seq with b1 :: seq => is_continuation b1 && from_utf8_is_ok seq | _ => false end
      else if in_range 224 239 b then
        match seq with
        | b1 :: b2 :: seq => second_of_three b b1 && is_continuation b2 && from_utf8_is_ok seq
        | _ => false
        end
      else if in_range 240 244 b then
        match seq with
        | b1 :: b2 :: b3 :: seq => second_of_four b b1 && is_continuation b2 && is_continuation b3 && from_utf8_is_ok seq
        | _ => false
        end
      else false
  end.

Definition REPLACEMENT : list Z := [239; 191; 189].

(** The length a lead byte asks for; 0 for a byte that is no lead. *)
Definition expected_length (b : Z) : nat :=
  if in_range 194 223 b then 2 else if in_range 224 239 b then 3 else if in_range 240 244 b then 4 else 0.

(** The continuation bytes at the start, at most [n]. *)
Fixpoint take_continuations (n : nat) (l : list Z) : list Z :=
  match n, l with
  | S n, b :: l => if is_continuation b then b :: take_continuations n l else []
  | _, _ => []
  end.

(** The loop of [jvm_lossy_utf8] over the bytes from position [i]. *)
Fixpoint jvm_lossy_loop (fuel : nat) (bytes : list Z) : list Z :=
  match fuel, bytes with
  | S fuel, b :: rest =>
      if b <? 128 then b :: jvm_lossy_loop fuel rest
      else
        let expected := expected_length b in
        if (expected =? 0)%nat then REPLACEMENT ++ jvm_lossy_loop fuel rest
        else
          let conts := take_continuations (expected - 1) rest in
          let seq := b :: conts in
          (if (length seq =? expected)%nat && from_utf8_is_ok seq then seq else REPLACEMENT) ++
          jvm_lossy_loop fuel (drop (length conts) rest)
  | _, _ => []
  end.

Definition jvm_lossy_utf8 (bytes : list Z) : list Z := jvm_lossy_loop (length bytes) bytes.
Definition new_from_bytes (bytes : list Z) : STypeVar := mkTypeVar (jvm_lossy_utf8 bytes).

Definition type_var_serialize (v : STypeVar) : list Z :=
  put_u8 (wrap_u 8 (Z.of_nat (length (name_bytes v)))) ++ name_bytes v.

Definition type_var_parse : stateE reader SigmaParsingError STypeVar :=
  name_len ← map_st_err sigma_io_error get_u8;
  bytes ← map_st_err sigma_io_error (get_bytes_into (Z.to_nat name_len));
  mret (new_from_bytes bytes).

(** * Writing a type *)

(** The types with a code below 12, which go into the code of what contains them. *)
Definition embeddable (t : SType) : option Z :=
  match t with
  | SBoolean | SByte | SShort | SInt | SLong | SBigInt | SGroupElement | SSigmaProp | SUnsignedBigInt =>
      value <$> from_primitive_type t
  | _ => None
  end.

Definition is_no_type (t : SType) : bool := match t with SNoType => true | _ => false end.

Section serialize.
Context (tree_version : Z).

Fixpoint stype_serialize (t : SType) : result SigmaSerializationError (list Z) :=
  match t with
  | SOption elem_type =>
      match embeddable elem_type with
      | Some code => Ok [value OPTION + code]
      | None =>
          let generic := bytes ← stype_serialize elem_type; Ok (value OPTION :: bytes) in
          match elem_type with
          | SColl inner_elem_type =>
              match embeddable inner_elem_type with
              | Some code => Ok [value OPTION_COLL + code]
              | None => if is_no_type inner_elem_type then Err SerNotSupported else generic
              end
          | SNoType => Err SerNotSupported
          | _ => generic
          end
      end
  | SColl elem_type =>
      match embeddable elem_type with
      | Some code => Ok [value COLL + code]
      | None =>
          let generic := bytes ← stype_serialize elem_type; Ok (value COLL :: bytes) in
          match elem_type with
          | SColl inner_elem_type =>
              match embeddable inner_elem_type with
              | Some code => Ok [value NESTED_COLL + code]
              | None => if is_no_type inner_elem_type then Err SerNotSupported else generic
              end
          | SNoType => Err SerNotSupported
          | _ => generic
          end
      end
  | STuple items =>
      match items with
      | [t1; t2] =>
          match embeddable t1, embeddable t2 with
          | Some code, _ =>
              if bool_decide (t1 = t2) then Ok [value TUPLE_PAIR_SYMMETRIC + code]
              else b2 ← stype_serialize t2; Ok (value TUPLE_PAIR1 + code :: b2)
          | None, Some code => b1 ← stype_serialize t1; Ok (value TUPLE_PAIR2 + code :: b1)
          | None, None =>
              if is_no_type t1 || is_no_type t2 then Err SerNotSupported
              else
                b1 ← stype_serialize t1;
                b2 ← stype_serialize t2;
                Ok (value TUPLE_PAIR1 :: b1 ++ b2)
          end
      | [t1; t2; t3] =>
          bs ← mapM_res stype_serialize items; Ok (value TUPLE_PAIR2 :: concat bs)
      | [t1; t2; t3; t4] =>
          bs ← mapM_res stype_serialize items; Ok (value TUPLE_PAIR_SYMMETRIC :: concat bs)
      | _ =>
          bs ← mapM_res stype_serialize items;
          Ok (value TUPLE :: put_u8 (wrap_u 8 (Z.of_nat (length items))) ++ concat bs)
      end
  | SVar tv => Ok (value STYPE_VAR :: type_var_serialize tv)
  | SFunc t_dom t_range tpe_params =>
      if V3 <=? tree_version then
        _ ← guard_or (length t_dom <=? 255)%nat SerNotSupported;
        doms ← mapM_res stype_serialize t_dom;
        range ← stype_serialize t_range;
        _ ← guard_or (length tpe_params <=? 255)%nat SerNotSupported;
        Ok (value SFUNC :: put_u8 (Z.of_nat (length t_dom)) ++ concat doms ++ range ++
            put_u8 (Z.of_nat (length tpe_params)) ++
            concat (map (fun tpe_param => value STYPE_VAR :: type_var_serialize (ident tpe_param)) tpe_params))
      else Err SerNotSupported
  | SNoType => Err SerNotSupported
  | prim => match from_primitive_type prim with Some c => Ok [value c] | None => Err SerPanic end
  end.
End serialize.

(** * Parsing a type *)

Definition MAX_TYPE_DEPTH : nat := 8.

Section parse.
Context (tree_version : Z).

Definition stuple_try_from (items : list SType) : result SigmaParsingError SType :=
  if (2 <=? length items)%nat && (length items <=? 255)%nat then Ok (STuple items)
  else Err (SpBoundedVecOutOfBounds (length items)).

Definition type_param (tpe : SType) : result SigmaParsingError STypeParam :=
  match tpe with SVar typevar => Ok (mkTypeParam typevar) | _ => Err SpInvalidTypeParameter end.

(** [parse_with_tag_at_depth], with [nested] the parser of types one level deeper. *)
Definition parse_tag (nested : stateE reader SigmaParsingError SType) (c : Z) : stateE reader SigmaParsingError SType :=
  if c =? 0 then fail SpInvalidTypePrefix
  else if c <? TUPLE_TYPECODE then
    unpacked ← liftE (unpack_tag c);
    let '(container, embeddable) := unpacked in
    let stype := match embeddable with Some e => liftE (get_embeddable_type tree_version e) | None => nested end in
    match container with
    | None => match embeddable with Some e => liftE (get_embeddable_type tree_version e) | None => fail (SpInvalidTypeCode c) end
    | Some COLL => t ← stype; mret (SColl t)
    | Some NESTED_COLL => t ← stype; mret (SColl (SColl t))
    | Some OPTION => t ← stype; mret (SOption t)
    | Some OPTION_COLL => t ← stype; mret (SOption (SColl t))
    | Some TUPLE_PAIR1 => t1 ← stype; t2 ← nested; mret (STuple [t1; t2])
    | Some TUPLE_PAIR2 =>
        match embeddable with
        | None => t1 ← stype; t2 ← nested; t3 ← nested; mret (STuple [t1; t2; t3])
        | Some _ => t2 ← stype; t1 ← nested; mret (STuple [t1; t2])
        end
    | Some TUPLE_PAIR_SYMMETRIC =>
        match embeddable with
        | None => t1 ← stype; t2 ← nested; t3 ← nested; t4 ← nested; mret (STuple [t1; t2; t3; t4])
        | Some _ => t ← stype; mret (STuple [t; t])
        end
    | Some _ => fail SpPanic
    end
  else
    code ← liftE (type_code_parse c);
    match code with
    | TUPLE =>
        len ← map_st_err sigma_io_error get_u8;
        items ← get_list nested (Z.to_nat len);
        liftE (stuple_try_from items)
    | SANY => mret SAny
    | SUNIT => mret SUnit
    | SBOX => mret SBox
    | SAVL_TREE => mret SAvlTree
    | SCONTEXT => mret SContext
    | SSTRING => mret SString
    | STYPE_VAR => SVar <$> type_var_parse
    | SHEADER => mret SHeader
    | SPRE_HEADER => mret SPreHeader
    | SGLOBAL => mret SGlobal
    | SFUNC =>
        if V3 <=? tree_version then
          t_dom_len ← map_st_err sigma_io_error get_u8;
          t_dom ← get_list nested (Z.to_nat t_dom_len);
          t_range ← nested;
          tpe_params_len ← map_st_err sigma_io_error get_u8;
          tpe_params ← get_list (tpe ← nested; liftE (type_param tpe)) (Z.to_nat tpe_params_len);
          mret (SFunc t_dom t_range tpe_params)
        else fail (SpInvalidTypeCode c)
    | _ => fail SpPanic
    end.

Fixpoint parse_at_depth (fuel depth : nat) : stateE reader SigmaParsingError SType :=
  if (MAX_TYPE_DEPTH <? depth)%nat then fail (SpTypeDepthExceeded depth)
  else
    c ← map_st_err sigma_io_error get_u8;
    match fuel with
    | O => fail SpOutOfFuel
    | S fuel => parse_tag (parse_at_depth fuel (S depth)) c
    end.

Definition stype_parse : stateE reader SigmaParsingError SType := parse_at_depth (S MAX_TYPE_DEPTH) 0.
Definition parse_with_tag (c : Z) : stateE reader SigmaParsingError SType :=
  parse_tag (parse_at_depth MAX_TYPE_DEPTH 1) c.
End parse.

(** * Names *)

Lemma from_utf8_app n : forall a b, (length a <= n)%nat ->
  from_utf8_is_ok a = true -> from_utf8_is_ok (a ++ b) = from_utf8_is_ok b.
Proof.
  induction n as [|n IH]; intros a b Hn H; (destruct a as [|x a]; [done|]; cbn [length] in Hn); [lia|].
  cbn [app from_utf8_is_ok] in *. destruct (x <? 128); [apply IH; [lia|done]|].
  destruct (in_range 194 223 x).
  { destruct a as [|b1 a]; [done|]. cbn [app length] in *. apply andb_true_iff in H as [-> H]. apply IH; [lia|done]. }
  destruct (in_range 224 239 x).
  { destruct a as [|b1 [|b2 a]]; try done. cbn [app length] in *. apply andb_true_iff in H as [-> H]. apply IH; [lia|done]. }
  destruct (in_range 240 244 x); [|done].
  destruct a as [|b1 [|b2 [|b3 a]]]; try done. cbn [app length] in *. apply andb_true_iff in H as [-> H]. apply IH; [lia|done].
Qed.

Lemma utf8_chunk a b : from_utf8_is_ok a = true -> from_utf8_is_ok b = true -> from_utf8_is_ok (a ++ b) = true.
Proof. intros Ha Hb. by rewrite (from_utf8_app (length a)). Qed.

Lemma jvm_lossy_utf8_ok fuel : forall bytes, from_utf8_is_ok (jvm_lossy_loop fuel bytes) = true.
Proof.
  induction fuel as [|fuel IH]; intros [|b rest]; try done. cbn [jvm_lossy_loop].
  destruct (b <? 128) eqn:E; [cbn [from_utf8_is_ok]; by rewrite E|].
  destruct (expected_length b =? 0)%nat; [by apply utf8_chunk|].
  destruct (_ && _) eqn:Es; apply utf8_chunk; try done. by apply andb_true_iff in Es as [_ ?].
Qed.

Lemma in_range_spec lo hi b : in_range lo hi b = true <-> lo <= b <= hi.
Proof. unfold in_range. lia. Qed.

Lemma second_continues b b1 :
  (second_of_three b b1 = true -> is_continuation b1 = true) /\ (second_of_four b b1 = true -> is_continuation b1 = true).
Proof. unfold second_of_three, second_of_four, is_continuation, in_range. split; repeat case_match; lia. Qed.

Lemma not_in_range lo hi b : b < lo \/ hi < b -> in_range lo hi b = false.
Proof. unfold in_range. lia. Qed.

(** What is already UTF-8 stays as it is. *)
Lemma jvm_lossy_id fuel : forall bytes,
  (length bytes <= fuel)%nat -> from_utf8_is_ok bytes = true -> jvm_lossy_loop fuel bytes = bytes.
Proof.
  induction fuel as [|fuel IH]; intros [|b rest] Hf H; try done; cbn [length] in Hf; [lia|].
  cbn [jvm_lossy_loop]. cbn [from_utf8_is_ok] in H. destruct (b <? 128) eqn:E0; [by rewrite IH by (done || lia)|].
  unfold expected_length. destruct (in_range 194 223 b) eqn:E1.
  { destruct rest as [|b1 rest]; [done|]. apply andb_true_iff in H as [H1 H]. cbn [Nat.eqb Nat.sub take_continuations].
    rewrite H1. cbn [length Nat.eqb andb from_utf8_is_ok drop]. rewrite E0, E1, H1. cbn [andb app length] in *. rewrite ?drop_0.
    by rewrite IH by (done || lia). }
  destruct (in_range 224 239 b) eqn:E2.
  { destruct rest as [|b1 [|b2 rest]]; try done. apply andb_true_iff in H as [H12 H]. apply andb_true_iff in H12 as [H1 H2].
    cbn [Nat.eqb Nat.sub take_continuations]. rewrite (proj1 (second_continues b b1) H1), H2.
    cbn [length Nat.eqb andb from_utf8_is_ok drop]. rewrite E0, E1, E2, H1, H2. cbn [andb app length] in *. rewrite ?drop_0.
    by rewrite IH by (done || lia). }
  destruct (in_range 240 244 b) eqn:E3; [|done].
  destruct rest as [|b1 [|b2 [|b3 rest]]]; try done. apply andb_true_iff in H as [H123 H]. apply andb_true_iff in H123 as [H12 H3].
  apply andb_true_iff in H12 as [H1 H2].
  cbn [Nat.eqb Nat.sub take_continuations]. rewrite (proj2 (second_continues b b1) H1), H2, H3.
  cbn [length Nat.eqb andb from_utf8_is_ok drop]. rewrite E0, E1, E2, E3, H1, H2, H3. cbn [andb app length] in *. rewrite ?drop_0.
  by rewrite IH by (done || lia).
Qed.

Lemma take_continuations_range n l : byte_list l -> byte_list (take_continuations n l).
Proof.
  revert l. induction n as [|n IH]; intros l H; [constructor|]. destruct H as [|b l Hb Hl]; [constructor|].
  cbn [take_continuations]. destruct (is_continuation b); [|constructor]. constructor; [done|]. by apply IH.
Qed.

Lemma jvm_lossy_range fuel : forall bytes, byte_list bytes -> byte_list (jvm_lossy_loop fuel bytes).
Proof.
  assert (byte_list REPLACEMENT) as Hr by (unfold REPLACEMENT, byte_list, in_u; repeat (apply Forall_cons; split; [lia|]); constructor).
  induction fuel as [|fuel IH]; intros [|b rest] H; try (by constructor). apply Forall_cons in H as [Hb H].
  cbn [jvm_lossy_loop]. destruct (b <? 128); [constructor; [done|by apply IH]|].
  destruct (expected_length b =? 0)%nat; [apply Forall_app; split; [done|by apply IH]|].
  apply Forall_app. split; [|apply IH; by apply Forall_drop].
  destruct (_ && _); [|done]. constructor; [done|]. by apply take_continuations_range.
Qed.

(** A name that is read is UTF-8 whatever the bytes, so that its text exists; UTF-8 is left as it is,
    and so reading a name again changes nothing. *)
Theorem lossy_names (bytes : list Z) :
  from_utf8_is_ok (jvm_lossy_utf8 bytes) = true /\
  (if from_utf8_is_ok bytes then jvm_lossy_utf8 bytes = bytes else jvm_lossy_utf8 bytes <> bytes) /\
  jvm_lossy_utf8 (jvm_lossy_utf8 bytes) = jvm_lossy_utf8 bytes.
Proof.
  assert (from_utf8_is_ok (jvm_lossy_utf8 bytes) = true) as H by apply jvm_lossy_utf8_ok.
  split; [done|]. split; [|by apply jvm_lossy_id].
  destruct (from_utf8_is_ok bytes) eqn:E; [by apply jvm_lossy_id|]. intros E'. rewrite E' in H. congruence.
Qed.

(** * The types the format has room for *)

Definition name_wf (v : STypeVar) : bool :=
  (length (name_bytes v) <=? 255)%nat && forallb (in_range 0 255) (name_bytes v) && from_utf8_is_ok (name_bytes v).

Fixpoint type_wf (tree_version : Z) (t : SType) : bool :=
  match t with
  | SVar v => name_wf v
  | SUnsignedBigInt => V3 <=? tree_version
  | SOption t | SColl t => type_wf tree_version t
  | STuple items => (2 <=? length items)%nat && (length items <=? 255)%nat && forallb (type_wf tree_version) items
  | SFunc t_dom t_range tpe_params =>
      (V3 <=? tree_version) && (length t_dom <=? 255)%nat && forallb (type_wf tree_version) t_dom &&
      type_wf tree_version t_range && (length tpe_params <=? 255)%nat && forallb (fun p => name_wf (ident p)) tpe_params
  | SNoType => false
  | _ => true
  end.

(** How deep the types nest in the bytes: what is in the code of its container does not. *)
Fixpoint wire_depth (t : SType) : nat :=
  match t with
  | SOption e | SColl e =>
      match embeddable e, e with
      | Some _, _ => 0
      | None, SColl i => match embeddable i with Some _ => 0 | None => S (wire_depth e) end
      | None, _ => S (wire_depth e)
      end
  | STuple items =>
      match items with
      | [t1; t2] =>
          match embeddable t1, embeddable t2 with
          | Some _, _ => if bool_decide (t1 = t2) then 0 else S (wire_depth t2)
          | None, Some _ => S (wire_depth t1)
          | None, None => S (Nat.max (wire_depth t1) (wire_depth t2))
          end
      | _ => S (max_list_with wire_depth items)
      end
  | SFunc t_dom t_range _ => S (Nat.max (max_list_with wire_depth t_dom) (wire_depth t_range))
  | _ => 0
  end.

Lemma forallb_Forall {A} (f : A -> bool) l : forallb f l = true <-> Forall (fun x => f x = true) l.
Proof. rewrite forallb_forall, Forall_forall. by setoid_rewrite list_elem_of_In. Qed.

Section roundtrip.
Context (tree_version : Z).

Abbreviation serialize := (stype_serialize tree_version).
Abbreviation type_wf := (type_wf tree_version).
Abbreviation parse_at_depth := (parse_at_depth tree_version).
Abbreviation parse_tag := (parse_tag tree_version).

(** What parsing gives where the type's bytes are: the type, or the error for the first type that is too deep. *)
Definition fits (d : nat) (t : SType) : bool := (d + wire_depth t <=? MAX_TYPE_DEPTH)%nat.
Definition parses (t : SType) (l : list Z) : Prop :=
  forall n d r, (n + d = S MAX_TYPE_DEPTH)%nat -> readable (past l r) ->
    parse_at_depth n d (before l r) = if fits d t then Ok (t, past l r) else Err (SpTypeDepthExceeded (S MAX_TYPE_DEPTH)).

(** A type whose bytes are a code and what [parse_tag] reads. *)
Lemma parses_tag t c l :
  (forall n d r, (n + S d = S MAX_TYPE_DEPTH)%nat -> readable (past l r) ->
    parse_tag (parse_at_depth n (S d)) c (before l r) =
      if fits d t then Ok (t, past l r) else Err (SpTypeDepthExceeded (S MAX_TYPE_DEPTH))) ->
  parses t (c :: l).
Proof.
  intros H n d r Hn Hr. destruct n as [|n].
  - replace d with (S MAX_TYPE_DEPTH) by lia. unfold fits.
    destruct (Nat.leb_spec (S MAX_TYPE_DEPTH + wire_depth t) MAX_TYPE_DEPTH); [lia|]. done.
  - cbn [TypeSerial.parse_at_depth]. destruct (Nat.ltb_spec MAX_TYPE_DEPTH d); [lia|].
    unfold mbind, stateE_bind, map_st_err. rewrite before_cons, get_u8_before by readable. cbn [result_map_err].
    rewrite past_before, H by (lia || readable). by rewrite past_app.
Qed.

Lemma nested_Ok t l n d r : parses t l -> (n + S d = S MAX_TYPE_DEPTH)%nat -> readable (past l r) -> forall (A : Type) (k : SType -> A),
  (x ← parse_at_depth n (S d); mret (k x)) (before l r) =
    if fits (S d) t then Ok (k t, past l r) else Err (SpTypeDepthExceeded (S MAX_TYPE_DEPTH)).
Proof. intros H Hn Hr A k. unfold mbind, stateE_bind. rewrite H by done. by destruct (fits (S d) t). Qed.

Lemma fits_S d t k : k = S (wire_depth t) -> fits (S d) t = (d + k <=? MAX_TYPE_DEPTH)%nat.
Proof. intros ->. unfold fits. f_equal. lia. Qed.

(** ** Codes with an embedded type *)

Lemma unpack_embedded e code : embeddable e = Some code -> type_wf e = true ->
  Forall (fun K => exists C, unpack_tag (value K + code) = Ok (Some K, Some C) /\ value K + code <? TUPLE_TYPECODE = true /\
      (value K + code =? 0) = false /\ get_embeddable_type tree_version C = Ok e)
    [COLL; NESTED_COLL; OPTION; OPTION_COLL; TUPLE_PAIR1; TUPLE_PAIR2; TUPLE_PAIR_SYMMETRIC].
Proof.
  intros E Hwf. destruct e; try discriminate E; injection E as <-; repeat constructor; eexists; (split; [vm_compute; reflexivity|]);
    (split; [reflexivity|]); (split; [reflexivity|]); cbn [get_embeddable_type]; try reflexivity.
  all: cbn in Hwf; by rewrite Hwf.
Qed.

Lemma parse_embedded e code nested : embeddable e = Some code -> type_wf e = true ->
  (forall r, parse_tag nested (value COLL + code) r = Ok (SColl e, r)) /\
  (forall r, parse_tag nested (value NESTED_COLL + code) r = Ok (SColl (SColl e), r)) /\
  (forall r, parse_tag nested (value OPTION + code) r = Ok (SOption e, r)) /\
  (forall r, parse_tag nested (value OPTION_COLL + code) r = Ok (SOption (SColl e), r)) /\
  (forall r, parse_tag nested (value TUPLE_PAIR1 + code) r = (t2 ← nested; mret (STuple [e; t2])) r) /\
  (forall r, parse_tag nested (value TUPLE_PAIR2 + code) r = (t1 ← nested; mret (STuple [t1; e])) r) /\
  (forall r, parse_tag nested (value TUPLE_PAIR_SYMMETRIC + code) r = Ok (STuple [e; e], r)).
Proof.
  intros E Hwf. pose proof (unpack_embedded e code E Hwf) as H.
  repeat (apply Forall_cons in H as [?H H]). clear H.
  repeat match goal with H : exists C, _ |- _ => destruct H as (? & ? & ? & ? & ?) end.
  split_and!; intros r; unfold TypeSerial.parse_tag;
    repeat match goal with H : (_ =? 0) = false |- _ => rewrite H; clear H end;
    repeat match goal with H : (_ <? TUPLE_TYPECODE) = true |- _ => rewrite H; clear H end;
    unfold mbind, stateE_bind, liftE, mret, stateE_ret;
    repeat match goal with H : unpack_tag _ = _ |- _ => rewrite H; clear H end;
    repeat match goal with H : get_embeddable_type _ _ = _ |- _ => rewrite H; clear H end; reflexivity.
Qed.

(** ** Types one after another *)

Lemma items_parse n d items bs : (n + S d = S MAX_TYPE_DEPTH)%nat -> Forall2 parses items bs -> forall r,
  readable (past (concat bs) r) ->
  get_list (parse_at_depth n (S d)) (length items) (before (concat bs) r) =
    if forallb (fits (S d)) items then Ok (items, past (concat bs) r) else Err (SpTypeDepthExceeded (S MAX_TYPE_DEPTH)).
Proof.
  intros Hn. induction 1 as [|t b items bs Ht _ IH]; intros r Hr; [cbn; by rewrite before_nil, past_nil|].
  cbn [concat length get_list forallb] in *. unfold mbind, stateE_bind, mret, stateE_ret.
  rewrite before_app, Ht by (done || readable). destruct (fits (S d) t); [|done]. cbn [andb].
  rewrite past_before, IH by (rewrite past_app; readable). destruct (forallb _ items); [|done]. by rewrite past_app.
Qed.

Lemma fits_items d items : items <> [] ->
  forallb (fits (S d)) items = (d + S (max_list_with wire_depth items) <=? MAX_TYPE_DEPTH)%nat.
Proof.
  intros Hne. apply eq_true_iff_eq. rewrite forallb_Forall, Nat.leb_le. unfold fits. split.
  - intros H. enough (max_list_with wire_depth items <= MAX_TYPE_DEPTH - S d)%nat.
    { destruct items as [|t items]; [done|]. apply Forall_cons in H as [H _]. apply Nat.leb_le in H. lia. }
    apply max_list_with_le. eapply Forall_impl; [exact H|]. cbn beta. intros t Ht%Nat.leb_le. lia.
  - intros H. apply Forall_forall. intros t Ht. apply Nat.leb_le. pose proof (elem_max_list_with wire_depth items t Ht). lia.
Qed.

Lemma byte_of n : (n <= 255)%nat -> in_u 8 (Z.of_nat n) /\ wrap_u 8 (Z.of_nat n) = Z.of_nat n.
Proof. intros H. assert (in_u 8 (Z.of_nat n)) by (unfold in_u; lia). split; [done|]. by apply wrap_u_id. Qed.

Lemma value_range c : in_u 8 (value c).
Proof. unfold in_u. destruct c; cbn; lia. Qed.

Lemma embedded_range e code c : embeddable e = Some code -> value c <= 96 -> in_u 8 (value c + code).
Proof. intros E Hc. pose proof (value_range c). unfold in_u in *. destruct e; try discriminate E; injection E as <-; lia. Qed.

(** ** Names *)

Lemma name_wf_spec v : name_wf v = true ->
  (length (name_bytes v) <= 255)%nat /\ byte_list (name_bytes v) /\ from_utf8_is_ok (name_bytes v) = true.
Proof.
  unfold name_wf. rewrite !andb_true_iff, Nat.leb_le, forallb_Forall. intros [[H1 H2] H3]. split_and!; try done.
  eapply Forall_impl; [exact H2|]. cbn beta. intros b Hb%in_range_spec. unfold in_u. lia.
Qed.

Lemma type_var_roundtrip v r : name_wf v = true -> readable (past (type_var_serialize v) r) ->
  byte_list (type_var_serialize v) /\
  type_var_parse (before (type_var_serialize v) r) = Ok (v, past (type_var_serialize v) r).
Proof.
  intros (Hl & Hb & Hu)%name_wf_spec Hr. destruct (byte_of _ Hl) as [H8 E8]. unfold type_var_serialize in *. rewrite E8 in *.
  split; [by apply Forall_app; split; [apply Forall_singleton|]|].
  unfold type_var_parse, mbind, stateE_bind, mret, stateE_ret, map_st_err, put_u8 in *.
  rewrite before_app, get_u8_before by readable. cbn [result_map_err].
  unfold get_bytes_into, mbind, stateE_bind. rewrite past_before, check_readable by readable.
  rewrite rd_exact_before by by rewrite Nat2Z.id. cbn [result_map_err]. rewrite past_app.
  unfold new_from_bytes, jvm_lossy_utf8. rewrite (jvm_lossy_id (length (name_bytes v))) by done. by destruct v.
Qed.

(** ** Every well-formed type *)

Definition goes_round (t : SType) : Prop :=
  type_wf t = true -> exists l, serialize t = Ok l /\ byte_list l /\ parses t l.

Lemma goes_round_items items : Forall goes_round items -> forallb type_wf items = true ->
  exists bs, mapM_res serialize items = Ok bs /\ byte_list (concat bs) /\ Forall2 parses items bs.
Proof.
  induction 1 as [|t items Ht _ IH]; intros Hwf; [exists []; by split_and!; [|constructor|constructor]|].
  cbn [forallb] in Hwf. apply andb_true_iff in Hwf as [Hwt Hwf]. destruct (Ht Hwt) as (l & E & Hl & Hp).
  destruct (IH Hwf) as (bs & Eb & Hbs & Hps). exists (l :: bs). cbn [mapM_res]. rewrite E. cbn [mbind result_bind]. rewrite Eb.
  split; [done|]. split; [by apply Forall_app|by constructor].
Qed.

Lemma goes_round_prim t : is_prim t = true -> goes_round t.
Proof.
  intros Hp Hwf. assert (exists c, from_primitive_type t = Some c /\ serialize t = Ok [value c] /\
    forall nested r, parse_tag nested (value c) r = Ok (t, r)) as (c & _ & E & H).
  { destruct t; try discriminate Hp; eexists; (split; [reflexivity|]); (split; [reflexivity|]); try (intros; reflexivity).
    intros nested r. change (liftE (get_embeddable_type tree_version SUNSIGNEDBIGINT) r = Ok (SUnsignedBigInt, r)).
    cbn [get_embeddable_type]. cbn [TypeSerial.type_wf] in Hwf. by rewrite Hwf. }
  exists [value c]. split; [done|]. split; [apply Forall_singleton, value_range|]. apply parses_tag. intros n d r Hn Hr.
  rewrite before_nil, past_nil, H. unfold fits. assert (wire_depth t = 0%nat) as -> by (destruct t; (discriminate Hp || reflexivity)).
  destruct (Nat.leb_spec (d + 0) MAX_TYPE_DEPTH); [done|lia].
Qed.

(** A container of one type. *)
Lemma goes_round_generic K (wrap : SType -> SType) e :
  (forall nested r, parse_tag nested (value K) r = (t ← nested; mret (wrap t)) r) ->
  wire_depth (wrap e) = S (wire_depth e) ->
  (exists l, serialize e = Ok l /\ byte_list l /\ parses e l) ->
  exists l, (bytes ← serialize e; Ok (value K :: bytes)) = Ok l /\ byte_list l /\ parses (wrap e) l.
Proof.
  intros Hk Hd (l & E & Hl & Hp). exists (value K :: l). rewrite E. split; [done|]. split; [constructor; [apply value_range|done]|].
  apply parses_tag. intros n d r Hn Hr. rewrite Hk, (nested_Ok e l n d r Hp Hn Hr). unfold fits. rewrite Hd.
  by replace (S d + wire_depth e)%nat with (d + S (wire_depth e))%nat by lia.
Qed.

(** A type that is one code. *)
Lemma goes_round_code t c : serialize t = Ok [c] -> in_u 8 c -> wire_depth t = 0%nat ->
  (forall nested r, parse_tag nested c r = Ok (t, r)) -> exists l, serialize t = Ok l /\ byte_list l /\ parses t l.
Proof.
  intros E Hc Hd H. exists [c]. split; [done|]. split; [by apply Forall_singleton|]. apply parses_tag. intros n d r Hn Hr.
  rewrite before_nil, past_nil, H. unfold fits. rewrite Hd. by destruct (Nat.leb_spec (d + 0) MAX_TYPE_DEPTH); [|lia].
Qed.

(** Where the container's general code is used. *)
Definition generic_elem (e : SType) : Prop :=
  embeddable e = None /\ is_no_type e = false /\
  forall i, e = SColl i -> embeddable i = None /\ is_no_type i = false.

Lemma generic_forms e : generic_elem e ->
  serialize (SColl e) = (bytes ← serialize e; Ok (value COLL :: bytes)) /\ wire_depth (SColl e) = S (wire_depth e) /\
  serialize (SOption e) = (bytes ← serialize e; Ok (value OPTION :: bytes)) /\ wire_depth (SOption e) = S (wire_depth e).
Proof.
  intros (H1 & H2 & H3). destruct e; try discriminate H1; try discriminate H2; try (by split_and!).
  destruct (H3 _ eq_refl) as [E1 E2]. cbn [stype_serialize wire_depth embeddable]. rewrite E1, E2. by split_and!.
Qed.

Lemma elem_cases e : type_wf e = true ->
  (exists code, embeddable e = Some code) \/
  (exists i code, e = SColl i /\ embeddable i = Some code /\ type_wf i = true) \/ generic_elem e.
Proof.
  intros Hwf. destruct (embeddable e) as [code|] eqn:Ee; [left; by exists code|right].
  destruct e as [v| | | | | | | | | | | | | |t|t|items|t_dom t_range ps| | | | | |]; try discriminate Ee; try discriminate Hwf;
    try (right; split_and!; [done|done|by intros ? [=]]).
  destruct (embeddable t) as [code|] eqn:Et; [left; by exists t, code|right]. split_and!; [done|done|].
  intros i [= <-]. split; [done|]. by destruct t.
Qed.

Lemma goes_round_coll e : goes_round e -> goes_round (SColl e).
Proof.
  intros IH Hwf. cbn [TypeSerial.type_wf] in Hwf. specialize (IH Hwf).
  destruct (elem_cases e Hwf) as [[code Ee]|[(i & code & -> & Ei & Hi)|Hg]].
  - apply (goes_round_code _ (value COLL + code)); [cbn [stype_serialize]; by rewrite Ee|by eapply embedded_range
      |cbn [wire_depth]; by rewrite Ee|]. intros nested r. by eapply parse_embedded.
  - apply (goes_round_code _ (value NESTED_COLL + code)); [cbn [stype_serialize embeddable]; by rewrite Ei|by eapply embedded_range
      |cbn [wire_depth embeddable]; by rewrite Ei|]. intros nested r. by eapply parse_embedded.
  - destruct (generic_forms e Hg) as (E & Hd & _). rewrite E. by apply (goes_round_generic COLL SColl).
Qed.

Lemma goes_round_option e : goes_round e -> goes_round (SOption e).
Proof.
  intros IH Hwf. cbn [TypeSerial.type_wf] in Hwf. specialize (IH Hwf).
  destruct (elem_cases e Hwf) as [[code Ee]|[(i & code & -> & Ei & Hi)|Hg]].
  - apply (goes_round_code _ (value OPTION + code)); [cbn [stype_serialize]; by rewrite Ee|by eapply embedded_range
      |cbn [wire_depth]; by rewrite Ee|]. intros nested r. by eapply parse_embedded.
  - apply (goes_round_code _ (value OPTION_COLL + code)); [cbn [stype_serialize embeddable]; by rewrite Ei|by eapply embedded_range
      |cbn [wire_depth embeddable]; by rewrite Ei|]. intros nested r. by eapply parse_embedded.
  - destruct (generic_forms e Hg) as (_ & _ & E & Hd). rewrite E. by apply (goes_round_generic OPTION SOption).
Qed.

(** ** Tuples *)

(** A pair with one type in its code. *)
Lemma goes_round_half K e code t p :
  embeddable e = Some code -> value K <= 96 ->
  (forall nested r, parse_tag nested (value K + code) r = (x ← nested; mret (p x)) r) ->
  serialize (p t) = (b ← serialize t; Ok (value K + code :: b)) -> wire_depth (p t) = S (wire_depth t) ->
  (exists l, serialize t = Ok l /\ byte_list l /\ parses t l) ->
  exists l, serialize (p t) = Ok l /\ byte_list l /\ parses (p t) l.
Proof.
  intros Ee Hk Hp E Hd (l & El & Hl & Ht). exists (value K + code :: l). rewrite E, El. split; [done|].
  split; [constructor; [by eapply embedded_range|done]|]. apply parses_tag. intros n d r Hn Hr.
  rewrite Hp, (nested_Ok t l n d r Ht Hn Hr). unfold fits. rewrite Hd.
  by replace (S d + wire_depth t)%nat with (d + S (wire_depth t))%nat by lia.
Qed.

(** A tuple of the items one after another. *)
Lemma goes_round_seq K items :
  items <> [] -> wire_depth (STuple items) = S (max_list_with wire_depth items) ->
  (forall nested r, parse_tag nested (value K) r = (xs ← get_list nested (length items); mret (STuple xs)) r) ->
  serialize (STuple items) = (bs ← mapM_res serialize items; Ok (value K :: concat bs)) ->
  (exists bs, mapM_res serialize items = Ok bs /\ byte_list (concat bs) /\ Forall2 parses items bs) ->
  exists l, serialize (STuple items) = Ok l /\ byte_list l /\ parses (STuple items) l.
Proof.
  intros Hne Hd Hp E (bs & Eb & Hbs & Hps). exists (value K :: concat bs). rewrite E, Eb. split; [done|].
  split; [constructor; [apply value_range|done]|]. apply parses_tag. intros n d r Hn Hr. rewrite Hp.
  unfold mbind, stateE_bind. rewrite (items_parse n d items bs) by done. rewrite fits_items by done. unfold fits. rewrite Hd.
  by destruct (_ <=? _)%nat.
Qed.

Lemma get_list_2 (nested : stateE reader SigmaParsingError SType) r :
  (t1 ← nested; t2 ← nested; mret (STuple [t1; t2])) r = (xs ← get_list nested 2; mret (STuple xs)) r.
Proof.
  cbn [get_list]. unfold mbind, stateE_bind, mret, stateE_ret. destruct (nested r) as [[t1 r1]|]; [|done].
  by destruct (nested r1) as [[t2 r2]|].
Qed.

Lemma get_list_3 (nested : stateE reader SigmaParsingError SType) r :
  (t1 ← nested; t2 ← nested; t3 ← nested; mret (STuple [t1; t2; t3])) r = (xs ← get_list nested 3; mret (STuple xs)) r.
Proof.
  cbn [get_list]. unfold mbind, stateE_bind, mret, stateE_ret. destruct (nested r) as [[t1 r1]|]; [|done].
  destruct (nested r1) as [[t2 r2]|]; [|done]. by destruct (nested r2) as [[t3 r3]|].
Qed.

Lemma get_list_4 (nested : stateE reader SigmaParsingError SType) r :
  (t1 ← nested; t2 ← nested; t3 ← nested; t4 ← nested; mret (STuple [t1; t2; t3; t4])) r =
    (xs ← get_list nested 4; mret (STuple xs)) r.
Proof.
  cbn [get_list]. unfold mbind, stateE_bind, mret, stateE_ret. destruct (nested r) as [[t1 r1]|]; [|done].
  destruct (nested r1) as [[t2 r2]|]; [|done]. destruct (nested r2) as [[t3 r3]|]; [|done].
  by destruct (nested r3) as [[t4 r4]|].
Qed.

Lemma no_type_not_wf t : type_wf t = true -> is_no_type t = false.
Proof. by destruct t. Qed.

Lemma goes_round_pair t1 t2 : goes_round t1 -> goes_round t2 ->
  type_wf t1 = true -> type_wf t2 = true ->
  exists l, serialize (STuple [t1; t2]) = Ok l /\ byte_list l /\ parses (STuple [t1; t2]) l.
Proof.
  intros H1 H2 Hwf1 Hwf2. destruct (embeddable t1) as [c1|] eqn:E1; [|destruct (embeddable t2) as [c2|] eqn:E2].
  - destruct (decide (t1 = t2)) as [<-|Hne].
    + apply (goes_round_code _ (value TUPLE_PAIR_SYMMETRIC + c1)); [cbn [stype_serialize]; by rewrite E1, bool_decide_eq_true_2
        |by eapply embedded_range|cbn [wire_depth]; by rewrite E1, bool_decide_eq_true_2|].
      intros nested r. by eapply parse_embedded.
    + apply (goes_round_half TUPLE_PAIR1 t1 c1 t2 (fun x => STuple [t1; x])); [done|done| | | |by apply H2].
      * intros nested r. by eapply parse_embedded.
      * cbn [stype_serialize]. by rewrite E1, bool_decide_eq_false_2.
      * cbn [wire_depth]. by rewrite E1, bool_decide_eq_false_2.
  - apply (goes_round_half TUPLE_PAIR2 t2 c2 t1 (fun x => STuple [x; t2])); [done|done| | | |by apply H1].
    + intros nested r. by eapply parse_embedded.
    + cbn [stype_serialize]. by rewrite E1, E2.
    + cbn [wire_depth]. by rewrite E1, E2.
  - apply (goes_round_seq TUPLE_PAIR1 [t1; t2]); [done| | | |].
    + cbn [wire_depth max_list_with]. rewrite E1, E2. by rewrite Nat.max_0_r.
    + intros nested r. by rewrite <- get_list_2.
    + cbn [stype_serialize mapM_res]. rewrite E1, E2, !no_type_not_wf by done. cbn [orb].
      destruct (serialize t1) as [b1|]; [|done]. cbn [mbind result_bind]. destruct (serialize t2) as [b2|]; [|done].
      cbn [mbind result_bind concat]. by rewrite app_nil_r.
    + apply goes_round_items; [by repeat constructor|]. cbn [forallb]. by rewrite Hwf1, Hwf2.
Qed.

Lemma goes_round_tuple items : Forall goes_round items -> goes_round (STuple items).
Proof.
  intros IH Hwf. cbn [TypeSerial.type_wf] in Hwf. apply andb_true_iff in Hwf as [Hlen Hwf].
  apply andb_true_iff in Hlen as [H2 H255]. apply Nat.leb_le in H2, H255.
  pose proof (goes_round_items items IH Hwf) as Hitems.
  destruct items as [|t1 [|t2 [|t3 [|t4 [|t5 items]]]]]; try (cbn in H2; lia).
  - apply Forall_cons in IH as [IH1 IH]. apply Forall_cons in IH as [IH2 _]. cbn [forallb] in Hwf.
    apply andb_true_iff in Hwf as [Hwf1 Hwf]. apply andb_true_iff in Hwf as [Hwf2 _]. by apply goes_round_pair.
  - apply (goes_round_seq TUPLE_PAIR2 [t1; t2; t3]); [done|done| |done|done]. intros nested r. by rewrite <- get_list_3.
  - apply (goes_round_seq TUPLE_PAIR_SYMMETRIC [t1; t2; t3; t4]); [done|done| |done|done]. intros nested r. by rewrite <- get_list_4.
  - set (all := t1 :: t2 :: t3 :: t4 :: t5 :: items) in *. destruct Hitems as (bs & Eb & Hbs & Hps).
    destruct (byte_of (length all) H255) as [H8 E8]. exists (value TUPLE :: put_u8 (Z.of_nat (length all)) ++ concat bs). split.
    { change (serialize (STuple all)) with (bs ← mapM_res serialize all;
        Ok (value TUPLE :: put_u8 (wrap_u 8 (Z.of_nat (length all))) ++ concat bs)). by rewrite Eb, E8. }
    split; [constructor; [apply value_range|by constructor]|]. apply parses_tag. intros n d r Hn Hr. unfold put_u8 in *.
    change (parse_tag (parse_at_depth n (S d)) (value TUPLE) ?r) with
      ((len ← map_st_err sigma_io_error get_u8; items ← get_list (parse_at_depth n (S d)) (Z.to_nat len);
        liftE (stuple_try_from items)) r).
    unfold mbind, stateE_bind, map_st_err. rewrite before_app, get_u8_before by readable. cbn [result_map_err].
    rewrite past_before, Nat2Z.id, (items_parse n d all bs) by (done || readable). rewrite fits_items by done.
    unfold fits. change (wire_depth (STuple all)) with (S (max_list_with wire_depth all)). destruct (_ <=? _)%nat; [|done].
    unfold stuple_try_from. rewrite (proj2 (Nat.leb_le 2 (length all))), (proj2 (Nat.leb_le (length all) 255)) by done.
    cbn [andb liftE]. by rewrite past_app.
Qed.

(** ** Type variables and functions *)

Definition var_bytes (v : STypeVar) : list Z := value STYPE_VAR :: type_var_serialize v.

Lemma var_range v : name_wf v = true -> byte_list (var_bytes v).
Proof.
  intros H. constructor; [apply value_range|]. destruct (name_wf_spec v H) as (Hl & Hb & _).
  apply Forall_app. split; [|done]. apply Forall_singleton. by apply wrap_u_range.
Qed.

Lemma var_parses v : name_wf v = true -> parses (SVar v) (var_bytes v).
Proof.
  intros H. apply parses_tag. intros n d r Hn Hr.
  change (parse_tag (parse_at_depth n (S d)) (value STYPE_VAR) ?r) with ((SVar <$> type_var_parse) r).
  unfold fmap, stateE_fmap. rewrite (proj2 (type_var_roundtrip v r H Hr)). unfold fits. cbn [wire_depth].
  by destruct (Nat.leb_spec (d + 0) MAX_TYPE_DEPTH); [|lia].
Qed.

Definition params_bytes (ps : list STypeParam) : list Z := concat (map (fun p => var_bytes (ident p)) ps).

Lemma params_parse n d ps : (n + S d = S MAX_TYPE_DEPTH)%nat -> (S d <= MAX_TYPE_DEPTH)%nat ->
  forallb (fun p => name_wf (ident p)) ps = true -> forall r, readable (past (params_bytes ps) r) ->
  get_list (tpe ← parse_at_depth n (S d); liftE (type_param tpe)) (length ps) (before (params_bytes ps) r) =
    Ok (ps, past (params_bytes ps) r).
Proof.
  intros Hn Hd. induction ps as [|p ps IH]; intros Hwf r Hr; [cbn; by rewrite before_nil, past_nil|].
  cbn [forallb] in Hwf. apply andb_true_iff in Hwf as [Hp Hwf]. unfold params_bytes in *.
  cbn [map concat length get_list] in *. unfold mbind, stateE_bind, mret, stateE_ret in *.
  rewrite before_app, (var_parses (ident p) Hp) by (done || readable). unfold fits. cbn [wire_depth].
  destruct (Nat.leb_spec (S d + 0) MAX_TYPE_DEPTH); [|lia]. cbn [type_param liftE].
  rewrite past_before, IH by (done || rewrite past_app; readable). rewrite past_app. by destruct p.
Qed.

Lemma params_range ps : forallb (fun p => name_wf (ident p)) ps = true -> byte_list (params_bytes ps).
Proof.
  induction ps as [|p ps IH]; intros H; [constructor|]. cbn [forallb] in H. apply andb_true_iff in H as [Hp H].
  apply Forall_app. split; [by apply var_range|by apply IH].
Qed.

Definition func_bytes (t_dom : list SType) (ps : list STypeParam) (doms range : list Z) : list Z :=
  put_u8 (Z.of_nat (length t_dom)) ++ doms ++ range ++ put_u8 (Z.of_nat (length ps)) ++ params_bytes ps.

Lemma func_parse t_dom t_range ps bs range n d r :
  (V3 <=? tree_version) = true -> (length t_dom <= 255)%nat -> (length ps <= 255)%nat ->
  forallb (fun p => name_wf (ident p)) ps = true -> Forall2 parses t_dom bs -> parses t_range range ->
  (n + S d = S MAX_TYPE_DEPTH)%nat -> readable (past (func_bytes t_dom ps (concat bs) range) r) ->
  parse_tag (parse_at_depth n (S d)) (value SFUNC) (before (func_bytes t_dom ps (concat bs) range) r) =
    if forallb (fits (S d)) t_dom && fits (S d) t_range
    then Ok (SFunc t_dom t_range ps, past (func_bytes t_dom ps (concat bs) range) r)
    else Err (SpTypeDepthExceeded (S MAX_TYPE_DEPTH)).
Proof.
  intros Hv H1 H2 Hps Hdoms Hrange Hn Hr. unfold func_bytes, put_u8 in *.
  change (parse_tag (parse_at_depth n (S d)) (value SFUNC) ?r) with
    ((if V3 <=? tree_version then
        t_dom_len ← map_st_err sigma_io_error get_u8;
        t_dom ← get_list (parse_at_depth n (S d)) (Z.to_nat t_dom_len);
        t_range ← parse_at_depth n (S d);
        tpe_params_len ← map_st_err sigma_io_error get_u8;
        tpe_params ← get_list (tpe ← parse_at_depth n (S d); liftE (type_param tpe)) (Z.to_nat tpe_params_len);
        mret (SFunc t_dom t_range tpe_params)
      else fail (SpInvalidTypeCode (value SFUNC))) r).
  rewrite Hv. unfold mbind at 1, stateE_bind at 1, map_st_err at 1. rewrite before_app, get_u8_before by readable.
  cbn [result_map_err]. unfold mbind at 1, stateE_bind at 1.
  rewrite past_before, before_app, Nat2Z.id, (items_parse n d t_dom bs) by (done || readable).
  destruct (forallb (fits (S d)) t_dom); [|done]. cbn [andb]. unfold mbind at 1, stateE_bind at 1.
  rewrite past_before, before_app, Hrange by (done || readable). destruct (fits (S d) t_range) eqn:Hfit; [|done].
  unfold fits in Hfit. apply Nat.leb_le in Hfit.
  unfold mbind at 1, stateE_bind at 1, map_st_err. rewrite past_before, before_app, get_u8_before by readable. cbn [result_map_err].
  unfold mbind at 1, stateE_bind at 1. rewrite past_before, Nat2Z.id, (params_parse n d ps) by (done || lia || readable).
  unfold mret, stateE_ret. by rewrite !past_app, <- ?app_assoc.
Qed.

Lemma goes_round_func t_dom t_range ps : Forall goes_round t_dom -> goes_round t_range -> goes_round (SFunc t_dom t_range ps).
Proof.
  intros IHd IHr Hwf. cbn [TypeSerial.type_wf] in Hwf. rewrite !andb_true_iff, !Nat.leb_le in Hwf.
  destruct Hwf as [[[[[Hv Hd] Hwfd] Hwfr] Hp] Hps].
  destruct (goes_round_items t_dom IHd Hwfd) as (bs & Eb & Hbs & Hpd). destruct (IHr Hwfr) as (range & Er & Hlr & Hpr).
  exists (value SFUNC :: func_bytes t_dom ps (concat bs) range). split; [|split].
  - cbn [stype_serialize]. rewrite Hv, (proj2 (Nat.leb_le _ _) Hd), (proj2 (Nat.leb_le _ _) Hp), Eb. cbn [guard_or mbind result_bind].
    by rewrite Er.
  - constructor; [apply value_range|]. unfold func_bytes, put_u8. pose proof (params_range ps Hps).
    destruct (byte_of _ Hd), (byte_of _ Hp). unfold byte_list in *. rewrite !Forall_app, !Forall_singleton. by split_and!.
  - apply parses_tag. intros n d r Hn Hr. rewrite (func_parse t_dom t_range ps bs range) by done.
    assert (forallb (fits (S d)) t_dom && fits (S d) t_range = fits d (SFunc t_dom t_range ps)) as ->; [|done].
    unfold fits at 3. cbn [wire_depth]. destruct t_dom as [|t t_dom].
    + cbn [forallb andb max_list_with]. unfold fits. f_equal. lia.
    + rewrite fits_items by done. unfold fits. apply eq_true_iff_eq. rewrite andb_true_iff, !Nat.leb_le. lia.
Qed.

Lemma every_type_goes_round t : goes_round t.
Proof.
  induction t as [v|t Hp| |t IH|t IH|items IH|t_dom t_range ps IHd IHr] using SType_ind'.
  - intros Hwf. exists (var_bytes v). split; [done|]. split; [by apply var_range|by apply var_parses].
  - by apply goes_round_prim.
  - by intros [=].
  - by apply goes_round_option.
  - by apply goes_round_coll.
  - by apply goes_round_tuple.
  - by apply goes_round_func.
Qed.
End roundtrip.

Lemma type_back (tree_version : Z) (t : SType) (r : reader) :
  type_wf tree_version t = true ->
  exists l, stype_serialize tree_version t = Ok l /\ byte_list l /\
    (readable (past l r) ->
     stype_parse tree_version (before l r) =
       if (wire_depth t <=? MAX_TYPE_DEPTH)%nat then Ok (t, past l r) else Err (SpTypeDepthExceeded (S MAX_TYPE_DEPTH))).
Proof.
  intros Hwf. destruct (every_type_goes_round tree_version t Hwf) as (l & E & Hl & Hp). exists l. split; [done|]. split; [done|].
  intros Hr. unfold stype_parse. by rewrite Hp by done.
Qed.

(** Every type the format has room for is written; its bytes parse to it with the reader right after them when
    it nests at most eight deep there, and to the error for a type nested nine deep otherwise. *)
Theorem type_roundtrip (tree_version : Z) (t : SType) (r : reader) :
  type_wf tree_version t = true ->
  exists l, stype_serialize tree_version t = Ok l /\ byte_list l /\
    (readable (past l r) ->
     stype_parse tree_version (before l r) =
       if (wire_depth t <=? MAX_TYPE_DEPTH)%nat then Ok (t, past l r) else Err (SpTypeDepthExceeded (S MAX_TYPE_DEPTH))).
Proof. apply type_back. Qed.

(** * Concrete inputs *)

Definition sample_type : SType :=
  SFunc [STuple [SInt; SBox]; SColl (SColl SByte)] (SOption (SVar var_T)) [mkTypeParam var_T].

Lemma type_roundtrip_witness :
  stype_parse 3 (before [112; 2; 64; 99; 26; 36; 103; 1; 84; 1; 103; 1; 84] (mkReader [7] 0 U64_MAX 0)) =
    Ok (sample_type, past [112; 2; 64; 99; 26; 36; 103; 1; 84; 1; 103; 1; 84] (mkReader [7] 0 U64_MAX 0)).
Proof.
  destruct (type_roundtrip 3 sample_type (mkReader [7] 0 U64_MAX 0)) as (l & E & _ & Hp); [reflexivity|].
  assert (stype_serialize 3 sample_type = Ok [112; 2; 64; 99; 26; 36; 103; 1; 84; 1; 103; 1; 84]) as E' by reflexivity.
  rewrite E in E'. injection E' as ->. apply Hp. by left.
Defined.
