(* ===== verification/TypeParse.v ===== *)
(** What parsing a type gives on any bytes (on the model of file TypeSerial): it ends, a success is a
    well-formed type, and where the type written again does not parse to itself. *)

From S2P Require Import Prelude Vlq Codecs SigmaSerial Types TypeSerial.
#[local] Open Scope Z_scope.

(** * Any bytes *)

Fixpoint names_short (t : SType) : bool :=
  match t with
  | SVar v => (length (name_bytes v) <=? 255)%nat
  | SOption t | SColl t => names_short t
  | STuple items => forallb names_short items
  | SFunc t_dom t_range tpe_params =>
      forallb names_short t_dom && names_short t_range &&
      forallb (fun p => (length (name_bytes (ident p)) <=? 255)%nat) tpe_params
  | _ => true
  end.

Section any_bytes.
Context (tree_version : Z).

Definition well_typed (t : SType) : Prop := names_short t = true -> type_wf tree_version t = true.

Lemma well_typed_items items : Forall well_typed items -> forallb names_short items = true -> forallb (type_wf tree_version) items = true.
Proof. intros H. rewrite !forallb_Forall. intros Hn. rewrite Forall_forall in *. intros t Ht. by apply H, Hn. Qed.

Lemma yields_embeddable c : yields proper well_typed (liftE (get_embeddable_type tree_version c)).
Proof.
  apply yields_lift. destruct c; try done. cbn [get_embeddable_type]. destruct (V3 <=? tree_version) eqn:E; [|done]. intros _. exact E.
Qed.

(** The names a variable may have. *)
Definition name_read (v : STypeVar) : Prop := byte_list (name_bytes v) /\ from_utf8_is_ok (name_bytes v) = true.

Lemma name_read_wf v : name_read v -> (length (name_bytes v) <=? 255)%nat = true -> name_wf v = true.
Proof.
  intros [Hb Hu] Hl. unfold name_wf. rewrite Hl, Hu, !andb_true_r. cbn [andb]. apply forallb_Forall.
  eapply Forall_impl; [exact Hb|]. intros b Hr. apply in_range_spec. unfold in_u in Hr. lia.
Qed.

Lemma yields_type_var : yields proper name_read type_var_parse.
Proof.
  unfold type_var_parse. eapply yields_bind; [by apply yields_u8, io_proper|]. intros n _.
  eapply yields_bind; [by apply yields_bytes_into, io_proper|]. intros bytes [_ Hb]. apply yields_ret.
  split; [by apply jvm_lossy_range|apply jvm_lossy_utf8_ok].
Qed.

Definition containers : list TypeCode := [COLL; NESTED_COLL; OPTION; OPTION_COLL; TUPLE_PAIR1; TUPLE_PAIR2; TUPLE_PAIR_SYMMETRIC].

Definition unpack_check (c : Z) : bool :=
  match unpack_tag c with
  | Ok (Some K, _) => bool_decide (K ∈ containers)
  | Ok (None, C) => bool_decide (is_Some C)
  | Err (SpInvalidTypeCode _) => true
  | Err _ => false
  end.

Lemma unpack_checked c : 0 < c < TUPLE_TYPECODE -> unpack_check c = true.
Proof.
  intros Hc. assert (forallb unpack_check (map Z.of_nat (seq 1 95)) = true) as H by (vm_compute; reflexivity).
  rewrite forallb_forall in H. apply H, in_map_iff. exists (Z.to_nat c). unfold TUPLE_TYPECODE, MAX_PRIM_TYPECODE in Hc.
  split; [lia|]. apply in_seq. lia.
Qed.

Lemma type_code_checked c e : type_code_parse c = Err e -> proper e.
Proof. unfold type_code_parse, ok_or. destruct (find _ _); [done|]. by intros [= <-]. Qed.

Lemma type_code_value c code : type_code_parse c = Ok code -> value code = c.
Proof.
  unfold type_code_parse. intros H%ok_or_Ok. apply find_some in H as [_ H]. by apply Z.eqb_eq in H.
Qed.

Lemma parse_tag_yields nested c : yields proper well_typed nested -> in_u 8 c -> yields proper well_typed (parse_tag tree_version nested c).
Proof.
  intros Hn Hc. unfold parse_tag. destruct (Z.eqb_spec c 0); [by apply yields_fail|].
  destruct (Z.ltb_spec c TUPLE_TYPECODE) as [Hlt|Hge].
  - pose proof (unpack_checked c ltac:(unfold in_u in Hc; lia)) as Hu. unfold unpack_check in Hu.
    apply (yields_bind _ (fun u => match u with (Some K, _) => K ∈ containers | (None, C) => is_Some C end)).
    { apply yields_lift. destruct (unpack_tag c) as [[[K|] C]|e]; [by apply bool_decide_eq_true in Hu..|by destruct e]. }
    intros [[K|] C] HK; [|destruct HK as [e ->]; apply yields_embeddable].
    set (stype := match C with Some e => liftE (get_embeddable_type tree_version e) | None => nested end).
    assert (yields proper well_typed stype) as Hs by (destruct C; [apply yields_embeddable|done]).
    assert (forall items, Forall well_typed items -> (2 <= length items <= 255)%nat -> well_typed (STuple items)) as Htup.
    { intros items Hi [H1 H2] Hns. cbn [type_wf names_short] in *. rewrite (proj2 (Nat.leb_le _ _) H1), (proj2 (Nat.leb_le _ _) H2).
      by apply well_typed_items. }
    unfold containers in HK. rewrite !elem_of_cons, elem_of_nil in HK.
    destruct HK as [->|[->|[->|[->|[->|[->|[->|[]]]]]]]]; [..|destruct C|destruct C];
      repeat (eapply yields_bind; [eassumption|]; intros ? ?); apply yields_ret;
      (assumption || (apply Htup; [by repeat constructor|cbn; lia])).
  - apply (yields_bind _ (fun code => type_code_parse c = Ok code)).
    { apply yields_lift. destruct (type_code_parse c) eqn:E; [done|by eapply type_code_checked]. }
    intros code Hcode. apply type_code_value in Hcode. destruct code; try (by apply yields_ret);
      try (cbn in Hcode; unfold TUPLE_TYPECODE, MAX_PRIM_TYPECODE in Hge; lia).
    + eapply yields_bind; [by apply yields_u8, io_proper|]. intros k Hlen.
      eapply yields_bind; [by apply yields_list|]. intros items [Hl Hi]. apply yields_lift. unfold stuple_try_from.
      destruct (Nat.leb_spec 2 (length items)), (Nat.leb_spec (length items) 255); cbn [andb]; try done.
      intros Hns. cbn [type_wf names_short] in *. rewrite (proj2 (Nat.leb_le _ _)), (proj2 (Nat.leb_le _ _)) by done.
      by apply well_typed_items.
    + eapply yields_fmap; [apply yields_type_var|]. intros v Hv Hns. by apply name_read_wf.
    + destruct (V3 <=? tree_version) eqn:Ev; [|by apply yields_fail].
      eapply yields_bind; [by apply yields_u8, io_proper|]. intros n1 Hn1.
      eapply yields_bind; [by apply yields_list|]. intros doms [Hl1 Hd]. eapply yields_bind; [exact Hn|]. intros range Hr.
      eapply yields_bind; [by apply yields_u8, io_proper|]. intros n2 Hn2.
      eapply yields_bind.
      { apply yields_list. eapply (yields_bind _ _ (fun p => (length (name_bytes (ident p)) <=? 255)%nat = true -> name_wf (ident p) = true)); [exact Hn|].
        intros t Ht. apply yields_lift. by destruct t. }
      intros ps [Hl2 Hps]. apply yields_ret. intros Hns. cbn [names_short type_wf] in *. rewrite !andb_true_iff in Hns.
      destruct Hns as [[Hns1 Hns2] Hns3]. unfold in_u in *.
      repeat (apply andb_true_iff; split); try done; try (apply Nat.leb_le; lia); [by apply well_typed_items|by apply Hr|].
      rewrite forallb_Forall in *. rewrite Forall_forall in *. auto.
Qed.

Lemma parse_yields n : forall d, (n + d = S MAX_TYPE_DEPTH)%nat -> yields proper well_typed (parse_at_depth tree_version n d).
Proof.
  induction n as [|n IH]; intros d Hd; cbn [parse_at_depth]; destruct (Nat.ltb_spec MAX_TYPE_DEPTH d);
    try (by apply yields_fail); [lia|].
  eapply yields_bind; [by apply yields_u8, io_proper|]. intros c Hc. apply parse_tag_yields; [|done]. apply IH. lia.
Qed.
End any_bytes.

(** Parsing a type ends on any bytes, without a panic; a success only consumed the bytes it read, and the
    type is one that can be written again and whose bytes give it back, as long as no name of a variable
    grew past the 255 bytes the format has room for and it does not nest deeper in its shortest form. *)
Theorem type_parse_sound (tree_version : Z) (r : reader) :
  byte_list (rd_bytes r) ->
  match stype_parse tree_version r with
  | Ok (t, r') =>
      moved r r' /\
      (names_short t = true -> (wire_depth t <= MAX_TYPE_DEPTH)%nat ->
       exists l, stype_serialize tree_version t = Ok l /\
         forall r2, readable (past l r2) -> stype_parse tree_version (before l r2) = Ok (t, past l r2))
  | Err e => e <> SpOutOfFuel /\ e <> SpPanic
  end.
Proof.
  intros Hr. pose proof (parse_yields tree_version (S MAX_TYPE_DEPTH) 0 eq_refl r Hr) as H. unfold stype_parse at 1.
  destruct (parse_at_depth tree_version (S MAX_TYPE_DEPTH) 0 r) as [[t r']|e]; [|by apply proper_sane]. destruct H as [Hm Ht]. split; [done|].
  intros Hns Hd. destruct (type_back tree_version t r (Ht Hns)) as (l & E & _ & _). exists l. split; [done|].
  intros r2 Hr2. destruct (type_back tree_version t r2 (Ht Hns)) as (l' & E' & _ & Hp).
  rewrite E in E'. injection E' as <-.
  rewrite Hp by done. by rewrite (proj2 (Nat.leb_le _ _) Hd).
Qed.

(** ** Where the two conditions are needed *)

Definition bytes_reader (l : list Z) : reader := mkReader l 0 U64_MAX 0.

(** Bytes that parse to a collection nested deeper than its own bytes may be. *)
Theorem type_depth_not_canonical :
  let bytes := replicate 8 (value NESTED_COLL) ++ [value SBOX] in
  exists t r' l, stype_parse 0 (bytes_reader bytes) = Ok (t, r') /\ rd_bytes r' = [] /\ stype_serialize 0 t = Ok l /\
    stype_parse 0 (bytes_reader l) = Err (SpTypeDepthExceeded 9).
Proof. do 3 eexists. split; [vm_compute; reflexivity|]. split; [reflexivity|]. split; [vm_compute; reflexivity|]. vm_compute. reflexivity. Qed.

(** A name of 255 bytes that are not UTF-8 becomes one of 765, whose length byte wraps around. *)
Theorem type_name_length_wraps :
  let bytes := value STYPE_VAR :: 255 :: replicate 255 255 in
  exists v r' l t r'', stype_parse 0 (bytes_reader bytes) = Ok (SVar v, r') /\ rd_bytes r' = [] /\
    stype_serialize 0 (SVar v) = Ok l /\ length l = 767%nat /\
    stype_parse 0 (bytes_reader l) = Ok (t, r'') /\ t <> SVar v /\ length (rd_bytes r'') = 512%nat.
Proof.
  do 5 eexists. split; [vm_compute; reflexivity|]. split; [reflexivity|]. split; [vm_compute; reflexivity|].
  split; [reflexivity|]. split; [vm_compute; reflexivity|]. split; [|vm_compute; reflexivity].
  intros E. apply (f_equal (fun t => match t with SVar v => length (name_bytes v) | _ => 0%nat end)) in E. vm_compute in E. discriminate E.
Qed.

Lemma type_parse_sound_witness :
  byte_list [72; 96] /\ match stype_parse 3 (bytes_reader [72; 96; 4; 4; 5; 6; 99]) with
                        | Ok (t, r') => moved (bytes_reader [72; 96; 4; 4; 5; 6; 99]) r'
                        | Err e => e <> SpOutOfFuel
                        end.
Proof.
  split; [unfold byte_list, in_u; repeat constructor; by intros [=]|].
  pose proof (type_parse_sound 3 (bytes_reader [72; 96; 4; 4; 5; 6; 99])) as H.
  destruct (stype_parse 3 (bytes_reader [72; 96; 4; 4; 5; 6; 99])) as [[t r']|e]; apply H;
    unfold bytes_reader, byte_list, in_u; repeat constructor; by intros [=].
Defined.
