(* ===== verification/StateLogic.v ===== *)
(** A logic for computations over a state that may fail: weakest preconditions, and triples whose invariant holds
    before and after, with the rules that follow the structure of a computation and the tactic that applies them. *)

From S2P Require Import Prelude.

Section wp.
Context {S E : Type}.

(** What [m] gives from [s] satisfies [Q], and an error it fails with satisfies [X]. *)
Definition wp {A} (m : stateE S E A) (Q : A -> S -> Prop) (X : E -> Prop) (s : S) : Prop :=
  match m s with Ok (a, s') => Q a s' | Err e => X e end.

Lemma wp_bind {A B} (m : stateE S E A) (f : A -> stateE S E B) Q X s :
  wp m (fun a => wp (f a) Q X) X s -> wp (m ≫= f) Q X s.
Proof. unfold wp, mbind, stateE_bind. by destruct (m s) as [[a s']|e]. Qed.

(** Runs computed step by step. *)
Lemma bind_eq {A B} (m : stateE S E A) (f : A -> stateE S E B) s a s' : m s = Ok (a, s') -> (m ≫= f) s = f a s'.
Proof. unfold mbind, stateE_bind. by intros ->. Qed.

Lemma bind_err {A B} (m : stateE S E A) (f : A -> stateE S E B) s e : m s = Err e -> (m ≫= f) s = Err e.
Proof. unfold mbind, stateE_bind. by intros ->. Qed.

Lemma wp_mono {A} (m : stateE S E A) (Q Q' : A -> S -> Prop) (X X' : E -> Prop) s :
  wp m Q X s -> (forall a s', Q a s' -> Q' a s') -> (forall e, X e -> X' e) -> wp m Q' X' s.
Proof. unfold wp. destruct (m s) as [[a s']|e]; auto. Qed.

Lemma wp_Ok {A} (m : stateE S E A) Q X s a s' : wp m Q X s -> m s = Ok (a, s') -> Q a s'.
Proof. unfold wp. intros H Hm. by rewrite Hm in H. Qed.

Lemma wp_Err {A} (m : stateE S E A) Q X s e : wp m Q X s -> m s = Err e -> X e.
Proof. unfold wp. intros H Hm. by rewrite Hm in H. Qed.

(** ** Triples *)

Context (I : S -> Prop) (X : E -> Prop).

Definition triple {A} (m : stateE S E A) (P : A -> Prop) : Prop :=
  forall s, I s -> wp m (fun a s' => P a /\ I s') X s.

Lemma triple_ret {A} (a : A) (P : A -> Prop) : P a -> triple (mret a) P.
Proof. intros Ha s Hs. by split. Qed.

Lemma triple_bind {A B} (m : stateE S E A) (f : A -> stateE S E B) (P : A -> Prop) (Q : B -> Prop) :
  triple m P -> (forall a, P a -> triple (f a) Q) -> triple (m ≫= f) Q.
Proof.
  intros Hm Hf s Hs. apply wp_bind. eapply wp_mono; [by apply Hm| |done].
  intros a s' [Ha Hs']. by apply Hf.
Qed.

Lemma triple_mono {A} (m : stateE S E A) (P P' : A -> Prop) : triple m P -> (forall a, P a -> P' a) -> triple m P'.
Proof. intros Hm HP s Hs. eapply wp_mono; [by apply Hm| |done]. intros a s' [Ha Hs']. auto. Qed.

Lemma triple_fail {A} (e : E) (P : A -> Prop) : X e -> triple (fail e) P.
Proof. intros He s Hs. done. Qed.

Lemma triple_liftE {A} (r : result E A) (P : A -> Prop) :
  match r with Ok a => P a | Err e => X e end -> triple (liftE r) P.
Proof. intros Hr s Hs. unfold wp, liftE. by destruct r as [a|e]. Qed.

Lemma triple_guard (b : bool) (e : E) (P : Prop) : (b = true -> P) -> (b = false -> X e) -> triple (liftE (guard_or b e)) (fun _ => P).
Proof. intros H1 H2. apply triple_liftE. destruct b; cbn; auto. Qed.

Lemma triple_mapM_st {A B} (f : A -> stateE S E B) (l : list A) (P : B -> Prop) :
  (forall x, x ∈ l -> triple (f x) P) -> triple (mapM_st f l) (fun bs => Forall P bs /\ length bs = length l).
Proof.
  induction l as [|x l IH]; intros Hf; cbn.
  - by apply triple_ret.
  - eapply triple_bind; [apply Hf; left|]. intros y Hy. eapply triple_bind.
    + apply IH. intros z Hz. apply Hf. by right.
    + intros ys [Hys Hl]. apply triple_ret. split; [by constructor|]. cbn. by rewrite Hl.
Qed.
End wp.
