(* ===== verification/Expr.v ===== *)
(** Expressions of ErgoTree (src/ergotree-ir/src/mir/): literals and constants, the nodes with their fields, and the
    type each node reports. Left out of [Expr] are the nodes on boxes' contents, method calls, AVL trees, context
    variables, substitution of constants and deserialization; source spans are dropped. *)

From S2P Require Import Prelude SigmaBoolean Header Types.

(** [ValId], a u32. *)
Abbreviation ValId := Z (only parsing).

(** * Data the values carry *)

(** [ErgoBox] with the equality of its ids and contents, of which nothing is used here. *)
Class ErgoBoxData : Type := {
  ErgoBox : Type;
  ErgoBox_eq_dec :: EqDecision ErgoBox
}.

(** [AvlTreeFlags] is its byte. *)
Record AvlTreeData : Type := mkAvlTreeData {
  digest : list Z;
  tree_flags : Z;
  key_length : Z;
  value_length_opt : option Z
}.
#[export] Instance AvlTreeData_eq_dec : EqDecision AvlTreeData.
Proof. solve_decision. Defined.

(** [CollKind<T>] and [NativeColl]. *)
Inductive NativeColl : Type := CollByte (bytes : list Z).
Inductive CollKind (T : Type) : Type :=
| Native (c : NativeColl)
| WrappedColl (elem_tpe : SType) (items : list T).
Arguments Native {T} c.
Arguments WrappedColl {T} elem_tpe items.

#[export] Instance NativeColl_eq_dec : EqDecision NativeColl.
Proof. solve_decision. Defined.

(** Equality of collections from one of their items. *)
Definition coll_eq_dec {T} (item_eq_dec : forall x y : T, {x = y} + {x <> y}) (x y : CollKind T) : {x = y} + {x <> y}.
Proof.
  refine (
    match x, y with
    | Native c, Native d => cast_if (decide (c = d))
    | WrappedColl t l, WrappedColl u m => cast_if_and (decide (t = u)) (@list_eq_dec _ item_eq_dec l m)
    | _, _ => right _
    end); abstract congruence.
Defined.

Section data.
Context `{C : SigmaCrypto}.

#[global] Instance AutolykosSolution_eq_dec : EqDecision AutolykosSolution.
Proof. solve_decision. Defined.
#[global] Instance Header_eq_dec : EqDecision Header.
Proof. solve_decision. Defined.

Record PreHeader : Type := mkPreHeader {
  ph_version : Z;
  ph_parent_id : list Z;
  ph_timestamp : Z;
  ph_n_bits : Z;
  ph_height : Z;
  ph_miner_pk : EcPoint;
  ph_votes : list Z
}.
#[global] Instance PreHeader_eq_dec : EqDecision PreHeader.
Proof. solve_decision. Defined.
End data.

(** * Literals and constants *)

Section expr.
Context `{C : SigmaCrypto} {Bx : ErgoBoxData}.

(** [Literal]: integers as [Z], strings by their UTF-8 bytes. *)
Inductive Literal : Type :=
| LUnit
| LBoolean (b : bool)
| LByte (z : Z)
| LShort (z : Z)
| LInt (z : Z)
| LLong (z : Z)
| LString (s : list Z)
| LBigInt (z : Z)
| LUnsignedBigInt (z : Z)
| LSigmaProp (p : SigmaBoolean)
| LGroupElement (p : EcPoint)
| LAvlTree (t : AvlTreeData)
| LHeader (h : Header)
| LCBox (b : ErgoBox)
| LColl (c : CollKind Literal)
| LOpt (o : option Literal)
| LTup (items : list Literal).

Fixpoint literal_eq_dec (x y : Literal) {struct x} : {x = y} + {x <> y}.
Proof.
  refine (
    match x, y with
    | LUnit, LUnit => left eq_refl
    | LBoolean a, LBoolean b => cast_if (decide (a = b))
    | LByte a, LByte b | LShort a, LShort b | LInt a, LInt b | LLong a, LLong b
    | LBigInt a, LBigInt b | LUnsignedBigInt a, LUnsignedBigInt b => cast_if (decide (a = b))
    | LString a, LString b => cast_if (decide (a = b))
    | LSigmaProp a, LSigmaProp b => cast_if (decide (a = b))
    | LGroupElement a, LGroupElement b => cast_if (decide (a = b))
    | LAvlTree a, LAvlTree b => cast_if (decide (a = b))
    | LHeader a, LHeader b => cast_if (decide (a = b))
    | LCBox a, LCBox b => cast_if (decide (a = b))
    | LColl a, LColl b => cast_if (coll_eq_dec literal_eq_dec a b)
    | LOpt None, LOpt None => left eq_refl
    | LOpt (Some a), LOpt (Some b) => cast_if (literal_eq_dec a b)
    | LTup a, LTup b => cast_if (@list_eq_dec _ literal_eq_dec a b)
    | _, _ => right _
    end); abstract congruence.
Defined.
#[global] Instance Literal_eq_dec : EqDecision Literal := literal_eq_dec.

Record Constant : Type := mkConstant { const_tpe : SType; const_v : Literal }.
#[global] Instance Constant_eq_dec : EqDecision Constant.
Proof. solve_decision. Defined.

(** * Expressions *)

Record FuncArg : Type := mkFuncArg { arg_idx : ValId; arg_tpe : SType }.
#[global] Instance FuncArg_eq_dec : EqDecision FuncArg.
Proof. solve_decision. Defined.

(** The struct [SFunc]. *)
Record SFuncType : Type := mkSFunc { t_dom : list SType; t_range : SType; tpe_params : list STypeParam }.
#[global] Instance SFuncType_eq_dec : EqDecision SFuncType.
Proof. solve_decision. Defined.

Inductive ArithOp : Type := Plus | Minus | Multiply | Divide | Max | Min | Modulo.
(** [Gt] and [Lt] with a prefix, next to the constructors of [comparison]. *)
Inductive RelationOp : Type := REq | RNEq | RGe | RGt | RLe | RLt.
Inductive LogicalOp : Type := LogicalAnd | LogicalOr | LogicalXor.
Inductive BitOp : Type := BitOr | BitAnd | BitXor.
Inductive BinOpKind : Type :=
| Arith (op : ArithOp) | Relation (op : RelationOp) | Logical (op : LogicalOp) | Bit (op : BitOp).
#[global] Instance BinOpKind_eq_dec : EqDecision BinOpKind.
Proof. unfold EqDecision, Decision. decide equality; decide equality. Defined.

Inductive GlobalVars : Type :=
| Inputs | Outputs | Height | SelfBox | MinerPubKey | LastBlockUtxoRootHash | GroupGenerator.
#[global] Instance GlobalVars_eq_dec : EqDecision GlobalVars.
Proof. solve_decision. Defined.

Inductive Expr : Type :=
| Append (input col_2 : Expr)
| Const (c : Constant)
| ConstPlaceholder (id : Z) (tpe : SType)
| ByteArrayToLong (input : Expr)
| ByteArrayToBigInt (input : Expr)
| LongToByteArray (input : Expr)
| BoolConstants (bools : list bool)
| Exprs (elem_tpe : SType) (items : list Expr)
| Tuple (items : list Expr)
| CalcBlake2b256 (input : Expr)
| CalcSha256 (input : Expr)
| EContext
| EGlobal
| EGlobalVars (v : GlobalVars)
| FuncValue (args : list FuncArg) (body : Expr) (tpe : SType)
| Apply (func : Expr) (args : list Expr)
| BlockValue (items : list Expr) (result : Expr)
| ValDef (id : ValId) (tpe_args : list STypeVar) (rhs : Expr)
| ValUse (val_id : ValId) (tpe : SType)
| If (condition true_branch false_branch : Expr)
| BinOp (kind : BinOpKind) (left right : Expr)
| And (input : Expr)
| Or (input : Expr)
| Xor (left right : Expr)
| Atleast (bound input : Expr)
| LogicalNot (input : Expr)
| Negation (input : Expr)
| BitInversion (input : Expr)
| OptionGet (input : Expr)
| OptionIsDefined (input : Expr)
| OptionGetOrElse (input default : Expr)
| ByIndex (input index : Expr) (default : option Expr)
| SizeOf (input : Expr)
| Slice (input from until : Expr)
| Fold (input zero fold_op : Expr)
| Map (input mapper : Expr) (mapper_sfunc : SFuncType)
| Filter (input condition : Expr) (elem_tpe : SType)
| Exists (input condition : Expr) (elem_tpe : SType)
| ForAll (input condition : Expr) (elem_tpe : SType)
| SelectField (input : Expr) (field_index : Z) (field_tpe : SType)
| BoolToSigmaProp (input : Expr)
| Upcast (input : Expr) (tpe : SType)
| Downcast (input : Expr) (tpe : SType)
| CreateProveDlog (input : Expr)
| CreateProveDhTuple (g h u v : Expr)
| SigmaAnd (items : list Expr)
| SigmaOr (items : list Expr)
| MultiplyGroup (left right : Expr)
| XorOf (input : Expr).

(** [Expr::tpe], and the [tpe] of every node. *)
Fixpoint tpe (e : Expr) : SType :=
  match e with
  | Append input _ => tpe input
  | Const c => const_tpe c
  | ConstPlaceholder _ t => t
  | ByteArrayToLong _ => SLong
  | ByteArrayToBigInt _ => SBigInt
  | LongToByteArray _ => SColl SByte
  | BoolConstants _ => SColl SBoolean
  | Exprs elem_tpe _ => SColl elem_tpe
  | Tuple items => STuple (map tpe items)
  | CalcBlake2b256 _ | CalcSha256 _ => SColl SByte
  | EContext => SContext
  | EGlobal => SGlobal
  | EGlobalVars v =>
      match v with
      | Inputs | Outputs => SColl SBox
      | Height => SInt
      | SelfBox => SBox
      | MinerPubKey => SColl SByte
      | LastBlockUtxoRootHash => SAvlTree
      | GroupGenerator => SGroupElement
      end
  | FuncValue _ _ t => t
  | Apply func _ =>
      match tpe func with SFunc _ t_range _ => t_range | SColl elem_tpe => elem_tpe | _ => SNoType end
  | BlockValue _ result => tpe result
  | ValDef _ _ rhs => tpe rhs
  | ValUse _ t => t
  | If _ true_branch _ => tpe true_branch
  | BinOp kind lhs _ => match kind with Relation _ | Logical _ => SBoolean | Arith _ | Bit _ => tpe lhs end
  | And _ | Or _ | XorOf _ | LogicalNot _ => SBoolean
  | Xor _ _ => SColl SByte
  | Atleast _ _ => SSigmaProp
  | Negation input | BitInversion input => tpe input
  | OptionGet input | OptionGetOrElse input _ =>
      match tpe input with SOption elem_tpe => elem_tpe | _ => SNoType end
  | OptionIsDefined _ => SBoolean
  | ByIndex input _ _ => match tpe input with SColl elem_tpe => elem_tpe | STuple _ => SAny | _ => SNoType end
  | SizeOf _ => SInt
  | Slice input _ _ => tpe input
  | Fold _ zero _ => tpe zero
  | Map _ _ mapper_sfunc => SColl (t_range mapper_sfunc)
  | Filter _ _ elem_tpe => SColl elem_tpe
  | Exists _ _ _ | ForAll _ _ _ => SBoolean
  | SelectField _ _ field_tpe => field_tpe
  | BoolToSigmaProp _ => SSigmaProp
  | Upcast _ t | Downcast _ t => t
  | CreateProveDlog _ | CreateProveDhTuple _ _ _ _ => SSigmaProp
  | SigmaAnd _ | SigmaOr _ => SSigmaProp
  | MultiplyGroup lhs _ => tpe lhs
  end.

(** [FuncValue::new] *)
Definition func_value_new (args : list FuncArg) (body : Expr) : Expr :=
  FuncValue args body (SFunc (map arg_tpe args) (tpe body) []).

(** How many nodes lie on the longest path. *)
Fixpoint depth (e : Expr) : nat :=
  match e with
  | Const _ | ConstPlaceholder _ _ | BoolConstants _ | EContext | EGlobal | EGlobalVars _ | ValUse _ _ => 1
  | ByteArrayToLong e | ByteArrayToBigInt e | LongToByteArray e | CalcBlake2b256 e | CalcSha256 e
  | FuncValue _ e _ | ValDef _ _ e | And e | Or e | XorOf e | LogicalNot e | Negation e | BitInversion e
  | OptionGet e | OptionIsDefined e | SizeOf e | SelectField e _ _ | BoolToSigmaProp e | Upcast e _
  | Downcast e _ | CreateProveDlog e => S (depth e)
  | Append a b | BinOp _ a b | Xor a b | Atleast a b | OptionGetOrElse a b | Map a b _ | Filter a b _
  | Exists a b _ | ForAll a b _ | MultiplyGroup a b => S (depth a `max` depth b)
  | If a b c | Slice a b c | Fold a b c => S (depth a `max` depth b `max` depth c)
  | ByIndex a b d => S (depth a `max` depth b `max` match d with Some c => depth c | None => 0 end)
  | CreateProveDhTuple a b c d => S (depth a `max` depth b `max` depth c `max` depth d)
  | Exprs _ items | Tuple items | SigmaAnd items | SigmaOr items => S (max_list_with depth items)
  | Apply func args => S (depth func `max` max_list_with depth args)
  | BlockValue items result => S (max_list_with depth items `max` depth result)
  end%nat.

Fixpoint expr_eq_dec (x y : Expr) {struct x} : {x = y} + {x <> y}.
Proof.
  refine (
    match x, y with
    | Const a, Const b => cast_if (decide (a = b))
    | ConstPlaceholder i t, ConstPlaceholder j u => cast_if_and (decide (i = j)) (decide (t = u))
    | BoolConstants a, BoolConstants b => cast_if (decide (a = b))
    | EContext, EContext | EGlobal, EGlobal => left eq_refl
    | EGlobalVars a, EGlobalVars b => cast_if (decide (a = b))
    | ValUse i t, ValUse j u => cast_if_and (decide (i = j)) (decide (t = u))
    | ByteArrayToLong a, ByteArrayToLong b | ByteArrayToBigInt a, ByteArrayToBigInt b
    | LongToByteArray a, LongToByteArray b | CalcBlake2b256 a, CalcBlake2b256 b | CalcSha256 a, CalcSha256 b
    | And a, And b | Or a, Or b | XorOf a, XorOf b | LogicalNot a, LogicalNot b | Negation a, Negation b
    | BitInversion a, BitInversion b | OptionGet a, OptionGet b | OptionIsDefined a, OptionIsDefined b
    | SizeOf a, SizeOf b | BoolToSigmaProp a, BoolToSigmaProp b | CreateProveDlog a, CreateProveDlog b =>
        cast_if (expr_eq_dec a b)
    | FuncValue l a t, FuncValue m b u => cast_if_and3 (decide (l = m)) (expr_eq_dec a b) (decide (t = u))
    | ValDef i l a, ValDef j m b => cast_if_and3 (decide (i = j)) (decide (l = m)) (expr_eq_dec a b)
    | SelectField a i t, SelectField b j u => cast_if_and3 (expr_eq_dec a b) (decide (i = j)) (decide (t = u))
    | Upcast a t, Upcast b u | Downcast a t, Downcast b u => cast_if_and (expr_eq_dec a b) (decide (t = u))
    | Append a b, Append c d | Xor a b, Xor c d | Atleast a b, Atleast c d
    | OptionGetOrElse a b, OptionGetOrElse c d | MultiplyGroup a b, MultiplyGroup c d =>
        cast_if_and (expr_eq_dec a c) (expr_eq_dec b d)
    | BinOp k a b, BinOp l c d => cast_if_and3 (decide (k = l)) (expr_eq_dec a c) (expr_eq_dec b d)
    | Map a b f, Map c d g => cast_if_and3 (expr_eq_dec a c) (expr_eq_dec b d) (decide (f = g))
    | Filter a b t, Filter c d u | Exists a b t, Exists c d u | ForAll a b t, ForAll c d u =>
        cast_if_and3 (expr_eq_dec a c) (expr_eq_dec b d) (decide (t = u))
    | If a b c, If d e f | Slice a b c, Slice d e f | Fold a b c, Fold d e f =>
        cast_if_and3 (expr_eq_dec a d) (expr_eq_dec b e) (expr_eq_dec c f)
    | ByIndex a b None, ByIndex c d None => cast_if_and (expr_eq_dec a c) (expr_eq_dec b d)
    | ByIndex a b (Some e), ByIndex c d (Some f) =>
        cast_if_and3 (expr_eq_dec a c) (expr_eq_dec b d) (expr_eq_dec e f)
    | CreateProveDhTuple a b c d, CreateProveDhTuple e f g h =>
        cast_if_and4 (expr_eq_dec a e) (expr_eq_dec b f) (expr_eq_dec c g) (expr_eq_dec d h)
    | Exprs t l, Exprs u m => cast_if_and (decide (t = u)) (@list_eq_dec _ expr_eq_dec l m)
    | Tuple l, Tuple m | SigmaAnd l, SigmaAnd m | SigmaOr l, SigmaOr m =>
        cast_if (@list_eq_dec _ expr_eq_dec l m)
    | Apply a l, Apply b m => cast_if_and (expr_eq_dec a b) (@list_eq_dec _ expr_eq_dec l m)
    | BlockValue l a, BlockValue m b => cast_if_and (@list_eq_dec _ expr_eq_dec l m) (expr_eq_dec a b)
    | _, _ => right _
    end); abstract congruence.
Defined.
#[global] Instance Expr_eq_dec : EqDecision Expr := expr_eq_dec.
End expr.
