(* ===== verification/Value.v ===== *)
(** What an evaluation works on: values (src/ergotree-ir/src/mir/value.rs), the environment
    (src/ergotree-interpreter/src/eval/env.rs), the context with the accumulated cost
    (src/ergotree-ir/src/chain/context.rs), and the monad that threads environment and cost, with the rules for
    reasoning about it. *)

From stdpp Require Import strings gmap.
From S2P Require Import Prelude StateLogic SigmaBoolean Header Types Expr.
#[local] Open Scope Z_scope.

(** * Values *)

Section value.
Context `{C : SigmaCrypto} {Bx : ErgoBoxData}.

(** [Value]; the struct [Lambda] is the last constructor's arguments. *)
Inductive Value : Type :=
| VBoolean (b : bool)
| VByte (z : Z)
| VShort (z : Z)
| VInt (z : Z)
| VLong (z : Z)
| VUnit
| VBigInt (z : Z)
| VGroupElement (p : EcPoint)
| VSigmaProp (p : SigmaBoolean)
| VUnsignedBigInt (z : Z)
| VCBox (b : ErgoBox)
| VAvlTree (t : AvlTreeData)
| VColl (c : CollKind Value)
| VTup (items : list Value)
| VContext
| VString (s : list Z)
| VHeader (h : Header)
| VPreHeader (h : PreHeader)
| VGlobal
| VOpt (o : option Value)
| VLambda (args : list FuncArg) (body : Expr) (captured : list (ValId * Value)).

Definition pair_eq_dec {A B} (fa : forall x y : A, {x = y} + {x <> y}) (fb : forall x y : B, {x = y} + {x <> y})
    (p q : A * B) : {p = q} + {p <> q}.
Proof.
  refine (match p, q with (a, b), (c, d) => cast_if_and (fa a c) (fb b d) end); abstract congruence.
Defined.

Fixpoint value_eq_dec (x y : Value) {struct x} : {x = y} + {x <> y}.
Proof.
  refine (
    match x, y with
    | VBoolean a, VBoolean b => cast_if (decide (a = b))
    | VByte a, VByte b | VShort a, VShort b | VInt a, VInt b | VLong a, VLong b
    | VBigInt a, VBigInt b | VUnsignedBigInt a, VUnsignedBigInt b => cast_if (decide (a = b))
    | VString a, VString b => cast_if (decide (a = b))
    | VSigmaProp a, VSigmaProp b => cast_if (decide (a = b))
    | VGroupElement a, VGroupElement b => cast_if (decide (a = b))
    | VAvlTree a, VAvlTree b => cast_if (decide (a = b))
    | VHeader a, VHeader b => cast_if (decide (a = b))
    | VPreHeader a, VPreHeader b => cast_if (decide (a = b))
    | VCBox a, VCBox b => cast_if (decide (a = b))
    | VUnit, VUnit | VContext, VContext | VGlobal, VGlobal => left eq_refl
    | VColl a, VColl b => cast_if (coll_eq_dec value_eq_dec a b)
    | VOpt None, VOpt None => left eq_refl
    | VOpt (Some a), VOpt (Some b) => cast_if (value_eq_dec a b)
    | VTup a, VTup b => cast_if (@list_eq_dec _ value_eq_dec a b)
    | VLambda l a c, VLambda m b d =>
        cast_if_and3 (decide (l = m)) (decide (a = b))
          (@list_eq_dec _ (pair_eq_dec (fun i j : ValId => decide (i = j)) value_eq_dec) c d)
    | _, _ => right _
    end); abstract congruence.
Defined.
#[global] Instance Value_eq_dec : EqDecision Value := value_eq_dec.

(** Induction with the hypothesis for every item of a collection, tuple or option. *)
Lemma Value_ind' (P : Value -> Prop) :
  (forall v, match v with VColl (WrappedColl _ _) | VTup _ | VOpt (Some _) => False | _ => True end -> P v) ->
  (forall t items, Forall P items -> P (VColl (WrappedColl t items))) ->
  (forall items, Forall P items -> P (VTup items)) ->
  (forall v, P v -> P (VOpt (Some v))) ->
  forall v, P v.
Proof.
  intros Hf Hc Ht Ho. fix IH 1.
  intros [| | | | | | | | | | | |[c|t items]|items| | | | | |[v|]|]; try (by apply Hf).
  - apply Hc. induction items as [|x items IHi]; constructor; [apply IH|exact IHi].
  - apply Ht. induction items as [|x items IHi]; constructor; [apply IH|exact IHi].
  - apply Ho, IH.
Qed.

(** [CollKind::elem_tpe], [as_vec], [len], [get_val] and [from_collection]. *)
Definition elem_tpe_of {T} (c : CollKind T) : SType :=
  match c with Native _ => SByte | WrappedColl elem_tpe _ => elem_tpe end.
Definition as_vec (c : CollKind Value) : list Value :=
  match c with Native (CollByte bytes) => VByte <$> bytes | WrappedColl _ items => items end.
Definition coll_len {T} (c : CollKind T) : nat :=
  match c with Native (CollByte bytes) => length bytes | WrappedColl _ items => length items end.
Definition get_val (c : CollKind Value) (index : Z) : option Value :=
  if index <? Z.of_nat (coll_len c) then as_vec c !! Z.to_nat index else None.

(** [From<Literal>] *)
Fixpoint value_of_literal (l : Literal) : Value :=
  match l with
  | LBoolean b => VBoolean b
  | LByte z => VByte z
  | LShort z => VShort z
  | LInt z => VInt z
  | LLong z => VLong z
  | LBigInt z => VBigInt z
  | LString s => VString s
  | LUnit => VUnit
  | LSigmaProp p => VSigmaProp p
  | LUnsignedBigInt z => VUnsignedBigInt z
  | LGroupElement p => VGroupElement p
  | LCBox b => VCBox b
  | LColl (Native c) => VColl (Native c)
  | LColl (WrappedColl elem_tpe items) => VColl (WrappedColl elem_tpe (map value_of_literal items))
  | LAvlTree t => VAvlTree t
  | LHeader h => VHeader h
  | LOpt None => VOpt None
  | LOpt (Some l) => VOpt (Some (value_of_literal l))
  | LTup items => VTup (map value_of_literal items)
  end.

(** Induction with the hypothesis for every component. *)
Lemma Literal_ind' (P : Literal -> Prop) :
  (forall l, match l with LColl (WrappedColl _ _) | LOpt (Some _) | LTup _ => False | _ => True end -> P l) ->
  (forall t items, Forall P items -> P (LColl (WrappedColl t items))) ->
  (forall l, P l -> P (LOpt (Some l))) ->
  (forall items, Forall P items -> P (LTup items)) ->
  forall l, P l.
Proof.
  intros Hf Hc Ho Ht. fix IH 1.
  intros [| | | | | | | | | | | | | |[c|t items]|[l|]|items]; try (by apply Hf).
  - apply Hc. induction items as [|x items IHi]; constructor; [apply IH|exact IHi].
  - apply Ho, IH.
  - apply Ht. induction items as [|x items IHi]; constructor; [apply IH|exact IHi].
Qed.
(** [From<Vec<u8>>] and the way back, [as_vec_i8] and [from_vec_i8]. *)
Definition value_of_bytes (l : list Z) : Value := VColl (Native (CollByte (wrap_s 8 <$> l))).
Definition as_vec_u8 (l : list Z) : list Z := wrap_u 8 <$> l.

(** * Errors *)

(** [EvalError], the variants these evaluators return. Texts are cut to their constant part; an error wrapped with
    a source span is the error itself. *)
Inductive EvalError : Type :=
| InvalidResultType
| UnexpectedExpr (text : string)
| CostError (limit : Z)
| TryExtractFrom (expected : string)
| NotFound (text : string)
| UnexpectedValue (text : string)
| ArithmeticException (text : string)
| Misc (text : string)
| BoundedVecError
| TreeVersionAboveActivated (version activated : Z)
(** [ErgoTreeError] around the error of the parser's library for a placeholder without its constant. *)
| ConstantForPlaceholderNotFound (id : Z)
(** A panic: integer overflow. *)
| EvalPanic
(** The fuel of the model. *)
| EvalFuel.

Definition try_bool (v : Value) : result EvalError bool :=
  match v with VBoolean b => Ok b | _ => Err (TryExtractFrom "bool") end.
Definition try_i8 (v : Value) : result EvalError Z :=
  match v with VByte z => Ok z | _ => Err (TryExtractFrom "i8") end.
Definition try_i16 (v : Value) : result EvalError Z :=
  match v with VShort z => Ok z | _ => Err (TryExtractFrom "i16") end.
Definition try_i32 (v : Value) : result EvalError Z :=
  match v with VInt z => Ok z | _ => Err (TryExtractFrom "i32") end.
Definition try_i64 (v : Value) : result EvalError Z :=
  match v with VLong z => Ok z | _ => Err (TryExtractFrom "i64") end.
Definition try_bigint (v : Value) : result EvalError Z :=
  match v with VBigInt z => Ok z | _ => Err (TryExtractFrom "BigInt256") end.
Definition try_unsigned_bigint (v : Value) : result EvalError Z :=
  match v with VUnsignedBigInt z => Ok z | _ => Err (TryExtractFrom "UnsignedBigInt") end.
Definition try_ec_point (v : Value) : result EvalError EcPoint :=
  match v with VGroupElement p => Ok p | _ => Err (TryExtractFrom "EcPoint") end.
Definition try_sigma_prop (v : Value) : result EvalError SigmaBoolean :=
  match v with VSigmaProp p => Ok p | _ => Err (TryExtractFrom "SigmaProp") end.
(** [Vec<bool>] and [Vec<u8>]. *)
Definition try_bools (v : Value) : result EvalError (list bool) :=
  match v with VColl (WrappedColl _ items) => mapM_res try_bool items | _ => Err (TryExtractFrom "Vec<bool>") end.
Definition try_bytes (v : Value) : result EvalError (list Z) :=
  match v with
  | VColl (Native (CollByte bytes)) => Ok (as_vec_u8 bytes)
  | _ => Err (TryExtractFrom "Vec<i8>")
  end.

Definition from_collection (elem_tpe : SType) (items : list Value) : result EvalError (CollKind Value) :=
  match elem_tpe with
  | SByte => bytes ← mapM_res try_i8 items; Ok (Native (CollByte bytes))
  | _ => Ok (WrappedColl elem_tpe items)
  end.

End value.

(** * Environment *)

Abbreviation Env := (gmap ValId Value).

Section env.
Context `{C : SigmaCrypto} {Bx : ErgoBoxData}.

(** [Env::empty], [is_empty], [insert], [remove] and [get] are those of finite maps; [env_from] inserts bindings one
    after the other. *)
Definition env_from (bindings : list (ValId * Value)) : Env := foldl (fun env p => <[p.1 := p.2]> env) ∅ bindings.
Definition env_is_empty (env : Env) : bool := bool_decide (env = ∅).
End env.

(** The order in which a [HashMap] keyed by a number iterates. *)
Class HashIter : Type := {
  hash_bindings {V} : gmap Z V -> list (Z * V);
  hash_bindings_perm {V} (m : gmap Z V) : hash_bindings m ≡ₚ map_to_list m
}.

(** * Context *)

Section context.
Context `{C : SigmaCrypto} {Bx : ErgoBoxData}.

(** [Context], with the values of the extension as constants; the accumulated cost is part of the state, and the provider
    of the other inputs' extensions is left out. *)
Record EvalContext : Type := mkEvalContext {
  activated_script_version_byte : Z;
  ctx_extension : list (Z * Constant);
  tree_version : Z;
  jit_cost_limit : option Z;
  constants : option (list Constant);
  ctx_height : Z;
  self_box : ErgoBox;
  outputs : list ErgoBox;
  inputs : list ErgoBox;
  ctx_data_inputs : option (list ErgoBox);
  ctx_headers : list Header;
  ctx_pre_header : PreHeader;
  last_block_utxo_root : AvlTreeData
}.

Definition extension_keys (ctx : EvalContext) : list Z := (ctx_extension ctx).*1.

Record EvalState : Type := mkEvalState { env : Env; jit_cost : Z }.

End context.

(** A computation of the interpreter. *)
Abbreviation evalM := (stateE EvalState EvalError).

Section context.
Context `{C : SigmaCrypto} {Bx : ErgoBoxData}.

Definition get_env : evalM Env := fun s => Ok (env s, s).
Definition put_env (e : Env) : evalM unit := fun s => Ok (tt, mkEvalState e (jit_cost s)).
Definition env_insert (i : ValId) (v : Value) : evalM unit := e ← get_env; put_env (<[i := v]> e).

(** A computation in an environment of its own: its cost is kept, the caller's environment is untouched. *)
Definition in_env {A} (e : Env) (m : evalM A) : evalM (A * Env) :=
  fun s => match m (mkEvalState e (jit_cost s)) with
           | Ok (a, s') => Ok ((a, env s'), mkEvalState (env s) (jit_cost s'))
           | Err err => Err err
           end.

Lemma wp_in_env {A} e (m : evalM A) Q X s :
  wp m (fun a s' => Q (a, env s') (mkEvalState (env s) (jit_cost s'))) X (mkEvalState e (jit_cost s)) ->
  wp (in_env e m) Q X s.
Proof. unfold wp, in_env. by destruct (m _) as [[a s']|err]. Qed.

Context (ctx : EvalContext).

(** [add_jit_cost]: saturating. *)
Definition add_jit_cost (amount : Z) : evalM unit := fun s =>
  let new := Z.min (jit_cost s + amount) (2 ^ 64 - 1) in
  match jit_cost_limit ctx with
  | Some limit => if limit <? new then Err (CostError limit) else Ok (tt, mkEvalState (env s) new)
  | None => Ok (tt, mkEvalState (env s) new)
  end.

(** [add_per_item_jit_cost]: the sum and the product are u32. *)
Definition add_per_item_jit_cost (base per_chunk chunk_size n_items : Z) : evalM unit :=
  let chunks := Z.max (Z.quot (n_items - 1) chunk_size + 1) 0 in
  let cost := base + chunks * per_chunk in
  if cost <? 2 ^ 32 then add_jit_cost cost else fail EvalPanic.

(** [len() as u32] *)
Definition len_u32 {A} (l : list A) : Z := wrap_u 32 (Z.of_nat (length l)).

(** * Checks of a value against a type (eval.rs) *)

Definition check_value_type (tpe : SType) : result EvalError unit :=
  match tpe with
  | STuple items => guard_or (length items =? 2)%nat (Misc "Unsupported tuple type")
  | SFunc t_dom _ _ => guard_or (length t_dom =? 1)%nat (Misc "Unsupported function type")
  | _ => Ok tt
  end.

Definition check_value_of_type (tpe : SType) (value : Value) : result EvalError unit :=
  _ ← check_value_type tpe;
  match tpe, value with
  | STuple _, VTup _ => Ok tt
  | STuple _, _ => Err (Misc "Invalid type returned by evaluator")
  | _, _ => Ok tt
  end.
End context.
