(* ===== verification/EvalOps.v ===== *)
(** Operations on values that do not evaluate expressions (src/ergotree-interpreter/src/eval/): numeric casts
    (upcast.rs, downcast.rs), arithmetic, relations and bit operations (bin_op.rs, negation.rs, bit_inversion.rs) over
    the interface to the 256-bit integers of crate bnum, and equality with its cost (data_value_comparer.rs). *)

From stdpp Require Import strings gmap.
From S2P Require Import Prelude SigmaBoolean Types BigNum Expr Value.
#[local] Open Scope Z_scope.

(** * Checked arithmetic *)

Definition fits_s (w z : Z) : bool := (- 2 ^ (w - 1) <=? z) && (z <? 2 ^ (w - 1)).
Definition fits_u (w z : Z) : bool := (0 <=? z) && (z <? 2 ^ w).

Definition checked (fits : Z -> bool) (z : Z) : option Z := if fits z then Some z else None.

(** The standard library's [checked_add], [checked_sub], [checked_mul], [checked_div], [checked_rem], [max] and [min]
    on integers for which [fits] tells what they hold. *)
Definition std_arith (fits : Z -> bool) (op : ArithOp) (a b : Z) : option Z :=
  match op with
  | Plus => checked fits (a + b)
  | Minus => checked fits (a - b)
  | Multiply => checked fits (a * b)
  | Divide => if b =? 0 then None else checked fits (Z.quot a b)
  | Modulo => if b =? 0 then None else if fits (Z.quot a b) then Some (Z.rem a b) else None
  | Max => Some (Z.max a b)
  | Min => Some (Z.min a b)
  end.

Definition std_bit (op : BitOp) (a b : Z) : Z :=
  match op with BitAnd => Z.land a b | BitOr => Z.lor a b | BitXor => Z.lxor a b end.

(** Types [I256] and [U256] of crate bnum: the checked operations, the bit operations and a conversion. *)
Class Bnum : Type := {
  i256_checked : ArithOp -> Z -> Z -> option Z;
  u256_checked : ArithOp -> Z -> Z -> option Z;
  i256_bit : BitOp -> Z -> Z -> Z;
  u256_bit : BitOp -> Z -> Z -> Z;
  i256_not : Z -> Z;
  i256_from_be_slice : list Z -> option Z
}.

(** They behave as the standard library's do on narrower integers; up to 32 bytes are an integer. *)
Class BnumLaws (N : Bnum) : Prop := {
  i256_checked_spec op a b : in_s 256 a -> in_s 256 b -> i256_checked op a b = std_arith (fits_s 256) op a b;
  u256_checked_spec op a b : in_u 256 a -> in_u 256 b -> u256_checked op a b = std_arith (fits_u 256) op a b;
  i256_bit_spec op a b : in_s 256 a -> in_s 256 b -> i256_bit op a b = std_bit op a b;
  u256_bit_spec op a b : in_u 256 a -> in_u 256 b -> u256_bit op a b = std_bit op a b;
  i256_not_spec a : in_s 256 a -> i256_not a = Z.lnot a;
  i256_from_be_slice_range l z : i256_from_be_slice l = Some z -> in_s 256 z;
  i256_from_be_slice_spec l :
    byte_list l -> l <> [] -> (length l <= 32)%nat -> i256_from_be_slice l = Some (signed_val l)
}.

Section ops.
Context `{C : SigmaCrypto} {Bx : ErgoBoxData} {N : Bnum}.

(** [BigInt256::from_be_slice] *)
Definition bigint_from_be_slice (slice : list Z) : option Z :=
  match slice with [] => None | _ => i256_from_be_slice slice end.

(** [CheckedRem for BigInt256] *)
Definition bigint_checked_rem (a v : Z) : option Z :=
  if v <? 0 then None
  else match i256_checked Modulo a v with
       | None => None
       | Some rem => if rem <? 0 then Some (rem + v) else Some rem
       end.

Definition bigint_min_value : Z := - 2 ^ 255.

(** [CheckedNeg for BigInt256] *)
Definition bigint_checked_neg (a : Z) : option Z := if a =? bigint_min_value then None else Some (- a).

(** A numeric type as the generic evaluators use it: extraction from a value and back, and the operations. *)
Record NumT : Type := mkNumT {
  nt_try : Value -> result EvalError Z;
  nt_into : Z -> Value;
  nt_arith : ArithOp -> Z -> Z -> option Z;
  nt_bit : BitOp -> Z -> Z -> Z
}.

Definition bigint_arith (op : ArithOp) (a b : Z) : option Z :=
  match op with
  | Modulo => bigint_checked_rem a b
  | Max => Some (Z.max a b)
  | Min => Some (Z.min a b)
  | _ => i256_checked op a b
  end.

Definition unsigned_bigint_arith (op : ArithOp) (a b : Z) : option Z :=
  match op with
  | Max => Some (Z.max a b)
  | Min => Some (Z.min a b)
  | _ => u256_checked op a b
  end.

(** The match of the operators on the left operand. *)
Definition num_of (lv : Value) : option (NumT * Z) :=
  match lv with
  | VByte z => Some (mkNumT try_i8 VByte (std_arith (fits_s 8)) std_bit, z)
  | VShort z => Some (mkNumT try_i16 VShort (std_arith (fits_s 16)) std_bit, z)
  | VInt z => Some (mkNumT try_i32 VInt (std_arith (fits_s 32)) std_bit, z)
  | VLong z => Some (mkNumT try_i64 VLong (std_arith (fits_s 64)) std_bit, z)
  | VBigInt z => Some (mkNumT try_bigint VBigInt bigint_arith i256_bit, z)
  | VUnsignedBigInt z => Some (mkNumT try_unsigned_bigint VUnsignedBigInt unsigned_bigint_arith u256_bit, z)
  | _ => None
  end.

(** [eval_plus], [eval_minus], [eval_mul], [eval_div], [eval_mod], [eval_max] and [eval_min], after the match. *)
Definition eval_arith (op : ArithOp) (lv rv : Value) : result EvalError Value :=
  match num_of lv with
  | None => Err (UnexpectedValue "expected BinOp::left to be numeric value")
  | Some (T, lv_raw) =>
      rv_raw ← nt_try T rv;
      match nt_arith T op lv_raw rv_raw with
      | Some z => Ok (nt_into T z)
      | None => Err (ArithmeticException
                       match op with Divide | Modulo => "resulted in exception" | _ => "resulted in overflow" end)
      end
  end.

(** [eval_gt], [eval_lt], [eval_ge] and [eval_le]. *)
Definition relation_holds (op : RelationOp) (a b : Z) : bool :=
  match op with
  | RGe => b <=? a | RGt => b <? a | RLe => a <=? b | RLt => a <? b
  | REq => a =? b | RNEq => negb (a =? b)
  end.
Definition eval_relation (op : RelationOp) (lv rv : Value) : result EvalError Value :=
  match num_of lv with
  | None => Err (UnexpectedValue "expected BinOp::left to be numeric value")
  | Some (T, lv_raw) => rv_raw ← nt_try T rv; Ok (VBoolean (relation_holds op lv_raw rv_raw))
  end.

(** * Casts *)

Definition bigint_gate (ver : Z) (v : Value) (e : EvalError) : result EvalError Value :=
  if 3 <=? ver then Ok v else Err e.

Definition upcast_to_bigint (ver : Z) (in_v : Value) : result EvalError Value :=
  match in_v with
  | VByte v | VShort v | VInt v | VLong v => Ok (VBigInt v)
  | VBigInt _ => bigint_gate ver in_v (UnexpectedValue "Upcast: cannot upcast to BigInt")
  | _ => Err (UnexpectedValue "Upcast: cannot upcast to BigInt")
  end.
Definition upcast_to_long (in_v : Value) : result EvalError Value :=
  match in_v with
  | VByte v | VShort v | VInt v => Ok (VLong v)
  | VLong _ => Ok in_v
  | _ => Err (UnexpectedValue "Upcast: cannot upcast to Long")
  end.
Definition upcast_to_int (in_v : Value) : result EvalError Value :=
  match in_v with
  | VByte v | VShort v => Ok (VInt v)
  | VInt _ => Ok in_v
  | _ => Err (UnexpectedValue "Upcast: cannot upcast to Int")
  end.
Definition upcast_to_short (in_v : Value) : result EvalError Value :=
  match in_v with
  | VByte v => Ok (VShort v)
  | VShort _ => Ok in_v
  | _ => Err (UnexpectedValue "Upcast: cannot upcast to Short")
  end.
Definition upcast_to_byte (in_v : Value) : result EvalError Value :=
  match in_v with VByte _ => Ok in_v | _ => Err (UnexpectedValue "Upcast: cannot upcast to Byte") end.

(** The inner [non_negative] of both casts to UnsignedBigInt. *)
Definition non_negative (v : Z) : result EvalError Value :=
  if v <? 0 then Err (UnexpectedValue "cannot cast negative value to UnsignedBigInt") else Ok (VUnsignedBigInt v).
Definition upcast_to_unsigned_bigint (in_v : Value) : result EvalError Value :=
  match in_v with
  | VByte v | VShort v | VInt v | VLong v => non_negative v
  | VUnsignedBigInt _ => Ok in_v
  | _ => Err (UnexpectedValue "Upcast: cannot upcast to UnsignedBigInt")
  end.

(** The match on the target type in [Upcast::eval]. *)
Definition upcast_to (ver : Z) (tpe : SType) (in_v : Value) : result EvalError Value :=
  match tpe with
  | SBigInt => upcast_to_bigint ver in_v
  | SLong => upcast_to_long in_v
  | SInt => upcast_to_int in_v
  | SShort => upcast_to_short in_v
  | SByte => upcast_to_byte in_v
  | SUnsignedBigInt => upcast_to_unsigned_bigint in_v
  | _ => Err (UnexpectedValue "Upcast: expected numeric value")
  end.

Definition numeric_width (v : Value) : option Z :=
  match v with
  | VByte _ => Some 0 | VShort _ => Some 1 | VInt _ => Some 2 | VLong _ => Some 3 | VBigInt _ => Some 4
  | _ => None
  end.

Definition coerce_numeric_to (ver : Z) (v : Value) (width : Z) : result EvalError Value :=
  if width =? 4 then upcast_to_bigint ver v
  else if width =? 3 then upcast_to_long v
  else if width =? 2 then upcast_to_int v
  else if width =? 1 then upcast_to_short v
  else Ok v.

(** [wrap_downcast] of [to_i64], [to_i32], [to_i16] and [to_i8]. *)
Definition wrap_downcast (w : Z) (into : Z -> Value) (v : Z) : result EvalError Value :=
  match checked (fits_s w) v with
  | Some v => Ok (into v)
  | None => Err (UnexpectedValue "Downcast: overflow")
  end.

Definition cannot_downcast : EvalError := UnexpectedValue "Downcast: cannot downcast".

(** A cast from one of the big integers: only from version 3 on. *)
Definition downcast_gate (ver : Z) (r : result EvalError Value) : result EvalError Value :=
  if 3 <=? ver then r else Err cannot_downcast.

Definition downcast_to_bigint (ver : Z) (in_v : Value) : result EvalError Value :=
  match in_v with
  | VByte v | VShort v | VInt v | VLong v => Ok (VBigInt v)
  | VBigInt _ => downcast_gate ver (Ok in_v)
  | _ => Err cannot_downcast
  end.
Definition downcast_to_long (ver : Z) (in_v : Value) : result EvalError Value :=
  match in_v with
  | VByte v | VShort v | VInt v => Ok (VLong v)
  | VLong _ => Ok in_v
  | VBigInt v | VUnsignedBigInt v => downcast_gate ver (wrap_downcast 64 VLong v)
  | _ => Err cannot_downcast
  end.
Definition downcast_to_int (ver : Z) (in_v : Value) : result EvalError Value :=
  match in_v with
  | VByte v | VShort v => Ok (VInt v)
  | VInt _ => Ok in_v
  | VLong v => wrap_downcast 32 VInt v
  | VBigInt v | VUnsignedBigInt v => downcast_gate ver (wrap_downcast 32 VInt v)
  | _ => Err cannot_downcast
  end.
(** There is no case for a Byte. *)
Definition downcast_to_short (ver : Z) (in_v : Value) : result EvalError Value :=
  match in_v with
  | VShort _ => Ok in_v
  | VInt v | VLong v => wrap_downcast 16 VShort v
  | VBigInt v | VUnsignedBigInt v => downcast_gate ver (wrap_downcast 16 VShort v)
  | _ => Err cannot_downcast
  end.
Definition downcast_to_byte (ver : Z) (in_v : Value) : result EvalError Value :=
  match in_v with
  | VByte _ => Ok in_v
  | VShort v | VInt v | VLong v => wrap_downcast 8 VByte v
  | VBigInt v | VUnsignedBigInt v => downcast_gate ver (wrap_downcast 8 VByte v)
  | _ => Err cannot_downcast
  end.
Definition downcast_to_unsigned_bigint (in_v : Value) : result EvalError Value :=
  match in_v with
  | VByte v | VShort v | VInt v | VLong v => non_negative v
  | VUnsignedBigInt _ => Ok in_v
  | _ => Err cannot_downcast
  end.

(** The match on the target type in [Downcast::eval]. *)
Definition downcast_to (ver : Z) (tpe : SType) (in_v : Value) : result EvalError Value :=
  match tpe with
  | SBigInt => downcast_to_bigint ver in_v
  | SLong => downcast_to_long ver in_v
  | SInt => downcast_to_int ver in_v
  | SShort => downcast_to_short ver in_v
  | SByte => downcast_to_byte ver in_v
  | SUnsignedBigInt => downcast_to_unsigned_bigint in_v
  | _ => Err (UnexpectedValue "Downcast: expected numeric value")
  end.

(** [TypeBased(bigint=30, unsignedbigint=30, other=10)] *)
Definition cast_cost (tpe : SType) : Z := match tpe with SBigInt | SUnsignedBigInt => 30 | _ => 10 end.

(** [Negation::eval] and [BitInversion::eval] after their input. *)
Definition negate_value (input_v : Value) : result EvalError Value :=
  match input_v with
  | VByte v => Ok (VByte (wrap_s 8 (- v)))
  | VShort v => Ok (VShort (wrap_s 16 (- v)))
  | VInt v => Ok (VInt (wrap_s 32 (- v)))
  | VLong v => Ok (VLong (wrap_s 64 (- v)))
  | VBigInt v =>
      match bigint_checked_neg v with
      | Some v => Ok (VBigInt v)
      | None => Err (ArithmeticException "Overflow on Negation of value")
      end
  | _ => Err (UnexpectedValue "Expected Negation input to be numeric value")
  end.

Definition invert_bits (input_v : Value) : result EvalError Value :=
  match input_v with
  | VByte v => Ok (VByte (Z.lnot v))
  | VShort v => Ok (VShort (Z.lnot v))
  | VInt v => Ok (VInt (Z.lnot v))
  | VLong v => Ok (VLong (Z.lnot v))
  | VBigInt v => Ok (VBigInt (i256_not v))
  | _ => Err (UnexpectedValue "Expected BitInversion input to be numeric value")
  end.
End ops.

(** * Equality and its cost (data_value_comparer.rs) *)

(** A loop over pairs of items that stops at the first false; the second form counts the pairs it looked at. *)
Section eq_loops.
Context {A : Type} `{C : SigmaCrypto} {Bx : ErgoBoxData} (eq : A -> A -> evalM bool).
Fixpoint eq_items (l r : list A) : evalM bool :=
  match l, r with
  | x :: l, y :: r => b ← eq x y; if (b : bool) then eq_items l r else mret false
  | _, _ => mret true
  end.
Fixpoint eq_counting (compared : Z) (l r : list A) : evalM (Z * bool) :=
  match l, r with
  | x :: l, y :: r => b ← eq x y; if (b : bool) then eq_counting (compared + 1) l r else mret (compared + 1, false)
  | _, _ => mret (compared, true)
  end.
End eq_loops.

(** [position(|(a, b)| a != b)] over the zipped items. *)
Fixpoint first_mismatch {A} `{EqDecision A} (l r : list A) : option nat :=
  match l, r with
  | x :: l, y :: r => if decide (x = y) then S <$> first_mismatch l r else Some 0%nat
  | _, _ => None
  end.

Section comparer.
Context `{C : SigmaCrypto} {Bx : ErgoBoxData} (ctx : EvalContext).

Definition eq_prim_cost : Z := 3.
Definition eq_bigint_cost : Z := 5.
Definition eq_group_element_cost : Z := 172.
Definition eq_tuple_cost : Z := 4.
Definition eq_option_cost : Z := 4.
Definition eq_avl_tree_cost : Z := 6.
Definition eq_box_cost : Z := 6.
Definition eq_preheader_cost : Z := 4.
Definition eq_header_cost : Z := 6.
Definition match_type_cost : Z := 1.

(** [coll_eq_cost], the constants [EQ_COLL_*_PER_ITEM] in place. *)
Definition coll_eq_cost {T} (coll : CollKind T) : option (Z * Z * Z) :=
  match coll with
  | Native _ => Some (15, 2, 128)
  | WrappedColl elem_tpe _ =>
      match elem_tpe with
      | SShort => Some (15, 2, 96)
      | SInt => Some (15, 2, 64)
      | SLong => Some (15, 2, 48)
      | SBoolean => Some (15, 2, 128)
      | SBigInt | SUnsignedBigInt => Some (15, 7, 5)
      | SGroupElement => Some (15, 5, 1)
      | SAvlTree => Some (15, 5, 2)
      | SBox => Some (15, 5, 1)
      | SPreHeader => Some (15, 3, 1)
      | SHeader => Some (15, 5, 1)
      | _ => None
      end
  end.

Definition coll_eq_compared_count (l r : CollKind Value) : Z :=
  let first_mismatch := match l, r with
                        | Native (CollByte la), Native (CollByte ra) => first_mismatch la ra
                        | WrappedColl _ li, WrappedColl _ ri => first_mismatch li ri
                        | _, _ => None
                        end in
  match first_mismatch with
  | Some idx => wrap_u 32 (Z.of_nat idx) + 1
  | None => wrap_u 32 (Z.of_nat (coll_len l))
  end.

(** One pair of points, and the loop over the four pairs of a ProveDhTuple. *)
Definition eq_point (p q : EcPoint) : evalM bool :=
  _ ← add_jit_cost ctx eq_group_element_cost; mret (bool_decide (p = q)).

Fixpoint eq_sigma_bool_with_cost (l r : SigmaBoolean) {struct l} : evalM bool :=
  _ ← add_jit_cost ctx match_type_cost;
  match l, r with
  | ProofOfKnowledge (ProveDlog x), ProofOfKnowledge (ProveDlog y) => eq_point x y
  | ProofOfKnowledge (ProveDhTuple g h u v), ProofOfKnowledge (ProveDhTuple g' h' u' v') =>
      eq_items eq_point [g; h; u; v] [g'; h'; u'; v']
  | TrivialProp a, TrivialProp b => mret (bool_decide (a = b))
  | SigmaConjecture Cand xs, SigmaConjecture Cand ys | SigmaConjecture Cor xs, SigmaConjecture Cor ys =>
      if (length xs =? length ys)%nat then eq_items eq_sigma_bool_with_cost xs ys else mret false
  | SigmaConjecture (Cthreshold k) xs, SigmaConjecture (Cthreshold k') ys =>
      if k =? k' then if (length xs =? length ys)%nat then eq_items eq_sigma_bool_with_cost xs ys else mret false
      else mret false
  | SigmaConjecture _ _, _ => fail (Misc "Cannot compare SigmaBoolean values: unknown type")
  | _, _ => mret false
  end.

Fixpoint eq_with_cost (lv rv : Value) {struct lv} : evalM bool :=
  let eq_flat (cost : Z) : evalM bool := _ ← add_jit_cost ctx cost; mret (bool_decide (lv = rv)) in
  match lv, rv with
  | VBoolean _, VBoolean _ | VByte _, VByte _ | VShort _, VShort _ | VInt _, VInt _ | VLong _, VLong _ =>
      eq_flat eq_prim_cost
  | VBigInt _, VBigInt _ | VUnsignedBigInt _, VUnsignedBigInt _ => eq_flat eq_bigint_cost
  | VGroupElement _, VGroupElement _ => eq_flat eq_group_element_cost
  | VCBox _, VCBox _ => eq_flat eq_box_cost
  | VAvlTree _, VAvlTree _ => eq_flat eq_avl_tree_cost
  | VTup l_items, VTup r_items =>
      _ ← add_jit_cost ctx eq_tuple_cost;
      if (length l_items =? length r_items)%nat then eq_items eq_with_cost l_items r_items else mret false
  | VOpt l_opt, VOpt r_opt =>
      _ ← add_jit_cost ctx eq_option_cost;
      match l_opt, r_opt with
      | None, None => mret true
      | Some l, Some r => eq_with_cost l r
      | _, _ => mret false
      end
  | VColl l_coll, VColl r_coll =>
      _ ← add_jit_cost ctx match_type_cost;
      if (coll_len l_coll =? coll_len r_coll)%nat then
        match coll_eq_cost l_coll with
        | Some (base, per_chunk, chunk_size) =>
            _ ← add_per_item_jit_cost ctx base per_chunk chunk_size (coll_eq_compared_count l_coll r_coll);
            mret (bool_decide (lv = rv))
        | None =>
            p ← match l_coll with
                | WrappedColl _ l_items => eq_counting eq_with_cost 0 l_items (as_vec r_coll)
                | Native _ => mret (0, true) (* its cost is not None *)
                end;
            _ ← add_per_item_jit_cost ctx 10 2 1 p.1;
            mret p.2
        end
      else mret false
  | VHeader _, VHeader _ => eq_flat eq_header_cost
  | VPreHeader _, VPreHeader _ => eq_flat eq_preheader_cost
  | VSigmaProp l, VSigmaProp r => _ ← add_jit_cost ctx match_type_cost; eq_sigma_bool_with_cost l r
  | _, _ => eq_flat eq_prim_cost
  end.
End comparer.
