(* ===== verification/Eval.v ===== *)
(** The evaluator of expressions (src/ergotree-interpreter/src/eval/): one definition per node, over the evaluator of
    its children, put together by [eval], which recurses on fuel because the body of a lambda is not a part of the
    expression that calls it. *)

From stdpp Require Import strings gmap.
From S2P Require Import Prelude SigmaBoolean Types Expr Value EvalOps.
#[local] Open Scope Z_scope.

(** [sha256_hash], of crate sha2. *)
Class Sha256 : Type := { sha256_hash : list Z -> list Z }.

Section eval.
Context `{C : SigmaCrypto} {Bx : ErgoBoxData} {N : Bnum} {Sh : Sha256} {HI : HashIter}.
Context (ctx : EvalContext).

(** A value and a check of it, which the source makes one after the other. *)
Definition checked_value (e : Expr) (m : evalM Value) : evalM Value :=
  v ← m; _ ← liftE (check_value_of_type (tpe e) v); mret v.

Section nodes.
Context (eval : Expr -> evalM Value).

(** * Lambdas (eval.rs, func_value.rs, apply.rs) *)

Fixpoint bind_args (args : list FuncArg) (vals : list Value) : evalM unit :=
  match args, vals with
  | arg :: args, v :: vals =>
      _ ← liftE (check_value_of_type (arg_tpe arg) v);
      _ ← add_jit_cost ctx 5;
      _ ← env_insert (arg_idx arg) v;
      bind_args args vals
  | _, _ => mret tt
  end.

(** [LambdaInvoker::invoke]: the invoker's environment goes in and comes out. *)
Definition invoke (args : list FuncArg) (body : Expr) (invoker : Env) (vals : list Value) : evalM (Value * Env) :=
  in_env invoker (_ ← bind_args args vals; checked_value body (eval body)).

(** The lambda a collection operation gets, with the environment [LambdaInvoker::new] makes. *)
Definition lambda_of (v : Value) : result EvalError (list FuncArg * Expr * Env) :=
  match v with
  | VLambda args body captured =>
      _ ← guard_or (0 <? length args)%nat (NotFound "empty arguments list");
      Ok (args, body, env_from captured)
  | _ => Err (UnexpectedValue "expected Value::FuncValue")
  end.

Definition eval_func_value (args : list FuncArg) (body : Expr) : evalM Value :=
  _ ← add_jit_cost ctx 5;
  _ ← liftE (guard_or (length args =? 1)%nat (Misc "Function must have 1 argument"));
  e ← get_env;
  mret (VLambda args body (hash_bindings e)).

Definition is_type_var (t : SType) : bool := match t with SVar _ => true | _ => false end.

Definition eval_apply (func : Expr) (args : list Expr) : evalM Value :=
  _ ← add_jit_cost ctx 30;
  _ ← liftE (guard_or (length args =? 1)%nat (Misc "Function application must have 1 argument"));
  func_v ← eval func;
  args_v ← mapM_st eval args;
  match func_v with
  | VLambda fargs body captured =>
      _ ← liftE (guard_or (negb (existsb (fun a => is_type_var (arg_tpe a)) fargs)) (Misc "Apply: Unknown type"));
      p ← invoke fargs body (env_from captured) args_v;
      mret p.1
  | _ => fail (UnexpectedValue "expected func_v to be Value::FuncValue")
  end.

(** * Blocks and variables (block.rs, val_use.rs, if_op.rs) *)

Definition as_val_def (i : Expr) : result EvalError (ValId * Expr) :=
  match i with ValDef id _ rhs => Ok (id, rhs) | _ => Err (TryExtractFrom "ValDef") end.

(** The value of a definition, paid for and not yet bound. *)
Definition eval_val_def (rhs : Expr) : evalM Value :=
  v ← checked_value rhs (eval rhs); _ ← add_jit_cost ctx 5; mret v.

Fixpoint top_level_items (items : list Expr) : evalM unit :=
  match items with
  | [] => mret tt
  | i :: items =>
      val_def ← liftE (as_val_def i);
      v ← eval_val_def val_def.2;
      _ ← env_insert val_def.1 v;
      top_level_items items
  end.

Fixpoint nested_items (existing_variables : Env) (new_variables : list ValId) (items : list Expr) :
    evalM (Env * list ValId) :=
  match items with
  | [] => mret (existing_variables, new_variables)
  | i :: items =>
      val_def ← liftE (as_val_def i);
      v ← eval_val_def val_def.2;
      e ← get_env;
      _ ← put_env (<[val_def.1 := v]> e);
      match e !! val_def.1 with
      | Some old_val => nested_items (<[val_def.1 := old_val]> existing_variables) new_variables items
      | None => nested_items existing_variables (new_variables ++ [val_def.1]) items
      end
  end.

Definition restore_env (existing_variables : Env) (new_variables : list ValId) (e : Env) : Env :=
  existing_variables ∪ foldl (fun e idx => delete idx e) e new_variables.

Definition eval_block_value (items : list Expr) (res : Expr) : evalM Value :=
  _ ← add_per_item_jit_cost ctx 1 1 10 (len_u32 items);
  e ← get_env;
  if env_is_empty e then
    _ ← top_level_items items;
    checked_value res (eval res)
  else
    p ← nested_items ∅ [] items;
    v ← checked_value res (eval res);
    e ← get_env;
    _ ← put_env (restore_env p.1 p.2 e);
    mret v.

Definition eval_val_use (val_id : ValId) (t : SType) : evalM Value :=
  _ ← add_jit_cost ctx 5;
  e ← get_env;
  v ← liftE (ok_or (e !! val_id) (NotFound "no value in env for id"));
  _ ← liftE (check_value_of_type t v);
  mret v.

Definition eval_if (condition true_branch false_branch : Expr) : evalM Value :=
  _ ← add_jit_cost ctx 10;
  condition_v ← eval condition;
  b ← liftE (try_bool condition_v);
  let branch := if (b : bool) then true_branch else false_branch in
  checked_value branch (eval branch).

(** * Constants and global values (expr.rs, global_vars.rs) *)

Definition eval_const (c : Constant) : evalM Value :=
  _ ← add_jit_cost ctx 5; mret (value_of_literal (const_v c)).

Definition eval_const_placeholder (id : Z) : evalM Value :=
  _ ← add_jit_cost ctx 1;
  constant ← liftE (ok_or (cs ← constants ctx; cs !! Z.to_nat id)
                          (UnexpectedExpr "ConstPlaceholder: constant not found"));
  _ ← liftE (check_value_type (const_tpe constant));
  mret (value_of_literal (const_v constant)).

Definition eval_global_vars (v : GlobalVars) : evalM Value :=
  match v with
  | Height => _ ← add_jit_cost ctx 26; mret (VInt (wrap_s 32 (ctx_height ctx)))
  | SelfBox => _ ← add_jit_cost ctx 10; mret (VCBox (self_box ctx))
  | Outputs => _ ← add_jit_cost ctx 10; mret (VColl (WrappedColl SBox (VCBox <$> outputs ctx)))
  | Inputs => _ ← add_jit_cost ctx 10; mret (VColl (WrappedColl SBox (VCBox <$> inputs ctx)))
  | MinerPubKey => _ ← add_jit_cost ctx 20; mret (value_of_bytes (ec_point_bytes (ph_miner_pk (ctx_pre_header ctx))))
  | LastBlockUtxoRootHash => _ ← add_jit_cost ctx 15; mret (VAvlTree (last_block_utxo_root ctx))
  | GroupGenerator => _ ← add_jit_cost ctx 10; mret (VGroupElement generator)
  end.

(** * Booleans and numbers (and.rs, or.rs, xor_of.rs, xor.rs, logical_not.rs, negation.rs, bit_inversion.rs,
      bin_op.rs, upcast.rs, downcast.rs) *)

Definition eval_bools (base per_chunk chunk_size : Z) (input : Expr) : evalM (list bool) :=
  input_v ← eval input;
  bools ← liftE (try_bools input_v);
  _ ← add_per_item_jit_cost ctx base per_chunk chunk_size (len_u32 bools);
  mret bools.

Definition eval_and (input : Expr) : evalM Value := bools ← eval_bools 10 5 32 input; mret (VBoolean (forallb id bools)).
Definition eval_or (input : Expr) : evalM Value := bools ← eval_bools 5 5 64 input; mret (VBoolean (existsb id bools)).

(** Before version 2 the answer is whether both values occur. *)
Definition eval_xor_of (input : Expr) : evalM Value :=
  bools ← eval_bools 20 5 32 input;
  mret (VBoolean (if tree_version ctx <? 2 then existsb id bools && existsb negb bools else foldl xorb false bools)).

Definition helper_xor (x y : list Z) : list Z := zip_with Z.lxor x y.

Definition eval_xor (lhs rhs : Expr) : evalM Value :=
  left_v ← eval lhs;
  right_v ← eval rhs;
  match left_v, right_v with
  | VColl (Native (CollByte l_byte)), VColl (Native (CollByte r_byte)) =>
      _ ← add_per_item_jit_cost ctx 10 2 128 (len_u32 l_byte);
      mret (VColl (Native (CollByte (helper_xor l_byte r_byte))))
  | _, _ => fail (UnexpectedValue "expected Xor input to be byte array")
  end.

Definition eval_logical_not (input : Expr) : evalM Value :=
  _ ← add_jit_cost ctx 15; input_v ← eval input; b ← liftE (try_bool input_v); mret (VBoolean (negb b)).

Definition eval_negation (input : Expr) : evalM Value :=
  _ ← add_jit_cost ctx 30; input_v ← eval input; liftE (negate_value input_v).

Definition eval_bit_inversion (input : Expr) : evalM Value :=
  _ ← add_jit_cost ctx 1; input_v ← eval input; liftE (invert_bits input_v).

Definition eval_upcast (input : Expr) (t : SType) : evalM Value :=
  input_v ← eval input; _ ← add_jit_cost ctx (cast_cost t); liftE (upcast_to (tree_version ctx) t input_v).

Definition eval_downcast (input : Expr) (t : SType) : evalM Value :=
  input_v ← eval input; _ ← add_jit_cost ctx (cast_cost t); liftE (downcast_to (tree_version ctx) t input_v).

(** The lazy operand of a logical operator. *)
Definition eval_to_bool (e : Expr) : evalM bool := v ← eval e; liftE (try_bool v).

Definition eval_logical (op : LogicalOp) (lv : Value) (rhs : Expr) : evalM Value :=
  l ← liftE (try_bool lv);
  match op with
  | LogicalAnd => if (l : bool) then r ← eval_to_bool rhs; mret (VBoolean r) else mret (VBoolean false)
  | LogicalOr => if negb l then r ← eval_to_bool rhs; mret (VBoolean r) else mret (VBoolean true)
  | LogicalXor => r ← eval_to_bool rhs; mret (VBoolean (xorb l r))
  end.

Definition eval_equality (lhs rhs : Expr) (lv : Value) : evalM bool :=
  _ ← liftE (check_value_of_type (tpe lhs) lv);
  rv ← checked_value rhs (eval rhs);
  eq_with_cost ctx lv rv.

(** The widths of the operands decide whether one is cast, which is paid for. *)
Definition coerce_operands (lv rv : Value) : evalM (Value * Value * bool) :=
  let lw := numeric_width lv in
  let rw := numeric_width rv in
  let target := match lw, rw with Some l, Some r => if l =? r then None else Some (Z.max l r) | _, _ => None end in
  match target with
  | Some w =>
      _ ← add_jit_cost ctx (if w =? 4 then 30 else 10);
      lv ← if decide (lw = Some w) then mret lv else liftE (coerce_numeric_to (tree_version ctx) lv w);
      rv ← if decide (rw = Some w) then mret rv else liftE (coerce_numeric_to (tree_version ctx) rv w);
      mret (lv, rv, w =? 4)
  | None => mret (lv, rv, match lv with VBigInt _ => true | _ => false end)
  end.

Definition arith_cost (op : ArithOp) (op_bigint : bool) : Z :=
  match op with
  | Plus | Minus => if op_bigint then 20 else 15
  | Multiply | Divide | Modulo => if op_bigint then 25 else 15
  | Max | Min => if op_bigint then 10 else 5
  end.

Definition eval_bin_op (kind : BinOpKind) (lhs rhs : Expr) : evalM Value :=
  lv ← eval lhs;
  _ ← match kind with
      | Arith _ | Relation REq | Relation RNEq => mret tt
      | Relation _ => add_jit_cost ctx 20
      | Logical _ => add_jit_cost ctx 20
      | Bit _ => add_jit_cost ctx 1
      end;
  match kind with
  | Logical op => eval_logical op lv rhs
  | Relation REq => b ← eval_equality lhs rhs lv; mret (VBoolean b)
  | Relation RNEq => b ← eval_equality lhs rhs lv; mret (VBoolean (negb b))
  | Relation op => rv ← eval rhs; liftE (eval_relation op lv rv)
  | Arith op =>
      rv ← eval rhs;
      p ← coerce_operands lv rv;
      _ ← add_jit_cost ctx (arith_cost op p.2);
      liftE (eval_arith op p.1.1 p.1.2)
  | Bit op =>
      match num_of lv with
      | None => fail (UnexpectedValue "expected BinOp::left to be numeric value")
      | Some (T, lv_raw) => rv ← eval rhs; rv_raw ← liftE (nt_try T rv); mret (nt_into T (nt_bit T op lv_raw rv_raw))
      end
  end.

(** * Options and tuples (option_get.rs, option_is_defined.rs, option_get_or_else.rs, tuple.rs, select_field.rs) *)

Definition try_opt (v : Value) : result EvalError (option Value) :=
  match v with VOpt opt_v => Ok opt_v | _ => Err (UnexpectedExpr "Don't know how to eval OptM") end.

Definition eval_option_get (input : Expr) : evalM Value :=
  _ ← add_jit_cost ctx 15;
  v ← eval input;
  opt_v ← liftE (try_opt v);
  liftE (ok_or opt_v (NotFound "calling Option.get on None")).

Definition eval_option_is_defined (input : Expr) : evalM Value :=
  _ ← add_jit_cost ctx 10;
  v ← eval input;
  opt_v ← liftE (try_opt v);
  mret (VBoolean (bool_decide (is_Some opt_v))).

(** From version 3 on the default is evaluated only where it is needed. *)
Definition or_default (o : option Value) (dflt : evalM Value) : evalM Value :=
  if 3 <=? tree_version ctx then match o with Some v => mret v | None => dflt end
  else d ← dflt; mret (stdpp.option.default d o).

Definition eval_option_get_or_else (input dflt : Expr) : evalM Value :=
  _ ← add_jit_cost ctx 20;
  v ← eval input;
  opt_v ← liftE (try_opt v);
  or_default opt_v (eval dflt).

Definition eval_tuple (items : list Expr) : evalM Value :=
  _ ← liftE (guard_or (length items =? 2)%nat (Misc "Tuple: sigma-state allows only 2-element tuples"));
  _ ← add_jit_cost ctx 15;
  items_v ← mapM_st (fun i => checked_value i (eval i)) items;
  mret (VTup items_v).

Definition eval_select_field (input : Expr) (field_index : Z) : evalM Value :=
  _ ← add_jit_cost ctx 10;
  input_v ← eval input;
  match input_v with
  | VTup items => liftE (ok_or (items !! Z.to_nat (field_index - 1))
                                (NotFound "SelectField field index is out of bounds"))
  | _ => fail (UnexpectedValue "expected SelectField input to be Value::Tup")
  end.

(** * Collections (collection.rs, coll_*.rs) *)

Definition eval_bool_constants (bools : list bool) : evalM Value :=
  _ ← add_jit_cost ctx 20;
  _ ← add_jit_cost ctx (5 * Z.of_nat (length bools));
  mret (VColl (WrappedColl SBoolean (VBoolean <$> bools))).

Definition eval_exprs (elem_tpe : SType) (items : list Expr) : evalM Value :=
  _ ← add_jit_cost ctx 20;
  items_v ← mapM_st (fun i => checked_value i (eval i)) items;
  coll ← liftE (from_collection elem_tpe items_v);
  mret (VColl coll).

Definition try_coll (text : string) (v : Value) : result EvalError (CollKind Value) :=
  match v with VColl coll => Ok coll | _ => Err (UnexpectedValue text) end.

Definition eval_size_of (input : Expr) : evalM Value :=
  _ ← add_jit_cost ctx 14;
  input_v ← eval input;
  coll ← liftE (try_coll "SizeOf: expected input to be Value::Coll" input_v);
  mret (VInt (wrap_s 32 (Z.of_nat (coll_len coll)))).

Definition eval_by_index (input index : Expr) (dflt : option Expr) : evalM Value :=
  _ ← add_jit_cost ctx 30;
  input_v ← eval input;
  index_v ← eval index;
  coll ← liftE (try_coll "ByIndex: expected input to be Value::Coll" input_v);
  i ← liftE (try_i32 index_v);
  let val := get_val coll (wrap_u 64 i) in
  match dflt with
  | Some dflt => or_default val (checked_value dflt (eval dflt))
  | None => liftE (ok_or val (Misc "ByIndex: index out of bounds"))
  end.

(** The items in the range [from..until], none where it is not within the collection. *)
Definition slice_range (from until : Z) (items : list Value) : list Value :=
  let start := Z.max from 0 in
  let stop := wrap_u 64 (Z.min until (wrap_s 32 (Z.of_nat (length items)))) in
  if (start <=? stop) && (stop <=? Z.of_nat (length items)) then
    drop (Z.to_nat start) (take (Z.to_nat stop) items)
  else [].

Definition eval_slice (input from until : Expr) : evalM Value :=
  input_v ← eval input;
  from_v ← eval from;
  until_v ← eval until;
  coll ← liftE (try_coll "Slice: expected input to be Value::Coll" input_v);
  from ← liftE (try_i32 from_v);
  until ← liftE (try_i32 until_v);
  _ ← liftE (guard_or (fits_s 32 (until - from)) EvalPanic);
  _ ← add_per_item_jit_cost ctx 10 2 100 (Z.max 0 (until - from));
  res ← liftE (from_collection (elem_tpe_of coll) (slice_range from until (as_vec coll)));
  mret (VColl res).

Definition eval_append (input col_2 : Expr) : evalM Value :=
  input_v ← eval input;
  col2_v ← eval col_2;
  coll ← liftE (try_coll "Append: expected Value to be Value::Coll" input_v);
  coll2 ← liftE (try_coll "Append: expected Value to be Value::Coll" col2_v);
  _ ← liftE (guard_or (bool_decide (elem_tpe_of coll = elem_tpe_of coll2))
                      (UnexpectedValue "Append: expected the same elem tpe"));
  let items := as_vec coll ++ as_vec coll2 in
  _ ← add_per_item_jit_cost ctx 20 2 100 (len_u32 items);
  res ← liftE (from_collection (elem_tpe_of coll) items);
  mret (VColl res).

(** The items of a collection whose element type is the expected one. *)
Definition items_of (elem_tpe : SType) (v : Value) : result EvalError (list Value) :=
  coll ← try_coll "expected input to be Value::Coll" v;
  _ ← guard_or (bool_decide (elem_tpe_of coll = elem_tpe)) (UnexpectedValue "unexpected input element type");
  Ok (as_vec coll).

Fixpoint invoke_map (args : list FuncArg) (body : Expr) (invoker : Env) (items : list Value) : evalM (list Value) :=
  match items with
  | [] => mret []
  | item :: items =>
      p ← invoke args body invoker [item];
      vs ← invoke_map args body p.2 items;
      mret (p.1 :: vs)
  end.

Definition eval_map (input mapper : Expr) (mapper_sfunc : SFuncType) : evalM Value :=
  input_v ← eval input;
  mapper_v ← eval mapper;
  l ← liftE (lambda_of mapper_v);
  mapper_input_tpe ← liftE (ok_or (head (t_dom mapper_sfunc)) (NotFound "Map: mapper SFunc.t_dom is empty"));
  items ← liftE (items_of mapper_input_tpe input_v);
  _ ← add_per_item_jit_cost ctx 20 1 10 (len_u32 items);
  values ← invoke_map l.1.1 l.1.2 l.2 items;
  res ← liftE (from_collection (t_range mapper_sfunc) values);
  mret (VColl res).

Fixpoint invoke_conditions (args : list FuncArg) (body : Expr) (invoker : Env) (items : list Value) :
    evalM (list bool) :=
  match items with
  | [] => mret []
  | item :: items =>
      p ← invoke args body invoker [item];
      b ← liftE (try_bool p.1);
      bs ← invoke_conditions args body p.2 items;
      mret (b :: bs)
  end.

Definition eval_filter (input condition : Expr) (elem_tpe : SType) : evalM Value :=
  input_v ← eval input;
  condition_v ← eval condition;
  l ← liftE (lambda_of condition_v);
  items ← liftE (items_of elem_tpe input_v);
  _ ← add_per_item_jit_cost ctx 20 1 10 (len_u32 items);
  items_conditions ← invoke_conditions l.1.1 l.1.2 l.2 items;
  res ← liftE (from_collection elem_tpe (fst <$> List.filter snd (zip items items_conditions)));
  mret (VColl res).

(** The loops of [Exists] ([stop] is true) and [ForAll] ([stop] is false). *)
Fixpoint invoke_until (stop : bool) (args : list FuncArg) (body : Expr) (invoker : Env) (items : list Value) :
    evalM bool :=
  match items with
  | [] => mret (negb stop)
  | item :: items =>
      p ← invoke args body invoker [item];
      b ← liftE (try_bool p.1);
      if eqb b stop then mret stop else invoke_until stop args body p.2 items
  end.

Definition eval_quantifier (stop : bool) (input condition : Expr) (elem_tpe : SType) : evalM Value :=
  input_v ← eval input;
  condition_v ← eval condition;
  l ← liftE (lambda_of condition_v);
  items ← liftE (items_of elem_tpe input_v);
  _ ← add_per_item_jit_cost ctx 3 1 10 (len_u32 items);
  b ← invoke_until stop l.1.1 l.1.2 l.2 items;
  mret (VBoolean b).
Definition eval_exists : Expr -> Expr -> SType -> evalM Value := eval_quantifier true.
Definition eval_for_all : Expr -> Expr -> SType -> evalM Value := eval_quantifier false.

Fixpoint invoke_fold (args : list FuncArg) (body : Expr) (invoker : Env) (acc : Value) (items : list Value) :
    evalM Value :=
  match items with
  | [] => mret acc
  | item :: items =>
      p ← invoke args body invoker [VTup [acc; item]];
      invoke_fold args body p.2 p.1 items
  end.

(** The charge counts no items for an input that is no collection, which is refused after it. *)
Definition eval_fold (input zero fold_op : Expr) : evalM Value :=
  input_v ← eval input;
  zero_v ← checked_value zero (eval zero);
  fold_op_v ← eval fold_op;
  l ← liftE (lambda_of fold_op_v);
  _ ← add_per_item_jit_cost ctx 3 1 10 (match input_v with VColl coll => len_u32 (as_vec coll) | _ => 0 end);
  coll ← liftE (try_coll "expected Fold input to be Value::Coll" input_v);
  invoke_fold l.1.1 l.1.2 l.2 zero_v (as_vec coll).

(** * Bytes (byte_array_to_long.rs, byte_array_to_bigint.rs, long_to_byte_array.rs, calc_blake2b256.rs,
      calc_sha256.rs) *)

Definition shl_i64 (z n : Z) : Z := wrap_s 64 (Z.shiftl z n).

Definition long_of_bytes (input : list Z) : result EvalError Z :=
  match input with
  | b0 :: b1 :: b2 :: b3 :: b4 :: b5 :: b6 :: b7 :: _ =>
      Ok (Z.lor (Z.lor (Z.lor (Z.lor (Z.lor (Z.lor (Z.lor (shl_i64 b0 56) (shl_i64 b1 48)) (shl_i64 b2 40))
            (shl_i64 b3 32)) (shl_i64 b4 24)) (shl_i64 b5 16)) (shl_i64 b6 8)) b7)
  | _ => Err (UnexpectedValue "byteArrayToLong: array must contain at least 8 elements")
  end.

Definition eval_byte_array_to_long (input : Expr) : evalM Value :=
  _ ← add_jit_cost ctx 16;
  input_v ← eval input;
  bytes ← liftE (try_bytes input_v);
  z ← liftE (long_of_bytes bytes);
  mret (VLong z).

Definition bigint_of_bytes (input : list Z) : result EvalError Z :=
  match input with
  | [] => Err (UnexpectedValue "ByteArrayToBigInt: byte array is empty")
  | _ => ok_or (bigint_from_be_slice input) (UnexpectedValue "ByteArrayToBigInt: input array out of bounds")
  end.

Definition eval_byte_array_to_bigint (input : Expr) : evalM Value :=
  _ ← add_jit_cost ctx 30;
  input_v ← eval input;
  bytes ← liftE (try_bytes input_v);
  z ← liftE (bigint_of_bytes bytes);
  mret (VBigInt z).

(** The loop that fills the buffer from its end. *)
Fixpoint fill_long_bytes (n : nat) (val : Z) (buf : list Z) : list Z :=
  match n with
  | O => buf
  | S n => fill_long_bytes n (Z.shiftr val 8) (wrap_s 8 (Z.land val 255) :: buf)
  end.

Definition eval_long_to_byte_array (input : Expr) : evalM Value :=
  _ ← add_jit_cost ctx 17;
  input_v ← eval input;
  val ← liftE (try_i64 input_v);
  mret (VColl (Native (CollByte (fill_long_bytes 8 val [])))).

Definition eval_hash (base per_chunk chunk_size : Z) (hash : list Z -> list Z) (input : Expr) : evalM Value :=
  input_v ← eval input;
  match input_v with
  | VColl (Native (CollByte coll_byte)) =>
      _ ← add_per_item_jit_cost ctx base per_chunk chunk_size (len_u32 coll_byte);
      mret (value_of_bytes (hash (as_vec_u8 coll_byte)))
  | _ => fail (UnexpectedValue "expected hash input to be byte array")
  end.
Definition eval_calc_blake2b256 : Expr -> evalM Value := eval_hash 20 7 128 blake2b256_hash.
Definition eval_calc_sha256 : Expr -> evalM Value := eval_hash 80 8 64 sha256_hash.

(** * Group elements and propositions (multiply_group.rs, create_provedlog.rs, create_prove_dh_tuple.rs,
      bool_to_sigma.rs, sigma_and.rs, sigma_or.rs, atleast.rs) *)

Definition eval_multiply_group (lhs rhs : Expr) : evalM Value :=
  _ ← add_jit_cost ctx 40;
  left_v ← eval lhs;
  right_v ← eval rhs;
  match left_v, right_v with
  | VGroupElement l, VGroupElement r => mret (VGroupElement (ec_mul l r))
  | _, _ => fail (UnexpectedValue "Expected MultiplyGroup input to be GroupElement")
  end.

Definition eval_create_provedlog (input : Expr) : evalM Value :=
  _ ← add_jit_cost ctx 10;
  value_v ← eval input;
  match value_v with
  | VGroupElement ecpoint => mret (VSigmaProp (ProofOfKnowledge (ProveDlog ecpoint)))
  | _ => fail (UnexpectedValue "Expected CreateProveDlog input to be Value::GroupElement")
  end.

Definition eval_to_point (e : Expr) : evalM EcPoint := v ← eval e; liftE (try_ec_point v).

Definition eval_create_prove_dh_tuple (g h u v : Expr) : evalM Value :=
  _ ← add_jit_cost ctx 20;
  g ← eval_to_point g;
  h ← eval_to_point h;
  u ← eval_to_point u;
  v ← eval_to_point v;
  mret (VSigmaProp (ProofOfKnowledge (ProveDhTuple g h u v))).

(** Before version 2 a proposition passes through. *)
Definition eval_bool_to_sigma_prop (input : Expr) : evalM Value :=
  _ ← add_jit_cost ctx 15;
  input_v ← eval input;
  match input_v with
  | VSigmaProp sp =>
      if tree_version ctx <? 2 then mret (VSigmaProp sp) else fail (TryExtractFrom "bool")
  | _ => b ← liftE (try_bool input_v); mret (VSigmaProp (TrivialProp b))
  end.

Definition eval_sigma_items (items : list Expr) : evalM (list SigmaBoolean) :=
  _ ← add_per_item_jit_cost ctx 10 2 1 (len_u32 items);
  items_v ← mapM_st eval items;
  _ ← liftE (guard_or (0 <? length items_v)%nat BoundedVecError);
  liftE (mapM_res try_sigma_prop items_v).
Definition eval_sigma_and (items : list Expr) : evalM Value :=
  sbs ← eval_sigma_items items; mret (VSigmaProp (cand_normalized sbs)).
Definition eval_sigma_or (items : list Expr) : evalM Value :=
  sbs ← eval_sigma_items items; mret (VSigmaProp (cor_normalized sbs)).

Definition eval_atleast (bound input : Expr) : evalM Value :=
  bound_v ← eval bound;
  input_v ← eval input;
  coll ← liftE (try_coll "Atleast: expected input to be Value::Coll" input_v);
  _ ← add_per_item_jit_cost ctx 20 3 5 (len_u32 (as_vec coll));
  bound ← liftE (try_i32 bound_v);
  sbs ← liftE (mapM_res try_sigma_prop (as_vec coll));
  _ ← liftE (guard_or (length sbs <=? 255)%nat (Misc "Atleast: expected input elements count should not exceed 255"));
  mret (VSigmaProp (if bound <=? 0 then TrivialProp true
                    else if Z.of_nat (length sbs) <? bound then TrivialProp false
                    else cthreshold_reduce bound sbs)).

(** * [Expr::eval] *)

Definition eval_expr (e : Expr) : evalM Value :=
  match e with
  | Append input col_2 => eval_append input col_2
  | Const c => eval_const c
  | ConstPlaceholder id _ => eval_const_placeholder id
  | ByteArrayToLong input => eval_byte_array_to_long input
  | ByteArrayToBigInt input => eval_byte_array_to_bigint input
  | LongToByteArray input => eval_long_to_byte_array input
  | BoolConstants bools => eval_bool_constants bools
  | Exprs elem_tpe items => eval_exprs elem_tpe items
  | Tuple items => eval_tuple items
  | CalcBlake2b256 input => eval_calc_blake2b256 input
  | CalcSha256 input => eval_calc_sha256 input
  | EContext => _ ← add_jit_cost ctx 1; mret VContext
  | EGlobal => _ ← add_jit_cost ctx 5; mret VGlobal
  | EGlobalVars v => eval_global_vars v
  | FuncValue args body _ => eval_func_value args body
  | Apply func args => eval_apply func args
  | BlockValue items res => eval_block_value items res
  | ValDef _ _ _ => fail (UnexpectedExpr "ValDef should be evaluated in BlockValue")
  | ValUse val_id t => eval_val_use val_id t
  | If condition true_branch false_branch => eval_if condition true_branch false_branch
  | BinOp kind lhs rhs => eval_bin_op kind lhs rhs
  | And input => eval_and input
  | Or input => eval_or input
  | Xor lhs rhs => eval_xor lhs rhs
  | Atleast bound input => eval_atleast bound input
  | LogicalNot input => eval_logical_not input
  | Negation input => eval_negation input
  | BitInversion input => eval_bit_inversion input
  | OptionGet input => eval_option_get input
  | OptionIsDefined input => eval_option_is_defined input
  | OptionGetOrElse input dflt => eval_option_get_or_else input dflt
  | ByIndex input index dflt => eval_by_index input index dflt
  | SizeOf input => eval_size_of input
  | Slice input from until => eval_slice input from until
  | Fold input zero fold_op => eval_fold input zero fold_op
  | Map input mapper mapper_sfunc => eval_map input mapper mapper_sfunc
  | Filter input condition elem_tpe => eval_filter input condition elem_tpe
  | Exists input condition elem_tpe => eval_exists input condition elem_tpe
  | ForAll input condition elem_tpe => eval_for_all input condition elem_tpe
  | SelectField input field_index _ => eval_select_field input field_index
  | BoolToSigmaProp input => eval_bool_to_sigma_prop input
  | Upcast input t => eval_upcast input t
  | Downcast input t => eval_downcast input t
  | CreateProveDlog input => eval_create_provedlog input
  | CreateProveDhTuple g h u v => eval_create_prove_dh_tuple g h u v
  | SigmaAnd items => eval_sigma_and items
  | SigmaOr items => eval_sigma_or items
  | MultiplyGroup lhs rhs => eval_multiply_group lhs rhs
  | XorOf input => eval_xor_of input
  end.
End nodes.

(** [Evaluable::eval] *)
Fixpoint eval (fuel : nat) (e : Expr) : evalM Value :=
  match fuel with
  | O => fail EvalFuel
  | S fuel => eval_expr (eval fuel) e
  end.

End eval.
