(* ===== verification/EvalTotal.v ===== *)
(** Every evaluation ends: with a limit on the cost, each expression evaluates or fails within a fuel computed from the
    limit and from its depth, because every call of a lambda is charged and the bodies of lambdas come from the
    expression. *)

From stdpp Require Import strings gmap.
From S2P Require Import Prelude SigmaBoolean Types Expr Value EvalOps StateLogic Eval.
#[local] Open Scope Z_scope.

Section total.
Context `{C : SigmaCrypto} {Bx : ErgoBoxData} {N : Bnum} {Sh : Sha256} {HI : HashIter}.
Context (ctx : EvalContext) (L : Z).
Context (HL : jit_cost_limit ctx = Some L) (HLmax : L < 2 ^ 64 - 1) (D : nat).

(** Every lambda in a value has one argument and a body of depth [D] at most. *)
Inductive lambda_ok : Value -> Prop :=
| ok_flat v :
    match v with VColl (WrappedColl _ _) | VTup _ | VOpt (Some _) | VLambda _ _ _ => False | _ => True end ->
    lambda_ok v
| ok_coll t items : Forall lambda_ok items -> lambda_ok (VColl (WrappedColl t items))
| ok_tup items : Forall lambda_ok items -> lambda_ok (VTup items)
| ok_some v : lambda_ok v -> lambda_ok (VOpt (Some v))
| ok_lambda arg body captured :
    (depth body <= D)%nat -> Forall (fun p => lambda_ok p.2) captured -> lambda_ok (VLambda [arg] body captured).
#[local] Hint Constructors lambda_ok : core.

Lemma lambda_ok_literal l : lambda_ok (value_of_literal l).
Proof.
  induction l as [l Hl|t items IH|l IH|items IH] using Literal_ind'; cbn; [|by constructor; apply Forall_fmap..|by constructor|by constructor; apply Forall_fmap].
  destruct l as [| | | | | | | | | | | | | |[c|t items]|[l|]|items]; try done; by apply ok_flat.
Qed.

Definition env_ok (e : Env) : Prop := map_Forall (fun _ v => lambda_ok v) e.

Lemma env_ok_from captured : Forall (fun p => lambda_ok p.2) captured -> env_ok (env_from captured).
Proof.
  unfold env_from. assert (H0 : env_ok ∅) by apply map_Forall_empty. revert H0. generalize (∅ : Env).
  induction captured as [|p captured IH]; intros e He Hc; cbn; [done|]. apply Forall_cons in Hc as [Hp Hc].
  apply IH; [|done]. by apply map_Forall_insert_2.
Qed.

Lemma env_ok_bindings e : env_ok e -> Forall (fun p => lambda_ok p.2) (hash_bindings e).
Proof.
  intros He. rewrite (hash_bindings_perm e). apply Forall_forall. intros [i v] Hp.
  apply elem_of_map_to_list in Hp. by apply (He i v).
Qed.

Lemma as_vec_ok c : lambda_ok (VColl c) -> Forall lambda_ok (as_vec c).
Proof.
  intros Hc. destruct c as [[bytes]|t items]; cbn.
  - apply Forall_fmap, Forall_true. intros z. by constructor.
  - inversion Hc; subst; [done|]. done.
Qed.

Lemma from_collection_ok t items c : Forall lambda_ok items -> from_collection t items = Ok c -> lambda_ok (VColl c).
Proof.
  intros Hi Hc. destruct (decide (t = SByte)) as [->|Ht].
  - cbn in Hc. apply bind_Ok_inv in Hc as (bytes & _ & Hc). simplify_eq. by constructor.
  - assert (c = WrappedColl t items) as ->; [by destruct t; cbn in Hc; simplify_eq|]. auto.
Qed.

(** * The invariant *)

Definition within (c0 : Z) (s : EvalState) : Prop := env_ok (env s) /\ c0 <= jit_cost s <= L.
Definition no_fuel (e : EvalError) : Prop := e <> EvalFuel.
Abbreviation total c0 m P := (triple (within c0) no_fuel m P).

Lemma total_cost c0 n : 0 <= n -> total c0 (add_jit_cost ctx n) (fun _ => True).
Proof.
  intros Hn s [He Hs]. unfold wp, add_jit_cost. rewrite HL. case (Z.ltb_spec L (Z.min (jit_cost s + n) (2 ^ 64 - 1))) as [Hl|Hl]; [done|].
  cbn. repeat split; try done; cbn; lia.
Qed.

Lemma total_per_item c0 base per_chunk chunk_size n :
  0 <= base -> 0 <= per_chunk -> total c0 (add_per_item_jit_cost ctx base per_chunk chunk_size n) (fun _ => True).
Proof.
  intros Hb Hp. unfold add_per_item_jit_cost. case_match; [|by apply triple_fail].
  apply total_cost. nia.
Qed.

Lemma total_get_env c0 : total c0 get_env env_ok.
Proof. intros s Hs. split; [apply Hs|done]. Qed.

Lemma total_put_env c0 e : env_ok e -> total c0 (put_env e) (fun _ => True).
Proof. intros He s [_ Hs]. repeat split; try apply Hs; done. Qed.

Lemma total_env_insert c0 i v : lambda_ok v -> total c0 (env_insert i v) (fun _ => True).
Proof.
  intros Hv. eapply triple_bind; [apply total_get_env|]. intros e He. apply total_put_env.
  by apply map_Forall_insert_2.
Qed.

(** A lifted result, of which only its equation is remembered. *)
Lemma total_lift c0 {A} (r : result EvalError A) :
  r <> Err EvalFuel -> total c0 (liftE r) (fun a => r = Ok a).
Proof. intros Hr. apply triple_liftE. destruct r as [a|e]; [done|]. intros ->. done. Qed.

(** * Results that are never out of fuel *)

Abbreviation ends r := (r <> Err EvalFuel).

Lemma ends_bind {A B} (r : result EvalError A) (f : A -> result EvalError B) :
  ends r -> (forall a, ends (f a)) -> ends (r ≫= f).
Proof. destruct r as [a|e]; cbn; [intros _ Hf; apply Hf|]. intros He _ H. by simplify_eq. Qed.

Lemma ends_mapM {A B} (f : A -> result EvalError B) l : (forall a, ends (f a)) -> ends (mapM_res f l).
Proof.
  intros Hf. induction l as [|x l IH]; [done|]. apply ends_bind; [done|]. intros y. by apply ends_bind.
Qed.

Lemma ends_guard b e : e <> EvalFuel -> ends (guard_or b e).
Proof. by destruct b; cbn; [|intros He [=]]. Qed.

Lemma ends_ok_or {A} (o : option A) e : e <> EvalFuel -> ends (ok_or o e).
Proof. by destruct o; cbn; [|intros He [=]]. Qed.

#[local] Hint Resolve ends_bind ends_mapM ends_guard ends_ok_or : ends.
#[local] Hint Extern 1 (_ <> _) => discriminate : ends.

(** Goals [ends r] for a function that is a case analysis. *)
Ltac by_cases := repeat (case_match; try discriminate); auto with ends.

Lemma ends_try v :
  ends (try_bool v) /\ ends (try_i32 v) /\ ends (try_i64 v) /\ ends (try_ec_point v) /\ ends (try_bytes v).
Proof. destruct v as [| | | | | | | | | | | |[[]|]| | | | | | | |]; done. Qed.
#[local] Hint Extern 1 (_ <> _) => apply ends_try : ends.

Lemma ends_check_type t v : ends (check_value_of_type t v).
Proof.
  unfold check_value_of_type, check_value_type. apply ends_bind; [|intros _]; by_cases.
Qed.

Lemma ends_from_collection t items : ends (from_collection t items).
Proof. destruct t; cbn; auto with ends. apply ends_bind; [|done]. apply ends_mapM. intros []; done. Qed.

Lemma ends_try_bools v : ends (try_bools v).
Proof. destruct v as [| | | | | | | | | | | |[|]| | | | | | | |]; try done. apply ends_mapM. intros []; done. Qed.

Lemma ends_num_try lv T z rv : num_of lv = Some (T, z) -> ends (nt_try T rv).
Proof. destruct lv; cbn; intros H; simplify_eq; destruct rv; cbn; discriminate. Qed.

Lemma ends_arith op lv rv : ends (eval_arith op lv rv).
Proof.
  unfold eval_arith. destruct (num_of lv) as [[T z]|] eqn:HT; [|done].
  apply ends_bind; [by eapply ends_num_try|]. intros z'. by_cases.
Qed.

Lemma ends_relation op lv rv : ends (eval_relation op lv rv).
Proof.
  unfold eval_relation. destruct (num_of lv) as [[T z]|] eqn:HT; [|done].
  apply ends_bind; [by eapply ends_num_try|done].
Qed.

Lemma ends_upcast ver t v : ends (upcast_to ver t v).
Proof. destruct t, v; cbn; unfold bigint_gate, non_negative; by_cases. Qed.

Lemma ends_downcast ver t v : ends (downcast_to ver t v).
Proof. destruct t, v; cbn; unfold downcast_gate, wrap_downcast, cannot_downcast, non_negative; by_cases. Qed.

Lemma ends_coerce ver v w : ends (coerce_numeric_to ver v w).
Proof.
  unfold coerce_numeric_to. repeat case_match; try done; destruct v; cbn; unfold bigint_gate; by_cases.
Qed.

Lemma ends_negate v : ends (negate_value v).
Proof. destruct v; cbn; by_cases. Qed.

(** A number, or any value without lambdas, is [lambda_ok]. *)
Definition flat (v : Value) : Prop :=
  match v with VColl (WrappedColl _ _) | VTup _ | VOpt (Some _) | VLambda _ _ _ => False | _ => True end.

Lemma flat_num v T z : num_of v = Some (T, z) -> forall z', flat (nt_into T z').
Proof. destruct v; cbn; intros H; by simplify_eq. Qed.

Lemma flat_arith op lv rv v : eval_arith op lv rv = Ok v -> flat v.
Proof.
  unfold eval_arith. destruct (num_of lv) as [[T z]|] eqn:HT; [|done]. intros H.
  apply bind_Ok_inv in H as (z' & _ & H). case_match; simplify_eq. by eapply flat_num.
Qed.

Lemma flat_relation op lv rv v : eval_relation op lv rv = Ok v -> flat v.
Proof.
  unfold eval_relation. destruct (num_of lv) as [[T z]|] eqn:HT; [|done]. intros H.
  apply bind_Ok_inv in H as (z' & _ & H). by simplify_eq.
Qed.

Lemma flat_upcast ver t v v' : upcast_to ver t v = Ok v' -> flat v'.
Proof. destruct t, v; cbn; unfold bigint_gate, non_negative; intros H; repeat case_match; by simplify_eq. Qed.

Lemma flat_downcast ver t v v' : downcast_to ver t v = Ok v' -> flat v'.
Proof.
  destruct t, v; cbn; unfold downcast_gate, wrap_downcast, non_negative, checked; intros H;
    repeat case_match; by simplify_eq.
Qed.

Lemma flat_negate v v' : negate_value v = Ok v' -> flat v'.
Proof. destruct v; cbn; intros H; repeat case_match; by simplify_eq. Qed.

Lemma flat_invert v v' : invert_bits v = Ok v' -> flat v'.
Proof. destruct v; cbn; intros H; by simplify_eq. Qed.

(** * The nodes *)

Lemma total_eq_point c0 p q : total c0 (eq_point ctx p q) (fun _ => True).
Proof. eapply triple_bind; [by apply total_cost|]. intros _ _. by apply triple_ret. Qed.

Lemma total_eq_items {A} c0 (eq : A -> A -> evalM bool) l r :
  Forall (fun x => forall y, total c0 (eq x y) (fun _ => True)) l -> total c0 (eq_items eq l r) (fun _ => True).
Proof.
  intros Hl. revert r. induction Hl as [|x l Hx Hl IH]; intros [|y r]; cbn; try (by apply triple_ret).
  eapply triple_bind; [apply Hx|]. intros [] _; [apply IH|by apply triple_ret].
Qed.

Lemma total_eq_counting c0 (eq : Value -> Value -> evalM bool) k l r :
  0 <= k -> Forall (fun x => forall y, total c0 (eq x y) (fun _ => True)) l ->
  total c0 (eq_counting eq k l r) (fun p => 0 <= p.1).
Proof.
  intros Hk Hl. revert k r Hk. induction Hl as [|x l Hx Hl IH]; intros k [|y r] Hk; cbn; try (by apply triple_ret).
  eapply triple_bind; [apply Hx|]. intros [] _; [apply IH|apply triple_ret; cbn]; lia.
Qed.

Lemma total_eq_sigma c0 l r : total c0 (eq_sigma_bool_with_cost ctx l r) (fun _ => True).
Proof.
  revert r. induction l as [b|t|c items IH] using SigmaBoolean_ind'; intros r; cbn;
    (eapply triple_bind; [by apply total_cost|]; intros _ _).
  - destruct r as [b'|t'|c' items']; by apply triple_ret.
  - destruct t as [g h u v|h], r as [b'|[g' h' u' v'|h']|c' items']; try (by apply triple_ret); [|apply total_eq_point].
    apply (total_eq_items c0 _ [g; h; u; v] [g'; h'; u'; v']).
    repeat constructor; intros; apply total_eq_point.
  - assert (forall items', total c0 (if (length items =? length items')%nat
        then eq_items (eq_sigma_bool_with_cost ctx) items items' else mret false) (fun _ => True)) as Hitems.
    { intros items'. case_match; [|by apply triple_ret]. apply total_eq_items.
      eapply Forall_impl; [exact IH|]. intros x Hx y. apply Hx. }
    destruct c, r as [b'|t'|[| |k'] items']; try (by apply triple_fail); try apply Hitems.
    case_match; [apply Hitems|by apply triple_ret].
Qed.

Lemma total_eq c0 lv rv : total c0 (eq_with_cost ctx lv rv) (fun _ => True).
Proof.
  assert (forall n b, 0 <= n -> total c0 (_ ← add_jit_cost ctx n; mret (b : bool)) (fun _ => True)) as Hflat.
  { intros n b Hn. eapply triple_bind; [by apply total_cost|]. intros _ _. by apply triple_ret. }
  revert rv. induction lv as [v Hv|t items IH|items IH|v IH] using Value_ind'; intros rv.
  - destruct v as [| | | | | | | | | | | |[c|? ?]|items| | | | | |[v|]|], rv as [| | | | | | | | | | | |c'|items'| | | | | |o'|];
      try done; try (by apply Hflat); cbn; (eapply triple_bind; [by apply total_cost|]; intros _ _).
    + apply total_eq_sigma.
    + case_match; [|by apply triple_ret]. eapply triple_bind; [by apply total_per_item|].
      intros _ _. by apply triple_ret.
    + destruct o'; by apply triple_ret.
  - destruct rv as [| | | | | | | | | | | |c'|items'| | | | | |o'|]; try (by apply Hflat). cbn.
    eapply triple_bind; [by apply total_cost|]. intros _ _. case_match; [|by apply triple_ret].
    case_match.
    + destruct p as [[base per_chunk] chunk_size]. eapply triple_bind; [|intros _ _; by apply triple_ret].
      destruct t; simplify_eq; by apply total_per_item.
    + eapply triple_bind; [by apply total_eq_counting|]. intros p Hp.
      eapply triple_bind; [by apply total_per_item|]. intros _ _. by apply triple_ret.
  - destruct rv as [| | | | | | | | | | | |c'|items'| | | | | |o'|]; try (by apply Hflat). cbn.
    eapply triple_bind; [by apply total_cost|]. intros _ _. case_match; [|by apply triple_ret].
    by apply total_eq_items.
  - destruct rv as [| | | | | | | | | | | |c'|items'| | | | | |[v'|]|]; try (by apply Hflat); cbn;
      (eapply triple_bind; [by apply total_cost|]; intros _ _). apply IH.
Qed.

Section nodes.
Context (ev : Expr -> evalM Value) (c0 : Z) (d : nat).
(** Children are evaluated from anywhere at or above the cost at the start, bodies once a call has been paid for. *)
Context (Hchild : forall e, (depth e < d)%nat -> total c0 (ev e) lambda_ok).
Context (Hbody : forall e, (depth e <= D)%nat -> total (c0 + 5) (ev e) lambda_ok).

Lemma ok_of_flat v : flat v -> lambda_ok v.
Proof. destruct v; try done; intros Hv; by apply ok_flat. Qed.
#[local] Hint Resolve ends_check_type ends_from_collection ends_try_bools ends_arith ends_relation ends_upcast
  ends_downcast ends_coerce ends_negate : ends.

Lemma max_elem (e : Expr) items : e ∈ items -> (depth e <= max_list_with depth items)%nat.
Proof. induction 1 as [e items|e x items _ IH]; cbn; lia. Qed.

(** ** Calls of lambdas *)

Definition callable (l : list FuncArg * Expr * Env) : Prop :=
  (exists arg, l.1.1 = [arg]) /\ (depth l.1.2 <= D)%nat /\ env_ok l.2.

Lemma total_lambda_of v : lambda_ok v -> total c0 (liftE (lambda_of v)) callable.
Proof.
  intros Hv. apply triple_liftE. destruct v; try done. inversion Hv; subst; [done|].
  cbn. split; [by eexists|]. split; [done|]. by apply env_ok_from.
Qed.

Lemma total_invoke l v :
  callable l -> lambda_ok v -> total c0 (invoke ctx ev l.1.1 l.1.2 l.2 [v]) (fun p => lambda_ok p.1 /\ env_ok p.2).
Proof.
  destruct l as [[args body] inv]. intros ([arg Harg] & Hb & Hinv) Hv s [He Hs]. cbn in Harg, Hb, Hinv |- *. subst args.
  apply wp_in_env. cbn beta.
  cbn [bind_args]. apply wp_bind, wp_bind.
  eapply wp_mono; [apply (total_lift c0 _ (ends_check_type _ _)); by split| |done]. cbn beta.
  intros [] s1 [_ [He1 Hs1]]. apply wp_bind.
  assert (total (c0 + 5) (_ ← env_insert (arg_idx arg) v; mret tt) (fun _ => True)) as Hins.
  { eapply triple_bind; [by apply total_env_insert|]. intros _ _. by apply triple_ret. }
  unfold add_jit_cost, wp at 1. rewrite HL.
  case (Z.ltb_spec L (Z.min (jit_cost s1 + 5) (2 ^ 64 - 1))) as [Hl|Hl]; [done|].
  eapply wp_mono; [apply Hins; split; [done|cbn; lia]| |done]. cbn beta. intros _ s2 [_ Hs2].
  assert (total (c0 + 5) (checked_value body (ev body)) lambda_ok) as Hcv.
  { eapply triple_bind; [by apply Hbody|]. intros w Hw.
    eapply triple_bind; [apply total_lift, ends_check_type|]. intros _ _. by apply triple_ret. }
  eapply wp_mono; [by apply Hcv| |done]. cbn beta. intros w s3 [Hw [He3 Hs3]].
  repeat split; try done; cbn; lia.
Qed.

(** ** Loops over items *)

Lemma total_map l items :
  callable l -> Forall lambda_ok items -> total c0 (invoke_map ctx ev l.1.1 l.1.2 l.2 items) (Forall lambda_ok).
Proof.
  destruct l as [[args body] inv]. cbn. revert inv. induction items as [|v items IH]; intros inv Hl Hi; cbn.
  - apply triple_ret. constructor.
  - apply Forall_cons in Hi as [Hv Hi]. eapply triple_bind; [by apply (total_invoke (args, body, inv))|].
    intros p [Hp Hinv]. eapply triple_bind; [apply IH; [|done]; by destruct Hl as (? & ? & ?)|].
    intros vs Hvs. apply triple_ret. by constructor.
Qed.

Lemma total_conditions l items :
  callable l -> Forall lambda_ok items -> total c0 (invoke_conditions ctx ev l.1.1 l.1.2 l.2 items) (fun _ => True).
Proof.
  destruct l as [[args body] inv]. cbn. revert inv. induction items as [|v items IH]; intros inv Hl Hi; cbn.
  - by apply triple_ret.
  - apply Forall_cons in Hi as [Hv Hi]. eapply triple_bind; [by apply (total_invoke (args, body, inv))|].
    intros p [Hp Hinv]. eapply triple_bind; [apply total_lift; by destruct p.1|].
    intros b _. eapply triple_bind; [apply IH; [|done]; by destruct Hl as (? & ? & ?)|].
    intros bs _. by apply triple_ret.
Qed.

Lemma total_until stop l items :
  callable l -> Forall lambda_ok items -> total c0 (invoke_until ctx ev stop l.1.1 l.1.2 l.2 items) (fun _ => True).
Proof.
  destruct l as [[args body] inv]. cbn. revert inv. induction items as [|v items IH]; intros inv Hl Hi; cbn.
  - by apply triple_ret.
  - apply Forall_cons in Hi as [Hv Hi]. eapply triple_bind; [by apply (total_invoke (args, body, inv))|].
    intros p [Hp Hinv]. eapply triple_bind; [apply total_lift; by destruct p.1|].
    intros b _. case_match; [by apply triple_ret|]. apply IH; [|done]; by destruct Hl as (? & ? & ?).
Qed.

Lemma total_fold l acc items :
  callable l -> lambda_ok acc -> Forall lambda_ok items ->
  total c0 (invoke_fold ctx ev l.1.1 l.1.2 l.2 acc items) lambda_ok.
Proof.
  destruct l as [[args body] inv]. cbn. revert inv acc. induction items as [|v items IH]; intros inv acc Hl Ha Hi; cbn.
  - by apply triple_ret.
  - apply Forall_cons in Hi as [Hv Hi].
    eapply triple_bind; [apply (total_invoke (args, body, inv)); [done|]; by apply ok_tup; constructor; [|constructor]|].
    intros p [Hp Hinv]. apply IH; [|done..]. by destruct Hl as (? & ? & ?).
Qed.

(** ** Steps *)

(** The values a lifted result carries. *)
Lemma total_try_coll text v : lambda_ok v -> total c0 (liftE (try_coll text v)) (fun c => lambda_ok (VColl c)).
Proof. intros Hv. apply triple_liftE. by destruct v. Qed.

Lemma total_items_of t v : lambda_ok v -> total c0 (liftE (items_of t v)) (Forall lambda_ok).
Proof.
  intros Hv. apply triple_liftE. unfold items_of. destruct v; try done. cbn.
  destruct (bool_decide _); cbn; [by apply as_vec_ok|done].
Qed.

Lemma total_try_opt v : lambda_ok v -> total c0 (liftE (try_opt v)) (fun o => forall w, o = Some w -> lambda_ok w).
Proof. intros Hv. apply triple_liftE. destruct v; try done. intros w ->. by inversion Hv; subst. Qed.

Lemma total_checked_value e : (depth e < d)%nat -> total c0 (checked_value e (ev e)) lambda_ok.
Proof.
  intros He. eapply triple_bind; [by apply Hchild|]. intros v Hv.
  eapply triple_bind; [apply total_lift, ends_check_type|]. intros _ _. by apply triple_ret.
Qed.

Lemma total_or_default o (m : evalM Value) :
  (forall v, o = Some v -> lambda_ok v) -> total c0 m lambda_ok -> total c0 (or_default ctx o m) lambda_ok.
Proof.
  intros Ho Hm. unfold or_default. case_match.
  - destruct o as [v|]; [|done]. apply triple_ret. auto.
  - eapply triple_bind; [done|]. intros v Hv. apply triple_ret. destruct o; cbn; auto.
Qed.

(** What comes next in a node: a charge, a child, a lifted result or the value. *)
Ltac side := first [lia | by auto with ends | by cbn; auto with ends | by_cases].
Ltac prim := first
  [ apply Hchild; lia
  | apply total_checked_value; lia
  | apply total_cost; lia
  | apply total_per_item; lia
  | by apply total_try_coll
  | by apply total_items_of
  | by apply total_lambda_of
  | by apply total_try_opt
  | apply total_get_env
  | apply total_lift; side ].
Ltac tot := repeat (cbn beta in *;
  match goal with
  | |- triple _ _ (mbind _ _) _ => eapply triple_bind; [solve [prim]|intros ? ?; cbn beta in *]
  | |- triple _ _ (mret _) _ => apply triple_ret
  | |- triple _ _ (fail _) _ => apply triple_fail; discriminate
  end).
Ltac flat := by apply ok_flat.

Lemma total_bools base per_chunk chunk_size input :
  (depth input < d)%nat -> 0 <= base -> 0 <= per_chunk ->
  total c0 (eval_bools ctx ev base per_chunk chunk_size input) (fun _ => True).
Proof. intros Hd Hb Hp. unfold eval_bools. by tot. Qed.

Lemma total_to_bool e : (depth e < d)%nat -> total c0 (eval_to_bool ev e) (fun _ => True).
Proof. intros Hd. unfold eval_to_bool. tot. eapply triple_mono; [apply total_lift; by destruct a|done]. Qed.

Lemma total_to_point e : (depth e < d)%nat -> total c0 (eval_to_point ev e) (fun _ => True).
Proof. intros Hd. unfold eval_to_point. tot. eapply triple_mono; [apply total_lift; by destruct a|done]. Qed.

(** ** Nodes with lists of children, and operators *)

Lemma total_func_value arg_list body :
  (depth body <= D)%nat -> total c0 (eval_func_value ctx arg_list body) lambda_ok.
Proof.
  intros Hb. unfold eval_func_value. tot. destruct arg_list as [|arg [|? ?]]; try done.
  apply ok_lambda; [done|]. by apply env_ok_bindings.
Qed.

Lemma total_children items :
  (max_list_with depth items < d)%nat ->
  total c0 (mapM_st ev items) (fun vs => Forall lambda_ok vs /\ length vs = length items).
Proof. intros Hd. apply triple_mapM_st. intros x Hx. apply Hchild. pose proof (max_elem x items Hx). lia. Qed.

Lemma total_checked_children items :
  (max_list_with depth items < d)%nat ->
  total c0 (mapM_st (fun i => checked_value i (ev i)) items) (fun vs => Forall lambda_ok vs /\ length vs = length items).
Proof.
  intros Hd. apply triple_mapM_st. intros x Hx. apply total_checked_value. pose proof (max_elem x items Hx). lia.
Qed.

Lemma total_apply func arg_list :
  (depth func < d)%nat -> (max_list_with depth arg_list < d)%nat -> total c0 (eval_apply ctx ev func arg_list) lambda_ok.
Proof.
  intros Hf Ha. unfold eval_apply. tot. eapply triple_bind; [by apply total_children|]. intros vs [Hvs Hl].
  destruct a1 as [| | | | | | | | | | | | | | | | | | | |args body captured]; try (by apply triple_fail).
  destruct arg_list as [|x [|? ?]], vs as [|v [|? ?]]; try done.
  eapply triple_bind; [prim|intros _ _]. eapply triple_bind.
  - eapply (total_invoke (args, body, env_from captured)); [|by apply Forall_singleton].
    match goal with H : lambda_ok _ |- _ => inversion H; subst; [done|] end.
    split; [by eexists|]. split; [done|]. by apply env_ok_from.
  - intros p [Hp _]. by apply triple_ret.
Qed.

Lemma total_val_def rhs : (depth rhs < d)%nat -> total c0 (eval_val_def ctx ev rhs) lambda_ok.
Proof. intros Hd. unfold eval_val_def. by tot. Qed.

Lemma total_as_val_def i : (depth i < d)%nat -> total c0 (liftE (as_val_def i)) (fun p => (depth p.2 < d)%nat).
Proof. intros Hd. apply triple_liftE. destruct i; try done. cbn in *. lia. Qed.

Lemma total_top_level items :
  (max_list_with depth items < d)%nat -> total c0 (top_level_items ctx ev items) (fun _ => True).
Proof.
  induction items as [|i items IH]; cbn; intros Hd; [by apply triple_ret|].
  eapply triple_bind; [apply total_as_val_def; lia|]. intros p Hp.
  eapply triple_bind; [by apply total_val_def|]. intros v Hv.
  eapply triple_bind; [by apply total_env_insert|]. intros _ _. apply IH. lia.
Qed.

Lemma total_nested ex new_vars items :
  (max_list_with depth items < d)%nat -> env_ok ex ->
  total c0 (nested_items ctx ev ex new_vars items) (fun p => env_ok p.1).
Proof.
  revert ex new_vars. induction items as [|i items IH]; cbn; intros ex new_vars Hd Hex; [by apply triple_ret|].
  eapply triple_bind; [apply total_as_val_def; lia|]. intros p Hp.
  eapply triple_bind; [by apply total_val_def|]. intros v Hv.
  eapply triple_bind; [apply total_get_env|]. intros e He.
  eapply triple_bind; [apply total_put_env; by apply map_Forall_insert_2|]. intros _ _.
  destruct (e !! p.1) as [old|] eqn:Hold; apply IH; try done; try lia.
  apply map_Forall_insert_2; [|done]. by apply (He p.1).
Qed.

Lemma env_ok_restore ex new_vars e : env_ok ex -> env_ok e -> env_ok (restore_env ex new_vars e).
Proof.
  intros Hex He. unfold restore_env. apply map_Forall_union_2; [done|].
  revert e He. induction new_vars as [|i new_vars IH]; intros e He; cbn; [done|].
  apply IH. by apply map_Forall_delete.
Qed.

Lemma total_block items res :
  (max_list_with depth items < d)%nat -> (depth res < d)%nat -> total c0 (eval_block_value ctx ev items res) lambda_ok.
Proof.
  intros Hi Hr. unfold eval_block_value. tot. case_match.
  - eapply triple_bind; [by apply total_top_level|]. intros _ _. by apply total_checked_value.
  - eapply triple_bind; [apply total_nested; [done|apply map_Forall_empty]|]. intros p Hp. tot.
    eapply triple_bind; [by apply total_put_env, env_ok_restore|]. intros _ _. by apply triple_ret.
Qed.

Lemma total_val_use i t : total c0 (eval_val_use ctx i t) lambda_ok.
Proof.
  unfold eval_val_use. eapply triple_bind; [prim|intros _ _]. eapply triple_bind; [prim|intros e He].
  eapply triple_bind; [prim|]. intros v Hv%ok_or_Ok. tot. by apply (He i).
Qed.

Lemma total_logical op lv rhs : (depth rhs < d)%nat -> total c0 (eval_logical ev op lv rhs) lambda_ok.
Proof.
  intros Hd. unfold eval_logical. eapply triple_bind; [apply total_lift; by destruct lv|]. intros l _.
  destruct op, l; cbn; try (apply triple_ret; flat);
    (eapply triple_bind; [by apply total_to_bool|]; intros r _; apply triple_ret; flat).
Qed.

Lemma total_equality lhs rhs lv : (depth rhs < d)%nat -> total c0 (eval_equality ctx ev lhs rhs lv) (fun _ => True).
Proof. intros Hd. unfold eval_equality. tot. apply total_eq. Qed.

Lemma total_coerce lv rv : total c0 (coerce_operands ctx lv rv) (fun _ => True).
Proof.
  unfold coerce_operands. destruct (match numeric_width lv, numeric_width rv with Some l, Some r => _ | _, _ => _ end) as [w|];
    [|by apply triple_ret].
  eapply triple_bind; [apply total_cost; by case_match|]. intros _ _.
  eapply triple_bind with (P := fun _ => True).
  { case_decide; [by apply triple_ret|]. eapply triple_mono; [apply total_lift, ends_coerce|done]. }
  intros lv' _. eapply triple_bind with (P := fun _ => True).
  { case_decide; [by apply triple_ret|]. eapply triple_mono; [apply total_lift, ends_coerce|done]. }
  intros rv' _. by apply triple_ret.
Qed.

Lemma total_bin_op kind lhs rhs :
  (depth lhs < d)%nat -> (depth rhs < d)%nat -> total c0 (eval_bin_op ctx ev kind lhs rhs) lambda_ok.
Proof.
  intros Hl Hr. unfold eval_bin_op. tot. eapply triple_bind with (P := fun _ => True).
  { destruct kind as [op|[| | | | |]|op|op]; first [by apply triple_ret|by apply total_cost]. }
  intros _ _. destruct kind as [op|op|op|op].
  - tot. eapply triple_bind; [apply total_coerce|]. intros p _.
    eapply triple_bind; [apply total_cost; by destruct op, p.2|]. intros _ _.
    eapply triple_mono; [apply total_lift, ends_arith|]. intros v Hv. eapply ok_of_flat, flat_arith, Hv.
  - assert (forall op, total c0 (rv ← ev rhs; liftE (eval_relation op a rv)) lambda_ok) as Hrel.
    { intros op'. tot. eapply triple_mono; [apply total_lift, ends_relation|]. intros v Hv. eapply ok_of_flat, flat_relation, Hv. }
    destruct op; try apply Hrel; (eapply triple_bind; [by apply total_equality|]; intros b _; apply triple_ret; flat).
  - by apply total_logical.
  - destruct (num_of a) as [[T z]|] eqn:HT; [|by apply triple_fail]. tot.
    eapply triple_bind; [apply total_lift; by eapply ends_num_try|]. intros z' _. apply triple_ret.
    eapply ok_of_flat, flat_num, HT.
Qed.

(** ** Every node *)

Lemma total_placeholder id : total c0 (eval_const_placeholder ctx id) lambda_ok.
Proof.
  unfold eval_const_placeholder. tot. eapply triple_bind; [apply total_lift; unfold check_value_type; by_cases|].
  intros _ _. apply triple_ret, lambda_ok_literal.
Qed.

Lemma total_global_vars v : total c0 (eval_global_vars ctx v) lambda_ok.
Proof.
  destruct v; cbn; tot; try flat; apply ok_coll, Forall_fmap, Forall_true; intros b; flat.
Qed.

Lemma total_select input i : (depth input < d)%nat -> total c0 (eval_select_field ctx ev input i) lambda_ok.
Proof.
  intros Hd. unfold eval_select_field. tot. destruct a0 as [| | | | | | | | | | | | |items| | | | | | |]; try (by apply triple_fail).
  eapply triple_mono; [apply total_lift; auto with ends|]. intros v Hv%ok_or_Ok.
  match goal with H : lambda_ok _ |- _ => inversion H; subst; [done|] end. by eapply Forall_lookup_1.
Qed.

Lemma total_by_index input index dflt :
  (depth input < d)%nat -> (depth index < d)%nat -> (forall e, dflt = Some e -> (depth e < d)%nat) ->
  total c0 (eval_by_index ctx ev input index dflt) lambda_ok.
Proof.
  intros Hi Hx Hd. unfold eval_by_index. tot.
  match goal with H : lambda_ok (VColl ?c), _ : try_i32 _ = Ok ?z |- _ => rename H into Hcoll, c into coll, z into i end.
  assert (forall v, get_val coll (wrap_u 64 i) = Some v -> lambda_ok v) as Hget.
  { intros v. unfold get_val. case_match; [|done]. intros Hv. eapply Forall_lookup_1; [by apply as_vec_ok|done]. }
  destruct dflt as [e|].
  - apply total_or_default; [done|]. apply total_checked_value. by apply Hd.
  - eapply triple_mono; [apply total_lift; auto with ends|]. intros v Hv%ok_or_Ok. auto.
Qed.

Lemma total_sigma_items items :
  (max_list_with depth items < d)%nat -> total c0 (eval_sigma_items ctx ev items) (fun _ => True).
Proof.
  intros Hd. unfold eval_sigma_items. tot. eapply triple_bind; [by apply total_children|]. intros vs _.
  eapply triple_bind; [prim|]. intros _ _. eapply triple_mono; [apply total_lift|done].
  apply ends_mapM. intros []; done.
Qed.


(** The collection a node ends with. *)
Ltac collect := tot; eapply from_collection_ok; [|eassumption].

Lemma total_append input col_2 :
  (depth input < d)%nat -> (depth col_2 < d)%nat -> total c0 (eval_append ctx ev input col_2) lambda_ok.
Proof. intros H1 H2. unfold eval_append. tot. collect. apply Forall_app. split; by apply as_vec_ok. Qed.

Lemma total_slice input from until :
  (depth input < d)%nat -> (depth from < d)%nat -> (depth until < d)%nat ->
  total c0 (eval_slice ctx ev input from until) lambda_ok.
Proof.
  intros H1 H2 H3. unfold eval_slice. tot. collect. unfold slice_range. case_match; [|constructor].
  apply Forall_drop, Forall_take. by apply as_vec_ok.
Qed.

Lemma total_exprs t items :
  (max_list_with depth items < d)%nat -> total c0 (eval_exprs ctx ev t items) lambda_ok.
Proof.
  intros Hd. unfold eval_exprs. tot. eapply triple_bind; [by apply total_checked_children|]. intros vs [Hvs _].
  by collect.
Qed.

Lemma total_tuple items : (max_list_with depth items < d)%nat -> total c0 (eval_tuple ctx ev items) lambda_ok.
Proof.
  intros Hd. unfold eval_tuple. tot. eapply triple_bind; [by apply total_checked_children|]. intros vs [Hvs _].
  apply triple_ret. by apply ok_tup.
Qed.

Lemma total_eval_map input mapper f :
  (depth input < d)%nat -> (depth mapper < d)%nat -> total c0 (eval_map ctx ev input mapper f) lambda_ok.
Proof. intros H1 H2. unfold eval_map. tot. eapply triple_bind; [by apply total_map|]. intros vs Hvs. by collect. Qed.

Lemma total_filter input cond t :
  (depth input < d)%nat -> (depth cond < d)%nat -> total c0 (eval_filter ctx ev input cond t) lambda_ok.
Proof.
  intros H1 H2. unfold eval_filter. tot. eapply triple_bind; [by apply total_conditions|]. intros bs _. collect.
  apply Forall_fmap, Forall_forall. intros [v b] Hv. apply list_elem_of_In, filter_In in Hv as [Hv _].
  match goal with H : Forall lambda_ok _ |- _ => rewrite Forall_forall in H; apply H end.
  apply in_combine_l in Hv. by apply list_elem_of_In.
Qed.

Lemma total_quantifier stop input cond t :
  (depth input < d)%nat -> (depth cond < d)%nat -> total c0 (eval_quantifier ctx ev stop input cond t) lambda_ok.
Proof.
  intros H1 H2. unfold eval_quantifier. tot. eapply triple_bind; [by apply total_until|]. intros b _.
  apply triple_ret. flat.
Qed.

Lemma total_eval_fold input zero op :
  (depth input < d)%nat -> (depth zero < d)%nat -> (depth op < d)%nat -> total c0 (eval_fold ctx ev input zero op) lambda_ok.
Proof. intros H1 H2 H3. unfold eval_fold. tot. apply total_fold; try done. by apply as_vec_ok. Qed.

Lemma total_hash base per_chunk chunk_size h input :
  (depth input < d)%nat -> 0 <= base -> 0 <= per_chunk -> total c0 (eval_hash ctx ev base per_chunk chunk_size h input) lambda_ok.
Proof.
  intros Hd H1 H2. unfold eval_hash. tot.
  destruct a as [| | | | | | | | | | | |[[]|]| | | | | | | |]; tot. flat.
Qed.

(** Lifted results that are values without lambdas. *)
Lemma total_flat_lift (r : result EvalError Value) :
  ends r -> (forall v, r = Ok v -> flat v) -> total c0 (liftE r) lambda_ok.
Proof. intros Hr Hf. eapply triple_mono; [by apply total_lift|]. intros v Hv. by apply ok_of_flat, Hf. Qed.

Lemma total_atleast bound input :
  (depth bound < d)%nat -> (depth input < d)%nat -> total c0 (eval_atleast ctx ev bound input) lambda_ok.
Proof.
  intros H1 H2. unfold eval_atleast. tot. eapply triple_bind; [apply total_lift, ends_mapM; intros []; done|].
  intros sbs _. tot. flat.
Qed.

Lemma total_option_get input : (depth input < d)%nat -> total c0 (eval_option_get ctx ev input) lambda_ok.
Proof.
  intros Hd. unfold eval_option_get. tot. eapply triple_mono; [apply total_lift; auto with ends|].
  intros v Hv%ok_or_Ok. auto.
Qed.

Lemma total_eval_expr e : (depth e <= d)%nat -> (depth e <= D)%nat -> total c0 (eval_expr ctx ev e) lambda_ok.
Proof.
  intros Hd HD. destruct e; cbn [eval_expr depth] in *; try (progress tot; flat).
  - apply total_append; lia.
  - unfold eval_const. tot. apply lambda_ok_literal.
  - apply total_placeholder.
  - unfold eval_byte_array_to_long. tot. eapply triple_bind; [apply total_lift|intros z _; tot; flat].
    unfold long_of_bytes. by_cases.
  - unfold eval_byte_array_to_bigint. tot. eapply triple_bind; [apply total_lift|intros z _; tot; flat].
    unfold bigint_of_bytes. by_cases.
  - unfold eval_long_to_byte_array. tot. flat.
  - unfold eval_bool_constants. tot. apply ok_coll, Forall_fmap, Forall_true. intros b. flat.
  - apply total_exprs; lia.
  - apply total_tuple; lia.
  - apply total_hash; lia.
  - apply total_hash; lia.
  - apply total_global_vars.
  - apply total_func_value; lia.
  - apply total_apply; lia.
  - apply total_block; lia.
  - apply total_val_use.
  - unfold eval_if. tot. case_match; apply total_checked_value; lia.
  - apply total_bin_op; lia.
  - unfold eval_and. eapply triple_bind; [apply total_bools; lia|]. intros b _. tot. flat.
  - unfold eval_or. eapply triple_bind; [apply total_bools; lia|]. intros b _. tot. flat.
  - unfold eval_xor. tot. destruct a as [| | | | | | | | | | | |[[]|]| | | | | | | |]; tot;
      destruct a0 as [| | | | | | | | | | | |[[]|]| | | | | | | |]; tot; flat.
  - apply total_atleast; lia.
  - unfold eval_logical_not. tot. flat.
  - unfold eval_negation. tot. apply total_flat_lift; [apply ends_negate|apply flat_negate].
  - unfold eval_bit_inversion. tot. apply total_flat_lift; [by destruct a0|apply flat_invert].
  - apply total_option_get; lia.
  - unfold eval_option_is_defined. tot. flat.
  - unfold eval_option_get_or_else. tot. apply total_or_default; [done|]. apply Hchild. lia.
  - apply total_by_index; try lia. intros e ->. lia.
  - unfold eval_size_of. tot. flat.
  - apply total_slice; lia.
  - apply total_eval_fold; lia.
  - apply total_eval_map; lia.
  - apply total_filter; lia.
  - apply total_quantifier; lia.
  - apply total_quantifier; lia.
  - apply total_select; lia.
  - unfold eval_bool_to_sigma_prop. tot. destruct a0; tot; try flat; case_match; tot; flat.
  - unfold eval_upcast. tot. eapply triple_bind; [apply total_cost; by destruct tpe|intros _ _].
    apply total_flat_lift; [apply ends_upcast|apply flat_upcast].
  - unfold eval_downcast. tot. eapply triple_bind; [apply total_cost; by destruct tpe|intros _ _].
    apply total_flat_lift; [apply ends_downcast|apply flat_downcast].
  - unfold eval_create_provedlog. tot. destruct a0; tot; flat.
  - unfold eval_create_prove_dh_tuple. eapply triple_bind; [by apply total_cost|intros _ _].
    do 4 (eapply triple_bind; [apply total_to_point; lia|intros ? _]). tot. flat.
  - unfold eval_sigma_and. eapply triple_bind; [apply total_sigma_items; lia|]. intros sbs _. tot. flat.
  - unfold eval_sigma_or. eapply triple_bind; [apply total_sigma_items; lia|]. intros sbs _. tot. flat.
  - unfold eval_multiply_group. tot. destruct a0; tot; destruct a1; tot; flat.
  - unfold eval_xor_of. eapply triple_bind; [apply total_bools; lia|]. intros b _. tot. flat.
Qed.
End nodes.

Lemma expr_depth_pos e : (0 < depth e)%nat.
Proof. destruct e; cbn; lia. Qed.

(** Fuel for an expression: its depth, and [D] for every call that the rest of the budget pays for. *)
Lemma total_eval n c0 e :
  (depth e <= D)%nat -> (depth e + Z.to_nat ((L - c0) / 5) * D <= n)%nat -> total c0 (eval ctx n e) lambda_ok.
Proof.
  revert c0 e. induction n as [|n IH]; intros c0 e HD Hn; [pose proof (expr_depth_pos e); lia|]. cbn.
  apply total_eval_expr with (d := depth e); [..|done|done].
  - intros e' He'. apply IH; lia.
  - intros e' He'. destruct (Z.le_gt_cases (c0 + 5) L) as [Hc|Hc].
    + apply IH; [done|]. assert (((L - c0) / 5) = (L - (c0 + 5)) / 5 + 1) as Hdiv.
      { rewrite <- Z.div_add by lia. f_equal. lia. }
      pose proof (Z.div_pos (L - (c0 + 5)) 5 ltac:(lia) ltac:(lia)).
      rewrite Hdiv, Z2Nat.inj_add in Hn by lia. cbn in Hn. pose proof (expr_depth_pos e). lia.
    + intros s [_ Hs]. lia.
Qed.
End total.

(** * More fuel gives the same result *)

Section approx.
Context `{C : SigmaCrypto} {Bx : ErgoBoxData}.

(** [m] gives what [m'] gives, where its fuel suffices. *)
Definition approx {A} (m m' : evalM A) : Prop := forall s, m s = Err EvalFuel \/ m s = m' s.

#[export] Instance approx_refl {A} : Reflexive (@approx A).
Proof. intros m s. by right. Qed.

#[export] Instance approx_trans {A} : Transitive (@approx A).
Proof. intros m m' m'' H1 H2 s. destruct (H1 s) as [H| ->]; [by left|]. apply H2. Qed.

Lemma approx_bind {A B} (m m' : evalM A) (f f' : A -> evalM B) :
  approx m m' -> (forall a, approx (f a) (f' a)) -> approx (m ≫= f) (m' ≫= f').
Proof.
  intros Hm Hf s. unfold mbind, stateE_bind. destruct (Hm s) as [->| ->]; [by left|].
  destruct (m' s) as [[a s']|e]; [apply Hf|by right].
Qed.

Lemma approx_in_env {A} e (m m' : evalM A) : approx m m' -> approx (in_env e m) (in_env e m').
Proof.
  intros Hm s. unfold in_env. destruct (Hm (mkEvalState e (jit_cost s))) as [->| ->]; [by left|by right].
Qed.

Lemma approx_mapM_st {A B} (f f' : A -> evalM B) l :
  (forall x, approx (f x) (f' x)) -> approx (mapM_st f l) (mapM_st f' l).
Proof.
  intros Hf. induction l as [|x l IH]; [done|]. cbn. apply approx_bind; [apply Hf|]. intros y.
  by apply approx_bind.
Qed.

Context {N : Bnum} {Sh : Sha256} {HI : HashIter} (ctx : EvalContext).
Section nodes.
Context (ev ev' : Expr -> evalM Value) (Hev : forall e, approx (ev e) (ev' e)).

(** Steps through two runs of one computation. *)
Ltac mono := repeat first
  [ apply approx_refl
  | apply Hev
  | apply approx_bind; [|intros ?]
  | apply approx_in_env
  | apply approx_mapM_st; intros ?
  | match goal with |- approx ?m _ => match m with context [match ?x with _ => _ end] => destruct x end end ].

Lemma approx_checked e : approx (checked_value e (ev e)) (checked_value e (ev' e)).
Proof. unfold checked_value. mono. Qed.

Lemma approx_invoke args body inv vals : approx (invoke ctx ev args body inv vals) (invoke ctx ev' args body inv vals).
Proof. unfold invoke, checked_value. mono. Qed.

Lemma approx_map args body inv items :
  approx (invoke_map ctx ev args body inv items) (invoke_map ctx ev' args body inv items).
Proof.
  revert inv. induction items as [|v items IH]; intros inv; cbn; [done|].
  apply approx_bind; [apply approx_invoke|]. intros p. apply approx_bind; [apply IH|done].
Qed.

Lemma approx_conditions args body inv items :
  approx (invoke_conditions ctx ev args body inv items) (invoke_conditions ctx ev' args body inv items).
Proof.
  revert inv. induction items as [|v items IH]; intros inv; cbn; [done|].
  apply approx_bind; [apply approx_invoke|]. intros p. apply approx_bind; [done|]. intros b.
  apply approx_bind; [apply IH|done].
Qed.

Lemma approx_until stop args body inv items :
  approx (invoke_until ctx ev stop args body inv items) (invoke_until ctx ev' stop args body inv items).
Proof.
  revert inv. induction items as [|v items IH]; intros inv; cbn; [done|].
  apply approx_bind; [apply approx_invoke|]. intros p. apply approx_bind; [done|]. intros b.
  case_match; [done|apply IH].
Qed.

Lemma approx_fold args body inv acc items :
  approx (invoke_fold ctx ev args body inv acc items) (invoke_fold ctx ev' args body inv acc items).
Proof.
  revert inv acc. induction items as [|v items IH]; intros inv acc; cbn; [done|].
  apply approx_bind; [apply approx_invoke|]. intros p. apply IH.
Qed.

Lemma approx_val_def rhs : approx (eval_val_def ctx ev rhs) (eval_val_def ctx ev' rhs).
Proof. unfold eval_val_def, checked_value. mono. Qed.

Lemma approx_top_level items : approx (top_level_items ctx ev items) (top_level_items ctx ev' items).
Proof.
  induction items as [|i items IH]; cbn; [done|]. apply approx_bind; [done|]. intros p.
  apply approx_bind; [apply approx_val_def|]. intros v. by apply approx_bind.
Qed.

Lemma approx_nested ex vars items : approx (nested_items ctx ev ex vars items) (nested_items ctx ev' ex vars items).
Proof.
  revert ex vars. induction items as [|i items IH]; intros ex vars; cbn; [done|]. apply approx_bind; [done|]. intros p.
  apply approx_bind; [apply approx_val_def|]. intros v. apply approx_bind; [done|]. intros e.
  apply approx_bind; [done|]. intros _. case_match; apply IH.
Qed.

Lemma approx_block items res : approx (eval_block_value ctx ev items res) (eval_block_value ctx ev' items res).
Proof.
  unfold eval_block_value. apply approx_bind; [done|]. intros _. apply approx_bind; [done|]. intros e. case_match.
  - apply approx_bind; [apply approx_top_level|]. intros _. apply approx_checked.
  - apply approx_bind; [apply approx_nested|]. intros p. apply approx_bind; [apply approx_checked|done].
Qed.

(** A node on a collection and a lambda, around its loop. *)
Ltac loop lem := repeat (apply approx_bind; [first [done|apply Hev|apply approx_checked|apply lem]|intros ?]); first [done|apply lem].

Lemma approx_eval_expr e : approx (eval_expr ctx ev e) (eval_expr ctx ev' e).
Proof.
  destruct e; cbn [eval_expr]; try done.
  all: try (unfold eval_append, eval_byte_array_to_long, eval_byte_array_to_bigint, eval_long_to_byte_array,
    eval_exprs, eval_tuple, eval_calc_blake2b256, eval_calc_sha256, eval_hash, eval_if, eval_and, eval_or, eval_bools,
    eval_xor, eval_atleast, eval_logical_not, eval_negation, eval_bit_inversion, eval_option_get,
    eval_option_is_defined, eval_option_get_or_else, or_default, eval_by_index, eval_size_of, eval_slice,
    eval_select_field, eval_bool_to_sigma_prop, eval_upcast, eval_downcast, eval_create_provedlog,
    eval_create_prove_dh_tuple, eval_to_point, eval_sigma_and, eval_sigma_or, eval_sigma_items, eval_multiply_group,
    eval_xor_of, checked_value; solve [mono]).
  - apply approx_block.
  - unfold eval_by_index, or_default, checked_value. mono.
  - unfold eval_fold. loop approx_fold.
  - unfold eval_map. loop approx_map.
  - unfold eval_filter. loop approx_conditions.
  - unfold eval_exists, eval_quantifier. loop approx_until.
  - unfold eval_for_all, eval_quantifier. loop approx_until.
Qed.
End nodes.

Lemma approx_eval n m e : (n <= m)%nat -> approx (eval ctx n e) (eval ctx m e).
Proof.
  revert m e. induction n as [|n IH]; intros m e Hm; [intros s; by left|].
  destruct m as [|m]; [lia|]. cbn. apply approx_eval_expr. intros e'. apply IH. lia.
Qed.
End approx.

(** * Termination *)

Section theorems.
Context `{C : SigmaCrypto} {Bx : ErgoBoxData} {N : Bnum} {Sh : Sha256} {HI : HashIter}.

(** What [eval] needs from a cost of [cost] under a limit: every call of a lambda costs 5 at least. *)
Definition enough_fuel (limit cost : Z) (e : Expr) : nat := depth e + Z.to_nat ((limit - cost) / 5) * depth e.

Lemma eval_ends ctx limit cost e :
  jit_cost_limit ctx = Some limit -> limit < 2 ^ 64 - 1 -> cost <= limit ->
  exists r, r <> Err EvalFuel /\
    (forall n, (enough_fuel limit cost e <= n)%nat -> eval ctx n e (mkEvalState ∅ cost) = r) /\
    (forall v s, r = Ok (v, s) -> cost <= jit_cost s <= limit).
Proof.
  intros HL Hmax Hc. exists (eval ctx (enough_fuel limit cost e) e (mkEvalState ∅ cost)).
  pose proof (total_eval ctx limit HL Hmax (depth e) (enough_fuel limit cost e) cost e ltac:(lia) ltac:(done)
                (mkEvalState ∅ cost)) as Ht.
  assert (within limit (depth e) cost (mkEvalState ∅ cost)) as Hw by (split; [apply map_Forall_empty|cbn; lia]).
  specialize (Ht Hw). unfold wp in Ht. split; [|split].
  - intros He. rewrite He in Ht. by apply Ht.
  - intros n Hn. destruct (approx_eval ctx _ n e Hn (mkEvalState ∅ cost)) as [He|He]; [|done].
    rewrite He in Ht. by destruct Ht.
  - intros v s He. rewrite He in Ht. apply Ht.
Qed.

(** C6: Under a limit on the cost every expression, typed or not, evaluates to one result for every fuel above
    a bound that is computed from the limit, and that result is not the lack of fuel; on success the final cost is
    between the cost at the start and the limit. *)
Theorem eval_terminates ctx limit cost e :
  jit_cost_limit ctx = Some limit -> limit < 2 ^ 64 - 1 -> cost <= limit ->
  exists r, r <> Err EvalFuel /\
    (forall n, (enough_fuel limit cost e <= n)%nat -> eval ctx n e (mkEvalState ∅ cost) = r) /\
    (forall v s, r = Ok (v, s) -> cost <= jit_cost s <= limit).
Proof. apply eval_ends. Qed.

(** A function applied to itself. *)
Definition self_apply : Expr := Apply (ValUse 1 (SFunc [SInt] SInt [])) [ValUse 1 (SFunc [SInt] SInt [])].
Definition omega : Expr :=
  let w := func_value_new [mkFuncArg 1 (SFunc [SInt] SInt [])] self_apply in Apply w [w].
Definition omega_value : Value := VLambda [mkFuncArg 1 (SFunc [SInt] SInt [])] self_apply [].

Lemma hash_bindings_empty {V} : hash_bindings (∅ : gmap Z V) = [].
Proof. apply Permutation_nil_r. by rewrite hash_bindings_perm, map_to_list_empty. Qed.

Lemma add_unlimited ctx n s :
  jit_cost_limit ctx = None -> exists c, add_jit_cost ctx n s = Ok (tt, mkEvalState (env s) c).
Proof. intros HL. unfold add_jit_cost. rewrite HL. by eexists. Qed.

(** The call that the body makes again. *)
Lemma self_apply_diverges ctx n cost :
  jit_cost_limit ctx = None ->
  eval ctx n self_apply (mkEvalState {[1 := omega_value]} cost) = Err EvalFuel.
Proof.
  intros HL. revert cost. induction n as [|[|n] IH]; intros cost; [done|..].
  - cbn. unfold eval_apply. destruct (add_unlimited ctx 30 (mkEvalState {[1 := omega_value]} cost) HL) as [c H].
    by rewrite (bind_eq _ _ _ _ _ H).
  - assert (forall c, exists c', eval ctx (S n) (ValUse 1 (SFunc [SInt] SInt [])) (mkEvalState {[1 := omega_value]} c)
        = Ok (omega_value, mkEvalState {[1 := omega_value]} c')) as Huse.
    { intros c. cbn. unfold eval_val_use.
      destruct (add_unlimited ctx 5 (mkEvalState {[1 := omega_value]} c) HL) as [c' H]. exists c'.
      by rewrite (bind_eq _ _ _ _ _ H). }
    unfold self_apply at 1. cbn [eval eval_expr]. unfold eval_apply.
    destruct (add_unlimited ctx 30 (mkEvalState {[1 := omega_value]} cost) HL) as [c1 H1].
    rewrite (bind_eq _ _ _ _ _ H1). erewrite bind_eq; [|reflexivity].
    destruct (Huse c1) as [c2 H2]. rewrite (bind_eq _ _ _ _ _ H2). destruct (Huse c2) as [c3 H3].
    erewrite bind_eq; [|cbn [mapM_st]; rewrite (bind_eq _ _ _ _ _ H3); reflexivity].
    unfold omega_value at 1. cbv beta iota. erewrite bind_eq; [|reflexivity]. apply bind_err.
    unfold invoke, in_env, checked_value. cbn [jit_cost bind_args].
    destruct (add_unlimited ctx 5 (mkEvalState (env_from []) c3) HL) as [c4 H4].
    erewrite bind_eq; [|erewrite bind_eq; [|reflexivity]; rewrite (bind_eq _ _ _ _ _ H4); reflexivity].
    erewrite bind_err; [done|]. apply IH.
Qed.

(** Without a limit the evaluation need not end: the function that applies its argument to itself, applied to
    itself, has no result for any fuel. *)
Theorem unlimited_diverges ctx n cost :
  jit_cost_limit ctx = None -> eval ctx n omega (mkEvalState ∅ cost) = Err EvalFuel.
Proof.
  intros HL. destruct n as [|[|n]]; [done|..].
  - cbn. unfold eval_apply. destruct (add_unlimited ctx 30 (mkEvalState ∅ cost) HL) as [c H].
    by rewrite (bind_eq _ _ _ _ _ H).
  - assert (forall c, exists c', eval ctx (S n) (func_value_new [mkFuncArg 1 (SFunc [SInt] SInt [])] self_apply)
        (mkEvalState ∅ c) = Ok (omega_value, mkEvalState ∅ c')) as Hw.
    { intros c. cbn. unfold eval_func_value. destruct (add_unlimited ctx 5 (mkEvalState ∅ c) HL) as [c' H]. exists c'.
      rewrite (bind_eq _ _ _ _ _ H). do 2 (erewrite bind_eq; [|reflexivity]). cbn. unfold mret, stateE_ret.
      by rewrite hash_bindings_empty. }
    unfold omega. cbn [eval eval_expr]. unfold eval_apply.
    destruct (add_unlimited ctx 30 (mkEvalState ∅ cost) HL) as [c1 H1]. rewrite (bind_eq _ _ _ _ _ H1).
    erewrite bind_eq; [|reflexivity]. destruct (Hw c1) as [c2 H2]. rewrite (bind_eq _ _ _ _ _ H2).
    destruct (Hw c2) as [c3 H3]. erewrite bind_eq; [|cbn [mapM_st]; rewrite (bind_eq _ _ _ _ _ H3); reflexivity].
    unfold omega_value at 1. cbv beta iota. erewrite bind_eq; [|reflexivity]. apply bind_err.
    unfold invoke, in_env, checked_value. cbn [jit_cost bind_args].
    destruct (add_unlimited ctx 5 (mkEvalState (env_from []) c3) HL) as [c4 H4].
    erewrite bind_eq; [|erewrite bind_eq; [|reflexivity]; rewrite (bind_eq _ _ _ _ _ H4); reflexivity].
    erewrite bind_err; [done|]. by apply (self_apply_diverges ctx (S n)).
Qed.
End theorems.
