(* ===== verification/EvalTyping.v ===== *)
(** A type system for expressions, over the types the nodes report: [wt] decides whether an expression is typed in a
    context, [vtype] says what a value of a type is. Types.v has the types, Expr.v the function [tpe]. *)

From stdpp Require Import strings gmap.
From S2P Require Import Prelude SigmaBoolean Types Expr Value EvalOps Eval.
#[local] Open Scope Z_scope.

(** * Literals *)

Section typing.
Context `{C : SigmaCrypto} {Bx : ErgoBoxData}.

(** A literal is of a type, its numbers in range and its tuples pairs. *)
Fixpoint lit_has_type (l : Literal) (t : SType) {struct l} : bool :=
  match l, t with
  | LUnit, SUnit | LBoolean _, SBoolean | LString _, SString | LSigmaProp _, SSigmaProp
  | LGroupElement _, SGroupElement | LAvlTree _, SAvlTree | LHeader _, SHeader | LCBox _, SBox => true
  | LByte z, SByte => fits_s 8 z
  | LShort z, SShort => fits_s 16 z
  | LInt z, SInt => fits_s 32 z
  | LLong z, SLong => fits_s 64 z
  | LBigInt z, SBigInt => fits_s 256 z
  | LUnsignedBigInt z, SUnsignedBigInt => fits_u 256 z
  | LColl (Native (CollByte bytes)), SColl SByte => forallb (fits_s 8) bytes
  | LColl (WrappedColl t' items), SColl t =>
      bool_decide (t' = t) && bool_decide (t <> SByte) && forallb (fun l => lit_has_type l t) items
  | LOpt None, SOption _ => true
  | LOpt (Some l), SOption t => lit_has_type l t
  | LTup [a; b], STuple [ta; tb] => lit_has_type a ta && lit_has_type b tb
  | _, _ => false
  end.

(** * Expressions *)

Definition coll_elem (t : SType) : option SType := match t with SColl t => Some t | _ => None end.
Definition option_elem (t : SType) : option SType := match t with SOption t => Some t | _ => None end.

(** The source and target types of a cast that a tree of version [ver] may make. *)
Definition widening (t target : SType) : bool :=
  match t, target with
  | SByte, (SByte | SShort | SInt | SLong | SBigInt) | SShort, (SShort | SInt | SLong | SBigInt)
  | SInt, (SInt | SLong | SBigInt) | SLong, (SLong | SBigInt) => true
  | _, _ => false
  end.
Definition to_unsigned (t : SType) : bool :=
  match t with SByte | SShort | SInt | SLong | SUnsignedBigInt => true | _ => false end.
Definition upcast_ok (ver : Z) (t target : SType) : bool :=
  widening t target || (bool_decide (target = SUnsignedBigInt) && to_unsigned t) ||
  (bool_decide (t = SBigInt /\ target = SBigInt) && (3 <=? ver)).
Definition downcast_ok (ver : Z) (t target : SType) : bool :=
  match target with
  | SByte => match t with SByte | SShort | SInt | SLong => true | SBigInt | SUnsignedBigInt => 3 <=? ver | _ => false end
  | SShort => match t with SShort | SInt | SLong => true | SBigInt | SUnsignedBigInt => 3 <=? ver | _ => false end
  | SInt => match t with SByte | SShort | SInt | SLong => true | SBigInt | SUnsignedBigInt => 3 <=? ver | _ => false end
  | SLong => match t with SByte | SShort | SInt | SLong => true | SBigInt | SUnsignedBigInt => 3 <=? ver | _ => false end
  | SBigInt => match t with SByte | SShort | SInt | SLong => true | SBigInt => 3 <=? ver | _ => false end
  | SUnsignedBigInt => to_unsigned t
  | _ => false
  end.
Definition is_signed (t : SType) : bool := is_numeric t && negb (bool_decide (t = SUnsignedBigInt)).

Definition bin_op_ok (kind : BinOpKind) (l r : SType) : bool :=
  bool_decide (l = r) &&
  match kind with
  | Relation REq | Relation RNEq => true
  | Relation _ | Arith _ | Bit _ => is_numeric l
  | Logical _ => bool_decide (l = SBoolean)
  end.

(** Types of variables. *)
Abbreviation TypeEnv := (gmap Z SType).

Definition block_ids (items : list Expr) : list ValId :=
  omap (fun i => match i with ValDef id _ _ => Some id | _ => None end) items.

Section block.
Context (wt : TypeEnv -> Expr -> bool).
(** The context after the definitions of a block. *)
Fixpoint wt_block (Γ : TypeEnv) (items : list Expr) : option TypeEnv :=
  match items with
  | [] => Some Γ
  | ValDef id _ rhs :: items => if wt Γ rhs then wt_block (<[id := tpe rhs]> Γ) items else None
  | _ :: _ => None
  end.
End block.

Context (ver : Z) (consts : option (list Constant)).

(** Typed expressions: children of the types a node expects, lambdas of one argument that is no type variable, pairs,
    variables of the context at their types, and no variable defined twice in one block. *)
Fixpoint wt (Γ : TypeEnv) (e : Expr) {struct e} : bool :=
  match e with
  | Append a b =>
      wt Γ a && wt Γ b && bool_decide (is_Some (coll_elem (tpe a))) && bool_decide (tpe a = tpe b)
  | Const c => lit_has_type (const_v c) (const_tpe c)
  | ConstPlaceholder id t =>
      match cs ← consts; cs !! Z.to_nat id with
      | Some c => bool_decide (const_tpe c = t) && lit_has_type (const_v c) t
      | None => false
      end
  | ByteArrayToLong a | ByteArrayToBigInt a | CalcBlake2b256 a | CalcSha256 a =>
      wt Γ a && bool_decide (tpe a = SColl SByte)
  | LongToByteArray a => wt Γ a && bool_decide (tpe a = SLong)
  | BoolConstants _ | EContext | EGlobal | EGlobalVars _ => true
  | Exprs t items => forallb (fun i => wt Γ i && bool_decide (tpe i = t)) items
  | Tuple [a; b] => wt Γ a && wt Γ b
  | Tuple _ => false
  | FuncValue [arg] body t =>
      wt (<[arg_idx arg := arg_tpe arg]> Γ) body && negb (is_type_var (arg_tpe arg)) &&
      bool_decide (t = SFunc [arg_tpe arg] (tpe body) [])
  | FuncValue _ _ _ => false
  | Apply f [a] =>
      wt Γ f && wt Γ a && match tpe f with SFunc [t] _ [] => bool_decide (tpe a = t) | _ => false end
  | Apply _ _ => false
  | BlockValue items res =>
      bool_decide (NoDup (block_ids items)) &&
      match wt_block wt Γ items with Some Γ' => wt Γ' res | None => false end
  | ValDef _ _ _ => false
  | ValUse i t => bool_decide (Γ !! i = Some t)
  | If c a b => wt Γ c && wt Γ a && wt Γ b && bool_decide (tpe c = SBoolean /\ tpe a = tpe b)
  | BinOp kind a b => wt Γ a && wt Γ b && bin_op_ok kind (tpe a) (tpe b)
  | And a | Or a | XorOf a => wt Γ a && bool_decide (tpe a = SColl SBoolean)
  | Xor a b => wt Γ a && wt Γ b && bool_decide (tpe a = SColl SByte /\ tpe b = SColl SByte)
  | Atleast a b => wt Γ a && wt Γ b && bool_decide (tpe a = SInt /\ tpe b = SColl SSigmaProp)
  | LogicalNot a => wt Γ a && bool_decide (tpe a = SBoolean)
  | Negation a | BitInversion a => wt Γ a && is_signed (tpe a)
  | OptionGet a | OptionIsDefined a => wt Γ a && bool_decide (is_Some (option_elem (tpe a)))
  | OptionGetOrElse a b => wt Γ a && wt Γ b && bool_decide (option_elem (tpe a) = Some (tpe b))
  | ByIndex a b d =>
      wt Γ a && wt Γ b && bool_decide (is_Some (coll_elem (tpe a)) /\ tpe b = SInt) &&
      match d with Some d => wt Γ d && bool_decide (coll_elem (tpe a) = Some (tpe d)) | None => true end
  | SizeOf a => wt Γ a && bool_decide (is_Some (coll_elem (tpe a)))
  | Slice a b c =>
      wt Γ a && wt Γ b && wt Γ c && bool_decide (is_Some (coll_elem (tpe a)) /\ tpe b = SInt /\ tpe c = SInt)
  | Fold a z f =>
      wt Γ a && wt Γ z && wt Γ f &&
      match coll_elem (tpe a) with
      | Some t => bool_decide (tpe f = SFunc [STuple [tpe z; t]] (tpe z) [])
      | None => false
      end
  | Map a f sfunc =>
      wt Γ a && wt Γ f &&
      match coll_elem (tpe a) with
      | Some t => bool_decide (t_dom sfunc = [t] /\ tpe f = SFunc [t] (t_range sfunc) [])
      | None => false
      end
  | Filter a f t | Exists a f t | ForAll a f t =>
      wt Γ a && wt Γ f && bool_decide (tpe a = SColl t /\ tpe f = SFunc [t] SBoolean [])
  | SelectField a i t =>
      wt Γ a && (1 <=? i) &&
      match tpe a with
      | STuple [ta; tb] => bool_decide ([ta; tb] !! Z.to_nat (i - 1) = Some t)
      | _ => false
      end
  | BoolToSigmaProp a =>
      wt Γ a && (bool_decide (tpe a = SBoolean) || (bool_decide (tpe a = SSigmaProp) && (ver <? 2)))
  | Upcast a t => wt Γ a && upcast_ok ver (tpe a) t
  | Downcast a t => wt Γ a && downcast_ok ver (tpe a) t
  | CreateProveDlog a => wt Γ a && bool_decide (tpe a = SGroupElement)
  | CreateProveDhTuple a b c d =>
      wt Γ a && wt Γ b && wt Γ c && wt Γ d &&
      bool_decide (tpe a = SGroupElement /\ tpe b = SGroupElement /\ tpe c = SGroupElement /\ tpe d = SGroupElement)
  | SigmaAnd items | SigmaOr items =>
      bool_decide (items <> []) && forallb (fun i => wt Γ i && bool_decide (tpe i = SSigmaProp)) items
  | MultiplyGroup a b => wt Γ a && wt Γ b && bool_decide (tpe a = SGroupElement /\ tpe b = SGroupElement)
  end.

(** * Values *)

(** A lambda is of a function type when its body is typed in a context that the captured bindings satisfy. *)
Inductive vtype : Value -> SType -> Prop :=
| T_Boolean b : vtype (VBoolean b) SBoolean
| T_Byte z : in_s 8 z -> vtype (VByte z) SByte
| T_Short z : in_s 16 z -> vtype (VShort z) SShort
| T_Int z : in_s 32 z -> vtype (VInt z) SInt
| T_Long z : in_s 64 z -> vtype (VLong z) SLong
| T_Unit : vtype VUnit SUnit
| T_BigInt z : in_s 256 z -> vtype (VBigInt z) SBigInt
| T_GroupElement p : vtype (VGroupElement p) SGroupElement
| T_SigmaProp p : vtype (VSigmaProp p) SSigmaProp
| T_UnsignedBigInt z : in_u 256 z -> vtype (VUnsignedBigInt z) SUnsignedBigInt
| T_CBox b : vtype (VCBox b) SBox
| T_AvlTree t : vtype (VAvlTree t) SAvlTree
| T_Native bytes : Forall (in_s 8) bytes -> vtype (VColl (Native (CollByte bytes))) (SColl SByte)
| T_Wrapped t items : t <> SByte -> Forall (fun v => vtype v t) items -> vtype (VColl (WrappedColl t items)) (SColl t)
| T_Tup a b ta tb : vtype a ta -> vtype b tb -> vtype (VTup [a; b]) (STuple [ta; tb])
| T_Context : vtype VContext SContext
| T_String s : vtype (VString s) SString
| T_Header h : vtype (VHeader h) SHeader
| T_PreHeader h : vtype (VPreHeader h) SPreHeader
| T_Global : vtype VGlobal SGlobal
| T_None t : vtype (VOpt None) (SOption t)
| T_Some v t : vtype v t -> vtype (VOpt (Some v)) (SOption t)
| T_Lambda Γ arg body captured :
    wt (<[arg_idx arg := arg_tpe arg]> Γ) body = true ->
    is_type_var (arg_tpe arg) = false ->
    (forall i t, Γ !! i = Some t -> exists v, env_from captured !! i = Some v /\ vtype v t) ->
    vtype (VLambda [arg] body captured) (SFunc [arg_tpe arg] (tpe body) []).

Definition env_typed (Γ : TypeEnv) (e : Env) : Prop :=
  forall i t, Γ !! i = Some t -> exists v, e !! i = Some v /\ vtype v t.

(** The failures a typed expression can have when it is run: those that depend on its values. *)
Inductive runtime_error : EvalError -> Prop :=
| re_cost limit : runtime_error (CostError limit)
| re_arithmetic text : runtime_error (ArithmeticException text)
| re_none : runtime_error (NotFound "calling Option.get on None")
| re_index : runtime_error (Misc "ByIndex: index out of bounds")
| re_downcast : runtime_error (UnexpectedValue "Downcast: overflow")
| re_negative : runtime_error (UnexpectedValue "cannot cast negative value to UnsignedBigInt")
| re_long_bytes : runtime_error (UnexpectedValue "byteArrayToLong: array must contain at least 8 elements")
| re_no_bytes : runtime_error (UnexpectedValue "ByteArrayToBigInt: byte array is empty")
| re_many_bytes : runtime_error (UnexpectedValue "ByteArrayToBigInt: input array out of bounds")
| re_atleast : runtime_error (Misc "Atleast: expected input elements count should not exceed 255")
| re_compare : runtime_error (Misc "Cannot compare SigmaBoolean values: unknown type")
(** Integer overflow in a charge, which a slice of a large enough range reaches. *)
| re_panic : runtime_error EvalPanic
(** The model's fuel: EvalTotal says how much is enough. *)
| re_fuel : runtime_error EvalFuel.
End typing.
