(* ===== verification/EvalTypedOps.v ===== *)
(** Values and the operations on them keep the types of EvalTyping: literals, collections and environments are of their
    types, and arithmetic, bit operations and casts of typed numbers give typed numbers or fail for their values. *)

From stdpp Require Import strings gmap.
From S2P Require Import Prelude SigmaBoolean Types BigNum Expr Value EvalOps StateLogic Eval EvalTyping.
#[local] Open Scope Z_scope.

Lemma fits_s_spec w z : fits_s w z = true <-> in_s w z.
Proof. unfold fits_s, in_s. rewrite andb_true_iff, Z.leb_le, Z.ltb_lt. done. Qed.
Lemma fits_u_spec w z : fits_u w z = true <-> in_u w z.
Proof. unfold fits_u, in_u. rewrite andb_true_iff, Z.leb_le, Z.ltb_lt. done. Qed.

Section values.
Context `{C : SigmaCrypto} {Bx : ErgoBoxData} {N : Bnum} {NL : BnumLaws N} {Sh : Sha256} {HI : HashIter}.
Context (ctx : EvalContext).

Abbreviation wt_ctx := (wt (tree_version ctx) (constants ctx)).
Abbreviation vt := (vtype (tree_version ctx) (constants ctx)).
Abbreviation env_typed_ctx := (env_typed (tree_version ctx) (constants ctx)).
#[local] Hint Constructors vtype runtime_error : core.

Lemma vtype_check v t : vt v t -> check_value_of_type t v = Ok tt.
Proof. by destruct 1. Qed.

Lemma forallb_typed {A} (f : A -> bool) (P : A -> Prop) l :
  (forall x, f x = true -> P x) -> forallb f l = true -> Forall P l.
Proof. intros Hf Hl. apply Forall_forall. intros x Hx. apply Hf. rewrite forallb_forall in Hl. by apply Hl, list_elem_of_In. Qed.

Lemma literal_typed l t : lit_has_type l t = true -> vt (value_of_literal l) t.
Proof.
  revert t. induction l as [l Hl|t' items IH|l IH|items IH] using Literal_ind'; intros t H.
  - destruct l as [| | | | | | | | | | | | | |[[bytes]|? ?]|[l|]|items]; try done; destruct t; try done; cbn in H |- *;
      try (by constructor; first [apply fits_s_spec|apply fits_u_spec]).
    destruct t; try done. constructor. eapply forallb_typed; [|exact H]. intros z. apply fits_s_spec.
  - destruct t; try done. cbn in H |- *. apply andb_prop in H as [[->%bool_decide_eq_true Ht%bool_decide_eq_true]%andb_prop H].
    constructor; [done|]. apply Forall_fmap, Forall_forall. intros x Hx. rewrite Forall_forall in IH. apply IH; [done|].
    rewrite forallb_forall in H. by apply H, list_elem_of_In.
  - destruct t; try done. cbn in H |- *. auto.
  - destruct items as [|a [|b [|? ?]]], t as [| | | | | | | | | | | | | | | |[|ta [|tb [|? ?]]]| | | | | | |]; try done.
    cbn in H |- *. apply andb_prop in H as [Ha Hb]. rewrite Forall_cons, Forall_singleton in IH. destruct IH. auto.
Qed.

Lemma as_vec_typed c t : vt (VColl c) (SColl t) -> elem_tpe_of c = t /\ Forall (fun v => vt v t) (as_vec c).
Proof.
  inversion 1; subst; cbn; [|done]. split; [done|]. apply Forall_fmap.
  eapply Forall_impl; [eassumption|]. intros z Hz. by constructor.
Qed.

Lemma from_collection_typed t items :
  Forall (fun v => vt v t) items -> exists c, from_collection t items = Ok c /\ vt (VColl c) (SColl t).
Proof.
  intros Hi. destruct (decide (t = SByte)) as [->|Ht].
  - assert (exists bytes, mapM_res try_i8 items = Ok bytes /\ Forall (in_s 8) bytes) as (bytes & Hm & Hb).
    { induction Hi as [|v items Hv Hi IH]; [by exists []|]. inversion Hv; subst. destruct IH as (bytes & Hm & Hb).
      exists (z :: bytes). cbn. rewrite Hm. split; [done|]. by constructor. }
    exists (Native (CollByte bytes)). cbn. rewrite Hm. auto.
  - exists (WrappedColl t items). split; [by destruct t|]. by constructor.
Qed.

Lemma env_from_bindings (e : Env) : env_from (hash_bindings e) = e.
Proof.
  assert (forall (l : list (Z * Value)) (m : Env), NoDup l.*1 -> (forall i v, (i, v) ∈ l -> m !! i = None) ->
      foldl (fun env p => <[p.1 := p.2]> env) m l = m ∪ list_to_map l) as Hfold.
  { induction l as [|[i v] l IH]; intros m Hn Hm; cbn; [by rewrite (right_id_L ∅ _)|].
    apply NoDup_cons in Hn as [Hi Hn]. rewrite IH; [|done|].
    - rewrite <- insert_union_l. symmetry. rewrite <- insert_union_r; [done|]. apply (Hm i v). left.
    - intros j w Hj. rewrite lookup_insert_ne; [apply (Hm j w); by right|]. intros ->. apply Hi.
      apply list_elem_of_fmap. by exists (j, w). }
  unfold env_from. rewrite Hfold.
  - rewrite (left_id_L ∅ _). rewrite (list_to_map_proper _ (map_to_list e)); [apply list_to_map_to_list| |apply hash_bindings_perm].
    rewrite (hash_bindings_perm e). apply NoDup_fst_map_to_list.
  - rewrite (hash_bindings_perm e). apply NoDup_fst_map_to_list.
  - intros i v _. apply lookup_empty.
Qed.

Lemma env_typed_insert Γ e i t v : env_typed_ctx Γ e -> vt v t -> env_typed_ctx (<[i := t]> Γ) (<[i := v]> e).
Proof.
  intros He Hv j u Hj. destruct (decide (i = j)) as [->|Hij].
  - rewrite lookup_insert_eq in Hj. simplify_eq. exists v. by rewrite lookup_insert_eq.
  - rewrite lookup_insert_ne in Hj by done. destruct (He j u Hj) as (w & Hw & Ht). exists w. by rewrite lookup_insert_ne.
Qed.

(** * Operations on numbers *)

Lemma std_arith_s w op a b z :
  in_s w a -> in_s w b -> std_arith (fits_s w) op a b = Some z -> in_s w z.
Proof.
  unfold std_arith, checked. intros Ha Hb H. destruct op; repeat case_match; simplify_eq;
    try (by apply fits_s_spec); unfold in_s in *; try lia.
  rewrite Z.eqb_neq in *. pose proof (Z.rem_bound_abs a b ltac:(done)). lia.
Qed.

Lemma std_arith_u w op a b z :
  in_u w a -> in_u w b -> std_arith (fits_u w) op a b = Some z -> in_u w z.
Proof.
  unfold std_arith, checked. intros Ha Hb H. destruct op; repeat case_match; simplify_eq;
    try (by apply fits_u_spec); unfold in_u in *; try lia.
  rewrite Z.eqb_neq in *. pose proof (Z.rem_bound_pos a b ltac:(lia) ltac:(lia)). lia.
Qed.

Lemma bigint_arith_range op a b z : in_s 256 a -> in_s 256 b -> bigint_arith op a b = Some z -> in_s 256 z.
Proof.
  intros Ha Hb H. assert (forall op, i256_checked op a b = Some z -> in_s 256 z) as Hc.
  { intros op' Hop. rewrite i256_checked_spec in Hop by done. exact (std_arith_s _ _ _ _ _ Ha Hb Hop). }
  destruct op; cbn in H; eauto; try (simplify_eq; unfold in_s in *; lia).
  unfold bigint_checked_rem in H. case_match eqn:Hlt; [done|]. rewrite Z.ltb_ge in Hlt.
  rewrite i256_checked_spec in H by done. destruct (std_arith _ Modulo a b) as [rem|] eqn:Hrem; [|done].
  pose proof (std_arith_s _ _ _ _ _ Ha Hb Hrem) as Hr. case_match eqn:Hneg; simplify_eq; [|done].
  rewrite Z.ltb_lt in Hneg. unfold in_s in *. lia.
Qed.

Lemma unsigned_bigint_arith_range op a b z :
  in_u 256 a -> in_u 256 b -> unsigned_bigint_arith op a b = Some z -> in_u 256 z.
Proof.
  intros Ha Hb H. assert (forall op, u256_checked op a b = Some z -> in_u 256 z) as Hc.
  { intros op' Hop. rewrite u256_checked_spec in Hop by done. exact (std_arith_u _ _ _ _ _ Ha Hb Hop). }
  destruct op; cbn in H; eauto; simplify_eq; unfold in_u in *; lia.
Qed.

(** What a lifted result promises. *)
Definition gives (r : result EvalError Value) (t : SType) : Prop :=
  match r with Ok v => vt v t | Err e => runtime_error e end.

Ltac numeric Hl Hr := inversion Hl; subst; try done; inversion Hr; subst.

(** An integer operation that gives nothing is an arithmetic exception. *)
Lemma arith_gives (o : option Z) text (into : Z -> Value) t :
  (forall z, o = Some z -> vt (into z) t) ->
  gives match o with Some z => Ok (into z) | None => Err (ArithmeticException text) end t.
Proof. intros H. destruct o; [by apply H|constructor]. Qed.

Lemma arith_typed op lv rv t : vt lv t -> vt rv t -> is_numeric t = true -> gives (eval_arith op lv rv) t.
Proof.
  intros Hl Hr Ht. numeric Hl Hr; apply arith_gives; intros z' Hz'; constructor;
    match goal with Ha : in_s _ _, Hb : in_s _ _ |- _ => first
      [exact (std_arith_s _ _ _ _ _ Ha Hb Hz') | exact (std_arith_s _ _ _ _ _ Hb Ha Hz')
      |exact (bigint_arith_range _ _ _ _ Ha Hb Hz') | exact (bigint_arith_range _ _ _ _ Hb Ha Hz')]
    | Ha : in_u _ _, Hb : in_u _ _ |- _ => first
      [exact (unsigned_bigint_arith_range _ _ _ _ Ha Hb Hz')|exact (unsigned_bigint_arith_range _ _ _ _ Hb Ha Hz')] end.
Qed.

Lemma relation_typed op lv rv t : vt lv t -> vt rv t -> is_numeric t = true -> gives (eval_relation op lv rv) SBoolean.
Proof. intros Hl Hr Ht. numeric Hl Hr; constructor. Qed.

Lemma land_bound w a b : 0 < w -> in_s w a -> in_s w b -> in_s w (std_bit BitAnd a b) /\ in_s w (std_bit BitOr a b) /\ in_s w (std_bit BitXor a b).
Proof.
  intros Hw Ha Hb.
  assert (forall z, in_s w z <-> Z.shiftr z (w - 1) = 0 \/ Z.shiftr z (w - 1) = -1) as Hs.
  { intros z. rewrite Z.shiftr_div_pow2 by lia. unfold in_s. pose proof (Z.pow_pos_nonneg 2 (w - 1) ltac:(lia) ltac:(lia)) as Hp.
    pose proof (Z.div_mod z (2 ^ (w - 1)) ltac:(lia)). pose proof (Z.mod_pos_bound z (2 ^ (w - 1)) Hp). split; [intros Hz|].
    - destruct (Z.lt_ge_cases z 0); [right|left]; nia.
    - intros [Hz|Hz]; rewrite Hz in *; lia. }
  rewrite !Hs in *. cbn. rewrite Z.shiftr_land, Z.shiftr_lor, Z.shiftr_lxor.
  destruct Ha as [-> | ->], Hb as [-> | ->]; cbn; auto.
Qed.

Lemma std_bit_s w op a b : 0 < w -> in_s w a -> in_s w b -> in_s w (std_bit op a b).
Proof. intros Hw Ha Hb. destruct (land_bound w a b Hw Ha Hb) as (? & ? & ?). by destruct op. Qed.

Lemma in_u_bits w z : 0 <= w -> in_u w z <-> Z.shiftr z w = 0.
Proof.
  intros Hw. rewrite Z.shiftr_div_pow2 by lia. unfold in_u. pose proof (Z.pow_pos_nonneg 2 w ltac:(lia) ltac:(lia)) as Hp.
  pose proof (Z.div_mod z (2 ^ w) ltac:(lia)). pose proof (Z.mod_pos_bound z (2 ^ w) Hp).
  split; intros Hz; [nia|]. rewrite Hz in *. lia.
Qed.

Lemma std_bit_u w op a b : 0 <= w -> in_u w a -> in_u w b -> in_u w (std_bit op a b).
Proof.
  intros Hw. rewrite !in_u_bits by done. intros Ha Hb.
  destruct op; cbn; rewrite ?Z.shiftr_land, ?Z.shiftr_lor, ?Z.shiftr_lxor, Ha, Hb; done.
Qed.

Lemma negate_typed v t : vt v t -> is_signed t = true -> gives (negate_value v) t.
Proof.
  intros Hv Ht. inversion Hv; subst; try done; cbn; try (by constructor; apply wrap_s_range).
  unfold bigint_checked_neg. destruct (Z.eqb_spec z bigint_min_value) as [->|Hz]; constructor.
  unfold in_s, bigint_min_value in *. change (2 ^ (256 - 1)) with (2 ^ 255) in *. lia.
Qed.

Lemma lnot_s w z : in_s w z -> in_s w (Z.lnot z).
Proof. unfold in_s, Z.lnot. lia. Qed.

Lemma invert_typed v t : vt v t -> is_signed t = true -> gives (invert_bits v) t.
Proof.
  intros Hv Ht. inversion Hv; subst; try done; cbn; constructor; try (by apply lnot_s).
  rewrite i256_not_spec by done. by apply lnot_s.
Qed.

(** ** Casts *)

Lemma in_s_wider w w' z : 0 < w -> w <= w' -> in_s w z -> in_s w' z.
Proof. unfold in_s. intros Hw Hw' Hz. pose proof (Z.pow_le_mono_r 2 (w - 1) (w' - 1)). lia. Qed.

Lemma non_negative_typed w z : 0 < w -> w <= 64 -> in_s w z -> gives (non_negative z) SUnsignedBigInt.
Proof.
  intros Hw Hw' Hz. unfold non_negative. case_match eqn:Hn; [constructor|]. rewrite Z.ltb_ge in Hn. constructor.
  pose proof (in_s_wider w 64 z Hw Hw' Hz). unfold in_s, in_u in *. cbn in *. lia.
Qed.

Ltac wider := first [done | eapply in_s_wider; [| |eassumption]; lia].

Lemma upcast_typed v t target :
  vt v t -> upcast_ok (tree_version ctx) t target = true -> gives (upcast_to (tree_version ctx) target v) target.
Proof.
  intros Hv H. destruct target; cbn in H; try (by destruct t); unfold upcast_ok in H; cbn in H;
    inversion Hv; subst; try done; cbn; try (by constructor; wider); try (by eapply non_negative_typed; [| |eassumption]; lia).
  rewrite orb_true_iff, andb_true_iff in H. unfold bigint_gate. destruct H as [H|[_ ->]]; [|by constructor].
  by rewrite orb_true_iff, andb_true_iff in H; destruct H as [H|[_ H]].
Qed.

Lemma wrap_downcast_typed w into t z :
  (forall z, in_s w z -> vt (into z) t) -> gives (wrap_downcast w into z) t.
Proof.
  intros Hi. unfold wrap_downcast, checked. destruct (fits_s w z) eqn:Hz; [|constructor]. apply Hi. by apply fits_s_spec.
Qed.

Lemma downcast_typed v t target :
  vt v t -> downcast_ok (tree_version ctx) t target = true -> gives (downcast_to (tree_version ctx) target v) target.
Proof.
  intros Hv H. destruct target; try done; cbn in H; inversion Hv; subst; try done; cbn;
    unfold downcast_gate; try rewrite H; try (by constructor; wider);
    try (by apply wrap_downcast_typed; constructor); by eapply non_negative_typed; [| |eassumption]; lia.
Qed.
End values.
