(* ===== verification/EvalSound.v ===== *)
(** The evaluator keeps the types of EvalTyping: what a typed expression evaluates to is of the expression's type, the
    environment keeps its types and, where it held something before, is the one from before, and a failure is one that
    depends on the values met at run time, never on a value of the wrong type or on a missing variable. *)

From stdpp Require Import strings gmap.
From S2P Require Import Prelude SigmaBoolean Types Expr Value EvalOps StateLogic Eval EvalTotal EvalTyping EvalTypedOps.
#[local] Open Scope Z_scope.

Section sound.
Context `{C : SigmaCrypto} {Bx : ErgoBoxData} {N : Bnum} {NL : BnumLaws N} {Sh : Sha256} {HI : HashIter}.
Context (ctx : EvalContext).

Abbreviation ver := (tree_version ctx).
Abbreviation wt_ctx := (wt (tree_version ctx) (constants ctx)).
Abbreviation vt := (vtype (tree_version ctx) (constants ctx)).
Abbreviation env_typed_ctx := (env_typed (tree_version ctx) (constants ctx)).
Abbreviation gives_ctx := (gives ctx).
#[local] Hint Constructors vtype runtime_error : core.

(** * Triples for typed computations *)

(** The environment is of its types, and is [E0] unless that is empty. *)
Definition inv (Γ : gmap Z SType) (E0 : Env) (s : EvalState) : Prop :=
  env_typed_ctx Γ (env s) /\ (E0 = ∅ \/ env s = E0).

Definition sound {A} (Γ : gmap Z SType) (E0 : Env) (m : evalM A) (P : A -> Prop) : Prop :=
  triple (inv Γ E0) runtime_error m P.

Section rules.
Context (Γ : gmap Z SType) (E0 : Env).

Lemma sound_cost n : sound Γ E0 (add_jit_cost ctx n) (fun _ => True).
Proof. intros s Hs. unfold wp, add_jit_cost. by repeat case_match; simplify_eq; auto. Qed.

Lemma sound_per_item base per_chunk chunk_size n :
  sound Γ E0 (add_per_item_jit_cost ctx base per_chunk chunk_size n) (fun _ => True).
Proof. unfold add_per_item_jit_cost. case_match; [apply sound_cost|by apply triple_fail]. Qed.

Lemma sound_cost_bind {A} n (f : unit -> evalM A) Q :
  sound Γ E0 (f tt) Q -> sound Γ E0 (add_jit_cost ctx n ≫= f) Q.
Proof. intros Hf. eapply triple_bind; [apply sound_cost|]. by intros []. Qed.

Lemma sound_per_item_bind {A} base per_chunk chunk_size n (f : unit -> evalM A) Q :
  sound Γ E0 (f tt) Q -> sound Γ E0 (add_per_item_jit_cost ctx base per_chunk chunk_size n ≫= f) Q.
Proof. intros Hf. eapply triple_bind; [apply sound_per_item|]. by intros []. Qed.

Lemma sound_lift_bind {A B} (r : result EvalError A) (f : A -> evalM B) Q :
  match r with Ok a => sound Γ E0 (f a) Q | Err e => runtime_error e end -> sound Γ E0 (liftE r ≫= f) Q.
Proof. destruct r as [a|e]; intros Hr; [exact Hr|]. intros s Hs. exact Hr. Qed.

Lemma sound_get_env_bind {A} (f : Env -> evalM A) Q :
  (forall e, env_typed_ctx Γ e -> sound Γ E0 (f e) Q) -> sound Γ E0 (get_env ≫= f) Q.
Proof. intros Hf s Hs. apply Hf; [apply Hs|done]. Qed.

Lemma sound_check v t {A} (f : unit -> evalM A) Q :
  vt v t -> sound Γ E0 (f tt) Q -> sound Γ E0 (liftE (check_value_of_type t v) ≫= f) Q.
Proof. intros Hv Hf. apply sound_lift_bind. by rewrite (vtype_check ctx v t Hv). Qed.

(** ** Equality *)

Lemma sound_eq_items {A} (eq : A -> A -> evalM bool) l r :
  Forall (fun x => forall y, sound Γ E0 (eq x y) (fun _ => True)) l -> sound Γ E0 (eq_items eq l r) (fun _ => True).
Proof.
  intros Hl. revert r. induction Hl as [|x l Hx Hl IH]; intros [|y r]; try (by apply triple_ret).
  eapply triple_bind; [apply Hx|]. intros [] _; [apply IH|by apply triple_ret].
Qed.

Lemma sound_eq_counting (eq : Value -> Value -> evalM bool) k l r :
  Forall (fun x => forall y, sound Γ E0 (eq x y) (fun _ => True)) l -> sound Γ E0 (eq_counting eq k l r) (fun _ => True).
Proof.
  intros Hl. revert k r. induction Hl as [|x l Hx Hl IH]; intros k [|y r]; try (by apply triple_ret).
  eapply triple_bind; [apply Hx|]. intros [] _; [apply IH|by apply triple_ret].
Qed.

Lemma sound_eq_point p q : sound Γ E0 (eq_point ctx p q) (fun _ => True).
Proof. apply sound_cost_bind. by apply triple_ret. Qed.

Lemma sound_eq_sigma l r : sound Γ E0 (eq_sigma_bool_with_cost ctx l r) (fun _ => True).
Proof.
  revert r. induction l as [b|t|c items IH] using SigmaBoolean_ind'; intros r; apply sound_cost_bind;
    repeat case_match; try (by apply triple_ret); try (by apply triple_fail; auto);
    try (by apply sound_eq_items); try apply sound_eq_point.
  apply sound_eq_items. repeat constructor; intros; apply sound_eq_point.
Qed.

Lemma sound_eq lv rv : sound Γ E0 (eq_with_cost ctx lv rv) (fun _ => True).
Proof.
  revert rv. induction lv as [lv Hlv|t items IH|items IH|lv IH] using Value_ind'; intros rv.
  - destruct lv as [| | | | | | | | | | | |[[bytes]|t items]| | | | | | |[|]|]; try done;
      destruct rv; cbn [eq_with_cost]; repeat first [apply sound_cost_bind | apply sound_per_item_bind | case_match];
      try (by apply triple_ret); apply sound_eq_sigma.
  - destruct rv; cbn [eq_with_cost]; repeat first [apply sound_cost_bind | case_match];
      repeat first [apply sound_cost_bind | apply sound_per_item_bind]; try (by apply triple_ret).
    eapply triple_bind; [by apply sound_eq_counting|]. intros p _. apply sound_per_item_bind. by apply triple_ret.
  - destruct rv; cbn [eq_with_cost]; apply sound_cost_bind; repeat case_match; try (by apply triple_ret).
    by apply sound_eq_items.
  - destruct rv as [| | | | | | | | | | | | | | | | | | |[|]|]; cbn [eq_with_cost]; apply sound_cost_bind;
      by first [apply IH | apply triple_ret].
Qed.
End rules.

(** Values of a type. *)
Lemma vt_coll v t : vt v (SColl t) -> exists c, v = VColl c /\ elem_tpe_of c = t /\ Forall (fun x => vt x t) (as_vec c).
Proof. inversion 1; subst; eexists; (split; [done|]); by apply as_vec_typed. Qed.

Lemma vt_bytes v : vt v (SColl SByte) -> exists l, v = VColl (Native (CollByte l)) /\ Forall (in_s 8) l.
Proof. inversion 1; subst; [by eexists|done]. Qed.

Lemma vt_option v t : vt v (SOption t) -> exists o, v = VOpt o /\ forall w, o = Some w -> vt w t.
Proof. inversion 1; subst; eexists; (split; [done|]); naive_solver. Qed.

Lemma mapM_typed {A} (f : Value -> result EvalError A) (P : A -> Prop) t l :
  (forall v, vt v t -> exists a, f v = Ok a /\ P a) -> Forall (fun v => vt v t) l ->
  exists l', mapM_res f l = Ok l' /\ Forall P l' /\ length l' = length l.
Proof.
  intros Hf. induction 1 as [|v l Hv Hl (l' & Hm & Hp & Hn)]; [by exists []|].
  destruct (Hf v Hv) as (a & Ha & HPa). exists (a :: l'). cbn. rewrite Ha, Hm. cbn. rewrite Hn. auto.
Qed.

Lemma env_typed_mono Γ Γ' e : Γ' ⊆ Γ -> env_typed_ctx Γ e -> env_typed_ctx Γ' e.
Proof. intros Hs He i t Hi. apply He. by eapply lookup_weaken. Qed.

(** * Expressions, over a typed evaluator of their children *)

Section nodes.
Context (ev : Expr -> evalM Value).
Context (Hev : forall Γ E0 e, wt_ctx Γ e = true -> sound Γ E0 (ev e) (fun v => vt v (tpe e))).

(** ** Lambdas *)

(** A lambda with the environment of its invoker, of the type from [t] to [r]. *)
Definition callable (l : list FuncArg * Expr * Env) (t r : SType) : Prop :=
  exists arg Γl, l.1.1 = [arg] /\ arg_tpe arg = t /\ tpe l.1.2 = r /\
    wt_ctx (<[arg_idx arg := arg_tpe arg]> Γl) l.1.2 = true /\ env_typed_ctx (delete (arg_idx arg) Γl) l.2.

Lemma lambda_typed v t r : vt v (SFunc [t] r []) ->
  exists arg body captured, v = VLambda [arg] body captured /\ is_type_var (arg_tpe arg) = false /\
    callable ([arg], body, env_from captured) t r.
Proof.
  inversion 1 as [| | | | | | | | | | | | | | | | | | | | | |Γl arg body captured Hwt Hvar Hcap]; subst.
  exists arg, body, captured. split; [done|]. split; [done|]. exists arg, Γl. repeat split; [done|].
  eapply env_typed_mono; [apply delete_subseteq|]. exact Hcap.
Qed.

Lemma lambda_of_typed v t r : vt v (SFunc [t] r []) -> exists l, lambda_of v = Ok l /\ callable l t r.
Proof. intros (arg & body & captured & -> & _ & Hc)%lambda_typed. by eexists. Qed.

Lemma bind_arg_typed arg v Γl s :
  vt v (arg_tpe arg) -> env_typed_ctx (delete (arg_idx arg) Γl) (env s) ->
  wp (bind_args ctx [arg] [v]) (fun _ s' => env_typed_ctx (<[arg_idx arg := arg_tpe arg]> Γl) (env s')) runtime_error s.
Proof.
  intros Hv He. cbn [bind_args]. rewrite (vtype_check ctx _ _ Hv). apply (wp_bind (add_jit_cost ctx 5)).
  eapply wp_mono; [apply (sound_cost (delete (arg_idx arg) Γl) ∅ 5 s); by split; [|left]| |done].
  intros [] s' [_ [Hs' _]]. rewrite <- insert_delete_eq. by apply env_typed_insert.
Qed.

Section node.
Context (Γ : gmap Z SType) (E0 : Env).

Lemma child e t : wt_ctx Γ e = true -> tpe e = t -> sound Γ E0 (ev e) (fun v => vt v t).
Proof. intros He <-. by apply Hev. Qed.

Lemma child_bind {A} e t (f : Value -> evalM A) Q :
  wt_ctx Γ e = true -> tpe e = t -> (forall v, vt v t -> sound Γ E0 (f v) Q) -> sound Γ E0 (ev e ≫= f) Q.
Proof. intros He Ht Hf. eapply triple_bind; [by apply (child e t)|done]. Qed.

Lemma checked_child e t : wt_ctx Γ e = true -> tpe e = t -> sound Γ E0 (checked_value e (ev e)) (fun v => vt v t).
Proof.
  intros He <-. eapply child_bind; [done..|]. intros v Hv. eapply sound_check; [done|]. by apply triple_ret.
Qed.

Lemma checked_child_bind {A} e t (f : Value -> evalM A) Q :
  wt_ctx Γ e = true -> tpe e = t -> (forall v, vt v t -> sound Γ E0 (f v) Q) ->
  sound Γ E0 (checked_value e (ev e) ≫= f) Q.
Proof. intros He Ht Hf. eapply triple_bind; [by apply (checked_child e t)|done]. Qed.

Lemma children items t :
  (forall i, i ∈ items -> wt_ctx Γ i = true /\ tpe i = t) ->
  sound Γ E0 (mapM_st ev items) (fun vs => Forall (fun v => vt v t) vs /\ length vs = length items).
Proof. intros Hi. apply triple_mapM_st. intros i [? ?]%Hi. by apply child. Qed.

Lemma checked_children items t :
  (forall i, i ∈ items -> wt_ctx Γ i = true /\ tpe i = t) ->
  sound Γ E0 (mapM_st (fun i => checked_value i (ev i)) items)
    (fun vs => Forall (fun v => vt v t) vs /\ length vs = length items).
Proof. intros Hi. apply triple_mapM_st. intros i [? ?]%Hi. by apply checked_child. Qed.

(** A call has the result's type and leaves an environment for the next one. *)
Lemma invoke_typed l v t r :
  callable l t r -> vt v t ->
  sound Γ E0 (invoke ctx ev l.1.1 l.1.2 l.2 [v]) (fun p => vt p.1 r /\ callable (l.1, p.2) t r).
Proof.
  destruct l as [[args body] e]. intros (arg & Γl & Hargs & Ht & Hr & Hwt & He) Hv s [Hs HE]. cbn in *. subst args t r.
  apply wp_in_env, wp_bind. eapply wp_mono; [by apply (bind_arg_typed arg v Γl)| |done]. intros [] s1 Hs1.
  eapply wp_bind, wp_mono; [apply (Hev _ ∅ body Hwt); by split; [|left]| |done]. intros w s2 [Hw [Hs2 _]].
  rewrite (vtype_check ctx _ _ Hw). repeat split; [done| |done|done]. exists arg, Γl. repeat split; [done|].
  eapply env_typed_mono; [|exact Hs2]. cbn. rewrite <- insert_delete_eq. apply insert_subseteq, lookup_delete_eq.
Qed.

Section loops.
Context (l : list FuncArg * Expr * Env) (t r : SType).

Lemma map_typed items e :
  callable (l.1, e) t r -> Forall (fun v => vt v t) items ->
  sound Γ E0 (invoke_map ctx ev l.1.1 l.1.2 e items) (Forall (fun v => vt v r)).
Proof.
  intros Hl Hi. revert e Hl. induction Hi as [|v items Hv Hi IH]; intros e Hl; [by apply triple_ret|].
  eapply triple_bind; [by apply (invoke_typed (l.1, e) v t r)|]. intros p [Hp Hc].
  eapply triple_bind; [by apply IH|]. intros vs Hvs. apply triple_ret. by constructor.
Qed.

Lemma conditions_typed items e :
  callable (l.1, e) t SBoolean -> Forall (fun v => vt v t) items ->
  sound Γ E0 (invoke_conditions ctx ev l.1.1 l.1.2 e items) (fun _ => True).
Proof.
  intros Hl Hi. revert e Hl. induction Hi as [|v items Hv Hi IH]; intros e Hl; [by apply triple_ret|].
  eapply triple_bind; [by apply (invoke_typed (l.1, e) v t SBoolean)|]. intros p [Hp Hc]. inversion Hp.
  apply sound_lift_bind. cbn. eapply triple_bind; [by apply IH|]. intros bs _. by apply triple_ret.
Qed.

Lemma until_typed stop items e :
  callable (l.1, e) t SBoolean -> Forall (fun v => vt v t) items ->
  sound Γ E0 (invoke_until ctx ev stop l.1.1 l.1.2 e items) (fun _ => True).
Proof.
  intros Hl Hi. revert e Hl. induction Hi as [|v items Hv Hi IH]; intros e Hl; [by apply triple_ret|].
  eapply triple_bind; [by apply (invoke_typed (l.1, e) v t SBoolean)|]. intros p [Hp Hc]. inversion Hp.
  apply sound_lift_bind. cbn. case_match; [by apply triple_ret|by apply IH].
Qed.

Lemma fold_typed acc items e :
  callable (l.1, e) (STuple [r; t]) r -> vt acc r -> Forall (fun v => vt v t) items ->
  sound Γ E0 (invoke_fold ctx ev l.1.1 l.1.2 e acc items) (fun v => vt v r).
Proof.
  intros Hl Ha Hi. revert acc e Ha Hl. induction Hi as [|v items Hv Hi IH]; intros acc e Ha Hl; [by apply triple_ret|].
  eapply triple_bind; [apply (invoke_typed (l.1, e) (VTup [acc; v]) _ r Hl); by constructor|]. intros p [Hp Hc]. by apply IH.
Qed.
End loops.
End node.

(** ** Blocks *)

(** What a nested block remembers of the environment [E0] it started in, once it defined the variables [done]. *)
Record remembers (E0 : Env) (defined : list Z) (existing : Env) (new_variables : list Z) (e : Env) : Prop := {
  rem_other i : i ∉ defined -> e !! i = E0 !! i;
  rem_existing i : existing !! i = if decide (i ∈ defined) then E0 !! i else None;
  rem_new i : i ∈ new_variables <-> i ∈ defined /\ E0 !! i = None
}.

Lemma foldl_delete (vars : list Z) (e : Env) i :
  foldl (fun e idx => delete idx e) e vars !! i = if decide (i ∈ vars) then None else e !! i.
Proof.
  revert e. induction vars as [|j vars IH]; intros e; cbn; [by rewrite decide_False by set_solver|].
  rewrite IH. destruct (decide (i = j)) as [->|Hij].
  - rewrite lookup_delete_eq. rewrite (decide_True (P := j ∈ j :: vars)) by set_solver. by case_decide.
  - rewrite lookup_delete_ne by done. destruct (decide (i ∈ vars)).
    + by rewrite decide_True by set_solver.
    + by rewrite decide_False by set_solver.
Qed.

Lemma remembers_restore E0 defined existing new_variables e :
  remembers E0 defined existing new_variables e -> restore_env existing new_variables e = E0.
Proof.
  intros [Ho He Hn]. apply map_eq. intros i. unfold restore_env.
  rewrite lookup_union, He, foldl_delete. destruct (decide (i ∈ defined)) as [Hd|Hd].
  - destruct (E0 !! i) as [v|] eqn:Hi.
    + rewrite decide_False by naive_solver. by destruct (e !! i).
    + rewrite decide_True by naive_solver. done.
  - rewrite decide_False by naive_solver. rewrite Ho by done. by destruct (E0 !! i).
Qed.

Lemma remembers_step E0 defined existing new_variables e i v :
  i ∉ defined -> remembers E0 defined existing new_variables e ->
  remembers E0 (i :: defined)
    (match e !! i with Some old => <[i := old]> existing | None => existing end)
    (match e !! i with Some _ => new_variables | None => new_variables ++ [i] end) (<[i := v]> e).
Proof.
  intros Hi [Ho He Hn]. rewrite (Ho i Hi). split; intros j.
  - intros Hj. rewrite lookup_insert_ne by set_solver. apply Ho. set_solver.
  - destruct (decide (i = j)) as [->|Hij].
    + rewrite decide_True by set_solver. destruct (E0 !! j) eqn:Hj; [by rewrite lookup_insert_eq|].
      rewrite He, decide_False; done.
    + assert (match E0 !! i with Some old => <[i:=old]> existing | None => existing end !! j = existing !! j) as ->.
      { destruct (E0 !! i); [by rewrite lookup_insert_ne|done]. }
      rewrite He. destruct (decide (j ∈ defined)).
      * by rewrite decide_True by set_solver.
      * by rewrite decide_False by set_solver.
  - rewrite elem_of_cons. destruct (E0 !! i) eqn:Hj; [naive_solver|].
    rewrite elem_of_app, list_elem_of_singleton. naive_solver.
Qed.

Lemma val_def_typed Γ E0 rhs :
  wt_ctx Γ rhs = true -> sound Γ E0 (eval_val_def ctx ev rhs) (fun v => vt v (tpe rhs)).
Proof.
  intros Hr. eapply checked_child_bind; [done..|]. intros v Hv. apply sound_cost_bind. by apply triple_ret.
Qed.

Lemma wt_block_cons Γ Γ' i items :
  wt_block wt_ctx Γ (i :: items) = Some Γ' ->
  exists id tvs rhs, i = ValDef id tvs rhs /\ wt_ctx Γ rhs = true /\
    wt_block wt_ctx (<[id := tpe rhs]> Γ) items = Some Γ'.
Proof. cbn. intros H. destruct i; try done. case_match; [|done]. naive_solver. Qed.

Lemma top_level_typed items Γ Γ' s :
  wt_block wt_ctx Γ items = Some Γ' -> env_typed_ctx Γ (env s) ->
  wp (top_level_items ctx ev items) (fun _ s' => env_typed_ctx Γ' (env s')) runtime_error s.
Proof.
  revert Γ s. induction items as [|i items IH]; intros Γ s Hb Hs; [cbn in Hb; by simplify_eq|].
  apply wt_block_cons in Hb as (id & tvs & rhs & -> & Hr & Hb). cbn [top_level_items as_val_def].
  apply (wp_bind (eval_val_def ctx ev rhs)).
  eapply wp_mono; [apply (val_def_typed Γ ∅ rhs Hr); by split; [|left]| |done]. intros v s1 [Hv [Hs1 _]].
  apply (wp_bind (put_env (<[id := v]> (env s1)))). unfold wp at 1, put_env.
  apply (IH _ (mkEvalState (<[id := v]> (env s1)) (jit_cost s1)) Hb). by apply env_typed_insert.
Qed.

Lemma nested_typed E0 items Γ Γ' defined existing new_variables s :
  wt_block wt_ctx Γ items = Some Γ' -> NoDup (block_ids items) -> (forall i, i ∈ defined -> i ∉ block_ids items) ->
  env_typed_ctx Γ (env s) -> env s <> ∅ -> remembers E0 defined existing new_variables (env s) ->
  wp (nested_items ctx ev existing new_variables items)
     (fun p s' => env_typed_ctx Γ' (env s') /\ env s' <> ∅ /\ exists defined', remembers E0 defined' p.1 p.2 (env s'))
     runtime_error s.
Proof.
  revert Γ defined existing new_variables s.
  induction items as [|i items IH]; intros Γ defined existing new_variables s Hb Hn Hd Hs Hne Hrem.
  { cbn in Hb. simplify_eq. repeat split; [done..|]. by exists defined. }
  apply wt_block_cons in Hb as (id & tvs & rhs & -> & Hr & Hb). cbn [nested_items as_val_def].
  change (block_ids (ValDef id tvs rhs :: items)) with (id :: block_ids items) in *. apply NoDup_cons in Hn as [Hid Hn].
  apply (wp_bind (eval_val_def ctx ev rhs)).
  eapply wp_mono; [apply (val_def_typed Γ (env s) rhs Hr); by split; [|right]| |done].
  intros v s1 [Hv [Hs1 [Heq|Heq]]]; [done|]. rewrite <- Heq in Hrem, Hne.
  apply (wp_bind (put_env (<[id := v]> (env s1)))). unfold wp at 1, put_env.
  pose proof (remembers_step E0 defined existing new_variables (env s1) id v ltac:(set_solver) Hrem) as Hrem'.
  cbn [snd fst]. destruct (env s1 !! id) as [old|];
    (eapply IH; [exact Hb|exact Hn| |by apply env_typed_insert|apply insert_non_empty|exact Hrem']; set_solver).
Qed.

Lemma block_typed Γ E0 items res :
  wt_ctx Γ (BlockValue items res) = true ->
  sound Γ E0 (eval_block_value ctx ev items res) (fun v => vt v (tpe res)).
Proof.
  cbn [wt]. rewrite andb_true_iff, bool_decide_eq_true. intros [Hn Hwt].
  destruct (wt_block wt_ctx Γ items) as [Γ'|] eqn:Hb; [|done].
  apply sound_per_item_bind. intros s [Hs HE]. unfold eval_block_value.
  apply (wp_bind get_env). unfold wp at 1, get_env. cbn [fst snd]. unfold env_is_empty. case_bool_decide as He.
  - apply wp_bind. eapply wp_mono; [by apply (top_level_typed items Γ Γ')| |done]. intros [] s1 Hs1.
    eapply wp_mono; [apply (checked_child Γ' ∅ res (tpe res)); [done..|]; by split; [|left]| |done].
    intros v s2 [Hv [Hs2 _]]. split; [done|]. split; [|left; by destruct HE as [->|<-]].
    intros i t Hi. destruct (Hs i t Hi) as (w & Hw & _). by rewrite He, lookup_empty in Hw.
  - apply wp_bind. eapply wp_mono; [apply (nested_typed (env s) items Γ Γ' [] ∅ [] s); try done| |done].
    { set_solver. }
    { split; intros j; [done|by rewrite lookup_empty, decide_False by set_solver|set_solver]. }
    intros p s1 (Hs1 & Hne & defined & Hrem). apply wp_bind.
    eapply wp_mono; [apply (checked_child Γ' (env s1) res (tpe res)); [done..|]; by split; [|right]| |done].
    intros v s2 [Hv [Hs2 [Heq|Heq]]]; [done|]. apply (wp_bind get_env). unfold wp at 1, get_env. cbn [fst snd].
    rewrite Heq. apply (wp_bind (put_env _)). unfold wp at 1, put_env.
    rewrite (remembers_restore _ _ _ _ _ Hrem). split; [done|]. by split.
Qed.

(** ** The other nodes *)

Lemma elem_coll t : is_Some (coll_elem t) -> exists u, t = SColl u.
Proof. destruct t; cbn; intros [? ?]; naive_solver. Qed.
Lemma elem_option t : is_Some (option_elem t) -> exists u, t = SOption u.
Proof. destruct t; cbn; intros [? ?]; naive_solver. Qed.

(** Splits a typing test into what it requires. *)
Ltac wt_inv H :=
  cbn [wt] in H; repeat setoid_rewrite andb_true_iff in H; repeat setoid_rewrite bool_decide_eq_true in H; destruct_and? H.

(** One step of a computation: a charge, a typed child, or a lifted result that evaluates. *)
Ltac step :=
  first
    [ apply sound_cost_bind | apply sound_per_item_bind
    | eapply child_bind; [eassumption|eassumption || reflexivity|intros ? ?]
    | eapply checked_child_bind; [eassumption|eassumption || reflexivity|intros ? ?]
    | apply sound_lift_bind; cbn ].
(** The form of a value of a base type. *)
Ltac canon :=
  match goal with
  | Hv : vtype _ _ ?v ?t |- _ =>
      is_var v;
      lazymatch t with
      | SBoolean => idtac | SInt => idtac | SLong => idtac | SGroupElement => idtac | SSigmaProp => idtac
      end;
      inversion Hv; subst; clear Hv
  | Hv : vtype _ _ ?v (SColl SByte) |- _ => is_var v; apply vt_bytes in Hv as (? & -> & ?)
  | Hv : vtype _ _ ?v (SColl _) |- _ => is_var v; apply vt_coll in Hv as (? & -> & ? & ?)
  | Hv : vtype _ _ ?v (SOption _) |- _ => is_var v; apply vt_option in Hv as (? & -> & ?)
  end.
Ltac ret := apply triple_ret; auto.

Lemma lift_gives Γ E0 r t : gives_ctx r t -> sound Γ E0 (liftE r) (fun v => vt v t).
Proof. intros Hr. apply triple_liftE. by destruct r. Qed.

Lemma func_value_typed Γ E0 args body t :
  wt_ctx Γ (FuncValue args body t) = true -> sound Γ E0 (eval_func_value ctx args body) (fun v => vt v t).
Proof.
  intros H. destruct args as [|arg [|? ?]]; [done| |done]. wt_inv H. subst t. step. step.
  apply sound_get_env_bind. intros e He. ret. apply (T_Lambda _ _ Γ); [done|by apply negb_true_iff|].
  rewrite env_from_bindings. exact He.
Qed.

Lemma apply_typed Γ E0 func args :
  wt_ctx Γ (Apply func args) = true -> sound Γ E0 (eval_apply ctx ev func args) (fun v => vt v (tpe (Apply func args))).
Proof.
  intros H. destruct args as [|a [|? ?]]; [done| |done]. cbn [wt tpe] in H |- *.
  apply andb_prop in H as [H Ht]. destruct (tpe func) as [| | | | | | | | | | | | | | | | |[|t [|? ?]] r [|? ?]| | | | | |] eqn:Hf;
    try done. wt_inv H. apply bool_decide_eq_true in Ht. step. step.
  destruct (lambda_typed _ _ _ H) as (arg & body & captured & -> & Hvar & Hc).
  eapply triple_bind; [apply (children Γ E0 [a] t); intros ? ->%list_elem_of_singleton; done|].
  intros vs [Hvs Hl]. destruct vs as [|w [|? ?]]; try done. rewrite Forall_singleton in Hvs.
  apply sound_lift_bind. cbn. rewrite Hvar. cbn.
  eapply triple_bind; [by apply (invoke_typed Γ E0 _ w t r Hc)|]. intros p [Hp _]. ret.
Qed.

Lemma val_use_typed Γ E0 i t :
  wt_ctx Γ (ValUse i t) = true -> sound Γ E0 (eval_val_use ctx i t) (fun v => vt v t).
Proof.
  intros H. wt_inv H. step. apply sound_get_env_bind. intros e He. destruct (He i t H) as (v & Hv & Ht).
  apply sound_lift_bind. rewrite Hv. cbn. eapply sound_check; [done|]. ret.
Qed.

Lemma if_typed Γ E0 c a b :
  wt_ctx Γ (If c a b) = true -> sound Γ E0 (eval_if ctx ev c a b) (fun v => vt v (tpe a)).
Proof.
  intros H. wt_inv H. step. step. canon. step. case_match; by apply checked_child.
Qed.

Lemma placeholder_typed Γ E0 id t :
  wt_ctx Γ (ConstPlaceholder id t) = true -> sound Γ E0 (eval_const_placeholder ctx id) (fun v => vt v t).
Proof.
  cbn. intros H. step. apply sound_lift_bind. destruct (constants ctx ≫= _) as [c|]; [|done].
  apply andb_prop in H as [<-%bool_decide_eq_true Hv%(literal_typed ctx)]. apply sound_lift_bind.
  pose proof (vtype_check ctx _ _ Hv) as Hc. unfold check_value_of_type in Hc.
  destruct (check_value_type (const_tpe c)) as [[]|]; [|done]. ret.
Qed.

Lemma bytes_value_typed l : vt (value_of_bytes l) (SColl SByte).
Proof. constructor. apply Forall_fmap, Forall_true. intros z. by apply wrap_s_range. Qed.

Lemma global_vars_typed Γ E0 v : sound Γ E0 (eval_global_vars ctx v) (fun w => vt w (tpe (EGlobalVars v))).
Proof.
  destruct v; step; ret; try apply bytes_value_typed; constructor; try done; try (by apply wrap_s_range);
    by apply Forall_fmap, Forall_true; constructor.
Qed.

(** *** Booleans and numbers *)

Lemma bools_typed Γ E0 base per_chunk chunk_size input :
  wt_ctx Γ input = true -> tpe input = SColl SBoolean ->
  sound Γ E0 (eval_bools ctx ev base per_chunk chunk_size input) (fun _ => True).
Proof.
  intros Hi Ht. step. inversion H as [| | | | | | | | | | | | |? items Hne Hitems| | | | | | | | |]; subst.
  destruct (mapM_typed try_bool (fun _ => True) SBoolean items) as (l & Hl & _ & _); [|done|].
  { inversion 1; by eexists. }
  apply sound_lift_bind. cbn. rewrite Hl. step. ret.
Qed.

Lemma to_bool_typed Γ E0 e :
  wt_ctx Γ e = true -> tpe e = SBoolean -> sound Γ E0 (eval_to_bool ev e) (fun _ => True).
Proof. intros He Ht. step. canon. by apply triple_liftE. Qed.

Lemma logical_typed Γ E0 op lv rhs :
  vt lv SBoolean -> wt_ctx Γ rhs = true -> tpe rhs = SBoolean ->
  sound Γ E0 (eval_logical ev op lv rhs) (fun v => vt v SBoolean).
Proof.
  intros Hl Hr Ht. inversion Hl; subst. step. destruct op; repeat case_match; try (by ret);
    (eapply triple_bind; [by apply to_bool_typed|]; intros r _; ret).
Qed.

Lemma equality_typed Γ E0 lhs rhs lv :
  vt lv (tpe lhs) -> wt_ctx Γ rhs = true -> sound Γ E0 (eval_equality ctx ev lhs rhs lv) (fun _ => True).
Proof. intros Hl Hr. eapply sound_check; [done|]. step. apply sound_eq. Qed.

(** Operands of one type are not cast. *)
Lemma coerce_same lv rv t :
  vt lv t -> vt rv t -> is_numeric t = true -> exists b, coerce_operands ctx lv rv = mret (lv, rv, b).
Proof. intros Hl Hr Ht. inversion Hl; subst; try done; inversion Hr; subst; by eexists. Qed.

Lemma num_typed lv t : vt lv t -> is_numeric t = true -> exists T z, num_of lv = Some (T, z) /\
  forall rv, vt rv t -> exists z', nt_try T rv = Ok z' /\ forall op, vt (nt_into T (nt_bit T op z z')) t.
Proof.
  intros Hl Ht. inversion Hl; subst; try done; eexists _, _; (split; [done|]); intros rv Hr; inversion Hr; subst;
    eexists; (split; [done|]); intros op; constructor; cbn; try (by apply std_bit_s);
    rewrite ?i256_bit_spec, ?u256_bit_spec by done; by first [apply std_bit_s | apply std_bit_u].
Qed.

Lemma bin_op_typed Γ E0 kind lhs rhs :
  wt_ctx Γ (BinOp kind lhs rhs) = true ->
  sound Γ E0 (eval_bin_op ctx ev kind lhs rhs) (fun v => vt v (tpe (BinOp kind lhs rhs))).
Proof.
  intros H. cbn [wt] in H. apply andb_prop in H as [[Hl Hr]%andb_prop H].
  apply andb_prop in H as [Ht%bool_decide_eq_true H]. symmetry in Ht. step. rename H0 into Hv.
  destruct kind as [op|op|op|op]; cbn [tpe].
  - eapply triple_bind; [by apply (triple_ret _ _ tt (fun _ => True))|]. intros _ _. step. rename H0 into Hw.
    destruct (coerce_same v v0 _ Hv Hw H) as [b ->]. step. by apply lift_gives, arith_typed.
  - assert (forall (f : bool -> bool), sound Γ E0 (b ← eval_equality ctx ev lhs rhs v; mret (VBoolean (f b)))
        (fun w => vt w SBoolean)) as Heq.
    { intros f. eapply triple_bind; [by apply equality_typed|]. intros b _. ret. }
    destruct op; (eapply triple_bind; [first [by apply (triple_ret _ _ tt (fun _ => True)) | apply sound_cost]|];
      intros _ _); first [apply (Heq id) | apply (Heq negb) | step; by eapply lift_gives, relation_typed].
  - apply bool_decide_eq_true in H. step. apply logical_typed; congruence.
  - step. destruct (num_typed _ _ Hv H) as (T & z & -> & HT). step. destruct (HT _ H0) as (z' & Hz & Hb).
    apply sound_lift_bind. rewrite Hz. ret.
Qed.

Lemma lxor_bytes l k : Forall (in_s 8) l -> Forall (in_s 8) k -> Forall (in_s 8) (zip_with Z.lxor l k).
Proof.
  intros Hl. revert k. induction Hl as [|a l Ha Hl IH]; intros k [|b k' Hb Hk]; cbn; constructor; [|by apply IH].
  by apply (std_bit_s 8 BitXor).
Qed.

Lemma xor_typed Γ E0 lhs rhs :
  wt_ctx Γ (Xor lhs rhs) = true -> sound Γ E0 (eval_xor ctx ev lhs rhs) (fun v => vt v (SColl SByte)).
Proof.
  intros H. wt_inv H. step. canon. step. canon. step. ret. constructor. unfold helper_xor.
  by apply lxor_bytes.
Qed.

(** *** Options and tuples *)

Lemma try_opt_typed v t : vt v (SOption t) -> exists o, try_opt v = Ok o /\ forall w, o = Some w -> vt w t.
Proof. intros (o & -> & Ho)%vt_option. by exists o. Qed.

Lemma or_default_typed Γ E0 o (m : evalM Value) t :
  (forall w, o = Some w -> vt w t) -> sound Γ E0 m (fun v => vt v t) ->
  sound Γ E0 (or_default ctx o m) (fun v => vt v t).
Proof.
  intros Ho Hm. unfold or_default. case_match.
  - destruct o; [by ret|done].
  - eapply triple_bind; [exact Hm|]. intros d Hd. ret. destruct o; cbn; auto.
Qed.

Lemma option_get_typed Γ E0 input t :
  wt_ctx Γ input = true -> tpe input = SOption t -> sound Γ E0 (eval_option_get ctx ev input) (fun v => vt v t).
Proof. intros Hi Ht. step. step. canon. step. apply triple_liftE. destruct x; cbn; auto. Qed.

Lemma option_is_defined_typed Γ E0 input t :
  wt_ctx Γ input = true -> tpe input = SOption t ->
  sound Γ E0 (eval_option_is_defined ctx ev input) (fun v => vt v SBoolean).
Proof. intros Hi Ht. step. step. canon. step. ret. Qed.

Lemma option_get_or_else_typed Γ E0 input dflt t :
  wt_ctx Γ input = true -> wt_ctx Γ dflt = true -> tpe input = SOption t -> tpe dflt = t ->
  sound Γ E0 (eval_option_get_or_else ctx ev input dflt) (fun v => vt v t).
Proof. intros Hi Hd Ht Hu. step. step. canon. step. apply or_default_typed; [done|]. by apply child. Qed.

Lemma tuple_typed Γ E0 items :
  wt_ctx Γ (Tuple items) = true -> sound Γ E0 (eval_tuple ctx ev items) (fun v => vt v (STuple (map tpe items))).
Proof.
  intros H. destruct items as [|a [|b [|? ?]]]; try done. wt_inv H. step. cbn [mapM_st].
  assert (forall e, wt_ctx Γ e = true -> sound Γ E0 (checked_value e (ev e)) (fun v => vt v (tpe e))) as Hc.
  { intros e He. by apply checked_child. }
  eapply triple_bind; [|intros vs Hvs; apply triple_ret; exact Hvs].
  eapply triple_bind; [by apply Hc|]. intros v Hv. eapply triple_bind; [|intros vs Hvs; apply triple_ret; exact Hvs].
  eapply triple_bind; [by apply Hc|]. intros w Hw. eapply triple_bind; [by apply (triple_ret _ _ [] (fun l => l = []))|].
  intros vs ->. ret. by constructor.
Qed.

Lemma select_field_typed Γ E0 input i ta tb t :
  wt_ctx Γ input = true -> tpe input = STuple [ta; tb] -> [ta; tb] !! Z.to_nat (i - 1) = Some t ->
  sound Γ E0 (eval_select_field ctx ev input i) (fun v => vt v t).
Proof.
  intros Hi Ht Hf. step. step. inversion H; subst. apply triple_liftE.
  destruct (Z.to_nat (i - 1)) as [|[|n]]; cbn in *; by simplify_eq.
Qed.

(** *** Collections *)

Lemma coll_result Γ E0 items t :
  Forall (fun v => vt v t) items ->
  sound Γ E0 (res ← liftE (from_collection t items); mret (VColl res)) (fun v => vt v (SColl t)).
Proof. intros Hi. destruct (from_collection_typed ctx t items Hi) as (c & Hc & Hv). step. rewrite Hc. by ret. Qed.

Lemma exprs_typed Γ E0 t items :
  wt_ctx Γ (Exprs t items) = true -> sound Γ E0 (eval_exprs ctx ev t items) (fun v => vt v (SColl t)).
Proof.
  intros H. cbn in H. step. eapply triple_bind; [apply (checked_children Γ E0 items t)|].
  - intros i Hi. rewrite forallb_forall in H. apply list_elem_of_In, H in Hi. wt_inv Hi. done.
  - intros vs [Hvs _]. by apply coll_result.
Qed.

Lemma bool_constants_typed Γ E0 bools : sound Γ E0 (eval_bool_constants ctx bools) (fun v => vt v (SColl SBoolean)).
Proof. step. step. ret. constructor; [done|]. apply Forall_fmap, Forall_true. by constructor. Qed.

Lemma size_of_typed Γ E0 input t :
  wt_ctx Γ input = true -> tpe input = SColl t -> sound Γ E0 (eval_size_of ctx ev input) (fun v => vt v SInt).
Proof. intros Hi Ht. step. step. apply vt_coll in H as (c & -> & _). step. ret. constructor. by apply wrap_s_range. Qed.

Lemma get_val_typed c i t w : Forall (fun v => vt v t) (as_vec c) -> get_val c i = Some w -> vt w t.
Proof. intros Hc. unfold get_val. case_match; [|done]. intros Hw. exact (Forall_lookup_1 _ _ _ _ Hc Hw). Qed.

Lemma by_index_typed Γ E0 input index dflt t :
  wt_ctx Γ input = true -> wt_ctx Γ index = true -> tpe input = SColl t -> tpe index = SInt ->
  match dflt with Some d => wt_ctx Γ d = true /\ tpe d = t | None => True end ->
  sound Γ E0 (eval_by_index ctx ev input index dflt) (fun v => vt v t).
Proof.
  intros Hi Hx Ht Hu Hd. step. step. step. apply vt_coll in H as (c & -> & _ & Hc). step. canon. step.
  destruct dflt as [d|].
  - destruct Hd as [Hd Hdt]. apply or_default_typed; [by intros w; apply get_val_typed|by apply checked_child].
  - apply triple_liftE. destruct (get_val c _) as [w|] eqn:Hw; cbn; [by eapply get_val_typed|auto].
Qed.

Lemma slice_typed Γ E0 input from until t :
  wt_ctx Γ input = true -> wt_ctx Γ from = true -> wt_ctx Γ until = true ->
  tpe input = SColl t -> tpe from = SInt -> tpe until = SInt ->
  sound Γ E0 (eval_slice ctx ev input from until) (fun v => vt v (SColl t)).
Proof.
  intros Hi Hf Hu Ht Hft Hut. step. step. step. apply vt_coll in H as (c & -> & <- & Hc). canon. canon. step. step. step.
  step. destruct (fits_s _ _); cbn; [|auto]. step. apply coll_result. unfold slice_range.
  case_match; [by apply Forall_drop, Forall_take|constructor].
Qed.

Lemma append_typed Γ E0 a b t :
  wt_ctx Γ a = true -> wt_ctx Γ b = true -> tpe a = SColl t -> tpe b = SColl t ->
  sound Γ E0 (eval_append ctx ev a b) (fun v => vt v (SColl t)).
Proof.
  intros Ha Hb Ht Hu. step. step. apply vt_coll in H as (c & -> & Hc & Hcs). apply vt_coll in H0 as (d & -> & Hd & Hds).
  step. step. step. rewrite bool_decide_true by congruence. step. rewrite Hc. apply coll_result. by apply Forall_app.
Qed.

Lemma items_typed Γ E0 v t {A} (f : list Value -> evalM A) Q :
  vt v (SColl t) -> (forall items, Forall (fun v => vt v t) items -> sound Γ E0 (f items) Q) ->
  sound Γ E0 (liftE (items_of t v) ≫= f) Q.
Proof.
  intros (c & -> & Hc & Hcs)%vt_coll Hf. apply sound_lift_bind. unfold items_of. cbn.
  rewrite bool_decide_true by done. by apply Hf.
Qed.

Lemma lambda_bind Γ E0 v t r {A} (f : _ -> evalM A) Q :
  vt v (SFunc [t] r []) -> (forall l, callable l t r -> sound Γ E0 (f l) Q) -> sound Γ E0 (liftE (lambda_of v) ≫= f) Q.
Proof. intros (l & Hl & Hc)%lambda_of_typed Hf. apply sound_lift_bind. rewrite Hl. by apply Hf. Qed.

Lemma eval_map_typed Γ E0 input mapper f t :
  wt_ctx Γ input = true -> wt_ctx Γ mapper = true -> tpe input = SColl t -> t_dom f = [t] ->
  tpe mapper = SFunc [t] (t_range f) [] ->
  sound Γ E0 (eval_map ctx ev input mapper f) (fun v => vt v (SColl (t_range f))).
Proof.
  intros Hi Hm Ht Hd Hf. step. step. eapply lambda_bind; [eassumption|]. intros l Hl. step. rewrite Hd. cbn.
  eapply items_typed; [eassumption|]. intros items Hitems. step. destruct l as [l e].
  eapply triple_bind; [by apply (map_typed Γ E0 (l, e) t (t_range f))|]. intros vs Hvs. by apply coll_result.
Qed.

Lemma filter_items_typed items conds t :
  Forall (fun v => vt v t) items -> Forall (fun v => vt v t) (fst <$> List.filter snd (zip items conds)).
Proof.
  intros Hi. revert conds. induction Hi as [|v items Hv Hi IH]; intros [|c conds]; cbn; try constructor.
  destruct c; cbn; [by constructor|apply IH].
Qed.

Lemma filter_typed Γ E0 input cond t :
  wt_ctx Γ input = true -> wt_ctx Γ cond = true -> tpe input = SColl t -> tpe cond = SFunc [t] SBoolean [] ->
  sound Γ E0 (eval_filter ctx ev input cond t) (fun v => vt v (SColl t)).
Proof.
  intros Hi Hm Ht Hf. step. step. eapply lambda_bind; [eassumption|]. intros l Hl.
  eapply items_typed; [eassumption|]. intros items Hitems. step. destruct l as [l e].
  eapply triple_bind; [by apply (conditions_typed Γ E0 (l, e) t)|]. intros bs _.
  by apply coll_result, filter_items_typed.
Qed.

Lemma quantifier_typed Γ E0 stop input cond t :
  wt_ctx Γ input = true -> wt_ctx Γ cond = true -> tpe input = SColl t -> tpe cond = SFunc [t] SBoolean [] ->
  sound Γ E0 (eval_quantifier ctx ev stop input cond t) (fun v => vt v SBoolean).
Proof.
  intros Hi Hm Ht Hf. step. step. eapply lambda_bind; [eassumption|]. intros l Hl.
  eapply items_typed; [eassumption|]. intros items Hitems. step. destruct l as [l e].
  eapply triple_bind; [by apply (until_typed Γ E0 (l, e) t)|]. intros b _. ret.
Qed.

Lemma eval_fold_typed Γ E0 input zero op t r :
  wt_ctx Γ input = true -> wt_ctx Γ zero = true -> wt_ctx Γ op = true -> tpe input = SColl t -> tpe zero = r ->
  tpe op = SFunc [STuple [r; t]] r [] -> sound Γ E0 (eval_fold ctx ev input zero op) (fun v => vt v r).
Proof.
  intros Hi Hz Hm Ht Hr Hf. step. step. step. eapply lambda_bind; [eassumption|]. intros l Hl. step.
  apply vt_coll in H as (c & -> & _ & Hcs). step. destruct l as [l e].
  by apply (fold_typed Γ E0 (l, e) t r).
Qed.

(** *** Bytes *)

Lemma lor_s w a b : 0 < w -> in_s w a -> in_s w b -> in_s w (Z.lor a b).
Proof. apply (std_bit_s w BitOr). Qed.

Lemma long_of_bytes_range l z : Forall (in_u 8) l -> long_of_bytes l = Ok z -> in_s 64 z.
Proof.
  intros Hl. do 8 (destruct l as [|? l]; [done|]). cbn [long_of_bytes]. intros [= <-].
  repeat (apply lor_s; [done| |]); try (by apply wrap_s_range).
  rewrite !Forall_cons in Hl. destruct_and! Hl. unfold in_u, in_s in *. cbn in *. lia.
Qed.

Lemma as_vec_u8_range l : Forall (in_u 8) (as_vec_u8 l).
Proof. apply Forall_fmap, Forall_true. intros z. by apply (wrap_u_range 8). Qed.

Lemma byte_array_to_long_typed Γ E0 input :
  wt_ctx Γ input = true -> tpe input = SColl SByte ->
  sound Γ E0 (eval_byte_array_to_long ctx ev input) (fun v => vt v SLong).
Proof.
  intros Hi Ht. step. step. canon. step. apply sound_lift_bind. destruct (long_of_bytes _) as [z|err] eqn:Hz.
  - ret. constructor. eapply long_of_bytes_range; [|exact Hz]. apply as_vec_u8_range.
  - unfold long_of_bytes in Hz. by repeat case_match; simplify_eq; auto.
Qed.

Lemma byte_array_to_bigint_typed Γ E0 input :
  wt_ctx Γ input = true -> tpe input = SColl SByte ->
  sound Γ E0 (eval_byte_array_to_bigint ctx ev input) (fun v => vt v SBigInt).
Proof.
  intros Hi Ht. step. step. canon. step. apply sound_lift_bind. unfold bigint_of_bytes.
  destruct (as_vec_u8 x) as [|b l]; cbn; [auto|].
  destruct (i256_from_be_slice (b :: l)) as [z|] eqn:Hz; cbn; [|auto].
  ret. constructor. by eapply i256_from_be_slice_range.
Qed.

Lemma fill_long_bytes_typed n z buf : Forall (in_s 8) buf -> Forall (in_s 8) (fill_long_bytes n z buf).
Proof. revert z buf. induction n; intros z buf Hb; cbn; [done|]. apply IHn. constructor; [by apply wrap_s_range|done]. Qed.

Lemma long_to_byte_array_typed Γ E0 input :
  wt_ctx Γ input = true -> tpe input = SLong ->
  sound Γ E0 (eval_long_to_byte_array ctx ev input) (fun v => vt v (SColl SByte)).
Proof. intros Hi Ht. step. step. canon. step. ret. constructor.
  exact (fill_long_bytes_typed 8 _ [] (Forall_nil_2 _)).
Qed.

Lemma hash_typed Γ E0 base per_chunk chunk_size h input :
  wt_ctx Γ input = true -> tpe input = SColl SByte ->
  sound Γ E0 (eval_hash ctx ev base per_chunk chunk_size h input) (fun v => vt v (SColl SByte)).
Proof. intros Hi Ht. step. canon. step. ret. apply bytes_value_typed. Qed.

(** *** Group elements and propositions *)

Lemma sigma_props_typed l :
  Forall (fun v => vt v SSigmaProp) l -> exists sbs, mapM_res try_sigma_prop l = Ok sbs /\ length sbs = length l.
Proof.
  intros Hl. destruct (mapM_typed try_sigma_prop (fun _ => True) SSigmaProp l) as (sbs & Hs & _ & Hn); [|done|by exists sbs].
  inversion 1; by eexists.
Qed.

Lemma multiply_group_typed Γ E0 a b :
  wt_ctx Γ a = true -> wt_ctx Γ b = true -> tpe a = SGroupElement -> tpe b = SGroupElement ->
  sound Γ E0 (eval_multiply_group ctx ev a b) (fun v => vt v SGroupElement).
Proof. intros Ha Hb Ht Hu. step. step. step. canon. canon. ret. Qed.

Lemma create_provedlog_typed Γ E0 input :
  wt_ctx Γ input = true -> tpe input = SGroupElement ->
  sound Γ E0 (eval_create_provedlog ctx ev input) (fun v => vt v SSigmaProp).
Proof. intros Ha Ht. step. step. canon. ret. Qed.

Lemma to_point_bind Γ E0 e (f : EcPoint -> evalM Value) Q :
  wt_ctx Γ e = true -> tpe e = SGroupElement -> (forall p, sound Γ E0 (f p) Q) ->
  sound Γ E0 (eval_to_point ev e ≫= f) Q.
Proof.
  intros He Ht Hf. apply (triple_bind _ _ _ _ (fun _ => True)); [|intros p _; apply Hf].
  step. canon. by apply triple_liftE.
Qed.

Lemma create_prove_dh_tuple_typed Γ E0 g h u v :
  wt_ctx Γ (CreateProveDhTuple g h u v) = true ->
  sound Γ E0 (eval_create_prove_dh_tuple ctx ev g h u v) (fun v => vt v SSigmaProp).
Proof. intros H. wt_inv H. step. do 4 (apply to_point_bind; [done..|]; intros ?). ret. Qed.

Lemma bool_to_sigma_prop_typed Γ E0 input :
  wt_ctx Γ (BoolToSigmaProp input) = true ->
  sound Γ E0 (eval_bool_to_sigma_prop ctx ev input) (fun v => vt v SSigmaProp).
Proof.
  intros H. cbn in H. rewrite !andb_true_iff, !orb_true_iff, !andb_true_iff, !bool_decide_eq_true in H.
  destruct H as [Hi [Ht|[Ht Hv]]]; step; step; canon.
  - step. ret.
  - rewrite Hv. ret.
Qed.

Lemma sigma_items_typed Γ E0 items :
  items <> [] -> forallb (fun i => wt_ctx Γ i && bool_decide (tpe i = SSigmaProp)) items = true ->
  sound Γ E0 (eval_sigma_items ctx ev items) (fun _ => True).
Proof.
  intros Hne H. step. eapply triple_bind; [apply (children Γ E0 items SSigmaProp)|].
  - intros i Hi. rewrite forallb_forall in H. apply list_elem_of_In, H in Hi. wt_inv Hi. done.
  - intros vs [Hvs Hn]. destruct (sigma_props_typed vs Hvs) as (sbs & Hs & _).
    apply sound_lift_bind. destruct vs as [|v vs]; [by destruct items|]. cbn [guard_or length Nat.ltb Nat.leb].
    by apply triple_liftE; rewrite Hs.
Qed.

Lemma atleast_typed Γ E0 bound input :
  wt_ctx Γ (Atleast bound input) = true -> sound Γ E0 (eval_atleast ctx ev bound input) (fun v => vt v SSigmaProp).
Proof.
  intros H. wt_inv H. step. step. canon. canon. step. step. step.
  destruct (sigma_props_typed (as_vec x)) as (sbs & Hs & _); [done|]. rewrite Hs.
  apply sound_lift_bind. destruct (_ <=? _)%nat; cbn; [ret|auto].
Qed.

(** *** [Expr::eval] *)

Ltac elem :=
  match goal with
  | He : is_Some (coll_elem _) |- _ => apply elem_coll in He as [t Ht]
  | He : is_Some (option_elem _) |- _ => apply elem_option in He as [t Ht]
  end.

Lemma eval_expr_typed Γ E0 e : wt_ctx Γ e = true -> sound Γ E0 (eval_expr ctx ev e) (fun v => vt v (tpe e)).
Proof.
  intros H. destruct e; cbn [eval_expr].
  - (* Append *) wt_inv H. elem. cbn [tpe]. rewrite Ht. apply append_typed; congruence.
  - (* Const *) step. ret. by apply literal_typed.
  - by apply placeholder_typed.
  - wt_inv H. by apply byte_array_to_long_typed.
  - wt_inv H. by apply byte_array_to_bigint_typed.
  - wt_inv H. by apply long_to_byte_array_typed.
  - apply bool_constants_typed.
  - by apply exprs_typed.
  - by apply tuple_typed.
  - wt_inv H. by apply hash_typed.
  - wt_inv H. by apply hash_typed.
  - step. ret.
  - step. ret.
  - apply global_vars_typed.
  - by apply func_value_typed.
  - by apply apply_typed.
  - by apply (block_typed Γ E0 items e).
  - done.
  - by apply val_use_typed.
  - exact (if_typed Γ E0 _ _ _ H).
  - by apply bin_op_typed.
  - (* And *) wt_inv H. eapply triple_bind; [by apply bools_typed|]. intros bs _. ret.
  - (* Or *) wt_inv H. eapply triple_bind; [by apply bools_typed|]. intros bs _. ret.
  - by apply xor_typed.
  - by apply atleast_typed.
  - (* LogicalNot *) wt_inv H. step. step. canon. step. ret.
  - (* Negation *) cbn [wt] in H. apply andb_prop in H as [H Hs]. step. step. by apply lift_gives, negate_typed.
  - (* BitInversion *) cbn [wt] in H. apply andb_prop in H as [H Hs]. step. step. by apply lift_gives, invert_typed.
  - (* OptionGet *) wt_inv H. elem. cbn [tpe]. rewrite Ht. by apply option_get_typed.
  - (* OptionIsDefined *) wt_inv H. elem. by eapply option_is_defined_typed.
  - (* OptionGetOrElse *) wt_inv H. destruct (tpe e1) eqn:Ht; try done. cbn [tpe]. rewrite Ht.
    apply option_get_or_else_typed; try done. by cbn in *; simplify_eq.
  - (* ByIndex *) cbn [wt] in H. apply andb_prop in H as [H Hd]. wt_inv H. elem. cbn [tpe].
    rewrite Ht in Hd |- *. apply by_index_typed; try done. destruct default as [d|]; [|done].
    apply andb_prop in Hd as [Hd Hdt%bool_decide_eq_true]. by cbn in Hdt; simplify_eq.
  - (* SizeOf *) wt_inv H. elem. by eapply size_of_typed.
  - (* Slice *) wt_inv H. elem. cbn [tpe]. rewrite Ht. by apply slice_typed.
  - (* Fold *) cbn [wt] in H. apply andb_prop in H as [H Hf]. wt_inv H. destruct (tpe e1) eqn:Ht; try done. cbn in Hf.
    apply bool_decide_eq_true in Hf. by eapply eval_fold_typed.
  - (* Map *) cbn [wt] in H. apply andb_prop in H as [H Hf]. wt_inv H. destruct (tpe e1) eqn:Ht; try done. cbn in Hf.
    apply bool_decide_eq_true in Hf as [? ?]. by eapply eval_map_typed.
  - (* Filter *) wt_inv H. by apply filter_typed.
  - (* Exists *) wt_inv H. by apply quantifier_typed.
  - (* ForAll *) wt_inv H. by apply quantifier_typed.
  - (* SelectField *) cbn [wt] in H. apply andb_prop in H as [H Hf]. destruct (tpe e) eqn:Ht; try done.
    destruct items as [|ta [|tb [|? ?]]]; try done. wt_inv H. apply bool_decide_eq_true in Hf. by eapply select_field_typed.
  - by apply bool_to_sigma_prop_typed.
  - (* Upcast *) cbn [wt] in H. apply andb_prop in H as [H Hs]. step. step. by eapply lift_gives, upcast_typed.
  - (* Downcast *) cbn [wt] in H. apply andb_prop in H as [H Hs]. step. step. by eapply lift_gives, downcast_typed.
  - wt_inv H. by apply create_provedlog_typed.
  - by apply create_prove_dh_tuple_typed.
  - (* SigmaAnd *) cbn [wt] in H. apply andb_prop in H as [Hne%bool_decide_eq_true H].
    eapply triple_bind; [by apply sigma_items_typed|]. intros sbs _. ret.
  - (* SigmaOr *) cbn [wt] in H. apply andb_prop in H as [Hne%bool_decide_eq_true H].
    eapply triple_bind; [by apply sigma_items_typed|]. intros sbs _. ret.
  - (* MultiplyGroup *) wt_inv H. cbn [tpe]. replace (tpe e1) with SGroupElement by done. by apply multiply_group_typed.
  - (* XorOf *) wt_inv H. eapply triple_bind; [by apply bools_typed|]. intros bs _. ret.
Qed.
End nodes.

Lemma eval_typed n Γ E0 e : wt_ctx Γ e = true -> sound Γ E0 (eval ctx n e) (fun v => vt v (tpe e)).
Proof.
  revert Γ E0 e. induction n as [|n IH]; intros Γ E0 e He; [by apply triple_fail|]. by apply eval_expr_typed.
Qed.
End sound.

(** * Theorems *)

Section theorems.
Context `{C : SigmaCrypto} {Bx : ErgoBoxData} {N : Bnum} {NL : BnumLaws N} {Sh : Sha256} {HI : HashIter}.

(** C4: Type soundness of the interpreter: in an environment that satisfies the typing context, a typed expression
    evaluates to a value of the type the expression reports, the environment satisfies the context again and is the
    old one unless that was empty, and the only failures are those of run-time values: exceeded cost, arithmetic
    exceptions, [None.get], an index out of bounds and the like. *)
Theorem eval_sound ctx n Γ e s :
  wt (tree_version ctx) (constants ctx) Γ e = true ->
  env_typed (tree_version ctx) (constants ctx) Γ (env s) ->
  match eval ctx n e s with
  | Ok (v, s') => vtype (tree_version ctx) (constants ctx) v (tpe e) /\
      env_typed (tree_version ctx) (constants ctx) Γ (env s') /\ (env s <> ∅ -> env s' = env s)
  | Err err => runtime_error err
  end.
Proof.
  intros He Hs. pose proof (eval_typed ctx n Γ (env s) e He s ltac:(by split; [|right])) as H. unfold wp in H.
  destruct (eval ctx n e s) as [[v s']|err]; [|done]. destruct H as [Hv [Hs' HE]]. naive_solver.
Qed.

Lemma charge_within ctx limit n c e :
  jit_cost_limit ctx = Some limit -> limit < 2 ^ 64 - 1 -> 0 <= n ->
  match add_jit_cost ctx n (mkEvalState e c) with
  | Ok (_, s) => c <= jit_cost s <= limit
  | Err err => runtime_error err /\ err <> EvalFuel
  end.
Proof.
  intros HL Hmax Hn. unfold add_jit_cost. rewrite HL. cbn [jit_cost env].
  destruct (limit <? _) eqn:Hlt; [by split; [constructor|]|]. rewrite Z.ltb_ge in Hlt. cbn [jit_cost]. lia.
Qed.

End theorems.
