(* ===== verification/EvalEquality.v ===== *)
(** Equality with its cost (data_value_comparer.rs) decides equality of typed values, whatever it charges and however
    early it stops. *)

From stdpp Require Import strings gmap.
From S2P Require Import Prelude SigmaBoolean Types Expr Value EvalOps StateLogic EvalTyping.
#[local] Open Scope Z_scope.

Section equality.
Context `{C : SigmaCrypto} {Bx : ErgoBoxData}.
Context (ctx : EvalContext) (E : Env).
#[local] Hint Constructors runtime_error : core.

Abbreviation vt := (vtype (tree_version ctx) (constants ctx)).

(** A computation that answers whether [P] holds and leaves the environment alone. *)
Definition decides (m : evalM bool) (P : Prop) `{Decision P} : Prop :=
  triple (fun s => env s = E) runtime_error m (fun b => b = bool_decide P).

Lemma decides_ext m P Q `{Decision P, Decision Q} : (P <-> Q) -> decides m P -> decides m Q.
Proof. intros HPQ Hm. eapply triple_mono; [exact Hm|]. intros b ->. by apply bool_decide_ext. Qed.

Lemma decides_ret b (P : Prop) `{Decision P} : (b = true <-> P) -> decides (mret b) P.
Proof. intros Hb. apply triple_ret. symmetry. destruct b; [apply bool_decide_eq_true_2|apply bool_decide_eq_false_2]; naive_solver. Qed.

Lemma charge n : triple (fun s => env s = E) runtime_error (add_jit_cost ctx n) (fun _ => True).
Proof. intros s Hs. unfold wp, add_jit_cost. by repeat case_match; simplify_eq; auto. Qed.

Lemma charge_items base per_chunk chunk_size n :
  triple (fun s => env s = E) runtime_error (add_per_item_jit_cost ctx base per_chunk chunk_size n) (fun _ => True).
Proof. unfold add_per_item_jit_cost. case_match; [apply charge|by apply triple_fail]. Qed.

Lemma decides_charge n (f : unit -> evalM bool) P `{Decision P} : decides (f tt) P -> decides (add_jit_cost ctx n ≫= f) P.
Proof. intros Hf. eapply triple_bind; [apply charge|]. by intros []. Qed.

Lemma decides_flat n P `{Decision P} : decides (_ ← add_jit_cost ctx n; mret (bool_decide P)) P.
Proof. apply decides_charge. by apply triple_ret. Qed.

Section lists.
Context {A} `{EqDecision A} (eq : A -> A -> evalM bool).
Implicit Types l r : list A.

Lemma decides_items l r : Forall2 (fun x y => decides (eq x y) (x = y)) l r -> decides (eq_items eq l r) (l = r).
Proof.
  induction 1 as [|x y l r Hxy Hlr IH]; [by apply decides_ret|].
  eapply triple_bind; [exact Hxy|]. intros b ->. destruct (bool_decide_reflect (x = y)) as [Heq|Heq].
  - eapply decides_ext; [|exact IH]. subst. naive_solver.
  - apply decides_ret. naive_solver.
Qed.

Lemma decides_counting (veq : Value -> Value -> evalM bool) k vl vr :
  Forall2 (fun x y => decides (veq x y) (x = y)) vl vr ->
  triple (fun s => env s = E) runtime_error (eq_counting veq k vl vr) (fun p => p.2 = bool_decide (vl = vr)).
Proof.
  intros H. revert k. induction H as [|x y l r Hxy Hlr IH]; intros k; [by apply triple_ret|].
  eapply triple_bind; [exact Hxy|]. intros b ->. destruct (bool_decide_reflect (x = y)) as [Heq|Heq].
  - eapply triple_mono; [apply IH|]. intros p ->. apply bool_decide_ext. subst. naive_solver.
  - apply triple_ret. symmetry. apply bool_decide_eq_false_2. naive_solver.
Qed.
End lists.

Lemma decides_point p q : decides (eq_point ctx p q) (p = q).
Proof. apply decides_flat. Qed.

Lemma Forall2_all {A} (R : A -> A -> Prop) l r :
  Forall (fun x => forall y, R x y) l -> length l = length r -> Forall2 R l r.
Proof. intros Hl. revert r. induction Hl; intros [|y r] Hn; try done; constructor; auto. Qed.

Lemma decides_same_length {A} `{EqDecision A} (m : evalM bool) (l r : list A) :
  (length l = length r -> decides m (l = r)) ->
  decides (if (length l =? length r)%nat then m else mret false) (l = r).
Proof.
  intros Hm. destruct (Nat.eqb_spec (length l) (length r)) as [Hn|Hn]; [by apply Hm|].
  apply decides_ret. split; [done|]. by intros ->.
Qed.

Lemma decides_sigma l r : decides (eq_sigma_bool_with_cost ctx l r) (l = r).
Proof.
  revert r. induction l as [b|t|c items IH] using SigmaBoolean_ind'; intros r; apply decides_charge.
  - destruct r; try (by apply decides_ret). apply triple_ret. apply bool_decide_ext. naive_solver.
  - destruct t as [g h u v|h], r as [b'|[g' h' u' v'|h']|c' items']; try (by apply decides_ret).
    + eapply (decides_ext _ ([g; h; u; v] = [g'; h'; u'; v'])); [naive_solver|].
      apply decides_items. repeat constructor; apply decides_point.
    + eapply (decides_ext _ (h = h')); [naive_solver|]. apply decides_point.
  - assert (forall items', decides (if (length items =? length items')%nat
        then eq_items (eq_sigma_bool_with_cost ctx) items items' else mret false) (items = items')) as Hitems.
    { intros items'. apply decides_same_length. intros Hn. apply decides_items. by apply Forall2_all. }
    destruct c as [| |k], r as [b'|t'|[| |k'] items']; try (by apply triple_fail).
    + eapply decides_ext; [|apply Hitems]. naive_solver.
    + eapply decides_ext; [|apply Hitems]. naive_solver.
    + destruct (Z.eqb_spec k k') as [->|Hk]; [|by apply decides_ret; naive_solver].
      eapply decides_ext; [|apply Hitems]. naive_solver.
Qed.

Lemma decides_eq lv rv t : vt lv t -> vt rv t -> decides (eq_with_cost ctx lv rv) (lv = rv).
Proof.
  revert rv t. induction lv as [lv Hlv|t' items IH|items IH|lv IH] using Value_ind'; intros rv t Hl Hr.
  - destruct Hl; try done; inversion Hr; subst; try done; try apply decides_flat.
    + apply decides_charge. eapply decides_ext; [|apply decides_sigma]. naive_solver.
    + apply decides_charge. cbn [coll_len]. destruct (Nat.eqb_spec (length bytes) (length bytes0)) as [Hn|Hn].
      * eapply triple_bind; [apply charge_items|]. intros _ _. by apply triple_ret.
      * apply decides_ret. split; [done|]. intros [= ->]. done.
    + apply decides_charge. by apply decides_ret.
    + apply decides_charge. by apply decides_ret.
  - inversion Hl; subst. inversion Hr; subst; try done. cbn [eq_with_cost].
    apply decides_charge. cbn [coll_len].
    eapply (decides_ext _ (items = items0)); [naive_solver|]. apply decides_same_length. intros Hn.
    destruct (coll_eq_cost _) as [[[base per_chunk] chunk_size]|].
    + eapply triple_bind; [apply charge_items|]. intros _ _. apply triple_ret. apply bool_decide_ext. naive_solver.
    + eapply triple_bind; [apply decides_counting|].
      * apply Forall2_same_length_lookup. split; [done|]. intros i x y Hx Hy.
        rewrite !Forall_lookup in *. cbn in Hy. eapply IH; eauto.
      * intros p Hp. eapply triple_bind; [apply charge_items|]. intros _ _. by apply triple_ret.
  - inversion Hl; subst. inversion Hr; subst. cbn [eq_with_cost]. apply decides_charge.
    rewrite Forall_cons, Forall_singleton in IH. destruct IH as [IHa IHb].
    eapply (decides_ext _ ([a; b] = [a0; b0])); [naive_solver|]. apply decides_items.
    repeat constructor; [by eapply IHa|by eapply IHb].
  - inversion Hl; subst. inversion Hr; subst; cbn [eq_with_cost]; apply decides_charge; [by apply decides_ret|].
    eapply decides_ext; [|by eapply IH]. naive_solver.
Qed.
End equality.

(** C7: Equality of two values of one type, which is compared piece by piece, charged piece by piece and cut off at the
    first difference, gives true exactly on equal values, and leaves the environment alone; it can fail only by its
    cost or on propositions of different kinds. *)
Theorem eq_with_cost_correct `{SigmaCrypto} {Bx : ErgoBoxData} ctx lv rv t s :
  vtype (tree_version ctx) (constants ctx) lv t -> vtype (tree_version ctx) (constants ctx) rv t ->
  match eq_with_cost ctx lv rv s with
  | Ok (b, s') => (b = true <-> lv = rv) /\ env s' = env s
  | Err err => runtime_error err
  end.
Proof.
  intros Hl Hr. pose proof (decides_eq ctx (env s) lv rv t Hl Hr s eq_refl) as H0. unfold wp in H0.
  destruct (eq_with_cost ctx lv rv s) as [[b s']|err]; [|done]. destruct H0 as [-> He].
  by rewrite bool_decide_eq_true.
Qed.
