(* ===== verification/Reduce.v ===== *)
(** Reduction of a tree to a proposition (reduce_to_crypto in src/ergotree-interpreter/src/eval.rs) with the second
    evaluation that follows a failed one, and the substitution of constants it works on (ergo_tree.rs, mir/expr.rs).
    The trees are those whose nodes Expr.v has, which are without deserialization; the context's extension is one whose
    values convert. *)

From stdpp Require Import strings gmap.
From S2P Require Import Prelude SigmaBoolean Types Expr Value EvalOps StateLogic Eval EvalTotal EvalTyping EvalTypedOps EvalSound.
#[local] Open Scope Z_scope.

(** * Trees *)

Section tree.
Context `{C : SigmaCrypto} {Bx : ErgoBoxData}.

(** [ParsedErgoTree]; of its header the version and the segregation flag. *)
Record ParsedErgoTree : Type := mkParsedErgoTree {
  header_version : Z;
  is_constant_segregation : bool;
  tree_constants : list Constant;
  tree_root : Expr
}.

Context (constants : list Constant).

(** What the substitution puts in the place of a placeholder. *)
Definition constant_for (id : Z) : result EvalError Expr :=
  match constants !! Z.to_nat id with
  | Some c => Ok (Const c)
  | None => Err (ConstantForPlaceholderNotFound id)
  end.

(** [Expr::substitute_constants], the children in the order of [children_mut]. *)
Fixpoint substitute_constants (e : Expr) : result EvalError Expr :=
  let sub := substitute_constants in
  let sub1 (f : Expr -> Expr) a := a ← sub a; Ok (f a) in
  let sub2 (f : Expr -> Expr -> Expr) a b := a ← sub a; b ← sub b; Ok (f a b) in
  let sub3 (f : Expr -> Expr -> Expr -> Expr) a b c := a ← sub a; b ← sub b; c ← sub c; Ok (f a b c) in
  match e with
  | ConstPlaceholder id _ => constant_for id
  | Const _ | BoolConstants _ | EContext | EGlobal | EGlobalVars _ | ValUse _ _ => Ok e
  | Append a b => sub2 Append a b
  | ByteArrayToLong a => sub1 ByteArrayToLong a
  | ByteArrayToBigInt a => sub1 ByteArrayToBigInt a
  | LongToByteArray a => sub1 LongToByteArray a
  | Exprs t items => items ← mapM_res sub items; Ok (Exprs t items)
  | Tuple items => items ← mapM_res sub items; Ok (Tuple items)
  | CalcBlake2b256 a => sub1 CalcBlake2b256 a
  | CalcSha256 a => sub1 CalcSha256 a
  | FuncValue args body t => sub1 (fun body => FuncValue args body t) body
  | Apply f args => f ← sub f; args ← mapM_res sub args; Ok (Apply f args)
  | BlockValue items res => items ← mapM_res sub items; res ← sub res; Ok (BlockValue items res)
  | ValDef id tvs rhs => sub1 (ValDef id tvs) rhs
  | If a b c => sub3 If a b c
  | BinOp kind a b => sub2 (BinOp kind) a b
  | And a => sub1 And a
  | Or a => sub1 Or a
  | Xor a b => sub2 Xor a b
  | Atleast a b => sub2 Atleast a b
  | LogicalNot a => sub1 LogicalNot a
  | Negation a => sub1 Negation a
  | BitInversion a => sub1 BitInversion a
  | OptionGet a => sub1 OptionGet a
  | OptionIsDefined a => sub1 OptionIsDefined a
  | OptionGetOrElse a b => sub2 OptionGetOrElse a b
  | ByIndex a b None => sub2 (fun a b => ByIndex a b None) a b
  | ByIndex a b (Some d) => sub3 (fun a b d => ByIndex a b (Some d)) a b d
  | SizeOf a => sub1 SizeOf a
  | Slice a b c => sub3 Slice a b c
  | Fold a b c => sub3 Fold a b c
  | Map a b f => sub2 (fun a b => Map a b f) a b
  | Filter a b t => sub2 (fun a b => Filter a b t) a b
  | Exists a b t => sub2 (fun a b => Exists a b t) a b
  | ForAll a b t => sub2 (fun a b => ForAll a b t) a b
  | SelectField a i t => sub1 (fun a => SelectField a i t) a
  | BoolToSigmaProp a => sub1 BoolToSigmaProp a
  | Upcast a t => sub1 (fun a => Upcast a t) a
  | Downcast a t => sub1 (fun a => Downcast a t) a
  | CreateProveDlog a => sub1 CreateProveDlog a
  | CreateProveDhTuple a b c d => a ← sub a; b ← sub b; c ← sub c; d ← sub d; Ok (CreateProveDhTuple a b c d)
  | SigmaAnd items => items ← mapM_res sub items; Ok (SigmaAnd items)
  | SigmaOr items => items ← mapM_res sub items; Ok (SigmaOr items)
  | MultiplyGroup a b => sub2 MultiplyGroup a b
  | XorOf a => sub1 XorOf a
  end.
End tree.

(** [ErgoTree::proposition] *)
Definition proposition `{C : SigmaCrypto} {Bx : ErgoBoxData} (tree : ParsedErgoTree) : result EvalError Expr :=
  if is_constant_segregation tree then substitute_constants (tree_constants tree) (tree_root tree)
  else Ok (tree_root tree).

(** * Reduction *)

Section reduce.
Context `{C : SigmaCrypto} {Bx : ErgoBoxData} {N : Bnum} {Sh : Sha256} {HI : HashIter}.
Implicit Type ctx : EvalContext.

(** [Context::activated_script_version], [with_constants], and the cell [tree_version]. *)
Definition activated_script_version ctx : Z := Z.max (activated_script_version_byte ctx) 0.
Definition with_constants ctx (cs : list Constant) : EvalContext :=
  mkEvalContext (activated_script_version_byte ctx) (ctx_extension ctx) (tree_version ctx) (jit_cost_limit ctx)
    (Some cs) (ctx_height ctx) (self_box ctx) (outputs ctx) (inputs ctx) (ctx_data_inputs ctx) (ctx_headers ctx)
    (ctx_pre_header ctx) (last_block_utxo_root ctx).
Definition with_tree_version ctx (version : Z) : EvalContext :=
  mkEvalContext (activated_script_version_byte ctx) (ctx_extension ctx) version (jit_cost_limit ctx)
    (constants ctx) (ctx_height ctx) (self_box ctx) (outputs ctx) (inputs ctx) (ctx_data_inputs ctx) (ctx_headers ctx)
    (ctx_pre_header ctx) (last_block_utxo_root ctx).

Definition trivial_reduce ctx (e : Expr) : option SigmaBoolean :=
  let constant := match e with
                  | Const c => if decide (const_tpe c = SSigmaProp) then Some c else None
                  | ConstPlaceholder id t =>
                      if decide (t = SSigmaProp) then cs ← constants ctx; cs !! Z.to_nat id else None
                  | _ => None
                  end in
  c ← constant;
  match const_v c with LSigmaProp p => Some p | _ => None end.

Definition validate_self_extension_key_domain ctx : result EvalError unit :=
  guard_or (forallb (fun k => k <=? 127) (extension_keys ctx)) (Misc "ContextExtension key is outside the signed-Byte range").

(** The inner function of [reduce_to_crypto]: the proposition, and the cost since [cost_before] in block units. *)
Definition reduce_inner ctx (fuel : nat) (e : Expr) (cost_before : Z) : evalM (SigmaBoolean * Z) :=
  p ← in_env ∅ (eval ctx fuel e);
  s ← getS;
  let cost := (jit_cost s - cost_before) / 10 in
  match p.1 with
  | VBoolean b => mret (TrivialProp b, cost)
  | VSigmaProp sp => mret (sp, cost)
  | _ => fail InvalidResultType
  end.

(** What follows a failed evaluation: a cost error stays; any other is replaced by what a second evaluation gives, of the
    tree with its constants substituted, from the cost at the start. (A panic does not come back, and the fuel is the
    model's.) *)
Definition retried ctx (fuel : nat) (tree : ParsedErgoTree) (cost_before : Z) (err : EvalError) :
    evalM (SigmaBoolean * Z) :=
  match err with
  | CostError _ | EvalPanic | EvalFuel => fail err
  | _ =>
      resolved ← liftE (proposition tree);
      _ ← (fun s => Ok (tt, mkEvalState (env s) cost_before));
      reduce_inner ctx fuel resolved cost_before
  end.

(** [reduce_to_crypto], after [convert_self_extension]; the diagnostic information is left out of the result. *)
Definition reduce_to_crypto ctx (fuel : nat) (tree : ParsedErgoTree) : evalM (SigmaBoolean * Z) := fun s0 =>
  let cost_before := jit_cost s0 in
  (_ ← liftE (validate_self_extension_key_domain ctx);
   let activated_version := activated_script_version ctx in
   _ ← liftE (guard_or (negb ((2 <=? activated_version) && (activated_version <? header_version tree)))
                       (TreeVersionAboveActivated (header_version tree) activated_version));
   let ctx := with_tree_version ctx (header_version tree) in
   let root := tree_root tree in
   let ctx_with_c := with_constants ctx (tree_constants tree) in
   match trivial_reduce ctx_with_c root with
   | Some sigma_bool =>
       _ ← add_jit_cost ctx 50; s ← getS; mret (sigma_bool, (jit_cost s - cost_before) / 10)
   | None => fun s =>
       match reduce_inner ctx_with_c fuel root cost_before s with
       | Ok (reduction, s') =>
           (* a false proposition is printed with its constants in place *)
           if decide (reduction.1 = TrivialProp false) then (_ ← liftE (proposition tree); mret reduction) s'
           else Ok (reduction, s')
       | Err err => retried ctx fuel tree cost_before err s
       end
   end) s0.

(** ** The reduction ends under a limit *)

Definition reduce_fuel (limit cost : Z) (tree : ParsedErgoTree) : nat :=
  enough_fuel limit cost (tree_root tree) +
  match proposition tree with Ok e => enough_fuel limit cost e | Err _ => 0%nat end.

(** A result that is not the lack of fuel, and whose cost is what was added, in block units. *)
Definition ends_within (limit c : Z) (r : result EvalError (SigmaBoolean * Z * EvalState)) : Prop :=
  r <> Err EvalFuel /\
  forall p k s, r = Ok ((p, k), s) -> c <= jit_cost s <= limit /\ k = (jit_cost s - c) / 10.

Lemma substitute_ends cs n : forall e, (depth e <= n)%nat -> substitute_constants cs e <> Err EvalFuel.
Proof.
  induction n as [|n IH]; intros e Hd; [pose proof (expr_depth_pos e); lia|].
  assert (forall items, (max_list_with depth items <= n)%nat -> mapM_res (substitute_constants cs) items <> Err EvalFuel) as Hl.
  { intros items. induction items as [|i items IHi]; intros Hi; [done|]. cbn in Hi |- *.
    apply ends_bind; [apply IH; lia|]. intros ?. apply ends_bind; [apply IHi; lia|done]. }
  destruct e; try done; cbn in Hd |- *; repeat case_match; cbn in Hd;
    repeat (apply ends_bind; [first [apply IH|apply Hl]; lia|intros ?]); try done.
  unfold constant_for. by case_match.
Qed.

Lemma proposition_ends tree err : proposition tree = Err err -> err <> EvalFuel.
Proof. unfold proposition. case_match; [|done]. intros He ->. by apply (substitute_ends _ _ _ (le_n _) He). Qed.

Lemma ends_err limit c e : e <> EvalFuel -> ends_within limit c (Err e).
Proof. intros He. split; [congruence|done]. Qed.

Lemma inner_ends ctx limit e E c :
  jit_cost_limit ctx = Some limit -> limit < 2 ^ 64 - 1 -> c <= limit ->
  exists r, ends_within limit c r /\
    forall n, (enough_fuel limit c e <= n)%nat -> reduce_inner ctx n e c (mkEvalState E c) = r.
Proof.
  intros HL Hmax Hc. destruct (eval_ends ctx limit c e HL Hmax Hc) as (r & Hr & Hn & Hok).
  unfold reduce_inner, in_env, mbind, stateE_bind. cbn [env jit_cost].
  eexists. split; [|intros n Hle; rewrite (Hn n Hle); reflexivity].
  destruct r as [[v s]|err]; [|apply ends_err; congruence]. specialize (Hok v s eq_refl).
  cbn. destruct v; cbn; try (by apply ends_err); split; try done; by intros ??? [= <- <- <-].
Qed.

Lemma retried_ends ctx limit tree E c err s :
  jit_cost_limit ctx = Some limit -> limit < 2 ^ 64 - 1 -> c <= limit -> err <> EvalFuel -> env s = E ->
  exists r, ends_within limit c r /\
    forall n, (match proposition tree with Ok e => enough_fuel limit c e | Err _ => 0 end <= n)%nat ->
      retried ctx n tree c err s = r.
Proof.
  intros HL Hmax Hc He <-. unfold retried, mbind, stateE_bind, liftE.
  destruct (proposition tree) as [e|err'] eqn:Hp.
  - destruct (inner_ends ctx limit e (env s) c HL Hmax Hc) as (r & Hr & Hn).
    destruct err; first [by (exists r; split; [exact Hr|exact Hn]) | eexists; split; [|intros n _; reflexivity]; by apply ends_err].
  - pose proof (proposition_ends tree err' Hp).
    destruct err; (eexists; split; [|intros n _; reflexivity]; by apply ends_err).
Qed.

Lemma reduce_ends ctx limit tree E c :
  jit_cost_limit ctx = Some limit -> limit < 2 ^ 64 - 1 -> c <= limit ->
  exists r, ends_within limit c r /\
    forall n, (reduce_fuel limit c tree <= n)%nat -> reduce_to_crypto ctx n tree (mkEvalState E c) = r.
Proof.
  intros HL Hmax Hc. unfold reduce_to_crypto, reduce_fuel. cbn [jit_cost].
  destruct (validate_self_extension_key_domain ctx) as [[]|err] eqn:Hk.
  2: { exists (Err err). split; [|done]. apply ends_err. revert Hk.
    unfold validate_self_extension_key_domain, guard_or. case_match; congruence. }
  destruct (guard_or (negb ((2 <=? activated_script_version ctx) && _)) _) as [[]|err] eqn:Hg.
  2: { exists (Err err). split; [|done]. apply ends_err. revert Hg. unfold guard_or. case_match; congruence. }
  cbv zeta. set (ctx1 := with_tree_version ctx (header_version tree)). set (ctx2 := with_constants ctx1 (tree_constants tree)).
  destruct (trivial_reduce ctx2 (tree_root tree)) as [sb|].
  - eexists. split; [|intros; reflexivity]. unfold add_jit_cost, mbind, stateE_bind, liftE.
    replace (jit_cost_limit ctx1) with (Some limit). cbn [jit_cost].
    destruct (Z.ltb_spec limit (Z.min (c + 50) (2 ^ 64 - 1))); [by apply ends_err|].
    split; [done|]. intros p k s [= <- <- <-]. cbn. lia.
  - destruct (inner_ends ctx2 limit (tree_root tree) E c HL Hmax Hc) as (r & [Hr Hok] & Hn).
    unfold mbind, stateE_bind, liftE.
    destruct r as [[[p k] s]|err].
    + eexists. split; [|intros n Hle; rewrite Hn by lia; reflexivity]. cbn [fst]. case_decide; [|by split].
      destruct (proposition tree) as [e|err] eqn:He; [by split|]. apply ends_err. by eapply proposition_ends.
    + destruct (retried_ends ctx1 limit tree E c err (mkEvalState E c) HL Hmax Hc) as (r & Hr' & Hn'); [congruence|done|].
      exists r. split; [done|]. intros n Hle. rewrite Hn by lia. apply Hn'. lia.
Qed.

(** More fuel changes nothing but the lack of it. *)
Lemma approx_inner ctx n m e c : (n <= m)%nat -> approx (reduce_inner ctx n e c) (reduce_inner ctx m e c).
Proof. intros Hle. apply approx_bind; [by apply approx_in_env, approx_eval|]. intros ? s. by right. Qed.

Lemma approx_retried ctx n m tree c err : (n <= m)%nat -> approx (retried ctx n tree c err) (retried ctx m tree c err).
Proof.
  intros Hle s. unfold retried.
  destruct err; try (by right); (apply approx_bind; [intros ?; by right|]; intros ?; apply approx_bind; [intros ?; by right|];
    intros ?; by apply approx_inner).
Qed.

Lemma approx_reduce ctx n m tree : (n <= m)%nat -> approx (reduce_to_crypto ctx n tree) (reduce_to_crypto ctx m tree).
Proof.
  intros Hle s. unfold reduce_to_crypto. generalize (jit_cost s) as c. intros c. revert s.
  refine (approx_bind _ _ _ _ _ _); [done|]. intros _. cbv zeta. refine (approx_bind _ _ _ _ _ _); [done|]. intros _. destruct (trivial_reduce _ _); [done|]. intros s1.
  destruct (approx_inner (with_constants (with_tree_version ctx (header_version tree)) (tree_constants tree)) n m (tree_root tree)
    c Hle s1) as [-> | ->]; [by left|].
  destruct (reduce_inner _ m _ _ s1) as [[r s2]|err]; [by right|]. by apply approx_retried.
Qed.

(** A reduction under a limit costs nothing negative. *)
Lemma reduce_cost ctx limit n tree p k s :
  jit_cost_limit ctx = Some limit -> 0 <= limit < 2 ^ 64 - 1 -> reduce_to_crypto ctx n tree (mkEvalState ∅ 0) = Ok ((p, k), s) ->
  0 <= k <= limit / 10.
Proof.
  intros HL Hl Hr. destruct (reduce_ends ctx limit tree ∅ 0 HL ltac:(lia) ltac:(lia)) as (r & [_ Hok] & Hn).
  pose proof (Hn (max n (reduce_fuel limit 0 tree)) ltac:(lia)) as Hm.
  destruct (approx_reduce ctx n (max n (reduce_fuel limit 0 tree)) tree ltac:(lia) (mkEvalState ∅ 0)) as [He|He]; [congruence|].
  rewrite Hm in He. destruct (Hok p k s) as [H1 ->]; [congruence|]. rewrite Z.sub_0_r. split; [apply Z.div_pos; lia|apply Z.div_le_mono; lia].
Qed.
End reduce.

(** * Substitution keeps types *)

Section substitution.
Context `{C : SigmaCrypto} {Bx : ErgoBoxData}.
Context (ver : Z) (cs : list Constant) (k : option (list Constant)).

(** [e'] is [e] with its constants in place: it needs none, and its type and depth are those of [e], which it
    is where there are no constants. *)
Record substituted (Γ : gmap Z SType) (e e' : Expr) : Prop := {
  subst_eq : substitute_constants cs e = Ok e';
  subst_wt : wt ver k Γ e' = true;
  subst_tpe : tpe e' = tpe e;
  subst_depth : depth e' = depth e;
  subst_nil : cs = [] -> e' = e
}.

Lemma constant_substituted Γ id t :
  wt ver (Some cs) Γ (ConstPlaceholder id t) = true -> exists e', substituted Γ (ConstPlaceholder id t) e'.
Proof.
  cbn. destruct (cs !! Z.to_nat id) as [c|] eqn:Hc; [|done]. intros [<-%bool_decide_eq_true Hl]%andb_prop.
  exists (Const c). split; try done; [|by intros ->].
  cbn. unfold constant_for. by rewrite Hc.
Qed.

Section children.
Context (n : nat).
Context (IH : forall e, (depth e <= n)%nat -> forall Γ, wt ver (Some cs) Γ e = true -> exists e', substituted Γ e e').

Lemma block_substituted Γ Γ' items :
  (max_list_with depth items <= n)%nat -> wt_block (wt ver (Some cs)) Γ items = Some Γ' ->
  exists items', mapM_res (substitute_constants cs) items = Ok items' /\
    wt_block (wt ver k) Γ items' = Some Γ' /\ block_ids items' = block_ids items /\
    max_list_with depth items' = max_list_with depth items /\ (cs = [] -> items' = items).
Proof.
  revert Γ. induction items as [|i items IHi]; intros Γ Hn Hb; [by exists []|]. cbn [max_list_with] in Hn.
  destruct i; try done. cbn [wt_block] in Hb. destruct (wt _ _ Γ i) eqn:Hw; [|done].
  destruct (IH i) with (Γ := Γ) as [i' [He Hw' Ht Hd Hi]]; [cbn in Hn; lia|done|].
  destruct (IHi (<[id := tpe i]> Γ)) as (items' & Hm & Hb' & Hids & Hmax & Hnil); [lia|done|].
  exists (ValDef id tpe_args i' :: items'). cbn. rewrite He. cbn. rewrite Hm, Hw', Ht. cbn.
  split_and!; [done|done|by f_equal|by rewrite Hd, Hmax|intros Hcs; by rewrite Hi, Hnil].
Qed.
End children.

Lemma list_substituted n Γ items (P : SType -> bool) :
  (forall e, (depth e <= n)%nat -> forall Γ, wt ver (Some cs) Γ e = true -> exists e', substituted Γ e e') ->
  (max_list_with depth items <= n)%nat -> forallb (fun i => wt ver (Some cs) Γ i && P (tpe i)) items = true ->
  exists items', mapM_res (substitute_constants cs) items = Ok items' /\
    forallb (fun i => wt ver k Γ i && P (tpe i)) items' = true /\
    max_list_with depth items' = max_list_with depth items /\ length items' = length items /\ (cs = [] -> items' = items).
Proof.
  intros IH Hn. induction items as [|i items IHi]; [by exists []|]. cbn in Hn |- *.
  intros [[Hw Ht]%andb_prop H]%andb_prop. destruct (IH i ltac:(lia) Γ Hw) as [i' [He Hw' Ht' Hd Hi]].
  destruct (IHi ltac:(lia) H) as (items' & Hm & Hf & Hmax & Hl & Hnil). exists (i' :: items'). cbn.
  rewrite He, Hm, Hw', Ht', Ht, Hf, Hd, Hmax, Hl. split_and!; try done. intros Hcs. by rewrite Hi, Hnil.
Qed.

(** Collects the typed children of a typing test. *)
Ltac typed_parts H :=
  lazymatch type of H with
  | (_ && _) = true =>
      let H1 := fresh "W" in let H2 := fresh "W" in
      pose proof (proj1 (andb_prop _ _ H)) as H1; pose proof (proj2 (andb_prop _ _ H)) as H2; typed_parts H1; typed_parts H2
  | _ => idtac
  end.
Ltac child IH H :=
  match goal with
  | W : wt ver (Some cs) ?Γ ?e = true |- _ =>
      lazymatch goal with _ : substitute_constants cs e = Ok _ |- _ => fail | _ => idtac end;
      let E1 := fresh "E" in let E2 := fresh "E" in let E3 := fresh "E" in let E4 := fresh "E" in
      let E5 := fresh "E" in
      destruct (IH e ltac:(lia) Γ W) as [? [E1 E2 E3 E4 E5]]; rewrite W in H
  end.
Ltac reassemble :=
  repeat match goal with
  | E : substitute_constants cs _ = Ok _ |- _ => rewrite E; clear E; cbn
  | E : wt ver k _ _ = true |- _ => rewrite E; clear E
  | E : tpe ?x = tpe _ |- _ => rewrite E; clear E
  | E : depth ?x = depth _ |- _ => rewrite E; clear E
  end.
(** A node of a fixed number of children. *)
Ltac node IH H :=
  cbn [wt depth max_list_with] in *; typed_parts H; repeat child IH H;
  eexists; split; [cbn; reassemble; reflexivity|cbn; reassemble; exact H|cbn; reassemble; reflexivity|cbn; reassemble; reflexivity|
    intros Hcs; repeat match goal with E : cs = [] -> _ |- _ => rewrite (E Hcs); clear E end; reflexivity].

Lemma substitute_typed n e Γ :
  (depth e <= n)%nat -> wt ver (Some cs) Γ e = true -> exists e', substituted Γ e e'.
Proof.
  revert e Γ. induction n as [|n IHn]; intros e Γ Hn H; [destruct e; cbn in Hn; lia|].
  assert (forall e, (depth e <= n)%nat -> forall Γ, wt ver (Some cs) Γ e = true -> exists e', substituted Γ e e') as IH by eauto.
  clear IHn. destruct e.
  all: try (by node IH H).
  - by apply constant_substituted.
  - cbn in Hn, H. destruct (list_substituted n Γ items (fun t => bool_decide (t = elem_tpe)) IH) as (items' & Hm & Hf & Hd & _ & Hnil);
      [lia|done|]. exists (Exprs elem_tpe items'). split; cbn; [by rewrite Hm|done|done|by rewrite Hd|intros; by rewrite Hnil].
  - destruct items as [|a [|b [|? ?]]]; try done. node IH H.
  - destruct args as [|arg [|? ?]]; try done. node IH H.
  - destruct args as [|a [|? ?]]; try done. node IH H.
  - cbn in Hn, H. apply andb_prop in H as [Hids H]. destruct (wt_block _ Γ items) as [Γ'|] eqn:Hb; [|done].
    destruct (block_substituted n IH Γ Γ' items) as (items' & Hm & Hb' & Hids' & Hd & Hnil); [lia|done|].
    destruct (IH e ltac:(lia) Γ' H) as [res [He Hw Ht Hde Hres]]. exists (BlockValue items' res).
    split; cbn; [by rewrite Hm, He|by rewrite Hids', Hids, Hb', Hw|done|by rewrite Hd, Hde|intros; by rewrite Hnil, Hres].
  - done.
  - destruct default as [d|]; node IH H.
  - cbn in Hn, H. apply andb_prop in H as [Hne H].
    destruct (list_substituted n Γ items (fun t => bool_decide (t = SSigmaProp)) IH) as (items' & Hm & Hf & Hd & Hl & Hnil);
      [lia|done|]. exists (SigmaAnd items'). split; cbn; [by rewrite Hm| |done|by rewrite Hd|intros; by rewrite Hnil].
    rewrite Hf, andb_true_r. by destruct items, items'.
  - cbn in Hn, H. apply andb_prop in H as [Hne H].
    destruct (list_substituted n Γ items (fun t => bool_decide (t = SSigmaProp)) IH) as (items' & Hm & Hf & Hd & Hl & Hnil);
      [lia|done|]. exists (SigmaOr items'). split; cbn; [by rewrite Hm| |done|by rewrite Hd|intros; by rewrite Hnil].
    rewrite Hf, andb_true_r. by destruct items, items'.
Qed.
End substitution.

(** * Theorems *)

Section theorems.
Context `{C : SigmaCrypto} {Bx : ErgoBoxData} {N : Bnum} {NL : BnumLaws N} {Sh : Sha256} {HI : HashIter}.
Context (ctx : EvalContext) (limit : Z).
Hypothesis (HL : jit_cost_limit ctx = Some limit) (Hmax : limit < 2 ^ 64 - 1).

(** What the theorem says of a run from [s]: a success stays within the limit. *)
Definition reduced (s : EvalState) {A} (r : result EvalError (A * EvalState)) : Prop :=
  match r with
  | Ok (_, s') => jit_cost s <= jit_cost s' <= limit /\ env s' = env s
  | Err err => runtime_error err /\ err <> EvalFuel
  end.

Lemma reduce_inner_sound n e c0 s :
  wt (tree_version ctx) (constants ctx) ∅ e = true -> tpe e = SBoolean \/ tpe e = SSigmaProp ->
  jit_cost s <= limit -> (enough_fuel limit (jit_cost s) e <= n)%nat -> reduced s (reduce_inner ctx n e c0 s).
Proof.
  intros Hwt Ht Hc Hn. unfold reduced, reduce_inner. set (s0 := mkEvalState ∅ (jit_cost s)).
  pose proof (total_eval ctx limit HL Hmax (depth e) (enough_fuel limit (jit_cost s) e) (jit_cost s) e ltac:(lia) ltac:(done)
                s0 ltac:(by split; [apply map_Forall_empty|cbn; lia])) as Htot.
  pose proof (eval_typed ctx n ∅ ∅ e Hwt s0 ltac:(by split; [|left])) as Hs. unfold wp in Hs, Htot.
  destruct (approx_eval ctx _ n e Hn s0) as [He|He].
  { rewrite He in Htot. by destruct Htot. }
  rewrite He in Htot. unfold mbind, stateE_bind, in_env. subst s0.
  destruct (eval ctx n e (mkEvalState ∅ (jit_cost s))) as [[v s']|err]; [|by split].
  destruct Hs as (Hv & _), Htot as (_ & _ & Hcost). cbn. destruct Ht as [Ht|Ht]; rewrite Ht in Hv; inversion Hv; subst; cbn; done.
Qed.
End theorems.

(** The tree a typed one is printed or evaluated again as. *)
Lemma proposition_typed `{C : SigmaCrypto} {Bx : ErgoBoxData} ver k tree :
  wt ver (Some (tree_constants tree)) ∅ (tree_root tree) = true ->
  (is_constant_segregation tree = false -> tree_constants tree = []) ->
  exists e, proposition tree = Ok e /\ wt ver k ∅ e = true /\ tpe e = tpe (tree_root tree) /\
    depth e = depth (tree_root tree).
Proof.
  intros Hwt Hs. destruct (substitute_typed ver (tree_constants tree) k _ _ ∅ (le_n _) Hwt) as [e [He Hw Ht Hd Hnil]].
  exists e. unfold proposition. destruct (is_constant_segregation tree); [done|]. specialize (Hnil (Hs eq_refl)). by subst e.
Qed.

(** C5: Reduction of a tree under a cost limit, the second evaluation after a failed one included: for a
    typed root of type Boolean or SigmaProp it gives a proposition, at a cost between the cost at the start and the
    limit and with the caller's environment untouched, or fails for a value met at run time; it neither runs out of the
    stated fuel nor ends with a value that is no proposition, and the substitution of the constants does not fail. *)
Theorem reduce_to_crypto_sound `{C : SigmaCrypto} {Bx : ErgoBoxData} {N : Bnum} {NL : BnumLaws N} {Sh : Sha256}
    {HI : HashIter} ctx limit tree n s :
  wt (header_version tree) (Some (tree_constants tree)) ∅ (tree_root tree) = true ->
  tpe (tree_root tree) = SBoolean \/ tpe (tree_root tree) = SSigmaProp ->
  (is_constant_segregation tree = false -> tree_constants tree = []) ->
  Forall (fun k => k <= 127) (extension_keys ctx) ->
  header_version tree <= activated_script_version_byte ctx ->
  jit_cost_limit ctx = Some limit -> limit < 2 ^ 64 - 1 -> jit_cost s <= limit ->
  (enough_fuel limit (jit_cost s) (tree_root tree) <= n)%nat ->
  match reduce_to_crypto ctx n tree s with
  | Ok (_, s') => jit_cost s <= jit_cost s' <= limit /\ env s' = env s
  | Err err => runtime_error err /\ err <> EvalFuel
  end.
Proof.
  intros Hwt Ht Hseg Hkeys Hver HL Hmax Hc Hn. unfold reduce_to_crypto, validate_self_extension_key_domain.
  assert (forallb (fun k => k <=? 127) (extension_keys ctx) = true) as ->.
  { apply forallb_forall. intros k Hk%list_elem_of_In. rewrite Forall_forall in Hkeys. apply Z.leb_le. by apply Hkeys. }
  assert (negb ((2 <=? activated_script_version ctx) && (activated_script_version ctx <? header_version tree)) = true) as ->.
  { apply negb_true_iff, andb_false_iff. right. apply Z.ltb_ge. unfold activated_script_version. lia. }
  cbn [guard_or]. change (liftE (Ok tt)) with (mret () : evalM unit). cbv zeta.
  set (ctx1 := with_tree_version ctx (header_version tree)).
  set (ctx2 := with_constants ctx1 (tree_constants tree)).
  destruct (proposition_typed _ (constants ctx1) tree Hwt Hseg) as (e & He & Hwe & Hte & Hde).
  pose proof (reduce_inner_sound ctx2 limit HL Hmax n (tree_root tree) (jit_cost s) s Hwt Ht Hc Hn) as H.
  unfold mbind, stateE_bind, mret, stateE_ret. destruct (trivial_reduce ctx2 (tree_root tree)) as [sb|].
  { pose proof (charge_within ctx1 limit 50 (jit_cost s) (env s) HL Hmax ltac:(lia)) as Hch.
    destruct s as [E c]. cbn in *. destruct (add_jit_cost ctx1 50 _) as [[[] s']|err] eqn:Hadd; [|exact Hch].
    cbn. split; [done|]. unfold add_jit_cost in Hadd. repeat case_match; by simplify_eq. }
  destruct (reduce_inner ctx2 n (tree_root tree) (jit_cost s) s) as [[[p c] s']|err].
  { cbn [reduced] in H. case_decide; [|done]. by rewrite He. }
  destruct H as [Hre Hfuel].
  assert (retried ctx1 n tree (jit_cost s) err s = Err err \/
    retried ctx1 n tree (jit_cost s) err s = reduce_inner ctx1 n e (jit_cost s) (mkEvalState (env s) (jit_cost s))) as [-> | ->].
  { unfold retried. rewrite He. destruct err; auto. }
  - done.
  - apply (reduce_inner_sound ctx1 limit HL Hmax n e (jit_cost s) (mkEvalState (env s) (jit_cost s)) Hwe);
      [by rewrite Hte|done|]. unfold enough_fuel in *. cbn. by rewrite Hde.
Qed.
