(* ===== verification/EvalConcrete.v ===== *)
(** Concrete instances of the evaluator's interfaces, under which it computes; the theorems applied to small scripts,
    and what small scripts show of its corners. *)

From stdpp Require Import strings gmap.
From S2P Require Import Prelude Gf2Field SigmaBoolean ConcreteCrypto Types BigNum Expr Value EvalOps Eval EvalTotal EvalTyping EvalSound EvalEquality Reduce.
#[local] Open Scope Z_scope.

#[export] Instance concrete_boxes : ErgoBoxData := {| ErgoBox := unit |}.
#[export] Instance concrete_bnum : Bnum := {|
  i256_checked := std_arith (fits_s 256);
  u256_checked := std_arith (fits_u 256);
  i256_bit := std_bit;
  u256_bit := std_bit;
  i256_not := Z.lnot;
  i256_from_be_slice l := checked (fits_s 256) (signed_val l)
|}.
#[export] Instance concrete_sha256 : Sha256 := {| sha256_hash := toy_hash |}.
#[export] Instance concrete_hash_iter : HashIter :=
  {| hash_bindings V m := map_to_list m; hash_bindings_perm V m := reflexivity _ |}.

Lemma signed_val_fits l :
  byte_list l -> l <> [] -> (length l <= 32)%nat -> fits_s 256 (signed_val l) = true.
Proof.
  intros Hl Hne Hn. unfold fits_s. rewrite andb_true_iff, Z.leb_le, Z.ltb_lt.
  pose proof (signed_val_range l Hne) as Hr. unfold in_s in Hr.
  pose proof (Z.pow_le_mono_r 2 (8 * Z.of_nat (length l) - 1) (256 - 1)). lia.
Qed.

#[export] Instance concrete_bnum_laws : BnumLaws concrete_bnum.
Proof.
  constructor; try done.
  - intros l z. cbn. unfold checked. case_match eqn:Hf; [|done]. intros [= <-]. unfold fits_s in Hf. unfold in_s. lia.
  - intros l Hl Hne Hn. cbn. unfold checked. by rewrite signed_val_fits.
Qed.

(** A context under a limit of [limit]. *)
Definition toy_context (ver : Z) (limit : option Z) : EvalContext :=
  mkEvalContext 3 [] ver limit None 100 tt [] [] None [] (mkPreHeader 4 [] 0 0 100 (toF 5) []) (mkAvlTreeData [] 0 0 None).
Definition int (z : Z) : Expr := Const (mkConstant SInt (LInt z)).
Definition long (z : Z) : Expr := Const (mkConstant SLong (LLong z)).
Definition ints (l : list Z) : Expr := Exprs SInt (map int l).
Definition increment : Expr := func_value_new [mkFuncArg 1 SInt] (BinOp (Arith Plus) (ValUse 1 SInt) (int 1)).

(** Tests of a result that compute. *)
Definition gives_value (r : result EvalError (Value * EvalState)) (v : Value) : bool :=
  match r with Ok (w, _) => bool_decide (w = v) | Err _ => false end.
Definition reduces_to (r : result EvalError (SigmaBoolean * Z * EvalState)) (p : SigmaBoolean) (cost : Z) : bool :=
  match r with Ok (q, c, _) => bool_decide (q = p) && (c =? cost) | Err _ => false end.
Definition is_panic (r : result EvalError (Value * EvalState)) : bool :=
  match r with Err EvalPanic => true | _ => false end.
Definition is_not_found (r : result EvalError (Value * EvalState)) : bool :=
  match r with Err (NotFound _) => true | _ => false end.

(** A script with a definition, a lambda over a collection and a comparison: [val x = 5; Coll(1, 2, x).map(_ + 1)(2) > x]. *)
Definition toy_script : Expr :=
  BlockValue [ValDef 2 [] (int 5)]
    (BinOp (Relation RGt)
       (ByIndex (Map (Exprs SInt [int 1; int 2; ValUse 2 SInt]) increment (mkSFunc [SInt] SInt [])) (int 2) None)
       (ValUse 2 SInt)).

Lemma toy_script_typed : wt 3 None ∅ toy_script = true.
Proof. by vm_compute. Qed.

Lemma eval_terminates_witness :
  exists r, r <> Err EvalFuel /\
    (forall n, (enough_fuel 1000 0 omega <= n)%nat ->
       eval (toy_context 3 (Some 1000)) n omega (mkEvalState ∅ 0) = r) /\
    (forall v s, r = Ok (v, s) -> 0 <= jit_cost s <= 1000).
Proof. apply (eval_terminates (toy_context 3 (Some 1000)) 1000 0 omega); [reflexivity|lia|lia]. Defined.

Lemma unlimited_diverges_witness : eval (toy_context 3 None) 100 omega (mkEvalState ∅ 0) = Err EvalFuel.
Proof. apply (unlimited_diverges (toy_context 3 None) 100 0). reflexivity. Defined.

Lemma eval_sound_witness :
  match eval (toy_context 3 (Some 1000)) 20 toy_script (mkEvalState ∅ 0) with
  | Ok (v, s') => vtype 3 None v SBoolean /\ env_typed 3 None ∅ (env s') /\
      (env (mkEvalState (∅ : Env) 0) <> ∅ -> env s' = env (mkEvalState (∅ : Env) 0))
  | Err err => runtime_error err
  end.
Proof.
  apply (eval_sound (toy_context 3 (Some 1000)) 20 ∅ toy_script (mkEvalState ∅ 0)); [exact toy_script_typed|].
  intros i t Hi. rewrite lookup_empty in Hi. discriminate Hi.
Defined.

(** The script as a tree with its first constant segregated. *)
Definition toy_tree : ParsedErgoTree :=
  mkParsedErgoTree 3 true [mkConstant SInt (LInt 5)]
    (BlockValue [ValDef 2 [] (ConstPlaceholder 0 SInt)]
       (BinOp (Relation RGt)
          (ByIndex (Map (Exprs SInt [int 1; int 2; ValUse 2 SInt]) increment (mkSFunc [SInt] SInt [])) (int 2) None)
          (ValUse 2 SInt))).

Lemma toy_tree_typed : wt 3 (Some [mkConstant SInt (LInt 5)]) ∅ (tree_root toy_tree) = true.
Proof. by vm_compute. Qed.
Lemma toy_tree_fuel : (enough_fuel 1000 0 (tree_root toy_tree) <=? 1500)%nat = true.
Proof. by vm_compute. Qed.

Lemma reduce_to_crypto_sound_witness :
  match reduce_to_crypto (toy_context 0 (Some 1000)) 1500 toy_tree (mkEvalState ∅ 0) with
  | Ok (_, s') => 0 <= jit_cost s' <= 1000 /\ env s' = env (mkEvalState (∅ : Env) 0)
  | Err err => runtime_error err /\ err <> EvalFuel
  end.
Proof.
  apply (reduce_to_crypto_sound (toy_context 0 (Some 1000)) 1000 toy_tree 1500 (mkEvalState ∅ 0));
    [exact toy_tree_typed|left; reflexivity|discriminate|apply List.Forall_nil|simpl; lia|reflexivity|lia|simpl; lia|].
  exact (proj1 (Nat.leb_le _ _) toy_tree_fuel).
Defined.

(** What that reduction gives. *)
Lemma toy_tree_reduces :
  reduces_to (reduce_to_crypto (toy_context 0 (Some 1000)) 20 toy_tree (mkEvalState ∅ 0)) (TrivialProp true) 21 = true.
Proof. by vm_compute. Qed.

Lemma eq_with_cost_correct_witness :
  match eq_with_cost (toy_context 3 (Some 1000)) (VTup [VInt 1; VColl (WrappedColl SInt [VInt 2])])
          (VTup [VInt 1; VColl (WrappedColl SInt [VInt 3])]) (mkEvalState ∅ 0) with
  | Ok (b, s') =>
      (b = true <-> VTup [VInt 1; VColl (WrappedColl SInt [VInt 2])] = VTup [VInt 1; VColl (WrappedColl SInt [VInt 3])]) /\
      env s' = env (mkEvalState (∅ : Env) 0)
  | Err err => runtime_error err
  end.
Proof.
  apply (eq_with_cost_correct (toy_context 3 (Some 1000)) _ _ (STuple [SInt; SColl SInt]) (mkEvalState ∅ 0));
    (apply T_Tup; [apply T_Int; unfold in_s; lia|apply T_Wrapped; [discriminate|]]);
    (apply List.Forall_cons; [apply T_Int; unfold in_s; lia|apply List.Forall_nil]).
Defined.

(** * Corners *)

(** A placeholder for a constant of an unsupported type is refused where it is evaluated; the second evaluation, which is
    of the tree with the constant in its place, does not see a placeholder and succeeds. *)
Definition triple_tree : ParsedErgoTree :=
  mkParsedErgoTree 0 true [mkConstant (STuple [SInt; SInt; SInt]) (LTup [LInt 1; LInt 2; LInt 3])]
    (BinOp (Relation RGt) (SelectField (ConstPlaceholder 0 (STuple [SInt; SInt; SInt])) 1 SInt) (int 0)).
Definition is_misc (r : result EvalError (Value * EvalState)) : bool :=
  match r with Err (Misc _) => true | _ => false end.
Lemma retry_accepts :
  is_misc (eval (with_constants (toy_context 0 None) (tree_constants triple_tree)) 10 (tree_root triple_tree)
             (mkEvalState ∅ 0)) = true /\
  reduces_to (reduce_to_crypto (toy_context 0 None) 10 triple_tree (mkEvalState ∅ 0)) (TrivialProp true) 4 = true.
Proof. split; vm_compute; reflexivity. Qed.

(** A block that is evaluated where no variable is defined leaves its variables behind: the outer block sees those of
    the block in its first definition, and the same outer block inside another one does not. *)
Definition leaking_block : Expr :=
  BlockValue [ValDef 1 [] (BlockValue [ValDef 7 [] (int 5)] (int 6))] (ValUse 7 SInt).
Lemma block_leaks :
  gives_value (eval (toy_context 3 None) 10 leaking_block (mkEvalState ∅ 0)) (VInt 5) = true /\
  is_not_found (eval (toy_context 3 None) 10 (BlockValue [ValDef 3 [] (int 0)] leaking_block) (mkEvalState ∅ 0)) = true /\
  wt 3 None ∅ leaking_block = false.
Proof. split_and!; vm_compute; reflexivity. Qed.

(** An operation on an Int and a Long gives a Long, where the node reports the type of its left operand. *)
Lemma mixed_arithmetic :
  let e := BinOp (Arith Plus) (int 1) (long 2) in
  tpe e = SInt /\ gives_value (eval (toy_context 3 None) 10 e (mkEvalState ∅ 0)) (VLong 3) = true.
Proof. split_and!; vm_compute; reflexivity. Qed.

(** The cost of a slice is computed from the width of the range in 32 bits before the range is cut to the collection. *)
Lemma slice_overflow :
  let e := Slice (ints [1; 2; 3]) (int (- 2 ^ 31)) (int (2 ^ 31 - 1)) in
  wt 3 None ∅ e = true /\ is_panic (eval (toy_context 3 None) 10 e (mkEvalState ∅ 0)) = true.
Proof. split_and!; vm_compute; reflexivity. Qed.

(** The two remainders of one operator: that of a negative Int is negative, that of a negative BigInt is not. *)
Lemma modulo_signs :
  eval_arith Modulo (VInt (-7)) (VInt 2) = Ok (VInt (-1)) /\
  eval_arith Modulo (VBigInt (-7)) (VBigInt 2) = Ok (VBigInt 1).
Proof. done. Qed.

(** A Byte cannot be cast down to a Short, and can be to an Int. *)
Lemma byte_to_short :
  downcast_to 3 SShort (VByte 1) = Err cannot_downcast /\ downcast_to 3 SInt (VByte 1) = Ok (VInt 1).
Proof. done. Qed.
