(* ===== verification/BigIntSerial.v ===== *)
(** The bytes of 256-bit integers (src/ergotree-ir/src/bigint256.rs and unsignedbigint256.rs): [to_be_vec], the
    shortest two's complement or magnitude, over the interface [BnumBytes] to crate bnum, and reading it back. *)

From stdpp Require Import strings gmap.
From S2P Require Import Prelude SigmaBoolean Types BigNum Expr Value EvalOps EvalConcrete.
#[local] Open Scope Z_scope.

(** * The external code *)

(** [to_radix_be(256)] and [leading_ones] of [I256], [to_radix_be(256)] and [from_be_slice] of [U256]. *)
Class BnumBytes : Type := {
  i256_to_radix_be : Z -> list Z;
  i256_leading_ones : Z -> Z;
  u256_to_radix_be : Z -> list Z;
  u256_from_be_slice : list Z -> option Z
}.

(** [l] is [z] in digits to the base 256, with no more digits than needed and at least one. *)
Definition shortest_be (z : Z) (l : list Z) : Prop :=
  byte_list l /\ l <> [] /\ be_val l = z /\
  forall k, byte_list k -> k <> [] -> be_val k = z -> (length l <= length k)%nat.

(** The digits of a signed integer are those of the 256 bits it is held in; the number of its leading ones follows
    from the power of two above its absolute value. *)
Class BnumBytesLaws (N : BnumBytes) : Prop := {
  i256_digits z : in_s 256 z -> shortest_be (wrap_u 256 z) (i256_to_radix_be z);
  i256_ones z : in_s 256 z -> z < 0 -> i256_leading_ones z = 256 - Z.log2_up (- z);
  u256_digits z : in_u 256 z -> shortest_be z (u256_to_radix_be z);
  u256_slice l : byte_list l -> length l = 32%nat -> u256_from_be_slice l = Some (be_val l)
}.

(** * The operations *)

Section bytes.
Context `{N : BnumBytes}.

(** [u32::saturating_sub] *)
Definition saturating_sub (a b : Z) : Z := Z.max 0 (a - b).

(** [BigInt256::to_be_vec] *)
Definition bigint_to_be_vec (z : Z) : list Z :=
  let bytes := i256_to_radix_be z in
  if z <? 0 then
    let leading_bytes := saturating_sub (i256_leading_ones z) 1 / 8 in
    drop (Z.to_nat leading_bytes) bytes
  else if negb (Z.land (bytes !!! 0%nat) 128 =? 0) then 0 :: bytes
  else bytes.

(** [UnsignedBigInt::to_be_vec] *)
Definition unsigned_to_be_vec (z : Z) : list Z := if z =? 0 then [] else u256_to_radix_be z.
End bytes.

(** * They are the shortest *)

Lemma drop_be_bytes k n z : (k <= n)%nat -> 0 <= z < 256 ^ Z.of_nat n -> drop k (be_bytes n z) = be_bytes (n - k) (z mod 256 ^ Z.of_nat (n - k)).
Proof.
  intros Hk Hz. apply be_bytes_eq.
  - apply Forall_drop, be_bytes_range.
  - by rewrite length_drop, length_be_bytes.
  - pose proof (be_val_bytes n z Hz) as Hv. rewrite <- (take_drop k (be_bytes n z)), be_val_app in Hv.
    rewrite length_drop, length_be_bytes in Hv.
    pose proof (be_val_range (drop k (be_bytes n z)) (Forall_drop _ _ _ (be_bytes_range n z))) as Hr.
    rewrite length_drop, length_be_bytes in Hr.
    set (v := be_val (drop k (be_bytes n z))) in *. rewrite <- Hv, Z.add_comm, Z.mod_add by (pose proof (pow_256_pos (n - k)); lia).
    by rewrite Z.mod_small.
Qed.

Lemma signed_val_be n z : n <> 0%nat -> in_s (8 * Z.of_nat n) z -> signed_val (be_bytes n (z mod 256 ^ Z.of_nat n)) = z.
Proof.
  intros Hn Hz. unfold signed_val. rewrite length_be_bytes, be_val_bytes by apply Z.mod_pos_bound, pow_256_pos.
  rewrite pow_256, wrap_s_mod_pow. apply wrap_s_id; [lia|done].
Qed.

Lemma in_s_neg w z : 0 < w -> z < 0 -> in_s w z <-> Z.log2_up (- z) <= w - 1.
Proof.
  intros Hw Hz. unfold in_s. pose proof (Z.pow_pos_nonneg 2 (w - 1)). split.
  - intros [H1 _]. rewrite <- (Z.log2_up_pow2 (w - 1)) by lia. apply Z.log2_up_le_mono. lia.
  - intros H1. split; [|lia]. enough (- z <= 2 ^ (w - 1)) by lia. apply Z.log2_up_le_pow2; lia.
Qed.

Lemma mod_mod_pow a w v : 0 <= v <= w -> (a mod 2 ^ w) mod 2 ^ v = a mod 2 ^ v.
Proof.
  intros H. replace w with (v + (w - v)) by lia. rewrite Z.pow_add_r by lia.
  rewrite Z.rem_mul_r by (apply Z.pow_nonzero || apply Z.pow_pos_nonneg; lia).
  rewrite (Z.mul_comm (2 ^ v)), Z.mod_add by (apply Z.pow_nonzero; lia). apply Z.mod_mod, Z.pow_nonzero; lia.
Qed.

(** Digits to the base 256. *)
Lemma shortest_digits z l : 0 <= z -> shortest_be z l -> l = be_bytes (nbytes z) z.
Proof.
  intros Hz (Hb & Hn & Hv & Hs). apply be_bytes_eq; [done| |done]. pose proof (nbytes_pos z). apply Nat.le_antisymm.
  - rewrite <- (length_be_bytes (nbytes z) z). apply Hs; [apply be_bytes_range| |apply be_val_bytes; split; [done|by apply nbytes_enough]].
    apply not_nil_length. by rewrite length_be_bytes.
  - apply nbytes_least; [rewrite <- Hv; by apply be_val_range|by apply not_nil_length].
Qed.

Lemma high_bit_byte b : in_u 8 b -> (Z.land b 128 =? 0) = (b <? 128).
Proof.
  intros Hb. assert (forallb (fun b => Bool.eqb (Z.land b 128 =? 0) (b <? 128)) (seqZ 0 256) = true) as H by by vm_compute.
  rewrite forallb_forall in H. apply eqb_prop, H, list_elem_of_In, elem_of_seqZ. unfold in_u in Hb. lia.
Qed.

(** The first bit of a byte string. *)
Lemma high_bit n z : n <> 0%nat -> 0 <= z < 256 ^ Z.of_nat n ->
  (Z.land (be_bytes n z !!! 0%nat) 128 =? 0) = (z <? 2 ^ (8 * Z.of_nat n - 1)).
Proof.
  intros Hn Hz. pose proof (be_bytes_range n z) as Hb. pose proof (be_val_bytes n z Hz) as Hv. pose proof (length_be_bytes n z) as Hl.
  destruct (be_bytes n z) as [|b l]; [done|]. apply Forall_cons in Hb as [Hb Hl']. cbn [lookup_total list_lookup_total].
  rewrite be_val_cons in Hv. pose proof (be_val_range l Hl') as Hr. cbn [length] in Hl. subst n.
  rewrite Nat2Z.inj_succ. replace (8 * Z.succ (Z.of_nat (length l)) - 1) with (7 + 8 * Z.of_nat (length l)) by lia.
  rewrite Z.pow_add_r, <- pow_256 by lia. set (p := 256 ^ Z.of_nat (length l)) in *.
  assert ((Z.land b 128 =? 0) = (b <? 128)) as -> by by apply high_bit_byte.
  unfold in_u in Hb. destruct (Z.ltb_spec b 128), (Z.ltb_spec z (2 ^ 7 * p)); try done; nia.
Qed.

Section laws.
Context {N : BnumBytes} {NL : BnumBytesLaws N}.

(** A negative number that fills its 256 bits. *)
Lemma radix_negative z : in_s 256 z -> z < 0 -> i256_to_radix_be z = be_bytes 32 (wrap_u 256 z).
Proof.
  intros Hz Hneg. destruct (i256_digits z Hz) as (Hb & Hn & Hv & Hs).
  assert (2 ^ 255 <= wrap_u 256 z < 2 ^ 256) as Hr.
  { unfold wrap_u, in_s in *. rewrite <- (Z.mod_add z 1) by lia. rewrite Z.mod_small; lia. }
  apply be_bytes_eq; [done| |done]. apply Nat.le_antisymm.
  - rewrite <- (length_be_bytes 32 (wrap_u 256 z)). apply Hs; [apply be_bytes_range| |by apply be_val_bytes; change (256 ^ Z.of_nat 32) with (2 ^ 256); lia].
    apply not_nil_length. by rewrite length_be_bytes.
  - apply Nat.nlt_ge. intros Hlt. pose proof (be_val_range _ Hb) as Hbr. rewrite Hv in Hbr.
    enough (256 ^ Z.of_nat (length (i256_to_radix_be z)) <= 256 ^ 31) by (change (256 ^ 31) with (2 ^ 248) in *; lia).
    apply Z.pow_le_mono_r; lia.
Qed.

(** The bytes of a negative number. *)
Lemma negative_bytes z : in_s 256 z -> z < 0 ->
  exists n, (n <= 32)%nat /\ n <> 0%nat /\ bigint_to_be_vec z = be_bytes n (z mod 256 ^ Z.of_nat n) /\ in_s (8 * Z.of_nat n) z /\
    forall m, m <> 0%nat -> in_s (8 * Z.of_nat m) z -> (n <= m)%nat.
Proof.
  intros Hz Hneg. unfold bigint_to_be_vec. destruct (Z.ltb_spec z 0); [|lia].
  rewrite radix_negative, i256_ones by done. pose proof (proj1 (in_s_neg 256 z ltac:(lia) Hneg) Hz) as Hlog.
  pose proof (Z.log2_up_nonneg (- z)). set (lo := 256 - Z.log2_up (- z)) in *. unfold saturating_sub. rewrite Z.max_r by lia.
  pose proof (Z.div_mod (lo - 1) 8 ltac:(lia)). pose proof (Z.mod_pos_bound (lo - 1) 8 ltac:(lia)).
  set (q := (lo - 1) / 8) in *. assert (0 <= q <= 31) by lia.
  exists (32 - Z.to_nat q)%nat. split_and!; [lia|lia| | |].
  - rewrite drop_be_bytes by (lia || (change (256 ^ Z.of_nat 32) with (2 ^ 256); apply (wrap_u_range 256); lia)).
    f_equal. unfold wrap_u. rewrite !pow_256. apply mod_mod_pow. lia.
  - apply in_s_neg; lia.
  - intros m Hm Hin. apply in_s_neg in Hin; lia.
Qed.

(** The bytes of a number that is not negative. *)
Lemma nonnegative_bytes z : in_s 256 z -> 0 <= z ->
  exists n, (n <= 32)%nat /\ n <> 0%nat /\ bigint_to_be_vec z = be_bytes n (z mod 256 ^ Z.of_nat n) /\ in_s (8 * Z.of_nat n) z /\
    forall m, m <> 0%nat -> in_s (8 * Z.of_nat m) z -> (n <= m)%nat.
Proof.
  intros Hz Hpos. unfold bigint_to_be_vec. destruct (Z.ltb_spec z 0); [lia|].
  assert (in_u 256 z) as Hu by (unfold in_u, in_s in *; lia).
  pose proof (i256_digits z Hz) as Hs. rewrite wrap_u_id in Hs by done. rewrite (shortest_digits z _ Hpos Hs).
  pose proof (nbytes_pos z) as Hn. pose proof (nbytes_enough z Hpos) as He.
  assert (nbytes z <= 32)%nat as H32 by (apply nbytes_least; [change (256 ^ Z.of_nat 32) with (2 ^ 256); unfold in_u in Hu; lia|done]).
  assert (forall m, m <> 0%nat -> in_s (8 * Z.of_nat m) z -> (nbytes z <= m)%nat) as Hleast.
  { intros m Hm Hin. apply nbytes_least; [|done]. unfold in_s in Hin. rewrite pow_256, pow2_half by lia. lia. }
  rewrite (high_bit (nbytes z) z) by (done || lia). destruct (Z.ltb_spec z (2 ^ (8 * Z.of_nat (nbytes z) - 1))) as [Hl|Hl]; cbn [negb].
  - exists (nbytes z). split_and!; [done|done| | |done].
    + by rewrite Z.mod_small.
    + unfold in_s. lia.
  - exists (S (nbytes z)). assert (nbytes z <> 32)%nat by (intros E; rewrite E in Hl; unfold in_s in Hz; lia).
    assert (z < 256 ^ Z.of_nat (S (nbytes z))) as Hs' by (rewrite Nat2Z.inj_succ, Z.pow_succ_r by lia; lia).
    split_and!; [lia|lia| | |].
    + rewrite Z.mod_small by lia. apply be_bytes_eq; [|cbn; by rewrite length_be_bytes|].
      * constructor; [unfold in_u; lia|apply be_bytes_range].
      * rewrite be_val_cons, be_val_bytes; lia.
    + unfold in_s. rewrite pow_256 in He. pose proof (Z.pow_le_mono_r 2 (8 * Z.of_nat (nbytes z)) (8 * Z.of_nat (S (nbytes z)) - 1)). lia.
    + intros m Hm Hin. pose proof (Hleast m Hm Hin). destruct (Nat.eq_dec (nbytes z) m) as [E|]; [|lia].
      rewrite E in Hl. unfold in_s in Hin. lia.
Qed.

Lemma bigint_bytes z : in_s 256 z ->
  exists n, (n <= 32)%nat /\ n <> 0%nat /\ bigint_to_be_vec z = be_bytes n (z mod 256 ^ Z.of_nat n) /\ in_s (8 * Z.of_nat n) z /\
    forall m, m <> 0%nat -> in_s (8 * Z.of_nat m) z -> (n <= m)%nat.
Proof. intros Hz. destruct (Z.lt_ge_cases z 0); [by apply negative_bytes|by apply nonnegative_bytes]. Qed.

(** What is written: from 1 to 32 bytes, which read back. *)
Lemma bigint_to_be_vec_length z : in_s 256 z -> (1 <= length (bigint_to_be_vec z) <= 32)%nat.
Proof. intros Hz. destruct (bigint_bytes z Hz) as (n & Hn & Hn0 & -> & _). rewrite length_be_bytes. lia. Qed.

Lemma bigint_to_be_vec_range z : in_s 256 z -> byte_list (bigint_to_be_vec z).
Proof. intros Hz. destruct (bigint_bytes z Hz) as (n & _ & _ & -> & _). apply be_bytes_range. Qed.

Lemma bigint_to_be_vec_val z : in_s 256 z -> signed_val (bigint_to_be_vec z) = z.
Proof. intros Hz. destruct (bigint_bytes z Hz) as (n & _ & Hn & -> & Hin & _). by apply signed_val_be. Qed.

Lemma bigint_back `{M : Bnum} `{ML : !BnumLaws M} z : in_s 256 z -> bigint_from_be_slice (bigint_to_be_vec z) = Some z.
Proof.
  intros Hz. pose proof (bigint_to_be_vec_length z Hz) as Hl. pose proof (bigint_to_be_vec_range z Hz) as Hb.
  pose proof (bigint_to_be_vec_val z Hz) as Hv. unfold bigint_from_be_slice. destruct (bigint_to_be_vec z) as [|b l] eqn:E; [cbn in Hl; lia|].
  rewrite i256_from_be_slice_spec by (done || lia). by rewrite Hv.
Qed.

Lemma unsigned_bytes z : in_u 256 z ->
  exists n, (n <= 32)%nat /\ unsigned_to_be_vec z = be_bytes n z /\ z < 256 ^ Z.of_nat n.
Proof.
  intros Hz. unfold unsigned_to_be_vec. destruct (Z.eqb_spec z 0) as [->|]; [by exists 0%nat; split_and!; [lia| |]|].
  rewrite (shortest_digits z (u256_to_radix_be z)) by (unfold in_u in Hz; lia || by apply u256_digits). exists (nbytes z). unfold in_u in Hz.
  split_and!; [|done|apply nbytes_enough; lia]. apply nbytes_least; [change (256 ^ Z.of_nat 32) with (2 ^ 256); lia|done].
Qed.

(** Padded to 32 bytes, as the parser does. *)
Lemma unsigned_back z : in_u 256 z ->
  (length (unsigned_to_be_vec z) <= 32)%nat /\ byte_list (unsigned_to_be_vec z) /\
  u256_from_be_slice (replicate (32 - length (unsigned_to_be_vec z)) 0 ++ unsigned_to_be_vec z) = Some z.
Proof.
  intros Hz. destruct (unsigned_bytes z Hz) as (n & Hn & -> & Hlt). rewrite length_be_bytes. split_and!; [done|apply be_bytes_range|].
  assert (byte_list (replicate (32 - n) 0)) as H0 by (apply Forall_replicate; unfold in_u; lia).
  rewrite u256_slice.
  - rewrite be_val_app, be_val_zeros, be_val_bytes by (unfold in_u in Hz; lia). by f_equal.
  - apply Forall_app. split; [done|apply be_bytes_range].
  - rewrite length_app, length_replicate, length_be_bytes. lia.
Qed.
End laws.

(** * An instance that computes *)

#[export] Instance concrete_bnum_bytes : BnumBytes := {|
  i256_to_radix_be z := be_bytes (nbytes (wrap_u 256 z)) (wrap_u 256 z);
  i256_leading_ones z := 256 - Z.log2_up (- z);
  u256_to_radix_be z := be_bytes (nbytes z) z;
  u256_from_be_slice l := Some (be_val l)
|}.

Lemma nbytes_shortest z : 0 <= z -> shortest_be z (be_bytes (nbytes z) z).
Proof.
  intros Hz. pose proof (nbytes_pos z). pose proof (nbytes_enough z Hz). split_and!.
  - apply be_bytes_range.
  - apply not_nil_length. by rewrite length_be_bytes.
  - by apply be_val_bytes.
  - intros k Hk Hn <-. rewrite length_be_bytes. apply nbytes_least; [by apply be_val_range|by apply not_nil_length].
Qed.

#[export] Instance concrete_bnum_bytes_laws : BnumBytesLaws concrete_bnum_bytes.
Proof.
  split.
  - intros z _. apply nbytes_shortest, wrap_u_range. lia.
  - done.
  - intros z Hz. apply nbytes_shortest. unfold in_u in Hz. lia.
  - done.
Qed.

(** The examples of the documentation, and the bounds. *)
Example bigint_bytes_examples :
  bigint_to_be_vec 255 = [0; 255] /\ bigint_to_be_vec (- 1) = [255] /\ bigint_to_be_vec 0 = [0] /\
  bigint_to_be_vec (- 129) = [255; 127] /\ length (bigint_to_be_vec (- 2 ^ 255)) = 32%nat /\
  unsigned_to_be_vec 0 = [] /\ unsigned_to_be_vec 256 = [1; 0].
Proof. by vm_compute. Qed.
