(* ===== verification/DataSerial.v ===== *)
(** Data values and constants as bytes (src/ergotree-ir/src/serialization/data.rs, constant.rs, the parsers and writers
    of bigint256.rs, unsignedbigint256.rs and mir/avl_tree_data.rs, the costs of sigma_byte_writer.rs): the writer with
    the cost that [Global.serialize] charges for it, the parser with its nesting levels, the round trip, what a parse
    promises on any bytes, and how the cost bounds the bytes. Boxes are written by [BoxSerial]; where the data of a box
    begins the parser stops with an error of the model's own, [SpUnmodelledBox]. *)

From stdpp Require Import strings gmap.
From S2P Require Import Prelude Gf2Field SigmaBoolean ConcreteCrypto Vlq Codecs SigmaSerial BigNum Header Types TypeSerial TypeParse Expr Value EvalOps EvalConcrete BigIntSerial.
#[local] Open Scope Z_scope.

(** * A writer that adds up its cost *)

(** The bytes and the [serialize_cost_accum] of the writer. *)
Definition written : Type := list Z * Z.

Definition PUT_BYTE_COST : Z := 1.
Definition PUT_NUMERIC_COST : Z := 3.
Definition PUT_CHUNK_BASE_COST : Z := 3.
Definition put_chunk_cost (n : nat) : Z := PUT_CHUNK_BASE_COST + Z.of_nat n.

(** What is put, with the cost that is added after it; the writers of numbers that give [None] panic. *)
Definition w_put (bytes : option (list Z)) (cost : Z) : result SigmaSerializationError written :=
  bytes ← ok_or bytes SerPanic; Ok (bytes, cost).
Definition w_seq (a b : result SigmaSerializationError written) : result SigmaSerializationError written :=
  x ← a; y ← b; Ok (x.1 ++ y.1, x.2 + y.2).
Definition w_list {A} (f : A -> result SigmaSerializationError written) (items : list A) : result SigmaSerializationError written :=
  foldr (fun x out => w_seq (f x) out) (Ok ([], 0)) items.

(** * Strings *)

(** The next step of [core::str::lossy::Utf8Chunks]: whether a character is complete, and the bytes it looks at. *)
Definition utf8_step (l : list Z) : bool * nat :=
  match l with
  | [] => (false, 0%nat)
  | b :: l =>
      if b <? 128 then (true, 1%nat)
      else if in_range 194 223 b then if is_continuation (l !!! 0%nat) then (true, 2%nat) else (false, 1%nat)
      else if in_range 224 239 b then
        if second_of_three b (l !!! 0%nat) then if is_continuation (l !!! 1%nat) then (true, 3%nat) else (false, 2%nat)
        else (false, 1%nat)
      else if in_range 240 244 b then
        if second_of_four b (l !!! 0%nat) then
          if is_continuation (l !!! 1%nat) then if is_continuation (l !!! 2%nat) then (true, 4%nat) else (false, 3%nat)
          else (false, 2%nat)
        else (false, 1%nat)
      else (false, 1%nat)
  end.

Fixpoint lossy_loop (fuel : nat) (bytes : list Z) : list Z :=
  match fuel, bytes with
  | S fuel, _ :: _ =>
      let '(valid, n) := utf8_step bytes in
      (if valid then take n bytes else REPLACEMENT) ++ lossy_loop fuel (drop n bytes)
  | _, _ => []
  end.

(** [String::from_utf8_lossy] *)
Definition from_utf8_lossy (bytes : list Z) : list Z := lossy_loop (length bytes) bytes.

(** * AVL tree data *)

Definition flags_new (insert_allowed update_allowed remove_allowed : bool) : Z :=
  let read_only := 0 in
  let i := if insert_allowed then Z.lor read_only 1 else read_only in
  let u := if update_allowed then Z.lor i 2 else i in
  if remove_allowed then Z.lor u 4 else u.
Definition flags_parse (serialized_flags : Z) : Z :=
  flags_new (negb (Z.land serialized_flags 1 =? 0)) (negb (Z.land serialized_flags 2 =? 0)) (negb (Z.land serialized_flags 4 =? 0)).

Definition avl_tree_serialize (t : AvlTreeData) : result SigmaSerializationError written :=
  w_seq (w_put (Some (digest t)) (put_chunk_cost 33))
  (w_seq (w_put (Some (put_u8 (tree_flags t))) PUT_BYTE_COST)
  (w_seq (w_put (put_u32 (key_length t)) 0)
         (w_put (put_option put_u32 (value_length_opt t)) PUT_BYTE_COST))).

(** * Data *)

(** A type whose data takes no bytes. *)
Fixpoint is_zero_width (tpe : SType) : bool :=
  match tpe with
  | SUnit => true
  | SColl elem_tpe => is_zero_width elem_tpe
  | STuple items => forallb is_zero_width items
  | _ => false
  end.

(** The bytes of an [ErgoBox] and their cost, for the writer. The parser of a box is not modelled: it reads a tree and registers on
    the same reader, whose level, types and constants a tree that degrades leaves changed. *)
Class BoxSerial (Bx : ErgoBoxData) : Type := {
  box_serialize : ErgoBox -> result SigmaSerializationError (list Z * Z)
}.

Definition GROUP_SIZE : nat := 33.

Section serialize.
Context `{C : SigmaCrypto} {B : NumBigint} {Bx : ErgoBoxData} {BS : BoxSerial Bx} {N : BnumBytes}.
Context (tree_version : Z).

(** The costs of a proposition's nodes: the op code, the counts and the points. *)
Fixpoint sigma_cost (sb : SigmaBoolean) : Z :=
  PUT_BYTE_COST +
  match sb with
  | ProofOfKnowledge (ProveDlog _) => put_chunk_cost GROUP_SIZE
  | ProofOfKnowledge (ProveDhTuple _ _ _ _) => 4 * put_chunk_cost GROUP_SIZE
  | SigmaConjecture c items =>
      (match c with Cthreshold _ => 2 * PUT_NUMERIC_COST | _ => PUT_NUMERIC_COST end) + foldr (fun x acc => sigma_cost x + acc) 0 items
  | TrivialProp _ => 0
  end.

(** The costs of a header's fields. *)
Definition header_cost (h : Header) : Z :=
  PUT_BYTE_COST + put_chunk_cost 32 + put_chunk_cost 32 + put_chunk_cost 32 + put_chunk_cost 33 + PUT_NUMERIC_COST +
  put_chunk_cost 32 + put_chunk_cost 4 + put_chunk_cost 3 +
  (if version h >? 1 then PUT_BYTE_COST + put_chunk_cost (length (unparsed_bytes h)) else 0) +
  put_chunk_cost GROUP_SIZE + (if version h =? 1 then put_chunk_cost GROUP_SIZE else 0) + put_chunk_cost 8 +
  (if version h =? 1 then
     let d_len := match pow_distance (autolykos_solution h) with
                  | None => 0%nat
                  | Some d => if d =? 0 then 0%nat else length (to_bytes_be d)
                  end in
     PUT_BYTE_COST + put_chunk_cost d_len
   else 0).

(** A size in two bytes at most and the bytes. *)
Definition sized_bytes (bytes : list Z) : result SigmaSerializationError written :=
  w_seq (w_put (put_u16 (wrap_u 16 (Z.of_nat (length bytes)))) PUT_NUMERIC_COST)
        (w_put (Some bytes) (put_chunk_cost (length bytes))).

(** [try_extract_into::<bool>] of each item. *)
Definition extract_bools (items : list Literal) : result SigmaSerializationError (list bool) :=
  mapM_res (fun i => match i with LBoolean b => Ok b | _ => Err SerUnexpectedValue end) items.

(** [DataSerializer::sigma_serialize] *)
Fixpoint data_serialize (c : Literal) : result SigmaSerializationError written :=
  match c with
  | LUnit => Ok ([], 0)
  | LBoolean v => w_put (Some (put_u8 (if v then 1 else 0))) PUT_BYTE_COST
  | LByte v => w_put (Some (put_i8 v)) PUT_BYTE_COST
  | LShort v => w_put (put_i16 v) PUT_NUMERIC_COST
  | LInt v => w_put (put_i32 v) PUT_NUMERIC_COST
  | LLong v => w_put (put_i64 v) PUT_NUMERIC_COST
  | LBigInt v => sized_bytes (bigint_to_be_vec v)
  | LString s =>
      w_seq (w_put (put_usize_as_u32_unwrapped (length s)) PUT_NUMERIC_COST) (w_put (Some s) (put_chunk_cost (length s)))
  | LGroupElement ecp => w_put (Some (ec_point_bytes ecp)) (put_chunk_cost GROUP_SIZE)
  | LSigmaProp s => bytes ← sigma_serialize s; Ok (bytes, sigma_cost s)
  | LUnsignedBigInt v => if V3 <=? tree_version then sized_bytes (unsigned_to_be_vec v) else Err SerNotSupported
  | LAvlTree a => avl_tree_serialize a
  | LCBox b => box_serialize b
  | LColl (Native (CollByte b)) =>
      w_seq (w_put (put_usize_as_u16_unwrapped (length b)) PUT_NUMERIC_COST) (w_put (Some (as_vec_u8 b)) (put_chunk_cost (length b)))
  | LColl (WrappedColl elem_tpe v) =>
      let count := w_put (put_usize_as_u16_unwrapped (length v)) PUT_NUMERIC_COST in
      match elem_tpe with
      | SBoolean => w_seq count (bools ← extract_bools v; w_put (Some (put_bits bools)) (put_chunk_cost (length v)))
      | _ => if is_zero_width elem_tpe then Err SerNotSupported else w_seq count (w_list data_serialize v)
      end
  | LTup items => w_list data_serialize items
  | LHeader h =>
      if V3 <=? tree_version then bytes ← result_map_err SerScorex (header_serialize h); Ok (bytes, header_cost h)
      else Err SerNotSupported
  | LOpt opt =>
      if V3 <=? tree_version then
        match opt with
        | Some v => w_seq (w_put (Some (put_u8 1)) 0) (w_seq (data_serialize v) (Ok ([], PUT_BYTE_COST)))
        | None => w_put (Some (put_u8 0)) PUT_BYTE_COST
        end
      else Err SerNotSupported
  end.

(** [SigmaSerializable for Constant], without the costs. *)
Definition constant_serialize (c : Constant) : result SigmaSerializationError (list Z) :=
  tpe ← stype_serialize tree_version (const_tpe c);
  v ← data_serialize (const_v c);
  Ok (tpe ++ v.1).
End serialize.

(** * Parsing *)

Section parse.
Context `{C : SigmaCrypto} `{P : !SigmaCryptoParsing C} {B : NumBigint} {Bx : ErgoBoxData} {M : Bnum} {N : BnumBytes}.
Context (tree_version : Z).

Abbreviation io := (map_st_err sigma_io_error).
Abbreviation vlq := (map_st_err SpVlqEncode).

(** The parser of [BigInt256]. *)
Definition bigint_parse : stateE reader SigmaParsingError Z :=
  size ← count_u16;
  if 32 <? size then fail (SpInvalidBigIntSize size)
  else
    buf ← io (get_bytes_into (Z.to_nat size));
    liftE (ok_or (bigint_from_be_slice buf) (SpInvalidBigIntSize size)).

(** The parser of [UnsignedBigInt]: the bytes end a buffer of 32. *)
Definition unsigned_parse : stateE reader SigmaParsingError Z :=
  size ← count_u16;
  if 32 <? size then fail (SpInvalidBigIntSize size)
  else
    bytes ← io (get_bytes_into (Z.to_nat size));
    liftE (ok_or (u256_from_be_slice (replicate (32 - Z.to_nat size) 0 ++ bytes)) SpValueOutOfBounds).

Definition avl_tree_parse : stateE reader SigmaParsingError AvlTreeData :=
  digest ← map_st_err SpScorex (digest_parse 33);
  serialized_flags ← io get_u8;
  key_length ← vlq get_u32;
  value_length_opt ← get_option sigma_io_error (vlq get_u32);
  mret (mkAvlTreeData digest (flags_parse serialized_flags) key_length value_length_opt).

Definition string_parse : stateE reader SigmaParsingError Literal :=
  len ← vlq get_u32;
  _ ← io (check_remaining len);
  buf ← io (get_bytes_into (Z.to_nat len));
  mret (LString (from_utf8_lossy buf)).

(** One nesting level around a parser. *)
Definition at_next_level {A} (m : stateE reader SigmaParsingError A) : stateE reader SigmaParsingError A :=
  depth ← level;
  _ ← set_level (depth + 1);
  x ← m;
  depth ← level;
  _ ← set_level (depth - 1);
  mret x.

(** The arms of the types without data of other types in it; the other arms are in [data_parse]. *)
Definition leaf_parse (tpe : SType) : stateE reader SigmaParsingError Literal :=
  match tpe with
  | SNoType => fail SpNotSupported
  | SBoolean => b ← io get_u8; mret (LBoolean (negb (b =? 0)))
  | SByte => LByte <$> io get_i8
  | SShort => LShort <$> vlq get_i16
  | SInt => LInt <$> vlq get_i32
  | SLong => LLong <$> vlq get_i64
  | SString => string_parse
  | SBigInt => LBigInt <$> bigint_parse
  | SUnit => mret LUnit
  | SGroupElement => LGroupElement <$> sigma_ec_point
  | SSigmaProp => LSigmaProp <$> sigma_parse
  | SUnsignedBigInt => if V3 <=? tree_version then LUnsignedBigInt <$> unsigned_parse else fail SpNotSupported
  | SBox => fail SpUnmodelledBox
  | SAvlTree => LAvlTree <$> avl_tree_parse
  | SHeader =>
      if V3 <=? tree_version then LHeader <$> map_st_err SpScorex header_parse
      else fail (SpNonSerializableTypeCode (value SHEADER))
  | SVar _ => fail (SpNonSerializableTypeCode (value STYPE_VAR))
  | SAny => fail (SpNonSerializableTypeCode (value SANY))
  | SFunc _ _ _ => fail SpNotSupported
  | SContext => fail (SpNonSerializableTypeCode (value SCONTEXT))
  | SPreHeader => fail (SpNonSerializableTypeCode (value SPRE_HEADER))
  | SGlobal => fail (SpNonSerializableTypeCode (value SGLOBAL))
  | SColl _ | STuple _ | SOption _ => fail SpPanic
  end.

(** [DataSerializer::sigma_parse] *)
Fixpoint data_parse (tpe : SType) : stateE reader SigmaParsingError Literal :=
  at_next_level
    match tpe with
    | SColl elem_type =>
        len ← count_u16;
        match elem_type with
        | SByte =>
            buf ← io (get_bytes_into (Z.to_nat len));
            mret (LColl (Native (CollByte (wrap_s 8 <$> buf))))
        | SBoolean =>
            bools ← vlq (get_bits (Z.to_nat len));
            mret (LColl (WrappedColl SBoolean (LBoolean <$> bools)))
        | _ =>
            if is_zero_width elem_type then fail SpZeroWidthCollection
            else
              elems ← get_list (data_parse elem_type) (Z.to_nat len);
              mret (LColl (WrappedColl elem_type elems))
        end
    | STuple types =>
        items ← mapM_st data_parse types;
        if (2 <=? length items)%nat && (length items <=? 255)%nat then mret (LTup items)
        else fail (SpBoundedVecOutOfBounds (length items))
    | SOption inner_tpe =>
        if V3 <=? tree_version then LOpt <$> get_option sigma_io_error (data_parse inner_tpe)
        else fail SpNotSupported
    | _ => leaf_parse tpe
    end.

(** [Constant::parse_with_tag] and [SigmaSerializable for Constant]. *)
Definition constant_parse_with_tag (tag : Z) : stateE reader SigmaParsingError Constant :=
  tpe ← parse_with_tag tree_version tag;
  v ← data_parse tpe;
  mret (mkConstant tpe v).
Definition constant_parse : stateE reader SigmaParsingError Constant :=
  tag ← io get_u8;
  constant_parse_with_tag tag.
End parse.

(** * The data the format has room for *)

Section data.
Context `{C : SigmaCrypto} {B : NumBigint} {Bx : ErgoBoxData}.
Context (tree_version : Z).

Definition avl_tree_wf (t : AvlTreeData) : Prop :=
  bytes_n 33 (digest t) /\ 0 <= tree_flags t < 8 /\ in_u 32 (key_length t) /\ (forall n, value_length_opt t = Some n -> in_u 32 n).

(** Data of a type, within the ranges of the types and with the counts the format has room for; of boxes there is none here. *)
Inductive data_wf : SType -> Literal -> Prop :=
| wf_unit : data_wf SUnit LUnit
| wf_boolean b : data_wf SBoolean (LBoolean b)
| wf_byte z : in_s 8 z -> data_wf SByte (LByte z)
| wf_short z : in_s 16 z -> data_wf SShort (LShort z)
| wf_int z : in_s 32 z -> data_wf SInt (LInt z)
| wf_long z : in_s 64 z -> data_wf SLong (LLong z)
| wf_string s : byte_list s -> from_utf8_is_ok s = true -> Z.of_nat (length s) < 2 ^ 32 -> data_wf SString (LString s)
| wf_bigint z : in_s 256 z -> data_wf SBigInt (LBigInt z)
| wf_unsigned z : V3 <= tree_version -> in_u 256 z -> data_wf SUnsignedBigInt (LUnsignedBigInt z)
| wf_point p : data_wf SGroupElement (LGroupElement p)
| wf_prop p : bounded p -> data_wf SSigmaProp (LSigmaProp p)
| wf_avl_tree t : avl_tree_wf t -> data_wf SAvlTree (LAvlTree t)
| wf_header h : V3 <= tree_version -> header_wf h -> header_fits h -> data_wf SHeader (LHeader h)
| wf_bytes b : Forall (in_s 8) b -> Z.of_nat (length b) < 2 ^ 16 -> data_wf (SColl SByte) (LColl (Native (CollByte b)))
| wf_coll e items :
    e <> SByte -> is_zero_width e = false -> Z.of_nat (length items) < 2 ^ 16 -> Forall (data_wf e) items ->
    data_wf (SColl e) (LColl (WrappedColl e items))
| wf_option t o : V3 <= tree_version -> (forall x, o = Some x -> data_wf t x) -> data_wf (SOption t) (LOpt o)
| wf_tuple ts items : (2 <= length items <= 255)%nat -> Forall2 data_wf ts items -> data_wf (STuple ts) (LTup items).

(** The nesting levels a literal takes; booleans in a collection take none. *)
Fixpoint data_depth (l : Literal) : nat :=
  match l with
  | LSigmaProp p => S (sb_depth p)
  | LColl (WrappedColl SBoolean _) => 1
  | LColl (WrappedColl _ items) => S (max_list_with data_depth items)
  | LOpt (Some x) => S (data_depth x)
  | LTup items => S (max_list_with data_depth items)
  | _ => 1
  end.

(** What is read of the bytes of a literal: the headers have the hash of their bytes as their id ([header_read]). *)
Fixpoint data_read (l : Literal) : Literal :=
  match l with
  | LHeader h => LHeader (match header_serialize h with Ok k => header_read k h | Err _ => h end)
  | LColl (WrappedColl e items) => LColl (WrappedColl e (map data_read items))
  | LOpt (Some x) => LOpt (Some (data_read x))
  | LTup items => LTup (map data_read items)
  | _ => l
  end.

(** No headers inside. *)
Fixpoint header_free (t : SType) : bool :=
  match t with
  | SHeader => false
  | SColl t | SOption t => header_free t
  | STuple ts => forallb header_free ts
  | _ => true
  end.

Lemma header_free_tuple ts items :
  Forall (fun t => forall l, header_free t = true -> data_wf t l -> data_read l = l) ts ->
  forallb header_free ts = true -> Forall2 data_wf ts items -> map data_read items = items.
Proof.
  intros H Hf. induction 1 as [|t l ts items Hl _ IH]; [done|]. cbn [map forallb] in *. apply Forall_cons in H as [Ht H].
  apply andb_true_iff in Hf as [Hf1 Hf]. f_equal; [by apply Ht|by apply IH].
Qed.

Lemma header_free_read t : forall l, header_free t = true -> data_wf t l -> data_read l = l.
Proof.
  induction t as [v|t Hp| |t IH|t IH|ts IH|? ? ? _ _] using SType_ind'; intros l Hf Hl;
    inversion Hl as [| | | | | | | | | | | | | |? ? ? ? ? Hi|? o ? Ho|? items ? Hi]; subst; try done; cbn [data_read header_free] in *.
  - destruct o as [x|]; [|done]. by rewrite (IH x) by auto.
  - do 2 f_equal. rewrite <- (map_id items) at 2. apply map_ext_in. intros x Hx%list_elem_of_In.
    apply IH; [done|]. by eapply (proj1 (Forall_forall _ _)).
  - f_equal. by apply (header_free_tuple ts).
Qed.
End data.

(** * Reading back, level by level *)

(** A reader at level [n] that finds the bytes [l] gives [x] where [d] more levels are left. *)
Definition back {A} (n : nat) (m : stateE reader SigmaParsingError A) (d : nat) (x : A) (l : list Z) : Prop :=
  forall r, rd_level r = n -> readable (past l r) -> m (before l r) = deep n d (x, past l r).

Lemma deep_0 {A} n (x : A) : (n <= MAX_TREE_DEPTH)%nat -> deep n 0 x = Ok x.
Proof. intros H. unfold deep. by destruct (Nat.leb_spec (n + 0) MAX_TREE_DEPTH); [|lia]. Qed.

Section back.
Context (n : nat) (Hn : (n <= MAX_TREE_DEPTH)%nat).

Lemma back_codec {A} (good : A -> Prop) put (get : stateE reader SigmaParsingError A) `{!Codec good put get} x l :
  good x -> put x = Some l -> back n get 0 x l.
Proof. intros Hx Hl r <- Hr. rewrite deep_0 by done. by apply codec_roundtrip. Qed.

Lemma back_ret {A} (x : A) : back n (mret x) 0 x [].
Proof. intros r <- Hr. by rewrite before_nil, past_nil, deep_0. Qed.

Lemma back_fmap {A A'} (f : A -> A') m d x l : back n m d x l -> back n (f <$> m) d (f x) l.
Proof. intros H r Hr Hread. unfold fmap, stateE_fmap. rewrite H by done. unfold deep. by destruct (_ <=? _)%nat. Qed.

Lemma back_map {A A'} (f : A -> A') m d x l : back n m d x l -> back n (y ← m; mret (f y)) d (f x) l.
Proof. apply back_fmap. Qed.

Lemma back_then {A A'} (m : stateE reader SigmaParsingError A) (f : A -> stateE reader SigmaParsingError A') x l d y k :
  back n m 0 x l -> back n (f x) d y k -> back n (m ≫= f) d y (l ++ k).
Proof.
  intros Hm Hf r Hr Hread. rewrite before_app, <- past_app in *. unfold mbind, stateE_bind.
  rewrite Hm by (done || readable). rewrite deep_0 by done. rewrite past_before. by apply Hf.
Qed.

Lemma back_last {A A'} (m : stateE reader SigmaParsingError A) (f : A -> stateE reader SigmaParsingError A') x l d y :
  back n m d x l -> (forall r, f x r = Ok (y, r)) -> back n (m ≫= f) d y l.
Proof.
  intros Hm Hf r Hr Hread. unfold mbind, stateE_bind. rewrite Hm by done. unfold deep. destruct (_ <=? _)%nat; [by rewrite Hf|done].
Qed.

(** Parsers one after the other. *)
Lemma back_mapM {T A} (f : T -> stateE reader SigmaParsingError A) ts ps ls :
  Forall3 (fun t p l => back n (f t) p.1 p.2 l) ts ps ls ->
  back n (mapM_st f ts) (max_list_with fst ps) (map snd ps) (concat ls).
Proof.
  induction 1 as [|t [d x] l ts ps ls H _ IH]; [apply back_ret|]. intros r Hr Hread. cbn [mapM_st concat map max_list_with fst snd] in *.
  rewrite before_app, <- past_app in *. unfold mbind at 1, stateE_bind at 1. rewrite H by (done || readable). unfold deep. cbn [fst snd].
  rewrite past_before. destruct (Nat.leb_spec (n + d) MAX_TREE_DEPTH).
  - unfold mbind, stateE_bind, mret, stateE_ret. rewrite IH by done. unfold deep.
    destruct (Nat.leb_spec (n + max_list_with fst ps) MAX_TREE_DEPTH),
      (Nat.leb_spec (n + d `max` max_list_with fst ps) MAX_TREE_DEPTH); try lia; done.
  - by destruct (Nat.leb_spec (n + d `max` max_list_with fst ps) MAX_TREE_DEPTH); [lia|].
Qed.
End back.

Lemma get_list_mapM {E T T' A} (f : T -> stateE reader E A) t (l : list T') : get_list (f t) (length l) = mapM_st f (map (fun _ => t) l).
Proof. induction l as [|x l IH]; [done|]. cbn [length get_list map mapM_st]. by rewrite IH. Qed.

(** A level around a parser. *)
Lemma back_next {A} n m d (x : A) l :
  (n <= MAX_TREE_DEPTH)%nat -> ((S n <= MAX_TREE_DEPTH)%nat -> back (S n) m d x l) -> back n (at_next_level m) (S d) x l.
Proof.
  intros Hn H r Hr Hread. unfold at_next_level, mbind, stateE_bind, level, set_level. cbn [before at_bytes rd_level]. unfold deep.
  destruct (Nat.ltb_spec MAX_TREE_DEPTH (rd_level r + 1)).
  { destruct (Nat.leb_spec (n + S d) MAX_TREE_DEPTH); [lia|]. do 2 f_equal. lia. }
  rewrite at_level_before, H by (cbn; lia || done). unfold deep.
  replace (S n + d)%nat with (n + S d)%nat by lia. destruct (n + S d <=? MAX_TREE_DEPTH)%nat; [|done].
  change (rd_level (past l (at_level (rd_level r + 1) r))) with (rd_level r + 1)%nat.
  destruct (Nat.ltb_spec MAX_TREE_DEPTH (rd_level r + 1 - 1)); [lia|]. unfold mret, stateE_ret. do 2 f_equal.
  rewrite !at_level_past. unfold past, at_level. cbn. f_equal. lia.
Qed.

(** * Strings *)

(** A step takes at least one byte, none past the end, and a valid one a character. *)
Lemma utf8_step_spec l : l <> [] ->
  let '(valid, n) := utf8_step l in
  (1 <= n <= 4)%nat /\ from_utf8_is_ok l = valid && from_utf8_is_ok (drop n l) /\
  (valid = true -> (n <= length l)%nat /\ from_utf8_is_ok (take n l) = true).
Proof.
  destruct l as [|b l]; [done|]. intros _. cbn [utf8_step from_utf8_is_ok].
  destruct (b <? 128) eqn:E0; [cbn; rewrite E0; split_and!; try (lia || done); intros _; by split; [lia|]|].
  assert (forall b1, second_of_three b b1 = true -> is_continuation b1 = true) as H3 by (intros b1; apply second_continues).
  assert (forall b1, second_of_four b b1 = true -> is_continuation b1 = true) as H4 by (intros b1; apply second_continues).
  destruct (in_range 194 223 b) eqn:E1; [|destruct (in_range 224 239 b) eqn:E2; [|destruct (in_range 240 244 b) eqn:E3]];
    destruct l as [|b1 [|b2 [|b3 l]]]; cbn [lookup_total list_lookup_total drop];
    repeat match goal with |- context [if ?c then _ else _] => destruct c eqn:? end;
    try (cbn in *; discriminate); split_and!; try lia; try done; try (intros [=]);
    rewrite ?drop_0, ?andb_true_r, ?andb_false_r, ?andb_false_l; try done; cbn [take from_utf8_is_ok length];
    rewrite ?E0, ?E1, ?E2, ?E3; try (split; [lia|]);
    repeat match goal with H : _ = true |- _ => rewrite H end; try done;
    repeat match goal with H : _ = false |- _ => rewrite H end; rewrite ?andb_false_r; done.
Qed.

Lemma lossy_id fuel : forall bytes,
  (length bytes <= fuel)%nat -> from_utf8_is_ok bytes = true -> lossy_loop fuel bytes = bytes.
Proof.
  induction fuel as [|fuel IH]; intros [|b l] Hf H; try done; [cbn in Hf; lia|]. cbn [lossy_loop].
  pose proof (utf8_step_spec (b :: l) ltac:(done)) as Hs. destruct (utf8_step (b :: l)) as [[] n]; destruct Hs as (Hn & E & Hv);
    rewrite E in H; [|done]. destruct (Hv eq_refl) as [Hl _]. rewrite IH; [apply take_drop| |done].
  rewrite length_drop. lia.
Qed.

Lemma lossy_ok fuel : forall bytes, byte_list bytes ->
  from_utf8_is_ok (lossy_loop fuel bytes) = true /\ byte_list (lossy_loop fuel bytes) /\
  (length (lossy_loop fuel bytes) <= 3 * length bytes)%nat.
Proof.
  assert (byte_list REPLACEMENT) as Hr by (unfold REPLACEMENT, byte_list, in_u; repeat (apply Forall_cons; split; [lia|]); constructor).
  induction fuel as [|fuel IH]; intros [|b l] Hb; try (by split_and!; [|constructor|cbn; lia]). cbn [lossy_loop].
  pose proof (utf8_step_spec (b :: l) ltac:(done)) as Hs. destruct (utf8_step (b :: l)) as [valid n]. destruct Hs as (Hn & _ & Hv).
  destruct (IH (drop n (b :: l))) as (H1 & H2 & H3); [by apply Forall_drop|]. rewrite length_drop in H3. destruct valid.
  - destruct (Hv eq_refl) as [Hl Ht]. split_and!; [by apply utf8_chunk|apply Forall_app; split; [by apply Forall_take|done]|].
    rewrite length_app, length_take. lia.
  - split_and!; [by apply utf8_chunk|by apply Forall_app|]. rewrite length_app. cbn [length] in *.
    destruct n; [lia|]. change (length REPLACEMENT) with 3%nat. lia.
Qed.

(** * The round trip *)

Lemma put_u64_loop_length room : forall v l, put_u64_loop room v = Some l -> (length l <= room)%nat.
Proof.
  induction room as [|room IH]; intros v l H; [done|]. cbn [put_u64_loop] in H.
  destruct (_ =? 0); [injection H as <-; cbn; lia|]. destruct (put_u64_loop room _) as [k|] eqn:E; [|done].
  injection H as <-. apply IH in E. cbn. lia.
Qed.

Lemma put_u64_length v l : put_u64 v = Some l -> (length l <= 10)%nat.
Proof. apply put_u64_loop_length. Qed.

Lemma in_s_bytes b : Forall (in_s 8) b -> byte_list (as_vec_u8 b) /\ wrap_s 8 <$> as_vec_u8 b = b.
Proof.
  induction 1 as [|x b Hx _ [IH1 IH2]]; [by split; [constructor|]|]. split.
  - constructor; [apply wrap_u_range; lia|done].
  - change (wrap_s 8 (wrap_u 8 x) :: (wrap_s 8 <$> as_vec_u8 b) = x :: b). by rewrite wrap_s_wrap_u, wrap_s_id, IH2 by (done || lia).
Qed.

Lemma flags_parse_id f : 0 <= f < 8 -> flags_parse f = f.
Proof. intros Hf. assert (f = 0 \/ f = 1 \/ f = 2 \/ f = 3 \/ f = 4 \/ f = 5 \/ f = 6 \/ f = 7) as E by lia. by repeat destruct E as [->|E]; subst. Qed.

Section roundtrip.
Context {C : SigmaCrypto} {L : SigmaCryptoLaws C} {P : SigmaCryptoParsing C} {PL : SigmaCryptoParsingLaws C P}.
Context {B : NumBigint} {BL : NumBigintLaws B} {Bx : ErgoBoxData} {BS : BoxSerial Bx}.
Context {M : Bnum} {ML : BnumLaws M} {N : BnumBytes} {NL : BnumBytesLaws N}.
Context (tree_version : Z).

Abbreviation data_parse := (data_parse tree_version).
Abbreviation data_serialize := (data_serialize tree_version).
Abbreviation data_wf := (data_wf tree_version).
Abbreviation leaf_parse := (leaf_parse tree_version).

(** The literal is written, in not more than four bytes for a unit of cost, and read back. *)
Definition goes (t : SType) (x : Literal) : Prop :=
  exists k c, data_serialize x = Ok (k, c) /\ byte_list k /\ Z.of_nat (length k) <= 4 * c /\
    forall n, (n <= MAX_TREE_DEPTH)%nat -> back n (data_parse t) (data_depth x) (data_read x) k.

Lemma goes_leaf t x k c :
  data_parse t = at_next_level (leaf_parse t) -> data_serialize x = Ok (k, c) -> byte_list k -> Z.of_nat (length k) <= 4 * c ->
  data_depth x = 1%nat -> (forall n, (n <= MAX_TREE_DEPTH)%nat -> back n (leaf_parse t) 0 (data_read x) k) -> goes t x.
Proof. intros Hp Hs Hk Hc Hd Hb. exists k, c. split_and!; try done. intros n Hn. rewrite Hp, Hd. by apply back_next; [|intros; apply Hb]. Qed.

(** A number of some width. *)
Lemma goes_number t (wrap : Z -> Literal) good put get `{!Codec good put get} z c :
  data_parse t = at_next_level (wrap <$> get) -> leaf_parse t = wrap <$> get ->
  data_serialize (wrap z) = w_put (put z) c -> (forall l, put z = Some l -> Z.of_nat (length l) <= 4 * c) ->
  data_depth (wrap z) = 1%nat -> data_read (wrap z) = wrap z -> good z -> goes t (wrap z).
Proof.
  intros Hp Hl Hs Hlen Hd Hr Hz. destruct (codec_puts z Hz) as (l & E & Hb). rewrite E in Hs.
  apply (goes_leaf t (wrap z) l c); try done; [by rewrite Hl|by apply Hlen|]. intros n Hn. rewrite Hl, Hr.
  apply back_fmap. by eapply back_codec.
Qed.

Lemma count_ok (k : nat) : Z.of_nat k < 2 ^ 16 ->
  exists l, put_usize_as_u16_unwrapped k = Some l /\ put_u16 (Z.of_nat k) = Some l /\ byte_list l /\ (length l <= 10)%nat.
Proof.
  intros Hk. unfold put_usize_as_u16_unwrapped. destruct (Z.ltb_spec (Z.of_nat k) (2 ^ 16)); [|lia].
  destruct (put_u16_ok (Z.of_nat k)) as (l & E & Hl); [unfold in_u; lia|]. exists l. split_and!; try done. by eapply put_u64_length.
Qed.

Lemma back_count n (k : nat) l : (n <= MAX_TREE_DEPTH)%nat -> Z.of_nat k < 2 ^ 16 -> put_u16 (Z.of_nat k) = Some l -> back n count_u16 0 (Z.of_nat k) l.
Proof. intros Hn Hk E. apply (back_codec n Hn (in_u 16) put_u16); [unfold count_u16; apply _|unfold in_u; lia|done]. Qed.

Lemma back_bytes n l k : (n <= MAX_TREE_DEPTH)%nat -> byte_list l -> k = length l ->
  back n (map_st_err sigma_io_error (get_bytes_into k)) 0 l l.
Proof.
  intros Hn Hl ->. apply (back_codec n Hn (fun x => length x = length l /\ byte_list x) Some); [|done|done].
  apply map_err_codec, bytes_into_codec.
Qed.

(** A size and the bytes. *)
Lemma sized_bytes_ok l : byte_list l -> (length l <= 32)%nat ->
  exists h, sized_bytes l = Ok (h ++ l, PUT_NUMERIC_COST + put_chunk_cost (length l)) /\ byte_list h /\ (length h <= 10)%nat /\
    put_u16 (Z.of_nat (length l)) = Some h.
Proof.
  intros Hl Hlen. unfold sized_bytes. rewrite wrap_u_id by (unfold in_u; lia).
  destruct (count_ok (length l)) as (h & _ & E & Hh & Hlh); [lia|]. exists h. rewrite E. by split_and!.
Qed.

Lemma goes_bigint z : in_s 256 z -> goes SBigInt (LBigInt z).
Proof.
  intros Hz. pose proof (bigint_to_be_vec_length z Hz) as Hl. pose proof (bigint_to_be_vec_range z Hz) as Hb.
  destruct (sized_bytes_ok (bigint_to_be_vec z) Hb ltac:(lia)) as (h & Hs & Hh & Hlh & Eh).
  apply (goes_leaf SBigInt (LBigInt z) _ _ eq_refl Hs); try done.
  - by apply Forall_app.
  - rewrite length_app. unfold PUT_NUMERIC_COST, put_chunk_cost, PUT_CHUNK_BASE_COST. lia.
  - intros n Hn. apply back_fmap. unfold bigint_parse. apply back_then with (x := Z.of_nat (length (bigint_to_be_vec z))); [done|apply back_count; [done|lia|done]|].
    destruct (Z.ltb_spec 32 (Z.of_nat (length (bigint_to_be_vec z)))); [lia|]. rewrite Nat2Z.id.
    eapply back_last; [by apply back_bytes|]. intros r. unfold liftE. by rewrite bigint_back.
Qed.

Lemma goes_unsigned z : V3 <= tree_version -> in_u 256 z -> goes SUnsignedBigInt (LUnsignedBigInt z).
Proof.
  intros Hv Hz. destruct (unsigned_back z Hz) as (Hl & Hb & Hback).
  destruct (sized_bytes_ok (unsigned_to_be_vec z) Hb Hl) as (h & Hs & Hh & Hlh & Eh).
  assert (V3 <=? tree_version = true) as Ev by by apply Z.leb_le.
  apply (goes_leaf _ _ (h ++ unsigned_to_be_vec z) (PUT_NUMERIC_COST + put_chunk_cost (length (unsigned_to_be_vec z)))); try done.
  - cbn [DataSerial.data_serialize]. by rewrite Ev.
  - by apply Forall_app.
  - rewrite length_app. unfold PUT_NUMERIC_COST, put_chunk_cost, PUT_CHUNK_BASE_COST. lia.
  - intros n Hn. cbn [DataSerial.leaf_parse]. rewrite Ev. apply back_fmap. unfold unsigned_parse.
    apply back_then with (x := Z.of_nat (length (unsigned_to_be_vec z))); [done|apply back_count; [done|lia|done]|].
    destruct (Z.ltb_spec 32 (Z.of_nat (length (unsigned_to_be_vec z)))); [lia|]. rewrite Nat2Z.id.
    eapply back_last; [by apply back_bytes|]. intros r. unfold liftE. by rewrite Hback.
Qed.

Lemma back_u8 n v : (n <= MAX_TREE_DEPTH)%nat -> in_u 8 v -> back n (map_st_err sigma_io_error get_u8) 0 v [v].
Proof. intros Hn Hv. apply (back_codec n Hn (in_u 8) (fun v => Some (put_u8 v))); [apply _|done|done]. Qed.

Lemma goes_avl_tree t : avl_tree_wf t -> goes SAvlTree (LAvlTree t).
Proof.
  intros ([Hdl Hdb] & Hf & Hk & Hv). destruct t as [d f k v]; cbn [digest tree_flags key_length value_length_opt] in *.
  destruct (codec_puts (Codec := u32_codec) k Hk) as (kl & Ek & Hkl). pose proof (put_u64_length k kl Ek) as Hkn.
  assert (Codec (fun o => forall x, o = Some x -> in_u 32 x) (put_option put_u32) (get_option sigma_io_error (map_st_err SpVlqEncode get_u32))) as Hc by apply _.
  destruct (codec_puts (Codec := Hc) v Hv) as (vl & Ev & Hvl). assert (length vl <= 11)%nat as Hvn.
  { destruct v as [v|]; cbn [put_option] in Ev; [|injection Ev as <-; cbn; lia].
    destruct (put_u32 v) as [l|] eqn:El; [|done]. injection Ev as <-. apply put_u64_length in El. cbn. lia. }
  apply (goes_leaf SAvlTree (LAvlTree (mkAvlTreeData d f k v)) (d ++ [f] ++ kl ++ vl) (put_chunk_cost 33 + (PUT_BYTE_COST + (0 + PUT_BYTE_COST))));
    try done.
  - cbn [DataSerial.data_serialize]. unfold avl_tree_serialize, w_put. cbn [digest tree_flags key_length value_length_opt]. by rewrite Ek, Ev.
  - repeat (apply Forall_app; split); try done. apply Forall_singleton. unfold in_u. lia.
  - rewrite !length_app, Hdl. cbn [length]. unfold put_chunk_cost, PUT_CHUNK_BASE_COST, PUT_BYTE_COST. lia.
  - intros n Hn. apply back_fmap. unfold avl_tree_parse. apply back_then with (x := d); [done| |].
    { unfold digest_parse. apply (back_codec n Hn (fun l => length l = 33%nat /\ byte_list l) Some); [|done|done].
      do 2 apply map_err_codec. apply bytes_into_codec. }
    apply back_then with (x := f); [done|apply back_u8; [done|unfold in_u; lia]|].
    apply back_then with (x := k); [done|apply (back_codec n Hn (in_u 32) put_u32); [apply _|done|done]|].
    rewrite flags_parse_id by done. by eapply back_map, (back_codec n Hn _ _ _ v vl Hv Ev).
Qed.

Lemma goes_string s : byte_list s -> from_utf8_is_ok s = true -> Z.of_nat (length s) < 2 ^ 32 -> goes SString (LString s).
Proof.
  intros Hb Hu Hl. destruct (codec_puts (Codec := u32_codec) (Z.of_nat (length s))) as (h & Eh & Hh); [unfold in_u; lia|].
  pose proof (put_u64_length _ _ Eh) as Hhn.
  apply (goes_leaf SString (LString s) (h ++ s) (PUT_NUMERIC_COST + put_chunk_cost (length s))); try done.
  - cbn [DataSerial.data_serialize]. unfold put_usize_as_u32_unwrapped, w_put. destruct (Z.ltb_spec (Z.of_nat (length s)) (2 ^ 32)); [|lia]. by rewrite Eh.
  - by apply Forall_app.
  - rewrite length_app. unfold PUT_NUMERIC_COST, put_chunk_cost, PUT_CHUNK_BASE_COST. lia.
  - intros n Hn. cbn [DataSerial.leaf_parse]. unfold string_parse.
    apply back_then with (x := Z.of_nat (length s)); [done|apply (back_codec n Hn (in_u 32) put_u32); [apply _|unfold in_u; lia|done]|].
    rewrite Nat2Z.id. intros r Hr Hread. unfold mbind at 1, stateE_bind at 1, map_st_err at 1, check_remaining.
    cbn [before at_bytes rd_bytes]. rewrite length_app, Z.gtb_ltb.
    destruct (Z.ltb_spec (Z.of_nat (length s + length (rd_bytes r))) (Z.of_nat (length s))); [lia|]. cbn [result_map_err data_read].
    clear H. revert r Hr Hread.
    change (back n (buf ← map_st_err sigma_io_error (get_bytes_into (length s)); mret (LString (from_utf8_lossy buf))) 0 (LString s) s).
    rewrite <- (lossy_id (length s) s) at 2 by done.
    apply (back_map n (fun buf => LString (from_utf8_lossy buf))). by apply back_bytes.
Qed.

(** The bytes of a proposition are covered by the costs of its nodes. *)
Lemma sigma_cost_covers sb : forall k, sigma_serialize sb = Ok k -> Z.of_nat (length k) <= 4 * sigma_cost sb.
Proof.
  induction sb as [b|t|c items IH] using SigmaBoolean_ind'; intros k Hk.
  - injection Hk as <-. cbn. unfold PUT_BYTE_COST. lia.
  - injection Hk as <-. destruct t; cbn [pok_serialize length app put_u8 sigma_cost]; rewrite ?length_app, !ec_point_bytes_len;
      unfold put_chunk_cost, PUT_CHUNK_BASE_COST, PUT_BYTE_COST, GROUP_SIZE; lia.
  - cbn [sigma_serialize] in Hk. apply bind_Ok_inv in Hk as (h & Hh & Hk). apply bind_Ok_inv in Hk as (ls & Hls & Hk). injection Hk as <-.
    assert (Z.of_nat (length (concat ls)) <= 4 * foldr (fun x acc => sigma_cost x + acc) 0 items) as Hitems.
    { apply mapM_res_Forall2 in Hls. clear Hh h. induction Hls as [|x l items ls Hx _ IHls]; [done|].
      apply Forall_cons in IH as [IHx IH]. specialize (IHls IH). apply IHx in Hx. cbn [concat foldr]. rewrite length_app. lia. }
    assert (Z.of_nat (length h) <= 4 * (match c with Cthreshold _ => 2 * PUT_NUMERIC_COST | _ => PUT_NUMERIC_COST end)) as Hhead.
    { unfold PUT_NUMERIC_COST. destruct c as [| |t]; cbn [conj_header] in Hh.
      1-2: destruct (_ <? _); [|done]; destruct (put_u16 _) as [l|] eqn:E; [|done]; injection Hh as ->; apply put_u64_length in E; lia.
      destruct (put_u16 t) as [l|] eqn:E; [|done]. destruct (put_u16 (wrap_u 16 _)) as [l2|] eqn:E2; [|done]. injection Hh as <-.
      apply put_u64_length in E, E2. rewrite length_app. lia. }
    cbn [sigma_cost]. unfold put_u8. cbn [app length]. rewrite length_app. unfold PUT_BYTE_COST. lia.
Qed.

Lemma goes_prop p : bounded p -> goes SSigmaProp (LSigmaProp p).
Proof.
  intros Hp. destruct (sigma_serialize_ok p Hp) as (k & Ek & Hk). exists k, (sigma_cost p). split_and!; [|done|by apply sigma_cost_covers|].
  - cbn [DataSerial.data_serialize]. by rewrite Ek.
  - intros n Hn. cbn [data_depth data_read]. apply back_next; [done|]. intros HS. apply back_fmap. intros r Hr Hread.
    rewrite <- Hr. apply sigma_parse_back; try done. by rewrite Hr.
Qed.

Lemma goes_point p : goes SGroupElement (LGroupElement p).
Proof.
  apply (goes_leaf SGroupElement (LGroupElement p) (ec_point_bytes p) (put_chunk_cost GROUP_SIZE)); try done.
  - apply ec_point_bytes_range.
  - rewrite ec_point_bytes_len. unfold put_chunk_cost, PUT_CHUNK_BASE_COST, GROUP_SIZE. lia.
  - intros n Hn. apply back_fmap. intros r <- Hr. rewrite deep_0 by done. by apply sigma_ec_point_back.
Qed.

(** The bytes of a header are covered too. *)
Lemma header_cost_covers h k : header_wf h -> header_fits h -> header_serialize h = Ok k -> Z.of_nat (length k) <= 4 * header_cost h.
Proof.
  intros (Hv & [Hpid _] & [Had _] & [Hst _] & [Htx _] & Hts & Hnb & Hht & [Hex _] & [Hvo _] & Hun & Hsol) [[Hnl Hfit] Hfun] Hk.
  apply bind_Ok_inv in Hk as (front & Hfront & Hk). apply bind_Ok_inv in Hk as (sol & Hs & Hk). apply (inj Ok) in Hk as <-.
  unfold serialize_without_pow in Hfront. destruct (put_u64 (timestamp h)) as [ts|] eqn:Ets; [|done].
  destruct (put_u32 (height h)) as [ht|] eqn:Eht; [|done]. cbn [ok_or mbind result_bind] in Hfront.
  destruct (put_unparsed h) as [un|] eqn:Eun; [|done]. apply (inj Ok) in Hfront as <-. apply put_u64_length in Ets, Eht.
  assert (Z.of_nat (length un) <= 4 * (if version h >? 1 then PUT_BYTE_COST + put_chunk_cost (length (unparsed_bytes h)) else 0)) as Hunl.
  { unfold put_unparsed, has_new_fields, PUT_BYTE_COST, put_chunk_cost, PUT_CHUNK_BASE_COST in *. rewrite Z.gtb_ltb.
    destruct (Z.ltb_spec 1 (wrap_s 8 (version h))) as [Hw|_]; [|injection Eun as <-; cbn; destruct (1 <? version h); lia].
    destruct (Z.ltb_spec 1 (version h)) as [_|Hle].
    - unfold guard_or in Eun. destruct (_ <? _); [|done]. injection Eun as <-. cbn [put_u8 app length]. lia.
    - unfold in_u in Hv. rewrite wrap_s_id in Hw by (unfold in_s; lia). lia. }
  assert (Z.of_nat (length sol) <= 4 * (put_chunk_cost GROUP_SIZE + (if version h =? 1 then put_chunk_cost GROUP_SIZE else 0) +
    put_chunk_cost 8 + (if version h =? 1 then PUT_BYTE_COST + put_chunk_cost (match pow_distance (autolykos_solution h) with
       None => 0%nat | Some d => if d =? 0 then 0%nat else length (to_bytes_be d) end) else 0))) as Hsl.
  { unfold solution_bytes in Hs. destruct (version h =? 1).
    - destruct (pow_onetime_pk _) as [pk|]; [|done]. destruct (pow_distance _) as [d|]; [|done]. cbn [ok_or mbind result_bind] in Hs. injection Hs as <-.
      rewrite !length_app, !ec_point_bytes_len, Hnl. unfold distance_bytes. destruct (d =? 0); cbn [put_u8 length];
        unfold PUT_BYTE_COST, put_chunk_cost, PUT_CHUNK_BASE_COST, GROUP_SIZE; lia.
    - injection Hs as <-. rewrite length_app, ec_point_bytes_len, Hnl. unfold put_chunk_cost, PUT_CHUNK_BASE_COST, GROUP_SIZE. lia. }
  unfold header_cost. rewrite !length_app, length_be_bytes, Hpid, Had, Hst, Htx, Hex, Hvo. cbn [put_u8 length].
  rewrite !Nat2Z.inj_add. unfold put_chunk_cost in *. cbn [Z.of_nat] in *. unfold PUT_CHUNK_BASE_COST, PUT_NUMERIC_COST, PUT_BYTE_COST in *. lia.
Qed.

Lemma goes_header h : V3 <= tree_version -> header_wf h -> header_fits h -> goes SHeader (LHeader h).
Proof.
  intros Hv Hwf Hfit. destruct (header_serialize_ok h Hwf Hfit) as (k & Ek & Hk).
  assert (V3 <=? tree_version = true) as Ev by by apply Z.leb_le.
  apply (goes_leaf SHeader (LHeader h) k (header_cost h)); try done.
  - cbn [DataSerial.data_serialize]. by rewrite Ev, Ek.
  - by apply header_cost_covers.
  - intros n Hn. cbn [DataSerial.leaf_parse data_read]. rewrite Ev, Ek. apply back_fmap. intros r <- Hr. rewrite deep_0 by done.
    unfold map_st_err. by rewrite (header_back h k).
Qed.

Lemma goes_bytes b : Forall (in_s 8) b -> Z.of_nat (length b) < 2 ^ 16 -> goes (SColl SByte) (LColl (Native (CollByte b))).
Proof.
  intros Hb Hl. destruct (in_s_bytes b Hb) as [Hu Hid]. destruct (count_ok (length b) Hl) as (h & Eh & Eh' & Hh & Hhl).
  assert (length (as_vec_u8 b) = length b) as Hlen by apply length_fmap.
  exists (h ++ as_vec_u8 b), (PUT_NUMERIC_COST + put_chunk_cost (length b)). split_and!.
  - cbn [DataSerial.data_serialize]. unfold w_put. by rewrite Eh.
  - by apply Forall_app.
  - rewrite length_app, Hlen. unfold PUT_NUMERIC_COST, put_chunk_cost, PUT_CHUNK_BASE_COST. lia.
  - intros n Hn. cbn [data_depth data_read DataSerial.data_parse]. apply back_next; [done|]. intros HS.
    apply back_then with (x := Z.of_nat (length b)); [done|by apply back_count|]. rewrite Nat2Z.id, <- Hlen.
    rewrite <- Hid at 2. apply (back_map (S n) (fun buf => LColl (Native (CollByte (wrap_s 8 <$> buf))))). by apply back_bytes.
Qed.

Lemma boolean_items items : Forall (data_wf SBoolean) items -> exists bs, items = LBoolean <$> bs /\ extract_bools items = Ok bs.
Proof.
  induction 1 as [|x items Hx _ (bs & -> & IH)]; [by exists []|]. inversion Hx as [|b| | | | | | | | | | | | | | |]; subst. exists (b :: bs).
  split; [done|]. unfold extract_bools in *. cbn. by rewrite IH.
Qed.

Lemma goes_booleans items : Z.of_nat (length items) < 2 ^ 16 -> Forall (data_wf SBoolean) items -> goes (SColl SBoolean) (LColl (WrappedColl SBoolean items)).
Proof.
  intros Hl Hi. destruct (boolean_items items Hi) as (bs & -> & Ebs). rewrite length_fmap in Hl.
  destruct (count_ok (length bs) Hl) as (h & Eh & Eh' & Hh & Hhl). destruct (put_bits_bits (length bs) bs) as (k & Ek & Hb); [done|].
  pose proof (put_bits_length bs) as Hbl.
  exists (h ++ put_bits bs), (PUT_NUMERIC_COST + put_chunk_cost (length bs)). split_and!.
  - cbn [DataSerial.data_serialize]. rewrite length_fmap, Ebs. unfold w_put. by rewrite Eh.
  - by apply Forall_app.
  - rewrite length_app, Hbl. unfold div_ceil_8. pose proof (Nat.Div0.div_le_upper_bound (length bs + 7) 8 (length bs + 1) ltac:(lia)).
    unfold PUT_NUMERIC_COST, put_chunk_cost, PUT_CHUNK_BASE_COST. lia.
  - intros n Hn. cbn [data_depth data_read DataSerial.data_parse]. apply back_next; [done|]. intros HS.
    assert (map data_read (LBoolean <$> bs) = LBoolean <$> bs) as -> by (clear; induction bs; [done|cbn; by f_equal]).
    apply back_then with (x := Z.of_nat (length bs)); [done|by apply back_count|]. rewrite Nat2Z.id.
    apply (back_map (S n) (fun bools => LColl (WrappedColl SBoolean (LBoolean <$> bools)))).
    intros r Hr Hread. rewrite deep_0 by done. unfold get_bits, mbind, stateE_bind, map_st_err.
    rewrite (check_readable (before (put_bits bs) r)) by by eapply before_readable. cbn [result_map_err].
    rewrite rd_exact_before by done. cbn [result_map_err]. rewrite Ek. by rewrite take_app_length.
Qed.

(** Several literals one after the other. *)
Lemma goes_items ts items : Forall2 goes ts items ->
  exists ks c, w_list data_serialize items = Ok (concat ks, c) /\ byte_list (concat ks) /\ Z.of_nat (length (concat ks)) <= 4 * c /\
    forall n, (n <= MAX_TREE_DEPTH)%nat ->
      Forall3 (fun t p l => back n (data_parse t) p.1 p.2 l) ts (map (fun x => (data_depth x, data_read x)) items) ks.
Proof.
  induction 1 as [|t x ts items (k & c & Ek & Hk & Hc & Hb) _ (ks & cs & Eks & Hks & Hcs & Hbs)].
  - exists [], 0. split_and!; [done|constructor|done|]. constructor.
  - exists (k :: ks), (c + cs). cbn [w_list foldr concat map]. change (foldr _ _ items) with (w_list data_serialize items).
    rewrite Ek, Eks. split_and!; [done|by apply Forall_app|rewrite length_app; lia|]. intros n Hn. constructor; [by apply Hb|by apply Hbs].
Qed.

Lemma depths_fst items : max_list_with fst (map (fun x => (data_depth x, data_read x)) items) = max_list_with data_depth items.
Proof. induction items as [|x items IH]; [done|]. cbn. by rewrite IH. Qed.

Lemma reads_snd items : map snd (map (fun x => (data_depth x, data_read x)) items) = map data_read items.
Proof. by rewrite map_map. Qed.

(** The general collection, written and read. *)
Lemma coll_forms e items : e <> SByte -> e <> SBoolean -> is_zero_width e = false ->
  data_serialize (LColl (WrappedColl e items)) = w_seq (w_put (put_usize_as_u16_unwrapped (length items)) PUT_NUMERIC_COST) (w_list data_serialize items) /\
  data_parse (SColl e) = at_next_level (len ← count_u16; elems ← get_list (data_parse e) (Z.to_nat len); mret (LColl (WrappedColl e elems))) /\
  data_depth (LColl (WrappedColl e items)) = S (max_list_with data_depth items).
Proof.
  intros H1 H2 H3. split_and!.
  - cbn [DataSerial.data_serialize]. rewrite H3. by destruct e.
  - cbn [DataSerial.data_parse]. rewrite H3. by destruct e.
  - by destruct e.
Qed.

Lemma goes_coll e items :
  e <> SByte -> e <> SBoolean -> is_zero_width e = false -> Z.of_nat (length items) < 2 ^ 16 -> Forall (goes e) items ->
  goes (SColl e) (LColl (WrappedColl e items)).
Proof.
  intros H1 H2 H3 Hl Hi. destruct (coll_forms e items H1 H2 H3) as (Es & Ep & Ed).
  destruct (count_ok (length items) Hl) as (h & Eh & Eh' & Hh & Hhl).
  destruct (goes_items (map (fun _ => e) items) items) as (ks & c & Eks & Hks & Hc & Hb).
  { clear -Hi. induction Hi; constructor; done. }
  exists (h ++ concat ks), (PUT_NUMERIC_COST + c). split_and!.
  - rewrite Es, Eks. unfold w_put. by rewrite Eh.
  - by apply Forall_app.
  - rewrite length_app. unfold PUT_NUMERIC_COST. lia.
  - intros n Hn. rewrite Ep, Ed. cbn [data_read]. apply back_next; [done|]. intros HS.
    apply back_then with (x := Z.of_nat (length items)); [done|by apply back_count|]. rewrite Nat2Z.id, get_list_mapM.
    apply (back_map (S n) (fun elems => LColl (WrappedColl e elems))). rewrite <- depths_fst, <- reads_snd. by apply back_mapM, Hb.
Qed.

Lemma goes_tuple ts items : (2 <= length items <= 255)%nat -> Forall2 goes ts items -> goes (STuple ts) (LTup items).
Proof.
  intros Hl Hi. destruct (goes_items ts items Hi) as (ks & c & Eks & Hks & Hc & Hb). exists (concat ks), c. split_and!; try done.
  intros n Hn. cbn [data_depth data_read DataSerial.data_parse]. apply back_next; [done|]. intros HS.
  rewrite <- depths_fst. eapply back_last; [by apply back_mapM, Hb|]. intros r. cbv beta. rewrite reads_snd, length_map.
  by rewrite (proj2 (Nat.leb_le 2 _)), (proj2 (Nat.leb_le _ 255)) by lia.
Qed.

Lemma goes_option t o : V3 <= tree_version -> (forall x, o = Some x -> goes t x) -> goes (SOption t) (LOpt o).
Proof.
  intros Hv Ho. assert (V3 <=? tree_version = true) as Ev by by apply Z.leb_le. destruct o as [x|].
  - destruct (Ho x eq_refl) as (k & c & Ek & Hk & Hc & Hb). exists (1 :: k), (c + PUT_BYTE_COST). split_and!.
    + cbn [DataSerial.data_serialize]. rewrite Ev, Ek. cbn. by rewrite app_nil_r.
    + by constructor.
    + cbn [length]. unfold PUT_BYTE_COST. lia.
    + intros n Hn. cbn [data_depth data_read DataSerial.data_parse]. rewrite Ev. apply back_next; [done|]. intros HS. apply back_fmap.
      unfold get_option. change (1 :: k) with ([1] ++ k). apply back_then with (x := 1); [done|by apply back_u8|]. cbn [Z.eqb negb].
      by apply back_map, Hb.
  - exists [0], PUT_BYTE_COST. split_and!; [by cbn [DataSerial.data_serialize]; rewrite Ev|by repeat constructor|done|].
    intros n Hn. cbn [data_depth data_read DataSerial.data_parse]. rewrite Ev. apply back_next; [done|]. intros HS. apply back_fmap.
    unfold get_option. eapply back_last; [by apply back_u8|done].
Qed.

(** Every literal within the format's bounds. *)
Lemma data_goes t : forall x, data_wf t x -> goes t x.
Proof.
  induction t as [v|t Hp| |t IH|t IH|ts IH|? ? ? _ _] using SType_ind'; intros x Hx.
  - inversion Hx.
  - inversion Hx; subst; try done.
    + by apply (goes_leaf SUnit LUnit [] 0); try (done || constructor); intros n Hn; apply back_ret.
    + apply (goes_leaf SBoolean (LBoolean b) [if b then 1 else 0] PUT_BYTE_COST); try done; [by destruct b; repeat constructor|].
      intros n Hn. eapply back_last; [apply back_u8; [done|by destruct b]|]. by destruct b.
    + apply (goes_number SByte LByte (in_s 8) (fun v => Some (put_i8 v)) _ z PUT_BYTE_COST); try done. by intros l [= <-].
    + apply (goes_number SShort LShort (in_s 16) put_i16 _ z PUT_NUMERIC_COST); try done. intros l E%put_u64_length. unfold PUT_NUMERIC_COST. lia.
    + apply (goes_number SInt LInt (in_s 32) put_i32 _ z PUT_NUMERIC_COST); try done. intros l E%put_u64_length. unfold PUT_NUMERIC_COST. lia.
    + apply (goes_number SLong LLong (in_s 64) put_i64 _ z PUT_NUMERIC_COST); try done. intros l E%put_u64_length. unfold PUT_NUMERIC_COST. lia.
    + by apply goes_string.
    + by apply goes_bigint.
    + by apply goes_unsigned.
    + apply goes_point.
    + by apply goes_prop.
    + by apply goes_avl_tree.
    + by apply goes_header.
  - inversion Hx.
  - inversion Hx; subst. apply goes_option; [done|]. intros y ->. apply IH. eauto.
  - inversion Hx as [| | | | | | | | | | | | |b Hb Hl|e items Hne Hz Hl Hi| |]; subst; [by apply goes_bytes|].
    destruct (decide (t = SBoolean)) as [->|Hnb]; [by apply goes_booleans|].
    apply goes_coll; try done. eapply Forall_impl; [exact Hi|exact IH].
  - inversion Hx as [| | | | | | | | | | | | | | | |? items Hl Hi]; subst. apply goes_tuple; [done|].
    clear -IH Hi. induction Hi as [|t x ts items Hx _ IHi]; constructor; apply Forall_cons in IH as [Ht IH]; [by apply Ht|by apply IHi].
  - inversion Hx.
Qed.
End roundtrip.

(** * The theorems *)

Section theorems.
Context {C : SigmaCrypto} {L : SigmaCryptoLaws C} {P : SigmaCryptoParsing C} {PL : SigmaCryptoParsingLaws C P}.
Context {B : NumBigint} {BL : NumBigintLaws B} {Bx : ErgoBoxData} {BS : BoxSerial Bx}.
Context {M : Bnum} {ML : BnumLaws M} {N : BnumBytes} {NL : BnumBytesLaws N}.
Context (tree_version : Z).

(** C32: every literal of a type within the format's bounds (boxes apart) is written, at no less than one unit of cost for
    four bytes. Its bytes parse with that type to the same literal, up to the ids of headers, with the reader right after
    them, when its nesting fits the levels left, and to the error of the first level above the limit otherwise. *)
Theorem data_roundtrip (t : SType) (x : Literal) :
  data_wf tree_version t x ->
  exists k c, data_serialize tree_version x = Ok (k, c) /\ byte_list k /\ Z.of_nat (length k) <= 4 * c /\
    (header_free t = true -> data_read x = x) /\
    forall r, readable (past k r) -> (rd_level r <= MAX_TREE_DEPTH)%nat ->
      data_parse tree_version t (before k r) =
        if (rd_level r + data_depth x <=? MAX_TREE_DEPTH)%nat then Ok (data_read x, past k r)
        else Err (SpDeserializeCallDepthExceeded 111).
Proof.
  intros Hx. destruct (data_goes tree_version t x Hx) as (k & c & Ek & Hk & Hc & Hb). exists k, c. split_and!; try done.
  - intros Hf. by apply (header_free_read tree_version t).
  - intros r Hr Hlev. by apply (Hb (rd_level r)).
Qed.

(** The cost of an AVL tree does not depend on how long its digest is. *)
Lemma avl_digest_cost (d : list Z) (f n : Z) (o : option Z) k c :
  avl_tree_serialize (mkAvlTreeData d f n o) = Ok (k, c) -> c = 38 /\ (length d <= length k)%nat.
Proof.
  unfold avl_tree_serialize, w_put. cbn [digest tree_flags key_length value_length_opt].
  destruct (put_u32 _) as [kl|]; [|done]. destruct (put_option _ _) as [vl|]; [|done]. intros H. apply (inj Ok) in H. injection H as <- <-.
  split; [done|]. rewrite !length_app. lia.
Qed.
End theorems.
