(* ===== verification/DataParse.v ===== *)
(** Parsing data and constants on any bytes (src/ergotree-ir/src/serialization/data.rs, constant.rs): a parse ends
    without a panic, and what it gives is data of its type that can be written and read again. *)

From stdpp Require Import strings gmap.
From S2P Require Import Prelude Gf2Field SigmaBoolean ConcreteCrypto Vlq Codecs SigmaSerial BigNum Header Types TypeSerial TypeParse Expr Value EvalOps EvalConcrete BigIntSerial DataSerial.
#[local] Open Scope Z_scope.

(** * What a parse promises on any bytes *)

(** Bytes, and few enough that a string stays below 2^32 bytes when every byte of it is replaced. *)
Definition small_input (r : reader) : Prop := byte_list (rd_bytes r) /\ 3 * Z.of_nat (length (rd_bytes r)) < 2 ^ 32.

Lemma moved_small r r' : moved r r' -> small_input r -> small_input r'.
Proof.
  intros Hm [Hb Hl]. split; [by eapply moved_bytes|]. destruct Hm as (l & E & _). rewrite E, length_app in Hl. lia.
Qed.

(** The errors of a parse, which may meet a box or not. *)
Definition fails (boxes : bool) (e : SigmaParsingError) : Prop := proper e \/ (boxes = true /\ e = SpUnmodelledBox).

Lemma fails_sane boxes e : fails boxes e -> sane e.
Proof. intros [[H _]|[_ ->]]; done. Qed.

Section parses_at.
Context (boxes : bool) (n : nat).

(** At level [n], a success only consumed bytes and has [P], and an error is no panic, nor that of a box if the parse meets none. *)
Definition parses_at {A} (P : A -> Prop) (m : stateE reader SigmaParsingError A) : Prop :=
  forall r, small_input r -> rd_level r = n -> match m r with Ok (x, r') => moved r r' /\ P x | Err e => fails boxes e end.

Lemma at_yields {A} (P : A -> Prop) m : yields proper P m -> parses_at P m.
Proof. intros H r [Hr _] _. specialize (H r Hr). destruct (m r) as [[x r']|]; [done|by left]. Qed.

Lemma at_bind {A A'} (P : A -> Prop) (R : A' -> Prop) m f :
  parses_at P m -> (forall x, P x -> parses_at R (f x)) -> parses_at R (m ≫= f).
Proof.
  intros Hm Hf r Hr Hn. specialize (Hm r Hr Hn). unfold mbind, stateE_bind. destruct (m r) as [[x r1]|e]; [|done].
  destruct Hm as [Hmv Hx]. specialize (Hf x Hx r1 (moved_small r r1 Hmv Hr)).
  rewrite (moved_level r r1 Hmv) in Hf. specialize (Hf Hn). destruct (f x r1) as [[y r2]|]; [|done].
  destruct Hf as [Hmv2 Hy]. split; [by etrans|done].
Qed.

Lemma at_ret {A} (P : A -> Prop) x : P x -> parses_at P (mret x).
Proof. intros H. by apply at_yields, yields_ret. Qed.

Lemma at_fail {A} (P : A -> Prop) e : proper e -> parses_at P (fail e).
Proof. intros H. by apply at_yields, yields_fail. Qed.

Lemma at_fmap {A A'} (P : A -> Prop) (R : A' -> Prop) (f : A -> A') m : parses_at P m -> (forall x, P x -> R (f x)) -> parses_at R (f <$> m).
Proof.
  intros Hm Hf r Hr Hn. specialize (Hm r Hr Hn). unfold fmap, stateE_fmap. destruct (m r) as [[x r']|]; [|done]. destruct Hm. split; auto.
Qed.

Lemma at_weaken {A} (P R : A -> Prop) m : parses_at P m -> (forall x, P x -> R x) -> parses_at R m.
Proof. intros H HR r Hr Hn. specialize (H r Hr Hn). destruct (m r) as [[x r']|]; [|done]. destruct H. split; auto. Qed.

Lemma at_mapM {T A} (P : T -> A -> Prop) (f : T -> stateE reader SigmaParsingError A) ts :
  Forall (fun t => parses_at (P t) (f t)) ts -> parses_at (Forall2 P ts) (mapM_st f ts).
Proof.
  induction 1 as [|t ts Ht _ IH]; cbn [mapM_st]; [apply at_ret; constructor|]. eapply at_bind; [exact Ht|]. intros x Hx.
  eapply at_bind; [exact IH|]. intros xs Hxs. apply at_ret. by constructor.
Qed.
End parses_at.

Lemma at_next {A} boxes n (P : A -> Prop) m :
  (n <= MAX_TREE_DEPTH)%nat -> ((S n <= MAX_TREE_DEPTH)%nat -> parses_at boxes (S n) P m) ->
  parses_at boxes n (fun x => P x /\ (S n <= MAX_TREE_DEPTH)%nat) (at_next_level m).
Proof.
  intros Hn Hm r Hr Hlev. unfold at_next_level, mbind, stateE_bind, level, set_level.
  destruct (Nat.ltb_spec MAX_TREE_DEPTH (rd_level r + 1)); [by left|].
  specialize (Hm ltac:(lia) (at_level (rd_level r + 1) r) Hr ltac:(cbn; lia)).
  destruct (m _) as [[x r1]|e]; [|done]. destruct Hm as [(l & E & Hp & Hl & Hv) Hx]. cbn in E, Hp, Hl, Hv.
  destruct (Nat.ltb_spec MAX_TREE_DEPTH (rd_level r1 - 1)); [lia|]. unfold mret, stateE_ret. split_and!; [|done|lia].
  exists l. cbn. split_and!; try done. lia.
Qed.

(** ** Numbers and bytes *)

Lemma yields_map_err {E A} (f : E -> SigmaParsingError) (P : A -> Prop) (m : stateE reader E A) :
  (forall e, proper (f e)) -> yields (fun _ => True) P m -> yields proper P (map_st_err f m).
Proof.
  intros Hf Hm r Hr. specialize (Hm r Hr). unfold map_st_err, result_map_err. destruct (m r) as [[x r']|e]; [done|apply Hf].
Qed.

Abbreviation anything := (fun _ : VlqEncodingError => True).

Lemma yields_u64_any : yields anything (in_u 64) get_u64.
Proof.
  intros r Hr. pose proof (yields_u64 anything id ltac:(done) r Hr) as H. unfold map_st_err, result_map_err, id in H.
  by destruct (get_u64 r) as [[v r']|].
Qed.

Lemma yields_u16_any : yields anything (in_u 16) get_u16.
Proof.
  eapply yields_bind; [apply yields_u64_any|]. intros v _. cbv zeta. unfold try_from. pose proof (wrap_u_range 32 v ltac:(lia)) as Hw.
  destruct (Z.ltb_spec (wrap_u 32 v) (2 ^ 16)); [apply yields_ret; unfold in_u in *; lia|by apply yields_fail].
Qed.

Lemma yields_u32_any : yields anything (in_u 32) get_u32.
Proof.
  eapply yields_bind; [apply yields_u64_any|]. intros v Hv. unfold try_from.
  destruct (Z.ltb_spec v (2 ^ 32)); [apply yields_ret; unfold in_u in *; lia|by apply yields_fail].
Qed.

Lemma unzigzag_range w v : 0 < w -> in_u w v -> in_s w (if Z.odd v then - (v / 2) - 1 else v / 2).
Proof.
  unfold in_u, in_s. intros Hw Hv. rewrite pow2_half in Hv by done. pose proof (Z.div_mod v 2 ltac:(lia)). pose proof (Z.mod_pos_bound v 2 ltac:(lia)).
  destruct (Z.odd v); lia.
Qed.

Lemma yields_i64_any : yields anything (in_s 64) get_i64.
Proof.
  eapply yields_bind; [apply yields_u64_any|]. intros v Hv. apply yields_ret. rewrite decode_u64_eq by done. apply unzigzag_range; [lia|done].
Qed.

Lemma yields_i32_any : yields anything (in_s 32) get_i32.
Proof.
  eapply yields_bind; [apply yields_u64_any|]. intros v Hv. apply yields_ret. rewrite decode_u32_eq. cbv zeta.
  apply unzigzag_range; [lia|apply wrap_u_range; lia].
Qed.

Lemma yields_i16_any : yields anything (in_s 16) get_i16.
Proof.
  eapply yields_bind; [apply yields_u64_any|]. intros v Hv. cbv zeta. unfold try_from.
  destruct (Z.leb_spec (- 2 ^ 15) (decode_u32 v)), (Z.ltb_spec (decode_u32 v) (2 ^ 15)); try (by apply yields_fail).
  apply yields_ret. unfold in_s. lia.
Qed.

Lemma yields_i8 : yields proper (in_s 8) (map_st_err sigma_io_error get_i8).
Proof.
  intros r Hr. pose proof (yields_u8 proper sigma_io_error io_proper r Hr) as H. unfold map_st_err, get_i8, mbind, stateE_bind in *.
  destruct (get_u8 r) as [[v r']|]; [|done]. destruct H. split; [done|]. apply wrap_s_range. lia.
Qed.

Lemma length_concat_bits buf : length (concat (map byte_bits buf)) = (8 * length buf)%nat.
Proof. induction buf as [|b buf IH]; [done|]. cbn [map concat length]. rewrite length_app, IH. change (length (byte_bits b)) with 8%nat. lia. Qed.

Lemma yields_bits k : yields anything (fun bs => length bs = k) (get_bits k).
Proof.
  unfold get_bits. eapply yields_bind; [by apply yields_check|]. intros _ _. eapply yields_bind; [by apply yields_exact|].
  intros buf [Hl _]. apply yields_ret. rewrite length_take, length_concat_bits, Hl. unfold div_ceil_8.
  pose proof (Nat.div_mod (k + 7) 8 ltac:(lia)). pose proof (Nat.mod_upper_bound (k + 7) 8 ltac:(lia)). lia.
Qed.

(** ** Literals *)

Fixpoint box_free (t : SType) : bool :=
  match t with
  | SBox => false
  | SColl t | SOption t => box_free t
  | STuple ts => forallb box_free ts
  | _ => true
  end.

Section sound.
Context {C : SigmaCrypto} {P : SigmaCryptoParsing C} {B : NumBigint} {BL : NumBigintLaws B} {Bx : ErgoBoxData} {BS : BoxSerial Bx}.
Context {M : Bnum} {ML : BnumLaws M} {N : BnumBytes} {NL : BnumBytesLaws N}.
Context (tree_version : Z) (boxes : bool).

Abbreviation parses_at := (parses_at boxes).
Abbreviation data_parse := (data_parse tree_version).
Abbreviation data_wf := (data_wf tree_version).
Abbreviation leaf_parse := (leaf_parse tree_version).

Lemma vlq_proper e : proper (SpVlqEncode e).
Proof. done. Qed.

Lemma yields_count : yields proper (in_u 16) count_u16.
Proof. apply yields_map_err; [done|apply yields_u16_any]. Qed.

Lemma yields_bigint : yields proper (in_s 256) bigint_parse.
Proof.
  unfold bigint_parse. eapply yields_bind; [apply yields_count|]. intros size Hs. destruct (32 <? size); [by apply yields_fail|].
  eapply yields_bind; [apply yields_bytes_into, io_proper|]. intros buf _. apply yields_lift. unfold bigint_from_be_slice.
  destruct buf as [|b buf]; [done|]. destruct (i256_from_be_slice (b :: buf)) as [z|] eqn:E; [|done]. by eapply i256_from_be_slice_range.
Qed.

Lemma yields_unsigned : yields proper (in_u 256) unsigned_parse.
Proof.
  unfold unsigned_parse. eapply yields_bind; [apply yields_count|]. intros size Hs. destruct (Z.ltb_spec 32 size); [by apply yields_fail|].
  eapply yields_bind; [apply yields_bytes_into, io_proper|]. intros bytes [Hl Hb]. apply yields_lift. unfold in_u in Hs.
  assert (byte_list (replicate (32 - Z.to_nat size) 0 ++ bytes)) as Hb'.
  { apply Forall_app. split; [|done]. apply Forall_replicate. unfold in_u. lia. }
  assert (length (replicate (32 - Z.to_nat size) 0 ++ bytes) = 32%nat) as Hl' by (rewrite length_app, length_replicate; lia).
  rewrite u256_slice by done. cbn [ok_or]. pose proof (be_val_range _ Hb') as Hr. rewrite Hl' in Hr. exact Hr.
Qed.

Lemma flags_range f : 0 <= flags_parse f < 8.
Proof. unfold flags_parse. by destruct (negb _), (negb _), (negb _). Qed.

Lemma yields_avl_tree : yields proper avl_tree_wf avl_tree_parse.
Proof.
  unfold avl_tree_parse, digest_parse. eapply yields_bind; [apply yields_map_err; [done|by apply (yields_bytes_into (fun _ => True))]|]. intros d Hd.
  eapply yields_bind; [apply yields_u8, io_proper|]. intros f _.
  eapply yields_bind; [apply yields_map_err; [done|apply yields_u32_any]|]. intros k Hk.
  eapply (yields_bind _ (fun o => forall v, o = Some v -> in_u 32 v)).
  - unfold get_option. eapply yields_bind; [apply yields_u8, io_proper|]. intros tag _. destruct (negb _); [|by apply yields_ret].
    eapply yields_bind; [apply yields_map_err; [done|apply yields_u32_any]|]. intros v Hv. apply yields_ret. by intros ? [= <-].
  - intros v Hv. apply yields_ret. split_and!; try done; apply flags_range.
Qed.

Lemma at_string n : parses_at n (fun x => exists s, x = LString s /\ byte_list s /\ from_utf8_is_ok s = true /\ Z.of_nat (length s) < 2 ^ 32) string_parse.
Proof.
  unfold string_parse. eapply at_bind; [apply at_yields, yields_map_err; [done|apply yields_u32_any]|]. intros len Hlen.
  apply (at_bind boxes n (fun _ => 3 * len < 2 ^ 32)).
  { intros r [_ Hr] _. unfold map_st_err, check_remaining. rewrite Z.gtb_ltb.
    destruct (Z.ltb_spec (Z.of_nat (length (rd_bytes r))) len); cbn [result_map_err]; [by left|]. split; [done|lia]. }
  intros _ H3. eapply at_bind; [apply at_yields, yields_bytes_into, io_proper|]. intros buf [Hl Hb]. apply at_ret.
  destruct (lossy_ok (length buf) buf Hb) as (H1 & H2 & Hn). exists (from_utf8_lossy buf). unfold in_u in Hlen.
  split_and!; try done. unfold from_utf8_lossy. lia.
Qed.

Lemma at_prop n : parses_at n (fun p => bounded p /\ (n + sb_depth p <= MAX_TREE_DEPTH)%nat) sigma_parse.
Proof. intros r _ <-. pose proof (sigma_parse_any r) as H. destruct (sigma_parse r) as [[p r']|]; [done|by left]. Qed.

Lemma yields_header : yields proper (fun h => header_wf h /\ header_fits h) (map_st_err SpScorex header_parse).
Proof.
  apply yields_map_err; [done|]. intros r Hr. destruct (header_parse r) as [[h r']|] eqn:E; [|done].
  destruct (header_parse_Ok r h r' Hr E) as (l & _ & Hm & Hwf & Hfit & _). done.
Qed.

(** What a parse of a type gives. *)
Definition data_sound (t : SType) : Prop :=
  box_free t || boxes = true -> forall n, (n <= MAX_TREE_DEPTH)%nat ->
  parses_at n (fun x => data_wf t x /\ (n + data_depth x <= MAX_TREE_DEPTH)%nat) (data_parse t).

Lemma data_sound_next t (m : stateE reader SigmaParsingError Literal) :
  data_parse t = at_next_level m ->
  (box_free t || boxes = true -> forall n, (n <= MAX_TREE_DEPTH)%nat ->
    parses_at n (fun x => data_wf t x /\ (n + pred (data_depth x) <= MAX_TREE_DEPTH)%nat) m) ->
  data_sound t.
Proof.
  intros Hp Hm Hb n Hn. rewrite Hp. eapply at_weaken; [apply at_next; [done|]; intros HS; by apply Hm|].
  intros x [[Hw Hd] HS]. split; [done|]. lia.
Qed.

(** A type whose literals take one level. *)
Lemma data_sound_leaf t :
  data_parse t = at_next_level (leaf_parse t) ->
  (forall n, parses_at n (fun x => data_wf t x /\ data_depth x = 1%nat) (leaf_parse t)) -> data_sound t.
Proof.
  intros Hp Hl. apply (data_sound_next t _ Hp). intros _ n Hn. eapply at_weaken; [apply Hl|]. intros x [Hw Hd]. split; [done|]. rewrite Hd. cbn. lia.
Qed.

Lemma data_sound_number t (wrap : Z -> Literal) good get :
  data_parse t = at_next_level (leaf_parse t) -> leaf_parse t = wrap <$> get -> yields proper good get ->
  (forall z, good z -> data_wf t (wrap z)) -> (forall z, data_depth (wrap z) = 1%nat) -> data_sound t.
Proof.
  intros Hp Hl Hg Hw Hd. apply data_sound_leaf; [done|]. intros n. rewrite Hl. eapply at_fmap; [by apply at_yields, Hg|]. intros z Hz. split; auto.
Qed.

Lemma at_get_list {A} n (R : A -> Prop) m k : parses_at n R m -> parses_at n (fun l => length l = k /\ Forall R l) (get_list m k).
Proof.
  intros Hm. induction k as [|k IH]; cbn [get_list]; [by apply at_ret; split; [|constructor]|].
  eapply at_bind; [exact Hm|]. intros x Hx. eapply at_bind; [exact IH|]. intros l [Hl HR]. apply at_ret.
  split; [cbn; by f_equal|by constructor].
Qed.

Lemma depth_below n items : (n <= MAX_TREE_DEPTH)%nat -> Forall (fun x => (n + data_depth x <= MAX_TREE_DEPTH)%nat) items ->
  (n + max_list_with data_depth items <= MAX_TREE_DEPTH)%nat.
Proof.
  intros Hn H. enough (max_list_with data_depth items <= MAX_TREE_DEPTH - n)%nat by lia.
  apply max_list_with_le. eapply Forall_impl; [exact H|]. cbn beta. lia.
Qed.

Lemma data_sound_prim t : is_prim t = true -> data_sound t.
Proof.
  intros Hp. destruct t; try done; try (apply data_sound_leaf; [done|]; intros n; by apply at_fail).
  - apply data_sound_leaf; [done|]. intros n. apply at_ret. by split; [constructor|].
  - apply data_sound_leaf; [done|]. intros n. eapply at_bind; [apply at_yields, yields_u8, io_proper|]. intros b _. apply at_ret. by split; [constructor|].
  - eapply (data_sound_number SByte LByte (in_s 8)); [done|done|apply yields_i8|by constructor|done].
  - eapply (data_sound_number SShort LShort (in_s 16)); [done|done|apply yields_map_err, yields_i16_any; done|by constructor|done].
  - eapply (data_sound_number SInt LInt (in_s 32)); [done|done|apply yields_map_err, yields_i32_any; done|by constructor|done].
  - eapply (data_sound_number SLong LLong (in_s 64)); [done|done|apply yields_map_err, yields_i64_any; done|by constructor|done].
  - eapply (data_sound_number SBigInt LBigInt (in_s 256)); [done|done|apply yields_bigint|by constructor|done].
  - apply data_sound_leaf; [done|]. intros n. eapply at_fmap; [apply at_yields, yields_map_err, yields_any; [done|]|].
    + unfold ec_point_parse. auto 7 with reads.
    + intros p _. by split; [constructor|].
  - eapply data_sound_next; [done|]. intros _ n Hn. eapply at_fmap; [apply at_prop|]. intros p [Hb' Hd]. by split; [constructor|].
  - apply data_sound_leaf; [done|]. intros n. cbn [DataSerial.leaf_parse]. destruct (Z.leb_spec V3 tree_version); [|by apply at_fail].
    eapply at_fmap; [apply at_yields, yields_unsigned|]. intros z Hz. by split; [constructor|].
  - eapply data_sound_next; [done|]. intros Hb n Hn r _ _. by right.
  - apply data_sound_leaf; [done|]. intros n. eapply at_fmap; [apply at_yields, yields_avl_tree|]. intros a Ha. by split; [constructor|].
  - apply data_sound_leaf; [done|]. intros n. eapply at_weaken; [apply at_string|]. intros x (s & -> & H1 & H2 & H3). by split; [constructor|].
  - apply data_sound_leaf; [done|]. intros n. cbn [DataSerial.leaf_parse]. destruct (Z.leb_spec V3 tree_version); [|by apply at_fail].
    eapply at_fmap; [apply at_yields, yields_header|]. intros h [Hwf Hfit]. by split; [constructor|].
Qed.

Lemma data_sound_bytes : data_sound (SColl SByte).
Proof.
  eapply data_sound_next; [done|]. intros Hbox n Hn. eapply at_bind; [apply at_yields, yields_count|]. intros len Hlen.
  eapply at_bind; [apply at_yields, yields_bytes_into, io_proper|]. intros buf [Hl Hb]. apply at_ret. unfold in_u in Hlen.
  split; [constructor|cbn [data_depth Nat.pred]; lia].
  - apply Forall_fmap, Forall_true. intros b. apply wrap_s_range. lia.
  - rewrite length_fmap. lia.
Qed.

Lemma data_sound_booleans : data_sound (SColl SBoolean).
Proof.
  eapply data_sound_next; [done|]. intros Hbox n Hn. eapply at_bind; [apply at_yields, yields_count|]. intros len Hlen.
  eapply at_bind; [apply at_yields, yields_map_err, yields_bits; done|]. intros bs Hl. apply at_ret. unfold in_u in Hlen.
  split; [constructor; [done|done| |]|cbn [data_depth Nat.pred]; lia].
  - cbn beta in Hl. rewrite length_fmap. lia.
  - apply Forall_fmap, Forall_true. intros b. constructor.
Qed.

Lemma data_sound_coll e : data_sound e -> data_sound (SColl e).
Proof.
  intros He. destruct (decide (e = SByte)) as [->|H1]; [apply data_sound_bytes|].
  destruct (decide (e = SBoolean)) as [->|H2]; [apply data_sound_booleans|].
  destruct (is_zero_width e) eqn:Ez.
  - assert (data_parse (SColl e) = at_next_level (_ ← count_u16; fail SpZeroWidthCollection)) as Hp.
    { cbn [DataSerial.data_parse]. rewrite Ez. by destruct e. }
    apply (data_sound_next _ _ Hp). intros Hbox n Hn. eapply at_bind; [apply at_yields, yields_count|]. intros len _. by apply at_fail.
  - destruct (coll_forms tree_version e [] H1 H2 Ez) as (_ & Hp & _). apply (data_sound_next _ _ Hp). intros Hbox n Hn.
    eapply at_bind; [apply at_yields, yields_count|]. intros len Hlen. eapply at_bind; [apply at_get_list, He, Hn; exact Hbox|].
    intros items [Hl Hi]. apply at_ret. apply Forall_and in Hi as [Hw Hd]. unfold in_u in Hlen. split.
    + constructor; try done. lia.
    + destruct (coll_forms tree_version e items H1 H2 Ez) as (_ & _ & ->). by apply depth_below.
Qed.

Lemma data_sound_tuple ts : Forall data_sound ts -> data_sound (STuple ts).
Proof.
  intros Hts. eapply data_sound_next; [done|]. intros Hbox n Hn. eapply at_bind.
  { apply (at_mapM boxes n (fun t x => data_wf t x /\ (n + data_depth x <= MAX_TREE_DEPTH)%nat)). apply Forall_forall. intros t Ht.
    apply (proj1 (Forall_forall _ _) Hts t Ht); [|done]. cbn [box_free] in Hbox. apply orb_true_iff in Hbox as [Hb|Hb]; apply orb_true_iff; [left|by right].
    rewrite forallb_forall in Hb. by apply Hb, list_elem_of_In. }
  intros items Hi. destruct (Nat.leb_spec 2 (length items)), (Nat.leb_spec (length items) 255); cbn [andb]; try (by apply at_fail).
  apply at_ret. split.
  - constructor; [lia|]. eapply Forall2_impl; [exact Hi|]. by intros t x [Hw _].
  - cbn [data_depth pred]. apply depth_below; [done|]. clear -Hi. induction Hi as [|t x ts items [_ Hd] _ IH]; by constructor.
Qed.

Lemma data_sound_option t : data_sound t -> data_sound (SOption t).
Proof.
  intros Ht. apply (data_sound_next (SOption t) (if V3 <=? tree_version then LOpt <$> get_option sigma_io_error (data_parse t) else fail SpNotSupported) eq_refl).
  intros Hbox n Hn. destruct (Z.leb_spec V3 tree_version); [|by apply at_fail].
  eapply (at_fmap boxes n (fun o => forall x, o = Some x -> data_wf t x /\ (n + data_depth x <= MAX_TREE_DEPTH)%nat)).
  - unfold get_option. eapply at_bind; [apply at_yields, yields_u8, io_proper|]. intros tag _. destruct (negb _); [|by apply at_ret].
    eapply at_bind; [apply (Ht Hbox n Hn)|]. intros x Hx. apply at_ret. by intros ? [= <-].
  - intros o Ho. split; [constructor; [done|]; intros x Hx; by apply Ho|]. destruct o as [x|]; cbn; [|lia]. by apply (Ho x).
Qed.

Lemma every_data_sound t : data_sound t.
Proof.
  induction t as [v|t Hp| |t IH|t IH|ts IH|? ? ? _ _] using SType_ind'.
  - apply data_sound_leaf; [done|]. intros n. by apply at_fail.
  - by apply data_sound_prim.
  - apply data_sound_leaf; [done|]. intros n. by apply at_fail.
  - by apply data_sound_option.
  - by apply data_sound_coll.
  - by apply data_sound_tuple.
  - apply data_sound_leaf; [done|]. intros n. by apply at_fail.
Qed.
End sound.

(** * Constants *)

Section constants.
Context {C : SigmaCrypto} {L : SigmaCryptoLaws C} {P : SigmaCryptoParsing C} {PL : SigmaCryptoParsingLaws C P}.
Context {B : NumBigint} {BL : NumBigintLaws B} {Bx : ErgoBoxData} {BS : BoxSerial Bx}.
Context {M : Bnum} {ML : BnumLaws M} {N : BnumBytes} {NL : BnumBytesLaws N}.
Context (tree_version : Z).

(** Parsing what was written, where the levels suffice. *)
Lemma data_back t x : data_wf tree_version t x ->
  exists k c, data_serialize tree_version x = Ok (k, c) /\ byte_list k /\
    forall r, readable (past k r) -> (rd_level r + data_depth x <= MAX_TREE_DEPTH)%nat ->
      data_parse tree_version t (before k r) = Ok (data_read x, past k r).
Proof.
  intros Hx. destruct (data_goes tree_version t x Hx) as (k & c & Ek & Hk & _ & Hb). exists k, c. split_and!; try done.
  intros r Hr Hd. rewrite (Hb (rd_level r)) by (done || lia). unfold deep. by rewrite (proj2 (Nat.leb_le _ _) Hd).
Qed.

(** A constant's parser is that of its type and then that of its data. *)
Lemma constant_parse_eq r : constant_parse tree_version r = (tpe ← stype_parse tree_version; v ← data_parse tree_version tpe; mret (mkConstant tpe v)) r.
Proof.
  unfold constant_parse, constant_parse_with_tag, stype_parse, parse_with_tag. change (S MAX_TYPE_DEPTH) with 9%nat. cbn [parse_at_depth].
  change (MAX_TYPE_DEPTH <? 0)%nat with false. cbn iota. unfold mbind, stateE_bind. by destruct (map_st_err sigma_io_error get_u8 r) as [[c r1]|].
Qed.

Lemma constant_back (c : Constant) :
  type_wf tree_version (const_tpe c) = true -> (wire_depth (const_tpe c) <= MAX_TYPE_DEPTH)%nat -> data_wf tree_version (const_tpe c) (const_v c) ->
  exists k, constant_serialize tree_version c = Ok k /\ byte_list k /\
    forall r, readable (past k r) -> (rd_level r + data_depth (const_v c) <= MAX_TREE_DEPTH)%nat ->
      constant_parse tree_version (before k r) = Ok (mkConstant (const_tpe c) (data_read (const_v c)), past k r).
Proof.
  intros Ht Hd Hv. destruct (every_type_goes_round tree_version _ Ht) as (l & El & Hl & Hp).
  destruct (data_back _ _ Hv) as (k & cost & Ek & Hk & Hb). exists (l ++ k). unfold constant_serialize. rewrite El, Ek. split_and!; [done|by apply Forall_app|].
  intros r Hr Hlev. rewrite constant_parse_eq, before_app. rewrite <- past_app in *. unfold mbind, stateE_bind, stype_parse.
  rewrite Hp by (done || readable). unfold fits. rewrite (proj2 (Nat.leb_le _ _)) by done.
  rewrite past_before, Hb by done. done.
Qed.

(** C33: parsing data of a type ends on any bytes, without a panic. A success only consumed the bytes it read, fits the
    levels left, and is data of the type within the format's bounds, whose own bytes parse to it again, up to the ids of
    headers. Where the data of a box begins the model stops ([SpUnmodelledBox]), and nothing is said of what the source
    reads from there on: with a type that has no boxes, or a collection or option without one in the data, this does not
    happen. (The input is small enough that replacing its bytes in a string cannot pass the format's 2^32.) *)
Theorem data_parse_sound (t : SType) (r : reader) :
  small_input r -> (rd_level r <= MAX_TREE_DEPTH)%nat ->
  match data_parse tree_version t r with
  | Ok (x, r') =>
      moved r r' /\ (rd_level r + data_depth x <= MAX_TREE_DEPTH)%nat /\ data_wf tree_version t x /\
      exists k c, data_serialize tree_version x = Ok (k, c) /\
        forall r2, readable (past k r2) -> (rd_level r2 <= rd_level r)%nat -> data_parse tree_version t (before k r2) = Ok (data_read x, past k r2)
  | Err e => e <> SpOutOfFuel /\ e <> SpPanic /\ (unmodelled e = true -> e = SpUnmodelledBox /\ box_free t = false)
  end.
Proof.
  intros Hr Hlev. pose proof (every_data_sound tree_version (negb (box_free t)) t (orb_negb_r _) (rd_level r) Hlev r Hr eq_refl) as H.
  destruct (data_parse tree_version t r) as [[x r']|e].
  2: { destruct (fails_sane _ _ H). split_and!; [done..|]. destruct H as [[_ ->]|[Hb%negb_true_iff ->]]; done. }
  destruct H as (Hm & Hw & Hd). split_and!; [done..|].
  destruct (data_back t x Hw) as (k & c & Ek & _ & Hback). exists k, c. split; [done|]. intros r2 Hr2 Hl2. apply Hback; [done|lia].
Qed.

(** A constant of a type that nests at most eight deep and of data within the format's bounds is written, and its bytes
    parse to it, up to the ids of headers, with the reader right after them. *)
Theorem constant_roundtrip (c : Constant) :
  type_wf tree_version (const_tpe c) = true -> (wire_depth (const_tpe c) <= MAX_TYPE_DEPTH)%nat ->
  data_wf tree_version (const_tpe c) (const_v c) ->
  exists k, constant_serialize tree_version c = Ok k /\ byte_list k /\
    forall r, readable (past k r) -> (rd_level r + data_depth (const_v c) <= MAX_TREE_DEPTH)%nat ->
      constant_parse tree_version (before k r) = Ok (mkConstant (const_tpe c) (data_read (const_v c)), past k r).
Proof. apply constant_back. Qed.

(** A constant that was parsed from any bytes, with the names of type variables and the depth of its
    type still in the format's bounds, is written, and its bytes parse to it again. *)
Theorem constant_reparse (c : Constant) (r r' : reader) :
  small_input r -> (rd_level r <= MAX_TREE_DEPTH)%nat -> constant_parse tree_version r = Ok (c, r') ->
  names_short (const_tpe c) = true -> (wire_depth (const_tpe c) <= MAX_TYPE_DEPTH)%nat ->
  exists k, constant_serialize tree_version c = Ok k /\
    forall r2, readable (past k r2) -> (rd_level r2 + data_depth (const_v c) <= MAX_TREE_DEPTH)%nat ->
      constant_parse tree_version (before k r2) = Ok (mkConstant (const_tpe c) (data_read (const_v c)), past k r2).
Proof.
  intros Hr Hlev H Hns Hd. rewrite constant_parse_eq in H.
  apply st_bind_Ok in H as (t & r1 & Ht & H). apply st_bind_Ok in H as (v & r2 & Hv & H). injection H as <- <-. cbn [const_tpe const_v] in *.
  pose proof (parse_yields tree_version (S MAX_TYPE_DEPTH) 0 eq_refl r (proj1 Hr)) as Hy. unfold stype_parse in Ht. rewrite Ht in Hy.
  destruct Hy as [Hm Hwt]. pose proof (moved_level r r1 Hm) as E.
  pose proof (every_data_sound tree_version true t (orb_true_r _) (rd_level r1) ltac:(lia) r1 (moved_small r r1 Hm Hr) eq_refl) as Hs.
  rewrite Hv in Hs. destruct Hs as (_ & Hw & _). destruct (constant_back (mkConstant t v) (Hwt Hns) Hd Hw) as (k & Ek & _ & Hback).
  by exists k.
Qed.

(** ** What modelling showed *)

(** A header whose version is negative as a signed byte has no new fields in its bytes, and is charged for them. *)
Lemma negative_version_charged (h : Header) :
  128 <= version h < 256 -> put_unparsed h = Ok [] /\
  header_cost h = PUT_BYTE_COST + put_chunk_cost (length (unparsed_bytes h)) + 240.
Proof.
  intros Hv. split.
  - unfold put_unparsed, has_new_fields. assert (wrap_s 8 (version h) = version h - 256) as ->; [|by destruct (Z.ltb_spec 1 (version h - 256)); [lia|]].
    unfold wrap_s. change (2 ^ (8 - 1)) with 128. change (2 ^ 8) with 256. rewrite <- (Z.mod_add _ (-1)), Z.mod_small; lia.
  - unfold header_cost. rewrite Z.gtb_ltb. destruct (Z.ltb_spec 1 (version h)), (Z.eqb_spec (version h) 1); try lia.
    unfold put_chunk_cost, PUT_CHUNK_BASE_COST, PUT_NUMERIC_COST, PUT_BYTE_COST, GROUP_SIZE. lia.
Qed.
End constants.

(** Bytes that are not UTF-8 are replaced in a string as Rust does it, and in a type variable's name as the JVM does it: three
    replacements for a surrogate here, one there. *)
Lemma lossy_differ : from_utf8_lossy [237; 160; 128] = REPLACEMENT ++ REPLACEMENT ++ REPLACEMENT /\ jvm_lossy_utf8 [237; 160; 128] = REPLACEMENT.
Proof. by vm_compute. Qed.

(** * Concrete inputs *)

(** Boxes that are written without bytes. *)
#[export] Instance plain_box_serial : BoxSerial concrete_boxes := {| box_serialize _ := Ok ([], 0) |}.

(** A collection of pairs of an option and a tuple of leaves, and its type. *)
Definition sample_data_type : SType := SColl (STuple [SOption SBigInt; STuple [SInt; SString; SColl SBoolean; SSigmaProp; SColl SByte]]).
Definition sample_pair (o : option Z) (i : Z) : Literal :=
  LTup [LOpt (LBigInt <$> o);
        LTup [LInt i; LString [226; 130; 172]; LColl (WrappedColl SBoolean [LBoolean true; LBoolean false]);
              LSigmaProp (SigmaConjecture Cand [TrivialProp true; ProofOfKnowledge (ProveDlog (toF 9))]); LColl (Native (CollByte [- 1; 5]))]].
Definition sample_data : Literal :=
  LColl (WrappedColl (STuple [SOption SBigInt; STuple [SInt; SString; SColl SBoolean; SSigmaProp; SColl SByte]])
    [sample_pair (Some (- 129)) (- 7); sample_pair None (2 ^ 31 - 1)]).

Lemma sample_pair_wf o i : (forall z, o = Some z -> in_s 256 z) -> in_s 32 i ->
  data_wf 3 (STuple [SOption SBigInt; STuple [SInt; SString; SColl SBoolean; SSigmaProp; SColl SByte]]) (sample_pair o i).
Proof.
  intros Ho Hi. constructor; [cbn; lia|]. constructor.
  - constructor; [done|]. destruct o as [z|]; cbn; intros x [= <-]. constructor. by apply Ho.
  - constructor; [|done]. constructor; [cbn; lia|]. repeat (apply Forall2_cons; split); try done.
    + by constructor.
    + constructor; [|done|done]. repeat (apply Forall_cons; split); try done; unfold in_u; lia.
    + constructor; try done. by repeat constructor.
    + constructor. repeat constructor; cbn; lia.
    + constructor; [|done]. repeat (apply Forall_cons; split); try done; unfold in_s; lia.
Qed.

Lemma sample_data_wf : data_wf 3 sample_data_type sample_data.
Proof.
  constructor; try done. repeat (apply Forall_cons; split); try done; apply sample_pair_wf; try (unfold in_s; lia); [|done].
  intros z [= <-]. unfold in_s. lia.
Qed.

Lemma data_roundtrip_witness :
  exists k c r, data_serialize 3 sample_data = Ok (k, c) /\ length k = 109%nat /\ rd_level r = 20%nat /\
    data_parse 3 sample_data_type (before k r) = Ok (sample_data, past k r).
Proof.
  destruct (data_roundtrip 3 sample_data_type sample_data sample_data_wf) as (k & c & Ek & _ & _ & Hid & Hp).
  exists k, c, (mkReader [7] 0 U64_MAX 20%nat). split; [exact Ek|]. split.
  - assert (length (match data_serialize 3 sample_data with Ok (k, _) => k | Err _ => [] end) = 109%nat) as E by (vm_compute; reflexivity).
    rewrite Ek in E. exact E.
  - split; [reflexivity|]. rewrite <- (Hid eq_refl). apply (Hp (mkReader [7] 0 U64_MAX 20%nat)); [by left|cbn; unfold MAX_TREE_DEPTH; lia].
Defined.

(** A string of one byte that is not UTF-8. *)
Lemma data_parse_sound_witness :
  exists x r', data_parse 0 SString (mkReader [1; 255; 7] 0 U64_MAX 109%nat) = Ok (x, r') /\ x = LString REPLACEMENT /\ rd_bytes r' = [7] /\
    data_wf 0 SString x /\ exists k c, data_serialize 0 x = Ok (k, c) /\ k = [3; 239; 191; 189] /\
      forall r2, readable (past k r2) -> (rd_level r2 <= 109)%nat -> data_parse 0 SString (before k r2) = Ok (x, past k r2).
Proof.
  assert (small_input (mkReader [1; 255; 7] 0 U64_MAX 109%nat)) as Hr.
  { split; [repeat (apply Forall_cons; split); [unfold in_u; lia..|constructor]|cbn; lia]. }
  pose proof (data_parse_sound 0 SString (mkReader [1; 255; 7] 0 U64_MAX 109%nat) Hr ltac:(cbn; unfold MAX_TREE_DEPTH; lia)) as H.
  assert (data_parse 0 SString (mkReader [1; 255; 7] 0 U64_MAX 109%nat) = Ok (LString REPLACEMENT, mkReader [7] 2 U64_MAX 109%nat)) as E by reflexivity.
  rewrite E in H. destruct H as (_ & _ & Hw & k & c & Ek & Hback). exists (LString REPLACEMENT), (mkReader [7] 2 U64_MAX 109%nat).
  split; [exact E|]. split; [reflexivity|]. split; [reflexivity|]. split; [exact Hw|]. exists k, c. split; [exact Ek|].
  assert (data_serialize 0 (LString REPLACEMENT) = Ok ([3; 239; 191; 189], 9)) as Ek' by reflexivity.
  split; [rewrite Ek' in Ek; injection Ek as <- _; reflexivity|exact Hback].
Defined.

Definition sample_constant : Constant := mkConstant sample_data_type sample_data.

Lemma constant_roundtrip_witness :
  exists k, constant_serialize 3 sample_constant = Ok k /\ length k = 119%nat /\
    constant_parse 3 (before k (mkReader [7] 0 U64_MAX 20%nat)) = Ok (mkConstant sample_data_type (data_read sample_data), past k (mkReader [7] 0 U64_MAX 20%nat)).
Proof.
  destruct (constant_roundtrip 3 sample_constant) as (k & Ek & _ & Hp).
  - reflexivity.
  - apply Nat.leb_le. reflexivity.
  - exact sample_data_wf.
  - exists k. split; [exact Ek|]. split.
    + assert (length (match constant_serialize 3 sample_constant with Ok k => k | Err _ => [] end) = 119%nat) as E by (vm_compute; reflexivity).
      rewrite Ek in E. exact E.
    + apply (Hp (mkReader [7] 0 U64_MAX 20%nat)); [by left|apply Nat.leb_le; reflexivity].
Defined.
