(* ===== verification/ContextExt.v ===== *)
(** Context extensions as bytes (src/ergotree-ir/src/chain/context_extension.rs and evaluated_value.rs): the order in which
    Scala 2.12 iterates over a hash map of five and more variables, the writer, and the parser with its checks of ids and types. Values
    that are expressions are written and parsed by [EvaluatedExprs]. *)

From stdpp Require Import strings gmap sorting.
From S2P Require Import Prelude Gf2Field SigmaBoolean ConcreteCrypto Vlq Codecs SigmaSerial BigNum Header Types TypeSerial TypeParse Expr Value EvalOps EvalConcrete BigIntSerial DataSerial DataParse.
#[local] Open Scope Z_scope.

(** * The order of a Scala hash map *)

(** [scala_212_improve] on an i32. *)
Definition scala_212_improve (hc : Z) : Z :=
  let h := wrap_s 32 (hc + Z.lnot (wrap_s 32 (Z.shiftl hc 9))) in
  let h := Z.lxor h (wrap_s 32 (Z.shiftr (wrap_u 32 h) 14)) in
  let h := wrap_s 32 (h + wrap_s 32 (Z.shiftl h 4)) in
  Z.lxor h (wrap_s 32 (Z.shiftr (wrap_u 32 h) 10)).

(** [scala_212_hamt_sort_key] of a u8: seven levels of five bits. *)
Definition scala_212_hamt_sort_key (key : Z) : Z :=
  let hash := wrap_u 32 (scala_212_improve key) in
  fold_left (fun sort_key level => Z.lor (wrap_u 64 (Z.shiftl sort_key 5)) (Z.land (Z.shiftr hash (level * 5)) 31)) (seqZ 0 7) 0.

(** * Values *)

Definition op_true : Z := new_op_code 15.
Definition op_false : Z := new_op_code 16.
Definition op_group_generator : Z := new_op_code 18.

(** What is read of an expression after its tag, [None] if it is not a value; how a value is written; its check of version 6 types. *)
Class EvaluatedExprs : Type := {
  EvaluatedExpr : Type;
  expr_parse_tagged : Z -> stateE reader SigmaParsingError (option EvaluatedExpr);
  expr_serialize : EvaluatedExpr -> result SigmaSerializationError (list Z);
  expr_check_v6_type : EvaluatedExpr -> bool
}.

Section extension.
Context `{C : SigmaCrypto} `{P : !SigmaCryptoParsing C} {B : NumBigint} {Bx : ErgoBoxData} {BS : BoxSerial Bx} {M : Bnum} {N : BnumBytes}.
Context {X : EvaluatedExprs} (tree_version : Z).

(** [EvaluatedValue], with the generator apart from the other expressions. *)
Inductive EvaluatedValue : Type :=
| EvConstant (c : Constant)
| EvExpr (e : EvaluatedExpr)
| EvGroupGenerator.

Definition value_check_v6_type (v : EvaluatedValue) : bool :=
  match v with
  | EvConstant c => check_v6_type (const_tpe c)
  | EvExpr e => expr_check_v6_type e
  | EvGroupGenerator => true
  end.

Definition value_serialize (v : EvaluatedValue) : result SigmaSerializationError (list Z) :=
  match v with
  | EvConstant c => constant_serialize tree_version c
  | EvExpr e => expr_serialize e
  | EvGroupGenerator => Ok (put_u8 op_group_generator)
  end.

(** [Expr::parse_tagged] and the cast to a value. *)
Definition value_parse_tagged (tag : Z) : stateE reader SigmaParsingError EvaluatedValue :=
  if tag <=? LAST_CONSTANT_CODE then EvConstant <$> constant_parse_with_tag tree_version tag
  else if tag =? op_true then mret (EvConstant (mkConstant SBoolean (LBoolean true)))
  else if tag =? op_false then mret (EvConstant (mkConstant SBoolean (LBoolean false)))
  else if tag =? op_group_generator then mret EvGroupGenerator
  else
    e ← expr_parse_tagged tag;
    match e with Some e => mret (EvExpr e) | None => fail SpUnevaluatedValue end.

Definition value_parse : stateE reader SigmaParsingError EvaluatedValue :=
  at_next_level (
    _ ← map_st_err sigma_io_error peek_u8;
    tag ← map_st_err sigma_io_error get_u8;
    value_parse_tagged tag).

(** * Extensions *)

(** [IndexMap<u8, EvaluatedValue>], in the order of insertion. *)
Definition ContextExtension : Type := list (Z * EvaluatedValue).

(** [IndexMap::insert] keeps the place of a key that is there. *)
Fixpoint index_insert (k : Z) (v : EvaluatedValue) (m : ContextExtension) : ContextExtension :=
  match m with
  | [] => [(k, v)]
  | (k', v') :: m => if k =? k' then (k', v) :: m else (k', v') :: index_insert k v m
  end.

Definition by_sort_key (a b : Z * EvaluatedValue) : Prop := scala_212_hamt_sort_key a.1 <= scala_212_hamt_sort_key b.1.
#[global] Instance by_sort_key_dec : RelDecision by_sort_key.
Proof. intros a b. unfold by_sort_key. apply _. Defined.

(** The order in which the entries are written. *)
Definition written_order (values : ContextExtension) : ContextExtension :=
  if (5 <=? length values)%nat then merge_sort by_sort_key values else values.

Definition entry_serialize (e : Z * EvaluatedValue) : result SigmaSerializationError (list Z) :=
  v ← value_serialize e.2; Ok (put_u8 e.1 ++ v).

Definition extension_serialize (values : ContextExtension) : result SigmaSerializationError (list Z) :=
  let len := length values in
  _ ← guard_or (Z.of_nat len <=? 127) SerNotSupported;
  entries ← mapM_res entry_serialize (written_order values);
  Ok (put_u8 (wrap_u 8 (Z.of_nat len)) ++ concat entries).

Definition entry_parse : stateE reader SigmaParsingError (Z * EvaluatedValue) :=
  idx ← map_st_err sigma_io_error get_i8;
  if idx <? 0 then fail SpValueOutOfBounds
  else
    value ← value_parse;
    _ ← liftE (guard_or (value_check_v6_type value) SpV6TypeError);
    mret (wrap_u 8 idx, value).

Fixpoint entries_parse (n : nat) (values : ContextExtension) : stateE reader SigmaParsingError ContextExtension :=
  match n with
  | O => mret values
  | S n => e ← entry_parse; entries_parse n (index_insert e.1 e.2 values)
  end.

Definition extension_parse : stateE reader SigmaParsingError ContextExtension :=
  values_count ← map_st_err sigma_io_error get_i8;
  if values_count <? 0 then fail SpValueOutOfBounds
  else entries_parse (Z.to_nat values_count) [].
End extension.

(** * The order of five and more *)

(** Different u8s have different keys. *)
Lemma sort_key_inj a b : in_u 8 a -> in_u 8 b -> scala_212_hamt_sort_key a = scala_212_hamt_sort_key b -> a = b.
Proof.
  assert (NoDup (map scala_212_hamt_sort_key (seqZ 0 256))) as Hd by (refine (bool_decide_unpack _ _); vm_compute; exact I).
  intros Ha Hb E. unfold in_u in *. apply (NoDup_lookup _ (Z.to_nat a) (Z.to_nat b) (scala_212_hamt_sort_key a)) in Hd; [lia| |].
  - apply list_lookup_fmap_Some. exists a. split; [done|]. apply lookup_seqZ. lia.
  - apply list_lookup_fmap_Some. exists b. split; [done|]. apply lookup_seqZ. lia.
Qed.

Section order.
Context `{C : SigmaCrypto} {Bx : ErgoBoxData} {X : EvaluatedExprs}.

Abbreviation ids := (map (fst (A := Z) (B := EvaluatedValue))).

#[local] Instance by_sort_key_total : Total (by_sort_key (C := C) (Bx := Bx)).
Proof. intros a b. unfold by_sort_key. lia. Qed.
#[local] Instance by_sort_key_trans : Transitive (by_sort_key (C := C) (Bx := Bx)).
Proof. intros a b c. unfold by_sort_key. lia. Qed.

Lemma written_order_perm values : written_order values ≡ₚ values.
Proof. unfold written_order. destruct (5 <=? length values)%nat; [apply merge_sort_Permutation|done]. Qed.

(** One order for the entries with given ids. *)
Lemma sorted_unique (l l' : list (Z * EvaluatedValue)) :
  NoDup (ids l) -> Forall (in_u 8) (ids l) -> l ≡ₚ l' -> StronglySorted by_sort_key l -> StronglySorted by_sort_key l' -> l = l'.
Proof.
  intros Hd Hr Hp Hs Hs'. apply (StronglySorted_unique_strong by_sort_key); try done.
  intros [i v] [j w] Hi Hj H1 H2. rewrite <- Hp in Hj. unfold by_sort_key in *. cbn [fst] in *.
  rewrite Forall_forall in Hr. assert (i = j) as ->.
  { apply sort_key_inj; [apply Hr, list_elem_of_fmap; by exists (i, v)|apply Hr, list_elem_of_fmap; by exists (j, w)|lia]. }
  apply list_elem_of_lookup in Hi as [m Hm]. apply list_elem_of_lookup in Hj as [k Hk].
  assert (m = k) as ->; [|congruence]. apply (NoDup_lookup (ids l) m k j Hd); apply list_lookup_fmap_Some; [by exists (j, v)|by exists (j, w)].
Qed.

Lemma written_order_sorted values : (5 <= length values)%nat -> StronglySorted by_sort_key (written_order values).
Proof. intros Hl. unfold written_order. rewrite (proj2 (Nat.leb_le _ _) Hl). apply StronglySorted_merge_sort; apply _. Qed.

Lemma written_order_unique values values' :
  NoDup (ids values) -> Forall (in_u 8) (ids values) -> (5 <= length values)%nat -> values ≡ₚ values' -> written_order values = written_order values'.
Proof.
  intros Hd Hr Hl Hp. assert (5 <= length values')%nat as Hl' by by rewrite <- Hp.
  pose proof (written_order_perm values) as Hp1. pose proof (written_order_perm values') as Hp2.
  apply sorted_unique; [| |by rewrite Hp1, Hp2|by apply written_order_sorted..].
  - by rewrite Hp1.
  - by rewrite Hp1.
Qed.

Lemma written_order_again values :
  NoDup (ids values) -> Forall (in_u 8) (ids values) -> written_order (written_order values) = written_order values.
Proof.
  intros Hd Hr. destruct (Nat.leb_spec 5 (length values)) as [Hl|Hl].
  - symmetry. apply written_order_unique; try done. symmetry. apply written_order_perm.
  - unfold written_order. rewrite (proj2 (Nat.leb_gt _ _) Hl). by rewrite (proj2 (Nat.leb_gt _ _) Hl).
Qed.

(** ** Inserting *)

Lemma index_insert_new k (v : EvaluatedValue) m : k ∉ ids m -> index_insert k v m = m ++ [(k, v)].
Proof.
  induction m as [|[k' v'] m IH]; intros Hk; [done|]. cbn [map fst] in Hk. apply not_elem_of_cons in Hk as [Hne Hk]. cbn [index_insert app].
  destruct (Z.eqb_spec k k'); [done|]. by rewrite IH.
Qed.

Lemma index_insert_ids k (v : EvaluatedValue) m : ids (index_insert k v m) = if decide (k ∈ ids m) then ids m else ids m ++ [k].
Proof.
  induction m as [|[k' v'] m IH]; [done|]. cbn [index_insert map fst]. destruct (Z.eqb_spec k k') as [->|Hne].
  - rewrite decide_True by by left. done.
  - cbn [map fst]. rewrite IH. destruct (decide (k ∈ ids m)), (decide (k ∈ k' :: ids m)) as [Hin|Hin]; try done.
    + destruct Hin. by right.
    + by apply elem_of_cons in Hin as [->|Hin].
Qed.

Lemma index_insert_Forall (Q : Z * EvaluatedValue -> Prop) k v m : Q (k, v) -> Forall Q m -> Forall Q (index_insert k v m).
Proof.
  intros Hq. induction 1 as [|[k' v'] m Hx Hm IH]; cbn [index_insert]; [by repeat constructor|].
  destruct (Z.eqb_spec k k') as [->|]; by constructor.
Qed.
End order.

(** * The round trip *)

(** Only tags of constants begin a type. *)
Lemma parse_tag_constant tree_version nested c r t r' : parse_tag tree_version nested c r = Ok (t, r') -> c <= LAST_CONSTANT_CODE.
Proof.
  unfold parse_tag. destruct (c =? 0); [done|]. destruct (Z.ltb_spec c TUPLE_TYPECODE); [intros _; unfold TUPLE_TYPECODE, MAX_PRIM_TYPECODE, LAST_CONSTANT_CODE in *; lia|].
  intros Hp. apply st_bind_Ok in Hp as (code & r1 & E & _). apply liftE_Ok in E as [E _]. apply type_code_value in E as <-.
  by destruct code; vm_compute.
Qed.

(** Types without those of version 6 have no headers in them. *)
Lemma v6_header_free t : check_v6_type t = true -> header_free t = true.
Proof.
  induction t as [v|t Hp| |t IH|t IH|ts IH|? ? ? _ _] using SType_ind'; cbn [check_v6_type header_free]; intros Hc; try done.
  - by destruct t.
  - by apply IH.
  - rewrite forallb_Forall in *. rewrite Forall_forall in *. auto.
Qed.

Section roundtrip.
Context {C : SigmaCrypto} {L : SigmaCryptoLaws C} {P : SigmaCryptoParsing C} {PL : SigmaCryptoParsingLaws C P}.
Context {B : NumBigint} {BL : NumBigintLaws B} {Bx : ErgoBoxData} {BS : BoxSerial Bx}.
Context {M : Bnum} {ML : BnumLaws M} {N : BnumBytes} {NL : BnumBytesLaws N} {X : EvaluatedExprs}.
Context (tree_version : Z).

Abbreviation ids := (map (fst (A := Z) (B := EvaluatedValue))).
Abbreviation io := (map_st_err sigma_io_error).

(** An entry of a constant that the format has room for and version 5 has the type of; the generator is one without data. *)
Definition entry_fits (e : Z * EvaluatedValue) : Prop :=
  0 <= e.1 < 128 /\
  match e.2 with
  | EvConstant c =>
      type_wf tree_version (const_tpe c) = true /\ (wire_depth (const_tpe c) <= MAX_TYPE_DEPTH)%nat /\
      data_wf tree_version (const_tpe c) (const_v c) /\ check_v6_type (const_tpe c) = true
  | EvExpr _ => False
  | EvGroupGenerator => True
  end.

(** The levels its value takes. *)
Definition entry_depth (e : Z * EvaluatedValue) : nat :=
  match e.2 with EvConstant c => S (data_depth (const_v c)) | _ => 1 end.

Lemma get_u8_peek (r : reader) v r' : io get_u8 r = Ok (v, r') -> exists b, io peek_u8 r = Ok (b, r).
Proof.
  unfold map_st_err, result_map_err, get_u8, peek_u8, mbind, stateE_bind. destruct (check_position_limit r) as [[u r1]|] eqn:Ec; [|done].
  assert (r1 = r) as -> by (unfold check_position_limit in Ec; repeat case_match; congruence).
  destruct (rd_exact 1 r) as [[l r2]|]; [|done]. intros _. by eexists.
Qed.

(** A constant where a value is expected. *)
Lemma value_of_constant (r : reader) c r' :
  constant_parse tree_version r = Ok (c, r') ->
  (_ ← io peek_u8; tag ← io get_u8; value_parse_tagged tree_version tag) r = Ok (EvConstant c, r').
Proof.
  intros Hc. apply st_bind_Ok in Hc as (tag & r1 & Eu & Hc). destruct (get_u8_peek r tag r1 Eu) as [b Eb].
  unfold mbind at 1, stateE_bind at 1. rewrite Eb. unfold mbind, stateE_bind. rewrite Eu. unfold value_parse_tagged.
  assert (tag <= LAST_CONSTANT_CODE) as Ht.
  { apply st_bind_Ok in Hc as (t & r2 & Ep & _). by eapply parse_tag_constant. }
  rewrite (proj2 (Z.leb_le _ _) Ht). unfold fmap, stateE_fmap. by rewrite Hc.
Qed.

Lemma value_back e : entry_fits e ->
  exists k, value_serialize tree_version e.2 = Ok k /\ byte_list k /\ value_check_v6_type e.2 = true /\
    forall r, readable (past k r) -> (rd_level r + entry_depth e <= MAX_TREE_DEPTH)%nat -> value_parse tree_version (before k r) = Ok (e.2, past k r).
Proof.
  destruct e as [i [c|x|]]; cbn [entry_fits fst snd]; unfold entry_fits; cbn [fst snd]; [|intros [_ []]|].
  - intros (_ & Ht & Hd & Hv & H6). destruct (constant_back tree_version c Ht Hd Hv) as (k & Ek & Hk & Hb). exists k. split_and!; try done.
    intros r Hr Hlev. unfold entry_depth in Hlev. cbn [snd] in Hlev.
    unfold value_parse. rewrite (back_next (rd_level r) _ 0 (EvConstant c) k); [unfold deep; by rewrite (proj2 (Nat.leb_le _ _)) by lia|lia| |done|done].
    intros HS r0 Hr0 Hread. rewrite deep_0 by done. apply value_of_constant. rewrite Hb by (done || lia).
    rewrite (header_free_read tree_version (const_tpe c)) by (done || by apply v6_header_free). by destruct c.
  - intros _. exists [op_group_generator]. split_and!; [done|by repeat constructor|done|]. intros r Hr Hlev. unfold entry_depth in Hlev. cbn [snd] in Hlev.
    unfold value_parse. rewrite (back_next (rd_level r) _ 0 EvGroupGenerator [op_group_generator]); [unfold deep; by rewrite (proj2 (Nat.leb_le _ _)) by lia|lia| |done|done].
    intros HS r0 Hr0 Hread. rewrite deep_0 by done. assert (io get_u8 (before [op_group_generator] r0) = Ok (op_group_generator, past [op_group_generator] r0)) as Eu.
    { unfold map_st_err. by rewrite get_u8_before by by eapply readable_past. }
    destruct (get_u8_peek _ _ _ Eu) as [b Eb]. unfold mbind, stateE_bind. by rewrite Eb, Eu.
Qed.

Lemma read_i8 i k r : 0 <= i < 128 -> readable (before k (past [i] r)) -> io get_i8 (before [i] (before k r)) = Ok (i, before k (past [i] r)).
Proof.
  intros Hi Hr. unfold map_st_err. assert (in_s 8 i) as Hs by (unfold in_s; lia). assert (wrap_u 8 i = i) as Ei by (apply wrap_u_id; unfold in_u; lia).
  rewrite (codec_roundtrip (Codec := i8_codec) i [i] (before k r) Hs); [cbn [result_map_err]; by rewrite past_before| |by rewrite past_before].
  unfold put_i8, put_u8. by rewrite Ei.
Qed.

Lemma entry_back e : entry_fits e ->
  exists k, entry_serialize tree_version e = Ok k /\ byte_list k /\
    forall r, readable (past k r) -> (rd_level r + entry_depth e <= MAX_TREE_DEPTH)%nat -> entry_parse tree_version (before k r) = Ok (e, past k r).
Proof.
  intros He. destruct (value_back e He) as (k & Ek & Hk & H6 & Hb). destruct e as [i v]. destruct He as [Hi _]. cbn [fst snd] in *.
  exists ([i] ++ k). unfold entry_serialize. cbn [fst snd]. rewrite Ek. split_and!; [done|constructor; [unfold in_u; lia|done]|].
  intros r Hr Hlev. rewrite before_app. rewrite <- past_app in *. unfold entry_parse, mbind at 1, stateE_bind at 1.
  rewrite read_i8 by (lia || by eapply before_readable).
  destruct (Z.ltb_spec i 0); [lia|]. unfold mbind at 1, stateE_bind at 1. rewrite Hb by done.
  unfold mbind, stateE_bind, liftE. rewrite H6. cbn. by rewrite wrap_u_id by (unfold in_u; lia).
Qed.

Lemma entries_back l : forall m,
  Forall entry_fits l -> NoDup (ids (m ++ l)) ->
  exists ks, mapM_res (entry_serialize tree_version) l = Ok ks /\ Forall byte_list ks /\
    forall r, readable (past (concat ks) r) -> Forall (fun e => (rd_level r + entry_depth e <= MAX_TREE_DEPTH)%nat) l ->
      entries_parse tree_version (length l) m (before (concat ks) r) = Ok (m ++ l, past (concat ks) r).
Proof.
  induction l as [|e l IH]; intros m Hl Hd.
  - exists []. split_and!; [done|done|]. intros r _ _. cbn. by rewrite before_nil, past_nil, app_nil_r.
  - apply Forall_cons in Hl as [He Hl]. destruct (entry_back e He) as (k & Ek & Hk & Hb).
    assert (index_insert e.1 e.2 m = m ++ [e]) as Ei.
    { destruct e as [i v]. apply index_insert_new. rewrite map_app in Hd. cbn [map fst] in Hd. apply NoDup_app in Hd as (_ & Hd & _).
      intros Hin. apply (Hd i Hin). by left. }
    destruct (IH (m ++ [e]) Hl) as (ks & Eks & Hks & Hbs); [by rewrite <- app_assoc|]. exists (k :: ks). cbn [mapM_res]. rewrite Ek, Eks. split_and!; [done|by constructor|].
    intros r Hr Hlev. apply Forall_cons in Hlev as [Hlev1 Hlev]. cbn [concat length entries_parse] in *. rewrite before_app. rewrite <- past_app in *.
    unfold mbind, stateE_bind. rewrite Hb by (done || readable). rewrite past_before, Ei, Hbs by done. by rewrite <- app_assoc.
Qed.

Lemma entries_fit_perm l l' : l ≡ₚ l' -> Forall entry_fits l -> Forall entry_fits l'.
Proof. by intros ->. Qed.

Lemma entries_ids l : Forall entry_fits l -> Forall (in_u 8) (ids l).
Proof. intros H. apply Forall_fmap. eapply Forall_impl; [exact H|]. intros e [He _]. cbn. unfold in_u. lia. Qed.

(** What is written does not change when the entries are put in the order they are written in. *)
Lemma serialize_written values : NoDup (ids values) -> Forall (in_u 8) (ids values) ->
  extension_serialize tree_version (written_order values) = extension_serialize tree_version values.
Proof. intros Hd Hr. unfold extension_serialize. rewrite written_order_again by done. by rewrite (Permutation_length (written_order_perm values)). Qed.

(** An extension of at most 127 variables with ids below 128, whose values are constants within the format's bounds and of
    types older than version 6, is written; its bytes parse to the variables in the order they are written in, that of a Scala hash
    map from five on, with the reader right after them; and what was parsed is written as the same bytes again. *)
Theorem extension_roundtrip (values : ContextExtension) :
  Forall entry_fits values -> NoDup (ids values) -> (length values <= 127)%nat ->
  exists k, extension_serialize tree_version values = Ok k /\ byte_list k /\ written_order values ≡ₚ values /\
    extension_serialize tree_version (written_order values) = Ok k /\
    forall r, readable (past k r) -> Forall (fun e => (rd_level r + entry_depth e <= MAX_TREE_DEPTH)%nat) values ->
      extension_parse tree_version (before k r) = Ok (written_order values, past k r).
Proof.
  intros Hf Hd Hl. pose proof (written_order_perm values) as Hp.
  destruct (entries_back (written_order values) []) as (ks & Eks & Hks & Hb); [by rewrite Hp|cbn [app]; by rewrite Hp|].
  assert (extension_serialize tree_version values = Ok ([Z.of_nat (length values)] ++ concat ks)) as E.
  { unfold extension_serialize, guard_or. destruct (Z.leb_spec (Z.of_nat (length values)) 127); [|lia]. rewrite wrap_u_id by (unfold in_u; lia).
    cbn [mbind result_bind]. by rewrite Eks. }
  exists ([Z.of_nat (length values)] ++ concat ks). split_and!; [done| |done|by rewrite serialize_written by (done || by apply entries_ids)|].
  - constructor; [unfold in_u; lia|]. by apply Forall_concat.
  - intros r Hr Hlev. rewrite before_app. rewrite <- past_app in *. unfold extension_parse, mbind, stateE_bind.
    rewrite read_i8 by (lia || by eapply before_readable).
    destruct (Z.ltb_spec (Z.of_nat (length values)) 0); [lia|]. rewrite Nat2Z.id, <- (Permutation_length Hp). apply Hb; [done|]. by rewrite Hp.
Qed.

(** From five variables on, the bytes of an extension do not depend on the order in which the variables were inserted. *)
Theorem extension_order (values values' : ContextExtension) :
  NoDup (ids values) -> Forall (in_u 8) (ids values) -> (5 <= length values)%nat -> values ≡ₚ values' ->
  extension_serialize tree_version values = extension_serialize tree_version values'.
Proof.
  intros Hd Hr Hl Hp. unfold extension_serialize. by rewrite (written_order_unique values values'), (Permutation_length Hp).
Qed.

(** ** Any bytes *)

Definition entry_read (e : Z * EvaluatedValue) : Prop := 0 <= e.1 < 128 /\ value_check_v6_type e.2 = true.

Lemma entry_parse_Ok r e r' : entry_parse tree_version r = Ok (e, r') -> entry_read e.
Proof.
  unfold entry_parse. intros H. apply st_bind_Ok in H as (i & r1 & Ei & H). destruct (Z.ltb_spec i 0) as [|Hi]; [done|].
  apply st_bind_Ok in H as (v & r2 & Ev & H). apply st_bind_Ok in H as (u & r3 & Eg & H). injection H as <- _.
  apply liftE_Ok in Eg as [Eg _]. unfold guard_or in Eg. destruct (value_check_v6_type v) eqn:E6; [|done]. split; [|done]. cbn [fst].
  assert (i < 128).
  { unfold map_st_err, get_i8, mbind, stateE_bind, result_map_err in Ei. destruct (get_u8 r) as [[b r4]|]; [|done]. injection Ei as <- _.
    pose proof (wrap_s_range 8 b ltac:(lia)) as Hw. unfold in_s in Hw. lia. }
  rewrite wrap_u_id by (unfold in_u; lia). lia.
Qed.

Lemma entries_parse_Ok n : forall m r l r', Forall entry_read m -> NoDup (ids m) -> entries_parse tree_version n m r = Ok (l, r') ->
  Forall entry_read l /\ NoDup (ids l) /\ (length m <= length l <= length m + n)%nat.
Proof.
  induction n as [|n IH]; intros m r l r' Hm Hd H; cbn [entries_parse] in H; [injection H as <- _; split_and!; done || lia|].
  apply st_bind_Ok in H as ([i v] & r1 & He & H). apply entry_parse_Ok in He. cbn [fst snd] in H.
  assert (length (index_insert i v m) = length (ids (index_insert i v m))) as El by by rewrite length_map. rewrite index_insert_ids in El.
  apply IH in H as (H1 & H2 & H3); [|by apply index_insert_Forall|].
  - split_and!; try done; destruct (decide _); rewrite ?length_app, ?length_map in El; cbn in El; lia.
  - rewrite index_insert_ids. destruct (decide (i ∈ ids m)) as [|Hn]; [done|]. apply NoDup_app. split_and!; [done| |apply NoDup_singleton].
    intros j Hj ->%list_elem_of_singleton. done.
Qed.

(** An extension that was parsed has at most 127 variables, each once, with ids below 128 and none of a type of version 6. *)
Theorem extension_parse_sound (r r' : reader) (values : ContextExtension) :
  extension_parse tree_version r = Ok (values, r') ->
  Forall entry_read values /\ NoDup (ids values) /\ (length values <= 127)%nat.
Proof.
  intros H. apply st_bind_Ok in H as (n & r1 & En & H). destruct (Z.ltb_spec n 0) as [|Hn]; [done|].
  apply entries_parse_Ok in H as (H1 & H2 & H3); [|by constructor|by constructor]. split_and!; try done. cbn in H3.
  enough (n < 128) by lia. unfold map_st_err, get_i8, mbind, stateE_bind, result_map_err in En. destruct (get_u8 r) as [[b r4]|]; [|done]. injection En as <- _.
  pose proof (wrap_s_range 8 b ltac:(lia)) as Hw. unfold in_s in Hw. lia.
Qed.
End roundtrip.

(** * Concrete inputs *)

(** No values but constants and the generator. *)
#[export] Instance no_exprs : EvaluatedExprs := {|
  EvaluatedExpr := Empty_set;
  expr_parse_tagged _ := fun r => Ok (None, r);
  expr_serialize e := match e with end;
  expr_check_v6_type e := match e with end
|}.

Definition int_entry (i : Z) : Z * EvaluatedValue := (i, EvConstant (mkConstant SInt (LInt (i - 2)))).
Definition five_entries : ContextExtension := int_entry <$> [100; 3; 5; 1; 0].

Lemma int_entry_fits i : 0 <= i < 128 -> entry_fits 3 (int_entry i).
Proof. intros Hi. split; [done|]. split_and!; [done|cbn; unfold MAX_TYPE_DEPTH; lia|constructor; unfold in_s; lia|done]. Qed.

Lemma five_entries_fit : Forall (entry_fits 3) five_entries.
Proof. repeat (apply Forall_cons; split); try (apply int_entry_fits; lia). constructor. Qed.

(** The orders in the source's tests, which were observed on the JVM. *)
Example hamt_orders :
  map fst (written_order (int_entry <$> seqZ 0 6)) = [0; 5; 1; 2; 3; 4] /\
  map fst (written_order (int_entry <$> seqZ 0 8)) = [0; 5; 1; 6; 2; 7; 3; 4] /\
  map fst (written_order (int_entry <$> seqZ 0 32)) =
    [0; 5; 10; 24; 25; 14; 20; 29; 1; 6; 28; 21; 9; 13; 2; 17; 22; 27; 12; 7; 3; 18; 16; 31; 11; 26; 23; 8; 30; 19; 4; 15] /\
  map fst (written_order (int_entry <$> seqZ 0 128)) =
    [69; 101; 0; 88; 115; 5; 120; 10; 56; 42; 24; 37; 25; 52; 14; 110; 125; 20; 46; 93; 57; 78; 29; 106; 121; 84; 61; 89; 116; 1; 74; 6;
     60; 117; 85; 102; 28; 38; 70; 21; 33; 92; 65; 97; 9; 53; 109; 124; 77; 96; 13; 41; 73; 105; 2; 32; 34; 45; 64; 17; 22; 44; 59; 118;
     27; 71; 12; 54; 49; 86; 113; 81; 76; 7; 39; 98; 103; 91; 66; 108; 3; 80; 35; 112; 123; 48; 63; 18; 95; 50; 67; 16; 127; 31; 11; 72;
     43; 99; 87; 104; 40; 26; 55; 114; 23; 8; 75; 119; 58; 82; 36; 30; 51; 19; 107; 4; 126; 79; 94; 47; 15; 68; 62; 90; 111; 122; 83; 100].
Proof. split_and!; vm_compute; reflexivity. Qed.

Lemma extension_roundtrip_witness :
  exists k, extension_serialize 3 five_entries = Ok k /\
    extension_parse 3 (before k (mkReader [7] 0 U64_MAX 0%nat)) = Ok (written_order five_entries, past k (mkReader [7] 0 U64_MAX 0%nat)) /\
    map fst (written_order five_entries) = [0; 5; 1; 3; 100].
Proof.
  destruct (extension_roundtrip 3 five_entries) as (k & Ek & _ & _ & _ & Hp).
  - exact five_entries_fit.
  - refine (bool_decide_unpack _ _). vm_compute. exact I.
  - apply Nat.leb_le. reflexivity.
  - exists k. split; [exact Ek|]. split; [|vm_compute; reflexivity]. apply (Hp (mkReader [7] 0 U64_MAX 0%nat)); [by left|].
    repeat (apply Forall_cons; split); try (apply Nat.leb_le; reflexivity). constructor.
Defined.

Lemma extension_order_witness :
  exists k, extension_serialize 3 (reverse five_entries) = Ok k /\ extension_serialize 3 five_entries = Ok k.
Proof.
  assert (five_entries ≡ₚ reverse five_entries) as Hp by (symmetry; apply reverse_Permutation).
  assert (NoDup (map fst five_entries)) as Hd by (refine (bool_decide_unpack _ _); vm_compute; exact I).
  pose proof (extension_order 3 five_entries (reverse five_entries) Hd (entries_ids 3 _ five_entries_fit) ltac:(apply Nat.leb_le; reflexivity) Hp) as E.
  destruct (extension_serialize 3 five_entries) as [k|e] eqn:Ek; [exists k; rewrite <- E; split; reflexivity|].
  assert ((match extension_serialize 3 five_entries with Ok _ => true | Err _ => false end) = true) as H by reflexivity.
  rewrite Ek in H. discriminate H.
Defined.

(** The bytes, where there are some. *)
Definition bytes_of (values : ContextExtension) : list Z :=
  match extension_serialize 3 values with Ok k => k | Err _ => [] end.

(** Below five variables the order of insertion is kept, and bytes that hold five in another order than the hash map's are not
    written back as they were read. *)
Lemma order_of_bytes :
  (match extension_parse 3 (from_bytes [5; 100; 4; 2; 1; 4; 2; 2; 4; 2; 3; 4; 2; 0; 4; 2]) with
   | Ok (m, _) => bool_decide (bytes_of m = [5; 0; 4; 2; 1; 4; 2; 2; 4; 2; 3; 4; 2; 100; 4; 2])
   | Err _ => false
   end = true) /\
  bytes_of (int_entry <$> [9; 3]) = [2; 9; 4; 14; 3; 4; 2] /\ bytes_of (int_entry <$> [3; 9]) = [2; 3; 4; 2; 9; 4; 14].
Proof. split_and!; vm_compute; reflexivity. Qed.
