(* ===== verification/ExprSerial.v ===== *)
(** Expressions as bytes (src/ergotree-ir/src/serialization/expr.rs, bin_op.rs, check_build.rs, constant_store.rs,
    val_def_type_store.rs, op_code.rs, and the [sigma_serialize] and [sigma_parse] of the nodes in mir/): the writer with
    its store of segregated constants, the parser with the types of the variables it has seen, and the checks it makes
    when a node is built. At the op code of a node that [Expr] leaves out the parser fails with [SpUnmodelledNode]. *)

From stdpp Require Import strings gmap.
From S2P Require Import Prelude Gf2Field SigmaBoolean ConcreteCrypto Vlq Codecs SigmaSerial BigNum Header Types TypeSerial TypeParse Expr Value EvalOps EvalConcrete BigIntSerial DataSerial DataParse ContextExt.
#[local] Open Scope Z_scope.

(** * Op codes *)

Definition op_val_use : Z := new_op_code 2.
Definition op_constant_placeholder : Z := new_op_code 3.
Definition op_subst_constants : Z := new_op_code 4.
Definition op_long_to_byte_array : Z := new_op_code 10.
Definition op_byte_array_to_bigint : Z := new_op_code 11.
Definition op_byte_array_to_long : Z := new_op_code 12.
Definition op_downcast : Z := new_op_code 13.
Definition op_upcast : Z := new_op_code 14.
Definition op_coll : Z := new_op_code 19.
Definition op_coll_of_bool_const : Z := new_op_code 21.
Definition op_tuple : Z := new_op_code 22.
Definition op_select_field : Z := new_op_code 28.
Definition op_lt : Z := new_op_code 31.
Definition op_le : Z := new_op_code 32.
Definition op_gt : Z := new_op_code 33.
Definition op_ge : Z := new_op_code 34.
Definition op_eq : Z := new_op_code 35.
Definition op_neq : Z := new_op_code 36.
Definition op_if : Z := new_op_code 37.
Definition op_and : Z := new_op_code 38.
Definition op_or : Z := new_op_code 39.
Definition op_atleast : Z := new_op_code 40.
Definition op_minus : Z := new_op_code 41.
Definition op_plus : Z := new_op_code 42.
Definition op_xor : Z := new_op_code 43.
Definition op_multiply : Z := new_op_code 44.
Definition op_division : Z := new_op_code 45.
Definition op_modulo : Z := new_op_code 46.
Definition op_exponentiate : Z := new_op_code 47.
Definition op_multiply_group : Z := new_op_code 48.
Definition op_min : Z := new_op_code 49.
Definition op_max : Z := new_op_code 50.
Definition op_height : Z := new_op_code 51.
Definition op_inputs : Z := new_op_code 52.
Definition op_outputs : Z := new_op_code 53.
Definition op_last_block_utxo_root_hash : Z := new_op_code 54.
Definition op_self_box : Z := new_op_code 55.
Definition op_miner_pubkey : Z := new_op_code 60.
Definition op_map : Z := new_op_code 61.
Definition op_exists : Z := new_op_code 62.
Definition op_for_all : Z := new_op_code 63.
Definition op_fold : Z := new_op_code 64.
Definition op_size_of : Z := new_op_code 65.
Definition op_by_index : Z := new_op_code 66.
Definition op_append : Z := new_op_code 67.
Definition op_slice : Z := new_op_code 68.
Definition op_filter : Z := new_op_code 69.
Definition op_avl_tree : Z := new_op_code 70.
Definition op_avt_tree_get : Z := new_op_code 71.
Definition op_extract_amount : Z := new_op_code 81.
Definition op_extract_script_bytes : Z := new_op_code 82.
Definition op_extract_bytes : Z := new_op_code 83.
Definition op_extract_bytes_with_no_ref : Z := new_op_code 84.
Definition op_extract_id : Z := new_op_code 85.
Definition op_extract_register_as : Z := new_op_code 86.
Definition op_extract_creation_info : Z := new_op_code 87.
Definition op_calc_blake2b256 : Z := new_op_code 91.
Definition op_calc_sha256 : Z := new_op_code 92.
Definition op_prove_dlog : Z := new_op_code 93.
Definition op_prove_diffie_hellman_tuple : Z := new_op_code 94.
Definition op_sigma_prop_bytes : Z := new_op_code 96.
Definition op_bool_to_sigma_prop : Z := new_op_code 97.
Definition op_deserialize_context : Z := new_op_code 100.
Definition op_deserialize_register : Z := new_op_code 101.
Definition op_val_def : Z := new_op_code 102.
Definition op_fun_def : Z := new_op_code 103.
Definition op_block_value : Z := new_op_code 104.
Definition op_func_value : Z := new_op_code 105.
Definition op_apply : Z := new_op_code 106.
Definition op_property_call : Z := new_op_code 107.
Definition op_method_call : Z := new_op_code 108.
Definition op_global : Z := new_op_code 109.
Definition op_get_var : Z := new_op_code 115.
Definition op_option_get : Z := new_op_code 116.
Definition op_option_get_or_else : Z := new_op_code 117.
Definition op_option_is_defined : Z := new_op_code 118.
Definition op_sigma_and : Z := new_op_code 122.
Definition op_sigma_or : Z := new_op_code 123.
Definition op_bin_or : Z := new_op_code 124.
Definition op_bin_and : Z := new_op_code 125.
Definition op_decode_point : Z := new_op_code 126.
Definition op_logical_not : Z := new_op_code 127.
Definition op_negation : Z := new_op_code 128.
Definition op_bit_inversion : Z := new_op_code 129.
Definition op_bit_or : Z := new_op_code 130.
Definition op_bit_and : Z := new_op_code 131.
Definition op_bin_xor : Z := new_op_code 132.
Definition op_bit_xor : Z := new_op_code 133.
Definition op_context : Z := new_op_code 142.
Definition op_xor_of : Z := new_op_code 143.

(** [From<BinOpKind> for OpCode] and [HasOpCode for GlobalVars]. *)
Definition bin_op_code (kind : BinOpKind) : Z :=
  match kind with
  | Arith Plus => op_plus | Arith Minus => op_minus | Arith Multiply => op_multiply | Arith Divide => op_division
  | Arith Max => op_max | Arith Min => op_min | Arith Modulo => op_modulo
  | Relation REq => op_eq | Relation RNEq => op_neq | Relation RGe => op_ge | Relation RGt => op_gt
  | Relation RLe => op_le | Relation RLt => op_lt
  | Logical LogicalAnd => op_bin_and | Logical LogicalOr => op_bin_or | Logical LogicalXor => op_bin_xor
  | Bit BitOr => op_bit_or | Bit BitAnd => op_bit_and | Bit BitXor => op_bit_xor
  end.
Definition global_vars_op_code (v : GlobalVars) : Z :=
  match v with
  | SelfBox => op_self_box | Inputs => op_inputs | Outputs => op_outputs | Height => op_height
  | MinerPubKey => op_miner_pubkey | LastBlockUtxoRootHash => op_last_block_utxo_root_hash | GroupGenerator => op_group_generator
  end.

(** * The writer *)

(** The relations and the logical operations write two constants as a pair of bits. *)
Definition has_pair_form (kind : BinOpKind) : bool :=
  match kind with Relation _ | Logical _ => true | _ => false end.

Section serialize.
Context `{C : SigmaCrypto} {B : NumBigint} {Bx : ErgoBoxData} {BS : BoxSerial Bx} {N : BnumBytes}.
Context (tree_version : Z).

(** A [SigmaByteWriter] over the [ConstantStore] it may have. *)
Definition writer (A : Type) : Type := stateE (option (list Constant)) SigmaSerializationError A.

Definition write_all (bytes : list Z) : writer (list Z) := mret bytes.
(** The writers of numbers that give [None] panic. *)
Definition write_number (bytes : option (list Z)) : writer (list Z) := liftE (ok_or bytes SerPanic).
Definition write_op (op_code : Z) : writer (list Z) := write_all (put_u8 op_code).
Definition write_type (t : SType) : writer (list Z) := liftE (stype_serialize tree_version t).
Definition w_then (a b : writer (list Z)) : writer (list Z) := x ← a; y ← b; mret (x ++ y).
#[local] Infix ">>>" := w_then (at level 60, right associativity).

Fixpoint w_all {A} (f : A -> writer (list Z)) (items : list A) : writer (list Z) :=
  match items with [] => write_all [] | x :: items => f x >>> w_all f items end.

(** [Vec<T>]: its length as a u32, and its items. *)
Definition vec_serialize {A} (f : A -> writer (list Z)) (items : list A) : writer (list Z) :=
  write_number (put_u32 (wrap_u 32 (Z.of_nat (length items)))) >>> w_all f items.

(** [ConstantStore::put], which checks that the ids fit. *)
Definition store_put (c : Constant) (store : list Constant) : result SigmaSerializationError (Z * list Constant) :=
  let store := store ++ [c] in
  _ ← guard_or (Z.of_nat (length store) <? 2 ^ 32) SerPanic;
  Ok (Z.of_nat (length store) - 1, store).

(** A constant: in the store if there is one, a placeholder in its stead. *)
Definition const_serialize (c : Constant) : writer (list Z) := fun store =>
  match store with
  | Some cs =>
      match store_put c cs with
      | Ok (id, cs) => (write_op op_constant_placeholder >>> write_number (put_u32 id)) (Some cs)
      | Err e => Err e
      end
  | None => liftE (constant_serialize tree_version c) None
  end.

Definition try_extract_bool (l : Literal) : result SigmaSerializationError bool :=
  match l with LBoolean b => Ok b | _ => Err SerUnexpectedValue end.

(** The two constants of type Boolean that a relation or a logical operation has. *)
Definition bool_operands (kind : BinOpKind) (lhs rhs : Expr) : option (Literal * Literal) :=
  match lhs, rhs with
  | Const (mkConstant SBoolean l), Const (mkConstant SBoolean r) => if has_pair_form kind then Some (l, r) else None
  | _, _ => None
  end.

Definition bool_pair_serialize (l r : Literal) : writer (list Z) :=
  write_op op_coll_of_bool_const >>> (l ← liftE (try_extract_bool l); r ← liftE (try_extract_bool r); write_all (put_bits [l; r])).

Definition is_const (e : Expr) : bool := match e with Const _ => true | _ => false end.

Definition func_arg_serialize (a : FuncArg) : writer (list Z) := write_number (put_u32 (arg_idx a)) >>> write_type (arg_tpe a).

Definition tpe_args_serialize (tpe_args : list STypeVar) : writer (list Z) :=
  match tpe_args with
  | [] => write_all []
  | _ => write_all (put_u8 (wrap_u 8 (Z.of_nat (length tpe_args)))) >>> w_all (fun v => write_type (SVar v)) tpe_args
  end.

(** [SigmaSerializable for Expr] *)
Fixpoint serialize_expr (e : Expr) : writer (list Z) :=
  match e with
  | Const c => const_serialize c
  | Append input col_2 => write_op op_append >>> serialize_expr input >>> serialize_expr col_2
  | Fold input zero fold_op => write_op op_fold >>> serialize_expr input >>> serialize_expr zero >>> serialize_expr fold_op
  | ConstPlaceholder id _ => write_op op_constant_placeholder >>> write_number (put_u32 id)
  | ByteArrayToLong input => write_op op_byte_array_to_long >>> serialize_expr input
  | ByteArrayToBigInt input => write_op op_byte_array_to_bigint >>> serialize_expr input
  | LongToByteArray input => write_op op_long_to_byte_array >>> serialize_expr input
  | EGlobalVars v => write_op (global_vars_op_code v)
  | EGlobal => write_op op_global
  | EContext => write_op op_context
  | OptionGet input => write_op op_option_get >>> serialize_expr input
  | BinOp kind lhs rhs =>
      write_op (bin_op_code kind) >>>
      match bool_operands kind lhs rhs with
      | Some (l, r) => bool_pair_serialize l r
      | None => serialize_expr lhs >>> serialize_expr rhs
      end
  | BlockValue items result => write_op op_block_value >>> vec_serialize serialize_expr items >>> serialize_expr result
  | ValUse val_id _ => write_op op_val_use >>> write_number (put_u32 val_id)
  | ValDef id tpe_args rhs =>
      write_op (match tpe_args with [] => op_val_def | _ => op_fun_def end) >>>
      write_number (put_u32 id) >>> tpe_args_serialize tpe_args >>> serialize_expr rhs
  | FuncValue args body _ => write_op op_func_value >>> vec_serialize func_arg_serialize args >>> serialize_expr body
  | Apply func args => write_op op_apply >>> serialize_expr func >>> vec_serialize serialize_expr args
  | SelectField input field_index _ => write_op op_select_field >>> serialize_expr input >>> write_all (put_u8 field_index)
  | CalcBlake2b256 input => write_op op_calc_blake2b256 >>> serialize_expr input
  | CalcSha256 input => write_op op_calc_sha256 >>> serialize_expr input
  | BoolConstants bools =>
      write_op op_coll_of_bool_const >>> write_number (put_u16 (wrap_u 16 (Z.of_nat (length bools)))) >>> write_all (put_bits bools)
  | Exprs elem_tpe items =>
      write_op op_coll >>> write_number (put_u16 (wrap_u 16 (Z.of_nat (length items)))) >>> write_type elem_tpe >>> w_all serialize_expr items
  | And input => write_op op_and >>> serialize_expr input
  | Or input => write_op op_or >>> serialize_expr input
  | Xor lhs rhs => write_op op_xor >>> serialize_expr lhs >>> serialize_expr rhs
  | Atleast bound input => write_op op_atleast >>> serialize_expr bound >>> serialize_expr input
  | LogicalNot input => write_op op_logical_not >>> serialize_expr input
  | Map input mapper _ => write_op op_map >>> serialize_expr input >>> serialize_expr mapper
  | Filter input condition _ => write_op op_filter >>> serialize_expr input >>> serialize_expr condition
  | BoolToSigmaProp input => write_op op_bool_to_sigma_prop >>> serialize_expr input
  | Upcast input t =>
      if is_const input && (tree_version <? V3) then serialize_expr input
      else write_op op_upcast >>> serialize_expr input >>> write_type t
  | Downcast input t => write_op op_downcast >>> serialize_expr input >>> write_type t
  | If condition true_branch false_branch =>
      write_op op_if >>> serialize_expr condition >>> serialize_expr true_branch >>> serialize_expr false_branch
  | ByIndex input index default =>
      write_op op_by_index >>> serialize_expr input >>> serialize_expr index >>>
      match default with Some d => write_all (put_u8 1) >>> serialize_expr d | None => write_all (put_u8 0) end
  | SizeOf input => write_op op_size_of >>> serialize_expr input
  | Slice input from until => write_op op_slice >>> serialize_expr input >>> serialize_expr from >>> serialize_expr until
  | CreateProveDlog input => write_op op_prove_dlog >>> serialize_expr input
  | CreateProveDhTuple g h u v =>
      write_op op_prove_diffie_hellman_tuple >>> serialize_expr g >>> serialize_expr h >>> serialize_expr u >>> serialize_expr v
  | Exists input condition _ => write_op op_exists >>> serialize_expr input >>> serialize_expr condition
  | ForAll input condition _ => write_op op_for_all >>> serialize_expr input >>> serialize_expr condition
  | OptionIsDefined input => write_op op_option_is_defined >>> serialize_expr input
  | OptionGetOrElse input default => write_op op_option_get_or_else >>> serialize_expr input >>> serialize_expr default
  | Negation input => write_op op_negation >>> serialize_expr input
  | BitInversion input => write_op op_bit_inversion >>> serialize_expr input
  | Tuple items => write_op op_tuple >>> write_all (put_u8 (wrap_u 8 (Z.of_nat (length items)))) >>> w_all serialize_expr items
  | SigmaAnd items => write_op op_sigma_and >>> vec_serialize serialize_expr items
  | SigmaOr items => write_op op_sigma_or >>> vec_serialize serialize_expr items
  | MultiplyGroup lhs rhs => write_op op_multiply_group >>> serialize_expr lhs >>> serialize_expr rhs
  | XorOf input => write_op op_xor_of >>> serialize_expr input
  end.
End serialize.

(** * The checks made when a node is built *)

Section build.
Context `{C : SigmaCrypto} {Bx : ErgoBoxData}.
Context (tree_version : Z).

(** [Expr::post_eval_tpe] *)
Definition post_eval_tpe (e : Expr) : SType := match tpe e with SFunc _ t_range _ => t_range | t => t end.

(** The order [max] upcasts by. *)
Definition numeric_type_index (t : SType) : option Z :=
  match t with
  | SByte => Some 0 | SShort => Some 1 | SInt => Some 2 | SLong => Some 3 | SBigInt => Some 4 | SUnsignedBigInt => Some 5
  | _ => None
  end.

Definition is_num_type_or_no_type (t : SType) : bool := is_numeric t || bool_decide (t = SNoType).

(** Below version 3, two numeric operands of different types are cast to the wider. *)
Definition apply_upcast (lhs rhs : Expr) : Expr * Expr :=
  if V3 <=? tree_version then (lhs, rhs)
  else
    let lt := tpe lhs in let rt := tpe rhs in
    match numeric_type_index lt, numeric_type_index rt with
    | Some li, Some ri =>
        if li =? ri then (lhs, rhs)
        else
          let tmax := if li >? ri then lt else rt in
          let upcast e := if bool_decide (tpe e = tmax) then e else Upcast e tmax in
          (upcast lhs, upcast rhs)
    | _, _ => (lhs, rhs)
    end.

Definition check2_same_type (lhs rhs : Expr) : result SigmaParsingError unit :=
  guard_or (bool_decide (tpe lhs = tpe rhs)) SpConstraintFailed.
Definition check2_only_numeric (lhs rhs : Expr) : result SigmaParsingError unit :=
  guard_or (is_numeric (tpe lhs) && is_numeric (tpe rhs)) SpConstraintFailed.

(** The deserializing builder. *)
Definition apply_builder (e : Expr) : result SigmaParsingError Expr :=
  match e with
  | BinOp kind lhs rhs =>
      match kind with
      | Relation (REq | RNEq) =>
          let '(lhs, rhs) := apply_upcast lhs rhs in
          _ ← check2_same_type lhs rhs; Ok (BinOp kind lhs rhs)
      | Relation _ =>
          _ ← check2_only_numeric lhs rhs;
          let '(lhs, rhs) := apply_upcast lhs rhs in
          _ ← check2_same_type lhs rhs; Ok (BinOp kind lhs rhs)
      | Arith _ => let '(lhs, rhs) := apply_upcast lhs rhs in Ok (BinOp kind lhs rhs)
      | Logical _ | Bit _ => Ok e
      end
  | _ => Ok e
  end.

Definition require_num_type_or_no_type (input : Expr) : result SigmaParsingError unit :=
  guard_or (is_num_type_or_no_type (tpe input)) SpNumericOperandExpected.
Definition require_collection (input : Expr) : result SigmaParsingError unit :=
  guard_or (match tpe input with SColl _ | STuple _ => true | _ => false end) SpCollectionInputExpected.
Definition require_option (input : Expr) : result SigmaParsingError unit :=
  guard_or (match tpe input with SOption _ => true | _ => false end) SpOptionInputExpected.
Definition require_numeric_cast (input : Expr) (target : SType) : result SigmaParsingError unit :=
  _ ← guard_or (is_numeric target) SpNumericCastTargetNotNumeric;
  guard_or (is_numeric (tpe input)) SpNumericOperandExpected.

(** What the node's constructor requires. *)
Definition check_constructor (e : Expr) : result SigmaParsingError unit :=
  match e with
  | Upcast input t | Downcast input t => require_numeric_cast input t
  | Negation input | BitInversion input => require_num_type_or_no_type input
  | OptionGet input | OptionGetOrElse input _ => require_option input
  | Append input _ | Slice input _ _ | ByIndex input _ _ => require_collection input
  | BinOp (Bit _) lhs rhs =>
      guard_or (is_num_type_or_no_type (tpe lhs) && is_num_type_or_no_type (tpe rhs)) SpBitOpOperandsNotNumeric
  | _ => Ok tt
  end.

Definition check_build (e : Expr) : result SigmaParsingError Expr :=
  e ← apply_builder e; _ ← check_constructor e; Ok e.

(** [Filter::new] *)
Definition filter_new (input condition : Expr) : result SigmaParsingError Expr :=
  match post_eval_tpe input, tpe condition with
  | SColl elem, SFunc [dom] range _ =>
      if bool_decide (dom = elem /\ range = SBoolean) then Ok (Filter input condition elem) else Err SpInvalidArgument
  | _, _ => Err SpInvalidArgument
  end.

(** [parsed_elem_tpe] *)
Definition parsed_elem_tpe (input : Expr) : SType :=
  match tpe input with SColl elem_tpe => elem_tpe | STuple _ => SAny | _ => SNoType end.

(** [SelectField::new] *)
Definition select_field_new (input : Expr) (field_index : Z) : result SigmaParsingError Expr :=
  match tpe input with
  | STuple items =>
      match items !! Z.to_nat (field_index - 1) with
      | Some field_tpe => Ok (SelectField input field_index field_tpe)
      | None => Err SpInvalidArgument
      end
  | _ => Err SpInvalidArgument
  end.

(** The parse of [Map] takes the mapper's type. *)
Definition map_new (input mapper : Expr) : result SigmaParsingError Expr :=
  match tpe mapper with
  | SFunc t_dom t_range tpe_params => Ok (Map input mapper (mkSFunc t_dom t_range tpe_params))
  | _ => Err SpFunctionExpected
  end.

(** [Tuple::new] *)
Definition tuple_new (items : list Expr) : result SigmaParsingError Expr :=
  if (2 <=? length items)%nat && (length items <=? 255)%nat then Ok (Tuple items) else Err (SpBoundedVecOutOfBounds (length items)).

(** The booleans of constants of type Boolean. *)
Definition bool_const (e : Expr) : option bool :=
  match e with Const (mkConstant _ (LBoolean b)) => Some b | _ => None end.

(** [Collection::from_typed_items] *)
Definition from_typed_items (elem_tpe : SType) (items : list Expr) : Expr :=
  match elem_tpe, mapM bool_const items with
  | SBoolean, Some bools => BoolConstants bools
  | _, _ => Exprs elem_tpe items
  end.

(** [upcast_index_to_int] *)
Definition upcast_index_to_int (index : Expr) : result SigmaParsingError Expr :=
  match tpe index with
  | SInt => Ok index
  | SByte | SShort => Ok (Upcast index SInt)
  | _ => Err SpIndexUpcastFailed
  end.
End build.

(** * The parser *)

(** A [SigmaByteReader] with its [ValDefTypeStore]. *)
Record expr_reader : Type := mkExprReader {
  xr_reader : reader;
  xr_types : gmap Z SType
}.

Definition MAX_ARRAY_LENGTH : Z := 100000.

Section parse.
Context `{C : SigmaCrypto} `{P : !SigmaCryptoParsing C} {B : NumBigint} {Bx : ErgoBoxData} {BS : BoxSerial Bx} {M : Bnum} {N : BnumBytes}.

(** The reader's tree version, its [ConstantStore] and whether it substitutes placeholders. *)
Context (tree_version : Z) (constants : list Constant) (substitute_placeholders : bool).

Abbreviation io := (map_st_err sigma_io_error).
Abbreviation vlq := (map_st_err SpVlqEncode).

Definition parser (A : Type) : Type := stateE expr_reader SigmaParsingError A.

Definition on_reader {A} (m : stateE reader SigmaParsingError A) : parser A := fun s =>
  match m (xr_reader s) with Ok (x, r) => Ok (x, mkExprReader r (xr_types s)) | Err e => Err e end.

(** [ValDefTypeStore::insert] and [ValDefTypeStore::get]. *)
Definition insert_type (id : ValId) (t : SType) : parser unit := fun s =>
  Ok (tt, mkExprReader (xr_reader s) (<[id := t]> (xr_types s))).
Definition get_type (id : ValId) : parser SType := fun s =>
  match xr_types s !! id with Some t => Ok (t, s) | None => Err (SpValDefIdNotFound id) end.

(** [for _ in 0..n { items.push(m(r)?) }] *)
Section repeat.
Context {A : Type} (m : parser A).
Fixpoint repeat_parse (n : nat) : parser (list A) :=
  match n with
  | O => mret []
  | S n => x ← m; l ← repeat_parse n; mret (x :: l)
  end.
End repeat.

Definition array_length (n : Z) : result SigmaParsingError unit := guard_or (n <=? MAX_ARRAY_LENGTH) (SpArrayLengthExceeded n).

(** [SigmaSerializable for Vec] *)
Definition vec_parse {A} (m : parser A) : parser (list A) :=
  items_count ← on_reader (vlq get_u32);
  _ ← liftE (array_length items_count);
  repeat_parse m (Z.to_nat items_count).

Definition type_parse : parser SType := on_reader (stype_parse tree_version).

Definition func_arg_parse : parser FuncArg :=
  idx ← on_reader (vlq get_u32); t ← type_parse; mret (mkFuncArg idx t).

(** [ValId::sigma_parse_exact] *)
Definition val_id_parse_exact : parser ValId :=
  id ← on_reader (vlq get_u32);
  _ ← liftE (guard_or (id <=? 2 ^ 31 - 1) (SpExceedsIntMax id));
  mret id.

Definition type_var_arg_parse : parser STypeVar :=
  t ← type_parse;
  match t with SVar v => mret v | _ => fail SpInvalidTypeParameter end.

Section nodes.
(** [Expr::sigma_parse] one level down. *)
Context (expr_parse : parser Expr).

Definition parse1 (build : Expr -> Expr) : parser Expr := a ← expr_parse; mret (build a).
Definition parse2 (build : Expr -> Expr -> Expr) : parser Expr := a ← expr_parse; b ← expr_parse; mret (build a b).
Definition parse3 (build : Expr -> Expr -> Expr -> Expr) : parser Expr :=
  a ← expr_parse; b ← expr_parse; c ← expr_parse; mret (build a b c).
Definition parse4 (build : Expr -> Expr -> Expr -> Expr -> Expr) : parser Expr :=
  a ← expr_parse; b ← expr_parse; c ← expr_parse; d ← expr_parse; mret (build a b c d).

(** [bin_op_sigma_parse] *)
Definition bin_op_parse (kind : BinOpKind) : parser Expr :=
  next ← (if has_pair_form kind then on_reader (io peek_u8) else mret 0);
  if has_pair_form kind && (next =? op_coll_of_bool_const) then
    _ ← on_reader (io get_u8);
    bools ← on_reader (vlq (get_bits 2));
    let c (i : nat) := Const (mkConstant SBoolean (LBoolean (nth i bools false))) in
    mret (BinOp kind (c 0%nat) (c 1%nat))
  else parse2 (BinOp kind).

Definition placeholder_parse : parser Expr :=
  id ← on_reader (vlq get_u32);
  match constants !! Z.to_nat id with
  | Some c => mret (if substitute_placeholders then Const c else ConstPlaceholder id (const_tpe c))
  | None => fail (SpConstantForPlaceholderNotFound id)
  end.

Definition val_use_parse : parser Expr :=
  val_id ← on_reader (vlq get_u32); t ← get_type val_id; mret (ValUse val_id t).

Definition val_def_parse : parser Expr :=
  id ← val_id_parse_exact;
  rhs ← expr_parse;
  _ ← insert_type id (tpe rhs);
  mret (ValDef id [] rhs).

(** [ValDef::sigma_parse_fun_def] *)
Definition fun_def_parse : parser Expr :=
  id ← val_id_parse_exact;
  n_tpe_args ← on_reader (io get_i8);
  _ ← liftE (guard_or (0 <=? n_tpe_args) SpInvalidTypeParameter);
  tpe_args ← repeat_parse type_var_arg_parse (Z.to_nat n_tpe_args);
  rhs ← expr_parse;
  _ ← insert_type id (tpe rhs);
  mret (ValDef id tpe_args rhs).

Definition block_item_parse : parser Expr :=
  item ← expr_parse;
  match item with ValDef _ _ _ => mret item | _ => fail SpBlockItemNotValDef end.

Definition block_value_parse : parser Expr :=
  items ← vec_parse block_item_parse;
  result ← expr_parse;
  mret (BlockValue items result).

Definition insert_arg_types (args : list FuncArg) : parser unit := fun s =>
  Ok (tt, mkExprReader (xr_reader s) (fold_left (fun types a => <[arg_idx a := arg_tpe a]> types) args (xr_types s))).

Definition func_value_parse : parser Expr :=
  args ← vec_parse func_arg_parse;
  _ ← insert_arg_types args;
  body ← expr_parse;
  mret (func_value_new args body).

Definition apply_parse : parser Expr := func ← expr_parse; args ← vec_parse expr_parse; mret (Apply func args).

Definition select_field_parse : parser Expr :=
  input ← expr_parse;
  field_index ← on_reader (io get_u8);
  _ ← liftE (guard_or (1 <=? field_index) SpValueOutOfBounds);
  liftE (select_field_new input field_index).

Definition coll_item_parse (elem_tpe : SType) : parser Expr :=
  item ← expr_parse;
  _ ← liftE (guard_or (bool_decide (tpe item = elem_tpe)) SpCollectionItemTypeMismatch);
  mret item.

(** [coll_sigma_parse] and [bool_const_coll_sigma_parse]. *)
Definition coll_parse : parser Expr :=
  items_count ← on_reader count_u16;
  elem_tpe ← type_parse;
  items ← repeat_parse (coll_item_parse elem_tpe) (Z.to_nat items_count);
  mret (from_typed_items elem_tpe items).
Definition bool_const_coll_parse : parser Expr :=
  items_count ← on_reader count_u16;
  bools ← on_reader (vlq (get_bits (Z.to_nat items_count)));
  mret (BoolConstants bools).

Definition map_parse : parser Expr := input ← expr_parse; mapper ← expr_parse; liftE (map_new input mapper).
Definition filter_parse : parser Expr := input ← expr_parse; condition ← expr_parse; liftE (filter_new input condition).

Definition cast_parse (build : Expr -> SType -> Expr) : parser Expr := input ← expr_parse; t ← type_parse; mret (build input t).

Definition by_index_parse : parser Expr :=
  input ← expr_parse;
  index ← expr_parse;
  index ← (if tree_version <? V3 then liftE (upcast_index_to_int index) else mret index);
  tag ← on_reader (io get_u8);
  default ← (if negb (tag =? 0) then d ← expr_parse; mret (Some d) else mret None);
  mret (ByIndex input index default).

Definition tuple_parse : parser Expr :=
  items_count ← on_reader (io get_u8);
  items ← repeat_parse expr_parse (Z.to_nat items_count);
  liftE (tuple_new items).

(** The op codes of the nodes that [Expr] leaves out. *)
Definition unmodelled_ops : list Z :=
  [op_subst_constants; op_exponentiate; op_avl_tree; op_avt_tree_get; op_extract_amount; op_extract_script_bytes; op_extract_bytes;
   op_extract_bytes_with_no_ref; op_extract_id; op_extract_register_as; op_extract_creation_info; op_sigma_prop_bytes;
   op_deserialize_context; op_deserialize_register; op_property_call; op_method_call; op_get_var; op_decode_point].

(** The arms of [Expr::parse_tagged]. *)
Definition arm (tag : Z) : option (parser Expr) :=
  if tag =? op_append then Some (parse2 Append)
  else if tag =? op_fold then Some (parse3 Fold)
  else if tag =? op_constant_placeholder then Some placeholder_parse
  else if tag =? op_true then Some (mret (Const (mkConstant SBoolean (LBoolean true))))
  else if tag =? op_false then Some (mret (Const (mkConstant SBoolean (LBoolean false))))
  else if tag =? op_height then Some (mret (EGlobalVars Height))
  else if tag =? op_self_box then Some (mret (EGlobalVars SelfBox))
  else if tag =? op_inputs then Some (mret (EGlobalVars Inputs))
  else if tag =? op_outputs then Some (mret (EGlobalVars Outputs))
  else if tag =? op_miner_pubkey then Some (mret (EGlobalVars MinerPubKey))
  else if tag =? op_group_generator then Some (mret (EGlobalVars GroupGenerator))
  else if tag =? op_last_block_utxo_root_hash then Some (mret (EGlobalVars LastBlockUtxoRootHash))
  else if tag =? op_global then Some (mret EGlobal)
  else if tag =? op_context then Some (mret EContext)
  else if tag =? op_option_get then Some (parse1 OptionGet)
  else if tag =? op_option_is_defined then Some (parse1 OptionIsDefined)
  else if tag =? op_option_get_or_else then Some (parse2 OptionGetOrElse)
  else if tag =? op_eq then Some (bin_op_parse (Relation REq))
  else if tag =? op_neq then Some (bin_op_parse (Relation RNEq))
  else if tag =? op_negation then Some (parse1 Negation)
  else if tag =? op_bit_inversion then Some (parse1 BitInversion)
  else if tag =? op_logical_not then Some (parse1 LogicalNot)
  else if tag =? op_bin_and then Some (bin_op_parse (Logical LogicalAnd))
  else if tag =? op_bin_or then Some (bin_op_parse (Logical LogicalOr))
  else if tag =? op_bin_xor then Some (bin_op_parse (Logical LogicalXor))
  else if tag =? op_gt then Some (bin_op_parse (Relation RGt))
  else if tag =? op_lt then Some (bin_op_parse (Relation RLt))
  else if tag =? op_ge then Some (bin_op_parse (Relation RGe))
  else if tag =? op_le then Some (bin_op_parse (Relation RLe))
  else if tag =? op_plus then Some (bin_op_parse (Arith Plus))
  else if tag =? op_minus then Some (bin_op_parse (Arith Minus))
  else if tag =? op_multiply then Some (bin_op_parse (Arith Multiply))
  else if tag =? op_division then Some (bin_op_parse (Arith Divide))
  else if tag =? op_max then Some (bin_op_parse (Arith Max))
  else if tag =? op_min then Some (bin_op_parse (Arith Min))
  else if tag =? op_modulo then Some (bin_op_parse (Arith Modulo))
  else if tag =? op_bit_or then Some (bin_op_parse (Bit BitOr))
  else if tag =? op_bit_and then Some (bin_op_parse (Bit BitAnd))
  else if tag =? op_bit_xor then Some (bin_op_parse (Bit BitXor))
  else if tag =? op_block_value then Some block_value_parse
  else if tag =? op_func_value then Some func_value_parse
  else if tag =? op_apply then Some apply_parse
  else if tag =? op_val_def then Some val_def_parse
  else if tag =? op_fun_def then Some fun_def_parse
  else if tag =? op_val_use then Some val_use_parse
  else if tag =? op_select_field then Some select_field_parse
  else if tag =? op_calc_blake2b256 then Some (parse1 CalcBlake2b256)
  else if tag =? op_calc_sha256 then Some (parse1 CalcSha256)
  else if tag =? op_and then Some (parse1 And)
  else if tag =? op_or then Some (parse1 Or)
  else if tag =? op_xor then Some (parse2 Xor)
  else if tag =? op_atleast then Some (parse2 Atleast)
  else if tag =? op_coll then Some coll_parse
  else if tag =? op_coll_of_bool_const then Some bool_const_coll_parse
  else if tag =? op_map then Some map_parse
  else if tag =? op_filter then Some filter_parse
  else if tag =? op_exists then Some (parse2 (fun input condition => Exists input condition (parsed_elem_tpe input)))
  else if tag =? op_for_all then Some (parse2 (fun input condition => ForAll input condition (parsed_elem_tpe input)))
  else if tag =? op_bool_to_sigma_prop then Some (parse1 BoolToSigmaProp)
  else if tag =? op_upcast then Some (cast_parse Upcast)
  else if tag =? op_downcast then Some (cast_parse Downcast)
  else if tag =? op_if then Some (parse3 If)
  else if tag =? op_by_index then Some by_index_parse
  else if tag =? op_size_of then Some (parse1 SizeOf)
  else if tag =? op_slice then Some (parse3 Slice)
  else if tag =? op_prove_dlog then Some (parse1 CreateProveDlog)
  else if tag =? op_prove_diffie_hellman_tuple then Some (parse4 CreateProveDhTuple)
  else if tag =? op_tuple then Some tuple_parse
  else if tag =? op_byte_array_to_long then Some (parse1 ByteArrayToLong)
  else if tag =? op_byte_array_to_bigint then Some (parse1 ByteArrayToBigInt)
  else if tag =? op_long_to_byte_array then Some (parse1 LongToByteArray)
  else if tag =? op_sigma_and then Some (items ← vec_parse expr_parse; mret (SigmaAnd items))
  else if tag =? op_sigma_or then Some (items ← vec_parse expr_parse; mret (SigmaOr items))
  else if tag =? op_multiply_group then Some (parse2 MultiplyGroup)
  else if tag =? op_xor_of then Some (parse1 XorOf)
  else None.

(** [Expr::parse_tagged] *)
Definition parse_tagged (tag : Z) : parser Expr :=
  if tag <=? LAST_CONSTANT_CODE then Const <$> on_reader (constant_parse_with_tag tree_version tag)
  else
    match arm tag with
    | Some m => e ← m; liftE (check_build tree_version e)
    | None => fail (if bool_decide (tag ∈ unmodelled_ops) then SpUnmodelledNode tag else SpNotImplementedOpCode tag)
    end.

(** One nesting level around a value. *)
Definition value_at_next_level : parser Expr :=
  depth ← on_reader level;
  _ ← on_reader (set_level (depth + 1));
  _ ← on_reader (io peek_u8);
  tag ← on_reader (io get_u8);
  e ← parse_tagged tag;
  depth ← on_reader level;
  _ ← on_reader (set_level (depth - 1));
  mret e.
End nodes.

Fixpoint parse_expr_fuel (fuel : nat) : parser Expr :=
  match fuel with
  | O => fail SpOutOfFuel
  | S fuel => value_at_next_level (parse_expr_fuel fuel)
  end.

(** [Expr::sigma_parse]; the level bounds the recursion. *)
Definition parse_expr : parser Expr := fun s => parse_expr_fuel (parse_fuel (xr_reader s)) s.
End parse.
