(* ===== verification/ExprBack.v ===== *)
(** The round trip of expressions (ExprSerial): the expressions whose nodes pass the checks of the parser ([built], with
    the types of the variables read so far), and that their bytes parse back to them. *)

From stdpp Require Import strings gmap.
From S2P Require Import Prelude Gf2Field SigmaBoolean ConcreteCrypto Vlq Codecs SigmaSerial BigNum Header Types TypeSerial TypeParse Expr Value EvalOps EvalConcrete BigIntSerial DataSerial DataParse ContextExt ExprSerial.
#[local] Open Scope Z_scope.

(** Types of variables, by their ids. *)
Abbreviation Store := (gmap Z SType).

(** * Expressions and their parts *)

Section parts.
Context `{C : SigmaCrypto} {Bx : ErgoBoxData}.

(** [Traversable::children] of [Expr]. *)
Definition children (e : Expr) : list Expr :=
  match e with
  | Const _ | ConstPlaceholder _ _ | BoolConstants _ | EContext | EGlobal | EGlobalVars _ | ValUse _ _ => []
  | ByteArrayToLong e | ByteArrayToBigInt e | LongToByteArray e | CalcBlake2b256 e | CalcSha256 e
  | FuncValue _ e _ | ValDef _ _ e | And e | Or e | XorOf e | LogicalNot e | Negation e | BitInversion e
  | OptionGet e | OptionIsDefined e | SizeOf e | SelectField e _ _ | BoolToSigmaProp e | Upcast e _
  | Downcast e _ | CreateProveDlog e => [e]
  | Append a b | BinOp _ a b | Xor a b | Atleast a b | OptionGetOrElse a b | Map a b _ | Filter a b _
  | Exists a b _ | ForAll a b _ | MultiplyGroup a b => [a; b]
  | If a b c | Slice a b c | Fold a b c => [a; b; c]
  | ByIndex a b d => a :: b :: match d with Some c => [c] | None => [] end
  | CreateProveDhTuple a b c d => [a; b; c; d]
  | Exprs _ items | Tuple items | SigmaAnd items | SigmaOr items => items
  | Apply func args => func :: args
  | BlockValue items result => items ++ [result]
  end.

Lemma expr_children_ind (Q : Expr -> Prop) : (forall e, Forall Q (children e) -> Q e) -> forall e, Q e.
Proof.
  intros H. fix IH 1. intros e. apply H.
  assert (forall l, Forall Q l) as Hl by (intros l; induction l as [|x l IHl]; constructor; [apply IH|exact IHl]).
  destruct e; cbn [children]; repeat first [apply Forall_nil_2 | apply Forall_cons_2; [apply IH|]];
    match goal with
    | d : option Expr |- _ => destruct d; repeat constructor; apply IH
    | |- Forall Q (?items ++ _) => induction items as [|x items IHi]; repeat constructor; [apply IH..|exact IHi]
    | |- Forall Q ?l => exact (Hl l)
    end.
Qed.

(** The constants inside, those in the bytes of pairs of booleans included. *)
Fixpoint consts (e : Expr) : list Constant :=
  match e with
  | Const c => [c]
  | ConstPlaceholder _ _ | BoolConstants _ | EContext | EGlobal | EGlobalVars _ | ValUse _ _ => []
  | ByteArrayToLong e | ByteArrayToBigInt e | LongToByteArray e | CalcBlake2b256 e | CalcSha256 e
  | FuncValue _ e _ | ValDef _ _ e | And e | Or e | XorOf e | LogicalNot e | Negation e | BitInversion e
  | OptionGet e | OptionIsDefined e | SizeOf e | SelectField e _ _ | BoolToSigmaProp e | Upcast e _
  | Downcast e _ | CreateProveDlog e => consts e
  | Append a b | BinOp _ a b | Xor a b | Atleast a b | OptionGetOrElse a b | Map a b _ | Filter a b _
  | Exists a b _ | ForAll a b _ | MultiplyGroup a b => consts a ++ consts b
  | If a b c | Slice a b c | Fold a b c => consts a ++ consts b ++ consts c
  | ByIndex a b d => consts a ++ consts b ++ match d with Some c => consts c | None => [] end
  | CreateProveDhTuple a b c d => consts a ++ consts b ++ consts c ++ consts d
  | Exprs _ items | Tuple items | SigmaAnd items | SigmaOr items => concat (map consts items)
  | Apply func args => consts func ++ concat (map consts args)
  | BlockValue items result => concat (map consts items) ++ consts result
  end.
End parts.

(** * What a parse builds *)

Section built.
Context `{C : SigmaCrypto} {B : NumBigint} {Bx : ErgoBoxData}.
Context (tree_version : Z) (constants : list Constant) (substitute : bool).

(** A constant below version 3 is written for an [Upcast] of it; the parser casts the operand of an operation again. *)
Definition cast_again (e : Expr) : bool :=
  match e with Upcast a _ => is_const a && (tree_version <? V3) | _ => false end.
Definition operand (e : Expr) : Expr :=
  match e with Upcast a _ => if is_const a && (tree_version <? V3) then a else e | _ => e end.

Definition is_pair (kind : BinOpKind) (lhs rhs : Expr) : bool := bool_decide (is_Some (bool_operands kind lhs rhs)).

(** The nesting levels that reading the expression takes. *)
Fixpoint levels (e : Expr) : nat :=
  let operand_levels e := match e with Upcast a _ => if is_const a && (tree_version <? V3) then levels a else levels e | _ => levels e end in
  match e with
  | Const c => S (data_depth (const_v c))
  | ConstPlaceholder _ _ | BoolConstants _ | EContext | EGlobal | EGlobalVars _ | ValUse _ _ => 1
  | ByteArrayToLong e | ByteArrayToBigInt e | LongToByteArray e | CalcBlake2b256 e | CalcSha256 e
  | FuncValue _ e _ | ValDef _ _ e | And e | Or e | XorOf e | LogicalNot e | Negation e | BitInversion e
  | OptionGet e | OptionIsDefined e | SizeOf e | SelectField e _ _ | BoolToSigmaProp e | Upcast e _
  | Downcast e _ | CreateProveDlog e => S (levels e)
  | BinOp kind a b => if is_pair kind a b then 1 else S (operand_levels a `max` operand_levels b)
  | Append a b | Xor a b | Atleast a b | OptionGetOrElse a b | Map a b _ | Filter a b _
  | Exists a b _ | ForAll a b _ | MultiplyGroup a b => S (levels a `max` levels b)
  | If a b c | Slice a b c | Fold a b c => S (levels a `max` levels b `max` levels c)
  | ByIndex a b d => S (levels a `max` levels b `max` match d with Some c => levels c | None => 0 end)
  | CreateProveDhTuple a b c d => S (levels a `max` levels b `max` levels c `max` levels d)
  | Exprs _ items | Tuple items | SigmaAnd items | SigmaOr items => S (max_list_with levels items)
  | Apply func args => S (levels func `max` max_list_with levels args)
  | BlockValue items result => S (max_list_with levels items `max` levels result)
  end%nat.

(** A type with an encoding. *)
Definition type_ok (t : SType) : bool := type_wf tree_version t && (wire_depth t <=? MAX_TYPE_DEPTH)%nat.
Definition array_ok {A} (items : list A) : bool := Z.of_nat (length items) <=? MAX_ARRAY_LENGTH.
Definition id_ok (id : Z) : bool := (0 <=? id) && (id <? 2 ^ 32).

(** A result is the given expression. *)
Definition builds (m : result SigmaParsingError Expr) (e : Expr) : bool :=
  match m with Ok e' => bool_decide (e' = e) | Err _ => false end.

(** A node by itself: its checks, the types that are recomputed, the counts and ids the format has room for. *)
Definition node_ok (s : Store) (e : Expr) : bool :=
  match e with
  | BinOp kind a b =>
      builds (check_build tree_version (BinOp kind (operand a) (operand b))) e &&
      negb (has_pair_form kind && match operand a with BoolConstants _ => true | _ => false end)
  | _ => builds (check_build tree_version e) e
  end &&
  match e with
  | ConstPlaceholder id t => negb substitute && id_ok id && bool_decide (const_tpe <$> constants !! Z.to_nat id = Some t)
  | BoolConstants bools => Z.of_nat (length bools) <? 2 ^ 16
  | Exprs t items =>
      (Z.of_nat (length items) <? 2 ^ 16) && type_ok t && forallb (fun i => bool_decide (tpe i = t)) items &&
      bool_decide (from_typed_items t items = e)
  | Tuple items => (2 <=? length items)%nat && (length items <=? 255)%nat
  | FuncValue args body _ => array_ok args && forallb (fun a => id_ok (arg_idx a) && type_ok (arg_tpe a)) args && bool_decide (func_value_new args body = e)
  | Apply _ args => array_ok args
  | BlockValue items _ => array_ok items && forallb (fun i => match i with ValDef _ _ _ => true | _ => false end) items
  | ValDef id tpe_args _ => (0 <=? id) && (id <? 2 ^ 31) && (length tpe_args <=? 127)%nat && forallb name_wf tpe_args
  | ValUse id t => id_ok id && bool_decide (s !! id = Some t)
  | ByIndex _ index _ => (V3 <=? tree_version) || bool_decide (tpe index = SInt)
  | Map input mapper _ => builds (map_new input mapper) e
  | Filter input condition _ => builds (filter_new input condition) e
  | Exists input _ t | ForAll input _ t => bool_decide (t = parsed_elem_tpe input)
  | SelectField input i _ => (1 <=? i) && (i <=? 255) && builds (select_field_new input i) e
  | Upcast _ t => negb (cast_again e) && type_ok t
  | Downcast _ t => type_ok t
  | SigmaAnd items | SigmaOr items => array_ok items
  | _ => true
  end.

Section list.
Context {A : Type} (f : Store -> A -> option Store).
Fixpoint built_all (s : Store) (items : list A) : option Store :=
  match items with [] => Some s | e :: items => s ← f s e; built_all s items end.
End list.

Definition arg_types (s : Store) (args : list FuncArg) : Store := fold_left (fun types a => <[arg_idx a := arg_tpe a]> types) args s.

(** The types known after the expression was read with the types [s], if a parse can build it. *)
Fixpoint built (s : Store) (e : Expr) : option Store :=
  let operand_built s e := match e with Upcast a _ => if is_const a && (tree_version <? V3) then Some s else built s e | _ => built s e end in
  s' ← match e with
       | Const _ | ConstPlaceholder _ _ | BoolConstants _ | EContext | EGlobal | EGlobalVars _ | ValUse _ _ => Some s
       | ByteArrayToLong e | ByteArrayToBigInt e | LongToByteArray e | CalcBlake2b256 e | CalcSha256 e
       | And e | Or e | XorOf e | LogicalNot e | Negation e | BitInversion e
       | OptionGet e | OptionIsDefined e | SizeOf e | SelectField e _ _ | BoolToSigmaProp e | Upcast e _
       | Downcast e _ | CreateProveDlog e => built s e
       | BinOp kind a b => if is_pair kind a b then Some s else s ← operand_built s a; operand_built s b
       | Append a b | Xor a b | Atleast a b | OptionGetOrElse a b | Map a b _ | Filter a b _
       | Exists a b _ | ForAll a b _ | MultiplyGroup a b => s ← built s a; built s b
       | If a b c | Slice a b c | Fold a b c => s ← built s a; s ← built s b; built s c
       | ByIndex a b d => s ← built s a; s ← built s b; match d with Some c => built s c | None => Some s end
       | CreateProveDhTuple a b c d => s ← built s a; s ← built s b; s ← built s c; built s d
       | Exprs _ items | Tuple items | SigmaAnd items | SigmaOr items => built_all built s items
       | Apply func args => s ← built s func; built_all built s args
       | BlockValue items result => s ← built_all built s items; built s result
       | ValDef id _ rhs => s ← built s rhs; Some (<[id := tpe rhs]> s)
       | FuncValue args body _ => built (arg_types s args) body
       end;
  if node_ok s e then Some s' else None.

(** A constant that the format has room for, of a type with an encoding and with its header ids right. *)
Definition const_ok (c : Constant) : Prop :=
  type_ok (const_tpe c) = true /\ data_wf tree_version (const_tpe c) (const_v c) /\ data_read (const_v c) = const_v c.
End built.

(** * Reading back *)

Section back.
Context {C : SigmaCrypto} {L : SigmaCryptoLaws C} {P : SigmaCryptoParsing C} {PL : SigmaCryptoParsingLaws C P}.
Context {B : NumBigint} {BL : NumBigintLaws B} {Bx : ErgoBoxData} {BS : BoxSerial Bx}.
Context {M : Bnum} {ML : BnumLaws M} {N : BnumBytes} {NL : BnumBytesLaws N}.
Context (tree_version : Z) (constants : list Constant) (substitute : bool).

Abbreviation io := (map_st_err sigma_io_error).
Abbreviation vlq := (map_st_err SpVlqEncode).
Abbreviation arm := (arm tree_version constants substitute).
Abbreviation parse_expr_fuel := (parse_expr_fuel tree_version constants substitute).
Abbreviation serialize_expr := (serialize_expr tree_version).
Abbreviation built := (built tree_version constants substitute).
Abbreviation node_ok := (node_ok tree_version constants substitute).
Abbreviation levels := (levels tree_version).
Abbreviation const_ok := (const_ok tree_version).

(** At level [n] and with the types [s], a parser that finds the bytes [l] gives [x] and leaves the types [s']. *)
Definition xb {A} (s : Store) (n : nat) (m : parser A) (x : A) (s' : Store) (l : list Z) : Prop :=
  forall r, rd_level r = n -> readable (past l r) -> m (mkExprReader (before l r) s) = Ok (x, mkExprReader (past l r) s').

Section at_level.
Context (n : nat).

Lemma xb_ret {A} s (x : A) : xb s n (mret x) x s [].
Proof. intros r _ _. by rewrite before_nil, past_nil. Qed.

Lemma xb_bind {A A'} s s1 s' (m : parser A) (f : A -> parser A') x y l k :
  xb s n m x s1 l -> xb s1 n (f x) y s' k -> xb s n (m ≫= f) y s' (l ++ k).
Proof.
  intros Hm Hf r Hr Hread. rewrite before_app, <- past_app in *. unfold mbind, stateE_bind.
  rewrite Hm by (done || readable). rewrite past_before. by apply Hf.
Qed.

(** A part that reads nothing, and the last part. *)
Lemma xb_pure {A A'} s s1 s' (m : parser A) (f : A -> parser A') x y k :
  (forall r, m (mkExprReader r s) = Ok (x, mkExprReader r s1)) -> xb s1 n (f x) y s' k -> xb s n (m ≫= f) y s' k.
Proof. intros Hm Hf r Hr Hread. unfold mbind, stateE_bind. rewrite Hm. by apply Hf. Qed.

Lemma xb_last {A A'} s s1 s' (m : parser A) (f : A -> parser A') x y l :
  xb s n m x s1 l -> (forall r, f x (mkExprReader r s1) = Ok (y, mkExprReader r s')) -> xb s n (m ≫= f) y s' l.
Proof. intros Hm Hf r Hr Hread. unfold mbind, stateE_bind. rewrite Hm by done. apply Hf. Qed.

Lemma xb_reader {A} s (m : stateE reader SigmaParsingError A) x l : (n <= MAX_TREE_DEPTH)%nat -> back n m 0 x l -> xb s n (on_reader m) x s l.
Proof. intros Hn H r Hr Hread. unfold on_reader. cbn [xr_reader]. rewrite H by done. by rewrite deep_0. Qed.

End at_level.

(** Something written and read again: where at most [d] levels are added to the reader's, it gives [x] and takes the types from
    [s] to [s']; the parser's fuel is what is left of the levels. *)
Definition part {A} (w : writer (list Z)) (m : nat -> parser A) (x : A) (s s' : Store) (d : nat) : Prop :=
  exists l, w None = Ok (l, None) /\ byte_list l /\
    forall n, (n + d <= MAX_TREE_DEPTH)%nat -> xb s n (m (S MAX_TREE_DEPTH - n)%nat) x s' l.

Lemma part_mono {A} w (m : nat -> parser A) x s s' d d' : part w m x s s' d -> (d <= d')%nat -> part w m x s s' d'.
Proof. intros (l & E & Hl & Hx) Hd. exists l. split_and!; try done. intros n Hn. apply Hx. lia. Qed.

Lemma part_bind {A A'} w w' (m : nat -> parser A) (f : nat -> A -> parser A') x y s s1 s' d :
  part w m x s s1 d -> part w' (fun fuel => f fuel x) y s1 s' d -> part (w_then w w') (fun fuel => m fuel ≫= f fuel) y s s' d.
Proof.
  intros (l & E & Hl & Hx) (k & E' & Hk & Hy). exists (l ++ k). split_and!; [|by apply Forall_app|].
  - unfold w_then, mbind, stateE_bind. by rewrite E, E'.
  - intros n Hn. eapply xb_bind; [by apply Hx|by apply Hy].
Qed.

(** A step that reads nothing; and one after all was read. *)
Lemma part_pure {A A'} w (m : nat -> parser A) (f : nat -> A -> parser A') x y s s1 s' d :
  (forall fuel r, m fuel (mkExprReader r s) = Ok (x, mkExprReader r s1)) -> part w (fun fuel => f fuel x) y s1 s' d ->
  part w (fun fuel => m fuel ≫= f fuel) y s s' d.
Proof. intros Hm (k & E & Hk & Hy). exists k. split_and!; try done. intros n Hn. eapply xb_pure; [apply Hm|by apply Hy]. Qed.

Lemma part_end {A A'} w (m : nat -> parser A) (f : nat -> A -> parser A') x y s s1 s' d :
  part w m x s s1 d -> (forall fuel r, f fuel x (mkExprReader r s1) = Ok (y, mkExprReader r s')) ->
  part w (fun fuel => m fuel ≫= f fuel) y s s' d.
Proof. intros (k & E & Hk & Hy) Hf. exists k. split_and!; try done. intros n Hn. eapply xb_last; [by apply Hy|]. intros r. apply Hf. Qed.

Lemma part_reader {A} w (m : stateE reader SigmaParsingError A) x s l d :
  w None = Ok (l, None) -> byte_list l -> (forall n, (n <= MAX_TREE_DEPTH)%nat -> back n m 0 x l) -> part w (fun _ => on_reader m) x s s d.
Proof. intros E Hl Hm. exists l. split_and!; try done. intros n Hn. apply xb_reader; [lia|]. apply Hm. lia. Qed.

Lemma part_u8 v s d : in_u 8 v -> part (write_all (put_u8 v)) (fun _ => on_reader (io get_u8)) v s s d.
Proof. intros Hv. apply (part_reader _ _ _ _ [v]); [done|by apply Forall_singleton|]. intros n Hn. by apply back_u8. Qed.

Lemma part_u32 v s d : in_u 32 v -> part (write_number (put_u32 v)) (fun _ => on_reader (vlq get_u32)) v s s d.
Proof.
  intros Hv. destruct (codec_puts (Codec := u32_codec) v Hv) as (l & E & Hl). apply (part_reader _ _ _ _ l); [|done|].
  - unfold write_number. by rewrite E.
  - intros n Hn. apply (back_codec n Hn (in_u 32) put_u32); [apply _|done|done].
Qed.

Lemma part_u16 v s d : in_u 16 v -> part (write_number (put_u16 v)) (fun _ => on_reader count_u16) v s s d.
Proof.
  intros Hv. destruct (put_u16_ok v Hv) as (l & E & Hl). apply (part_reader _ _ _ _ l); [|done|].
  - unfold write_number. by rewrite E.
  - intros n Hn. apply (back_codec n Hn (in_u 16) put_u16); [apply _|done|done].
Qed.

Lemma part_type t s d : type_ok tree_version t = true -> part (write_type tree_version t) (fun _ => type_parse tree_version) t s s d.
Proof.
  intros [Ht Hd]%andb_true_iff. destruct (every_type_goes_round tree_version t Ht) as (l & E & Hl & Hp).
  apply (part_reader _ _ _ _ l); [|done|].
  - unfold write_type. by rewrite E.
  - intros n Hn r Hr Hread. unfold stype_parse. rewrite Hp by done. unfold fits. change (0 + wire_depth t)%nat with (wire_depth t).
    by rewrite Hd, deep_0.
Qed.

(** A node: its op code, and what its arm reads one level down. *)
Lemma part_node e e0 op (m : parser Expr -> parser Expr) w s s' d :
  LAST_CONSTANT_CODE < op < 256 -> (forall X, arm X op = Some (m X)) -> check_build tree_version e0 = Ok e ->
  part w (fun fuel => m (parse_expr_fuel fuel)) e0 s s' d -> part (w_then (write_op op) w) parse_expr_fuel e s s' (S d).
Proof.
  intros Hop Harm Hc (l & E & Hl & Hx). exists (op :: l). unfold LAST_CONSTANT_CODE in Hop. split_and!.
  - unfold w_then, write_op, write_all, mbind, stateE_bind, mret, stateE_ret. by rewrite E.
  - constructor; [unfold in_u; lia|done].
  - intros n Hn r Hr Hread. replace (S MAX_TREE_DEPTH - n)%nat with (S (S MAX_TREE_DEPTH - S n)) by lia.
    cbn [ExprSerial.parse_expr_fuel]. unfold value_at_next_level. change (op :: l) with ([op] ++ l) in *.
    assert (forall r, readable (past ([op] ++ l) r) -> on_reader (io get_u8) (mkExprReader (before ([op] ++ l) r) s) = Ok (op, mkExprReader (before l (past [op] r)) s)) as Hu.
    { intros r0 Hr0. unfold on_reader, map_st_err. cbn [xr_reader xr_types]. rewrite before_app, get_u8_before; [by rewrite past_before|].
      rewrite <- past_app in Hr0. readable. }
    assert (exists b, forall r, rd_level r = S n -> readable (past ([op] ++ l) r) -> on_reader (io peek_u8) (mkExprReader (before ([op] ++ l) r) s) = Ok (b, mkExprReader (before ([op] ++ l) r) s)) as [b Hp].
    { exists op. done. }
    unfold mbind, stateE_bind, on_reader at 1 2, level, set_level. cbn [xr_reader xr_types before at_bytes rd_level]. rewrite Hr.
    destruct (Nat.ltb_spec MAX_TREE_DEPTH (n + 1)); [lia|]. cbn [xr_reader xr_types].
    rewrite at_level_before, Hp by (cbn; done || lia). rewrite Hu by done. unfold parse_tagged. rewrite Harm.
    destruct (Z.leb_spec op LAST_CONSTANT_CODE) as [Hle|_]; [unfold LAST_CONSTANT_CODE in Hle; lia|].
    unfold mbind, stateE_bind. change (past [op] (at_level (n + 1) r)) with (at_level (n + 1) (past [op] r)). rewrite <- past_app in Hread.
    rewrite (Hx (S n) ltac:(lia) (at_level (n + 1) (past [op] r)) ltac:(cbn; lia) Hread). unfold liftE. rewrite Hc.
    unfold on_reader. cbn [xr_reader xr_types past at_level rd_level].
    destruct (Nat.ltb_spec MAX_TREE_DEPTH (n + 1 - 1)); [lia|]. unfold mret, stateE_ret. do 3 f_equal.
    unfold at_level, past. cbn. f_equal; lia.
Qed.

(** The first byte of a type is no op code. *)
Lemma type_tag t l : type_ok tree_version t = true -> stype_serialize tree_version t = Ok l ->
  exists tag k, l = tag :: k /\ tag <= LAST_CONSTANT_CODE.
Proof.
  intros [Ht Hd]%andb_true_iff El. destruct (type_back tree_version t (mkReader [] 0 U64_MAX 0) Ht) as (l' & El' & _ & Hp).
  rewrite El in El'. injection El' as <-. rewrite Hd in Hp. specialize (Hp (or_introl eq_refl)).
  unfold stype_parse in Hp. change (S MAX_TYPE_DEPTH) with 9%nat in Hp. cbn [parse_at_depth] in Hp.
  change (MAX_TYPE_DEPTH <? 0)%nat with false in Hp. cbn iota in Hp. apply st_bind_Ok in Hp as (tag & r1 & Eu & Hp).
  exists tag. destruct l as [|b l]; [done|]. exists l. apply parse_tag_constant in Hp. split; [|done]. f_equal. by injection Eu.
Qed.

Lemma constant_tag c k : const_ok c -> constant_serialize tree_version c = Ok k -> exists tag l, k = tag :: l /\ tag <= LAST_CONSTANT_CODE.
Proof.
  intros (Ht & _ & _). unfold constant_serialize. destruct (stype_serialize tree_version (const_tpe c)) as [l|] eqn:El; [|done].
  destruct (type_tag _ l Ht El) as (tag & l' & -> & Htag). destruct (data_serialize tree_version (const_v c)) as [[v cost]|]; [|done].
  intros [= <-]. by exists tag, (l' ++ v).
Qed.

(** A constant is a value by itself. *)
Lemma part_const c s : const_ok c -> part (const_serialize tree_version c) parse_expr_fuel (Const c) s s (S (data_depth (const_v c))).
Proof.
  intros Hok. destruct Hok as (Ht & Hv & Hread) eqn:Eok. clear Eok. pose proof Ht as [Ht' Hd%Nat.leb_le]%andb_true_iff.
  destruct (constant_back tree_version c Ht' Hd Hv) as (k & Ek & Hk & Hb). destruct (constant_tag c k Hok Ek) as (tag & l & -> & Htag).
  exists (tag :: l). split_and!; [by unfold const_serialize, liftE; rewrite Ek|done|].
  intros n Hn r Hr Hre. replace (S MAX_TREE_DEPTH - n)%nat with (S (S MAX_TREE_DEPTH - S n)) by lia.
  cbn [ExprSerial.parse_expr_fuel]. unfold value_at_next_level, mbind, stateE_bind, on_reader at 1 2, level, set_level.
  cbn [xr_reader xr_types before at_bytes rd_level]. rewrite Hr.
  destruct (Nat.ltb_spec MAX_TREE_DEPTH (n + 1)); [lia|]. cbn [xr_reader xr_types]. rewrite at_level_before.
  specialize (Hb (at_level (n + 1) r) Hre ltac:(cbn; lia)). rewrite Hread in Hb. unfold constant_parse in Hb.
  apply st_bind_Ok in Hb as (tag' & r1 & Eu & Hb). destruct (get_u8_peek _ _ _ Eu) as [b Eb].
  assert (tag' = tag) as ->.
  { pose proof Eu as Eu'. unfold map_st_err in Eu'. rewrite before_cons, get_u8_before in Eu'; [by injection Eu'|]. change (readable (before l r)). by eapply before_readable. }
  unfold on_reader. cbn [xr_reader xr_types]. rewrite Eb. cbn [xr_reader xr_types]. rewrite Eu. unfold parse_tagged.
  rewrite (proj2 (Z.leb_le _ _) Htag). unfold fmap, stateE_fmap, on_reader. cbn [xr_reader xr_types]. rewrite Hb.
  cbn [xr_reader xr_types past at_level rd_level]. destruct (Nat.ltb_spec MAX_TREE_DEPTH (n + 1 - 1)); [lia|].
  unfold mret, stateE_ret. destruct c. do 3 f_equal. unfold at_level, past. cbn. f_equal; lia.
Qed.

(** ** Lists *)

Lemma part_all {A} (f : Store -> A -> option Store) (w : A -> writer (list Z)) (m : nat -> parser A) items d :
  Forall (fun x => forall s s', f s x = Some s' -> part (w x) m x s s' d) items ->
  forall s s', built_all f s items = Some s' ->
    part (w_all w items) (fun fuel => repeat_parse (m fuel) (length items)) items s s' d.
Proof.
  induction 1 as [|x items Hx _ IH]; intros s s' Hs.
  - injection Hs as <-. exists []. split_and!; [done|by constructor|]. intros n _. apply xb_ret.
  - cbn [built_all] in Hs. apply bind_Some in Hs as (s1 & E1 & Hs).
    cbn [w_all length repeat_parse]. eapply part_bind; [by apply Hx|]. eapply part_end; [by apply IH|done].
Qed.

(** A count and the items. *)
Lemma part_vec {A} (f : Store -> A -> option Store) (w : A -> writer (list Z)) (m : nat -> parser A) items d s s' :
  array_ok items = true -> Forall (fun x => forall s s', f s x = Some s' -> part (w x) m x s s' d) items ->
  built_all f s items = Some s' -> part (vec_serialize w items) (fun fuel => vec_parse (m fuel)) items s s' d.
Proof.
  intros Ha%Z.leb_le Hi Hs. unfold MAX_ARRAY_LENGTH in Ha. unfold vec_serialize, vec_parse. rewrite wrap_u_id by (unfold in_u; lia).
  eapply part_bind; [apply part_u32; unfold in_u; lia|]. eapply part_pure.
  - intros fuel r. unfold liftE, array_length, guard_or, MAX_ARRAY_LENGTH. rewrite (proj2 (Z.leb_le _ _)) by done. done.
  - rewrite Nat2Z.id. by eapply part_all.
Qed.

(** ** Every expression *)

Definition goes (e : Expr) : Prop := forall s s', built s e = Some s' -> Forall const_ok (consts e) ->
  part (serialize_expr e) parse_expr_fuel e s s' (levels e).

(** What [built] says of a node and of its parts. *)
Lemma built_node e s s' (o : option Store) :
  built s e = (s' ← o; if node_ok s e then Some s' else None) -> built s e = Some s' -> node_ok s e = true /\ o = Some s'.
Proof. intros -> (s1 & -> & H)%bind_Some. destruct (node_ok s e); [|done]. by injection H as ->. Qed.

Lemma builds_Ok m e : builds m e = true -> m = Ok e.
Proof. unfold builds. destruct m; [|done]. intros H%bool_decide_eq_true. by subst. Qed.

Definition is_bin_op (e : Expr) : bool := match e with BinOp _ _ _ => true | _ => false end.
Lemma node_check s e : node_ok s e = true -> is_bin_op e = false -> check_build tree_version e = Ok e.
Proof. intros H Hb. apply builds_Ok. unfold ExprBack.node_ok in H. by destruct e; apply andb_true_iff in H as [H _]. Qed.

(** Nodes of one to four parts, whose other fields are computed from them. *)
Lemma goes_1 e a op (m : Expr -> Expr) :
  serialize_expr e = w_then (write_op op) (serialize_expr a) ->
  LAST_CONSTANT_CODE < op < 256 -> is_bin_op e = false -> (forall X, arm X op = Some (parse1 X m)) -> m a = e ->
  levels e = S (levels a) -> consts e = consts a -> (forall s, built s e = (s' ← built s a; if node_ok s e then Some s' else None)) ->
  goes a -> goes e.
Proof.
  intros Ew Hop Hb Harm Hm El Ec Eb Ha s s' Hs Hc. apply (built_node e s s' _ (Eb s)) in Hs as [Hn Hs]. rewrite Ew, El.
  eapply part_node; [done|exact Harm|by eapply node_check|]. unfold parse1. eapply part_end; [apply Ha; [done|by rewrite <- Ec]|].
  intros _ r. by rewrite Hm.
Qed.

(** The second lemma is for the parts that a constructor may refuse. *)
Lemma goes_2 e a b op (m : Expr -> Expr -> result SigmaParsingError Expr) :
  serialize_expr e = w_then (write_op op) (w_then (serialize_expr a) (serialize_expr b)) ->
  LAST_CONSTANT_CODE < op < 256 -> is_bin_op e = false -> (forall X, arm X op = Some (a ← X; b ← X; liftE (m a b))) ->
  levels e = S (levels a `max` levels b) -> consts e = consts a ++ consts b ->
  (forall s, built s e = (s' ← (s ← built s a; built s b); if node_ok s e then Some s' else None)) ->
  (forall s, node_ok s e = true -> m a b = Ok e) -> goes a -> goes b -> goes e.
Proof.
  intros Ew Hop Hbin Harm El Ec Eb Hm Ha Hb s s' Hs Hc. apply (built_node e s s' _ (Eb s)) in Hs as [Hn (s1 & E1 & Hs)%bind_Some].
  rewrite Ec, Forall_app in Hc. destruct Hc. rewrite Ew, El.
  eapply part_node; [done|exact Harm|by eapply node_check|]. cbn beta.
  eapply part_bind; [eapply part_mono; [by apply Ha|lia]|]. eapply part_end; [eapply part_mono; [by apply Hb|lia]|].
  intros _ r. unfold liftE. by rewrite (Hm s).
Qed.

Lemma goes_2' e a b op (m : Expr -> Expr -> Expr) :
  serialize_expr e = w_then (write_op op) (w_then (serialize_expr a) (serialize_expr b)) ->
  LAST_CONSTANT_CODE < op < 256 -> is_bin_op e = false -> (forall X, arm X op = Some (parse2 X m)) ->
  levels e = S (levels a `max` levels b) -> consts e = consts a ++ consts b ->
  (forall s, built s e = (s' ← (s ← built s a; built s b); if node_ok s e then Some s' else None)) ->
  (forall s, node_ok s e = true -> m a b = e) -> goes a -> goes b -> goes e.
Proof.
  intros Ew Hop Hbin Harm El Ec Eb Hm. apply (goes_2 e a b op (fun a b => Ok (m a b))); try done. intros s Hn. by rewrite (Hm s).
Qed.

Lemma goes_3 e a b c op (m : Expr -> Expr -> Expr -> Expr) :
  serialize_expr e = w_then (write_op op) (w_then (serialize_expr a) (w_then (serialize_expr b) (serialize_expr c))) ->
  LAST_CONSTANT_CODE < op < 256 -> is_bin_op e = false -> (forall X, arm X op = Some (parse3 X m)) ->
  levels e = S (levels a `max` levels b `max` levels c) -> consts e = consts a ++ consts b ++ consts c ->
  (forall s, built s e = (s' ← (s ← built s a; s ← built s b; built s c); if node_ok s e then Some s' else None)) ->
  m a b c = e -> goes a -> goes b -> goes c -> goes e.
Proof.
  intros Ew Hop Hbin Harm El Ec Eb Hm Ha Hb Hc s s' Hs Hk. apply (built_node e s s' _ (Eb s)) in Hs as [Hn (s1 & E1 & (s2 & E2 & Hs)%bind_Some)%bind_Some].
  rewrite Ec, !Forall_app in Hk. destruct Hk as (Hka & Hkb & Hkc). rewrite Ew, El.
  eapply part_node; [done|exact Harm|by eapply node_check|]. unfold parse3.
  eapply part_bind; [eapply part_mono; [by apply Ha|lia]|]. eapply part_bind; [eapply part_mono; [by apply Hb|lia]|].
  eapply part_end; [eapply part_mono; [by apply Hc|lia]|]. intros _ r. by rewrite Hm.
Qed.

Lemma goes_tuple_node g h u v : goes g -> goes h -> goes u -> goes v -> goes (CreateProveDhTuple g h u v).
Proof.
  intros Hg Hh Hu Hv s s' Hs Hk.
  apply (built_node (CreateProveDhTuple g h u v) s s' _ eq_refl) in Hs as [Hn (s1 & E1 & (s2 & E2 & (s3 & E3 & Hs)%bind_Some)%bind_Some)%bind_Some].
  cbn [consts] in Hk. rewrite !Forall_app in Hk. destruct Hk as (K1 & K2 & K3 & K4). cbn [ExprSerial.serialize_expr ExprBack.levels].
  eapply (part_node _ _ _ (fun X => parse4 X CreateProveDhTuple)); [done|done|by eapply node_check|]. unfold parse4.
  eapply part_bind; [eapply part_mono; [by apply Hg|lia]|]. eapply part_bind; [eapply part_mono; [by apply Hh|lia]|].
  eapply part_bind; [eapply part_mono; [by apply Hu|lia]|]. eapply part_end; [eapply part_mono; [by apply Hv|lia]|]. done.
Qed.

(** Nodes without parts. *)
Lemma goes_0 e op w (m : parser Expr) d :
  serialize_expr e = w_then (write_op op) w -> LAST_CONSTANT_CODE < op < 256 -> is_bin_op e = false -> (forall X, arm X op = Some m) ->
  levels e = 1%nat -> (forall s, built s e = if node_ok s e then Some s else None) ->
  (forall s, node_ok s e = true -> part w (fun _ => m) e s s d) -> d = 0%nat -> goes e.
Proof.
  intros Ew Hop Hbin Harm El Eb Hm -> s s' Hs _. rewrite Eb in Hs. destruct (node_ok s e) eqn:Hn; [|done]. injection Hs as <-.
  rewrite Ew, El. eapply part_node; [done|exact Harm|by eapply node_check|]. by apply Hm.
Qed.

(** Op codes that are the whole node. *)
Lemma goes_op e op : serialize_expr e = write_op op -> LAST_CONSTANT_CODE < op < 256 -> is_bin_op e = false -> (forall X, arm X op = Some (mret e)) ->
  levels e = 1%nat -> (forall s, built s e = if node_ok s e then Some s else None) -> goes e.
Proof.
  intros Ew Hop Hbin Harm El Eb s s' Hs _. rewrite Eb in Hs. destruct (node_ok s e) eqn:Hn; [|done]. injection Hs as <-. rewrite Ew, El.
  change (write_op op) with (w_then (write_op op) (write_all [])).
  eapply part_node; [done|exact Harm|by eapply node_check|]. exists []. split_and!; [done|by constructor|]. intros n _. apply xb_ret.
Qed.

Lemma fields_ok (x y : bool) : x && y = true -> y = true.
Proof. by intros [_ H]%andb_true_iff. Qed.

Lemma id_ok_in i : id_ok i = true -> in_u 32 i.
Proof. unfold id_ok, in_u. intros [H1 H2]%andb_true_iff. lia. Qed.

Lemma goes_const c : goes (Const c).
Proof.
  intros s s' Hs Hc. apply (built_node (Const c) s s' (Some s) eq_refl) in Hs as [_ [= <-]].
  apply Forall_cons in Hc as [Hc _]. by apply part_const.
Qed.

Lemma goes_placeholder id t : goes (ConstPlaceholder id t).
Proof.
  eapply (goes_0 _ _ _ (placeholder_parse constants substitute) 0); [reflexivity|by vm_compute|done|intros X; reflexivity|done|done| |done].
  intros s Hn%fields_ok. apply andb_true_iff in Hn as [[Hsub Hid]%andb_true_iff Hl%bool_decide_eq_true].
  unfold placeholder_parse. eapply part_end; [by apply part_u32, id_ok_in|]. intros _ r.
  destruct (constants !! Z.to_nat id) as [c|]; [|done]. injection Hl as <-. by destruct substitute.
Qed.

Lemma goes_val_use id t : goes (ValUse id t).
Proof.
  eapply (goes_0 _ _ _ val_use_parse 0); [reflexivity|by vm_compute|done|intros X; reflexivity|done|done| |done].
  intros s Hn%fields_ok. apply andb_true_iff in Hn as [Hid Hl%bool_decide_eq_true].
  unfold val_use_parse. eapply part_end; [by apply part_u32, id_ok_in|]. intros _ r.
  unfold mbind, stateE_bind, get_type. cbn [xr_types]. by rewrite Hl.
Qed.

(** Bits in their bytes. *)
Lemma part_bits bools s d : part (write_all (put_bits bools)) (fun _ => on_reader (vlq (get_bits (length bools)))) bools s s d.
Proof.
  destruct (put_bits_bits (length bools) bools) as (k & E & Hb); [done|]. apply (part_reader _ _ _ _ (put_bits bools)); [done|done|].
  intros n Hn r Hr Hread. rewrite deep_0 by done. unfold get_bits, mbind, stateE_bind, map_st_err.
  rewrite (check_readable (before (put_bits bools) r)) by by eapply before_readable. cbn [result_map_err].
  rewrite rd_exact_before by apply put_bits_length. cbn [result_map_err]. rewrite E. by rewrite take_app_length.
Qed.

Lemma goes_bools bools : goes (BoolConstants bools).
Proof.
  eapply (goes_0 _ _ _ bool_const_coll_parse 0); [reflexivity|by vm_compute|done|intros X; reflexivity|done|done| |done].
  intros s Hn%fields_ok%Z.ltb_lt. unfold bool_const_coll_parse. rewrite wrap_u_id by (unfold in_u; lia).
  eapply part_bind; [apply part_u16; unfold in_u; lia|]. eapply part_end; [|done]. rewrite Nat2Z.id. apply part_bits.
Qed.

Lemma goes_map a f sfunc : goes a -> goes f -> goes (Map a f sfunc).
Proof.
  apply (goes_2 _ _ _ op_map map_new); try done. intros s Hn%fields_ok. by apply builds_Ok.
Qed.
Lemma goes_filter a f t : goes a -> goes f -> goes (Filter a f t).
Proof.
  apply (goes_2 _ _ _ op_filter filter_new); try done. intros s Hn%fields_ok. by apply builds_Ok.
Qed.
Lemma goes_exists a f t : goes a -> goes f -> goes (Exists a f t).
Proof.
  apply (goes_2' _ _ _ op_exists (fun a f => Exists a f (parsed_elem_tpe a))); try done.
  intros s Hn%fields_ok%bool_decide_eq_true. by rewrite Hn.
Qed.
Lemma goes_for_all a f t : goes a -> goes f -> goes (ForAll a f t).
Proof.
  apply (goes_2' _ _ _ op_for_all (fun a f => ForAll a f (parsed_elem_tpe a))); try done.
  intros s Hn%fields_ok%bool_decide_eq_true. by rewrite Hn.
Qed.

Lemma goes_select a i t : goes a -> goes (SelectField a i t).
Proof.
  intros Ha s s' Hs Hc. apply (built_node (SelectField a i t) s s' (built s a) eq_refl) in Hs as [Hn Hs].
  pose proof (fields_ok _ _ Hn) as [[H1 H2]%andb_true_iff H3%builds_Ok]%andb_true_iff.
  eapply (part_node _ _ _ (fun X => select_field_parse X)); [done|done|by eapply node_check|]. unfold select_field_parse.
  eapply part_bind; [by apply Ha|]. eapply part_end; [apply part_u8; unfold in_u; lia|].
  intros _ r. unfold mbind, stateE_bind, liftE, guard_or. by rewrite H1, H3.
Qed.

(** The casts. *)
Lemma goes_cast e a t op build :
  serialize_expr e = w_then (write_op op) (w_then (serialize_expr a) (write_type tree_version t)) ->
  LAST_CONSTANT_CODE < op < 256 -> is_bin_op e = false -> (forall X, arm X op = Some (cast_parse tree_version X build)) -> build a t = e ->
  levels e = S (levels a) -> consts e = consts a -> (forall s, built s e = (s' ← built s a; if node_ok s e then Some s' else None)) ->
  (forall s, node_ok s e = true -> type_ok tree_version t = true) -> goes a -> goes e.
Proof.
  intros Ew Hop Hb Harm Hm El Ec Eb Ht Ha s s' Hs Hc. apply (built_node e s s' _ (Eb s)) in Hs as [Hn Hs]. rewrite Ew, El.
  eapply part_node; [done|exact Harm|by eapply node_check|]. unfold cast_parse. eapply part_bind; [apply Ha; [done|by rewrite <- Ec]|].
  eapply part_end; [by eapply part_type, Ht|]. intros _ r. by rewrite Hm.
Qed.

Lemma goes_downcast a t : goes a -> goes (Downcast a t).
Proof. by eapply (goes_cast _ _ t op_downcast Downcast); try done; intros s Hn%fields_ok. Qed.

Lemma goes_upcast a t : goes a -> goes (Upcast a t).
Proof.
  intros Ha. destruct (cast_again tree_version (Upcast a t)) eqn:E.
  - intros s s' Hs. apply (built_node (Upcast a t) s s' (built s a) eq_refl) in Hs as [Hn _]. apply fields_ok in Hn. by rewrite E in Hn.
  - eapply (goes_cast _ a t op_upcast Upcast); try done; [|by intros s Hn%fields_ok; apply andb_true_iff in Hn as [_ Hn]].
    cbn [ExprSerial.serialize_expr]. cbn [cast_again] in E. by rewrite E.
Qed.

(** Several expressions, each after a check [k] that it passes. *)
Lemma goes_expr_items (k : Expr -> parser Expr) items d :
  Forall goes items -> Forall const_ok (concat (map consts items)) -> (max_list_with levels items <= d)%nat ->
  Forall (fun x => forall st, k x st = Ok (x, st)) items ->
  Forall (fun x => forall s s', built s x = Some s' -> part (serialize_expr x) (fun fuel => x ← parse_expr_fuel fuel; k x) x s s' d) items.
Proof.
  intros Hg Hc Hd Hk. induction Hg as [|x items Hx _ IH]; [done|]. cbn [map concat max_list_with] in *. apply Forall_app in Hc as [Hcx Hc].
  apply Forall_cons in Hk as [Hkx Hk]. constructor; [|apply IH; [done|lia|done]].
  intros s s' Hs. eapply part_end; [eapply part_mono; [by apply Hx|lia]|]. intros _ r. apply Hkx.
Qed.

Lemma goes_plain items d :
  Forall goes items -> Forall const_ok (concat (map consts items)) -> (max_list_with levels items <= d)%nat ->
  Forall (fun x => forall s s', built s x = Some s' -> part (serialize_expr x) parse_expr_fuel x s s' d) items.
Proof.
  intros Hg Hc Hd. induction Hg as [|x items Hx _ IH]; [done|]. cbn [map concat max_list_with] in *. apply Forall_app in Hc as [Hcx Hc].
  constructor; [|apply IH; [done|lia]]. intros s s' Hs. eapply part_mono; [by apply Hx|lia].
Qed.

Lemma goes_sigma_and items : Forall goes items -> goes (SigmaAnd items).
Proof.
  intros Hg s s' Hs Hc. apply (built_node (SigmaAnd items) s s' (built_all built s items) eq_refl) in Hs as [Hn Hs].
  cbn [ExprSerial.serialize_expr ExprBack.levels]. eapply (part_node _ _ _ (fun X => items ← vec_parse X; mret (SigmaAnd items))); [done|done|by eapply node_check|].
  eapply part_end; [|done]. eapply part_vec; [by apply fields_ok in Hn|by apply goes_plain|done].
Qed.
Lemma goes_sigma_or items : Forall goes items -> goes (SigmaOr items).
Proof.
  intros Hg s s' Hs Hc. apply (built_node (SigmaOr items) s s' (built_all built s items) eq_refl) in Hs as [Hn Hs].
  cbn [ExprSerial.serialize_expr ExprBack.levels]. eapply (part_node _ _ _ (fun X => items ← vec_parse X; mret (SigmaOr items))); [done|done|by eapply node_check|].
  eapply part_end; [|done]. eapply part_vec; [by apply fields_ok in Hn|by apply goes_plain|done].
Qed.

Lemma goes_tuple_expr items : Forall goes items -> goes (Tuple items).
Proof.
  intros Hg s s' Hs Hc. apply (built_node (Tuple items) s s' (built_all built s items) eq_refl) in Hs as [Hn Hs].
  pose proof (fields_ok _ _ Hn) as Hl. pose proof Hl as [H1%Nat.leb_le H2%Nat.leb_le]%andb_true_iff.
  destruct (byte_of (length items) H2) as [Hb Ew].
  cbn [ExprSerial.serialize_expr ExprBack.levels]. eapply (part_node _ _ _ (fun X => tuple_parse X)); [done|done|by eapply node_check|]. unfold tuple_parse.
  rewrite Ew. eapply part_bind; [by apply part_u8|]. rewrite Nat2Z.id. eapply part_end; [eapply part_all; [by apply goes_plain|done]|].
  intros _ r. unfold liftE, tuple_new. by rewrite Hl.
Qed.

Lemma goes_apply f args : goes f -> Forall goes args -> goes (Apply f args).
Proof.
  intros Hf Hg s s' Hs Hc. apply (built_node (Apply f args) s s' (s ← built s f; built_all built s args) eq_refl) in Hs as [Hn (s1 & E1 & Hs)%bind_Some].
  cbn [consts] in Hc. apply Forall_app in Hc as [Hcf Hc].
  cbn [ExprSerial.serialize_expr ExprBack.levels]. eapply (part_node _ _ _ (fun X => apply_parse X)); [done|done|by eapply node_check|]. unfold apply_parse.
  eapply part_bind; [eapply part_mono; [by apply Hf|lia]|]. eapply part_end; [|done].
  eapply part_vec; [by apply fields_ok in Hn|apply goes_plain; [done|done|lia]|done].
Qed.

Lemma goes_block items result : Forall goes items -> goes result -> goes (BlockValue items result).
Proof.
  intros Hg Hr s s' Hs Hc. apply (built_node (BlockValue items result) s s' (s ← built_all built s items; built s result) eq_refl) in Hs as [Hn (s1 & E1 & Hs)%bind_Some].
  cbn [consts] in Hc. apply Forall_app in Hc as [Hc Hcr]. pose proof (fields_ok _ _ Hn) as [Ha Hv]%andb_true_iff.
  cbn [ExprSerial.serialize_expr ExprBack.levels]. eapply (part_node _ _ _ (fun X => block_value_parse X)); [done|done|by eapply node_check|]. unfold block_value_parse.
  eapply part_bind.
  - eapply part_vec; [done| |exact E1]. apply goes_expr_items; [done|done|lia|]. apply forallb_Forall in Hv. eapply Forall_impl; [exact Hv|].
    intros x Hx st. by destruct x.
  - eapply part_end; [eapply part_mono; [by apply Hr|lia]|done].
Qed.

(** ** Nodes with other fields *)

Lemma built_all_same {A} s (items : list A) : built_all (fun s _ => Some s) s items = Some s.
Proof. induction items; done. Qed.

(** Fields that leave the types alone, in a list. *)
Lemma part_fields {A} (w : A -> writer (list Z)) (m : nat -> parser A) items d :
  Forall (fun x => forall s, part (w x) m x s s d) items -> Forall (fun x => forall s s', Some s = Some s' -> part (w x) m x s s' d) items.
Proof. intros H. eapply Forall_impl; [exact H|]. intros x Hx s1 s2 [= <-]. apply Hx. Qed.

Lemma part_skip {A} w (m : nat -> parser A) x s s' d : part w m x s s' d -> part (w_then (write_all []) w) m x s s' d.
Proof. intros (l & E & Hl & Hx). exists l. split_and!; [|done|done]. unfold w_then, write_all, mbind, stateE_bind, mret, stateE_ret. by rewrite E. Qed.

Lemma part_assoc {A} a b c (m : nat -> parser A) x s s' d : part (w_then a (w_then b c)) m x s s' d -> part (w_then (w_then a b) c) m x s s' d.
Proof.
  intros (l & E & Hl & Hx). exists l. split_and!; [|done|done]. revert E. unfold w_then, mbind, stateE_bind, mret, stateE_ret.
  destruct (a None) as [[la sa]|]; [|done]. destruct (b sa) as [[lb sb]|]; [|done]. destruct (c sb) as [[lc sc]|]; [|done].
  intros [= <- ->]. by rewrite app_assoc.
Qed.

Lemma part_i8 v s d : 0 <= v < 128 -> part (write_all (put_u8 (wrap_u 8 v))) (fun _ => on_reader (io get_i8)) v s s d.
Proof.
  intros Hv. apply (part_reader _ _ _ _ (put_i8 v)); [done|apply Forall_singleton, wrap_u_range; lia|].
  intros n Hn. apply (back_codec n Hn (in_s 8) (fun v => Some (put_i8 v))); [apply _|unfold in_s; lia|done].
Qed.

Lemma part_func_arg a s d : id_ok (arg_idx a) && type_ok tree_version (arg_tpe a) = true ->
  part (func_arg_serialize tree_version a) (fun _ => func_arg_parse tree_version) a s s d.
Proof.
  intros [Hi Ht]%andb_true_iff. unfold func_arg_parse. eapply part_bind; [by apply part_u32, id_ok_in|].
  eapply part_end; [by apply part_type|]. intros _ r. by destruct a.
Qed.

Lemma goes_func args body t : goes body -> goes (FuncValue args body t).
Proof.
  intros Hb s s' Hs Hc. apply (built_node (FuncValue args body t) s s' (built (arg_types s args) body) eq_refl) in Hs as [Hn Hs].
  pose proof (fields_ok _ _ Hn) as [[Ha Hargs]%andb_true_iff Ht%bool_decide_eq_true]%andb_true_iff.
  cbn [ExprSerial.serialize_expr ExprBack.levels].
  eapply (part_node _ _ _ (fun X => func_value_parse tree_version X)); [done|done|by eapply node_check|]. unfold func_value_parse.
  eapply part_bind.
  { eapply (part_vec (fun s _ => Some s)); [done| |apply built_all_same]. apply part_fields. apply forallb_Forall in Hargs.
    eapply Forall_impl; [exact Hargs|]. intros a Hx s0. by apply part_func_arg. }
  eapply (part_pure _ _ _ tt _ s (arg_types s args)); [done|]. eapply part_end; [by apply Hb|]. intros _ r. by rewrite Ht.
Qed.

Lemma part_val_id id s d : 0 <= id < 2 ^ 31 -> part (write_number (put_u32 id)) (fun _ => val_id_parse_exact) id s s d.
Proof.
  intros Hid. unfold val_id_parse_exact. eapply part_end; [apply part_u32; unfold in_u; lia|]. intros _ r.
  unfold mbind, stateE_bind, liftE, guard_or. by rewrite (proj2 (Z.leb_le id (2 ^ 31 - 1))) by lia.
Qed.

Lemma part_type_var v s d : name_wf v = true -> part (write_type tree_version (SVar v)) (fun _ => type_var_arg_parse tree_version) v s s d.
Proof.
  intros Hv. unfold type_var_arg_parse. eapply part_end; [apply part_type|done]. unfold type_ok. cbn [type_wf wire_depth].
  by rewrite Hv.
Qed.

Lemma goes_val_def id tpe_args rhs : goes rhs -> goes (ValDef id tpe_args rhs).
Proof.
  intros Hr s s' Hs Hc. apply (built_node (ValDef id tpe_args rhs) s s' (s ← built s rhs; Some (<[id := tpe rhs]> s)) eq_refl) in Hs as [Hn (s1 & E1 & [= <-])%bind_Some].
  pose proof (fields_ok _ _ Hn) as [[[H1 H2]%andb_true_iff Hlen%Nat.leb_le]%andb_true_iff Hv%forallb_Forall]%andb_true_iff.
  apply Z.leb_le in H1. apply Z.ltb_lt in H2.
  destruct tpe_args as [|v0 tpe_args]; cbn [ExprSerial.serialize_expr ExprBack.levels].
  - eapply (part_node _ _ _ (fun X => val_def_parse X)); [done|done|by eapply node_check|]. unfold val_def_parse.
    eapply part_bind; [by apply part_val_id|]. apply part_skip. eapply part_end; [by apply Hr|done].
  - eapply (part_node _ _ _ (fun X => fun_def_parse tree_version X)); [done|done|by eapply node_check|]. unfold fun_def_parse.
    eapply part_bind; [by apply part_val_id|]. unfold tpe_args_serialize.
    apply part_assoc. eapply part_bind; [apply part_i8; lia|]. eapply part_pure.
    { intros fuel r. unfold liftE, guard_or. by rewrite (proj2 (Z.leb_le 0 (Z.of_nat (length (v0 :: tpe_args))))) by lia. }
    rewrite Nat2Z.id. eapply part_bind.
    { eapply (part_all (fun s _ => Some s)); [|apply built_all_same]. apply part_fields. eapply Forall_impl; [exact Hv|].
      intros v Hx s0. by apply part_type_var. }
    eapply part_end; [by apply Hr|done].
Qed.

Lemma goes_exprs t items : Forall goes items -> goes (Exprs t items).
Proof.
  intros Hg s s' Hs Hc. apply (built_node (Exprs t items) s s' (built_all built s items) eq_refl) in Hs as [Hn Hs].
  pose proof (fields_ok _ _ Hn) as [[[Hl%Z.ltb_lt Ht]%andb_true_iff Hi%forallb_Forall]%andb_true_iff Hf%bool_decide_eq_true]%andb_true_iff.
  cbn [ExprSerial.serialize_expr ExprBack.levels].
  eapply (part_node _ _ _ (fun X => coll_parse tree_version X)); [done|done|by eapply node_check|]. unfold coll_parse.
  rewrite wrap_u_id by (unfold in_u; lia). eapply part_bind; [apply part_u16; unfold in_u; lia|]. eapply part_bind; [by apply part_type|].
  rewrite Nat2Z.id. eapply part_end; [eapply part_all; [apply goes_expr_items; [done|done|done|]|done]|].
  - eapply Forall_impl; [exact Hi|]. intros x Hx st. unfold mbind, stateE_bind, liftE. by rewrite Hx.
  - intros _ r. by rewrite Hf.
Qed.

Lemma goes_by_index a i d : goes a -> goes i -> (forall x, d = Some x -> goes x) -> goes (ByIndex a i d).
Proof.
  intros Ha Hi Hd s s' Hs Hc.
  apply (built_node (ByIndex a i d) s s' (s ← built s a; s ← built s i; match d with Some c => built s c | None => Some s end) eq_refl) in Hs
    as [Hn (s1 & E1 & (s2 & E2 & Hs)%bind_Some)%bind_Some].
  cbn [consts] in Hc. apply Forall_app in Hc as [Hca Hc]. apply Forall_app in Hc as [Hci Hc]. pose proof (fields_ok _ _ Hn) as Hv.
  cbn [ExprSerial.serialize_expr ExprBack.levels].
  eapply (part_node _ _ _ (fun X => by_index_parse tree_version X)); [done|done|by eapply node_check|]. unfold by_index_parse.
  eapply part_bind; [eapply part_mono; [by apply Ha|lia]|]. eapply part_bind; [eapply part_mono; [by apply Hi|lia]|].
  eapply part_pure with (x := i).
  { intros fuel r. destruct (Z.ltb_spec tree_version V3); [|done]. destruct (Z.leb_spec V3 tree_version); [lia|].
    cbn [orb] in Hv. apply bool_decide_eq_true in Hv. unfold liftE, upcast_index_to_int. by rewrite Hv. }
  destruct d as [d|].
  - eapply part_bind; [apply part_u8; unfold in_u; lia|]. change (negb (1 =? 0)) with true. cbn iota.
    eapply part_end; [|done]. eapply part_end; [eapply part_mono; [by apply Hd|lia]|done].
  - injection Hs as <-. eapply part_end; [apply part_u8; unfold in_u; lia|done].
Qed.

(** ** Operations *)

Definition operand_built (s : Store) (e : Expr) : option Store :=
  match e with Upcast a _ => if is_const a && (tree_version <? V3) then Some s else built s e | _ => built s e end.
Definition operand_levels (e : Expr) : nat :=
  match e with Upcast a _ => if is_const a && (tree_version <? V3) then levels a else levels e | _ => levels e end.

(** An operand is what is written of it. *)
Lemma goes_operand e : goes e -> forall s s', operand_built s e = Some s' -> Forall const_ok (consts e) ->
  part (serialize_expr e) parse_expr_fuel (operand tree_version e) s s' (operand_levels e).
Proof.
  intros He s s' Hs Hc. unfold operand, operand_levels, operand_built in *. destruct e; try by apply He.
  destruct (is_const e && (tree_version <? V3)) eqn:E; [|by apply He].
  cbn [ExprSerial.serialize_expr]. rewrite E. destruct e; try done. injection Hs as <-. apply Forall_cons in Hc as [Hc _]. by apply part_const.
Qed.

(** An op code comes first. *)
Lemma op_first op w l : w_then (write_op op) w None = Ok (l, None) -> exists k, l = op :: k.
Proof.
  unfold w_then, write_op, write_all, mbind, stateE_bind, mret, stateE_ret. destruct (w None) as [[k st]|]; [|done].
  intros [= <- _]. by exists k.
Qed.

Lemma const_first c l : const_ok c -> const_serialize tree_version c None = Ok (l, None) ->
  exists b k, l = b :: k /\ b <> op_coll_of_bool_const.
Proof.
  intros Hc. unfold const_serialize, liftE. destruct (constant_serialize tree_version c) as [k|] eqn:Ek; [|done].
  destruct (constant_tag c k Hc Ek) as (tag & l' & -> & Htag). intros [= <-]. exists tag, l'. split; [done|].
  unfold LAST_CONSTANT_CODE in Htag. unfold op_coll_of_bool_const, new_op_code, LAST_CONSTANT_CODE. lia.
Qed.

(** Only a collection of booleans begins as a pair does. *)
Lemma pair_first e l : serialize_expr e None = Ok (l, None) -> Forall const_ok (consts e) ->
  match operand tree_version e with BoolConstants _ => true | _ => false end = false -> exists b k, l = b :: k /\ b <> op_coll_of_bool_const.
Proof.
  intros H Hc He.
  assert (forall op k, l = op :: k -> negb (op =? op_coll_of_bool_const) = true -> exists b k, l = b :: k /\ b <> op_coll_of_bool_const) as Hop.
  { intros op k -> Ho. exists op, k. split; [done|]. by destruct (Z.eqb_spec op op_coll_of_bool_const). }
  destruct e; try done; cbn [ExprSerial.serialize_expr] in H;
    try (apply op_first in H as [k ->]; by eapply Hop).
  - apply Forall_cons in Hc as [Hc _]. by eapply const_first.
  - injection H as <-. by eapply Hop.
  - injection H as <-. by eapply Hop.
  - injection H as <-. eapply Hop; [done|]. by destruct v.
  - apply op_first in H as [k ->]. eapply Hop; [done|]. by destruct tpe_args.
  - apply op_first in H as [k ->]. eapply Hop; [done|]. by destruct kind as [[]|[]|[]|[]].
  - destruct (is_const e && (tree_version <? V3)) eqn:E; [|apply op_first in H as [k ->]; by eapply Hop].
    destruct e; try done. apply Forall_cons in Hc as [Hc _]. by eapply const_first.
Qed.

Lemma bin_op_code_range kind : LAST_CONSTANT_CODE < bin_op_code kind < 256.
Proof. by destruct kind as [[]|[]|[]|[]]; vm_compute. Qed.

Lemma bin_op_arm X kind : arm X (bin_op_code kind) = Some (bin_op_parse X kind).
Proof. by destruct kind as [[]|[]|[]|[]]. Qed.

(** Looking at a byte before it is read. *)
Lemma part_peek {A} w (m : nat -> Z -> parser A) x s s' d :
  (forall b l, w None = Ok (b :: l, None) -> part w (fun fuel => m fuel b) x s s' d) -> (forall l, w None = Ok (l, None) -> l <> []) -> (exists l, w None = Ok (l, None)) ->
  part w (fun fuel => next ← on_reader (io peek_u8); m fuel next) x s s' d.
Proof.
  intros Hm Hne (l & E). destruct l as [|b l]; [by destruct (Hne [] E)|]. destruct (Hm b l E) as (l' & E' & Hl' & Hx).
  rewrite E in E'. injection E' as <-. exists (b :: l). split_and!; done.
Qed.

(** Two constants of type Boolean in bits. *)
Lemma part_pair kind lv rv s d : has_pair_form kind = true -> data_wf tree_version SBoolean lv -> data_wf tree_version SBoolean rv ->
  part (bool_pair_serialize lv rv) (fun fuel => bin_op_parse (parse_expr_fuel fuel) kind)
    (BinOp kind (Const (mkConstant SBoolean lv)) (Const (mkConstant SBoolean rv))) s s d.
Proof.
  intros Hk Hl Hr. inversion Hl as [|b| | | | | | | | | | | | | | |]; subst. inversion Hr as [|b'| | | | | | | | | | | | | | |]; subst.
  unfold bin_op_parse. rewrite Hk. apply part_peek; [|by intros l [= <-]|by eexists].
  intros c l E. assert (c = op_coll_of_bool_const) as -> by by injection E. rewrite Z.eqb_refl. cbn [andb].
  change (bool_pair_serialize (LBoolean b) (LBoolean b')) with (w_then (write_all (put_u8 op_coll_of_bool_const)) (write_all (put_bits [b; b']))).
  eapply part_bind; [by apply part_u8|]. eapply part_end; [apply (part_bits [b; b'])|]. done.
Qed.

Lemma goes_bin_op kind a b : goes a -> goes b -> goes (BinOp kind a b).
Proof.
  intros Ha Hb s s' Hs Hc.
  apply (built_node (BinOp kind a b) s s' (if is_pair kind a b then Some s else s ← operand_built s a; operand_built s b) eq_refl) in Hs as [Hn Hs].
  cbn [consts] in Hc. apply Forall_app in Hc as [Hca Hcb]. unfold ExprBack.node_ok in Hn. rewrite andb_true_r in Hn.
  apply andb_true_iff in Hn as [Hn%builds_Ok Hp].
  change (levels (BinOp kind a b)) with (if is_pair kind a b then 1%nat else S (operand_levels a `max` operand_levels b)).
  cbn [ExprSerial.serialize_expr]. unfold is_pair in *. destruct (bool_operands kind a b) as [[lv rv]|] eqn:Ep.
  - rewrite bool_decide_eq_true_2 in Hs |- * by done. injection Hs as <-.
    assert (has_pair_form kind = true /\ a = Const (mkConstant SBoolean lv) /\ b = Const (mkConstant SBoolean rv)) as (Hk & -> & ->).
    { unfold bool_operands in Ep. destruct a; try discriminate Ep. destruct c as [[] la]; try discriminate Ep.
      destruct b; try discriminate Ep. destruct c as [[] lb]; try discriminate Ep. destruct (has_pair_form kind); [|done]. by injection Ep as -> ->. }
    apply Forall_cons in Hca as [(_ & Hl & _) _]. apply Forall_cons in Hcb as [(_ & Hr & _) _].
    eapply (part_node _ _ _ (fun X => bin_op_parse X kind)); [apply bin_op_code_range|intros X; apply bin_op_arm|exact Hn|by apply part_pair].
  - rewrite bool_decide_eq_false_2 in Hs |- * by by intros [? ?]. apply bind_Some in Hs as (s1 & E1 & Hs).
    eapply (part_node _ _ _ (fun X => bin_op_parse X kind)); [apply bin_op_code_range|intros X; apply bin_op_arm|exact Hn|].
    assert (part (w_then (serialize_expr a) (serialize_expr b)) (fun fuel => parse2 (parse_expr_fuel fuel) (BinOp kind))
      (BinOp kind (operand tree_version a) (operand tree_version b)) s s' (operand_levels a `max` operand_levels b)) as H2.
    { unfold parse2. eapply part_bind; [eapply part_mono; [by apply goes_operand|lia]|].
      eapply part_end; [eapply part_mono; [by apply goes_operand|lia]|done]. }
    unfold bin_op_parse. destruct (has_pair_form kind) eqn:Hk; cbn [andb]; [|eapply part_pure with (x := 0); [done|exact H2]].
    destruct (goes_operand a Ha s s1 E1 Hca) as (la & Ea & _ & _). cbn [andb] in Hp.
    destruct (pair_first a la Ea Hca) as (c & k & -> & Hne); [by destruct (match operand tree_version a with BoolConstants _ => true | _ => false end)|].
    pose proof H2 as (l & El & _ & _). apply part_peek; [| |by eexists].
    + intros c' l' E'. assert (c' = c) as ->.
      { revert E'. unfold w_then, mbind, stateE_bind. rewrite Ea. destruct (serialize_expr b None) as [[lb st]|]; [|done]. by intros [= <- _ _]. }
      destruct (Z.eqb_spec c op_coll_of_bool_const); [done|exact H2].
    + intros l' E'. revert E'. unfold w_then, mbind, stateE_bind. rewrite Ea. destruct (serialize_expr b None) as [[lb st]|]; [|done]. by intros [= <- _].
Qed.

Lemma goes_every e : goes e.
Proof.
  induction e as [e IH] using expr_children_ind. destruct e; cbn [children] in IH;
    repeat match goal with H : Forall _ (_ :: _) |- _ => apply Forall_cons in H as [? H] end;
    first
    [ by eapply goes_op; [reflexivity|by vm_compute|done|intros X; reflexivity|done..]
    | by eapply goes_1; [reflexivity|by vm_compute|done|intros X; reflexivity|done..]
    | by eapply goes_2'; [reflexivity|by vm_compute|done|intros X; reflexivity|done..]
    | by eapply goes_3; [reflexivity|by vm_compute|done|intros X; reflexivity|done..]
    | by apply goes_const | by apply goes_placeholder | by apply goes_val_use | by apply goes_bools | by apply goes_map | by apply goes_filter
    | by apply goes_exists | by apply goes_for_all | by apply goes_select | by apply goes_upcast | by apply goes_downcast
    | by apply goes_tuple_node | by apply goes_sigma_and | by apply goes_sigma_or | by apply goes_tuple_expr | by apply goes_apply
    | by apply goes_func | by apply goes_val_def | by apply goes_exprs | by apply goes_bin_op
    | match goal with v : GlobalVars |- _ => destruct v; by eapply goes_op; [reflexivity|by vm_compute|done|intros X; reflexivity|done..] end
    | apply Forall_app in IH as [? IH]; apply Forall_cons in IH as [? _]; by apply goes_block
    | apply goes_by_index; [done..|]; intros x ->; by apply Forall_cons in IH as [? _] ].
Qed.
End back.

(** * The round trip *)

Section roundtrip.
Context {C : SigmaCrypto} {L : SigmaCryptoLaws C} {P : SigmaCryptoParsing C} {PL : SigmaCryptoParsingLaws C P}.
Context {B : NumBigint} {BL : NumBigintLaws B} {Bx : ErgoBoxData} {BS : BoxSerial Bx}.
Context {M : Bnum} {ML : BnumLaws M} {N : BnumBytes} {NL : BnumBytesLaws N}.
Context (tree_version : Z) (constants : list Constant) (substitute : bool).

(** The parser at the reader's level. *)
Lemma part_parse e s s' d :
  part (serialize_expr tree_version e) (parse_expr_fuel tree_version constants substitute) e s s' d ->
  exists l, serialize_expr tree_version e None = Ok (l, None) /\ byte_list l /\
    forall r, readable (past l r) -> (rd_level r + d <= MAX_TREE_DEPTH)%nat ->
      parse_expr tree_version constants substitute (mkExprReader (before l r) s) = Ok (e, mkExprReader (past l r) s').
Proof.
  intros (l & E & Hl & Hx). exists l. split_and!; try done. intros r Hr Hd. unfold parse_expr, parse_fuel. cbn [xr_reader before at_bytes rd_level].
  replace (S (MAX_TREE_DEPTH - rd_level r)) with (S MAX_TREE_DEPTH - rd_level r)%nat by lia. by apply (Hx (rd_level r)).
Qed.

(** C29: a built expression is written, and its bytes parse to it, with the reader right after them and the types of its
    variables known, at any level that leaves it the levels it takes. Built means that every node is what the parser's
    checks make of its parts, with the counts, ids and types that the format has room for. It leaves out some of what a
    parse can give: a relation or logical operation on a collection of boolean constants as its left operand, whose bytes
    are read as something else ([compared_bools_misread]), and below version 3 a cast constant anywhere but as the operand
    of an operation that casts it again ([cast_not_written]). *)
Theorem expr_roundtrip (e : Expr) (types types' : Store) :
  built tree_version constants substitute types e = Some types' -> Forall (const_ok tree_version) (consts e) ->
  exists l, serialize_expr tree_version e None = Ok (l, None) /\ byte_list l /\
    forall r, readable (past l r) -> (rd_level r + levels tree_version e <= MAX_TREE_DEPTH)%nat ->
      parse_expr tree_version constants substitute (mkExprReader (before l r) types) = Ok (e, mkExprReader (past l r) types').
Proof. intros Hs Hc. by apply part_parse, goes_every. Qed.
End roundtrip.

(** * Concrete inputs *)

Definition bool_c (b : bool) : Expr := Const (mkConstant SBoolean (LBoolean b)).
Definition int_c (i : Z) : Expr := Const (mkConstant SInt (LInt i)).

(** A script of version 3 that declares a deadline and a function, with a closure over the outputs. *)
Definition sample_expr : Expr :=
  BlockValue
    [ValDef 1 [] (BinOp (Arith Plus) (EGlobalVars Height) (int_c 100));
     ValDef 2 [] (func_value_new [mkFuncArg 3 SInt] (BinOp (Relation RLt) (ValUse 3 SInt) (ValUse 1 SInt)))]
    (BinOp (Logical LogicalAnd)
      (Exists (EGlobalVars Outputs) (func_value_new [mkFuncArg 4 SBox] (BinOp (Relation REq) (ValUse 4 SBox) (EGlobalVars SelfBox))) SBox)
      (If (BinOp (Relation REq) (bool_c true) (bool_c false)) (And (BoolConstants [true; false; true]))
        (Apply (ValUse 2 (SFunc [SInt] SBoolean [])) [ByIndex (Exprs SInt [int_c 5; EGlobalVars Height]) (int_c 1) (Some (int_c (- 7)))]))).

Lemma int_const_ok v i : in_s 32 i -> const_ok v (mkConstant SInt (LInt i)).
Proof. intros Hi. split_and!; [done|by constructor|done]. Qed.
Lemma bool_const_ok v b : const_ok v (mkConstant SBoolean (LBoolean b)).
Proof. split_and!; [done|constructor|done]. Qed.

Lemma sample_consts : Forall (const_ok 3) (consts sample_expr).
Proof. repeat (apply Forall_cons_2; [first [apply int_const_ok; unfold in_s; lia|apply bool_const_ok]|]). constructor. Qed.

Lemma sample_built : exists types, built 3 [] false ∅ sample_expr = Some types.
Proof. apply is_Some_alt. vm_compute. exact I. Qed.

Lemma expr_roundtrip_witness :
  exists l types, serialize_expr 3 sample_expr None = Ok (l, None) /\ length l = 55%nat /\
    parse_expr 3 [] false (mkExprReader (before l (mkReader [7] 0 U64_MAX 100%nat)) ∅) =
      Ok (sample_expr, mkExprReader (past l (mkReader [7] 0 U64_MAX 100%nat)) types).
Proof.
  destruct sample_built as [types Ht].
  destruct (expr_roundtrip 3 [] false sample_expr ∅ types Ht sample_consts) as (l & El & _ & Hp).
  exists l, types. split; [exact El|]. split.
  - assert (length (match serialize_expr 3 sample_expr None with Ok (l, _) => l | Err _ => [] end) = 55%nat) as E by (vm_compute; reflexivity).
    rewrite El in E. exact E.
  - apply (Hp (mkReader [7] 0 U64_MAX 100%nat)); [by left|apply Nat.leb_le; vm_compute; reflexivity].
Defined.

(** * What modelling showed *)

Definition bytes_of (v : Z) (e : Expr) : list Z := match serialize_expr v e None with Ok (l, _) => l | Err _ => [] end.
Definition read_of (v : Z) (l : list Z) : result SigmaParsingError (Expr * expr_reader) :=
  parse_expr v [] false (mkExprReader (mkReader l 0 U64_MAX 0%nat) ∅).
(** The bytes give the expression and leave [rest]. *)
Definition read_as (v : Z) (l : list Z) (e : Expr) (rest : list Z) : bool :=
  match read_of v l with Ok (e', s) => bool_decide (e' = e) && bool_decide (rd_bytes (xr_reader s) = rest) | Err _ => false end.
Definition read_fails (v : Z) (l : list Z) : bool := match read_of v l with Ok _ => false | Err _ => true end.

Definition compared_bools : Expr := BinOp (Relation REq) (BoolConstants [true]) (BoolConstants [true]).

(** Two collections of boolean constants compared: after the op code of the relation comes that of the collection, and
    the parser takes it for a pair of bits. Four bytes are left, and the relation is another. *)
Lemma compared_bools_misread :
  bytes_of 3 compared_bools = [147; 133; 1; 1; 133; 1; 1] /\
  read_as 3 (bytes_of 3 compared_bools) (BinOp (Relation REq) (bool_c true) (bool_c false)) [1; 133; 1; 1] = true.
Proof. split; vm_compute; reflexivity. Qed.

(** The other encoding of such a collection is read as it should be, and written again as the first. *)
Lemma compared_bools_reparse :
  read_as 3 [147; 131; 1; 1; 127; 131; 1; 1; 127] compared_bools [] = true /\ read_as 3 (bytes_of 3 compared_bools) compared_bools [] = false.
Proof. split; vm_compute; reflexivity. Qed.

(** Below version 3 a cast of a constant is written as the constant, and outside of an operation it is not read back. *)
Definition casts : Expr := Exprs SLong [Upcast (int_c 5) SLong; Upcast (EGlobalVars Height) SLong].
Lemma cast_not_written : read_as 3 (bytes_of 3 casts) casts [] = true /\ read_fails 2 (bytes_of 2 casts) = true.
Proof. split; vm_compute; reflexivity. Qed.

(** A collection of 65536 items is written with the count 0. *)
Lemma count_wraps bools : Z.of_nat (length bools) = 2 ^ 16 -> bytes_of 3 (BoolConstants bools) = 133 :: 0 :: put_bits bools.
Proof. intros H. unfold bytes_of. cbn [serialize_expr]. by rewrite H. Qed.
