(* ===== verification/ExprParse.v ===== *)
(** Parsing expressions on any bytes (src/ergotree-ir/src/serialization/expr.rs, check_build.rs and the parsers of the
    nodes): a parse ends without a panic, and what it gives, where it is an expression that its bytes mean ([writable]),
    is written and read again. *)

From stdpp Require Import strings gmap.
From S2P Require Import Prelude Gf2Field SigmaBoolean ConcreteCrypto Vlq Codecs SigmaSerial BigNum Header Types TypeSerial TypeParse Expr Value EvalOps EvalConcrete BigIntSerial DataSerial DataParse ContextExt ExprSerial ExprBack.
#[local] Open Scope Z_scope.

(** * What can be written again *)

Section writable.
Context `{C : SigmaCrypto} {B : NumBigint} {Bx : ErgoBoxData}.
Context (tree_version : Z).

(** A constant whose type has an encoding, without headers. *)
Definition const_writable (c : Constant) : bool :=
  type_ok tree_version (const_tpe c) && header_free (const_tpe c).

(** Operations whose casts are those that the parser makes, and that do not begin with a collection of booleans. *)
Definition op_writable (kind : BinOpKind) (lhs rhs : Expr) : bool :=
  ((V3 <=? tree_version) || builds (check_build tree_version (BinOp kind (operand tree_version lhs) (operand tree_version rhs))) (BinOp kind lhs rhs)) &&
  negb (has_pair_form kind && match operand tree_version lhs with BoolConstants _ => true | _ => false end).

(** An expression that was parsed and whose bytes mean it: its types and names still have an encoding, and a constant
    below version 3 is cast only by an operation. *)
Fixpoint writable (e : Expr) : bool :=
  let operand_writable e := match e with Upcast a _ => if is_const a && (tree_version <? V3) then writable a else writable e | _ => writable e end in
  match e with
  | Const c => const_writable c
  | ConstPlaceholder _ _ | BoolConstants _ | EContext | EGlobal | EGlobalVars _ | ValUse _ _ => true
  | ByteArrayToLong e | ByteArrayToBigInt e | LongToByteArray e | CalcBlake2b256 e | CalcSha256 e
  | And e | Or e | XorOf e | LogicalNot e | Negation e | BitInversion e
  | OptionGet e | OptionIsDefined e | SizeOf e | SelectField e _ _ | BoolToSigmaProp e | CreateProveDlog e => writable e
  | Upcast a t => negb (is_const a && (tree_version <? V3)) && type_ok tree_version t && writable a
  | Downcast a t => type_ok tree_version t && writable a
  | FuncValue args e _ => forallb (fun a => type_ok tree_version (arg_tpe a)) args && writable e
  | ValDef _ tpe_args e => forallb name_wf tpe_args && writable e
  | BinOp kind a b => op_writable kind a b && (operand_writable a && operand_writable b)
  | Append a b | Xor a b | Atleast a b | OptionGetOrElse a b | Map a b _ | Filter a b _
  | Exists a b _ | ForAll a b _ | MultiplyGroup a b => writable a && writable b
  | If a b c | Slice a b c | Fold a b c => writable a && (writable b && writable c)
  | ByIndex a b d => writable a && (writable b && match d with Some c => writable c | None => true end)
  | CreateProveDhTuple a b c d => writable a && (writable b && (writable c && writable d))
  | Exprs t items => type_ok tree_version t && forallb writable items
  | Tuple items | SigmaAnd items | SigmaOr items => forallb writable items
  | Apply func args => writable func && forallb writable args
  | BlockValue items result => forallb writable items && writable result
  end.

Definition operand_writable (e : Expr) : bool :=
  match e with Upcast a _ => if is_const a && (tree_version <? V3) then writable a else writable e | _ => writable e end.
End writable.

(** * Parsers on any bytes *)

Section sound.
Context {C : SigmaCrypto} {P : SigmaCryptoParsing C} {B : NumBigint} {BL : NumBigintLaws B} {Bx : ErgoBoxData} {BS : BoxSerial Bx}.
Context {M : Bnum} {ML : BnumLaws M} {N : BnumBytes} {NL : BnumBytesLaws N}.
Context (tree_version : Z) (constants : list Constant) (substitute : bool).

(** The constants that placeholders stand for were parsed themselves. *)
Context (Hstore : substitute = true -> Forall (fun c => const_writable tree_version c = true -> const_ok tree_version c) constants).

Abbreviation io := (map_st_err sigma_io_error).
Abbreviation vlq := (map_st_err SpVlqEncode).
Abbreviation built := (built tree_version constants substitute).
Abbreviation node_ok := (node_ok tree_version constants substitute).
Abbreviation operand_built := (operand_built tree_version constants substitute).
Abbreviation check_build := (check_build tree_version).
Abbreviation writable := (writable tree_version).
Abbreviation operand_writable := (operand_writable tree_version).
Abbreviation const_ok := (const_ok tree_version).

(** At level [n], with the types [s]: a success only consumed bytes and has [Q] with the types it leaves, and an error is
    no panic. *)
Definition xs {A} (n : nat) (s : Store) (Q : A -> Store -> Prop) (m : parser A) : Prop :=
  forall r, small_input r -> rd_level r = n ->
    match m (mkExprReader r s) with Ok (x, st) => moved r (xr_reader st) /\ Q x (xr_types st) | Err e => sane e end.

(** Items read one after the other. *)
Inductive chain {A} (f : Store -> A -> Store -> Prop) : Store -> list A -> Store -> Prop :=
  | chain_nil s : chain f s [] s
  | chain_cons s s1 s' x items : f s x s1 -> chain f s1 items s' -> chain f s (x :: items) s'.

Section at_level.
Context (n : nat).

Lemma xs_ret {A} s (Q : A -> Store -> Prop) x : Q x s -> xs n s Q (mret x).
Proof. intros H r _ _. by split. Qed.

Lemma xs_bind {A A'} s (Q : A -> Store -> Prop) (R : A' -> Store -> Prop) m f :
  xs n s Q m -> (forall x s1, Q x s1 -> xs n s1 R (f x)) -> xs n s R (m ≫= f).
Proof.
  intros Hm Hf r Hr Hn. specialize (Hm r Hr Hn). unfold mbind, stateE_bind. destruct (m _) as [[x st]|e]; [|done].
  destruct Hm as [Hmv Hx]. specialize (Hf x _ Hx (xr_reader st) (moved_small r _ Hmv Hr)).
  rewrite (moved_level r _ Hmv) in Hf. specialize (Hf Hn). destruct st as [r1 s1]. cbn [xr_reader xr_types] in *.
  destruct (f x _) as [[y st]|]; [|done]. destruct Hf as [Hmv2 Hy]. split; [by etrans|done].
Qed.

Lemma xs_weaken {A} s (Q R : A -> Store -> Prop) m : xs n s Q m -> (forall x s1, Q x s1 -> R x s1) -> xs n s R m.
Proof. intros H HR r Hr Hn. specialize (H r Hr Hn). destruct (m _) as [[x st]|]; [|done]. destruct H. split; auto. Qed.

Lemma xs_fail {A} s (Q : A -> Store -> Prop) e : sane e -> xs n s Q (fail e).
Proof. by intros H r _ _. Qed.

Lemma xs_lift {A} s (Q : A -> Store -> Prop) x : match x with Ok a => Q a s | Err e => sane e end -> xs n s Q (liftE x).
Proof. intros H r _ _. unfold liftE. destruct x; [by split|done]. Qed.

(** What leaves the types alone. *)
Lemma xs_reader {A} s (Q : A -> Prop) m : parses_at true n Q m -> xs n s (fun x s' => Q x /\ s' = s) (on_reader m).
Proof. intros H r Hr Hn. specialize (H r Hr Hn). unfold on_reader. cbn [xr_reader]. destruct (m r) as [[x r']|]; [by destruct H|by eapply fails_sane]. Qed.

Lemma xs_yields {A} s (Q : A -> Prop) m : yields proper Q m -> xs n s (fun x s' => Q x /\ s' = s) (on_reader m).
Proof. intros H. by apply xs_reader, at_yields. Qed.

Lemma xs_guard s b e : sane e -> xs n s (fun _ s' => b = true /\ s' = s) (liftE (guard_or b e)).
Proof. intros He. apply xs_lift. by destruct b. Qed.

Lemma xs_u8 s : xs n s (fun v s' => in_u 8 v /\ s' = s) (on_reader (io get_u8)).
Proof. apply xs_yields, yields_u8, io_proper. Qed.
Lemma xs_u32 s : xs n s (fun v s' => in_u 32 v /\ s' = s) (on_reader (vlq get_u32)).
Proof. apply xs_yields, yields_map_err; [done|apply yields_u32_any]. Qed.
Lemma xs_u16 s : xs n s (fun v s' => in_u 16 v /\ s' = s) (on_reader count_u16).
Proof. apply xs_yields, yields_count. Qed.
Lemma xs_bits s k : xs n s (fun bs s' => length bs = k /\ s' = s) (on_reader (vlq (get_bits k))).
Proof. apply xs_yields, yields_map_err; [done|apply yields_bits]. Qed.
Lemma xs_peek s : xs n s (fun _ s' => True /\ s' = s) (on_reader (io peek_u8)).
Proof.
  apply xs_reader. intros r _ _. unfold map_st_err, peek_u8. destruct (rd_exact 1 r) as [[b r']|e]; cbn [result_map_err]; [done|left; apply io_proper].
Qed.

Lemma xs_type s : xs n s (fun _ s' => True /\ s' = s) (type_parse tree_version).
Proof. apply xs_yields. eapply yields_weaken; [by apply (parse_yields tree_version (S MAX_TYPE_DEPTH) 0)|done]. Qed.

(** Several in a row. *)
Lemma xs_repeat {A} (f : Store -> A -> Store -> Prop) m : (forall s, xs n s (f s) m) -> forall k s,
  xs n s (fun items s' => length items = k /\ chain f s items s') (repeat_parse m k).
Proof.
  intros Hm k. induction k as [|k IH]; intros s; cbn [repeat_parse]; [apply xs_ret; by split; [|constructor]|].
  eapply xs_bind; [apply Hm|]. intros x s1 Hx. eapply xs_bind; [apply IH|]. intros l s2 [Hl Hc]. apply xs_ret.
  split; [cbn; by f_equal|by econstructor].
Qed.

Lemma xs_vec {A} (f : Store -> A -> Store -> Prop) m s : (forall s, xs n s (f s) m) ->
  xs n s (fun items s' => array_ok items = true /\ chain f s items s') (vec_parse m).
Proof.
  intros Hm. unfold vec_parse. eapply xs_bind; [apply xs_u32|]. intros k s1 [Hk ->]. eapply xs_bind; [by apply xs_guard|].
  intros _ s2 [Ha ->]. eapply xs_weaken; [apply xs_repeat, Hm|]. intros l s3 [Hl Hc]. split; [|done]. unfold array_ok.
  rewrite Hl, Z2Nat.id by (unfold in_u in Hk; lia). exact Ha.
Qed.
End at_level.

(** ** Constants *)

Lemma const_sound n : (n <= MAX_TREE_DEPTH)%nat -> forall tag, in_u 8 tag ->
  parses_at true n (fun c => const_writable tree_version c = true -> const_ok c) (constant_parse_with_tag tree_version tag).
Proof.
  intros Hn tag Htag. unfold constant_parse_with_tag. eapply at_bind.
  { apply at_yields, (parse_tag_yields tree_version (parse_at_depth tree_version MAX_TYPE_DEPTH 1)); [by apply parse_yields|done]. }
  intros t _. eapply at_bind; [by apply every_data_sound; [apply orb_true_r|]|]. intros v [Hw _]. apply at_ret.
  unfold const_writable. cbn [const_tpe]. intros [Ht Hh]%andb_true_iff.
  split_and!; [done|done|by eapply header_free_read].
Qed.

(** ** What a parse gives *)

(** An expression read with the types [s], which left the types [s']. *)
Definition good (s : Store) (e : Expr) (s' : Store) : Prop :=
  (writable e = true -> built s e = Some s' /\ Forall const_ok (consts e)) /\
  (operand_writable e = true -> operand_built s e = Some s' /\ Forall const_ok (consts e)).

Definition is_upcast (e : Expr) : bool := match e with Upcast _ _ => true | _ => false end.

Lemma good_simple s e s' : is_upcast e = false -> (writable e = true -> built s e = Some s' /\ Forall const_ok (consts e)) -> good s e s'.
Proof. intros Hu H. split; [done|]. by destruct e. Qed.

(** A node before it is checked. *)
Definition unchecked (s : Store) (e : Expr) (s' : Store) : Prop := forall e', check_build e = Ok e' -> good s e' s'.

Lemma check_same e e' : is_bin_op e = false -> check_build e = Ok e' -> e' = e /\ builds (check_build e) e = true.
Proof.
  intros Hb H. assert (e' = e) as ->.
  { revert H. unfold ExprSerial.check_build. replace (apply_builder tree_version e) with (@Ok SigmaParsingError _ e) by by destruct e.
    cbn. destruct (check_constructor e); [|done]. by intros [= <-]. }
  split; [done|]. rewrite H. cbn. by apply bool_decide_eq_true.
Qed.

(** A node that is neither an operation nor a cast. *)
Lemma unchecked_node s e s' (o : option Store) :
  is_bin_op e = false -> is_upcast e = false -> built s e = (s' ← o; if node_ok s e then Some s' else None) ->
  (writable e = true -> o = Some s' /\ Forall const_ok (consts e) /\ (builds (check_build e) e = true -> node_ok s e = true)) ->
  unchecked s e s'.
Proof.
  intros Hb Hu E H e' He. apply check_same in He as [-> Hbuild]; [|done]. apply good_simple; [done|]. intros Hw.
  destruct (H Hw) as (Ho & Hc & Hn). rewrite E, Ho. cbn. by rewrite Hn.
Qed.

Lemma chain_good s items s' : chain good s items s' -> forallb writable items = true ->
  built_all built s items = Some s' /\ Forall const_ok (concat (map consts items)).
Proof.
  induction 1 as [s|s s1 s' x items Hx _ IH]; [by split; [|constructor]|]. cbn [forallb]. intros [Hw Hi]%andb_true_iff.
  destruct Hx as [Hx _]. destruct (Hx Hw) as [Eb Hc]. destruct (IH Hi) as [Ebs Hcs]. cbn [built_all map concat].
  rewrite Eb. split; [done|by apply Forall_app].
Qed.

Lemma chain_weaken {A} (f g : Store -> A -> Store -> Prop) s items s' : (forall s x s', f s x s' -> g s x s') -> chain f s items s' -> chain g s items s'.
Proof. intros H. induction 1; econstructor; eauto. Qed.

Lemma chain_all {A} (f : Store -> A -> Store -> Prop) (Q : A -> Prop) s items s' : (forall s x s', f s x s' -> Q x) -> chain f s items s' -> Forall Q items.
Proof. intros H. induction 1; constructor; eauto. Qed.

(** Fields that leave the types alone. *)
Lemma chain_same {A} (f : Store -> A -> Store -> Prop) s items s' : (forall s x s', f s x s' -> s' = s) -> chain f s items s' -> s' = s.
Proof. intros H. induction 1 as [|s s1 s' x items Hx _ IH]; [done|]. apply H in Hx. congruence. Qed.

(** A cast of a number that is written as a cast. *)
Lemma cast_built s a t s' : is_numeric t = true -> built s a = Some s' -> is_const a && (tree_version <? V3) = false ->
  is_numeric (tpe a) = true -> type_ok tree_version t = true -> built s (Upcast a t) = Some s'.
Proof.
  intros Ht Eb Hn Ha Hok. change (built s (Upcast a t)) with (s' ← built s a; if node_ok s (Upcast a t) then Some s' else None).
  rewrite Eb. cbn [mbind option_bind]. replace (node_ok s (Upcast a t)) with true; [done|]. symmetry. apply andb_true_iff. split.
  - unfold builds, ExprSerial.check_build. cbn. unfold require_numeric_cast. rewrite Ht, Ha. cbn. by apply bool_decide_eq_true.
  - unfold cast_again. by rewrite Hn, Hok.
Qed.

Lemma const_types s c s' : built s (Const c) = Some s' -> s' = s.
Proof. intros E. apply (built_node tree_version constants substitute (Const c) s s' (Some s) eq_refl) in E as [_ E]. by injection E. Qed.


Lemma cast_good s a s' t : good s a s' -> is_numeric t = true -> is_numeric (tpe a) = true -> good s (Upcast a t) s'.
Proof.
  intros [Ha _] Ht Hta. assert (writable (Upcast a t) = true -> built s (Upcast a t) = Some s' /\ Forall const_ok (consts (Upcast a t))) as H.
  { cbn [ExprParse.writable consts]. intros [[Hn Hok]%andb_true_iff Hw]%andb_true_iff. destruct (Ha Hw). split; [|done].
    apply cast_built; try done. by apply negb_true_iff in Hn. }
  split; [exact H|]. unfold ExprParse.operand_writable, ExprBack.operand_built. destruct (is_const a && (tree_version <? V3)) eqn:E; [|exact H].
  intros Hw. destruct (Ha Hw) as [Eb Hc]. destruct a; try done. apply const_types in Eb as ->. by split.
Qed.

(** The operands of an operation that was built. *)
Definition cast_to (t : SType) (e : Expr) : Expr := if bool_decide (tpe e = t) then e else Upcast e t.

Lemma cast_to_good s a s' t : good s a s' -> is_numeric t = true -> is_numeric (tpe a) = true -> good s (cast_to t a) s'.
Proof. intros Ha Ht Hta. unfold cast_to. destruct (bool_decide _); [done|by apply cast_good]. Qed.

Lemma numeric_index t i : numeric_type_index t = Some i -> is_numeric t = true.
Proof. by destruct t. Qed.

Lemma apply_upcast_cases a b : apply_upcast tree_version a b = (a, b) \/
  tree_version < V3 /\ exists t, is_numeric t = true /\ is_numeric (tpe a) = true /\ is_numeric (tpe b) = true /\
    apply_upcast tree_version a b = (cast_to t a, cast_to t b).
Proof.
  unfold apply_upcast. destruct (Z.leb_spec V3 tree_version) as [|Hv]; [by left|].
  destruct (numeric_type_index (tpe a)) as [i|] eqn:Ea; [|by left]. destruct (numeric_type_index (tpe b)) as [j|] eqn:Eb; [|by left].
  apply numeric_index in Ea, Eb. destruct (i =? j); [by left|]. right. split; [done|]. eexists. split; [|by split_and!]. by destruct (i >? j).
Qed.

Lemma builder_proper e err : apply_builder tree_version e = Err err -> sane err.
Proof.
  unfold apply_builder, check2_same_type, check2_only_numeric, guard_or. destruct e; try done.
  match goal with k : BinOpKind |- _ => destruct k as [|[]| |] end; try destruct (apply_upcast _ _ _);
    repeat (destruct (bool_decide _) || destruct (_ && _)); cbn; try done; by intros [= <-].
Qed.

Lemma constructor_proper e err : check_constructor e = Err err -> sane err.
Proof.
  unfold check_constructor, require_numeric_cast, require_num_type_or_no_type, require_option, require_collection, guard_or.
  destruct e; try done; try (match goal with k : BinOpKind |- _ => destruct k; try done end);
    repeat match goal with |- context [if ?b then _ else _] => destruct b end; cbn; try done; by intros [= <-].
Qed.

Lemma check_build_proper e err : check_build e = Err err -> sane err.
Proof.
  unfold ExprSerial.check_build. destruct (apply_builder tree_version e) as [e1|] eqn:E; cbn; [|intros [= <-]; by eapply builder_proper].
  destruct (check_constructor e1) eqn:Ec; [done|]. intros [= <-]. by eapply constructor_proper.
Qed.

Lemma op_built kind a b e : check_build (BinOp kind a b) = Ok e ->
  exists a' b', e = BinOp kind a' b' /\ ((a', b') = (a, b) \/ (a', b') = apply_upcast tree_version a b).
Proof.
  unfold ExprSerial.check_build. intros H. assert (exists a' b', apply_builder tree_version (BinOp kind a b) = Ok (BinOp kind a' b') /\
    ((a', b') = (a, b) \/ (a', b') = apply_upcast tree_version a b) /\ e = BinOp kind a' b') as (a' & b' & _ & Hab & ->); [|by exists a', b'].
  destruct (apply_builder tree_version (BinOp kind a b)) as [e1|] eqn:E; [|done]. assert (e = e1) as ->.
  { revert H. cbn. destruct (check_constructor e1); [|done]. by intros [= <-]. }
  revert E. cbn [apply_builder]. destruct (apply_upcast tree_version a b) as [a' b'].
  destruct kind as [|[]| |]; unfold check2_same_type, check2_only_numeric, guard_or; cbn; repeat (destruct (bool_decide _) || destruct (_ && _)); cbn;
    try done; intros [= <-]; eauto 10.
Qed.

Lemma operand_v3 e : V3 <= tree_version -> operand tree_version e = e.
Proof. intros Hv. unfold operand. destruct e; try done. destruct (Z.ltb_spec tree_version V3); [lia|]. by rewrite andb_false_r. Qed.

(** An operation of operands that are good. *)
Lemma op_writable_good s a b s1 s2 kind : good s a s1 -> good s1 b s2 ->
  (V3 <= tree_version -> check_build (BinOp kind a b) = Ok (BinOp kind a b)) -> good s (BinOp kind a b) s2.
Proof.
  intros [_ Ha] [_ Hb] Hc. apply good_simple; [done|].
  change (writable (BinOp kind a b)) with (op_writable tree_version kind a b && (operand_writable a && operand_writable b)).
  rewrite !andb_true_iff. intros (Ho & Hwa & Hwb). destruct (Ha Hwa) as [Ea Hca], (Hb Hwb) as [Eb Hcb]. split; [|by apply Forall_app].
  change (built s (BinOp kind a b)) with (s' ← (if is_pair kind a b then Some s else s ← operand_built s a; operand_built s b); if node_ok s (BinOp kind a b) then Some s' else None).
  assert ((if is_pair kind a b then Some s else s ← operand_built s a; operand_built s b) = Some s2) as ->.
  { destruct (is_pair kind a b) eqn:Ep; [|by rewrite Ea].
    apply bool_decide_eq_true in Ep as [p Ep]. unfold bool_operands in Ep. destruct a; try discriminate Ep. destruct c as [[] la]; try discriminate Ep.
    destruct b; try discriminate Ep. apply const_types in Ea, Eb. by subst. }
  cbn [mbind option_bind]. replace (node_ok s (BinOp kind a b)) with true; [done|]. symmetry. apply andb_true_iff. split; [|done].
  unfold op_writable in Ho. apply andb_true_iff in Ho as [Ho Hp]. apply andb_true_iff. split; [|exact Hp].
  destruct (Z.leb_spec V3 tree_version) as [Hv|]; [|exact Ho]. rewrite !operand_v3, Hc by done. by apply bool_decide_eq_true.
Qed.

Lemma op_good s a b s1 s2 kind : good s a s1 -> good s1 b s2 -> unchecked s (BinOp kind a b) s2.
Proof.
  intros Ha Hb e He. pose proof He as He0. apply op_built in He as (a' & b' & -> & Hab).
  destruct (apply_upcast_cases a b) as [E|(Hv & t & Ht & Hta & Htb & E)]; rewrite E in Hab.
  - assert (a' = a /\ b' = b) as [-> ->] by by destruct Hab as [[= -> ->]|[= -> ->]]. by apply (op_writable_good s a b s1 s2).
  - assert (good s a' s1 /\ good s1 b' s2) as [Ha' Hb'] by by destruct Hab as [[= -> ->]|[= -> ->]]; split; try done; by apply cast_to_good.
    apply (op_writable_good s a' b' s1 s2); [done|done|lia].
Qed.

Lemma const_good s c : (const_writable tree_version c = true -> const_ok c) -> good s (Const c) s.
Proof.
  intros Hok. apply good_simple; [done|]. intros Hw. split; [|by repeat constructor; apply Hok].
  change (built s (Const c)) with (if builds (check_build (Const c)) (Const c) && true then Some s else None).
  unfold builds. cbn. by rewrite bool_decide_eq_true_2.
Qed.

Lemma bool_good s b : good s (Const (mkConstant SBoolean (LBoolean b))) s.
Proof. apply const_good. intros _. split_and!; [done|constructor|done]. Qed.

(** ** The arms *)

Section arms.
Context (n : nat) (X : parser Expr) (HX : forall s, xs n s (good s) X).

Abbreviation checked e := (builds (check_build e) e = true).

Lemma arm_0 s e : is_bin_op e = false -> is_upcast e = false -> (forall s, built s e = if node_ok s e then Some s else None) ->
  consts e = [] -> (forall s, checked e -> node_ok s e = true) -> xs n s (unchecked s) (mret e).
Proof.
  intros Hb Hu Eb Ec Hn. apply xs_ret. eapply (unchecked_node _ _ _ (Some s)); [done|done|apply Eb|]. intros _.
  rewrite Ec. split_and!; [done|constructor|apply Hn].
Qed.

Lemma arm_1 s (K : Expr -> Expr) :
  (forall a, is_bin_op (K a) = false) -> (forall a, is_upcast (K a) = false) ->
  (forall s a, built s (K a) = (s' ← built s a; if node_ok s (K a) then Some s' else None)) ->
  (forall a, writable (K a) = writable a) -> (forall a, consts (K a) = consts a) ->
  (forall s a, checked (K a) -> node_ok s (K a) = true) -> xs n s (unchecked s) (parse1 X K).
Proof.
  intros Hb Hu Eb Ew Ec Hn. unfold parse1. eapply xs_bind; [apply HX|]. intros a s1 [Ha _]. apply xs_ret.
  eapply (unchecked_node _ _ _ (built s a)); [done|done|apply Eb|]. rewrite Ew, Ec. intros Hw. destruct (Ha Hw). auto.
Qed.

Lemma arm_2 s (m : Expr -> Expr -> result SigmaParsingError Expr) :
  (forall a b, match m a b with
    | Ok e => is_bin_op e = false /\ is_upcast e = false /\
        (forall s, built s e = (s' ← (s ← built s a; built s b); if node_ok s e then Some s' else None)) /\
        writable e = writable a && writable b /\ consts e = consts a ++ consts b /\ (forall s, checked e -> node_ok s e = true)
    | Err e => sane e
    end) -> xs n s (unchecked s) (a ← X; b ← X; liftE (m a b)).
Proof.
  intros Hm. eapply xs_bind; [apply HX|]. intros a s1 [Ha _]. eapply xs_bind; [apply HX|]. intros b s2 [Hb _]. apply xs_lift.
  specialize (Hm a b). destruct (m a b) as [e|]; [|done]. destruct Hm as (Hbin & Hu & Eb & Ew & Ec & Hn).
  eapply unchecked_node; [done|done|apply Eb|]. rewrite Ew, Ec, andb_true_iff. intros [Hwa Hwb].
  destruct (Ha Hwa) as [-> ?], (Hb Hwb). split_and!; [done|by apply Forall_app|apply Hn].
Qed.

Lemma arm_2' s (K : Expr -> Expr -> Expr) :
  (forall a b, is_bin_op (K a b) = false /\ is_upcast (K a b) = false /\
    (forall s, built s (K a b) = (s' ← (s ← built s a; built s b); if node_ok s (K a b) then Some s' else None)) /\
    writable (K a b) = writable a && writable b /\ consts (K a b) = consts a ++ consts b /\
    (forall s, checked (K a b) -> node_ok s (K a b) = true)) -> xs n s (unchecked s) (parse2 X K).
Proof. intros HK. exact (arm_2 s (fun a b => Ok (K a b)) HK). Qed.

Lemma arm_3 s (K : Expr -> Expr -> Expr -> Expr) :
  (forall a b c, is_bin_op (K a b c) = false /\ is_upcast (K a b c) = false /\
    (forall s, built s (K a b c) = (s' ← (s ← built s a; s ← built s b; built s c); if node_ok s (K a b c) then Some s' else None)) /\
    writable (K a b c) = writable a && (writable b && writable c) /\ consts (K a b c) = consts a ++ consts b ++ consts c /\
    (forall s, checked (K a b c) -> node_ok s (K a b c) = true)) -> xs n s (unchecked s) (parse3 X K).
Proof.
  intros HK. unfold parse3. eapply xs_bind; [apply HX|]. intros a s1 [Ha _]. eapply xs_bind; [apply HX|]. intros b s2 [Hb _].
  eapply xs_bind; [apply HX|]. intros c s3 [Hc _]. apply xs_ret. destruct (HK a b c) as (Hbin & Hu & Eb & Ew & Ec & Hn).
  eapply unchecked_node; [done|done|apply Eb|]. rewrite Ew, Ec, !andb_true_iff. intros (Hwa & Hwb & Hwc).
  destruct (Ha Hwa) as [-> ?], (Hb Hwb) as [Eb' ?], (Hc Hwc) as [Ec' ?]. cbn [mbind option_bind]. rewrite Eb'. cbn [mbind option_bind].
  split_and!; [done|by repeat (apply Forall_app; split)|apply Hn].
Qed.

Lemma arm_dh_tuple s : xs n s (unchecked s) (parse4 X CreateProveDhTuple).
Proof.
  unfold parse4. eapply xs_bind; [apply HX|]. intros a s1 [Ha _]. eapply xs_bind; [apply HX|]. intros b s2 [Hb _].
  eapply xs_bind; [apply HX|]. intros c s3 [Hc _]. eapply xs_bind; [apply HX|]. intros d s4 [Hd _]. apply xs_ret.
  apply (unchecked_node _ _ _ (s ← built s a; s ← built s b; s ← built s c; built s d)); [done|done|reflexivity|].
  cbn [ExprParse.writable consts]. rewrite !andb_true_iff. intros (Hwa & Hwb & Hwc & Hwd).
  destruct (Ha Hwa) as [-> ?], (Hb Hwb) as [Eb ?], (Hc Hwc) as [Ec ?], (Hd Hwd) as [Ed ?]. cbn [mbind option_bind]. rewrite Eb. cbn [mbind option_bind]. rewrite Ec. cbn [mbind option_bind].
  split_and!; [done|by repeat (apply Forall_app; split)|by intros Hk; apply andb_true_iff].
Qed.

(** *** Variables, placeholders and collections of bits *)

Lemma id_in_ok id : in_u 32 id -> id_ok id = true.
Proof. unfold in_u, id_ok. intros Hi. apply andb_true_iff. split; [apply Z.leb_le|apply Z.ltb_lt]; lia. Qed.

(** A node without parts whose fields are as they should be. *)
Lemma unchecked_leaf s e : is_bin_op e = false -> is_upcast e = false -> (forall s, built s e = if node_ok s e then Some s else None) ->
  consts e = [] -> (checked e -> node_ok s e = true) -> unchecked s e s.
Proof.
  intros Hb Hu Eb Ec Hn. eapply (unchecked_node _ _ _ (Some s)); [done|done|apply Eb|]. intros _. rewrite Ec. split_and!; [done|constructor|done].
Qed.

Lemma arm_placeholder s : xs n s (unchecked s) (placeholder_parse constants substitute).
Proof.
  unfold placeholder_parse. eapply xs_bind; [apply xs_u32|]. intros id s1 [Hid ->]. destruct (constants !! Z.to_nat id) as [c|] eqn:E; [|by apply xs_fail].
  apply xs_ret. destruct substitute eqn:Es.
  - intros e' He. apply check_same in He as [-> _]; [|done]. apply const_good. rewrite Forall_lookup in Hstore. by eapply Hstore.
  - apply unchecked_leaf; try done. intros Hk. apply andb_true_iff. split; [exact Hk|].
    rewrite Es, (id_in_ok id Hid), E. by apply bool_decide_eq_true.
Qed.

Lemma arm_val_use s : xs n s (unchecked s) val_use_parse.
Proof.
  unfold val_use_parse. eapply xs_bind; [apply xs_u32|]. intros id s1 [Hid ->].
  eapply (xs_bind _ _ (fun t s' => s !! id = Some t /\ s' = s)).
  { intros r _ _. unfold get_type. cbn [xr_types xr_reader]. by destruct (s !! id). }
  intros t s1 [Ht ->]. apply xs_ret. apply unchecked_leaf; try done. intros Hk. apply andb_true_iff. split; [exact Hk|].
  rewrite (id_in_ok id Hid). by apply bool_decide_eq_true.
Qed.

Lemma arm_bools s : xs n s (unchecked s) bool_const_coll_parse.
Proof.
  unfold bool_const_coll_parse. eapply xs_bind; [apply xs_u16|]. intros k s1 [Hk ->]. eapply xs_bind; [apply xs_bits|]. intros bs s1 [Hl ->].
  apply xs_ret. apply unchecked_leaf; try done. intros Hc. apply andb_true_iff. split; [exact Hc|]. unfold in_u in Hk. apply Z.ltb_lt. lia.
Qed.

(** *** Definitions and functions *)

Lemma xs_val_id s : xs n s (fun id s' => (0 <=? id) && (id <? 2 ^ 31) = true /\ s' = s) val_id_parse_exact.
Proof.
  unfold val_id_parse_exact. eapply xs_bind; [apply xs_u32|]. intros id s1 [Hid ->]. eapply xs_bind; [by apply xs_guard|].
  intros _ s1 [Hle%Z.leb_le ->]. apply xs_ret. split; [|done]. unfold in_u in Hid. apply andb_true_iff. split; [apply Z.leb_le|apply Z.ltb_lt]; lia.
Qed.

Lemma xs_insert s id t : xs n s (fun _ s' => s' = <[id := t]> s) (insert_type id t).
Proof. by intros r _ _. Qed.

Lemma val_def_good s s1 id tpe_args rhs :
  (0 <=? id) && (id <? 2 ^ 31) = true -> (length tpe_args <= 127)%nat -> good s rhs s1 ->
  unchecked s (ValDef id tpe_args rhs) (<[id := tpe rhs]> s1).
Proof.
  intros Hid Hl [Hr _]. apply (unchecked_node _ _ _ (s ← built s rhs; Some (<[id := tpe rhs]> s))); [done|done|reflexivity|].
  cbn [ExprParse.writable consts]. intros [Hv Hw]%andb_true_iff. destruct (Hr Hw) as [-> ?]. split_and!; [done|done|].
  intros Hk. apply andb_true_iff. split; [exact Hk|]. by rewrite Hid, Hv, (proj2 (Nat.leb_le _ _) Hl).
Qed.

Lemma arm_val_def s : xs n s (unchecked s) (val_def_parse X).
Proof.
  unfold val_def_parse. eapply xs_bind; [apply xs_val_id|]. intros id s1 [Hid ->]. eapply xs_bind; [apply HX|]. intros rhs s1 Hr.
  eapply xs_bind; [apply xs_insert|]. intros _ s2 ->. apply xs_ret. apply val_def_good; [done|cbn; lia|done].
Qed.

Lemma xs_type_var s : xs n s (fun _ s' => s' = s) (type_var_arg_parse tree_version).
Proof.
  unfold type_var_arg_parse. eapply xs_bind; [apply xs_type|]. intros t s1 [_ ->]. destruct t; try (by apply xs_fail). by apply xs_ret.
Qed.

Lemma arm_fun_def s : xs n s (unchecked s) (fun_def_parse tree_version X).
Proof.
  unfold fun_def_parse. eapply xs_bind; [apply xs_val_id|]. intros id s1 [Hid ->].
  eapply xs_bind; [apply xs_yields, yields_i8|]. intros k s1 [Hk ->]. eapply xs_bind; [by apply xs_guard|]. intros _ s1 [Hle%Z.leb_le ->].
  eapply xs_bind; [apply xs_repeat, xs_type_var|]. intros args s1 [Hl Hc]. apply chain_same in Hc as ->; [|by intros ? _ ?].
  eapply xs_bind; [apply HX|]. intros rhs s1 Hr. eapply xs_bind; [apply xs_insert|]. intros _ s2 ->. apply xs_ret.
  apply val_def_good; [done| |done]. unfold in_s in Hk. lia.
Qed.

Lemma xs_func_arg s : xs n s (fun a s' => id_ok (arg_idx a) = true /\ s' = s) (func_arg_parse tree_version).
Proof.
  unfold func_arg_parse. eapply xs_bind; [apply xs_u32|]. intros id s1 [Hid ->]. eapply xs_bind; [apply xs_type|].
  intros t s1 [_ ->]. apply xs_ret. split; [by apply id_in_ok|done].
Qed.

Lemma arm_func_value s : xs n s (unchecked s) (func_value_parse tree_version X).
Proof.
  unfold func_value_parse. eapply xs_bind; [apply xs_vec, xs_func_arg|]. intros args s1 [Ha Hc].
  pose proof (chain_all _ (fun a => id_ok (arg_idx a) = true) _ _ _ (fun _ _ _ H => proj1 H) Hc) as Hids.
  apply chain_same in Hc as ->; [|by intros ? ? ? [_ ?]].
  eapply (xs_bind _ _ (fun _ s' => s' = arg_types s args)); [by intros r _ _|]. intros _ s1 ->.
  eapply xs_bind; [apply HX|]. intros body s1 [Hb _]. apply xs_ret. unfold func_value_new.
  apply (unchecked_node _ _ _ (built (arg_types s args) body)); [done|done|reflexivity|].
  cbn [ExprParse.writable consts]. intros [Ht Hw]%andb_true_iff. destruct (Hb Hw) as [-> ?]. split_and!; [done|done|].
  intros Hk. apply andb_true_iff. split; [exact Hk|]. rewrite Ha. rewrite (proj2 (bool_decide_eq_true _)) by done.
  rewrite andb_true_r. cbn [andb]. rewrite forallb_Forall in *. rewrite Forall_forall in *. intros a Hin. by rewrite Hids, Ht.
Qed.

(** *** Several parts *)

Lemma arm_items s (K : list Expr -> Expr) :
  (forall items, is_bin_op (K items) = false /\ is_upcast (K items) = false /\
    (forall s, built s (K items) = (s' ← built_all built s items; if node_ok s (K items) then Some s' else None)) /\
    writable (K items) = forallb writable items /\ consts (K items) = concat (map consts items) /\
    (forall s, array_ok items = true -> checked (K items) -> node_ok s (K items) = true)) ->
  xs n s (unchecked s) (items ← vec_parse X; mret (K items)).
Proof.
  intros HK. eapply xs_bind; [by apply (xs_vec n good)|]. intros items s1 [Ha Hi]. apply xs_ret.
  destruct (HK items) as (Hbin & Hu & Eb & Ew & Ec & Hn). eapply unchecked_node; [done|done|apply Eb|]. rewrite Ew, Ec. intros Hw.
  destruct (chain_good _ _ _ Hi Hw). auto.
Qed.

Lemma arm_tuple s : xs n s (unchecked s) (tuple_parse X).
Proof.
  unfold tuple_parse. eapply xs_bind; [apply xs_u8|]. intros k s1 [Hk ->]. eapply xs_bind; [by apply (xs_repeat n good)|]. intros items s1 [Hl Hi].
  apply xs_lift. unfold tuple_new. destruct ((2 <=? length items)%nat && (length items <=? 255)%nat) eqn:E; [|done].
  apply (unchecked_node _ _ _ (built_all built s items)); [done|done|reflexivity|]. cbn [ExprParse.writable consts]. intros Hw.
  destruct (chain_good _ _ _ Hi Hw). split_and!; [done|done|]. intros Hc. apply andb_true_iff. by split.
Qed.

Lemma arm_apply s : xs n s (unchecked s) (apply_parse X).
Proof.
  unfold apply_parse. eapply xs_bind; [apply HX|]. intros f s1 [Hf _]. eapply xs_bind; [by apply (xs_vec n good)|]. intros args s2 [Ha Hi].
  apply xs_ret. apply (unchecked_node _ _ _ (s ← built s f; built_all built s args)); [done|done|reflexivity|].
  cbn [ExprParse.writable consts]. intros [Hwf Hw]%andb_true_iff. destruct (Hf Hwf) as [-> ?], (chain_good _ _ _ Hi Hw).
  split_and!; [done|by apply Forall_app|]. intros Hc. apply andb_true_iff. by split.
Qed.

Definition is_val_def (e : Expr) : bool := match e with ValDef _ _ _ => true | _ => false end.

Lemma arm_block s : xs n s (unchecked s) (block_value_parse X).
Proof.
  unfold block_value_parse. eapply xs_bind.
  { apply (xs_vec n (fun s e s' => is_val_def e = true /\ good s e s')). intros s0. unfold block_item_parse. eapply xs_bind; [apply HX|].
    intros e s1 He. destruct e; try (by apply xs_fail). by apply xs_ret. }
  intros items s1 [Ha Hi]. pose proof (chain_all _ (fun e => is_val_def e = true) _ _ _ (fun _ _ _ H => proj1 H) Hi) as Hv.
  apply (chain_weaken _ good) in Hi; [|by intros ? ? ? [_ ?]]. eapply xs_bind; [apply HX|]. intros result s2 [Hr _]. apply xs_ret.
  apply (unchecked_node _ _ _ (s ← built_all built s items; built s result)); [done|done|reflexivity|].
  cbn [ExprParse.writable consts]. intros [Hw Hwr]%andb_true_iff. destruct (chain_good _ _ _ Hi Hw) as [-> ?], (Hr Hwr).
  split_and!; [done|by apply Forall_app|]. intros Hc. apply andb_true_iff. split; [exact Hc|]. rewrite Ha. by apply forallb_Forall.
Qed.

(** Boolean constants leave the types alone. *)
Lemma chain_bools s items s' bools : chain good s items s' -> Forall (fun e => bool_decide (tpe e = SBoolean) = true) items ->
  mapM bool_const items = Some bools -> s' = s.
Proof.
  intros Hi. revert bools. induction Hi as [|s s1 s' x items Hx _ IH]; [done|]. intros bools [Ht Hts]%Forall_cons Eb.
  apply mapM_Some_1 in Eb. inversion Eb as [|? b ? bs Hxb Hbs]; subst. apply mapM_Some_2 in Hbs. rewrite (IH _ Hts Hbs).
  destruct x as [c| | | | | | | | | | | | | | | | | | | | | | | | | | | | | | | | | | | | | | | | | | | | | | | |]; try discriminate Hxb.
  destruct c as [t v]. apply bool_decide_eq_true in Ht. cbn in Ht. subst t.
  destruct Hx as [Hx _]. destruct (Hx eq_refl) as [E _]. by apply const_types in E.
Qed.

Lemma arm_coll s : xs n s (unchecked s) (coll_parse tree_version X).
Proof.
  unfold coll_parse. eapply xs_bind; [apply xs_u16|]. intros k s1 [Hk ->]. eapply xs_bind; [apply xs_type|]. intros t s1 [_ ->].
  eapply xs_bind.
  { apply (xs_repeat n (fun s e s' => bool_decide (tpe e = t) = true /\ good s e s')). intros s0. unfold coll_item_parse. eapply xs_bind; [apply HX|].
    intros e s1 He. eapply xs_bind; [by apply xs_guard|]. intros _ s2 [Ht ->]. by apply xs_ret. }
  intros items s1 [Hl Hi]. pose proof (chain_all _ (fun e => bool_decide (tpe e = t) = true) _ _ _ (fun _ _ _ H => proj1 H) Hi) as Ht.
  apply (chain_weaken _ good) in Hi; [|by intros ? ? ? [_ ?]]. apply xs_ret. unfold in_u in Hk.
  assert ((from_typed_items t items = Exprs t items) \/ exists bools, t = SBoolean /\ mapM bool_const items = Some bools /\ from_typed_items t items = BoolConstants bools) as [E|(bools & -> & Eb & E)].
  { unfold from_typed_items. destruct t; try (by left). destruct (mapM bool_const items) as [bools|] eqn:Eb; [|by left]. right. by exists bools. }
  - rewrite E. apply (unchecked_node _ _ _ (built_all built s items)); [done|done|reflexivity|].
    cbn [ExprParse.writable consts]. intros [Hto Hw]%andb_true_iff. destruct (chain_good _ _ _ Hi Hw). split_and!; [done|done|].
    intros Hc. apply andb_true_iff. split; [exact Hc|]. rewrite Hto, (proj2 (forallb_Forall _ _) Ht), E, bool_decide_eq_true_2 by done.
    rewrite !andb_true_r. apply Z.ltb_lt. lia.
  - rewrite E. rewrite (chain_bools _ _ _ _ Hi Ht Eb).
    apply unchecked_leaf; try done. intros Hc. apply andb_true_iff. split; [exact Hc|]. apply length_mapM in Eb. apply Z.ltb_lt. lia.
Qed.

(** *** Parts with a check of their own *)

Lemma arm_select s : xs n s (unchecked s) (select_field_parse X).
Proof.
  unfold select_field_parse. eapply xs_bind; [apply HX|]. intros a s1 [Ha _]. eapply xs_bind; [apply xs_u8|]. intros i s2 [Hi ->].
  eapply xs_bind; [by apply xs_guard|]. intros _ s2 [H1 ->]. apply xs_lift. destruct (select_field_new a i) as [e|] eqn:E.
  - assert (exists t, e = SelectField a i t) as [t ->].
    { revert E. unfold select_field_new. destruct (tpe a); try done. destruct (_ !! _); [|done]. intros [= <-]. eauto. }
    apply (unchecked_node _ _ _ (built s a)); [done|done|reflexivity|]. cbn [ExprParse.writable consts]. intros Hw. destruct (Ha Hw).
    split_and!; [done|done|]. intros Hc. apply andb_true_iff. split; [exact Hc|]. rewrite H1, E. unfold in_u in Hi.
    rewrite (proj2 (Z.leb_le i 255)) by lia. by apply bool_decide_eq_true.
  - revert E. unfold select_field_new. destruct (tpe a); try (by intros [= <-]). destruct (_ !! _); [done|by intros [= <-]].
Qed.

Lemma arm_map s : xs n s (unchecked s) (map_parse X).
Proof.
  apply arm_2. intros a b. destruct (map_new a b) as [e|] eqn:E.
  - assert (exists f, e = Map a b f) as [f ->] by (revert E; unfold map_new; destruct (tpe b); try done; intros [= <-]; eauto).
    split_and!; try done. intros s' Hc. apply andb_true_iff. split; [exact Hc|]. rewrite E. by apply bool_decide_eq_true.
  - revert E. unfold map_new. destruct (tpe b); try done; by intros [= <-].
Qed.

Lemma filter_new_cases a b : match filter_new a b with Ok e => exists t, e = Filter a b t | Err e => e = SpInvalidArgument end.
Proof.
  unfold filter_new. destruct (post_eval_tpe a); try done. destruct (tpe b); try done.
  match goal with |- context [match ?l with [] => _ | _ => _ end] => destruct l as [|d [|]]; try done end.
  destruct (bool_decide _); [by eexists|done].
Qed.

Lemma arm_filter s : xs n s (unchecked s) (filter_parse X).
Proof.
  apply arm_2. intros a b. pose proof (filter_new_cases a b) as H. destruct (filter_new a b) as [e|] eqn:E; [|by subst].
  destruct H as [t ->]. split_and!; try done. intros s' Hc. apply andb_true_iff. split; [exact Hc|]. rewrite E. by apply bool_decide_eq_true.
Qed.

Lemma arm_by_index s : xs n s (unchecked s) (by_index_parse tree_version X).
Proof.
  unfold by_index_parse. eapply xs_bind; [apply HX|]. intros a s1 [Ha _]. eapply xs_bind; [apply HX|]. intros i s2 Hi.
  apply (xs_bind _ _ (fun i' s' => (V3 <=? tree_version) || bool_decide (tpe i' = SInt) = true /\ s' = s2 /\
    (writable i' = true -> built s1 i' = Some s2 /\ Forall const_ok (consts i')))).
  { destruct (Z.ltb_spec tree_version V3) as [Hv|Hv].
    - apply xs_lift. rewrite (proj2 (Z.leb_gt _ _) Hv). unfold upcast_index_to_int. destruct (tpe i) eqn:Et; try done.
      3: { split_and!; [by apply bool_decide_eq_true|done|apply Hi]. }
      all: split_and!; [by apply bool_decide_eq_true|done|]; cbn [ExprParse.writable]; rewrite !andb_true_iff;
        intros [[Hn Ht] Hw]; destruct (proj1 Hi Hw) as [Eb Hc]; split; [|exact Hc];
        apply (cast_built s1 i SInt s2); [done|exact Eb| |by rewrite Et|done]; by apply negb_true_iff in Hn.
    - apply xs_ret. rewrite (proj2 (Z.leb_le _ _) Hv). split_and!; [done|done|apply Hi]. }
  intros i' s3 (Ht & -> & Hi'). eapply xs_bind; [apply xs_u8|]. intros tag s3 [_ ->].
  apply (xs_bind _ _ (fun d s' => match d with Some c => good s2 c s' | None => s' = s2 end)).
  { destruct (negb _); [|by apply xs_ret]. eapply xs_bind; [apply HX|]. intros d s3 Hd. by apply xs_ret. }
  intros d s3 Hd. apply xs_ret.
  apply (unchecked_node _ _ _ (s ← built s a; s ← built s i'; match d with Some c => built s c | None => Some s end)); [done|done|reflexivity|].
  cbn [ExprParse.writable consts]. rewrite !andb_true_iff. intros (Hwa & Hwi & Hwd). destruct (Ha Hwa) as [-> ?], (Hi' Hwi) as [Eb ?].
  cbn [mbind option_bind]. rewrite Eb. cbn [mbind option_bind]. assert (match d with Some c => built s2 c | None => Some s2 end = Some s3 /\
    Forall const_ok match d with Some c => consts c | None => [] end) as [-> ?].
  { destruct d as [d|]; [|by subst]. by apply Hd. }
  split_and!; [done|by repeat (apply Forall_app; split)|]. intros Hc. apply andb_true_iff. by split.
Qed.

(** *** Casts and operations *)

Lemma arm_downcast s : xs n s (unchecked s) (cast_parse tree_version X Downcast).
Proof.
  unfold cast_parse. eapply xs_bind; [apply HX|]. intros a s1 [Ha _]. eapply xs_bind; [apply xs_type|]. intros t s2 [_ ->]. apply xs_ret.
  apply (unchecked_node _ _ _ (built s a)); [done|done|reflexivity|]. cbn [ExprParse.writable consts]. intros [Ht Hw]%andb_true_iff.
  destruct (Ha Hw). split_and!; [done|done|]. intros Hc. apply andb_true_iff. by split.
Qed.

Lemma arm_upcast s : xs n s (unchecked s) (cast_parse tree_version X Upcast).
Proof.
  unfold cast_parse. eapply xs_bind; [apply HX|]. intros a s1 Ha. eapply xs_bind; [apply xs_type|]. intros t s2 [_ ->]. apply xs_ret.
  intros e' He. apply check_same in He as [-> Hc]; [|done]. assert (is_numeric t = true /\ is_numeric (tpe a) = true) as [Ht Hta].
  { apply builds_Ok in Hc. revert Hc. unfold ExprSerial.check_build. cbn. unfold require_numeric_cast. destruct (is_numeric t), (is_numeric (tpe a)); done. }
  apply (cast_good s a s1 t); done.
Qed.

Lemma arm_bin_op s kind : xs n s (unchecked s) (bin_op_parse X kind).
Proof.
  assert (xs n s (unchecked s) (parse2 X (BinOp kind))) as H2.
  { unfold parse2. eapply xs_bind; [apply HX|]. intros a s1 Ha. eapply xs_bind; [apply HX|]. intros b s2 Hb. apply xs_ret. by eapply op_good. }
  unfold bin_op_parse. eapply (xs_bind _ _ (fun _ s' => s' = s)).
  { destruct (has_pair_form kind); [|by apply xs_ret]. eapply xs_weaken; [apply xs_peek|]. by intros ? ? [_ ?]. }
  intros next s1 ->. destruct (_ && _); [|exact H2]. eapply xs_bind; [apply xs_u8|]. intros _ s1 [_ ->].
  eapply xs_bind; [apply xs_bits|]. intros bs s1 [_ ->]. apply xs_ret. eapply op_good; apply bool_good.
Qed.
End arms.
(** ** Every op code *)

Ltac plain := by intros s' Hk; apply andb_true_iff.
Ltac one := apply arm_1; [done|done|done|reflexivity|done|done|intros s' a Hk; by apply andb_true_iff].
Ltac two := apply arm_2'; [done|]; intros a b; split_and!; try done; plain.
Ltac three := apply arm_3; [done|]; intros a b c; split_and!; try done; plain.
Ltac zero := apply arm_0; [done|done|done|done|intros s' Hk; by apply andb_true_iff].

Lemma every_arm n X tag m s : (forall s, xs n s (good s) X) -> arm tree_version constants substitute X tag = Some m -> xs n s (unchecked s) m.
Proof.
  intros HX. unfold arm.
  repeat match goal with |- context [if ?b then Some ?x else _] => destruct b; [intros [= <-]|] end; [..|done].
  all: first
    [ zero | one | two | three | by apply arm_placeholder | by apply arm_bin_op | by apply arm_block | by apply arm_func_value | by apply arm_apply
    | by apply arm_val_def | by apply arm_fun_def | by apply arm_val_use | by apply arm_select | by apply arm_coll | by apply arm_bools
    | by apply arm_map | by apply arm_filter | by apply arm_upcast | by apply arm_downcast | by apply arm_by_index | by apply arm_tuple
    | by apply arm_dh_tuple
    | apply arm_2'; [done|]; intros a b; split_and!; try done; intros s' Hk; apply andb_true_iff; split; [exact Hk|by apply bool_decide_eq_true]
    | apply arm_items; [done|]; intros items; split_and!; try done; intros s' Ha Hk; apply andb_true_iff; by split
    | apply xs_ret; intros e' He; apply check_same in He as [-> _]; [|done]; apply bool_good ].
Qed.

Lemma tagged_sound n X tag s : (n <= MAX_TREE_DEPTH)%nat -> in_u 8 tag -> (forall s, xs n s (good s) X) ->
  xs n s (good s) (parse_tagged tree_version constants substitute X tag).
Proof.
  intros Hn Htag HX. unfold parse_tagged. destruct (tag <=? LAST_CONSTANT_CODE).
  - pose proof (xs_reader n s _ _ (const_sound n Hn tag Htag)) as Hc. intros r Hr Hl. specialize (Hc r Hr Hl). unfold fmap, stateE_fmap.
    destruct (on_reader _ _) as [[c st]|]; [|done]. destruct Hc as (Hm & Hok & ->). split; [done|].
    by apply const_good.
  - destruct (arm tree_version constants substitute X tag) as [m|] eqn:E.
    + eapply xs_bind; [by eapply every_arm|]. intros e s1 He. apply xs_lift. specialize (He : unchecked s e s1).
      destruct (check_build e) as [e'|err] eqn:Ec; [by apply He|]. by eapply check_build_proper.
    + apply xs_fail. by destruct (bool_decide _).
Qed.

Lemma next_level_sound n X s : (n <= MAX_TREE_DEPTH)%nat -> ((S n <= MAX_TREE_DEPTH)%nat -> forall s, xs (S n) s (good s) X) ->
  xs n s (good s) (value_at_next_level tree_version constants substitute X).
Proof.
  intros Hn HX r Hr Hlev. unfold value_at_next_level, mbind, stateE_bind, on_reader at 1 2, level, set_level. cbn [xr_reader xr_types].
  destruct (Nat.ltb_spec MAX_TREE_DEPTH (rd_level r + 1)); [done|].
  assert (xs (S n) s (good s) (_ ← on_reader (io peek_u8); tag ← on_reader (io get_u8); parse_tagged tree_version constants substitute X tag)) as Hx.
  { eapply xs_bind; [apply xs_peek|]. intros _ s1 [_ ->]. eapply xs_bind; [apply xs_u8|]. intros tag s1 [Htag ->].
    apply tagged_sound; [lia|done|apply HX; lia]. }
  specialize (Hx (at_level (rd_level r + 1) r) Hr ltac:(cbn; lia)). revert Hx. unfold mbind, stateE_bind. cbn [xr_reader xr_types].
  destruct (on_reader (io peek_u8) _) as [[b st0]|]; [|done]. destruct (on_reader (io get_u8) _) as [[tag st1]|]; [|done].
  destruct (parse_tagged _ _ _ X tag st1) as [[e st]|]; [|done]. intros [(l & E & Hp & Hl & Hv) Hg]. cbn in E, Hp, Hl, Hv.
  unfold on_reader. cbn [xr_reader xr_types]. destruct (Nat.ltb_spec MAX_TREE_DEPTH (rd_level (xr_reader st) - 1)); [lia|].
  unfold mret, stateE_ret. split; [|done]. exists l. cbn. split_and!; try done. lia.
Qed.

Lemma every_parse fuel : forall n s, (n <= MAX_TREE_DEPTH)%nat -> (n + fuel = S MAX_TREE_DEPTH)%nat ->
  xs n s (good s) (parse_expr_fuel tree_version constants substitute fuel).
Proof.
  induction fuel as [|fuel IH]; intros n s Hn Hf; [lia|]. cbn [parse_expr_fuel]. apply next_level_sound; [done|]. intros HS s'. apply IH; lia.
Qed.
End sound.

(** * Parsing any bytes *)

Section theorem.
Context {C : SigmaCrypto} {L : SigmaCryptoLaws C} {P : SigmaCryptoParsing C} {PL : SigmaCryptoParsingLaws C P}.
Context {B : NumBigint} {BL : NumBigintLaws B} {Bx : ErgoBoxData} {BS : BoxSerial Bx}.
Context {M : Bnum} {ML : BnumLaws M} {N : BnumBytes} {NL : BnumBytesLaws N}.
Context (tree_version : Z) (constants : list Constant) (substitute : bool).

Lemma parse_good (r : reader) (types : Store) :
  (substitute = true -> Forall (fun c => const_writable tree_version c = true -> const_ok tree_version c) constants) ->
  small_input r -> (rd_level r <= MAX_TREE_DEPTH)%nat ->
  match parse_expr tree_version constants substitute (mkExprReader r types) with
  | Ok (e, st) => moved r (xr_reader st) /\ good tree_version constants substitute types e (xr_types st)
  | Err e => sane e
  end.
Proof.
  intros Hstore Hr Hlev. unfold parse_expr, parse_fuel. cbn [xr_reader].
  exact (every_parse tree_version constants substitute Hstore (S (MAX_TREE_DEPTH - rd_level r)) (rd_level r) types Hlev ltac:(lia) r Hr eq_refl).
Qed.

(** C30: parsing an expression ends on any bytes, without a panic, and a success only consumed the bytes it read. Where the
    expression is one that its bytes mean ([writable]: the types and names in it have an encoding, it has no data of
    headers, a cast constant below version 3 stands in an operation, whose casts are those that the parser makes, and no
    relation or logical operation begins with a collection of boolean constants), it is written, and what is written
    parses to it again, with the same types of variables, at any level that leaves it the levels it takes. At the op code
    of one of the 18 nodes that [Expr] leaves out, and where the data of a box begins, the model stops with an error of
    its own ([SpUnmodelledNode], [SpUnmodelledBox]), and nothing is said of what the source reads from there on. *)
Theorem expr_parse_sound (r : reader) (types : Store) :
  (substitute = true -> Forall (fun c => const_writable tree_version c = true -> const_ok tree_version c) constants) ->
  small_input r -> (rd_level r <= MAX_TREE_DEPTH)%nat ->
  match parse_expr tree_version constants substitute (mkExprReader r types) with
  | Ok (e, st) =>
      moved r (xr_reader st) /\
      (writable tree_version e = true ->
       exists l, serialize_expr tree_version e None = Ok (l, None) /\ byte_list l /\
         forall r2, readable (past l r2) -> (rd_level r2 + levels tree_version e <= MAX_TREE_DEPTH)%nat ->
           parse_expr tree_version constants substitute (mkExprReader (before l r2) types) = Ok (e, mkExprReader (past l r2) (xr_types st)))
  | Err e => e <> SpOutOfFuel /\ e <> SpPanic
  end.
Proof.
  intros Hstore Hr Hlev. pose proof (parse_good r types Hstore Hr Hlev) as H. destruct (parse_expr _ _ _ _) as [[e st]|]; [|done].
  destruct H as [Hm [Hg _]]. split; [done|]. intros Hw. destruct (Hg Hw) as [Hb Hc]. by apply part_parse, goes_every.
Qed.
End theorem.

(** * Concrete inputs *)

(** The bytes of [HEIGHT > 5L] in version 0, with a byte after them. *)
Lemma expr_parse_sound_witness :
  exists e st, parse_expr 0 [] false (mkExprReader (mkReader [145; 163; 5; 10; 7] 0 U64_MAX 0%nat) ∅) = Ok (e, st) /\
    rd_bytes (xr_reader st) = [7] /\ writable 0 e = true /\
    exists l, serialize_expr 0 e None = Ok (l, None) /\ l = [145; 126; 163; 5; 5; 10] /\
      forall r2, readable (past l r2) -> (rd_level r2 <= 107)%nat -> parse_expr 0 [] false (mkExprReader (before l r2) ∅) = Ok (e, mkExprReader (past l r2) (xr_types st)).
Proof.
  assert (small_input (mkReader [145; 163; 5; 10; 7] 0 U64_MAX 0%nat)) as Hr.
  { split; [repeat (apply Forall_cons; split); [unfold in_u; lia..|constructor]|cbn; lia]. }
  pose proof (expr_parse_sound 0 [] false (mkReader [145; 163; 5; 10; 7] 0 U64_MAX 0%nat) ∅ ltac:(discriminate) Hr (Nat.le_0_l _)) as H.
  set (e := BinOp (Relation RGt) (Upcast (EGlobalVars Height) SLong) (Const (mkConstant SLong (LLong 5)))).
  assert (match parse_expr 0 [] false (mkExprReader (mkReader [145; 163; 5; 10; 7] 0 U64_MAX 0%nat) ∅) with
    | Ok (e', st) => bool_decide (e' = e) && bool_decide (rd_bytes (xr_reader st) = [7]) | Err _ => false end = true) as E by (vm_compute; reflexivity).
  destruct (parse_expr 0 [] false _) as [[e' st]|]; [|discriminate E]. apply andb_true_iff in E as [->%bool_decide_eq_true Eb%bool_decide_eq_true].
  assert (writable 0 e = true) as Hw by (vm_compute; reflexivity). destruct H as [_ H]. destruct (H Hw) as (l & El & _ & Hback).
  exists e, st. split; [reflexivity|]. split; [exact Eb|]. split; [exact Hw|]. exists l. split; [exact El|]. split.
  - assert (match serialize_expr 0 e None with Ok (l, _) => l | Err _ => [] end = [145; 126; 163; 5; 5; 10]) as E by (vm_compute; reflexivity).
    rewrite El in E. exact E.
  - intros r2 Hr2 Hl2. apply Hback; [exact Hr2|]. assert (levels 0 e = 3%nat) as -> by (vm_compute; reflexivity). unfold MAX_TREE_DEPTH. lia.
Defined.

(** * What modelling showed *)

(** Below version 3 the parser's cast of the narrower operand is written as a node of its own, one level deeper than what
    was read: an expression that nests to the limit is written as bytes that are refused. *)
Definition deep_bytes (k : nat) : list Z := replicate k (new_op_code 127) ++ [op_eq; op_height; op_constant_placeholder; 0].
Definition reread (k : nat) : option (result SigmaParsingError (Expr * expr_reader)) :=
  let parse l := parse_expr 0 [mkConstant SLong (LLong 5)] false (mkExprReader (mkReader l 0 U64_MAX 0%nat) ∅) in
  match parse (deep_bytes k) with Ok (e, _) => Some (parse (bytes_of 0 e)) | Err _ => None end.

Lemma deeper_when_written :
  match reread 107 with Some (Ok _) => true | _ => false end = true /\
  match reread 108 with Some (Err (SpDeserializeCallDepthExceeded d)) => Nat.eqb d 111 | _ => false end = true.
Proof. split; vm_compute; reflexivity. Qed.
