(* ===== verification/TreeSerial.v ===== *)
(** ErgoTrees as bytes (src/ergotree-ir/src/ergo_tree.rs, ergo_tree/tree_header.rs, and which errors degrade a tree, of
    serialization/serializable.rs): the header, the segregated constants, the root, what becomes of a tree that does not
    parse, and the replacement of constants in the bytes. *)

From stdpp Require Import strings gmap.
From S2P Require Import Prelude Gf2Field SigmaBoolean ConcreteCrypto Vlq Codecs SigmaSerial BigNum Header Types TypeSerial TypeParse Expr Value EvalOps Reduce EvalConcrete BigIntSerial DataSerial DataParse ContextExt ExprSerial ExprBack ExprParse.
#[local] Open Scope Z_scope.

(** * The header *)

Record ErgoTreeHeader : Type := mkErgoTreeHeader { header_byte : Z }.

Inductive ErgoTreeHeaderError : Type :=
| TreeHeaderIo
| InvalidSizeBit (version : Z).

Definition CONSTANT_SEGREGATION_FLAG : Z := 16.
Definition HAS_SIZE_FLAG : Z := 8.
Definition VERSION_MASK : Z := 7.

Definition parse_version (b : Z) : Z := Z.land b VERSION_MASK.
Definition tree_version (h : ErgoTreeHeader) : Z := parse_version (header_byte h).
Definition has_size (h : ErgoTreeHeader) : bool := negb (Z.land (header_byte h) HAS_SIZE_FLAG =? 0).
Definition is_segregated (h : ErgoTreeHeader) : bool := negb (Z.land (header_byte h) CONSTANT_SEGREGATION_FLAG =? 0).

(** From a byte: above version 0 the size bit has to be set. *)
Definition tree_header_new (b : Z) : result ErgoTreeHeaderError ErgoTreeHeader :=
  let header := mkErgoTreeHeader b in
  _ ← guard_or (negb (negb (tree_version header =? 0) && negb (has_size header))) (InvalidSizeBit (tree_version header));
  Ok header.

Definition from_flags (version : Z) (segregation has_size : bool) : ErgoTreeHeader :=
  let header_byte := if segregation then Z.lor version CONSTANT_SEGREGATION_FLAG else version in
  mkErgoTreeHeader (if has_size then Z.lor header_byte HAS_SIZE_FLAG else header_byte).
Definition v0 (segregation : bool) : ErgoTreeHeader := from_flags 0 segregation false.
Definition v1 (segregation : bool) : ErgoTreeHeader := from_flags 1 segregation true.

Definition tree_header_parse : stateE reader ErgoTreeHeaderError ErgoTreeHeader :=
  b ← map_st_err (fun _ => TreeHeaderIo) get_u8; liftE (tree_header_new b).

(** * Which errors escape *)

(** [escapes_sized_tree_degrade]: the errors that reject a tree even where its size is known. (The last two are the
    model's own, which must not pass for a degraded tree: the parser stopped at a node or a box that the model leaves out.) *)
Definition escapes_sized_tree_degrade (e : SigmaParsingError) : bool :=
  negb (is_position_limit_exceeded e) &&
  match e with
  | SpNonSerializableTypeCode _ | SpScorex _ | SpIo | SpVlqEncode _ | SpConstantForPlaceholderNotFound _ | SpValDefIdNotFound _
  | SpInvalidTypePrefix | SpInvalidTypeParameter | SpInvalidSigmaBooleanOpCode _ | SpInvalidBigIntSize _ | SpExceedsIntMax _
  | SpUnevaluatedValue | SpNegativeTupleSize _ | SpCollectionInputExpected | SpCollectionItemTypeMismatch
  | SpArrayLengthExceeded _ | SpCthresholdOutOfBounds _ _ | SpTreeVersionAboveActivated _ _ | SpBitOpOperandsNotNumeric
  | SpNumericCastTargetNotNumeric | SpNumericOperandExpected | SpConstraintFailed | SpIndexUpcastFailed | SpBlockItemNotValDef
  | SpOptionInputExpected | SpFunctionExpected | SpUnsizedTreeValidation | SpDeserializeCallDepthExceeded _ | SpTypeDepthExceeded _ | SpUnmodelledNode _ | SpUnmodelledBox => true
  | _ => false
  end.

(** * Trees *)

Section tree.
Context `{C : SigmaCrypto} {Bx : ErgoBoxData}.

(** [ParsedErgoTree]; whether it has deserialization nodes follows from its root. *)
Record ParsedTree : Type := mkParsedTree {
  header : ErgoTreeHeader;
  constants : list Constant;
  root : Expr
}.

Inductive SetConstantError : Type := OutOfBounds | TypeMismatch.

Inductive ErgoTreeError : Type :=
| TreeHeaderError (e : ErgoTreeHeaderError)
| ConstantsError (e : SetConstantError)
| RootSerializationError (e : SigmaSerializationError)
| TreeParsingError (e : SigmaParsingError)
| TreeIoError (e : io_error)
| RootTpeError (t : SType)
(** A panic, of an index out of bounds. *)
| TreePanic.

Inductive ErgoTree : Type :=
| Unparsed (tree_bytes : list Z) (error : ErgoTreeError)
| Parsed (tree : ParsedTree).

Definition parsed_tree (t : ErgoTree) : result ErgoTreeError ParsedTree :=
  match t with Unparsed _ error => Err error | Parsed t => Ok t end.

(** What the interpreter reads of a parsed tree (Reduce). *)
Definition to_interpreter (t : ParsedTree) : ParsedErgoTree :=
  mkParsedErgoTree (tree_version (header t)) (is_segregated (header t)) (constants t) (root t).

(** [ParsedErgoTree::with_constant], and that of [ErgoTree]. *)
Definition with_constant_parsed (t : ParsedTree) (index : nat) (constant : Constant) : result SetConstantError ParsedTree :=
  match constants t !! index with
  | Some old_constant =>
      if bool_decide (const_tpe constant = const_tpe old_constant) then Ok (mkParsedTree (header t) (<[index := constant]> (constants t)) (root t))
      else Err TypeMismatch
  | None => Err OutOfBounds
  end.
Definition with_constant (t : ErgoTree) (index : nat) (constant : Constant) : result ErgoTreeError ErgoTree :=
  t ← parsed_tree t;
  match with_constant_parsed t index constant with Ok t => Ok (Parsed t) | Err e => Err (ConstantsError e) end.
End tree.

(** * Writing *)

Section serialize.
Context `{C : SigmaCrypto} {B : NumBigint} {Bx : ErgoBoxData} {BS : BoxSerial Bx} {N : BnumBytes}.

(** The constants where they are segregated, with their number. *)
Definition constants_serialize (v : Z) (segregated : bool) (cs : list Constant) : writer (list Z) :=
  if segregated then
    w_then (write_number (if Z.of_nat (length cs) <? 2 ^ 32 then put_u32 (Z.of_nat (length cs)) else None)) (w_all (fun c => liftE (constant_serialize v c)) cs)
  else write_all [].

(** The constants and the root, by a writer of their own. *)
Definition body_serialize (t : ParsedTree) : result SigmaSerializationError (list Z) :=
  let v := tree_version (header t) in
  fst <$> w_then (constants_serialize v (is_segregated (header t)) (constants t)) (serialize_expr v (root t)) None.

(** A header, the size of what follows, and that. *)
Definition with_size (h : ErgoTreeHeader) (sized : bool) (bytes : list Z) : result SigmaSerializationError (list Z) :=
  size ← (if sized then ok_or (if Z.of_nat (length bytes) <? 2 ^ 32 then put_u32 (Z.of_nat (length bytes)) else None) SerPanic else Ok []);
  Ok (header_byte h :: size ++ bytes).

(** [SigmaSerializable for ErgoTree] *)
Definition tree_serialize (t : ErgoTree) : result SigmaSerializationError (list Z) :=
  match t with
  | Unparsed tree_bytes _ => Ok tree_bytes
  | Parsed t => bytes ← body_serialize t; with_size (header t) (has_size (header t)) bytes
  end.

Definition template_bytes (t : ErgoTree) : result ErgoTreeError (list Z) :=
  t ← parsed_tree t;
  result_map_err RootSerializationError (fst <$> serialize_expr V3 (root t) None).
End serialize.

(** * Parsing *)

Section parse.
Context `{C : SigmaCrypto} `{P : !SigmaCryptoParsing C} {B : NumBigint} {Bx : ErgoBoxData} {BS : BoxSerial Bx} {M : Bnum} {N : BnumBytes}.

Definition MAX_PROPOSITION_SIZE : Z := 4096.

(** [sigma_parse_constants]: the count is read as an i32. *)
Definition parse_constants (v : Z) : parser (list Constant) :=
  count ← on_reader (map_st_err SpVlqEncode get_u32);
  let constants_len := wrap_s 32 count in
  if constants_len <=? 0 then mret []
  else
    _ ← liftE (array_length constants_len);
    repeat_parse (on_reader (constant_parse v)) (Z.to_nat constants_len).

(** The constants and the root, which are read with the header's version. *)
Definition parse_body (h : ErgoTreeHeader) (substitute : bool) : parser (list Constant * Expr) :=
  let v := tree_version h in
  cs ← (if is_segregated h then parse_constants v else mret []);
  root ← parse_expr v cs substitute;
  mret (cs, root).

(** [sigma_parse_body]; [check_root_tpe] is rule 1001. *)
Definition sigma_parse_body (h : ErgoTreeHeader) (check_root_tpe substitute : bool) : stateE expr_reader ErgoTreeError ParsedTree :=
  '(cs, root) ← map_st_err TreeParsingError (parse_body h substitute);
  _ ← liftE (guard_or (negb (check_root_tpe && negb (bool_decide (tpe root = SSigmaProp)))) (RootTpeError (tpe root)));
  mret (mkParsedTree h cs root).

Definition in_window (limit : Z) (r : reader) : reader := mkReader (rd_bytes r) (rd_position r) limit (rd_level r).

Definition tree_size_parse (h : ErgoTreeHeader) : stateE reader SigmaParsingError (option Z) :=
  if has_size h then size ← map_st_err SpVlqEncode get_u32; mret (Some size) else mret None.

(** What becomes of an error in the body of a tree of a known size: it escapes, or the raw bytes stay. *)
Definition degrade (start : reader) (num_bytes : Z) (error : ErgoTreeError) : result SigmaParsingError (ErgoTree * option expr_reader) :=
  _ ← match error with TreeParsingError e => guard_or (negb (escapes_sized_tree_degrade e)) e | _ => Ok tt end;
  '(bytes, _) ← (_ ← map_st_err sigma_io_error (check_remaining num_bytes); map_st_err sigma_io_error (get_bytes_into (Z.to_nat num_bytes))) start;
  Ok (Unparsed bytes error, None).

(** [parse_with], under an activated version: the tree, and the reader after it where it was parsed. (After a degraded
    tree the reader's level and variables are as the failure left them.) *)
Definition parse_with (activated : Z) (check_root_tpe substitute : bool) (st : expr_reader) :
    result SigmaParsingError (ErgoTree * option expr_reader) :=
  let start := in_window (Z.min (rd_position (xr_reader st) + MAX_PROPOSITION_SIZE) U64_MAX) (xr_reader st) in
  '(h, r) ← result_map_err (fun _ => SpErgoTreeHeader) (tree_header_parse start);
  '(tree_size, r) ← tree_size_parse h r;
  _ ← guard_or (negb ((2 <=? activated) && (activated <? tree_version h))) (SpTreeVersionAboveActivated (tree_version h) activated);
  match sigma_parse_body h check_root_tpe substitute (mkExprReader r (xr_types st)), tree_size with
  | Ok (t, st'), _ => Ok (Parsed t, Some (mkExprReader (in_window (rd_limit (xr_reader st)) (xr_reader st')) (xr_types st')))
  | Err error, None =>
      match error with
      | TreeParsingError e => if escapes_sized_tree_degrade e then Err e else Err SpUnsizedTreeValidation
      | _ => Err SpUnsizedTreeValidation
      end
  | Err error, Some tree_size => degrade start (rd_position r - rd_position start + tree_size) error
  end.

(** [sigma_parse_bytes]: a new reader, whose activated version is 1. *)
Definition DEFAULT_ACTIVATED_VERSION : Z := 1.
Definition tree_parse_bytes (bytes : list Z) : result SigmaParsingError ErgoTree :=
  fst <$> parse_with DEFAULT_ACTIVATED_VERSION true false (mkExprReader (from_bytes bytes) ∅).

(** [ErgoTree::new]: with segregation the root is written, which moves its constants to a store, and read again. *)
Definition ergo_tree_new (h : ErgoTreeHeader) (expr : Expr) : result ErgoTreeError ErgoTree :=
  if is_segregated h then
    '(data, store) ← result_map_err RootSerializationError (serialize_expr 0 expr (Some []));
    let cs := default [] store in
    '(parsed_expr, _) ← result_map_err TreeParsingError (parse_expr (tree_version h) cs false (mkExprReader (from_bytes data) ∅));
    Ok (Parsed (mkParsedTree h cs parsed_expr))
  else Ok (Parsed (mkParsedTree h [] expr)).

(** [TryFrom<Expr> for ErgoTree] *)
Definition tree_try_from (expr : Expr) : result ErgoTreeError ErgoTree :=
  match expr with
  | Const (mkConstant SSigmaProp _) => ergo_tree_new (v0 false) expr
  | _ => ergo_tree_new (v0 true) expr
  end.
End parse.

(** * Replacing constants in the bytes *)

Section substitute.
Context `{C : SigmaCrypto} `{P : !SigmaCryptoParsing C} {B : NumBigint} {Bx : ErgoBoxData} {BS : BoxSerial Bx} {M : Bnum} {N : BnumBytes}.

(** The first position that refers to a constant wins, and positions that refer to none are skipped. *)
Fixpoint set_constants_at (positions : list nat) (new_values : list Constant) (already_set : list bool) (cs : list Constant) :
    result ErgoTreeError (list Constant) :=
  match positions with
  | [] => Ok cs
  | pos :: positions =>
      if (pos <? length cs)%nat && negb (nth pos already_set false) then
        match new_values, cs !! pos with
        | new_c :: new_values, Some c =>
            _ ← guard_or (bool_decide (const_tpe new_c = const_tpe c)) (ConstantsError TypeMismatch);
            set_constants_at positions new_values (<[pos := true]> already_set) (<[pos := new_c]> cs)
        | _, _ => Err TreePanic
        end
      else set_constants_at positions (tail new_values) already_set cs
  end.

(** [ErgoTree::substitute_constants], with the tree version of the evaluation. *)
Definition substitute_in_bytes (script_bytes : list Z) (positions : list nat) (new_values : list Constant) (v : Z) :
    result ErgoTreeError (list Z * nat) :=
  '(h, r) ← result_map_err TreeHeaderError (tree_header_parse (from_bytes script_bytes));
  '(cs, st) ← result_map_err TreeParsingError
    ((_ ← (if has_size h then on_reader (map_st_err SpVlqEncode get_u32) else mret 0);
      if is_segregated h then parse_constants v else mret []) (mkExprReader r ∅));
  let tree_bytes := drop (Z.to_nat (rd_position (xr_reader st))) script_bytes in
  new_cs ← set_constants_at positions new_values (replicate (length cs) false) cs;
  '(constants_bytes, _) ← result_map_err RootSerializationError (constants_serialize v (is_segregated h) new_cs None);
  out ← result_map_err RootSerializationError (with_size h ((V3 <=? v) && has_size h) (constants_bytes ++ tree_bytes));
  Ok (out, length cs).
End substitute.
