(* ===== verification/TreeBack.v ===== *)
(** The round trip of ErgoTrees and parsing them on any bytes (TreeSerial). *)

From stdpp Require Import strings gmap.
From S2P Require Import Prelude Gf2Field SigmaBoolean ConcreteCrypto Vlq Codecs SigmaSerial BigNum Header Types TypeSerial TypeParse Expr Value EvalOps Reduce EvalConcrete BigIntSerial DataSerial DataParse ContextExt ExprSerial ExprBack ExprParse TreeSerial.
#[local] Open Scope Z_scope.

(** * Trees whose bytes parse back to them *)

Section ok.
Context `{C : SigmaCrypto} {B : NumBigint} {Bx : ErgoBoxData}.

(** A header that a parse accepts. *)
Definition header_ok (h : ErgoTreeHeader) : Prop := in_u 8 (header_byte h) /\ tree_header_new (header_byte h) = Ok h.

(** The nesting levels that reading the tree takes. *)
Definition tree_levels (t : ParsedTree) : nat :=
  max_list_with (fun c => data_depth (const_v c)) (constants t) `max` levels (tree_version (header t)) (root t).

(** A tree that is read with the types [types] known, and leaves the types [types']. *)
Record tree_ok (t : ParsedTree) (types types' : Store) : Prop := mkTreeOk {
  ok_header : header_ok (header t);
  ok_segregated : is_segregated (header t) = false -> constants t = [];
  ok_count : array_ok (constants t) = true;
  ok_constants : Forall (const_ok (tree_version (header t))) (constants t);
  ok_root : built (tree_version (header t)) (constants t) false types (root t) = Some types';
  ok_root_constants : Forall (const_ok (tree_version (header t))) (consts (root t))
}.
End ok.

Section back.
Context {C : SigmaCrypto} {L : SigmaCryptoLaws C} {P : SigmaCryptoParsing C} {PL : SigmaCryptoParsingLaws C P}.
Context {B : NumBigint} {BL : NumBigintLaws B} {Bx : ErgoBoxData} {BS : BoxSerial Bx}.
Context {M : Bnum} {ML : BnumLaws M} {N : BnumBytes} {NL : BnumBytesLaws N}.

(** ** Constants and root *)

Lemma part_parse_expr v cs sub e s s' d :
  part (serialize_expr v e) (parse_expr_fuel v cs sub) e s s' d -> part (serialize_expr v e) (fun _ => parse_expr v cs sub) e s s' d.
Proof.
  intros (l & E & Hl & Hx). exists l. split_and!; try done. intros n Hn r Hr Hread. unfold parse_expr, parse_fuel. cbn [xr_reader before at_bytes rd_level].
  rewrite Hr. replace (S (MAX_TREE_DEPTH - n)) with (S MAX_TREE_DEPTH - n)%nat by lia. by apply Hx.
Qed.

Lemma part_plain_constant v c s d : const_ok v c -> (data_depth (const_v c) <= d)%nat ->
  part (liftE (constant_serialize v c)) (fun _ => on_reader (constant_parse v)) c s s d.
Proof.
  intros ([Ht Hd%Nat.leb_le]%andb_true_iff & Hv & Hread) Hdepth. destruct (constant_back v c Ht Hd Hv) as (k & Ek & Hk & Hb).
  exists k. split_and!; [unfold liftE; by rewrite Ek|done|]. intros n Hn r Hr Hre. unfold on_reader. cbn [xr_reader xr_types].
  rewrite Hb, Hread by (done || lia). by destruct c.
Qed.

Lemma part_constants v cs s d : Forall (const_ok v) cs -> array_ok cs = true -> (max_list_with (fun c => data_depth (const_v c)) cs <= d)%nat ->
  part (constants_serialize v true cs) (fun _ => parse_constants v) cs s s d.
Proof.
  intros Hc Ha%Z.leb_le Hd. unfold constants_serialize, parse_constants. unfold MAX_ARRAY_LENGTH in Ha.
  rewrite (proj2 (Z.ltb_lt _ _)) by lia. eapply part_bind; [apply part_u32; unfold in_u; lia|].
  rewrite (wrap_s_id 32) by (unfold in_s; lia). destruct (Z.leb_spec (Z.of_nat (length cs)) 0) as [Hz|Hz].
  - destruct cs; [|cbn in Hz; lia]. exists []. split_and!; [done|by constructor|]. intros n _. apply xb_ret.
  - eapply part_pure with (x := tt) (s1 := s).
    { intros fuel r. unfold liftE, array_length, guard_or, MAX_ARRAY_LENGTH. by rewrite (proj2 (Z.leb_le _ _)) by lia. }
    rewrite Nat2Z.id. eapply (part_all (fun s _ => Some s)); [|apply built_all_same]. apply part_fields.
    clear -Hc Hd BL PL L NL ML. induction Hc as [|c cs Hok _ IH]; [done|]. cbn [max_list_with] in Hd. constructor; [|apply IH; lia].
    intros s0. apply part_plain_constant; [done|lia].
Qed.

Lemma part_body t types types' : tree_ok t types types' ->
  part (w_then (constants_serialize (tree_version (header t)) (is_segregated (header t)) (constants t)) (serialize_expr (tree_version (header t)) (root t)))
    (fun _ => parse_body (header t) false) (constants t, root t) types types' (tree_levels t).
Proof.
  intros [_ Hseg Hcount Hcs Hroot Hrc]. unfold parse_body. eapply part_bind.
  - instantiate (1 := types). instantiate (1 := constants t). destruct (is_segregated (header t)); [apply part_constants; [done|done|unfold tree_levels; lia]|].
    rewrite Hseg by done. exists []. split_and!; [done|by constructor|]. intros n _. apply xb_ret.
  - eapply part_end; [|done]. apply part_parse_expr. eapply part_mono; [by apply goes_every|unfold tree_levels; lia].
Qed.

(** ** Header and size *)

Lemma before_in_window l lim r : in_window lim (before l r) = before l (in_window lim r).
Proof. done. Qed.

Lemma tree_header_back h r : header_ok h -> readable (past [header_byte h] r) -> tree_header_parse (before [header_byte h] r) = Ok (h, past [header_byte h] r).
Proof.
  intros [Hb Hh] Hr. unfold tree_header_parse, mbind, stateE_bind, map_st_err. rewrite get_u8_before by readable. cbn [result_map_err].
  unfold liftE. by rewrite Hh.
Qed.

Lemma size_back size l r : in_u 32 size -> put_u32 size = Some l -> readable (past l r) -> (rd_level r <= MAX_TREE_DEPTH)%nat ->
  map_st_err SpVlqEncode get_u32 (before l r) = Ok (size, past l r).
Proof.
  intros Hs El Hr Hlev. rewrite (back_codec (rd_level r) Hlev (in_u 32) put_u32 _ size l Hs El r eq_refl Hr). by apply deep_0.
Qed.

(** Inside the tree's window every read is allowed. *)
Lemma window_readable l m r : Z.of_nat (length (l ++ m)) <= MAX_PROPOSITION_SIZE ->
  readable (past l (in_window (Z.min (rd_position r + MAX_PROPOSITION_SIZE) U64_MAX) r)).
Proof.
  intros Hl. rewrite length_app in Hl. unfold readable, past, in_window. cbn [rd_limit rd_position].
  destruct (Z.min_spec (rd_position r + MAX_PROPOSITION_SIZE) U64_MAX) as [[_ ->]|[_ ->]]; [right; lia|by left].
Qed.

Lemma parse_back activated check_root_tpe t types types' k b r :
  header_ok (header t) -> (check_root_tpe = true -> tpe (root t) = SSigmaProp) -> activated < 2 \/ tree_version (header t) <= activated ->
  (forall n, (n + tree_levels t <= MAX_TREE_DEPTH)%nat -> xb types n (parse_body (header t) false) (constants t, root t) types' b) ->
  (if has_size (header t) then exists size, in_u 32 size /\ put_u32 size = Some k else k = []) ->
  Z.of_nat (length (header_byte (header t) :: k ++ b)) <= MAX_PROPOSITION_SIZE -> (rd_level r + tree_levels t <= MAX_TREE_DEPTH)%nat ->
  parse_with activated check_root_tpe false (mkExprReader (before (header_byte (header t) :: k ++ b) r) types) =
    Ok (Parsed t, Some (mkExprReader (past (header_byte (header t) :: k ++ b) r) types')).
Proof.
  intros Hh Hcheck Hact Hbody Hk Hfit Hlev. set (l := header_byte (header t) :: k ++ b) in *. unfold parse_with. cbn [xr_reader xr_types].
  set (r' := in_window (Z.min (rd_position r + MAX_PROPOSITION_SIZE) U64_MAX) r).
  change (in_window (Z.min (rd_position (before l r) + MAX_PROPOSITION_SIZE) U64_MAX) (before l r)) with (before l r').
  assert (tree_header_parse (before l r') = Ok (header t, before (k ++ b) (past [header_byte (header t)] r'))) as ->.
  { unfold l. change (header_byte (header t) :: k ++ b) with ([header_byte (header t)] ++ k ++ b). rewrite before_app. apply tree_header_back; [done|].
    apply (window_readable [header_byte (header t)] (k ++ b) r Hfit). }
  cbn [result_map_err mbind result_bind]. set (r1 := past [header_byte (header t)] r').
  assert (exists size, tree_size_parse (header t) (before (k ++ b) r1) =
    Ok (size, before b (past k r1))) as [size ->].
  { rewrite before_app. unfold tree_size_parse. destruct (has_size (header t)).
    - destruct Hk as (size & Hs & Ek). exists (Some size). unfold mbind, stateE_bind. rewrite (size_back size k); [by rewrite past_before|done|done| |].
      + unfold r1. change (readable (past k (past [header_byte (header t)] r'))). rewrite past_app.
        apply (window_readable ([header_byte (header t)] ++ k) b r). by rewrite <- app_assoc.
      + unfold r1, past, r', before, at_bytes, in_window. cbn. lia.
    - subst k. exists None. by rewrite past_nil. }
  assert (negb ((2 <=? activated) && (activated <? tree_version (header t))) = true) as ->.
  { destruct (Z.leb_spec 2 activated), (Z.ltb_spec activated (tree_version (header t))); try done; lia. }
  cbn [guard_or mbind result_bind]. assert (sigma_parse_body (header t) check_root_tpe false (mkExprReader (before b (past k r1)) types) =
    Ok (t, mkExprReader (past b (past k r1)) types')) as ->.
  { unfold sigma_parse_body, mbind, stateE_bind, map_st_err. rewrite (Hbody (rd_level r)); [|done|done|].
    - cbn [result_map_err]. unfold liftE. assert (negb (check_root_tpe && negb (bool_decide (tpe (root t) = SSigmaProp))) = true) as ->.
      { destruct check_root_tpe; [|done]. by rewrite bool_decide_eq_true_2 by by apply Hcheck. }
      by destruct t.
    - unfold r1. rewrite !past_app. apply (window_readable (([header_byte (header t)] ++ k) ++ b) [] r). by rewrite app_nil_r, <- app_assoc. }
  do 4 f_equal. unfold r1. by rewrite !past_app.
Qed.

(** The tree is written, if its body stays below 4 GiB, and where its bytes fit the window of 4096 they parse to it, at any level
    that leaves it its levels, with the reader right after them, its window restored, and the types [types'] known. *)
Definition rereads (activated : Z) (check_root_tpe : bool) (t : ParsedTree) (types types' : Store) : Prop :=
  exists b, body_serialize t = Ok b /\ (Z.of_nat (length b) < 2 ^ 32 ->
    exists l, tree_serialize (Parsed t) = Ok l /\ byte_list l /\
      (Z.of_nat (length l) <= MAX_PROPOSITION_SIZE -> forall r, (rd_level r + tree_levels t <= MAX_TREE_DEPTH)%nat ->
        parse_with activated check_root_tpe false (mkExprReader (before l r) types) = Ok (Parsed t, Some (mkExprReader (past l r) types')))).

Lemma tree_back (activated : Z) (check_root_tpe : bool) (t : ParsedTree) (types types' : Store) :
  tree_ok t types types' -> (check_root_tpe = true -> tpe (root t) = SSigmaProp) -> activated < 2 \/ tree_version (header t) <= activated ->
  rereads activated check_root_tpe t types types'.
Proof.
  intros Hok Hcheck Hact. destruct (part_body t types types' Hok) as (b & Eb & Hb & Hp). exists b. split; [unfold body_serialize; by rewrite Eb|].
  intros Hlen. assert (exists k, (if has_size (header t) then ok_or (if Z.of_nat (length b) <? 2 ^ 32 then put_u32 (Z.of_nat (length b)) else None) SerPanic else Ok []) = Ok k /\
    byte_list k /\ if has_size (header t) then exists size, in_u 32 size /\ put_u32 size = Some k else k = []) as (k & Ek & Hk & Hsize).
  { destruct (has_size (header t)); [|exists []; split_and!; [done|constructor|done]]. rewrite (proj2 (Z.ltb_lt _ _) Hlen).
    assert (in_u 32 (Z.of_nat (length b))) as Hu by (unfold in_u; lia).
    destruct (codec_puts (Codec := u32_codec) (Z.of_nat (length b)) Hu) as (k & E & Hk). exists k. rewrite E. split_and!; [done|done|]. by eexists. }
  exists (header_byte (header t) :: k ++ b). split_and!.
  - unfold tree_serialize, body_serialize. rewrite Eb. cbn. unfold with_size. by rewrite Ek.
  - constructor; [apply Hok|by apply Forall_app].
  - intros Hfit r Hlev. apply parse_back; try done. apply Hok.
Qed.

End back.

(** * Parsing any bytes *)

Section sound.
Context {C : SigmaCrypto} {P : SigmaCryptoParsing C} {B : NumBigint} {BL : NumBigintLaws B} {Bx : ErgoBoxData} {BS : BoxSerial Bx}.
Context {M : Bnum} {ML : BnumLaws M} {N : BnumBytes} {NL : BnumBytesLaws N}.

(** A tree whose parts can be written again. *)
Definition tree_writable (t : ParsedTree) : bool :=
  forallb (const_writable (tree_version (header t))) (constants t) && writable (tree_version (header t)) (root t).

Definition const_read (v : Z) (c : Constant) : Prop := const_writable v c = true -> const_ok v c.

Lemma xs_constant v n s : (n <= MAX_TREE_DEPTH)%nat -> xs n s (fun c s' => const_read v c /\ s' = s) (on_reader (constant_parse v)).
Proof.
  intros Hn. apply xs_reader. unfold constant_parse. eapply at_bind; [apply at_yields, yields_u8, io_proper|]. intros tag Htag. by apply const_sound.
Qed.

Lemma xs_constants v n s : (n <= MAX_TREE_DEPTH)%nat ->
  xs n s (fun cs s' => array_ok cs = true /\ Forall (const_read v) cs /\ s' = s) (parse_constants v).
Proof.
  intros Hn. unfold parse_constants. eapply xs_bind; [apply xs_u32|]. intros k s1 [Hk ->]. destruct (Z.leb_spec (wrap_s 32 k) 0).
  - apply xs_ret. by split_and!.
  - eapply xs_bind; [by apply xs_guard|]. intros _ s1 [Ha ->].
    eapply xs_weaken; [apply xs_repeat; intros s0; by apply (xs_constant v n)|]. intros cs s1 [Hl Hc]. cbn beta. split_and!.
    + unfold array_ok. rewrite Hl, Z2Nat.id by lia. exact Ha.
    + by eapply chain_all, Hc; intros ? ? ? [? _].
    + by eapply chain_same, Hc; intros ? ? ? [_ ?].
Qed.

Lemma xs_body h n types : (n <= MAX_TREE_DEPTH)%nat ->
  xs n types (fun p s' => array_ok p.1 = true /\ (is_segregated h = false -> p.1 = []) /\ Forall (const_read (tree_version h)) p.1 /\
    good (tree_version h) p.1 false types p.2 s') (parse_body h false).
Proof.
  intros Hn. unfold parse_body. cbv zeta. eapply (xs_bind _ _ (fun cs s' => array_ok cs = true /\ (is_segregated h = false -> cs = []) /\ Forall (const_read (tree_version h)) cs /\ s' = types)).
  { destruct (is_segregated h); [|apply xs_ret; by split_and!]. eapply xs_weaken; [by apply xs_constants|]. intros cs s1 (H1 & H2 & ->). by split_and!. }
  intros cs s1 (Ha & Hs & Hc & ->). eapply (xs_bind _ _ (good (tree_version h) cs false types)).
  - intros r Hr Hlev. apply (parse_good (tree_version h) cs false r types); [done|done|lia].
  - intros e s1 He. by apply xs_ret.
Qed.

Lemma header_sound r : small_input r ->
  match tree_header_parse r with Ok (h, r') => moved r r' /\ rd_position r < rd_position r' /\ header_ok h | Err _ => True end.
Proof.
  intros [Hb _]. unfold tree_header_parse, mbind, stateE_bind, map_st_err.
  pose proof (yields_u8 (fun _ => True) (fun _ => tt) (fun _ => I) r Hb) as H. unfold map_st_err in H. destruct (get_u8 r) as [[b r']|] eqn:E; [|done].
  cbn [result_map_err] in *. destruct H as [Hm Hb']. unfold liftE. destruct (tree_header_new b) as [h|] eqn:Eh; [|done]. split_and!; [done| |].
  - revert E. unfold get_u8, mbind, stateE_bind. destruct (check_position_limit r) as [[[] r0]|] eqn:Ec; [|done].
    assert (r0 = r) as ->. { revert Ec. unfold check_position_limit. destruct (_ =? _); [by intros [= <-]|]. destruct (_ >? _); [done|by intros [= <-]]. }
    unfold rd_exact. destruct (_ <? _)%nat; [done|]. unfold mret, stateE_ret. intros [= _ <-]. cbn. lia.
  - assert (h = mkErgoTreeHeader b) as ->; [|by split]. revert Eh. unfold tree_header_new, guard_or. destruct (negb _); [|done]. by intros [= <-].
Qed.

Lemma moved_limit lim r r' : moved (in_window lim r) r' -> moved r (in_window (rd_limit r) r').
Proof. intros (l & E & Hp & _ & Hv). by exists l. Qed.

Lemma xs_size h r : small_input r ->
  match tree_size_parse h r with Ok (o, r') => moved r r' /\ (forall size, o = Some size -> in_u 32 size) | Err e => sane e end.
Proof.
  intros [Hb _]. unfold tree_size_parse. destruct (has_size h); [|done]. pose proof (yields_map_err SpVlqEncode _ _ vlq_proper yields_u32_any r Hb) as H.
  unfold mbind, stateE_bind. destruct (map_st_err SpVlqEncode get_u32 r) as [[v r2]|]; [|by apply proper_sane]. destruct H as [Hm Hv]. split; [done|by intros ? [= <-]].
Qed.

Lemma raw_bytes k n start bytes r :
  (_ ← map_st_err sigma_io_error (check_remaining k); map_st_err sigma_io_error (get_bytes_into n)) start = Ok (bytes, r) -> bytes = take n (rd_bytes start).
Proof.
  intros H. apply st_bind_Ok in H as (u & r1 & Ek & H). assert (r1 = start) as ->.
  { revert Ek. unfold map_st_err, check_remaining. destruct (_ >? _); [done|]. by intros [= _ <-]. }
  unfold map_st_err in H. destruct (get_bytes_into n start) as [[x r2]|] eqn:E; [|done]. injection H as <- <-.
  apply st_bind_Ok in E as (u' & r1 & Ec & E). assert (r1 = start) as ->.
  { revert Ec. unfold check_position_limit. destruct (_ =? _); [by intros [= _ <-]|]. destruct (_ >? _); [done|by intros [= _ <-]]. }
  revert E. unfold rd_exact. destruct (_ <? _)%nat; [done|]. by intros [= <- _].
Qed.

(** The raw bytes of a tree that degrades. *)
Lemma degrade_sound start num_bytes error : small_input start -> 0 < num_bytes -> (forall e, error = TreeParsingError e -> sane e) ->
  match degrade start num_bytes error with
  | Ok (Unparsed bytes error', _) =>
      bytes <> [] /\ (exists rest, rd_bytes start = bytes ++ rest) /\ forall e, error' = TreeParsingError e -> escapes_sized_tree_degrade e = false
  | Ok (Parsed _, _) => False
  | Err e => sane e
  end.
Proof.
  intros [Hb _] Hn He. unfold degrade.
  assert (yields proper (fun l => length l = Z.to_nat num_bytes) (_ ← map_st_err sigma_io_error (check_remaining num_bytes); map_st_err sigma_io_error (get_bytes_into (Z.to_nat num_bytes)))) as Hy.
  { eapply (yields_bind _ (fun _ => True)).
    - intros r _. unfold map_st_err, check_remaining. by destruct (_ >? _).
    - intros _ _. eapply yields_weaken; [apply yields_bytes_into, io_proper|]. by intros l [? _]. }
  specialize (Hy start Hb). assert (match error with TreeParsingError e => guard_or (negb (escapes_sized_tree_degrade e)) e | _ => Ok () end = Ok tt \/
    exists e, error = TreeParsingError e /\ match error with TreeParsingError e => guard_or (negb (escapes_sized_tree_degrade e)) e | _ => Ok () end = Err e) as [E|(e & -> & E)].
  { destruct error; try (by left). destruct (escapes_sized_tree_degrade e) eqn:Ee; cbn; [right; exists e; split; reflexivity|left; reflexivity]. }
  - rewrite E. cbn [mbind result_bind]. match type of Hy with match ?x with _ => _ end => destruct x as [[bytes r]|e] eqn:Eb end; cbn; [|by apply proper_sane]. destruct Hy as [_ Hlen].
    apply raw_bytes in Eb. split_and!.
    + intros ->. cbn in Hlen. lia.
    + exists (drop (Z.to_nat num_bytes) (rd_bytes start)). subst bytes. by rewrite take_drop.
    + intros e ->. unfold guard_or in E. destruct (escapes_sized_tree_degrade e); done.
  - rewrite E. cbn. by apply He.
Qed.

Lemma parse_with_sound (activated : Z) (check_root_tpe : bool) (r : reader) (types : Store) :
  small_input r -> (rd_level r <= MAX_TREE_DEPTH)%nat ->
  match parse_with activated check_root_tpe false (mkExprReader r types) with
  | Ok (Parsed t, after) =>
      (check_root_tpe = true -> tpe (root t) = SSigmaProp) /\
      (activated < 2 \/ tree_version (header t) <= activated) /\
      exists st, after = Some st /\ moved r (xr_reader st) /\ (tree_writable t = true -> tree_ok t types (xr_types st))
  | Ok (Unparsed bytes error, after) =>
      bytes <> [] /\ (exists rest, rd_bytes r = bytes ++ rest) /\ forall e, error = TreeParsingError e -> escapes_sized_tree_degrade e = false
  | Err e => e <> SpOutOfFuel /\ e <> SpPanic
  end.
Proof.
  intros Hr Hlev. unfold parse_with. cbn [xr_reader xr_types]. set (start := in_window _ r).
  assert (small_input start) as Hstart by done. pose proof (header_sound start Hstart) as Hh.
  destruct (tree_header_parse start) as [[h r1]|]; cbn [result_map_err mbind result_bind]; [|done]. destruct Hh as (Hm1 & Hpos & Hok).
  pose proof (xs_size h r1 (moved_small _ _ Hm1 Hstart)) as Hs. destruct (tree_size_parse h r1) as [[o r2]|e]; cbn [mbind result_bind]; [|done]. destruct Hs as [Hm2 Ho].
  destruct (negb ((2 <=? activated) && (activated <? tree_version h))) eqn:Eact; cbn [guard_or mbind result_bind]; [|done]. assert (moved start r2) as Hm by by etrans.
  pose proof (xs_body h (rd_level r2) types ltac:(rewrite (moved_level _ _ Hm); exact Hlev) r2 (moved_small _ _ Hm Hstart) eq_refl) as Hbody.
  assert (forall size error, o = Some size -> (forall e, error = TreeParsingError e -> sane e) ->
    match degrade start (rd_position r2 - rd_position start + size) error with
    | Ok (Parsed t, after) => (check_root_tpe = true -> tpe (root t) = SSigmaProp) /\
        (activated < 2 \/ tree_version (header t) <= activated) /\
      exists st, after = Some st /\ moved r (xr_reader st) /\ (tree_writable t = true -> tree_ok t types (xr_types st))
    | Ok (Unparsed bytes error, after) =>
        bytes <> [] /\ (exists rest, rd_bytes r = bytes ++ rest) /\ forall e, error = TreeParsingError e -> escapes_sized_tree_degrade e = false
    | Err e => e <> SpOutOfFuel /\ e <> SpPanic
    end) as degraded.
  { intros size error -> He. specialize (Ho size eq_refl). assert (0 < rd_position r2 - rd_position start + size) as Hn.
    { destruct Hm2 as (l & _ & Hp & _). unfold in_u in Ho. lia. }
    pose proof (degrade_sound start _ error Hstart Hn He) as H. by destruct (degrade start _ error) as [[[bytes err|t] after]|]. }
  unfold sigma_parse_body, mbind at 1 2, stateE_bind, map_st_err. destruct (parse_body h false (mkExprReader r2 types)) as [[[cs e] st]|err]; cbn [result_map_err].
  - destruct Hbody as (Hm3 & Ha & Hseg & Hcs & Hg & _). cbn [fst snd] in *. unfold liftE, guard_or. destruct (negb (check_root_tpe && _)) eqn:Et.
    + cbn. split.
      * intros ->. cbn [andb] in Et. rewrite negb_involutive in Et. by apply bool_decide_eq_true in Et.
      * split; [destruct (Z.leb_spec 2 activated), (Z.ltb_spec activated (tree_version h)); try done; lia|]. eexists. split; [done|]. cbn [xr_reader xr_types]. split; [eapply moved_limit; by etrans|]. intros [Hwc Hwe]%andb_true_iff. cbn in Hwc, Hwe.
        destruct (Hg Hwe) as [Hb Hc]. split; cbn; try done. rewrite forallb_Forall in Hwc. rewrite Forall_forall in *. intros c Hin. by apply Hcs, Hwc.
    + destruct o as [size|]; [|done]. by apply degraded.
  - destruct o as [size|]; [|by destruct (escapes_sized_tree_degrade err)]. apply degraded; [done|by intros ? [= <-]].
Qed.
End sound.

Section theorem.
Context {C : SigmaCrypto} {L : SigmaCryptoLaws C} {P : SigmaCryptoParsing C} {PL : SigmaCryptoParsingLaws C P}.
Context {B : NumBigint} {BL : NumBigintLaws B} {Bx : ErgoBoxData} {BS : BoxSerial Bx}.
Context {M : Bnum} {ML : BnumLaws M} {N : BnumBytes} {NL : BnumBytesLaws N}.

End theorem.

(** * Concrete inputs *)

(** A tree of version 3 with its two constants segregated: the height is above 100, and the second constant is true. *)
Definition sample_tree : ParsedTree :=
  mkParsedTree (mkErgoTreeHeader 27) [mkConstant SInt (LInt 100); mkConstant SBoolean (LBoolean true)]
    (SigmaAnd [BoolToSigmaProp (BinOp (Relation RGt) (EGlobalVars Height) (ConstPlaceholder 0 SInt)); BoolToSigmaProp (ConstPlaceholder 1 SBoolean)]).

Definition sample_tree_bytes : list Z := [27; 16; 2; 4; 200; 1; 1; 1; 234; 2; 209; 145; 163; 115; 0; 209; 115; 1].

Lemma sample_tree_ok : tree_ok sample_tree ∅ ∅.
Proof.
  split; [done|done|done| | |constructor].
  - apply Forall_cons_2; [apply int_const_ok; unfold in_s; lia|]. by apply Forall_cons_2; [apply bool_const_ok|].
  - vm_compute. reflexivity.
Qed.


(** The parts of the first tree's body with an op code that no node has: the tree degrades to its bytes, and the reader's
    last byte is not among them. *)
Definition unknown_op_bytes : list Z := [27; 3; 0; 209; 252].

Lemma small_list l : forallb (fun b => (0 <=? b) && (b <? 256)) l && (Z.of_nat (length l) <=? 100) = true -> small_input (mkReader l 0 U64_MAX 0%nat).
Proof.
  intros [Hl Hn%Z.leb_le]%andb_true_iff. split; [|cbn; lia]. cbn. rewrite forallb_Forall in Hl. eapply Forall_impl; [exact Hl|].
  intros b Hb. cbn beta in Hb. apply andb_true_iff in Hb as [H1%Z.leb_le H2%Z.ltb_lt]. unfold in_u. lia.
Qed.


(** * What modelling showed *)

(** A pair of one item, and a filter whose condition is a number: the node is not built, and the tree degrades. *)
Lemma failed_builds_degrade :
  forallb (fun bytes => match parse_with 3 true false (mkExprReader (mkReader bytes 0 U64_MAX 0%nat) ∅) with
    | Ok (Unparsed raw (TreeParsingError (SpBoundedVecOutOfBounds _)), _) | Ok (Unparsed raw (TreeParsingError SpInvalidArgument), _) => bool_decide (raw = bytes)
    | _ => false end) [[27; 4; 0; 134; 1; 163]; [27; 4; 0; 181; 165; 163]] = true.
Proof. vm_compute. reflexivity. Qed.

(** A tree made of an expression is written with version 0 and read with the version of its header: the cast of a constant
    is lost, and where a header of version 3 asks for it the tree is not made, though the expression is one of version 3. *)
Definition cast_expr : Expr := BoolToSigmaProp (BinOp (Relation RGt) (Upcast (int_c 5) SLong) (Upcast (EGlobalVars Height) SLong)).
Lemma new_drops_cast :
  match ergo_tree_new (mkErgoTreeHeader 27) cast_expr with Err (TreeParsingError SpConstraintFailed) => true | _ => false end = true /\
  read_as 3 (bytes_of 3 cast_expr) cast_expr [] = true.
Proof. split; vm_compute; reflexivity. Qed.
