(* ===== verification/TreeSubst.v ===== *)
(** Replacing the constants in a tree's bytes ([ErgoTree::substitute_constants], TreeSerial): which constants are replaced,
    and that the bytes become those of the tree with them. *)

From stdpp Require Import strings gmap.
From S2P Require Import Prelude Gf2Field SigmaBoolean ConcreteCrypto Vlq Codecs SigmaSerial BigNum Header Types TypeSerial TypeParse Expr Value EvalOps Reduce EvalConcrete BigIntSerial DataSerial DataParse ContextExt ExprSerial ExprBack ExprParse TreeSerial TreeBack.
#[local] Open Scope Z_scope.

(** * The constants that are replaced *)

Section positions.
Context `{C : SigmaCrypto} {Bx : ErgoBoxData}.

Definition replaced (positions : list nat) (new_values : list Constant) (i : nat) (c : Constant) : option Constant :=
  match list_find (eq i) positions with Some (j, _) => new_values !! j | None => Some c end.

Lemma set_constants_at_kept positions : forall new_values already_set cs cs' i,
  set_constants_at positions new_values already_set cs = Ok cs' -> already_set !! i = Some true -> cs' !! i = cs !! i.
Proof.
  induction positions as [|pos positions IH]; intros new_values already_set cs cs' i; cbn [set_constants_at]; [by intros [= <-]|].
  destruct ((pos <? length cs)%nat && negb (nth pos already_set false)) eqn:E; [|intros H Hi; by eapply IH].
  apply andb_true_iff in E as [_ E%negb_true_iff]. destruct new_values as [|new_c new_values]; [done|]. destruct (cs !! pos); [|done].
  unfold guard_or. destruct (bool_decide _); cbn [mbind result_bind]; [|done]. intros H Hi.
  assert (pos <> i) as Hne. { intros ->. apply (nth_lookup_Some _ _ false) in Hi. congruence. }
  erewrite IH by (eassumption || by rewrite list_lookup_insert_ne). by apply list_lookup_insert_ne.
Qed.

(** What becomes of the constants none of whose positions were seen yet. *)
Lemma set_constants_at_spec positions : forall new_values already_set cs,
  (length positions <= length new_values)%nat -> length already_set = length cs ->
  match set_constants_at positions new_values already_set cs with
  | Ok cs' => map const_tpe cs' = map const_tpe cs /\
      forall i c, cs !! i = Some c -> already_set !! i = Some false -> cs' !! i = replaced positions new_values i c
  | Err e => e = ConstantsError TypeMismatch /\ exists i j c new_c,
      already_set !! i = Some false /\ list_find (eq i) positions = Some (j, i) /\ cs !! i = Some c /\ new_values !! j = Some new_c /\ const_tpe new_c <> const_tpe c
  end.
Proof.
  induction positions as [|pos positions IH]; intros new_values already_set cs Hlen Hflags; cbn [set_constants_at]; [done|].
  destruct new_values as [|new_c new_values]; [cbn in Hlen; lia|]. cbn in Hlen.
  destruct ((pos <? length cs)%nat && negb (nth pos already_set false)) eqn:E.
  - apply andb_true_iff in E as [Hpos%Nat.ltb_lt E%negb_true_iff]. destruct (lookup_lt_is_Some_2 cs pos Hpos) as [c Hc]. rewrite Hc.
    unfold guard_or. case_bool_decide as Ht; cbn [mbind result_bind].
    + specialize (IH new_values (<[pos := true]> already_set) (<[pos := new_c]> cs) ltac:(lia) ltac:(by rewrite !length_insert)).
      destruct (set_constants_at _ _ _ _) as [cs'|e] eqn:Eset.
      * destruct IH as [IHt IHc]. split.
        { rewrite IHt, list_fmap_insert, Ht. apply list_insert_id. by rewrite list_lookup_fmap, Hc. }
        intros i d Hi Hf. unfold replaced. cbn [list_find]. destruct (decide (i = pos)) as [->|Hne].
        -- rewrite Hc in Hi. injection Hi as <-. cbn. erewrite set_constants_at_kept by (eassumption || apply list_lookup_insert_eq; rewrite Hflags; lia).
           apply list_lookup_insert_eq. lia.
        -- rewrite (IHc i d) by by rewrite list_lookup_insert_ne. unfold replaced. by destruct (list_find (eq i) positions) as [[j ?]|].
      * destruct IH as (-> & i & j & d & new_d & Hf & Hj & Hd & Hn & Hne). split; [done|]. exists i, (S j), d, new_d.
        destruct (decide (i = pos)) as [->|Hi]; [rewrite list_lookup_insert_eq in Hf by lia; done|].
        rewrite list_lookup_insert_ne in Hf by done. rewrite list_lookup_insert_ne in Hd by done. cbn. by rewrite decide_False, Hj.
    + split; [done|]. exists pos, 0%nat, c, new_c. cbn. rewrite decide_True by done. split_and!; try done.
      destruct (lookup_lt_is_Some_2 already_set pos ltac:(lia)) as [b Hb]. apply (nth_lookup_Some _ _ false) in Hb as Hb'. by rewrite Hb, <- Hb', E.
  - assert (forall i, (i < length cs)%nat -> already_set !! i = Some false -> i <> pos) as Hother.
    { intros i Hi Hf ->. apply (nth_lookup_Some _ _ false) in Hf. rewrite Hf, (proj2 (Nat.ltb_lt _ _) Hi) in E. done. }
    specialize (IH new_values already_set cs ltac:(lia) Hflags). cbn [tail]. destruct (set_constants_at _ _ _ _) as [cs'|e].
    + destruct IH as [IHt IHc]. split; [done|]. intros i c Hi Hf. rewrite (IHc i c Hi Hf). unfold replaced. cbn [list_find].
      rewrite decide_False by (apply Hother; [by eapply lookup_lt_Some|done]). by destruct (list_find (eq i) positions) as [[j ?]|].
    + destruct IH as (-> & i & j & d & new_d & Hf & Hj & Hd & Hn & Hne). split; [done|]. exists i, (S j), d, new_d. split_and!; try done.
      cbn. rewrite decide_False by (apply Hother; [by eapply lookup_lt_Some|done]). by rewrite Hj.
Qed.
End positions.

(** * The bytes *)

Section bytes.
Context {C : SigmaCrypto} {L : SigmaCryptoLaws C} {P : SigmaCryptoParsing C} {PL : SigmaCryptoParsingLaws C P}.
Context {B : NumBigint} {BL : NumBigintLaws B} {Bx : ErgoBoxData} {BS : BoxSerial Bx}.
Context {M : Bnum} {ML : BnumLaws M} {N : BnumBytes} {NL : BnumBytesLaws N}.

Lemma w_all_state {A} (f : A -> writer (list Z)) items s l s' :
  (forall x s l s', f x s = Ok (l, s') -> s' = s) -> w_all f items s = Ok (l, s') -> s' = s.
Proof.
  intros Hf. revert s l s'. induction items as [|x items IH]; intros s l s'; [by intros [= _ <-]|].
  intros (l1 & s1 & H1 & (l2 & s2 & H2 & [= _ <-])%st_bind_Ok)%st_bind_Ok. apply Hf in H1 as ->. by eapply IH.
Qed.

(** The writer of a constant has no store. *)
Lemma constants_serialize_state v segregated cs s l s' : constants_serialize v segregated cs s = Ok (l, s') -> s' = s.
Proof.
  unfold constants_serialize. destruct segregated; [|by intros [= _ <-]].
  intros (l1 & s1 & H1 & (l2 & s2 & H2 & [= _ <-])%st_bind_Ok)%st_bind_Ok.
  assert (forall A (r : result SigmaSerializationError A) (s s' : option (list Constant)) x, liftE r s = Ok (x, s') -> s' = s) as Hlift by (intros A [] ?? ?; [by intros [= _ <-]|done]).
  apply Hlift in H1 as ->. eapply w_all_state, H2. intros x s0 l0 s0'. apply Hlift.
Qed.

(** Bytes that start with a header, a size if it is to be there, and constants that were written with the version of the
    evaluation: whatever follows them is kept as it is. *)
Lemma substitute_body v h cs positions new_values k lc body :
  header_ok h -> (is_segregated h = false -> cs = []) -> array_ok cs = true -> Forall (const_ok v) cs ->
  (max_list_with (fun c => data_depth (const_v c)) cs <= MAX_TREE_DEPTH)%nat ->
  (if has_size h then exists size, in_u 32 size /\ put_u32 size = Some k else k = []) ->
  constants_serialize v (is_segregated h) cs None = Ok (lc, None) ->
  substitute_in_bytes (header_byte h :: k ++ lc ++ body) positions new_values v =
    (new_cs ← set_constants_at positions new_values (replicate (length cs) false) cs;
     '(constants_bytes, _) ← result_map_err RootSerializationError (constants_serialize v (is_segregated h) new_cs None);
     out ← result_map_err RootSerializationError (with_size h ((V3 <=? v) && has_size h) (constants_bytes ++ body));
     Ok (out, length cs)).
Proof.
  intros Hh Hseg Hcount Hcs Hdepth Hk Hlc. unfold substitute_in_bytes. set (r := from_bytes body).
  assert (from_bytes (header_byte h :: k ++ lc ++ body) = before ([header_byte h] ++ k ++ lc) r) as ->.
  { unfold r, from_bytes, before, at_bytes. cbn. by rewrite <- app_assoc. }
  rewrite before_app, tree_header_back by (done || by left). cbn [result_map_err mbind result_bind]. rewrite before_app, !past_before. set (r1 := past [header_byte h] r).
  assert ((_ ← (if has_size h then on_reader (map_st_err SpVlqEncode get_u32) else mret 0);
      if is_segregated h then parse_constants v else mret []) (mkExprReader (before k (before lc r1)) ∅) =
    Ok (cs, mkExprReader (past lc (past k r1)) ∅)) as ->.
  { unfold mbind, stateE_bind. assert (exists x, (if has_size h then on_reader (map_st_err SpVlqEncode get_u32) else mret 0) (mkExprReader (before k (before lc r1)) ∅) =
      Ok (x, mkExprReader (before lc (past k r1)) ∅)) as [x ->].
    { destruct (has_size h).
      - destruct Hk as (size & Hs & Ek). exists size. unfold on_reader. cbn [xr_reader]. rewrite (size_back size k) by (done || (by left) || (cbn; lia)). by rewrite past_before.
      - subst k. exists 0. by rewrite past_nil. }
    destruct (is_segregated h).
    - destruct (part_constants v cs ∅ _ Hcs Hcount (le_n _)) as (lc' & Elc & _ & Hx). rewrite Hlc in Elc. injection Elc as <-.
      apply (Hx 0%nat); [cbn; exact Hdepth|done|by left].
    - rewrite Hseg by done. injection Hlc as <-. by rewrite before_nil, past_nil. }
  cbn [result_map_err mbind result_bind xr_reader]. f_equal. replace (drop _ _) with body; [done|].
  unfold r1, r. rewrite !past_app. cbn [rd_position past at_bytes from_bytes]. rewrite Z.add_0_l, Nat2Z.id.
  change (header_byte h :: k ++ lc ++ body) with ([header_byte h] ++ k ++ lc ++ body). rewrite !app_assoc. symmetry. by apply drop_app_length.
Qed.
(** The tree with other constants. *)
Definition tree_with_constants (t : ParsedTree) (cs : list Constant) : ParsedTree := mkParsedTree (header t) cs (root t).

Lemma tree_serialize_parts t body : serialize_expr (tree_version (header t)) (root t) None = Ok (body, None) ->
  tree_serialize (Parsed t) =
    ('(lc, _) ← constants_serialize (tree_version (header t)) (is_segregated (header t)) (constants t) None; with_size (header t) (has_size (header t)) (lc ++ body)).
Proof.
  intros Eb. unfold tree_serialize, body_serialize, w_then, mbind at 2, stateE_bind at 1.
  destruct (constants_serialize _ _ _ _) as [[lc s]|e] eqn:Ec; [|done]. apply constants_serialize_state in Ec as ->.
  unfold mbind at 2, stateE_bind. by rewrite Eb.
Qed.

(** C31: replacing constants in the bytes of a tree, under the tree's own version, which is 3 at least where the size is
    written, gives the bytes of the tree with the new constants, and their number. Each constant that a position refers to
    becomes the value of the first such position, the others and all types stay, and positions outside of the constants
    are skipped. It fails where a new value has another type, or the new constants cannot be written. *)
Theorem substitute_constants_tree (t : ParsedTree) (types types' : Store) (positions : list nat) (new_values : list Constant) (l : list Z) :
  tree_ok t types types' -> (tree_levels t <= MAX_TREE_DEPTH)%nat -> (has_size (header t) = true -> 3 <= tree_version (header t)) ->
  tree_serialize (Parsed t) = Ok l -> (length positions <= length new_values)%nat ->
  let new_constants new_cs := map const_tpe new_cs = map const_tpe (constants t) /\
    forall i c, constants t !! i = Some c -> new_cs !! i = replaced positions new_values i c in
  match substitute_in_bytes l positions new_values (tree_version (header t)) with
  | Ok (out, n) => n = length (constants t) /\ exists new_cs, new_constants new_cs /\ tree_serialize (Parsed (tree_with_constants t new_cs)) = Ok out
  | Err (ConstantsError e) => e = TypeMismatch /\ exists i j c new_c,
      list_find (eq i) positions = Some (j, i) /\ constants t !! i = Some c /\ new_values !! j = Some new_c /\ const_tpe new_c <> const_tpe c
  | Err (RootSerializationError e) => exists new_cs, new_constants new_cs /\ tree_serialize (Parsed (tree_with_constants t new_cs)) = Err e
  | Err _ => False
  end.
Proof.
  intros Hok Hdepth Hver El Hlen new_constants. set (v := tree_version (header t)) in *. set (cs := constants t) in *.
  assert (exists body, serialize_expr v (root t) None = Ok (body, None)) as [body Eb].
  { destruct (goes_every v cs false (root t) types types' (ok_root _ _ _ Hok) (ok_root_constants _ _ _ Hok)) as (body & Eb & _). by exists body. }
  pose proof (tree_serialize_parts t body Eb) as Et. rewrite El in Et. fold v cs in Et.
  destruct (constants_serialize v _ cs None) as [[lc s]|] eqn:Ec; [|done]. apply constants_serialize_state in Ec as Hs. subst s. cbn [mbind result_bind] in Et.
  unfold with_size in Et. destruct (if has_size (header t) then _ else _) as [k|] eqn:Ek; [|done]. injection Et as ->.
  rewrite (substitute_body v (header t) cs positions new_values k lc body); [|apply Hok..|unfold tree_levels in Hdepth; fold cs in Hdepth; lia| |done].
  2: { destruct (has_size (header t)); [|by injection Ek]. destruct (Z.ltb_spec (Z.of_nat (length (lc ++ body))) (2 ^ 32)); [|done].
    destruct (put_u32 _) as [k'|] eqn:Ep; [|done]. injection Ek as <-. eexists. split; [|exact Ep]. unfold in_u. lia. }
  assert ((V3 <=? v) && has_size (header t) = has_size (header t)) as ->.
  { destruct (has_size (header t)); [|apply andb_false_r]. rewrite andb_true_r. apply Z.leb_le. by apply Hver. }
  pose proof (set_constants_at_spec positions new_values (replicate (length cs) false) cs Hlen ltac:(apply length_replicate)) as Hset.
  destruct (set_constants_at _ _ _ _) as [new_cs|e]; cbn [mbind result_bind].
  2: { destruct Hset as (-> & i & j & c & new_c & _ & Hset). split; [done|]. by exists i, j, c, new_c. }
  assert (new_constants new_cs) as Hnew.
  { destruct Hset as [Ht Hset]. split; [done|]. intros i c Hi. apply (Hset i c Hi). apply lookup_replicate. split; [done|by eapply lookup_lt_Some]. }
  pose proof (tree_serialize_parts (tree_with_constants t new_cs) body Eb) as En. cbn [tree_with_constants header constants root] in En. fold v in En.
  destruct (constants_serialize v _ new_cs None) as [[lc' s]|e]; cbn [result_map_err mbind result_bind] in *; [|by exists new_cs].
  destruct (with_size _ _ _) as [out|e]; cbn [result_map_err mbind result_bind]; [|by exists new_cs]. split; [done|]. by exists new_cs.
Qed.
End bytes.

(** * A concrete input *)

(** The second constant becomes false: the first position that refers to it wins, and there is no constant 5. *)
Lemma substitute_constants_tree_witness :
  exists out new_cs,
    substitute_in_bytes sample_tree_bytes [1%nat; 5%nat; 1%nat] [mkConstant SBoolean (LBoolean false); mkConstant SLong (LLong 3); mkConstant SInt (LInt 3)] 3 = Ok (out, 2%nat) /\
    out = [27; 16; 2; 4; 200; 1; 1; 0; 234; 2; 209; 145; 163; 115; 0; 209; 115; 1] /\
    tree_serialize (Parsed (tree_with_constants sample_tree new_cs)) = Ok out /\ new_cs !! 1%nat = Some (mkConstant SBoolean (LBoolean false)).
Proof.
  assert (tree_serialize (Parsed sample_tree) = Ok sample_tree_bytes) as El by (vm_compute; reflexivity).
  pose proof (substitute_constants_tree sample_tree ∅ ∅ [1%nat; 5%nat; 1%nat]
    [mkConstant SBoolean (LBoolean false); mkConstant SLong (LLong 3); mkConstant SInt (LInt 3)] sample_tree_bytes sample_tree_ok
    ltac:(apply Nat.leb_le; vm_compute; reflexivity) (fun _ => Z.le_refl 3) El (le_n 3)) as H.
  change (tree_version (header sample_tree)) with 3 in H. cbv zeta in H.
  assert (match substitute_in_bytes sample_tree_bytes [1%nat; 5%nat; 1%nat] [mkConstant SBoolean (LBoolean false); mkConstant SLong (LLong 3); mkConstant SInt (LInt 3)] 3 with
    | Ok (out, n) => bool_decide (out = [27; 16; 2; 4; 200; 1; 1; 0; 234; 2; 209; 145; 163; 115; 0; 209; 115; 1]) | Err _ => false end = true) as E by (vm_compute; reflexivity).
  destruct (substitute_in_bytes _ _ _ _) as [[out n]|]; [|discriminate E]. apply bool_decide_eq_true in E.
  destruct H as (-> & new_cs & [_ Hc] & Es). exists out, new_cs. split; [reflexivity|]. split; [exact E|]. split; [exact Es|].
  apply (Hc 1%nat (mkConstant SBoolean (LBoolean true)) eq_refl).
Defined.
