(* ===== verification/Spend.v ===== *)
(** Spending a box with a script: [Prover::prove] (src/ergotree-interpreter/src/sigma_protocol/prover.rs) and
    [Verifier::verify] (verifier.rs), which reduce the script to a proposition and prove or check that. *)

From stdpp Require Import strings gmap.
From S2P Require Import Prelude Gf2Field SigmaBoolean ConcreteCrypto ProofTree Prover SigSerializer Verifier SigmaSteps SigmaCommit SigmaRespond SigmaComplete SigmaSound Types Expr Value EvalOps Eval Reduce EvalConcrete.
#[local] Open Scope Z_scope.

Section spend.
Context `{C : SigmaCrypto} {Bx : ErgoBoxData} {N : Bnum} {Sh : Sha256} {HI : HashIter}.
Implicit Type ctx : EvalContext.

(** The variants of [VerifierError] and [ProverError] that stand for a failed evaluation, around the ones of the sigma
    protocol; diagnostic information is left out. *)
Inductive VerifyError : Type :=
| VerifyEvalError (e : EvalError)
| VerifySignatureError (e : VerifierError).
Inductive ProveError : Type :=
| ProveEvalError (e : EvalError)
| ReducedToFalseWithDiag
| AboveMaxVersion
| ProveProofError (e : ProverError).

Definition MAX_SCRIPT_VERSION : Z := 3.

(** [check_soft_fork_condition], of a tree whose header parsed. *)
Definition check_soft_fork_condition (tree : ParsedErgoTree) ctx : result EvalError bool :=
  let activated_version := activated_script_version_byte ctx in
  let version := wrap_s 8 (header_version tree) in
  if activated_version >? MAX_SCRIPT_VERSION then Ok (version >? MAX_SCRIPT_VERSION)
  else if version >? activated_version
  then Err (TreeVersionAboveActivated (header_version tree) activated_version)
  else Ok false.

(** A computation with its errors mapped. *)
Definition with_err {S E E' A} (f : E -> E') (m : stateE S E A) : stateE S E' A := fun s => result_map_err f (m s).

(** [Verifier::verify]: the answer and the cost. *)
Definition verify ctx (fuel : nat) (tree : ParsedErgoTree) (proof : ProofBytes) (message : list Z) :
    stateE EvalState VerifyError (bool * Z) :=
  above ← liftE (result_map_err VerifyEvalError (check_soft_fork_condition tree ctx));
  if (above : bool) then mret (true, 0)
  else
    reduction ← with_err VerifyEvalError (reduce_to_crypto ctx fuel tree);
    res ← match reduction.1 with
          | TrivialProp b => mret b
          | sb =>
              match proof with
              | ProofEmpty => mret false
              | ProofSome proof_bytes =>
                  liftE (result_map_err VerifySignatureError
                    (unchecked_tree ← result_map_err VerifierSigParsingError (parse_sig_compute_challenges sb proof_bytes);
                     check_commitments unchecked_tree message))
              end
          end;
    mret (res, reduction.2).

(** [Prover::prove], over the evaluator's state and the random numbers. *)
Definition prove (secrets : list PrivateInput) ctx (fuel : nat) (tree : ParsedErgoTree) (message : list Z)
    (hints_bag : HintsBag) : stateE (EvalState * Rng) ProveError ProofBytes := fun p =>
  let '(s, r) := p in
  match check_soft_fork_condition tree ctx with
  | Err e => Err (ProveEvalError e)
  | Ok true => Err AboveMaxVersion
  | Ok false =>
      match reduce_to_crypto ctx fuel tree s with
      | Err e => Err (ProveEvalError e)
      | Ok ((sigma_prop, _), s') =>
          match generate_proof secrets sigma_prop message hints_bag r with
          | Ok (proof, r') => Ok (proof, (s', r'))
          | Err ReducedToFalse => Err ReducedToFalseWithDiag
          | Err e => Err (ProveProofError e)
          end
      end
  end.

(** * Theorems *)

(** The check of a signature that is not empty is what [verify] runs. *)
Lemma signature_checked sb message proof :
  sb <> TrivialProp true -> verify_signature sb message proof = Ok true ->
  (unchecked_tree ← result_map_err VerifierSigParsingError (parse_sig_compute_challenges sb proof);
   check_commitments unchecked_tree message) = Ok true.
Proof. intros Hsb. destruct sb as [[]| |], proof; cbn [verify_signature]; done || congruence. Qed.

Lemma soft_fork_false tree ctx :
  activated_script_version_byte ctx <= MAX_SCRIPT_VERSION -> wrap_s 8 (header_version tree) <= activated_script_version_byte ctx ->
  check_soft_fork_condition tree ctx = Ok false.
Proof.
  intros Ha Hv. unfold check_soft_fork_condition.
  destruct (Z.gtb_spec (activated_script_version_byte ctx) MAX_SCRIPT_VERSION); [lia|].
  by destruct (Z.gtb_spec (wrap_s 8 (header_version tree)) (activated_script_version_byte ctx)); [lia|].
Qed.

Lemma soft_fork_true tree ctx :
  check_soft_fork_condition tree ctx = Ok true ->
  MAX_SCRIPT_VERSION < activated_script_version_byte ctx /\ MAX_SCRIPT_VERSION < wrap_s 8 (header_version tree).
Proof.
  unfold check_soft_fork_condition.
  destruct (Z.gtb_spec (activated_script_version_byte ctx) MAX_SCRIPT_VERSION); [|by case_match].
  intros [= Hgt%Z.gtb_lt]. split; lia.
Qed.

(** What [verify] does below a soft fork, by the reduction it makes. *)
Lemma verify_reduced ctx n tree proof message s sb cost s' :
  check_soft_fork_condition tree ctx = Ok false -> reduce_to_crypto ctx n tree s = Ok ((sb, cost), s') ->
  verify ctx n tree proof message s =
    match sb, proof with
    | TrivialProp b, _ => Ok ((b, cost), s')
    | _, ProofEmpty => Ok ((false, cost), s')
    | _, ProofSome bytes =>
        match (u ← result_map_err VerifierSigParsingError (parse_sig_compute_challenges sb bytes); check_commitments u message)
        with Ok b => Ok ((b, cost), s') | Err e => Err (VerifySignatureError e) end
    end.
Proof.
  intros Hf Hr. unfold verify, with_err, mbind, stateE_bind, liftE. rewrite Hf. cbn. rewrite Hr. cbn.
  destruct sb; try done; (destruct proof; [done|]); cbn; by destruct (result_bind _ _ _ _ _).
Qed.
End spend.

Section theorems.
Context `{C : SigmaCrypto} {L : SigmaCryptoLaws C} {Bx : ErgoBoxData} {N : Bnum} {Sh : Sha256} {HI : HashIter}.

(** A proof that is made without hints proves what the script reduces to. *)
Lemma proved_signature secrets ctx n tree message s r proof s' r' :
  Forall secret_wf secrets ->
  (forall sb cost s1, reduce_to_crypto ctx n tree s = Ok ((sb, cost), s1) -> (exists b, sb = TrivialProp b) \/ well_formed sb) ->
  prove secrets ctx n tree message hints_empty (s, r) = Ok (proof, (s', r')) ->
  check_soft_fork_condition tree ctx = Ok false /\
  exists sb cost, reduce_to_crypto ctx n tree s = Ok ((sb, cost), s') /\
    verify_signature sb message (match proof with ProofEmpty => [] | ProofSome bytes => bytes end) = Ok true.
Proof.
  intros Hsec Hwf Hp. unfold prove in Hp. destruct (check_soft_fork_condition tree ctx) as [[]|] eqn:Hf; try done.
  destruct (reduce_to_crypto ctx n tree s) as [[[sb cost] s1]|] eqn:Hr; [|done]. specialize (Hwf sb cost s1 eq_refl).
  destruct (generate_proof secrets sb message hints_empty r) as [[p r1]|[]] eqn:Hg; try done. injection Hp as -> -> ->.
  split; [done|]. exists sb, cost. split; [done|]. destruct Hwf as [[[] ->]|Hwf]; [done|done|].
  destruct (holds (known secrets) sb) eqn:Hh; [|by rewrite unprovable_error in Hg].
  destruct (complete_proof secrets sb message r [] Hwf Hsec Hh) as (bytes & r2 & Hp & Hok). rewrite app_nil_r in Hok.
  rewrite Hp in Hg. by injection Hg as <- <-.
Qed.

Lemma verifies_signed ctx n tree proof message s s' sb cost :
  check_soft_fork_condition tree ctx = Ok false -> reduce_to_crypto ctx n tree s = Ok ((sb, cost), s') ->
  verify_signature sb message (match proof with ProofEmpty => [] | ProofSome bytes => bytes end) = Ok true ->
  verify ctx n tree proof message s = Ok ((true, cost), s').
Proof.
  intros Hf Hr Hv. rewrite (verify_reduced _ _ _ _ _ _ _ _ _ Hf Hr). destruct (decide (sb = TrivialProp true)) as [->|Hne]; [done|].
  destruct proof as [|bytes].
  - destruct sb as [[]| |]; cbn in Hv; congruence.
  - rewrite (signature_checked sb message bytes Hne Hv). by destruct sb as [[]| |].
Qed.

(** C8: Completeness of spending: where a script reduces to a well-formed proposition that the prover's secrets prove
    (no trivial proposition inside it, in every OR some children and no two that are equal, every threshold at most the
    number of its children and that at most 255), or to true, which needs no secrets, proving it gives a proof, and
    verifying that proof for the same script, context and message says yes, at the cost of the reduction. (For an OR with
    two equal children the prover's proof may be refused: [twins_unverified].) *)
Theorem spend_complete secrets ctx n tree message s r sb cost s' :
  activated_script_version_byte ctx <= MAX_SCRIPT_VERSION ->
  wrap_s 8 (header_version tree) <= activated_script_version_byte ctx ->
  Forall secret_wf secrets ->
  reduce_to_crypto ctx n tree s = Ok ((sb, cost), s') ->
  sb = TrivialProp true \/ (well_formed sb /\ holds (known secrets) sb = true) ->
  exists proof r', prove secrets ctx n tree message hints_empty (s, r) = Ok (proof, (s', r')) /\
    verify ctx n tree proof message s = Ok ((true, cost), s').
Proof.
  intros Ha Hv Hsec Hr Hsb. pose proof (soft_fork_false tree ctx Ha Hv) as Hf.
  unfold prove. rewrite Hf, Hr. destruct Hsb as [->|[Hwf Hh]].
  { exists ProofEmpty, r. split; [done|]. by rewrite (verify_reduced _ _ _ _ _ _ _ _ _ Hf Hr). }
  destruct (complete_proof secrets sb message r [] Hwf Hsec Hh) as (p & r' & Hp & Hok). rewrite app_nil_r in Hok.
  exists (ProofSome p), r'. rewrite Hp. split; [done|]. rewrite (verify_reduced _ _ _ _ _ _ _ _ _ Hf Hr).
  apply signature_checked in Hok; [|by destruct Hwf]. rewrite Hok. by destruct Hwf.
Qed.

(** C9: Soundness of spending: verification says yes only where the script reduces to true, or to a proposition that
    the bytes of the proof prove for the message: they are read as a tree of agreeing challenges whose root is the
    Fiat-Shamir hash of its recomputed commitments and the message; or, unverified and free, where both the activated
    version and the tree's are above the largest supported one. *)
Theorem spend_sound ctx n tree proof message s cost s' :
  match proof with ProofSome bytes => byte_list bytes | ProofEmpty => True end ->
  verify ctx n tree proof message s = Ok ((true, cost), s') ->
  (MAX_SCRIPT_VERSION < activated_script_version_byte ctx /\ MAX_SCRIPT_VERSION < wrap_s 8 (header_version tree) /\ cost = 0) \/
  exists sb, reduce_to_crypto ctx n tree s = Ok ((sb, cost), s') /\
    (sb = TrivialProp true \/ proves sb message (proof_to_bytes proof)).
Proof.
  intros Hb H. destruct (check_soft_fork_condition tree ctx) as [[]|e] eqn:Hf; [left|right|].
  - destruct (soft_fork_true tree ctx Hf) as [Ha Hv]. unfold verify, mbind, stateE_bind, liftE in H. rewrite Hf in H.
    injection H as <- _. done.
  - destruct (reduce_to_crypto ctx n tree s) as [[[sb c] s1]|e] eqn:Hr.
    2: { unfold verify, with_err, mbind, stateE_bind, liftE in H. rewrite Hf in H. cbn in H. by rewrite Hr in H. }
    rewrite (verify_reduced _ _ _ _ _ _ _ _ _ Hf Hr) in H. exists sb.
    assert (forall m, sb <> TrivialProp true -> verify_signature sb message m = Ok true -> byte_list m -> proves sb message m) as Hacc.
    { intros m Hne Hm Hby. by destruct (proj1 (accepted_iff sb message m Hby) Hm). }
    destruct sb as [b|t|k items].
    + injection H as -> -> ->. auto.
    + destruct proof as [|[|b0 bs]]; [done|done|].
      destruct (mbind _ _) as [[]|] eqn:Hm in H; try done. injection H as -> ->. split; [done|]. right.
      by apply (Hacc (b0 :: bs)).
    + destruct proof as [|[|b0 bs]]; [done|done|].
      destruct (mbind _ _) as [[]|] eqn:Hm in H; try done. injection H as -> ->. split; [done|]. right.
      by apply (Hacc (b0 :: bs)).
  - unfold verify, mbind, stateE_bind, liftE in H. by rewrite Hf in H.
Qed.
End theorems.

(** * A contract: the owner's signature, after a height *)

#[local] Existing Instance concrete_crypto.
Definition contract : ParsedErgoTree :=
  mkParsedErgoTree 0 true [mkConstant SSigmaProp (LSigmaProp (ProofOfKnowledge (some_dlog 5)))]
    (SigmaAnd [ConstPlaceholder 0 SSigmaProp;
               BoolToSigmaProp (BinOp (Relation RGt) (EGlobalVars Height) (int 50))]).

Lemma reduces_to_Ok r p c : reduces_to r p c = true -> exists s, r = Ok (p, c, s).
Proof.
  destruct r as [[[q d] s]|]; [|done]. cbn. intros [->%bool_decide_eq_true ->%Z.eqb_eq]%andb_prop. by exists s.
Qed.

Lemma contract_reduces :
  reduces_to (reduce_to_crypto (toy_context 0 (Some 1000)) 10 contract (mkEvalState ∅ 0))
    (ProofOfKnowledge (some_dlog 5)) 8 = true.
Proof. vm_compute. reflexivity. Qed.

(** The contract is spent by the owner of the key. *)
Lemma spend_complete_witness :
  exists sb cost s' proof r',
    prove some_secrets (toy_context 0 (Some 1000)) 10 contract [1; 2; 3] hints_empty (mkEvalState ∅ 0, 42) =
      Ok (proof, (s', r')) /\
    verify (toy_context 0 (Some 1000)) 10 contract proof [1; 2; 3] (mkEvalState ∅ 0) = Ok ((true, cost), s') /\
    sb = ProofOfKnowledge (some_dlog 5).
Proof.
  destruct (reduces_to_Ok _ _ _ contract_reduces) as [s' Hs].
  exists (ProofOfKnowledge (some_dlog 5)), 8, s'.
  destruct (spend_complete some_secrets (toy_context 0 (Some 1000)) 10 contract [1; 2; 3] (mkEvalState ∅ 0) 42
    (ProofOfKnowledge (some_dlog 5)) 8 s') as (proof & r' & Hp & Hv);
    [vm_compute; discriminate|vm_compute; discriminate|exact some_secrets_wf|exact Hs| |].
  - right. split; [constructor|vm_compute; reflexivity].
  - exists proof, r'. split; [exact Hp|split; [exact Hv|reflexivity]].
Defined.

(** The proof the prover makes, and the verifier's answer to it. *)
Definition owner_proof : list Z := Eval vm_compute in
  match generate_proof some_secrets (ProofOfKnowledge (some_dlog 5)) [1; 2; 3] hints_empty 42 with
  | Ok (ProofSome bytes, _) => bytes
  | _ => []
  end.

Definition accepts (r : result VerifyError (bool * Z * EvalState)) (cost : Z) : bool :=
  match r with Ok ((true, c), _) => c =? cost | _ => false end.

Lemma accepts_Ok r cost : accepts r cost = true -> exists s, r = Ok ((true, cost), s).
Proof. destruct r as [[[[] c] s]|]; try done. cbn. intros ->%Z.eqb_eq. by exists s. Qed.

Lemma owner_accepted :
  accepts (verify (toy_context 0 (Some 1000)) 10 contract (ProofSome owner_proof) [1; 2; 3] (mkEvalState ∅ 0)) 8 = true.
Proof. vm_compute. reflexivity. Qed.

Lemma owner_proof_bytes : byte_list owner_proof.
Proof. apply byte_list_check. vm_compute. reflexivity. Qed.

Lemma spend_sound_witness :
  exists s' sb, reduce_to_crypto (toy_context 0 (Some 1000)) 10 contract (mkEvalState ∅ 0) = Ok ((sb, 8), s') /\
    (sb = TrivialProp true \/ proves sb [1; 2; 3] owner_proof).
Proof.
  destruct (accepts_Ok _ _ owner_accepted) as [s' Hs]. exists s'.
  destruct (spend_sound (toy_context 0 (Some 1000)) 10 contract (ProofSome owner_proof) [1; 2; 3] (mkEvalState ∅ 0) 8 s')
    as [[Ha _]|H]; [exact owner_proof_bytes|exact Hs| |exact H].
  vm_compute in Ha. discriminate Ha.
Defined.
