(* ===== verification/Emission.v ===== *)
(** Emission of coins (src/ergo-lib/src/chain/emission.rs): the reward of a block, its split between
    the miner and the foundation, and the totals over all blocks. Arithmetic on 64 bits is checked:
    an overflow, which panics or wraps around by the build's settings, is [Panicked]. *)

From S2P Require Import Prelude.
From Stdlib Require Import ZifyNat.
#[local] Open Scope Z_scope.

(** * Checked arithmetic *)

Definition checked (w z : Z) : result panic Z :=
  if (- 2 ^ (w - 1) <=? z) && (z <? 2 ^ (w - 1)) then Ok z else Err Panicked.
Definition add_i64 (a b : Z) : result panic Z := checked 64 (a + b).
Definition sub_i64 (a b : Z) : result panic Z := checked 64 (a - b).
Definition mul_i64 (a b : Z) : result panic Z := checked 64 (a * b).
Definition div_i64 (a b : Z) : result panic Z := if b =? 0 then Err Panicked else checked 64 (Z.quot a b).

(** * The schedule *)

Definition COINS_IN_ONE_ERGO : Z := 1000000000.

Record MonetarySettings : Type := mkSettings {
  fixed_rate_period : Z;
  epoch_length : Z;
  fixed_rate : Z;
  one_epoch_reduction : Z;
  miner_reward_delay : Z;
  founders_initial_reward : Z
}.

Definition default_settings : MonetarySettings :=
  mkSettings (30 * 2 * 24 * 365) (90 * 24 * 30) (75 * COINS_IN_ONE_ERGO) (3 * COINS_IN_ONE_ERGO) 720 7500000000.

(** The reward less one reduction for every epoch since the fixed rate. *)
Definition reduced_rate (s : MonetarySettings) (h : Z) : result panic Z :=
  d ← sub_i64 h (fixed_rate_period s);
  q ← div_i64 d (epoch_length s);
  epoch ← add_i64 1 q;
  reduction ← mul_i64 (one_epoch_reduction s) epoch;
  rate ← sub_i64 (fixed_rate s) reduction;
  Ok (Z.max rate 0).

Definition emission_at_height_impl (s : MonetarySettings) (h : Z) : result panic Z :=
  if h <? fixed_rate_period s then Ok (fixed_rate s) else reduced_rate s h.

Definition remaining_foundation_reward_impl (s : MonetarySettings) (h : Z) : result panic Z :=
  let fir := founders_initial_reward s in
  let oer := one_epoch_reduction s in
  let el := epoch_length s in
  let frp := fixed_rate_period s in
  oer2 ← mul_i64 2 oer;
  rate15 ← sub_i64 fir oer2;
  full15 ← mul_i64 rate15 el;
  rate45 ← sub_i64 fir oer;
  full45 ← mul_i64 rate45 el;
  if h <? frp then
    full ← add_i64 full15 full45;
    d ← sub_i64 frp h;
    left ← sub_i64 d 1;
    rest ← mul_i64 left fir;
    add_i64 full rest
  else
    last45 ← add_i64 frp el;
    if h <? last45 then
      d ← sub_i64 last45 h;
      left ← sub_i64 d 1;
      rest ← mul_i64 rate45 left;
      add_i64 full15 rest
    else
      el2 ← mul_i64 2 el;
      last15 ← add_i64 frp el2;
      if h <? last15 then
        d ← sub_i64 last15 h;
        left ← sub_i64 d 1;
        mul_i64 rate15 left
      else Ok 0.

Definition miners_reward_at_height_impl (s : MonetarySettings) (h : Z) : result panic Z :=
  el2 ← mul_i64 2 (epoch_length s);
  last ← add_i64 (fixed_rate_period s) el2;
  if h <? last then sub_i64 (fixed_rate s) (founders_initial_reward s) else reduced_rate s h.

Record EmissionRules : Type := mkRules {
  settings : MonetarySettings;
  coins_total : Z;
  blocks_total : Z;
  founders_coins_total : Z;
  miners_coins_total : Z
}.

(** The loop of [EmissionRules::new] from [height], a 32-bit number. *)
Fixpoint emission_loop (fuel : nat) (s : MonetarySettings) (height acc : Z) : result panic (Z * Z) :=
  match fuel with
  | O => Err OutOfFuel
  | S fuel =>
      current_rate ← emission_at_height_impl s height;
      if current_rate >? 0 then
        acc ← add_i64 acc current_rate;
        height ← checked 32 (height + 1);
        emission_loop fuel s height acc
      else Ok (acc, height - 1)
  end.

(** As many epochs as there are reductions. *)
Definition emission_fuel (s : MonetarySettings) : nat :=
  Z.to_nat (fixed_rate_period s + epoch_length s * (fixed_rate s / one_epoch_reduction s + 1) + 2).

Definition rules_new (s : MonetarySettings) : result panic EmissionRules :=
  totals ← emission_loop (emission_fuel s) s 1 0;
  let '(coins_total, blocks_total) := totals in
  founders_coins_total ← remaining_foundation_reward_impl s 0;
  miners_coins_total ← sub_i64 coins_total founders_coins_total;
  Ok (mkRules s coins_total blocks_total founders_coins_total miners_coins_total).

Definition emission_at_height (r : EmissionRules) (h : Z) : result panic Z := emission_at_height_impl (settings r) h.
Definition remaining_foundation_reward_at_height (r : EmissionRules) (h : Z) : result panic Z :=
  remaining_foundation_reward_impl (settings r) h.
Definition miners_reward_at_height (r : EmissionRules) (h : Z) : result panic Z :=
  miners_reward_at_height_impl (settings r) h.

(** * Settings that make sense *)

(** The foundation's share outlasts no reduction, and 64 bits hold what is computed. *)
Record settings_wf (s : MonetarySettings) : Prop := {
  wf_period : 0 <= fixed_rate_period s;
  wf_epoch : 0 < epoch_length s;
  wf_reduction : 0 < one_epoch_reduction s;
  wf_founders : 2 * one_epoch_reduction s <= founders_initial_reward s <= fixed_rate s;
  wf_rate : 2 * one_epoch_reduction s < fixed_rate s;
  wf_heights : fixed_rate_period s + epoch_length s * (fixed_rate s / one_epoch_reduction s + 2) < 2 ^ 31;
  wf_total : fixed_rate s * (fixed_rate_period s + epoch_length s * (fixed_rate s / one_epoch_reduction s + 2)) < 2 ^ 63;
  wf_epochs : one_epoch_reduction s * (2 ^ 31 + 1) < 2 ^ 63 - fixed_rate s
}.

(** ** The schedule in unbounded integers *)

Section ideal.
Context (s : MonetarySettings).
Abbreviation frp := (fixed_rate_period s).
Abbreviation el := (epoch_length s).
Abbreviation fr := (fixed_rate s).
Abbreviation oer := (one_epoch_reduction s).
Abbreviation fir := (founders_initial_reward s).

Definition reduced (h : Z) : Z := Z.max (fr - oer * (1 + (h - frp) / el)) 0.
Definition emission (h : Z) : Z := if h <? frp then fr else reduced h.
Definition miners (h : Z) : Z := if h <? frp + 2 * el then fr - fir else reduced h.
Definition remaining (h : Z) : Z :=
  if h <? frp then (fir - 2 * oer) * el + (fir - oer) * el + (frp - h - 1) * fir
  else if h <? frp + el then (fir - 2 * oer) * el + (fir - oer) * (frp + el - h - 1)
  else if h <? frp + 2 * el then (fir - 2 * oer) * (frp + 2 * el - h - 1)
  else 0.

(** The epochs with a positive rate. *)
Definition epochs : Z := (fr - 1) / oer.
Definition last_block : Z := frp + el * epochs - 1.

Context (Hwf : settings_wf s).

Lemma checked_Ok w z : 0 < w -> - 2 ^ (w - 1) <= z < 2 ^ (w - 1) -> checked w z = Ok z.
Proof. intros Hw Hz. unfold checked. by destruct (Z.leb_spec (- 2 ^ (w - 1)) z), (Z.ltb_spec z (2 ^ (w - 1))); try lia. Qed.

(** A step that stays within 64 bits. *)
Lemma checked_bind {A} z (f : Z -> result panic A) : - 2 ^ 63 <= z < 2 ^ 63 -> (checked 64 z ≫= f) = f z.
Proof. intros H. by rewrite checked_Ok. Qed.

Lemma quotient_bounds : 0 < fr / oer <= fr /\ epochs <= fr / oer /\ 2 <= epochs /\ oer * epochs < fr <= oer * (epochs + 1).
Proof.
  destruct Hwf. unfold epochs. pose proof (Z.div_mod fr oer ltac:(lia)). pose proof (Z.mod_pos_bound fr oer ltac:(lia)).
  pose proof (Z.div_mod (fr - 1) oer ltac:(lia)). pose proof (Z.mod_pos_bound (fr - 1) oer ltac:(lia)).
  assert (0 < fr / oer) by nia. split_and!; try nia; apply Z.div_le_mono; lia.
Qed.

(** The rates before the foundation's share ends. *)
Lemma epoch_early h : frp <= h < frp + 2 * el ->
  (h - frp) / el = if h <? frp + el then 0 else 1.
Proof.
  intros Hh. destruct Hwf. destruct (Z.ltb_spec h (frp + el)); [apply Z.div_small; lia|].
  symmetry. apply (Z.div_unique _ _ 1 (h - frp - el)); lia.
Qed.

Lemma div_lt a b q : 0 < b -> a / b < q <-> a < b * q.
Proof.
  intros Hb. split; intros H.
  - pose proof (Z.mul_succ_div_gt a b Hb). assert (b * Z.succ (a / b) <= b * q) by (apply Z.mul_le_mono_nonneg_l; lia). lia.
  - by apply Z.div_lt_upper_bound.
Qed.

Lemma reduced_positive h : frp <= h -> reduced h > 0 <-> h <= last_block.
Proof.
  intros Hh. pose proof quotient_bounds as (_ & _ & _ & Hq). pose proof (wf_epoch s Hwf) as He. pose proof (wf_reduction s Hwf) as Hr.
  unfold reduced, last_block. pose proof (div_lt (h - frp) el epochs He) as Hd.
  set (q := (h - frp) / el) in *. set (E := epochs) in *. clearbody q E.
  assert (oer * (1 + q) < fr <-> q < E) as Hi.
  { clear -Hq Hr. split; intros H; [|]; [assert (oer * (1 + q) < oer * (E + 1)) by lia; nia|].
    assert (oer * (1 + q) <= oer * E) by (apply Z.mul_le_mono_nonneg_l; lia). lia. }
  clear -Hd Hi. lia.
Qed.

Lemma emission_positive h : 0 <= h -> emission h > 0 <-> h <= last_block.
Proof.
  intros Hh. destruct Hwf. unfold emission. pose proof quotient_bounds as (? & ? & ? & ?). destruct (Z.ltb_spec h frp).
  - unfold last_block. split; [intros _|lia]. nia.
  - by apply reduced_positive.
Qed.

(** ** Nothing overflows *)

Lemma product_fits x y : 0 <= x <= fr -> 0 <= y <= frp + 3 * el -> 0 <= x * y <= fr * (frp + 3 * el).
Proof. intros Hx Hy. split; [apply Z.mul_nonneg_nonneg; lia|]. apply Z.mul_le_mono_nonneg; lia. Qed.

Lemma total_fits : 0 <= frp + 3 * el < 2 ^ 31 /\ 0 < fr * (frp + 3 * el) < 2 ^ 63.
Proof.
  pose proof quotient_bounds as ([Hq _] & _). destruct Hwf as [Hp He Hr _ Hr2 Hh Ht _].
  assert (el * 3 <= el * (fr / oer + 2)) by (apply Z.mul_le_mono_nonneg_l; lia).
  split; [lia|]. split; [apply Z.mul_pos_pos; lia|]. eapply Z.le_lt_trans; [|exact Ht].
  apply Z.mul_le_mono_nonneg_l; lia.
Qed.

Lemma rate_fits : 0 < fr < 2 ^ 63.
Proof. destruct total_fits as [[_ _] [H1 H2]]. pose proof (wf_rate s Hwf). pose proof (wf_epoch s Hwf). pose proof (wf_period s Hwf).
  pose proof (wf_reduction s Hwf). split; [lia|]. eapply Z.le_lt_trans; [|exact H2].
  rewrite <- (Z.mul_1_r fr) at 1. apply Z.mul_le_mono_nonneg_l; lia.
Qed.

Lemma reduced_rate_Ok h : frp <= h <= 2 ^ 31 -> reduced_rate s h = Ok (reduced h).
Proof.
  intros Hh. pose proof rate_fits as Hf. pose proof total_fits as [Hp _]. pose proof (wf_epoch s Hwf) as He.
  pose proof (wf_reduction s Hwf) as Hr. pose proof (wf_epochs s Hwf) as Hes. pose proof (wf_period s Hwf) as Hfp. clear Hwf.
  unfold reduced_rate, reduced, sub_i64, div_i64, add_i64, mul_i64. rewrite checked_bind by lia.
  destruct (Z.eqb_spec el 0); [lia|]. rewrite Z.quot_div_nonneg by lia.
  assert (0 <= (h - frp) / el <= 2 ^ 31).
  { split; [apply Z.div_pos; lia|]. apply Z.div_le_upper_bound; [lia|].
    assert (1 * 2 ^ 31 <= el * 2 ^ 31) by (apply Z.mul_le_mono_nonneg_r; lia). lia. }
  set (q := (h - frp) / el) in *. clearbody q. rewrite !checked_bind by lia.
  assert (0 <= oer * (1 + q) <= oer * (2 ^ 31 + 1)).
  { split; [apply Z.mul_nonneg_nonneg; lia|apply Z.mul_le_mono_nonneg_l; lia]. }
  rewrite !checked_bind by lia. done.
Qed.

Lemma emission_Ok h : 0 <= h <= 2 ^ 31 -> emission_at_height_impl s h = Ok (emission h).
Proof.
  intros Hh. unfold emission_at_height_impl, emission. destruct (Z.ltb_spec h frp); [done|]. apply reduced_rate_Ok. lia.
Qed.

Lemma miners_Ok h : 0 <= h <= 2 ^ 31 -> miners_reward_at_height_impl s h = Ok (miners h).
Proof.
  intros Hh. pose proof rate_fits as Hf. pose proof total_fits as [Hp _]. pose proof (wf_founders s Hwf).
  pose proof (wf_epoch s Hwf). pose proof (wf_period s Hwf). pose proof (wf_reduction s Hwf).
  unfold miners_reward_at_height_impl, miners, mul_i64, add_i64, sub_i64.
  rewrite !checked_bind by lia. destruct (Z.ltb_spec h (frp + 2 * el)); [apply checked_Ok; lia|]. apply reduced_rate_Ok. lia.
Qed.

Lemma remaining_Ok h : 0 <= h <= 2 ^ 31 -> remaining_foundation_reward_impl s h = Ok (remaining h).
Proof.
  intros Hh. pose proof rate_fits as Hf. pose proof total_fits as [Hp Ht]. pose proof (wf_founders s Hwf) as Hfi.
  pose proof (wf_epoch s Hwf) as He. pose proof (wf_period s Hwf) as Hfp. pose proof (wf_reduction s Hwf) as Hr.
  pose proof product_fits as Hmul. clear Hwf. unfold remaining_foundation_reward_impl, remaining, mul_i64, add_i64, sub_i64.
  pose proof (Hmul (fir - 2 * oer) el ltac:(lia) ltac:(lia)) as H15. pose proof (Hmul (fir - oer) el ltac:(lia) ltac:(lia)) as H45.
  rewrite ?checked_bind by lia. destruct (Z.ltb_spec h frp).
  - assert (0 <= (frp - h - 1) * fir <= frp * fr).
    { split; [apply Z.mul_nonneg_nonneg; lia|apply Z.mul_le_mono_nonneg; lia]. }
    assert ((fir - 2 * oer) * el <= fr * el) by (apply Z.mul_le_mono_nonneg_r; lia).
    assert ((fir - oer) * el <= fr * el) by (apply Z.mul_le_mono_nonneg_r; lia).
    assert (0 <= fr * el) by (apply Z.mul_nonneg_nonneg; lia).
    rewrite ?checked_bind by lia. apply checked_Ok; lia.
  - rewrite ?checked_bind by lia. destruct (Z.ltb_spec h (frp + el)).
    + assert (0 <= (fir - oer) * (frp + el - h - 1) <= fr * el).
      { split; [apply Z.mul_nonneg_nonneg; lia|apply Z.mul_le_mono_nonneg; lia]. }
      assert ((fir - 2 * oer) * el <= fr * el) by (apply Z.mul_le_mono_nonneg_r; lia).
      assert (0 <= fr * frp) by (apply Z.mul_nonneg_nonneg; lia).
      rewrite ?checked_bind by lia. apply checked_Ok; lia.
    + rewrite ?checked_bind by lia. destruct (Z.ltb_spec h (frp + 2 * el)); [|done].
      pose proof (Hmul (fir - 2 * oer) (frp + 2 * el - h - 1) ltac:(lia) ltac:(lia)).
      rewrite ?checked_bind by lia. apply checked_Ok; lia.
Qed.

(** ** Each block's reward is split between the miner and the foundation *)

(** The four stretches of heights. *)
Lemma stretch h :
  (h < frp /\ remaining h = (fir - 2 * oer) * el + (fir - oer) * el + (frp - h - 1) * fir) \/
  (frp <= h < frp + el /\ remaining h = (fir - 2 * oer) * el + (fir - oer) * (frp + el - h - 1)) \/
  (frp + el <= h < frp + 2 * el /\ remaining h = (fir - 2 * oer) * (frp + 2 * el - h - 1)) \/
  (frp + 2 * el <= h /\ remaining h = 0).
Proof.
  pose proof (wf_epoch s Hwf). unfold remaining.
  destruct (Z.ltb_spec h frp), (Z.ltb_spec h (frp + el)), (Z.ltb_spec h (frp + 2 * el)); lia.
Qed.

Lemma remaining_step h : 1 <= h ->
  remaining (h - 1) - remaining h =
    if h <? frp then fir else if h <? frp + el then fir - oer else if h <? frp + 2 * el then fir - 2 * oer else 0.
Proof.
  intros Hh. pose proof (wf_epoch s Hwf) as He. pose proof (stretch h) as H1. pose proof (stretch (h - 1)) as H0.
  clear Hwf. destruct (Z.ltb_spec h frp); [|destruct (Z.ltb_spec h (frp + el)); [|destruct (Z.ltb_spec h (frp + 2 * el))]];
    destruct H1 as [[? ->]|[[? ->]|[[? ->]|[? ->]]]]; try lia; destruct H0 as [[? ->]|[[? ->]|[[? ->]|[? ->]]]];
    first [lia | replace h with frp by lia; lia | replace h with (frp + el) by lia; lia | replace h with (frp + 2 * el) by lia; lia].
Qed.

Lemma remaining_decreases h : 1 <= h -> 0 <= remaining h <= remaining (h - 1).
Proof.
  intros Hh. pose proof (remaining_step h Hh) as E. pose proof (wf_founders s Hwf). pose proof (wf_epoch s Hwf).
  pose proof (wf_reduction s Hwf). split.
  - destruct (stretch h) as [[? ->]|[[? ->]|[[? ->]|[? ->]]]]; [| | |lia]; clear E Hwf;
      repeat apply Z.add_nonneg_nonneg; apply Z.mul_nonneg_nonneg; lia.
  - destruct (h <? frp), (h <? frp + el), (h <? frp + 2 * el); lia.
Qed.

Lemma split_block h : 1 <= h -> emission h = miners h + (remaining (h - 1) - remaining h).
Proof.
  intros Hh. rewrite remaining_step by done. unfold emission, miners, reduced. pose proof (wf_rate s Hwf).
  pose proof (wf_reduction s Hwf). pose proof (wf_epoch s Hwf). pose proof (epoch_early h) as E.
  destruct (Z.ltb_spec h frp), (Z.ltb_spec h (frp + 2 * el)); try lia;
    [|destruct (Z.ltb_spec h (frp + el)); lia].
  rewrite E by lia. destruct (Z.ltb_spec h (frp + el)); lia.
Qed.

(** ** The totals *)

Definition reward (x : result panic Z) : Z := match x with Ok z => z | Err _ => 0 end.

(** The sum over the heights 1 to [n]. *)
Fixpoint total (f : Z -> Z) (n : nat) : Z :=
  match n with O => 0 | S n => total f n + f (Z.of_nat (S n)) end.

Lemma total_ext f g n : (forall h, 1 <= h <= Z.of_nat n -> f h = g h) -> total f n = total g n.
Proof. induction n as [|n IH]; intros H; [done|]. cbn [total]. rewrite IH, H; [done|lia|intros; apply H; lia]. Qed.

Lemma total_split n : total emission n = total miners n + (remaining 0 - remaining (Z.of_nat n)).
Proof.
  induction n as [|n IH]; [change (Z.of_nat 0) with 0; cbn [total]; lia|]. cbn [total]. rewrite IH, (split_block (Z.of_nat (S n))) by lia.
  replace (Z.of_nat (S n) - 1) with (Z.of_nat n) by lia. lia.
Qed.

Lemma emission_bounds h : 0 <= h -> 0 <= emission h <= fr.
Proof.
  intros Hh. pose proof rate_fits. pose proof (wf_reduction s Hwf). unfold emission, reduced. destruct (Z.ltb_spec h frp); [lia|].
  assert (0 <= (h - frp) / el) by (apply Z.div_pos; [lia|apply (wf_epoch s Hwf)]).
  assert (0 <= oer * (1 + (h - frp) / el)) by (apply Z.mul_nonneg_nonneg; lia). lia.
Qed.

Lemma total_bounds n : 0 <= total emission n <= fr * Z.of_nat n.
Proof. induction n as [|n IH]; [cbn; lia|]. cbn [total]. pose proof (emission_bounds (Z.of_nat (S n)) ltac:(lia)). lia. Qed.

Definition last_n : nat := Z.to_nat last_block.

Lemma last_block_bounds :
  frp + 2 * el - 1 <= last_block < frp + el * (fr / oer) /\ Z.of_nat last_n = last_block.
Proof.
  pose proof quotient_bounds as (_ & H1 & H2 & _). pose proof (wf_epoch s Hwf) as He. pose proof (wf_period s Hwf).
  assert (el * 2 <= el * epochs) by (apply Z.mul_le_mono_nonneg_l; lia).
  assert (el * epochs <= el * (fr / oer)) by (apply Z.mul_le_mono_nonneg_l; lia).
  unfold last_n, last_block. split; lia.
Qed.

(** The foundation is paid off by then. *)
Lemma remaining_end : remaining (Z.of_nat last_n) = 0.
Proof.
  pose proof last_block_bounds as [Hb ->]. destruct (stretch last_block) as [[? ?]|[[? ?]|[[? ->]|[? ?]]]]; try lia;
    try (pose proof (wf_epoch s Hwf); lia). replace (frp + 2 * el - last_block - 1) with 0 by lia. lia.
Qed.

Lemma miners_nonneg h : 0 <= miners h.
Proof. unfold miners, reduced. pose proof (wf_founders s Hwf). destruct (_ <? _); lia. Qed.

Lemma total_miners_nonneg n : 0 <= total miners n.
Proof. induction n as [|n IH]; cbn [total]; [done|]. pose proof (miners_nonneg (Z.of_nat (S n))). lia. Qed.

Lemma emission_loop_Ok fuel : forall n,
  (n <= last_n)%nat -> (last_n < n + fuel)%nat ->
  emission_loop fuel s (Z.of_nat (S n)) (total emission n) = Ok (total emission last_n, last_block).
Proof.
  pose proof last_block_bounds as [Hb Hl]. pose proof (wf_heights s Hwf) as Hh. pose proof (wf_total s Hwf) as Ht.
  pose proof rate_fits as Hf. pose proof (wf_epoch s Hwf) as He. pose proof (wf_period s Hwf) as Hp. induction fuel as [|fuel IH]; intros n Hn Hfuel; [lia|].
  cbn [emission_loop]. rewrite emission_Ok by lia. cbn [mbind result_bind].
  pose proof (emission_positive (Z.of_nat (S n)) ltac:(lia)) as Hpos. destruct (Z.gtb_spec (emission (Z.of_nat (S n))) 0).
  - assert (Z.of_nat (S n) <= last_block) by (apply Hpos; lia).
    pose proof (total_bounds (S n)) as Htb. cbn [total] in Htb.
    assert (fr * Z.of_nat (S n) <= fr * (frp + el * (fr / oer + 2))) by (apply Z.mul_le_mono_nonneg_l; lia).
    unfold add_i64. rewrite checked_bind by lia. rewrite (checked_Ok 32) by lia. cbn [mbind result_bind].
    replace (Z.of_nat (S n) + 1) with (Z.of_nat (S (S n))) by lia. apply (IH (S n)); lia.
  - assert (~ Z.of_nat (S n) <= last_block) by (intros H'; apply Hpos in H'; lia).
    assert (n = last_n) as -> by lia. do 2 f_equal. lia.
Qed.

Lemma rules_new_Ok : exists r, rules_new s = Ok r /\ settings r = s /\ blocks_total r = last_block /\
  coins_total r = total emission last_n /\ founders_coins_total r = remaining 0 /\ miners_coins_total r = total miners last_n.
Proof.
  pose proof last_block_bounds as [Hb Hl]. pose proof (wf_total s Hwf) as Ht. pose proof (wf_epoch s Hwf) as He.
  pose proof (wf_period s Hwf) as Hp. unfold rules_new.
  assert (last_n < 0 + emission_fuel s)%nat as Hfuel by (unfold emission_fuel; lia).
  pose proof (emission_loop_Ok (emission_fuel s) 0 ltac:(lia) Hfuel) as E. change (Z.of_nat 1) with 1 in E. cbn [total] in E. rewrite E.
  cbn [mbind result_bind]. rewrite remaining_Ok by lia. cbn [mbind result_bind]. unfold sub_i64.
  pose proof (total_bounds last_n) as Htb. pose proof (total_split last_n) as Hs. rewrite remaining_end in Hs.
  assert (fr * Z.of_nat last_n <= fr * (frp + el * (fr / oer + 2))) by (apply Z.mul_le_mono_nonneg_l; pose proof rate_fits; lia).
  pose proof (total_miners_nonneg last_n). pose proof (remaining_decreases 1 ltac:(lia)) as Hd. replace (1 - 1) with 0 in Hd by lia.
  eexists. split; [rewrite checked_bind by lia; reflexivity|]. cbn [settings blocks_total coins_total founders_coins_total miners_coins_total].
  split_and!; try done. lia.
Qed.
End ideal.

(** ** What the rules promise *)

(** At every height up to 2^31 the block's emission, the miner's reward and the foundation's remaining reward are computed without an overflow, and with sensible settings the emission is the miner's reward plus what leaves the foundation's remaining reward, which never grows and never is negative. *)
Theorem emission_split (s : MonetarySettings) (r : EmissionRules) (h : Z) :
  settings_wf s -> rules_new s = Ok r -> 1 <= h <= 2 ^ 31 ->
  exists e m r0 r1,
    emission_at_height r h = Ok e /\ miners_reward_at_height r h = Ok m /\
    remaining_foundation_reward_at_height r (h - 1) = Ok r0 /\ remaining_foundation_reward_at_height r h = Ok r1 /\
    e = m + (r0 - r1) /\ 0 <= m <= e /\ e <= fixed_rate s /\ 0 <= r1 <= r0.
Proof.
  intros Hwf Hr Hh. destruct (rules_new_Ok s Hwf) as (r' & Hr' & Hs & _). rewrite Hr in Hr'. injection Hr' as <-.
  unfold emission_at_height, miners_reward_at_height, remaining_foundation_reward_at_height. rewrite Hs.
  exists (emission s h), (miners s h), (remaining s (h - 1)), (remaining s h).
  rewrite emission_Ok, miners_Ok, !remaining_Ok by (done || lia).
  pose proof (split_block s Hwf h ltac:(lia)). pose proof (remaining_decreases s Hwf h ltac:(lia)).
  pose proof (emission_bounds s Hwf h ltac:(lia)). pose proof (miners_nonneg s Hwf h). split_and!; done || lia.
Qed.

(** The loop that builds the rules stops and nothing in it overflows; the total is the sum of the emissions of the blocks 1 to [blocks_total], the miners' total is the sum of their rewards over the same blocks, the founders' total is what remains for the foundation at height 0, and the emission is positive exactly up to [blocks_total]. *)
Theorem emission_totals (s : MonetarySettings) :
  settings_wf s ->
  exists r n, rules_new s = Ok r /\ settings r = s /\ blocks_total r = Z.of_nat n /\
    coins_total r = total (fun h => reward (emission_at_height r h)) n /\
    miners_coins_total r = total (fun h => reward (miners_reward_at_height r h)) n /\
    remaining_foundation_reward_at_height r 0 = Ok (founders_coins_total r) /\
    coins_total r = miners_coins_total r + founders_coins_total r /\
    (forall h, 0 <= h <= 2 ^ 31 -> exists e, emission_at_height r h = Ok e /\ (0 < e <-> h <= blocks_total r)).
Proof.
  intros Hwf. destruct (rules_new_Ok s Hwf) as (r & Hr & Hs & Hb & Hc & Hf & Hm). exists r, (last_n s).
  pose proof (last_block_bounds s Hwf) as [Hl Hn]. pose proof (wf_heights s Hwf). pose proof (wf_epoch s Hwf).
  unfold emission_at_height, miners_reward_at_height, remaining_foundation_reward_at_height. rewrite Hs.
  assert (forall h, 1 <= h <= Z.of_nat (last_n s) -> 0 <= h <= 2 ^ 31) as Hrange by lia.
  split_and!; [done|done|by rewrite Hn| | | | |].
  - rewrite Hc. apply total_ext. intros h Hh. by rewrite emission_Ok by auto.
  - rewrite Hm. apply total_ext. intros h Hh. by rewrite miners_Ok by auto.
  - rewrite Hf. apply remaining_Ok; [done|lia].
  - rewrite Hc, Hm, Hf, total_split, remaining_end by done. lia.
  - intros h Hh. exists (emission s h). rewrite emission_Ok by done. split; [done|]. rewrite Hb.
    pose proof (emission_positive s Hwf h ltac:(lia)). lia.
Qed.

(** The settings of the main network. *)
Lemma default_settings_wf : settings_wf default_settings.
Proof. split; vm_compute; intuition congruence. Qed.

Lemma emission_split_witness : exists r, rules_new (mkSettings 4 2 10 3 1 6) = Ok r /\
  exists e m r0 r1,
    emission_at_height r 4 = Ok e /\ miners_reward_at_height r 4 = Ok m /\
    remaining_foundation_reward_at_height r 3 = Ok r0 /\ remaining_foundation_reward_at_height r 4 = Ok r1 /\
    e = m + (r0 - r1) /\ 0 <= m <= e /\ e <= 10 /\ 0 <= r1 <= r0.
Proof.
  eexists. split; [vm_compute; reflexivity|].
  apply (emission_split (mkSettings 4 2 10 3 1 6)); [split; vm_compute; intuition congruence|vm_compute; reflexivity|lia].
Defined.

Lemma emission_totals_witness : exists r n, rules_new default_settings = Ok r /\ settings r = default_settings /\
  blocks_total r = Z.of_nat n /\
    coins_total r = total (fun h => reward (emission_at_height r h)) n /\
    miners_coins_total r = total (fun h => reward (miners_reward_at_height r h)) n /\
    remaining_foundation_reward_at_height r 0 = Ok (founders_coins_total r) /\
    coins_total r = miners_coins_total r + founders_coins_total r /\
    (forall h, 0 <= h <= 2 ^ 31 -> exists e, emission_at_height r h = Ok e /\ (0 < e <-> h <= blocks_total r)).
Proof. apply (emission_totals default_settings). apply default_settings_wf. Defined.
