(* ===== verification/Tokens.v ===== *)
(** Box values and token amounts (src/ergotree-ir/src/chain/ergo_box/box_value.rs, chain/token.rs) and the sums
    over boxes that the wallet builds on (src/ergo-lib/src/wallet/box_selector.rs). A value or an amount is the
    u64 of its Rust newtype; a HashMap is a [gmap] with an order of iteration that is not specified. *)

From stdpp Require Import gmap.
From S2P Require Import Prelude.
#[local] Open Scope Z_scope.

(** [u64::checked_add] and the like. *)
Definition checked_u64 (z : Z) : option Z := if (0 <=? z) && (z <? 2 ^ 64) then Some z else None.

(** * Box values *)

Definition MIN_VALUE_PER_BOX_BYTE : Z := 360.
Definition MIN_BOX_SIZE_BYTES : Z := 30.
Definition BOX_MIN_RAW : Z := MIN_VALUE_PER_BOX_BYTE * MIN_BOX_SIZE_BYTES.
Definition BOX_MAX_RAW : Z := 2 ^ 63 - 1.
Definition SAFE_USER_MIN : Z := 1000000.
Definition UNITS_PER_ERGO : Z := 1000000000.

Inductive BoxValueError : Type :=
| BoxValueOutOfBounds (v : Z)
| BoxValueOverflow.

Definition within_bounds (v : Z) : bool := (v >=? BOX_MIN_RAW) && (v <=? BOX_MAX_RAW).
Definition box_value_try_from (v : Z) : result BoxValueError Z :=
  if within_bounds v then Ok v else Err (BoxValueOutOfBounds v).
Definition box_value_try_from_i64 (v : Z) : result BoxValueError Z :=
  if v >=? BOX_MIN_RAW then Ok (wrap_u 64 v) else Err (BoxValueOutOfBounds (wrap_u 64 v)).
Definition box_value_as_i64 (v : Z) : Z := wrap_s 64 v.

Definition box_checked_add (a b : Z) : result BoxValueError Z :=
  raw ← ok_or (checked_u64 (a + b)) BoxValueOverflow;
  if raw >? BOX_MAX_RAW then Err (BoxValueOutOfBounds raw) else Ok raw.
Definition box_checked_sub (a b : Z) : result BoxValueError Z :=
  raw ← ok_or (checked_u64 (a - b)) BoxValueOverflow;
  if raw <? BOX_MIN_RAW then Err (BoxValueOutOfBounds raw) else Ok raw.
Definition box_checked_mul (a b : Z) : result BoxValueError Z :=
  raw ← ok_or (checked_u64 (a * b)) BoxValueOverflow;
  if raw >? BOX_MAX_RAW then Err (BoxValueOutOfBounds raw) else Ok raw.
Definition box_checked_mul_u32 (a b : Z) : result BoxValueError Z :=
  raw ← ok_or (checked_u64 (a * b)) BoxValueOverflow;
  if raw >? BOX_MAX_RAW then Err (BoxValueOutOfBounds raw) else Ok raw.

Fixpoint checked_sum_loop (acc : Z) (vs : list Z) : result BoxValueError Z :=
  match vs with
  | [] => Ok acc
  | v :: vs => acc ← box_checked_add acc v; checked_sum_loop acc vs
  end.
Definition checked_sum (vs : list Z) : result BoxValueError Z :=
  v ← checked_sum_loop 0 vs;
  if v =? 0 then Err (BoxValueOutOfBounds 0) else Ok v.

(** * Token amounts *)

(** [TokenId]: a digest of 32 bytes. *)
Abbreviation TokenId := (list Z) (only parsing).

Definition AMOUNT_MIN_RAW : Z := 1.
Definition AMOUNT_MAX_RAW : Z := 2 ^ 63 - 1.

Inductive TokenAmountError : Type :=
| AmountOutOfBounds (v : Z)
| AmountOverflow.

Definition amount_try_from (v : Z) : result TokenAmountError Z :=
  if (AMOUNT_MIN_RAW <=? v) && (v <=? AMOUNT_MAX_RAW) then Ok v else Err (AmountOutOfBounds (wrap_s 64 v)).
Definition amount_checked_add (a b : Z) : result TokenAmountError Z :=
  raw ← ok_or (checked_u64 (a + b)) AmountOverflow;
  if raw >? AMOUNT_MAX_RAW then Err (AmountOutOfBounds (wrap_s 64 raw)) else Ok raw.
Definition amount_checked_sub (a b : Z) : result TokenAmountError Z :=
  raw ← ok_or (checked_u64 (a - b)) AmountOverflow;
  if raw <? AMOUNT_MIN_RAW then Err (AmountOutOfBounds (wrap_s 64 raw)) else Ok raw.

Record Token : Type := mkToken { token_id : TokenId; amount : Z }.

Definition MAX_TOKENS_COUNT : nat := 255.

(** [BoxTokens::from_vec]: a bounded vector. *)
Definition box_tokens_from_vec (ts : list Token) : option (list Token) :=
  if (1 <=? length ts)%nat && (length ts <=? MAX_TOKENS_COUNT)%nat then Some ts else None.

(** * Sums over boxes *)

Abbreviation TokenMap := (gmap (list Z) Z).

(** The order in which a HashMap is iterated over. *)
Class HashOrder : Type := {
  hash_iter : TokenMap -> list (list Z * Z);
  hash_iter_perm m : hash_iter m ≡ₚ map_to_list m
}.

(** [ErgoBoxAssets]. *)
Class ErgoBoxAssets (T : Type) : Type := { value : T -> Z; tokens : T -> option (list Token) }.

Record ErgoBoxAssetsData : Type := mkAssets { assets_value : Z; assets_tokens : option (list Token) }.
#[export] Instance assets_data : ErgoBoxAssets ErgoBoxAssetsData := {| value := assets_value; tokens := assets_tokens |}.

(** [iter().map().sum()] of u64; an overflow is a panic, [None]. *)
Fixpoint sum_u64 (acc : Z) (vs : list Z) : option Z :=
  match vs with
  | [] => Some acc
  | v :: vs => acc ← checked_u64 (acc + v); sum_u64 acc vs
  end.

Definition add_token (res : TokenMap) (t : Token) : result TokenAmountError TokenMap :=
  match res !! token_id t with
  | Some amt => amt ← amount_checked_add amt (amount t); Ok (<[token_id t := amt]> res)
  | None => Ok (<[token_id t := amount t]> res)
  end.
Fixpoint add_tokens (res : TokenMap) (ts : list Token) : result TokenAmountError TokenMap :=
  match ts with
  | [] => Ok res
  | t :: ts => res ← add_token res t; add_tokens res ts
  end.
Definition sum_tokens (ts : option (list Token)) : result TokenAmountError TokenMap := add_tokens ∅ (default [] ts).

Section boxes.
Context {T : Type} `{!ErgoBoxAssets T}.

Definition sum_value (bs : list T) : option Z := sum_u64 0 (value <$> bs).

Fixpoint add_boxes (res : TokenMap) (bs : list T) : result TokenAmountError TokenMap :=
  match bs with
  | [] => Ok res
  | b :: bs => res ← add_tokens res (default [] (tokens b)); add_boxes res bs
  end.
Definition sum_tokens_from_boxes (bs : list T) : result TokenAmountError TokenMap := add_boxes ∅ bs.
End boxes.

Definition token_of (p : list Z * Z) : Token := mkToken p.1 p.2.

Definition sum_tokens_from_hashmaps `{!HashOrder} (tokens1 tokens2 : TokenMap) : result TokenAmountError TokenMap :=
  add_tokens ∅ (token_of <$> hash_iter tokens1 ++ hash_iter tokens2).

Definition subtract_token (res : TokenMap) (p : list Z * Z) : result TokenAmountError TokenMap :=
  let '(id, t_amt) := p in
  match res !! id with
  | Some amt =>
      if amt =? t_amt then Ok (delete id res)
      else amt ← amount_checked_sub amt t_amt; Ok (<[id := amt]> res)
  | None => Err (AmountOutOfBounds (wrap_s 64 (- wrap_s 64 t_amt)))
  end.
Fixpoint subtract_loop (res : TokenMap) (ps : list (list Z * Z)) : result TokenAmountError TokenMap :=
  match ps with
  | [] => Ok res
  | p :: ps => res ← subtract_token res p; subtract_loop res ps
  end.
Definition subtract_tokens `{!HashOrder} (tokens1 tokens2 : TokenMap) : result TokenAmountError TokenMap :=
  subtract_loop tokens1 (hash_iter tokens2).

(** * Sums as unbounded integers *)

(** The amount of token [id] in a list. *)
Fixpoint amount_of (id : list Z) (ts : list Token) : Z :=
  match ts with [] => 0 | t :: ts => (if decide (token_id t = id) then amount t else 0) + amount_of id ts end.

(** What the token maps hold: the sum of every token that occurs. *)
Definition merge_token (res : TokenMap) (t : Token) : TokenMap :=
  <[token_id t := default 0 (res !! token_id t) + amount t]> res.
Definition tally (res : TokenMap) (ts : list Token) : TokenMap := fold_left merge_token ts res.

Definition box_tokens `{!ErgoBoxAssets T} (bs : list T) : list Token := b ← bs; default [] (tokens b).
Fixpoint total_value `{!ErgoBoxAssets T} (bs : list T) : Z :=
  match bs with [] => 0 | b :: bs => value b + total_value bs end.

Lemma amount_of_app id ts us : amount_of id (ts ++ us) = amount_of id ts + amount_of id us.
Proof. induction ts as [|t ts IH]; cbn; [done|]. rewrite IH. lia. Qed.

#[export] Instance amount_of_perm id : Proper ((≡ₚ) ==> eq) (amount_of id).
Proof.
  intros ts us. induction 1; cbn; [done|by rewrite IHPermutation| |congruence]. lia.
Qed.

#[export] Instance total_value_perm `{!ErgoBoxAssets T} : Proper ((≡ₚ) ==> eq) (total_value (T:=T)).
Proof. intros bs cs. induction 1; cbn; [done|by rewrite IHPermutation| |congruence]. lia. Qed.

#[export] Instance box_tokens_perm `{!ErgoBoxAssets T} : Proper ((≡ₚ) ==> (≡ₚ)) (box_tokens (T:=T)).
Proof. intros bs cs H. unfold box_tokens. by rewrite H. Qed.

Lemma total_value_app `{!ErgoBoxAssets T} (bs cs : list T) : total_value (bs ++ cs) = total_value bs + total_value cs.
Proof. induction bs as [|b bs IH]; cbn; [done|]. rewrite IH. lia. Qed.

Lemma box_tokens_app `{!ErgoBoxAssets T} (bs cs : list T) : box_tokens (bs ++ cs) = box_tokens bs ++ box_tokens cs.
Proof. unfold box_tokens. apply bind_app. Qed.

Lemma box_tokens_cons `{!ErgoBoxAssets T} (b : T) bs : box_tokens (b :: bs) = default [] (tokens b) ++ box_tokens bs.
Proof. done. Qed.

(** Amounts that are not negative: u64 numbers. *)
Abbreviation amounts_wf := (Forall (fun t => 0 <= amount t)).

Lemma amounts_positive_wf ts : Forall (fun t => 0 < amount t) ts -> amounts_wf ts.
Proof. intros H. apply (Forall_impl _ _ _ H). lia. Qed.

Lemma amount_of_nonneg id ts : amounts_wf ts -> 0 <= amount_of id ts.
Proof. induction 1 as [|t ts Ht _ IH]; cbn; [done|]. destruct (decide _); lia. Qed.

Lemma amount_of_notin id ts : id ∉ (token_id <$> ts) -> amount_of id ts = 0.
Proof.
  induction ts as [|t ts IH]; cbn; [done|]. rewrite not_elem_of_cons. intros [? ?]. rewrite IH by done. by destruct (decide _).
Qed.

Lemma amount_of_in id ts : Forall (fun t => 0 < amount t) ts -> 0 < amount_of id ts <-> id ∈ (token_id <$> ts).
Proof.
  intros H. induction H as [|t ts Ht Hts IH]; cbn; [by split; [|intros ?%elem_of_nil]|].
  rewrite elem_of_cons, <- IH. assert (0 <= amount_of id ts) by by apply amount_of_nonneg, amounts_positive_wf.
  destruct (decide (token_id t = id)) as [->|Hne]; split; intros H'; [by left|lia|right; lia|].
  destruct H' as [->|?]; [done|lia].
Qed.

Lemma tally_lookup res ts id :
  tally res ts !! id =
    if decide (is_Some (res !! id) \/ id ∈ (token_id <$> ts)) then Some (default 0 (res !! id) + amount_of id ts) else None.
Proof.
  revert res. induction ts as [|t ts IH]; intros res; unfold tally; cbn.
  - destruct (res !! id) eqn:E; cbn; destruct (decide _) as [H|H]; try done.
    + f_equal. lia.
    + exfalso. apply H. by left.
    + destruct H as [[? ?]|?%elem_of_nil]; done.
  - fold (tally (merge_token res t) ts). rewrite IH. unfold merge_token.
    destruct (decide (token_id t = id)) as [<-|Hne].
    + rewrite lookup_insert_eq. cbn. rewrite !decide_True; [f_equal; lia|right; apply elem_of_cons; by left|by left; eexists].
    + rewrite lookup_insert_ne by done.
      assert (id ∈ token_id t :: (token_id <$> ts) <-> id ∈ (token_id <$> ts)) as E by (rewrite elem_of_cons; naive_solver).
      destruct (decide _) as [H|H], (decide (_ \/ _ ∈ _ :: _)) as [H'|H']; try done; naive_solver.
Qed.

Lemma tally_perm res ts us : ts ≡ₚ us -> tally res ts = tally res us.
Proof.
  intros H. apply map_eq. intros id. rewrite !tally_lookup, (amount_of_perm id _ _ H).
  assert (id ∈ (token_id <$> ts) <-> id ∈ (token_id <$> us)) as E by by rewrite H.
  destruct (decide _), (decide _); naive_solver.
Qed.

Lemma tally_app res ts us : tally res (ts ++ us) = tally (tally res ts) us.
Proof. apply fold_left_app. Qed.

Lemma tally_empty ts id :
  tally ∅ ts !! id = if decide (id ∈ (token_id <$> ts)) then Some (amount_of id ts) else None.
Proof.
  rewrite tally_lookup, lookup_empty. cbn. destruct (decide _) as [[[? ?]|?]|?], (decide _); try done; naive_solver.
Qed.

(** Two lists of tokens have the same tally when they hold the same tokens and the same amounts. *)
Lemma tally_eq ts us :
  (forall id, id ∈ (token_id <$> ts) <-> id ∈ (token_id <$> us)) -> (forall id, amount_of id ts = amount_of id us) ->
  tally ∅ ts = tally ∅ us.
Proof. intros H E. apply map_eq. intros id. rewrite !tally_empty, E. destruct (decide _), (decide _); naive_solver. Qed.

Lemma tally_amount ts us id : tally ∅ ts = tally ∅ us -> amount_of id ts = amount_of id us.
Proof.
  intros H. apply (f_equal (.!! id)) in H. rewrite !tally_empty in H.
  destruct (decide _), (decide _); simplify_eq; try done. by rewrite !amount_of_notin.
Qed.

(** ** The checked sums *)

Lemma add_token_Ok res t m : add_token res t = Ok m -> m = merge_token res t.
Proof.
  unfold add_token, merge_token. destruct (res !! token_id t) as [a|]; cbn; [|by intros [= <-]].
  unfold amount_checked_add, checked_u64. destruct (_ && _); cbn; [|done]. destruct (_ >? _); cbn; [done|]. by intros [= <-].
Qed.

Lemma add_tokens_Ok res ts m : add_tokens res ts = Ok m -> m = tally res ts.
Proof.
  revert res. induction ts as [|t ts IH]; intros res H; cbn in H; [by simplify_eq|].
  apply bind_Ok_inv in H as (res' & ->%add_token_Ok & H). by apply IH.
Qed.

(** No sum exceeds the largest amount. *)
Definition sums_fit (ts : list Token) : Prop := forall id, amount_of id ts <= AMOUNT_MAX_RAW.

Lemma add_token_fits res t :
  0 <= default 0 (res !! token_id t) -> 0 <= amount t -> default 0 (res !! token_id t) + amount t <= AMOUNT_MAX_RAW ->
  add_token res t = Ok (merge_token res t).
Proof.
  unfold add_token, merge_token, amount_checked_add, checked_u64, AMOUNT_MAX_RAW. intros H0 H1 H2.
  destruct (res !! token_id t) as [a|]; cbn in *; [|done].
  destruct (Z.leb_spec 0 (a + amount t)), (Z.ltb_spec (a + amount t) (2 ^ 64)); cbn [andb ok_or mbind result_bind]; try lia.
  by destruct (Z.gtb_spec (a + amount t) (2 ^ 63 - 1)); [lia|].
Qed.

Lemma add_tokens_fits res ts :
  (forall id, 0 <= default 0 (res !! id)) -> amounts_wf ts ->
  (forall id, default 0 (res !! id) + amount_of id ts <= AMOUNT_MAX_RAW) -> add_tokens res ts = Ok (tally res ts).
Proof.
  intros H0 Hts. revert res H0. induction Hts as [|t ts Ht Hts IH]; intros res H0 Hfit; [done|].
  cbn [add_tokens]. pose proof (Hfit (token_id t)) as Hid. cbn in Hid. rewrite decide_True in Hid by done.
  pose proof (amount_of_nonneg (token_id t) ts Hts). rewrite add_token_fits; [|done|done|lia]. cbn [mbind result_bind].
  assert (forall id, default 0 (merge_token res t !! id) = default 0 (res !! id) + if decide (token_id t = id) then amount t else 0) as E.
  { intros id. unfold merge_token. destruct (decide (token_id t = id)) as [<-|Hne]; [by rewrite lookup_insert_eq|].
    rewrite lookup_insert_ne by done. lia. }
  apply IH; intros id; rewrite E; pose proof (H0 id); [destruct (decide _); lia|].
  pose proof (Hfit id) as Hf. cbn in Hf. lia.
Qed.

Lemma sum_tokens_Ok ts m : sum_tokens ts = Ok m -> m = tally ∅ (default [] ts).
Proof. apply add_tokens_Ok. Qed.

Lemma sum_tokens_fits ts : amounts_wf (default [] ts) -> sums_fit (default [] ts) -> sum_tokens ts = Ok (tally ∅ (default [] ts)).
Proof. intros H1 H2. apply add_tokens_fits; [intros id; by rewrite lookup_empty|done|]. intros id. rewrite lookup_empty. apply H2. Qed.

Section box_sums.
Context {T : Type} `{!ErgoBoxAssets T}.
Implicit Types bs : list T.

Lemma add_boxes_tokens res bs : add_boxes res bs = add_tokens res (box_tokens bs).
Proof.
  revert res. induction bs as [|b bs IH]; intros res; [done|]. rewrite box_tokens_cons. cbn [add_boxes].
  generalize (default [] (tokens b)) as ts. intros ts. revert res. induction ts as [|t ts IHt]; intros res; [apply IH|].
  cbn. destruct (add_token res t); cbn; [apply IHt|done].
Qed.

Lemma sum_tokens_from_boxes_Ok bs m : sum_tokens_from_boxes bs = Ok m -> m = tally ∅ (box_tokens bs).
Proof. unfold sum_tokens_from_boxes. rewrite add_boxes_tokens. apply add_tokens_Ok. Qed.

Lemma sum_tokens_from_boxes_fits bs :
  amounts_wf (box_tokens bs) -> sums_fit (box_tokens bs) -> sum_tokens_from_boxes bs = Ok (tally ∅ (box_tokens bs)).
Proof. unfold sum_tokens_from_boxes. rewrite add_boxes_tokens. apply (sum_tokens_fits (Some _)). Qed.

Lemma sum_u64_Some acc vs v : sum_u64 acc vs = Some v -> v = acc + foldr Z.add 0 vs.
Proof.
  revert acc. induction vs as [|w vs IH]; intros acc H; cbn in *; [simplify_eq; lia|].
  unfold checked_u64 in H. destruct (_ && _); cbn in H; [|done]. apply IH in H. lia.
Qed.

Lemma sum_u64_fits acc vs :
  0 <= acc -> Forall (fun v => 0 <= v) vs -> acc + foldr Z.add 0 vs < 2 ^ 64 -> sum_u64 acc vs = Some (acc + foldr Z.add 0 vs).
Proof.
  intros H0 H. revert acc H0. induction H as [|v vs Hv Hvs IH]; intros acc H0 Hfit; cbn [foldr sum_u64] in *; [f_equal; lia|].
  assert (0 <= foldr Z.add 0 vs) by (clear -Hvs; induction Hvs; cbn; lia).
  unfold checked_u64. destruct (Z.leb_spec 0 (acc + v)), (Z.ltb_spec (acc + v) (2 ^ 64)); try lia. cbn [andb mbind option_bind].
  rewrite IH by lia. f_equal. lia.
Qed.

Lemma total_value_foldr bs : foldr Z.add 0 (value <$> bs) = total_value bs.
Proof. induction bs as [|b bs IH]; cbn; [done|]. by rewrite IH. Qed.

Lemma sum_value_Some bs v : sum_value bs = Some v -> v = total_value bs.
Proof. intros H%sum_u64_Some. by rewrite total_value_foldr in H. Qed.

Lemma sum_value_fits bs : Forall (fun b => 0 <= value b) bs -> total_value bs < 2 ^ 64 -> sum_value bs = Some (total_value bs).
Proof. intros H1 H2. unfold sum_value. rewrite sum_u64_fits, total_value_foldr; [done|done|by apply Forall_fmap|by rewrite total_value_foldr]. Qed.
End box_sums.
