(* ===== verification/BoxSelector.v ===== *)
(** Selection of the boxes a transaction spends (src/ergo-lib/src/wallet/box_selector.rs and
    box_selector/simple.rs). u64 arithmetic is checked as in a build with overflow checks: an overflow
    is [SelectorPanicked]. *)

From stdpp Require Import gmap.
From S2P Require Import Prelude Tokens.
#[local] Open Scope Z_scope.

Record BoxSelection (T : Type) : Type := mkSelection { boxes : list T; change_boxes : list ErgoBoxAssetsData }.
Arguments mkSelection {T} _ _.
Arguments boxes {T} _.
Arguments change_boxes {T} _.

Inductive CheckPreservationError : Type :=
| PreservationAmount (e : TokenAmountError)
| ValuesDiffer (sum_selected_inputs target_balance sum_change_boxes : Z)
| TokensDiffer (sum_tokens_selected_inputs sum_tokens_change_boxes sum_tokens_target : TokenMap).

Inductive NotEnoughCoinsForChangeBox : Type :=
| ChangeTooSmall (v : Z) (e : BoxValueError)
| ChangeLeftTooSmall (v left_tokens : Z) (e : BoxValueError).

Inductive BoxSelectorError : Type :=
| NotEnoughCoins (missing : Z)
| NotEnoughTokens (missing : list Token)
| SelectorAmount (e : TokenAmountError)
| CheckPreservation (e : CheckPreservationError)
| NotEnoughCoinsForChange (e : NotEnoughCoinsForChangeBox)
| SelectedInputsOutOfBounds (n : nat)
| SelectorPanicked.

Definition MAX_INPUTS : nat := Z.to_nat (2 ^ 15 - 1).
Definition MAX_TOKENS_PER_CHANGE_BOX : nat := 122.

(** [Option::unwrap]. *)
Definition unwrap {A} (o : option A) : result BoxSelectorError A := ok_or o SelectorPanicked.

Section selector.
Context {T : Type} `{!ErgoBoxAssets T} {Hash : HashOrder}.

(** ** The order of the inputs *)

Definition target_tokens_count (target : TokenMap) (b : T) : nat :=
  length (filter (fun t => is_Some (target !! token_id t)) (default [] (tokens b))).

(** [sort_by] is stable: [b] goes before the boxes after it with the same count. *)
Fixpoint sort_insert (key : T -> nat) (b : T) (bs : list T) : list T :=
  match bs with
  | [] => [b]
  | c :: cs => if (key b <=? key c)%nat then b :: bs else c :: sort_insert key b cs
  end.
Fixpoint sort_by (key : T -> nat) (bs : list T) : list T :=
  match bs with
  | [] => []
  | b :: bs => sort_insert key b (sort_by key bs)
  end.

(** ** The loop over the inputs *)

Record state : Type := mkState {
  selected_inputs : list T;
  selected_boxes_value : Z;
  target_tokens_left : TokenMap;
  has_value_change : bool;
  has_token_change : bool
}.

(** One token of a selected box: what it leaves to select, and what was selected from the box. *)
Definition take_token (left_tokens selected : TokenMap) (t : Token) : result BoxSelectorError (TokenMap * TokenMap) :=
  match left_tokens !! token_id t with
  | None => Ok (left_tokens, selected)
  | Some token_amount_left =>
      left_tokens ← (if token_amount_left <=? amount t then Ok (delete (token_id t) left_tokens)
              else amt ← result_map_err SelectorAmount (amount_checked_sub token_amount_left (amount t));
                   Ok (<[token_id t := amt]> left_tokens));
      let selected_token_amt := Z.min (amount t) token_amount_left in
      selected ← result_map_err SelectorAmount (add_token selected (mkToken (token_id t) selected_token_amt));
      Ok (left_tokens, selected)
  end.
Fixpoint take_tokens (left_tokens selected : TokenMap) (ts : list Token) : result BoxSelectorError (TokenMap * TokenMap) :=
  match ts with
  | [] => Ok (left_tokens, selected)
  | t :: ts => '(left_tokens, selected) ← take_token left_tokens selected t; take_tokens left_tokens selected ts
  end.

Definition has_target_token (left_tokens : TokenMap) (b : T) : bool :=
  existsb (fun t => bool_decide (is_Some (left_tokens !! token_id t))) (default [] (tokens b)).

Definition is_needed (target_balance : Z) (s : state) (b : T) : bool :=
  let value_change_amt := Z.max (selected_boxes_value s - target_balance) 0 in
  (target_balance >? selected_boxes_value s)
  || ((has_value_change s || has_token_change s) && (value_change_amt <? SAFE_USER_MIN))
  || (negb (bool_decide (target_tokens_left s = ∅)) && has_target_token (target_tokens_left s) b).

Definition select_box (target_balance : Z) (s : state) (b : T) : result BoxSelectorError state :=
  if is_needed target_balance s b then
    v ← unwrap (checked_u64 (selected_boxes_value s + value b));
    let value_change := if v >? target_balance then true else has_value_change s in
    '(left_tokens, selected_tokens_from_this_box) ← take_tokens (target_tokens_left s) ∅ (default [] (tokens b));
    all_tokens ← result_map_err SelectorAmount (sum_tokens (tokens b));
    let token_change := if bool_decide (all_tokens = selected_tokens_from_this_box) then has_token_change s else true in
    Ok (mkState (selected_inputs s ++ [b]) v left_tokens value_change token_change)
  else Ok s.
Fixpoint select_loop (target_balance : Z) (s : state) (bs : list T) : result BoxSelectorError state :=
  match bs with
  | [] => Ok s
  | b :: bs => s ← select_box target_balance s b; select_loop target_balance s bs
  end.

(** ** The change *)

Definition change_token (change_tokens : TokenMap) (t : Token) : result BoxSelectorError TokenMap :=
  match change_tokens !! token_id t with
  | Some selected_boxes_t_amt =>
      if selected_boxes_t_amt =? amount t then Ok (delete (token_id t) change_tokens)
      else if selected_boxes_t_amt >? amount t then
        amt ← result_map_err SelectorAmount (amount_checked_sub selected_boxes_t_amt (amount t));
        Ok (<[token_id t := amt]> change_tokens)
      else Err (NotEnoughTokens [t])
  | None => Err (NotEnoughTokens [t])
  end.
Fixpoint change_loop (change_tokens : TokenMap) (ts : list Token) : result BoxSelectorError TokenMap :=
  match ts with
  | [] => Ok change_tokens
  | t :: ts => change_tokens ← change_token change_tokens t; change_loop change_tokens ts
  end.

(** The loop of [make_change_boxes]: a box for every 122 tokens. *)
Fixpoint split_loop (fuel : nat) (change_tokens_left : list Token) (change_value_left : Z)
    : result BoxSelectorError (list ErgoBoxAssetsData) :=
  match fuel with
  | O => Err SelectorPanicked
  | S fuel =>
      if (length change_tokens_left =? 0)%nat then Ok []
      else if (length change_tokens_left <=? MAX_TOKENS_PER_CHANGE_BOX)%nat then
        ts ← unwrap (box_tokens_from_vec change_tokens_left);
        Ok [mkAssets change_value_left (Some ts)]
      else
        value ← result_map_err (fun _ => SelectorPanicked) (box_checked_mul_u32 SAFE_USER_MIN 2);
        let drained_tokens := take MAX_TOKENS_PER_CHANGE_BOX change_tokens_left in
        let change_tokens_left := drop MAX_TOKENS_PER_CHANGE_BOX change_tokens_left in
        ts ← unwrap (box_tokens_from_vec drained_tokens);
        left_tokens ← result_map_err (fun e => NotEnoughCoinsForChange (ChangeLeftTooSmall change_value_left value e))
                 (box_checked_sub change_value_left value);
        bs ← split_loop fuel change_tokens_left left_tokens;
        Ok (mkAssets value (Some ts) :: bs)
  end.

Definition make_change_boxes (change_value : Z) (change_tokens : TokenMap) : result BoxSelectorError (list ErgoBoxAssetsData) :=
  if bool_decide (change_tokens = ∅) then Ok [mkAssets change_value None]
  else if (size change_tokens <=? MAX_TOKENS_PER_CHANGE_BOX)%nat then
    ts ← unwrap (box_tokens_from_vec (token_of <$> hash_iter change_tokens));
    Ok [mkAssets change_value (Some ts)]
  else
    let change_tokens_left := token_of <$> hash_iter change_tokens in
    split_loop (S (length change_tokens_left)) change_tokens_left change_value.

Definition make_change (target_balance : Z) (target_tokens : list Token) (s : state)
    : result BoxSelectorError (list ErgoBoxAssetsData) :=
  if negb (has_value_change s) && negb (has_token_change s) then Ok []
  else
    let change := selected_boxes_value s - target_balance in
    change_value ← result_map_err (fun e => NotEnoughCoinsForChange (ChangeTooSmall change e)) (box_value_try_from change);
    change_tokens ← result_map_err SelectorAmount (sum_tokens_from_boxes (selected_inputs s));
    change_tokens ← change_loop change_tokens target_tokens;
    make_change_boxes change_value change_tokens.

Definition preservation {A} : result TokenAmountError A -> result BoxSelectorError A :=
  result_map_err (fun e => CheckPreservation (PreservationAmount e)).

Definition check_input_preservation (selected_inputs : list T) (change_boxes : list ErgoBoxAssetsData)
    (target_balance : Z) (target_tokens : list Token) : result BoxSelectorError unit :=
  sum_selected_inputs ← unwrap (sum_value selected_inputs);
  sum_change_boxes ← unwrap (sum_value change_boxes);
  sum_outputs ← unwrap (checked_u64 (sum_change_boxes + target_balance));
  if negb (sum_selected_inputs =? sum_outputs) then
    Err (CheckPreservation (ValuesDiffer sum_selected_inputs target_balance sum_change_boxes))
  else
    sum_tokens_selected_inputs ← preservation (sum_tokens_from_boxes selected_inputs);
    sum_tokens_change_boxes ← preservation (sum_tokens_from_boxes change_boxes);
    sum_tokens_target ← preservation (sum_tokens (Some target_tokens));
    sum_tokens_outputs ← preservation (sum_tokens_from_hashmaps sum_tokens_change_boxes sum_tokens_target);
    if negb (bool_decide (sum_tokens_selected_inputs = sum_tokens_outputs)) then
      Err (CheckPreservation (TokensDiffer sum_tokens_selected_inputs sum_tokens_change_boxes sum_tokens_target))
    else Ok tt.

(** ** The selector *)

Definition select (inputs : list T) (target_balance : Z) (target_tokens : list Token)
    : result BoxSelectorError (BoxSelection T) :=
  target_left ← result_map_err SelectorAmount (sum_tokens (Some target_tokens));
  let sorted_inputs := rev (sort_by (target_tokens_count target_left) inputs) in
  s ← select_loop target_balance (mkState [] 0 target_left false false) sorted_inputs;
  if selected_boxes_value s <? target_balance then Err (NotEnoughCoins (target_balance - selected_boxes_value s))
  else if negb (length target_tokens =? 0)%nat && negb (bool_decide (target_tokens_left s = ∅)) then
    Err (NotEnoughTokens (token_of <$> hash_iter (target_tokens_left s)))
  else
    change_boxes ← make_change target_balance target_tokens s;
    check_input_preservation (selected_inputs s) change_boxes target_balance target_tokens;;
    if (1 <=? length (selected_inputs s))%nat && (length (selected_inputs s) <=? MAX_INPUTS)%nat then
      Ok (mkSelection (selected_inputs s) change_boxes)
    else Err (SelectedInputsOutOfBounds (length (selected_inputs s))).
End selector.

(** * Reordering *)

Section sorting.
Context {T : Type} (key : T -> nat).

Lemma sort_insert_perm b bs : sort_insert key b bs ≡ₚ b :: bs.
Proof. induction bs as [|c cs IH]; cbn; [done|]. destruct (_ <=? _)%nat; [done|]. rewrite IH. apply Permutation_swap. Qed.

Lemma sort_by_perm bs : sort_by key bs ≡ₚ bs.
Proof. induction bs as [|b bs IH]; cbn; [done|]. by rewrite sort_insert_perm, IH. Qed.
End sorting.

(** * What is left of the target *)

(** What is left of [o] when [a] is taken. *)
Definition less (o : option Z) (a : Z) : option Z := l ← o; if a <? l then Some (l - a) else None.

Lemma less_less o a b : 0 <= a -> 0 <= b -> less (less o a) b = less o (a + b).
Proof.
  intros Ha Hb. destruct o as [l|]; [|done]. unfold less. cbn. destruct (Z.ltb_spec a l); cbn.
  - destruct (Z.ltb_spec b (l - a)), (Z.ltb_spec (a + b) l); try lia; [f_equal; lia|done].
  - destruct (Z.ltb_spec (a + b) l); [lia|done].
Qed.

(** Only positive amounts are kept. *)
Definition positive_map (m : TokenMap) : Prop := forall id l, m !! id = Some l -> 0 < l.

Lemma less_0 m id : positive_map m -> less (m !! id) 0 = m !! id.
Proof.
  intros Hm. unfold less. destruct (m !! id) as [l|] eqn:E; cbn; [|done]. pose proof (Hm id l E).
  destruct (Z.ltb_spec 0 l); [f_equal|]; lia.
Qed.

Lemma less_Some o a r : less o a = Some r -> exists l, o = Some l /\ a < l /\ r = l - a.
Proof. unfold less. destruct o as [l|]; cbn; [|done]. destruct (Z.ltb_spec a l); [|done]. intros [= <-]. by exists l. Qed.

Definition of_token (id : list Z) (t : Token) : Z := if decide (token_id t = id) then amount t else 0.

Section taking.

Lemma take_token_inv left_tokens sel t left' sel' :
  positive_map left_tokens -> 0 <= amount t -> take_token left_tokens sel t = Ok (left', sel') ->
  (forall id, left' !! id = less (left_tokens !! id) (of_token id t)) /\
  (sel' = match left_tokens !! token_id t with
          | Some l => merge_token sel (mkToken (token_id t) (Z.min (amount t) l)) | None => sel end).
Proof.
  intros Hpos Ht. unfold take_token, of_token. destruct (left_tokens !! token_id t) as [l|] eqn:El.
  - intros H. apply bind_Ok_inv in H as (left1 & Hleft & H). apply bind_Ok_inv in H as (sel1 & Hsel & H). injection H as <- <-.
    split; [|destruct (add_token _ _) eqn:E in Hsel; [|done]; injection Hsel as <-; by apply add_token_Ok].
    intros id. destruct (decide (token_id t = id)) as [<-|Hne].
    + rewrite El. unfold less. cbn. destruct (Z.leb_spec l (amount t)), (Z.ltb_spec (amount t) l); try lia.
      * injection Hleft as <-. by rewrite lookup_delete_eq.
      * apply bind_Ok_inv in Hleft as (d & Hd & Hleft). injection Hleft as <-. rewrite lookup_insert_eq. f_equal.
        unfold amount_checked_sub, checked_u64 in Hd. destruct (_ && _); cbn in Hd; [|done]. destruct (_ <? _); cbn in Hd; [done|].
        by injection Hd.
    + rewrite less_0 by done. destruct (l <=? amount t).
      * injection Hleft as <-. by rewrite lookup_delete_ne.
      * apply bind_Ok_inv in Hleft as (d & Hd & Hleft). injection Hleft as <-. by rewrite lookup_insert_ne.
  - intros [= <- <-]. split; [|done]. intros id. destruct (decide _) as [<-|]; [by rewrite El|by rewrite less_0].
Qed.

Lemma less_positive m m' f : positive_map m -> (forall id, m' !! id = less (m !! id) (f id)) -> positive_map m'.
Proof. intros Hm H id l. rewrite H. intros (l' & _ & ? & ->)%less_Some. lia. Qed.

Lemma of_token_nonneg id t : 0 <= amount t -> 0 <= of_token id t.
Proof. unfold of_token. destruct (decide _); lia. Qed.

Lemma take_tokens_left left_tokens sel ts left' sel' :
  positive_map left_tokens -> amounts_wf ts -> take_tokens left_tokens sel ts = Ok (left', sel') ->
  forall id, left' !! id = less (left_tokens !! id) (amount_of id ts).
Proof.
  intros Hpos Hts. revert left_tokens sel Hpos. induction Hts as [|t ts Ht Hts IH]; intros lt sel Hpos H id; cbn in H.
  - injection H as <- <-. by rewrite less_0.
  - apply bind_Ok_inv in H as ([lt1 sel1] & H1 & H). apply take_token_inv in H1 as [H1 _]; [|done..].
    rewrite (IH lt1 sel1) by (done || exact (less_positive _ _ (fun id => of_token id t) Hpos H1)). rewrite H1. cbn.
    apply less_less; [by apply of_token_nonneg|by apply amount_of_nonneg].
Qed.

(** What was selected from a box: of every token in it that was still wanted, what it holds, up to what was wanted. *)
Lemma take_tokens_selected left_tokens sel ts left' sel' id :
  positive_map left_tokens -> amounts_wf ts -> take_tokens left_tokens sel ts = Ok (left', sel') ->
  sel' !! id = match left_tokens !! id with
               | Some l => if decide (id ∈ token_id <$> ts) then Some (default 0 (sel !! id) + Z.min (amount_of id ts) l) else sel !! id
               | None => sel !! id
               end.
Proof.
  intros Hpos Hts. revert left_tokens sel Hpos. induction Hts as [|t ts Ht Hts IH]; intros lt sel Hpos H; cbn in H.
  - injection H as <- <-. destruct (lt !! id); [|done]. destruct (decide _) as [?%elem_of_nil|]; done.
  - apply bind_Ok_inv in H as ([lt1 sel1] & H1 & H). apply take_token_inv in H1 as [H1 H1']; [|done..].
    rewrite (IH lt1 sel1) by (done || exact (less_positive _ _ (fun id => of_token id t) Hpos H1)). clear IH H. rewrite H1, H1'. clear H1 H1'. unfold of_token.
    pose proof (amount_of_nonneg id ts Hts). cbn [amount_of].
    destruct (decide (token_id t = id)) as [<-|Hne].
    + destruct (lt !! token_id t) as [l|] eqn:El; [|by destruct (less None _) eqn:E in |- *].
      rewrite (decide_True (P := _ ∈ _ <$> t :: ts)) by (cbn; apply elem_of_cons; by left).
      unfold merge_token. cbn [token_id amount]. rewrite !lookup_insert_eq. cbn [default from_option].
      unfold less. cbn. destruct (Z.ltb_spec (amount t) l); cbn; [|f_equal; lia].
      destruct (decide _) as [Hin|Hin]; [f_equal; unfold id; lia|]. rewrite amount_of_notin by done. f_equal. lia.
    + rewrite less_0 by done.
      assert (match lt !! token_id t with Some l => merge_token sel (mkToken (token_id t) (Z.min (amount t) l)) | None => sel end !! id = sel !! id) as ->.
      { destruct (lt !! token_id t); [|done]. by apply lookup_insert_ne. }
      destruct (lt !! id) as [l|]; [|done]. cbn.
      assert (id ∈ token_id t :: (token_id <$> ts) <-> id ∈ (token_id <$> ts)) by (rewrite elem_of_cons; naive_solver).
      destruct (decide (id ∈ _ <$> ts)), (decide (id ∈ _ :: _)); try done; naive_solver.
Qed.

(** Nothing overflows when what was selected and what is left fit together. *)
Lemma take_tokens_fits left_tokens sel ts :
  positive_map left_tokens -> amounts_wf ts ->
  (forall id l, left_tokens !! id = Some l -> 0 <= default 0 (sel !! id) /\ default 0 (sel !! id) + l <= AMOUNT_MAX_RAW) ->
  exists left' sel', take_tokens left_tokens sel ts = Ok (left', sel').
Proof.
  intros Hpos Hts. revert left_tokens sel Hpos. induction Hts as [|t ts Ht Hts IH]; intros lt sel Hpos Hfit; cbn; [by do 2 eexists|].
  assert (exists lt1 sel1, take_token lt sel t = Ok (lt1, sel1)) as (lt1 & sel1 & H1).
  { unfold take_token. destruct (lt !! token_id t) as [l|] eqn:El; [|by do 2 eexists].
    pose proof (Hpos _ _ El). destruct (Hfit _ _ El) as [Hs0 Hs]. unfold AMOUNT_MAX_RAW in *.
    rewrite add_token_fits by (cbn; unfold AMOUNT_MAX_RAW; lia). cbn. destruct (Z.leb_spec l (amount t)); cbn; [by do 2 eexists|].
    unfold amount_checked_sub, checked_u64, AMOUNT_MIN_RAW.
    destruct (Z.leb_spec 0 (l - amount t)), (Z.ltb_spec (l - amount t) (2 ^ 64)); try lia. cbn.
    destruct (Z.ltb_spec (l - amount t) 1); [lia|]. cbn. by do 2 eexists. }
  rewrite H1. cbn. apply take_token_inv in H1 as [H1 ->]; [|done..]. apply IH; [exact (less_positive _ _ (fun id => of_token id t) Hpos H1)|].
  intros id l Hl. rewrite H1 in Hl. apply less_Some in Hl as (l0 & Hl0 & ? & ->). destruct (Hfit id l0 Hl0). unfold of_token in *.
  destruct (decide (token_id t = id)) as [<-|Hne].
  - rewrite Hl0. unfold merge_token. rewrite lookup_insert_eq. cbn. pose proof (Hpos _ _ Hl0). lia.
  - destruct (lt !! token_id t); [unfold merge_token; rewrite lookup_insert_ne by done|]; lia.
Qed.
End taking.

(** * The loop's invariant *)

(** Boxes and targets made by the constructors of values and amounts, and sums that fit their types. *)
Lemma bounds_Z (v : Z) : within_bounds v = true -> 0 < BOX_MIN_RAW <= v /\ v <= BOX_MAX_RAW.
Proof.
  unfold within_bounds. intros [H%Z.geb_le H'%Z.leb_le]%andb_true_iff.
  unfold BOX_MIN_RAW, MIN_VALUE_PER_BOX_BYTE, MIN_BOX_SIZE_BYTES in *. lia.
Qed.

Record selection_wf `{!ErgoBoxAssets T} (inputs : list T) (target_balance : Z) (target_tokens : list Token) : Prop := {
  wf_values : Forall (fun b => within_bounds (value b) = true) inputs;
  wf_balance : within_bounds target_balance = true;
  wf_total : total_value inputs <= BOX_MAX_RAW;
  wf_amounts : Forall (fun t => 0 < amount t) (box_tokens inputs);
  wf_target_amounts : Forall (fun t => 0 < amount t) target_tokens;
  wf_sums : sums_fit (box_tokens inputs);
  wf_target_sums : sums_fit target_tokens
}.

Section loop.
Context {T : Type} `{!ErgoBoxAssets T} (target_balance : Z) (wanted : TokenMap).
Context (Hbalance : within_bounds target_balance = true).
Context (Hwanted : forall id l, wanted !! id = Some l -> 0 < l <= AMOUNT_MAX_RAW).

Record loop_inv (s : state (T := T)) (processed skipped : list T) : Prop := {
  inv_perm : selected_inputs s ++ skipped ≡ₚ processed;
  inv_amounts : Forall (fun t => 0 < amount t) (box_tokens (selected_inputs s));
  inv_value : selected_boxes_value s = total_value (selected_inputs s);
  inv_left id : target_tokens_left s !! id = less (wanted !! id) (amount_of id (box_tokens (selected_inputs s)));
  inv_skipped b t : b ∈ skipped -> t ∈ default [] (tokens b) -> target_tokens_left s !! token_id t = None;
  inv_value_change : has_value_change s = (selected_boxes_value s >? target_balance);
  inv_token_change : has_token_change s = false -> forall id, id ∈ (token_id <$> box_tokens (selected_inputs s)) ->
    exists l, wanted !! id = Some l /\ amount_of id (box_tokens (selected_inputs s)) <= l;
  inv_change : skipped <> [] -> target_balance <= selected_boxes_value s /\
    (has_value_change s || has_token_change s = true -> target_balance + BOX_MIN_RAW <= selected_boxes_value s)
}.

Lemma inv_start : loop_inv (mkState [] 0 wanted false false) [] [].
Proof.
  apply andb_true_iff in Hbalance as [Hb _]. apply Z.geb_le in Hb. unfold BOX_MIN_RAW, MIN_VALUE_PER_BOX_BYTE, MIN_BOX_SIZE_BYTES in Hb. split; cbn; try done.
  - intros id. symmetry. apply less_0. intros i l ?%Hwanted. lia.
  - intros b t ?%elem_of_nil. done.
  - destruct (Z.gtb_spec 0 target_balance); [|done]. lia.
  - intros _ id ?%elem_of_nil. done.
Qed.

Lemma left_positive s processed skipped : loop_inv s processed skipped -> positive_map (target_tokens_left s).
Proof. intros H id l. rewrite (inv_left _ _ _ H). intros (l' & _ & ? & ->)%less_Some. lia. Qed.

Lemma has_target_token_false left_tokens (b : T) t :
  has_target_token left_tokens b = false -> t ∈ default [] (tokens b) -> left_tokens !! token_id t = None.
Proof.
  unfold has_target_token. intros H Ht. apply list_elem_of_In in Ht. destruct (left_tokens !! token_id t) eqn:E; [|done].
  assert (existsb (fun t => bool_decide (is_Some (left_tokens !! token_id t))) (default [] (tokens b)) = true) as H'; [|congruence].
  apply existsb_exists. exists t. split; [done|]. rewrite E. by apply bool_decide_eq_true.
Qed.

(** A box that is not needed. *)
Lemma skip_inv s processed skipped b :
  loop_inv s processed skipped -> is_needed target_balance s b = false -> loop_inv s (processed ++ [b]) (skipped ++ [b]).
Proof.
  intros H Hn. unfold is_needed in Hn. apply orb_false_iff in Hn as [[H1 H2]%orb_false_iff H3].
  destruct H as [Hp Ha Hv Hl Hs Hvc Htc Hc]. split; try done.
  - by rewrite <- Hp, app_assoc.
  - intros b' t [Hb| ->%list_elem_of_singleton]%elem_of_app Ht; [by eapply Hs|].
    apply andb_false_iff in H3 as [H3|H3]; [|by eapply has_target_token_false].
    destruct (bool_decide_reflect (target_tokens_left s = ∅)) as [->|]; [apply lookup_empty|done].
  - intros _. destruct (Z.gtb_spec target_balance (selected_boxes_value s)); [done|]. split; [lia|]. intros Hch.
    rewrite Hch in H2. cbn [andb] in H2. destruct (Z.ltb_spec (Z.max (selected_boxes_value s - target_balance) 0) SAFE_USER_MIN); [done|].
    unfold SAFE_USER_MIN, BOX_MIN_RAW, MIN_VALUE_PER_BOX_BYTE, MIN_BOX_SIZE_BYTES in *. lia.
Qed.

(** A box that is selected. *)
Lemma select_inv s processed skipped b left_tokens sel :
  loop_inv s processed skipped -> within_bounds (value b) = true -> Forall (fun t => 0 < amount t) (default [] (tokens b)) ->
  take_tokens (target_tokens_left s) ∅ (default [] (tokens b)) = Ok (left_tokens, sel) ->
  loop_inv (mkState (selected_inputs s ++ [b]) (selected_boxes_value s + value b) left_tokens
      (if selected_boxes_value s + value b >? target_balance then true else has_value_change s)
      (if bool_decide (tally ∅ (default [] (tokens b)) = sel) then has_token_change s else true))
    (processed ++ [b]) skipped.
Proof.
  intros H Hval Hpos Htake. assert (amounts_wf (default [] (tokens b))) as Hwf by by apply amounts_positive_wf.
  pose proof (left_positive _ _ _ H) as Hlp. pose proof (take_tokens_left _ _ _ _ _ Hlp Hwf Htake) as Hleft.
  assert (box_tokens [b] = default [] (tokens b)) as Hb by apply app_nil_r.
  pose proof (fun id => take_tokens_selected _ _ _ _ _ id Hlp Hwf Htake) as Hsel.
  unfold within_bounds in Hval. apply andb_true_iff in Hval as [Hv1%Z.geb_le _].
  destruct H as [Hp Ha Hv Hl Hs Hvc Htc Hc]. split; cbn [selected_inputs selected_boxes_value target_tokens_left has_value_change has_token_change].
  - rewrite <- Hp, <- !app_assoc. apply Permutation_app_head, Permutation_app_comm.
  - rewrite box_tokens_app, Hb. by apply Forall_app.
  - rewrite total_value_app, Hv. cbn. lia.
  - intros id. rewrite Hleft, Hl, box_tokens_app, Hb, amount_of_app. apply less_less; apply amount_of_nonneg; [|done].
    by apply amounts_positive_wf.
  - intros b' t Hb' Ht. rewrite Hleft, (Hs b' t Hb' Ht). done.
  - rewrite Hvc. unfold BOX_MIN_RAW, MIN_VALUE_PER_BOX_BYTE, MIN_BOX_SIZE_BYTES in *.
    destruct (Z.gtb_spec (selected_boxes_value s + value b) target_balance); [done|].
    destruct (Z.gtb_spec (selected_boxes_value s) target_balance); [lia|done].
  - destruct (bool_decide_reflect (tally ∅ (default [] (tokens b)) = sel)) as [E|]; [|done]. intros Hf id.
    rewrite box_tokens_app, Hb, fmap_app, elem_of_app, amount_of_app. intros Hin.
    pose proof (f_equal (.!! id) E) as Eid. cbn in Eid. rewrite tally_empty, Hsel, lookup_empty, Hl in Eid.
    destruct (decide (id ∈ token_id <$> default [] (tokens b))) as [Hin'|Hin'].
    + destruct (less _ _) as [r|] eqn:Er; [|done]. apply less_Some in Er as (l & Hw & ? & ->). cbn in Eid. injection Eid as Eid.
      exists l. split; [done|]. lia.
    + destruct Hin as [Hin|]; [|done]. rewrite (amount_of_notin id _ Hin'), Z.add_0_r. by apply Htc.
  - intros Hsk. destruct (Hc Hsk) as [H1 _]. unfold BOX_MIN_RAW, MIN_VALUE_PER_BOX_BYTE, MIN_BOX_SIZE_BYTES in *. split; [lia|]. intros _. lia.
Qed.

(** The loop over the rest [bs] of [inputs], all of whose sums fit. *)
Context (inputs : list T) (Hvalues : Forall (fun b => within_bounds (value b) = true) inputs).
Context (Htotal : total_value inputs <= BOX_MAX_RAW).
Context (Hamounts : Forall (fun t => 0 < amount t) (box_tokens inputs)) (Hsums : sums_fit (box_tokens inputs)).

Lemma bounds_value (b : T) : within_bounds (value b) = true -> 0 < BOX_MIN_RAW <= value b.
Proof. by intros [? _]%bounds_Z. Qed.

Lemma total_value_nonneg (bs : list T) : Forall (fun b => within_bounds (value b) = true) bs -> 0 <= total_value bs.
Proof. induction 1 as [|b bs Hb%bounds_value _ IH]; cbn; lia. Qed.

(** Part of the inputs. *)
Lemma part_fits (bs cs : list T) : bs ++ cs ≡ₚ inputs ->
  0 <= total_value bs <= total_value inputs /\ (forall id, 0 <= amount_of id (box_tokens bs) <= amount_of id (box_tokens inputs)) /\
  Forall (fun t => 0 < amount t) (box_tokens bs) /\ Forall (fun b => within_bounds (value b) = true) bs.
Proof using Hvalues Hamounts.
  clear Htotal Hsums. intros E. revert Hvalues Hamounts. rewrite <- E, box_tokens_app, total_value_app.
  intros [Hv1 Hv2]%Forall_app [Ha1 Ha2]%Forall_app.
  pose proof (total_value_nonneg bs Hv1). pose proof (total_value_nonneg cs Hv2). split_and!; [lia|lia| |done|done].
  intros id. pose proof (amount_of_nonneg id _ (amounts_positive_wf _ Ha1)).
  pose proof (amount_of_nonneg id _ (amounts_positive_wf _ Ha2)).
  rewrite <- E, box_tokens_app, amount_of_app. lia.
Qed.

Lemma select_box_inv s processed skipped b bs :
  loop_inv s processed skipped -> processed ++ b :: bs ≡ₚ inputs ->
  exists s' skipped', select_box target_balance s b = Ok s' /\ loop_inv s' (processed ++ [b]) skipped'.
Proof.
  intros H E. unfold BOX_MAX_RAW in Htotal. unfold select_box. destruct (is_needed target_balance s b) eqn:Hn; [|by do 2 eexists; split; [|by apply skip_inv]].
  assert ((selected_inputs s ++ [b]) ++ skipped ++ bs ≡ₚ inputs) as E'.
  { rewrite <- E, <- (inv_perm _ _ _ H). rewrite <- !app_assoc. apply Permutation_app_head. rewrite app_assoc.
    change (b :: bs) with ([b] ++ bs). rewrite app_assoc. apply Permutation_app_tail, Permutation_app_comm. }
  assert ([b] ++ (selected_inputs s ++ skipped ++ bs) ≡ₚ inputs) as E1.
  { rewrite <- E', <- (app_assoc (selected_inputs s)). rewrite Permutation_app_swap_app. done. }
  destruct (part_fits _ _ E') as (Ht & _ & _ & _). destruct (part_fits _ _ E1) as (_ & Ham & Hap & Hvb).
  rewrite total_value_app, <- (inv_value _ _ _ H) in Ht. cbn in Ht. rewrite Z.add_0_r in Ht.
  assert (box_tokens [b] = default [] (tokens b)) as Hb by apply app_nil_r. rewrite Hb in *.
  apply Forall_cons_1 in Hvb as [Hvb _].
  unfold checked_u64. destruct (Z.leb_spec 0 (selected_boxes_value s + value b)), (Z.ltb_spec (selected_boxes_value s + value b) (2 ^ 64)); try lia.
  cbn [andb unwrap ok_or mbind result_bind].
  assert (amounts_wf (default [] (tokens b))) as Hwf by by apply amounts_positive_wf.
  destruct (take_tokens_fits (target_tokens_left s) ∅ (default [] (tokens b))) as (lt & sel & Htake); [exact (left_positive _ _ _ H)|done| |].
  { intros id l. rewrite (inv_left _ _ _ H), lookup_empty. intros (l' & Hl' & ? & ->)%less_Some. apply Hwanted in Hl'. cbn.
    assert (0 <= amount_of id (box_tokens (selected_inputs s))); [|lia].
    by apply amount_of_nonneg, amounts_positive_wf, (inv_amounts _ _ _ H). }
  rewrite Htake. cbn [mbind result_bind]. rewrite sum_tokens_fits; [|done|intros id; pose proof (Hsums id); pose proof (Ham id); lia].
  cbn [result_map_err mbind result_bind]. do 2 eexists. split; [reflexivity|]. by apply select_inv.
Qed.

Lemma select_loop_inv bs : forall s processed skipped,
  loop_inv s processed skipped -> processed ++ bs ≡ₚ inputs ->
  exists s' skipped', select_loop target_balance s bs = Ok s' /\ loop_inv s' inputs skipped'.
Proof.
  induction bs as [|b bs IH]; intros s processed skipped H E; cbn [select_loop].
  - exists s, skipped. split; [done|]. destruct H. split; try done. rewrite app_nil_r in E. by rewrite <- E.
  - destruct (select_box_inv _ _ _ _ _ H E) as (s' & sk' & -> & H'). cbn [mbind result_bind]. apply (IH s' (processed ++ [b]) sk'); [done|].
    by rewrite <- app_assoc.
Qed.
End loop.

(** * The change *)

Section change.
Context {Hash : HashOrder}.

Lemma tally_map_to_list (m : TokenMap) : tally ∅ (token_of <$> map_to_list m) = m.
Proof.
  induction m as [|i x m Hi IH] using map_ind; [done|].
  rewrite (tally_perm _ _ ((token_of <$> map_to_list m) ++ [token_of (i, x)])).
  - rewrite tally_app, IH. unfold tally, merge_token. cbn. by rewrite Hi.
  - rewrite map_to_list_insert by done. cbn. apply Permutation_cons_append.
Qed.

Lemma tally_hash_iter (m : TokenMap) : tally ∅ (token_of <$> hash_iter m) = m.
Proof. rewrite (tally_perm _ _ (token_of <$> map_to_list m)) by by rewrite hash_iter_perm. apply tally_map_to_list. Qed.

(** The tokens of a map. *)
Lemma hash_iter_amount (m : TokenMap) id : amount_of id (token_of <$> hash_iter m) = default 0 (m !! id).
Proof.
  rewrite <- (tally_hash_iter m) at 2. rewrite tally_empty. destruct (decide _); [done|]. by apply amount_of_notin.
Qed.

Lemma hash_iter_in (m : TokenMap) id : id ∈ (token_id <$> (token_of <$> hash_iter m)) <-> is_Some (m !! id).
Proof.
  rewrite <- (tally_hash_iter m) at 2. rewrite tally_empty. destruct (decide _); [done|].
  split; [done|by intros [? ?]].
Qed.

Lemma hash_iter_positive (m : TokenMap) : positive_map m -> Forall (fun t => 0 < amount t) (token_of <$> hash_iter m).
Proof.
  intros Hm. apply Forall_fmap, Forall_forall. intros [id l] Hin. rewrite hash_iter_perm in Hin.
  apply elem_of_map_to_list in Hin. by apply (Hm id).
Qed.

Lemma hash_iter_length (m : TokenMap) : length (token_of <$> hash_iter m) = size m.
Proof. by rewrite length_fmap, hash_iter_perm, length_map_to_list. Qed.

Lemma change_token_less c t l :
  c !! token_id t = Some l -> 0 < amount t <= l -> l <= AMOUNT_MAX_RAW -> positive_map c ->
  exists c', change_token c t = Ok c' /\ forall id, c' !! id = less (c !! id) (of_token id t).
Proof.
  intros Hl Ht Hmax Hc. unfold change_token, AMOUNT_MAX_RAW in *. rewrite Hl. destruct (Z.eqb_spec l (amount t)).
  - eexists. split; [done|]. intros id. unfold of_token. destruct (decide _) as [<-|]; [|by rewrite lookup_delete_ne, less_0].
    rewrite lookup_delete_eq, Hl. unfold less. cbn. by destruct (Z.ltb_spec (amount t) l); [lia|].
  - destruct (Z.gtb_spec l (amount t)); [|lia]. unfold amount_checked_sub, checked_u64, AMOUNT_MIN_RAW.
    destruct (Z.leb_spec 0 (l - amount t)), (Z.ltb_spec (l - amount t) (2 ^ 64)); try lia. cbn.
    destruct (Z.ltb_spec (l - amount t) 1); [lia|]. cbn. eexists. split; [done|].
    intros id. unfold of_token. destruct (decide _) as [<-|]; [|by rewrite lookup_insert_ne, less_0].
    rewrite lookup_insert_eq, Hl. unfold less. cbn. by destruct (Z.ltb_spec (amount t) l); [|lia].
Qed.

Lemma change_loop_less ts : forall c,
  Forall (fun t => 0 < amount t) ts -> positive_map c -> (forall id l, c !! id = Some l -> l <= AMOUNT_MAX_RAW) ->
  (forall id, id ∈ (token_id <$> ts) -> exists l, c !! id = Some l /\ amount_of id ts <= l) ->
  exists c', change_loop c ts = Ok c' /\ forall id, c' !! id = less (c !! id) (amount_of id ts).
Proof.
  induction ts as [|t ts IH]; intros c Hts Hc Hmax Hin; cbn [change_loop].
  { exists c. split; [done|]. intros id. by rewrite less_0. }
  apply Forall_cons_1 in Hts as [Ht Hts]. destruct (Hin (token_id t)) as (l & Hl & Hle); [by left|].
  cbn in Hle. rewrite decide_True in Hle by done.
  pose proof (amounts_positive_wf _ Hts) as Hwf. pose proof (amount_of_nonneg (token_id t) _ Hwf).
  destruct (change_token_less c t l) as (c1 & -> & Hc1); [done|lia|by eapply Hmax|done|]. cbn [mbind result_bind].
  destruct (IH c1) as (c2 & -> & Hc2); [done|exact (less_positive _ _ (fun id => of_token id t) Hc Hc1)| | |].
  - intros id r. rewrite Hc1. intros (l' & Hl'%Hmax & ? & ->)%less_Some. unfold of_token in *. destruct (decide _); lia.
  - intros id Hid. rewrite Hc1. destruct (Hin id) as (l' & Hl' & Hle'); [by right|]. cbn in Hle'. fold (of_token id t) in Hle'.
    rewrite Hl'. unfold less. cbn. apply (amount_of_in _ _ Hts) in Hid. destruct (Z.ltb_spec (of_token id t) l'); [|lia].
    eexists. split; [done|]. lia.
  - exists c2. split; [done|]. intros id. rewrite Hc2, Hc1. cbn [amount_of]. fold (of_token id t). apply less_less; [|by apply amount_of_nonneg].
    apply of_token_nonneg. lia.
Qed.

(** Boxes of change: what they hold together, and their bounds. *)
Definition change_of (v : Z) (ts : list Token) (bs : list ErgoBoxAssetsData) : Prop :=
  total_value bs = v /\ box_tokens bs ≡ₚ ts /\
  Forall (fun b => within_bounds (assets_value b) = true /\ (length (default [] (assets_tokens b)) <= MAX_TOKENS_PER_CHANGE_BOX)%nat) bs.

Lemma from_vec_Some ts : (1 <= length ts <= MAX_TOKENS_PER_CHANGE_BOX)%nat -> box_tokens_from_vec ts = Some ts.
Proof.
  unfold box_tokens_from_vec, MAX_TOKENS_COUNT, MAX_TOKENS_PER_CHANGE_BOX. intros H.
  by destruct (Nat.leb_spec 1 (length ts)), (Nat.leb_spec (length ts) 255); try lia.
Qed.

Lemma change_of_single v o : within_bounds v = true -> (length (default [] o) <= MAX_TOKENS_PER_CHANGE_BOX)%nat ->
  change_of v (default [] o) [mkAssets v o].
Proof. intros H1 H2. split_and!; cbn; [lia|by rewrite app_nil_r|by apply Forall_singleton]. Qed.

Lemma split_loop_spec fuel : forall ts v, within_bounds v = true -> ts <> [] -> (length ts < fuel)%nat ->
  match split_loop fuel ts v with
  | Ok bs => change_of v ts bs
  | Err e => exists e', e = NotEnoughCoinsForChange e' /\ (MAX_TOKENS_PER_CHANGE_BOX < length ts)%nat
  end.
Proof.
  induction fuel as [|fuel IH]; intros ts v Hv Hts Hf; [lia|]. cbn [split_loop].
  destruct (Nat.eqb_spec (length ts) 0) as [?%nil_length_inv|Hne]; [done|].
  destruct (Nat.leb_spec (length ts) MAX_TOKENS_PER_CHANGE_BOX) as [Hle|Hgt].
  { rewrite from_vec_Some by lia. cbn. by apply (change_of_single v (Some ts)). }
  assert (length (take MAX_TOKENS_PER_CHANGE_BOX ts) = MAX_TOKENS_PER_CHANGE_BOX) as Hlen by (rewrite length_take; lia).
  rewrite from_vec_Some by (rewrite Hlen; unfold MAX_TOKENS_PER_CHANGE_BOX; lia).
  change (box_checked_mul_u32 SAFE_USER_MIN 2) with (@Ok BoxValueError Z 2000000). cbn [result_map_err unwrap ok_or mbind result_bind].
  destruct (box_checked_sub v 2000000) as [w|e] eqn:Ew; cbn; [|eexists; by split].
  assert (w = v - 2000000 /\ within_bounds w = true) as [-> Hw].
  { unfold box_checked_sub, checked_u64 in Ew. destruct (_ && _); cbn in Ew; [|done]. destruct (Z.ltb_spec (v - 2000000) BOX_MIN_RAW); [done|].
    injection Ew as <-. split; [done|]. apply andb_true_iff in Hv as [_ Hv%Z.leb_le]. unfold within_bounds. apply andb_true_iff. split; [apply Z.geb_le|apply Z.leb_le]; lia. }
  specialize (IH (drop MAX_TOKENS_PER_CHANGE_BOX ts) (v - 2000000) Hw).
  assert (length (drop MAX_TOKENS_PER_CHANGE_BOX ts) = length ts - MAX_TOKENS_PER_CHANGE_BOX)%nat as Hd by apply length_drop.
  assert (0 < MAX_TOKENS_PER_CHANGE_BOX)%nat by (unfold MAX_TOKENS_PER_CHANGE_BOX; lia).
  destruct (split_loop fuel _ _) as [bs|e]; cbn.
  - destruct IH as (H1 & H2 & H3); [intros E; rewrite E in Hd; cbn in Hd; lia|lia|]. split_and!.
    + cbn. lia.
    + rewrite box_tokens_cons, H2. cbn. by rewrite take_drop.
    + constructor; [|done]. split; [done|]. change (length (take MAX_TOKENS_PER_CHANGE_BOX ts) <= MAX_TOKENS_PER_CHANGE_BOX)%nat. lia.
  - destruct IH as (e' & -> & _); [intros E; rewrite E in Hd; cbn in Hd; lia|lia|]. eexists. by split.
Qed.

Lemma make_change_boxes_spec (v : Z) (ct : TokenMap) : within_bounds v = true ->
  match make_change_boxes v ct with
  | Ok bs => change_of v (token_of <$> hash_iter ct) bs
  | Err e => exists e', e = NotEnoughCoinsForChange e' /\ (MAX_TOKENS_PER_CHANGE_BOX < size ct)%nat
  end.
Proof.
  intros Hv. unfold make_change_boxes. pose proof (hash_iter_length ct) as Hlen.
  destruct (bool_decide_reflect (ct = ∅)) as [->|Hne].
  - destruct (hash_iter ∅) eqn:E; [by apply (change_of_single v None); [|cbn; lia]|]. rewrite map_size_empty in Hlen. done.
  - assert (size ct <> 0%nat) by (by intros ?%map_size_empty_inv). generalize dependent (token_of <$> hash_iter ct). intros ts Hlen.
    destruct (Nat.leb_spec (size ct) MAX_TOKENS_PER_CHANGE_BOX) as [Hle|Hgt].
    + rewrite from_vec_Some by lia. apply (change_of_single v (Some ts)); [done|]. change (length ts <= MAX_TOKENS_PER_CHANGE_BOX)%nat. lia.
    + pose proof (split_loop_spec (S (length ts)) ts v Hv) as Hs.
      rewrite Hlen in Hs |- *. apply Hs; [intros E; rewrite E in Hlen; cbn in Hlen; lia|lia].
Qed.
End change.

(** * The selector's result *)

Section result.
Context {T : Type} `{!ErgoBoxAssets T} {Hash : HashOrder}.

(** The change [ct] and the target make up what was selected. *)
Lemma outputs_tally (ct target : TokenMap) (sel target_tokens : list Token) :
  Forall (fun t => 0 < amount t) sel -> target = tally ∅ target_tokens -> Forall (fun t => 0 < amount t) target_tokens ->
  (forall id, ct !! id = less (tally ∅ sel !! id) (amount_of id target_tokens)) ->
  (forall id, amount_of id target_tokens <= amount_of id sel) ->
  (forall id, amount_of id (token_of <$> hash_iter ct ++ hash_iter target) = amount_of id sel) /\
  tally ∅ (token_of <$> hash_iter ct ++ hash_iter target) = tally ∅ sel.
Proof.
  intros Hsel -> Htgt Hct Hle.
  assert (forall id, amount_of id (token_of <$> hash_iter ct ++ hash_iter (tally ∅ target_tokens)) = amount_of id sel) as Ha.
  { intros id. rewrite fmap_app, amount_of_app, !hash_iter_amount, Hct, !tally_empty. pose proof (Hle id).
    pose proof (amount_of_nonneg id _ (amounts_positive_wf _ Htgt)).
    assert (default 0 (if decide (id ∈ token_id <$> target_tokens) then Some (amount_of id target_tokens) else None) = amount_of id target_tokens) as ->.
    { destruct (decide _); [done|]. by rewrite amount_of_notin. }
    destruct (decide (id ∈ token_id <$> sel)) as [Hin|Hin]; [|rewrite (amount_of_notin id sel Hin) in *; cbn; lia].
    unfold less. cbn. destruct (Z.ltb_spec (amount_of id target_tokens) (amount_of id sel)); cbn; lia. }
  split; [done|]. apply tally_eq; [|done]. intros id.
  rewrite fmap_app, fmap_app, elem_of_app, !hash_iter_in, Hct, !tally_empty. pose proof (Hle id).
  pose proof (proj2 (amount_of_in id sel Hsel)) as Hs. pose proof (proj2 (amount_of_in id target_tokens Htgt)) as Ht.
  destruct (decide (id ∈ token_id <$> sel)) as [Hin|Hin]; [specialize (Hs Hin)|rewrite (amount_of_notin _ _ Hin) in *];
    (destruct (decide (id ∈ token_id <$> target_tokens)) as [Hin'|Hin']; [specialize (Ht Hin')|rewrite (amount_of_notin _ _ Hin') in *]);
    try lia; unfold less; cbn [mbind option_bind].
  - split; [intros _; done|intros _; by right; eexists].
  - destruct (Z.ltb_spec 0 (amount_of id sel)); [|lia]. split; [done|intros _; by left; eexists].
  - split; [intros [[? ?]|[? ?]]|]; done.
Qed.

Lemma checked_u64_id z : 0 <= z < 2 ^ 64 -> checked_u64 z = Some z.
Proof. intros H. unfold checked_u64. by destruct (Z.leb_spec 0 z), (Z.ltb_spec z (2 ^ 64)); try lia. Qed.

(** The final check passes. *)
Lemma preservation_holds (selected : list T) (change : list ErgoBoxAssetsData) (ct : TokenMap) target_balance target_tokens :
  0 <= target_balance -> Forall (fun b => 0 <= value b) selected -> Forall (fun b => 0 <= assets_value b) change ->
  total_value selected <= BOX_MAX_RAW -> total_value selected = total_value change + target_balance ->
  Forall (fun t => 0 < amount t) (box_tokens selected) -> sums_fit (box_tokens selected) ->
  Forall (fun t => 0 < amount t) target_tokens -> sums_fit target_tokens ->
  box_tokens change ≡ₚ token_of <$> hash_iter ct ->
  (forall id, ct !! id = less (tally ∅ (box_tokens selected) !! id) (amount_of id target_tokens)) ->
  (forall id, amount_of id target_tokens <= amount_of id (box_tokens selected)) ->
  check_input_preservation selected change target_balance target_tokens = Ok tt.
Proof.
  intros Htb Hsv Hcv Hmax Hval Hsel Hsels Htgt Htgts Hch Hct Hle. unfold BOX_MAX_RAW in Hmax.
  destruct (outputs_tally ct _ _ _ Hsel eq_refl Htgt Hct Hle) as [Ha Ht].
  assert (0 <= total_value change) by (clear -Hcv; induction Hcv; cbn in *; lia).
  assert (positive_map ct) as Hctp by (intros id l; rewrite Hct; intros (l' & _ & ? & ->)%less_Some; lia).
  assert (amounts_wf (token_of <$> hash_iter ct)) as Hcw by by apply amounts_positive_wf, hash_iter_positive.
  assert (tally ∅ (box_tokens change) = ct) as Hcht by (rewrite (tally_perm _ _ _ Hch); apply tally_hash_iter).
  unfold check_input_preservation. rewrite !sum_value_fits by (done || lia). cbn [unwrap ok_or mbind result_bind].
  rewrite checked_u64_id by lia. cbn [ok_or unwrap mbind result_bind]. rewrite Hval, Z.eqb_refl. cbn [negb].
  rewrite (sum_tokens_from_boxes_fits selected) by (try apply amounts_positive_wf; done). cbn [preservation result_map_err mbind result_bind].
  rewrite sum_tokens_from_boxes_fits; [|by rewrite Hch|].
  2: { intros id. rewrite Hch. pose proof (Ha id) as Hid. rewrite fmap_app, amount_of_app in Hid.
       assert (0 <= amount_of id (token_of <$> hash_iter (tally ∅ target_tokens))) by (rewrite hash_iter_amount, tally_empty;
         destruct (decide _); cbn; [apply amount_of_nonneg, amounts_positive_wf|]; done).
       pose proof (Hsels id). lia. }
  cbn [preservation result_map_err mbind result_bind].
  rewrite sum_tokens_fits by (try apply amounts_positive_wf; done). change (default [] (Some target_tokens)) with target_tokens. cbn [preservation result_map_err mbind result_bind].
  rewrite Hcht. unfold sum_tokens_from_hashmaps. rewrite add_tokens_fits.
  - cbn [preservation result_map_err mbind result_bind]. rewrite Ht. by rewrite bool_decide_eq_true_2.
  - intros id. by rewrite lookup_empty.
  - rewrite fmap_app. apply Forall_app. split; [done|]. apply Forall_fmap, Forall_forall. intros [id l] Hin.
    rewrite hash_iter_perm in Hin. apply elem_of_map_to_list in Hin.
    rewrite tally_empty in Hin. destruct (decide _); simplify_eq. by apply amount_of_nonneg, amounts_positive_wf.
  - intros id. rewrite lookup_empty. cbn. pose proof (Ha id) as Hid. rewrite Hid. pose proof (Hsels id). lia.
Qed.

Context (inputs : list T) (target_balance : Z) (target_tokens : list Token).
Abbreviation wanted := (tally ∅ target_tokens).
Abbreviation inv := (loop_inv target_balance wanted).

Lemma wanted_bounds : selection_wf inputs target_balance target_tokens ->
  forall id l, wanted !! id = Some l -> 0 < l <= AMOUNT_MAX_RAW.
Proof.
  intros Hwf id l. rewrite tally_empty. destruct (decide _) as [Hin|]; [|done]. intros [= <-].
  split; [by apply amount_of_in; [apply Hwf|]|apply Hwf].
Qed.

Lemma select_run : selection_wf inputs target_balance target_tokens ->
  sum_tokens (Some target_tokens) = Ok wanted /\
  exists s skipped,
    select_loop target_balance (mkState [] 0 wanted false false) (rev (sort_by (target_tokens_count wanted) inputs)) = Ok s /\
    inv s inputs skipped.
Proof.
  intros Hwf. pose proof (wanted_bounds Hwf) as Hw. destruct Hwf as [Hv Hb Ht Ha Hta Hs Hts]. split.
  - apply sum_tokens_fits; [by apply amounts_positive_wf|done].
  - apply (select_loop_inv target_balance wanted Hw inputs Hv Ht Ha Hs _ _ [] []); [by apply inv_start|].
    cbn. rewrite Permutation_rev, rev_involutive. apply sort_by_perm.
Qed.

Section final.
Context (Hwf : selection_wf inputs target_balance target_tokens) (s : state (T := T)) (skipped : list T) (Hinv : inv s inputs skipped).
Abbreviation have := (fun id => amount_of id (box_tokens inputs)).
Abbreviation got := (fun id => amount_of id (box_tokens (selected_inputs s))).
Abbreviation want := (fun id => amount_of id target_tokens).

Lemma selected_part :
  total_value inputs = selected_boxes_value s + total_value skipped /\ 0 <= selected_boxes_value s /\ 0 <= total_value skipped /\
  (forall id, 0 <= got id <= have id) /\ Forall (fun b => within_bounds (value b) = true) (selected_inputs s).
Proof.
  pose proof (inv_perm _ _ _ _ _ Hinv) as Hp. rewrite (inv_value _ _ _ _ _ Hinv).
  destruct (part_fits inputs (wf_values _ _ _ Hwf) (wf_amounts _ _ _ Hwf) _ _ Hp) as (? & ? & _ & ?).
  rewrite (Permutation_app_comm) in Hp.
  destruct (part_fits inputs (wf_values _ _ _ Hwf) (wf_amounts _ _ _ Hwf) _ _ Hp) as (? & _).
  rewrite <- Hp, total_value_app at 1. split_and!; try done; lia.
Qed.

(** What is left of a token is what the inputs lack of it. *)
Lemma left_missing id : target_tokens_left s !! id = if have id <? want id then Some (want id - have id) else None.
Proof.
  pose proof selected_part as (_ & _ & _ & Hg & _). pose proof (inv_left _ _ _ _ _ Hinv id) as Hl.
  pose proof (amount_of_nonneg id _ (amounts_positive_wf _ (wf_target_amounts _ _ _ Hwf))) as Hw0.
  rewrite Hl, tally_empty. unfold less.
  destruct (decide (id ∈ token_id <$> target_tokens)) as [Hin|Hin]; cbn [mbind option_bind].
  2: { rewrite (amount_of_notin _ _ Hin). pose proof (Hg id). cbn beta in *. destruct (Z.ltb_spec (have id) 0); [lia|done]. }
  destruct (Z.ltb_spec (got id) (want id)) as [Hlt|Hge].
  - assert (have id = got id) as E.
    { cbn beta. rewrite <- (inv_perm _ _ _ _ _ Hinv), box_tokens_app, amount_of_app.
      rewrite (amount_of_notin id (box_tokens skipped)); [lia|]. intros (t & -> & Ht)%list_elem_of_fmap_1.
      unfold box_tokens in Ht. apply list_elem_of_bind in Ht as (b & Ht & Hb).
      pose proof (inv_skipped _ _ _ _ _ Hinv b t Hb Ht) as Hn. rewrite Hl, tally_empty, decide_True in Hn by done.
      unfold less in Hn. cbn in Hn. destruct (Z.ltb_spec (got (token_id t)) (want (token_id t))); [done|]. cbn beta in *. lia. }
    cbn beta in *. rewrite E. by destruct (Z.ltb_spec (got id) (want id)); [|lia].
  - pose proof (Hg id). cbn beta in *. destruct (Z.ltb_spec (have id) (want id)); [lia|done].
Qed.

Lemma value_missing : selected_boxes_value s < target_balance -> selected_boxes_value s = total_value inputs.
Proof.
  intros Hlt. pose proof selected_part as (Ht & _). destruct skipped as [|b bs] eqn:E; [cbn in Ht; lia|].
  destruct (inv_change _ _ _ _ _ Hinv); [done|]. lia.
Qed.

(** The tokens of the change are some of those of the inputs. *)
Lemma change_size (ct : TokenMap) :
  (forall id, ct !! id = less (tally ∅ (box_tokens (selected_inputs s)) !! id) (want id)) ->
  (size ct <= size (tally ∅ (box_tokens inputs)))%nat.
Proof.
  intros Hct. rewrite <- !size_dom. apply subseteq_size. intros id. rewrite !elem_of_dom, Hct. intros [l (l' & Hl & _)%less_Some].
  rewrite tally_empty in Hl |- *. destruct (decide (id ∈ _ <$> box_tokens (selected_inputs s))) as [Hin|]; [|done].
  rewrite decide_True; [by eexists|]. rewrite <- (inv_perm _ _ _ _ _ Hinv), box_tokens_app, fmap_app, elem_of_app. by left.
Qed.

Lemma got_enough : (forall id, want id <= have id) -> forall id, want id <= got id.
Proof.
  intros Hen id. pose proof (left_missing id) as Hl. rewrite (inv_left _ _ _ _ _ Hinv id), tally_empty in Hl. pose proof (Hen id).
  cbn beta in *. destruct (Z.ltb_spec (have id) (want id)); [lia|]. unfold less in Hl.
  destruct (decide (id ∈ token_id <$> target_tokens)) as [Hin|Hin]; cbn in Hl.
  - destruct (Z.ltb_spec (got id) (want id)); [done|]. cbn beta in *. lia.
  - rewrite (amount_of_notin _ _ Hin). apply selected_part.
Qed.

(** The check passes for any boxes with the change's value and tokens. *)
Lemma final_check (ct : TokenMap) change :
  (forall id, want id <= got id) -> (forall id, ct !! id = less (tally ∅ (box_tokens (selected_inputs s)) !! id) (want id)) ->
  box_tokens change ≡ₚ token_of <$> hash_iter ct -> total_value change = selected_boxes_value s - target_balance ->
  Forall (fun b => 0 <= assets_value b) change ->
  check_input_preservation (selected_inputs s) change target_balance target_tokens = Ok tt.
Proof.
  intros Hen Hct Hch Hval Hcv. pose proof selected_part as (Ht & Hs0 & Hsk0 & Hg & Hvs). rewrite (inv_value _ _ _ _ _ Hinv) in *.
  pose proof (bounds_Z _ (wf_balance _ _ _ Hwf)). pose proof (wf_total _ _ _ Hwf).
  apply (preservation_holds _ _ ct); try done; try apply Hwf; try lia.
  - apply (Forall_impl _ _ _ Hvs). intros b ?%bounds_Z. lia.
  - apply (inv_amounts _ _ _ _ _ Hinv).
  - intros id. pose proof (wf_sums _ _ _ Hwf id). pose proof (Hg id). cbn beta in *. lia.
Qed.

(** No change: the inputs are exactly what was wanted. *)
Lemma no_change : target_balance <= selected_boxes_value s -> (forall id, want id <= got id) ->
  has_value_change s = false -> has_token_change s = false ->
  check_input_preservation (selected_inputs s) [] target_balance target_tokens = Ok tt.
Proof.
  intros Hge Hen Hvc Htc. rewrite (inv_value_change _ _ _ _ _ Hinv) in Hvc. apply (final_check ∅); try done.
  - intros id. rewrite lookup_empty, tally_empty. pose proof (Hen id). cbn beta in *.
    destruct (decide _) as [Hin|]; [|done]. destruct (inv_token_change _ _ _ _ _ Hinv Htc id Hin) as (l & Hl & Hle).
    rewrite tally_empty in Hl. destruct (decide _); [|done]. injection Hl as <-. unfold less. cbn.
    by destruct (Z.ltb_spec (want id) (got id)); [lia|].
  - destruct (hash_iter ∅) as [|p l] eqn:E; [done|]. pose proof (hash_iter_length ∅) as Hlen. by rewrite E, map_size_empty in Hlen.
  - cbn. destruct (Z.gtb_spec (selected_boxes_value s) target_balance); [done|]. lia.
Qed.

(** The tokens of the change. *)
Lemma change_tokens_spec : (forall id, want id <= got id) ->
  exists ct, change_loop (tally ∅ (box_tokens (selected_inputs s))) target_tokens = Ok ct /\
    forall id, ct !! id = less (tally ∅ (box_tokens (selected_inputs s)) !! id) (want id).
Proof.
  intros Hen. pose proof selected_part as (_ & _ & _ & Hg & _). pose proof (inv_amounts _ _ _ _ _ Hinv) as Hpos.
  pose proof (wf_target_amounts _ _ _ Hwf) as Hta. apply change_loop_less; [done| | |].
  - intros id l. rewrite tally_empty. destruct (decide _) as [Hin|]; [|done]. intros [= <-]. by apply amount_of_in.
  - intros id l. rewrite tally_empty. destruct (decide _) as [Hin|]; [|done]. intros [= <-].
    pose proof (wf_sums _ _ _ Hwf id). pose proof (Hg id). cbn beta in *. lia.
  - intros id Hin%amount_of_in; [|done]. pose proof (Hen id). cbn beta in *. rewrite tally_empty, decide_True; [by eexists|].
    apply amount_of_in; [done|]. lia.
Qed.

Lemma make_change_spec : target_balance <= selected_boxes_value s -> (forall id, want id <= have id) ->
  match make_change target_balance target_tokens s with
  | Ok change => check_input_preservation (selected_inputs s) change target_balance target_tokens = Ok tt /\
      Forall (fun t => 0 < amount t) (box_tokens change)
  | Err e => (exists e', e = NotEnoughCoinsForChange e') /\
      (total_value inputs < target_balance + BOX_MIN_RAW \/ (MAX_TOKENS_PER_CHANGE_BOX < size (tally ∅ (box_tokens inputs)))%nat)
  end.
Proof.
  intros Hge Hhave. pose proof (got_enough Hhave) as Hen. pose proof selected_part as (Ht & Hs0 & Hsk0 & Hg & Hvs).
  pose proof (wf_total _ _ _ Hwf) as Hmax. pose proof (bounds_Z _ (wf_balance _ _ _ Hwf)) as Hb.
  unfold make_change. rewrite <- negb_orb. destruct (has_value_change s || has_token_change s) eqn:Hch; cbn [negb].
  2: { apply orb_false_iff in Hch as [??]. split; [by apply no_change|constructor]. }
  unfold box_value_try_from. destruct (within_bounds (selected_boxes_value s - target_balance)) eqn:Hv; cbn [result_map_err mbind result_bind].
  - rewrite sum_tokens_from_boxes_fits; [|apply amounts_positive_wf, (inv_amounts _ _ _ _ _ Hinv)|].
    2: { intros id. pose proof (wf_sums _ _ _ Hwf id). pose proof (Hg id). cbn beta in *. lia. }
    cbn [result_map_err mbind result_bind]. destruct (change_tokens_spec Hen) as (ct & -> & Hct). cbn [mbind result_bind].
    pose proof (make_change_boxes_spec _ ct Hv) as Hmk. destruct (make_change_boxes _ ct) as [change|e].
    + destruct Hmk as (Hcv & Hcht & Hbs). split.
      * apply (final_check ct); try done. apply (Forall_impl _ _ _ Hbs). intros b [?%bounds_Z _]. lia.
      * rewrite Hcht. apply hash_iter_positive. intros id l. rewrite Hct. intros (l' & _ & ? & ->)%less_Some. lia.
    + destruct Hmk as (e' & -> & Hsz). split; [by eexists|]. right. pose proof (change_size ct Hct). lia.
  - split; [by eexists|]. left. destruct skipped as [|b bs] eqn:Esk.
    + cbn in Ht. unfold within_bounds in Hv. apply andb_false_iff in Hv as [Hv|Hv%Z.leb_gt]; [|lia].
      rewrite Z.geb_leb in Hv. apply Z.leb_gt in Hv. lia.
    + destruct (inv_change _ _ _ _ _ Hinv) as [_ Hc]; [done|]. specialize (Hc Hch).
      unfold within_bounds in Hv. apply andb_false_iff in Hv as [Hv|Hv%Z.leb_gt]; [|lia].
      rewrite Z.geb_leb in Hv. apply Z.leb_gt in Hv. lia.
Qed.
End final.

(** Every outcome of the selection. *)
Lemma select_cases : selection_wf inputs target_balance target_tokens ->
  match select inputs target_balance target_tokens with
  | Ok selection => target_balance <= total_value inputs /\
      (forall id, amount_of id target_tokens <= amount_of id (box_tokens inputs)) /\
      Forall (fun t => 0 < amount t) (box_tokens (change_boxes selection))
  | Err (NotEnoughCoins missing) => 0 < missing /\ total_value inputs + missing = target_balance
  | Err (NotEnoughTokens missing) =>
      target_balance <= total_value inputs /\ missing <> [] /\ Forall (fun t => 0 < amount t) missing /\
      forall id, amount_of id missing = Z.max (amount_of id target_tokens - amount_of id (box_tokens inputs)) 0
  | Err (NotEnoughCoinsForChange _) =>
      total_value inputs < target_balance + BOX_MIN_RAW \/ (MAX_TOKENS_PER_CHANGE_BOX < size (tally ∅ (box_tokens inputs)))%nat
  | Err (SelectedInputsOutOfBounds n) => (MAX_INPUTS < n <= length inputs)%nat
  | Err _ => False
  end.
Proof.
  intros Hwf. destruct (select_run Hwf) as (Hsum & s & skipped & Hloop & Hinv).
  pose proof (selected_part Hwf s skipped Hinv) as (Ht & Hs0 & Hsk0 & Hg & _). pose proof (bounds_Z _ (wf_balance _ _ _ Hwf)) as Hb.
  pose proof (left_missing Hwf s skipped Hinv) as Hleft.
  unfold select. rewrite Hsum. cbn [result_map_err mbind result_bind]. rewrite Hloop. cbn [mbind result_bind].
  destruct (Z.ltb_spec (selected_boxes_value s) target_balance) as [Hlt|Hge].
  { pose proof (value_missing Hwf s skipped Hinv Hlt). split; lia. }
  assert (target_tokens_left s = ∅ \/ target_tokens_left s <> ∅ /\ target_tokens <> []) as [He|[He Hne]].
  { destruct (decide (target_tokens_left s = ∅)) as [|He]; [by left|]. right. split; [done|]. intros ->. apply He, map_eq. intros id.
    rewrite (inv_left _ _ _ _ _ Hinv), lookup_empty. done. }
  - rewrite bool_decide_eq_true_2, andb_false_r by done.
    assert (forall id, amount_of id target_tokens <= amount_of id (box_tokens inputs)) as Hen.
    { intros id. specialize (Hleft id). rewrite He, lookup_empty in Hleft. destruct (Z.ltb_spec (amount_of id (box_tokens inputs)) (amount_of id target_tokens)); [done|lia]. }
    pose proof (make_change_spec Hwf s skipped Hinv Hge Hen) as Hmk.
    destruct (make_change target_balance target_tokens s) as [change|e]; cbn [mbind result_bind]; [|by destruct Hmk as [[e' ->] ?]].
    destruct Hmk as [-> Hpos]. cbn [mbind result_bind].
    assert (1 <= length (selected_inputs s))%nat.
    { destruct (selected_inputs s) as [|b bs] eqn:E; [|cbn; lia]. pose proof (inv_value _ _ _ _ _ Hinv) as Hv. rewrite E in Hv. cbn in Hv. lia. }
    pose proof (Permutation_length (inv_perm _ _ _ _ _ Hinv)) as Hlen. rewrite length_app in Hlen.
    destruct (Nat.leb_spec 1 (length (selected_inputs s))); [|lia]. cbn [andb].
    destruct (Nat.leb_spec (length (selected_inputs s)) MAX_INPUTS); [by split_and!; [lia| |]|lia].
  - rewrite bool_decide_eq_false_2 by done. destruct target_tokens as [|t ts] eqn:E; [done|]. cbn [length Nat.eqb negb andb]. rewrite <- E in *.
    split; [lia|]. split_and!.
    + intros Hnil. apply He. rewrite <- (tally_hash_iter (target_tokens_left s)), Hnil. done.
    + apply hash_iter_positive. by eapply left_positive.
    + intros id. rewrite hash_iter_amount, Hleft. destruct (Z.ltb_spec (amount_of id (box_tokens inputs)) (amount_of id target_tokens)); cbn; unfold Datatypes.id; lia.
Qed.
End result.

(** * What a selection is *)

Section safety.
Context {T : Type} `{!ErgoBoxAssets T} {Hash : HashOrder}.

Lemma select_loop_perm target_balance bs : forall (s s' : state (T := T)),
  select_loop target_balance s bs = Ok s' -> exists rest, selected_inputs s' ++ rest ≡ₚ selected_inputs s ++ bs.
Proof.
  induction bs as [|b bs IH]; intros s s' H; cbn in H; [by exists []; simplify_eq|].
  apply bind_Ok_inv in H as (s1 & H1 & (rest & H)%IH). unfold select_box in H1. destruct (is_needed _ _ _).
  - apply bind_Ok_inv in H1 as (v & _ & H1). apply bind_Ok_inv in H1 as ([lt sel] & _ & H1). apply bind_Ok_inv in H1 as (m & _ & H1).
    injection H1 as <-. exists rest. rewrite H. cbn. by rewrite <- app_assoc.
  - injection H1 as <-. exists (rest ++ [b]). rewrite app_assoc, H, <- app_assoc. apply Permutation_app_head.
    by rewrite <- Permutation_cons_append.
Qed.

Lemma map_err_Ok {E E' A} (f : E -> E') (r : result E A) a : result_map_err f r = Ok a -> r = Ok a.
Proof. destruct r; cbn; [by intros [= <-]|done]. Qed.

Lemma check_sound (selected : list T) change target_balance target_tokens :
  check_input_preservation selected change target_balance target_tokens = Ok tt ->
  total_value selected = total_value change + target_balance /\
  (forall id, amount_of id (box_tokens selected) = amount_of id (box_tokens change) + amount_of id target_tokens) /\
  (forall id, id ∈ (token_id <$> box_tokens change) -> id ∈ (token_id <$> box_tokens selected)) /\
  sum_value selected = Some (total_value selected).
Proof.
  unfold check_input_preservation, preservation, unwrap. intros H.
  apply bind_Ok_inv in H as (v1 & H1%ok_or_Ok & H). pose proof H1 as Hsum. apply sum_value_Some in H1. apply bind_Ok_inv in H as (v2 & H2%ok_or_Ok%sum_value_Some & H).
  apply bind_Ok_inv in H as (v3 & H3%ok_or_Ok & H). destruct (Z.eqb_spec v1 v3) as [->|]; [|done]. cbn [negb] in H.
  apply bind_Ok_inv in H as (m1 & Hm1%map_err_Ok%sum_tokens_from_boxes_Ok & H).
  apply bind_Ok_inv in H as (m2 & Hm2%map_err_Ok%sum_tokens_from_boxes_Ok & H).
  apply bind_Ok_inv in H as (m3 & Hm3%map_err_Ok%sum_tokens_Ok & H).
  apply bind_Ok_inv in H as (m4 & Hm4%map_err_Ok%add_tokens_Ok & H).
  destruct (bool_decide_reflect (m1 = m4)) as [->|]; [|done].
  change (default [] (Some target_tokens)) with target_tokens in Hm3. subst m2 m3. rewrite Hm4 in Hm1. split_and!.
  - unfold checked_u64 in H3. destruct (_ && _) in H3; [|done]. injection H3 as <-. lia.
  - intros id. rewrite <- (tally_amount _ _ id Hm1), fmap_app, amount_of_app, !hash_iter_amount, !tally_empty.
    f_equal; (destruct (decide _); [done|]; by rewrite amount_of_notin).
  - intros id Hin. assert (is_Some (tally ∅ (box_tokens selected) !! id)) as Hsome.
    { rewrite <- Hm1, tally_empty, decide_True; [done|]. rewrite fmap_app, fmap_app, elem_of_app. left. apply hash_iter_in.
      by rewrite tally_empty, decide_True. }
    rewrite tally_empty in Hsome. by destruct (decide _); [|destruct Hsome].
  - by rewrite H1 in Hsum.
Qed.

Lemma make_change_bounds target_balance target_tokens (s : state (T := T)) change :
  make_change target_balance target_tokens s = Ok change ->
  Forall (fun b => within_bounds (assets_value b) = true /\ (length (default [] (assets_tokens b)) <= MAX_TOKENS_PER_CHANGE_BOX)%nat) change.
Proof.
  unfold make_change. destruct (_ && _); [by intros [= <-]|]. intros H. apply bind_Ok_inv in H as (v & Hv%map_err_Ok & H).
  apply bind_Ok_inv in H as (m & _ & H). apply bind_Ok_inv in H as (ct & _ & H).
  unfold box_value_try_from in Hv. destruct (within_bounds _) eqn:Hb; [|done]. injection Hv as <-.
  pose proof (make_change_boxes_spec _ ct Hb) as Hs. rewrite H in Hs. apply Hs.
Qed.

Lemma select_Ok (inputs : list T) target_balance target_tokens selection :
  select inputs target_balance target_tokens = Ok selection ->
  (exists rest, boxes selection ++ rest ≡ₚ inputs) /\ (1 <= length (boxes selection) <= MAX_INPUTS)%nat /\
  check_input_preservation (boxes selection) (change_boxes selection) target_balance target_tokens = Ok tt /\
  exists s, make_change target_balance target_tokens s = Ok (change_boxes selection).
Proof.
  unfold select. intros H. apply bind_Ok_inv in H as (left0 & _ & H). apply bind_Ok_inv in H as (s & Hloop & H).
  destruct (_ <? _); [done|]. destruct (_ && _) in H; [done|]. apply bind_Ok_inv in H as (change & Hch & H).
  apply bind_Ok_inv in H as ([] & Hcheck & H).
  destruct (Nat.leb_spec 1 (length (selected_inputs s))), (Nat.leb_spec (length (selected_inputs s)) MAX_INPUTS); cbn [andb] in H; try done.
  injection H as <-. cbn [boxes change_boxes]. split_and!; [|lia..|done|by exists s].
  apply select_loop_perm in Hloop as [rest Hp]. exists rest. rewrite Hp. cbn. rewrite Permutation_rev, rev_involutive. apply sort_by_perm.
Qed.

(** C34: whatever the boxes, a selection spends some of the inputs, each at most once, at least one and at most 32767, and its coins and the amounts of every token are those of the target together with the change; every box of change has a value inside the bounds and at most 122 tokens. *)
Theorem selection_preserves (inputs : list T) (target_balance : Z) (target_tokens : list Token) (selection : BoxSelection T) :
  select inputs target_balance target_tokens = Ok selection ->
  (exists rest, boxes selection ++ rest ≡ₚ inputs) /\ (1 <= length (boxes selection) <= MAX_INPUTS)%nat /\
  total_value (boxes selection) = target_balance + total_value (change_boxes selection) /\
  (forall id, amount_of id (box_tokens (boxes selection)) = amount_of id target_tokens + amount_of id (box_tokens (change_boxes selection))) /\
  Forall (fun b => within_bounds (assets_value b) = true /\ (length (default [] (assets_tokens b)) <= MAX_TOKENS_PER_CHANGE_BOX)%nat)
    (change_boxes selection).
Proof.
  intros (Hp & Hlen & (Hv & Ha & _)%check_sound & s & Hs)%select_Ok. split_and!; [done|lia..| | |by eapply make_change_bounds].
  - lia.
  - intros id. rewrite Ha. lia.
Qed.

(** C35: for boxes and targets inside the bounds of their types, where the coins of all inputs and the amounts of each token
    in all inputs and in the target fit the type ([selection_wf]), selecting fails with the coins that the inputs lack, with exactly the tokens that they lack, when what they hold beyond the target is no box's worth or of too many kinds of tokens, or when it takes too many inputs; no sum overflows, and the final check of what was selected never fails. *)
Theorem selection_fails (inputs : list T) (target_balance : Z) (target_tokens : list Token) (e : BoxSelectorError) :
  selection_wf inputs target_balance target_tokens -> select inputs target_balance target_tokens = Err e ->
  match e with
  | NotEnoughCoins missing => 0 < missing /\ total_value inputs + missing = target_balance
  | NotEnoughTokens missing =>
      target_balance <= total_value inputs /\ missing <> [] /\ Forall (fun t => 0 < amount t) missing /\
      forall id, amount_of id missing = Z.max (amount_of id target_tokens - amount_of id (box_tokens inputs)) 0
  | NotEnoughCoinsForChange _ =>
      total_value inputs < target_balance + BOX_MIN_RAW \/ (MAX_TOKENS_PER_CHANGE_BOX < size (tally ∅ (box_tokens inputs)))%nat
  | SelectedInputsOutOfBounds n => (MAX_INPUTS < n <= length inputs)%nat
  | SelectorAmount _ | CheckPreservation _ | SelectorPanicked => False
  end.
Proof. intros Hwf He. pose proof (select_cases inputs target_balance target_tokens Hwf) as H. rewrite He in H. by destruct e. Qed.

(** Boxes inside the bounds of their types, of at most 122 kinds of tokens, that hold the tokens of the target and its coins with the smallest box value to spare, are enough: some of them are selected. *)
Theorem selection_succeeds (inputs : list T) (target_balance : Z) (target_tokens : list Token) :
  selection_wf inputs target_balance target_tokens -> (length inputs <= MAX_INPUTS)%nat ->
  (size (tally ∅ (box_tokens inputs)) <= MAX_TOKENS_PER_CHANGE_BOX)%nat ->
  target_balance + BOX_MIN_RAW <= total_value inputs ->
  (forall id, amount_of id target_tokens <= amount_of id (box_tokens inputs)) ->
  exists selection, select inputs target_balance target_tokens = Ok selection.
Proof.
  intros Hwf Hlen Hsize Hval Htok. pose proof (select_cases inputs target_balance target_tokens Hwf) as H.
  assert (0 < BOX_MIN_RAW) by (by vm_compute).
  destruct (select inputs target_balance target_tokens) as [sel|[m|m|?|?|?|n|]]; [by eexists| | |done|done| |lia|done]; exfalso; [lia| |destruct H; lia].
  destruct H as (_ & Hne & Hpos & Ham). destruct m as [|t ts]; [done|]. specialize (Ham (token_id t)). specialize (Htok (token_id t)).
  assert (0 < amount_of (token_id t) (t :: ts)) by (apply amount_of_in; [done|by left]). lia.
Qed.
End safety.

(** ** Concrete runs *)

Definition map_to_list_order : HashOrder := {| hash_iter := map_to_list; hash_iter_perm m := reflexivity _ |}.

(** Two boxes with a token each, and 40000 nanoERGs and 3 of the first token wanted. *)
Definition example_boxes : list ErgoBoxAssetsData :=
  [mkAssets 30000 (Some [mkToken [2] 7]); mkAssets 2000000 (Some [mkToken [1] 5])].
Definition example_tokens : list Token := [mkToken [1] 3].

Lemma example_wf v ts : within_bounds v = true -> Forall (fun t => 0 < amount t <= 100) ts -> (length ts <= 1)%nat ->
  selection_wf example_boxes v ts.
Proof.
  intros Hv Hts Hlen. split; [by repeat constructor|done|by vm_compute|by repeat constructor|apply (Forall_impl _ _ _ Hts); lia| |].
  - intros id. cbn. unfold AMOUNT_MAX_RAW. repeat destruct (decide _); lia.
  - intros id. destruct Hts as [|t ts Ht Hts]; [by vm_compute|]. destruct ts; [|cbn in Hlen; lia]. cbn. unfold AMOUNT_MAX_RAW. destruct (decide _); lia.
Qed.

#[local] Existing Instance map_to_list_order.

Lemma selection_preserves_witness : exists selection, select example_boxes 40000 example_tokens = Ok selection /\
  (exists rest, boxes selection ++ rest ≡ₚ example_boxes) /\ (1 <= length (boxes selection) <= MAX_INPUTS)%nat /\
  total_value (boxes selection) = 40000 + total_value (change_boxes selection) /\
  (forall id, amount_of id (box_tokens (boxes selection)) = amount_of id example_tokens + amount_of id (box_tokens (change_boxes selection))) /\
  Forall (fun b => within_bounds (assets_value b) = true /\ (length (default [] (assets_tokens b)) <= MAX_TOKENS_PER_CHANGE_BOX)%nat)
    (change_boxes selection).
Proof. eexists. split; [vm_compute; reflexivity|]. apply (selection_preserves example_boxes 40000 example_tokens). vm_compute. reflexivity. Defined.

Lemma selection_fails_witness : select example_boxes 3000000 example_tokens = Err (NotEnoughCoins 970000) /\
  0 < 970000 /\ total_value example_boxes + 970000 = 3000000.
Proof.
  split; [vm_compute; reflexivity|]. apply (selection_fails example_boxes 3000000 example_tokens (NotEnoughCoins 970000)).
  - apply example_wf; [reflexivity|by repeat constructor|cbn; lia].
  - vm_compute. reflexivity.
Defined.

Lemma selection_succeeds_witness : exists selection, select example_boxes 40000 example_tokens = Ok selection.
Proof.
  apply (selection_succeeds example_boxes 40000 example_tokens).
  - apply example_wf; [reflexivity|by repeat constructor|cbn; lia].
  - refine (bool_decide_unpack _ _). vm_compute. exact I.
  - refine (bool_decide_unpack _ _). vm_compute. exact I.
  - refine (bool_decide_unpack _ _). vm_compute. exact I.
  - intros id. cbn. repeat destruct (decide _); subst; try lia; congruence.
Defined.
