(* ===== verification/BoxBuilder.v ===== *)
(** Candidates for boxes and their builder (src/ergotree-ir/src/chain/ergo_box/register.rs,
    src/ergo-lib/src/chain/ergo_box/box_builder.rs). Scripts and register values are any types; the bytes a
    box is written as are a parameter, since their serialization is not modelled. *)

From stdpp Require Import gmap.
From S2P Require Import Prelude Tokens.
#[local] Open Scope Z_scope.

(** * Registers *)

Inductive NonMandatoryRegisterId : Type := R4 | R5 | R6 | R7 | R8 | R9.

Definition register_number (r : NonMandatoryRegisterId) : Z :=
  match r with R4 => 4 | R5 => 5 | R6 => 6 | R7 => 7 | R8 => 8 | R9 => 9 end.
Definition REG_IDS : list NonMandatoryRegisterId := [R4; R5; R6; R7; R8; R9].
Definition NUM_REGS : nat := 6.

#[export] Instance register_eq_dec : EqDecision NonMandatoryRegisterId.
Proof. solve_decision. Defined.
#[export] Instance register_countable : Countable NonMandatoryRegisterId.
Proof.
  refine (inj_countable register_number
    (fun z => find (fun r => register_number r =? z) REG_IDS) _).
  by intros [].
Defined.

Inductive NonMandatoryRegistersError : Type :=
| InvalidSize (n : nat)
| NonDenselyPacked (r : Z).

Section builder.
Context {ErgoTree Constant SigmaSerializationError : Type}.

(** [NonMandatoryRegisters::try_from]: the values of R4 and on, without a gap. *)
Definition registers_try_from (reg_map : gmap NonMandatoryRegisterId Constant)
    : result NonMandatoryRegistersError (list Constant) :=
  let regs_num := size reg_map in
  if (NUM_REGS <? regs_num)%nat then Err (InvalidSize regs_num)
  else mapM_res (fun reg_id => ok_or (reg_map !! reg_id) (NonDenselyPacked (register_number reg_id))) (take regs_num REG_IDS).

(** * Candidates *)

Record ErgoBoxCandidate : Type := mkCandidate {
  candidate_value : Z;
  ergo_tree : ErgoTree;
  candidate_tokens : option (list Token);
  additional_registers : list Constant;
  creation_height : Z
}.

#[export] Instance candidate_assets : ErgoBoxAssets ErgoBoxCandidate :=
  {| value := candidate_value; tokens := candidate_tokens |}.

Inductive ErgoBoxCandidateBuilderError : Type :=
| BoxValueTooLow (error_value min_box_value : Z) (box_size_bytes : nat)
| RegistersError (e : NonMandatoryRegistersError)
| ExclusiveMintedTokenError
| MintedTokenRegisterOverwriteError (r : NonMandatoryRegisterId)
| BuilderSerialization (e : SigmaSerializationError)
| TooManyTokensError
| BuilderPanicked.

Record MintingToken : Type := mkMinting { mint_token_of : Token; mint_name : list Z; mint_desc : list Z; mint_num_decimals : nat }.

Record ErgoBoxCandidateBuilder : Type := mkBuilder {
  min_value_per_byte : Z;
  builder_value : Z;
  builder_ergo_tree : ErgoTree;
  builder_tokens : list Token;
  builder_registers : gmap NonMandatoryRegisterId Constant;
  builder_creation_height : Z;
  minting_token : option MintingToken
}.

Definition builder_new (value : Z) (tree : ErgoTree) (creation_height : Z) : ErgoBoxCandidateBuilder :=
  mkBuilder MIN_VALUE_PER_BOX_BYTE value tree [] ∅ creation_height None.
Definition set_min_box_value_per_byte (b : ErgoBoxCandidateBuilder) (v : Z) : ErgoBoxCandidateBuilder :=
  mkBuilder v (builder_value b) (builder_ergo_tree b) (builder_tokens b) (builder_registers b) (builder_creation_height b) (minting_token b).
Definition set_value (b : ErgoBoxCandidateBuilder) (v : Z) : ErgoBoxCandidateBuilder :=
  mkBuilder (min_value_per_byte b) v (builder_ergo_tree b) (builder_tokens b) (builder_registers b) (builder_creation_height b) (minting_token b).
Definition set_registers (b : ErgoBoxCandidateBuilder) (rs : gmap NonMandatoryRegisterId Constant) : ErgoBoxCandidateBuilder :=
  mkBuilder (min_value_per_byte b) (builder_value b) (builder_ergo_tree b) (builder_tokens b) rs (builder_creation_height b) (minting_token b).
Definition set_register_value (b : ErgoBoxCandidateBuilder) (r : NonMandatoryRegisterId) (c : Constant) : ErgoBoxCandidateBuilder :=
  set_registers b (<[r := c]> (builder_registers b)).
Definition delete_register_value (b : ErgoBoxCandidateBuilder) (r : NonMandatoryRegisterId) : ErgoBoxCandidateBuilder :=
  set_registers b (delete r (builder_registers b)).
Definition mint_token (b : ErgoBoxCandidateBuilder) (t : Token) (name desc : list Z) (num_decimals : nat) : ErgoBoxCandidateBuilder :=
  mkBuilder (min_value_per_byte b) (builder_value b) (builder_ergo_tree b) (builder_tokens b) (builder_registers b) (builder_creation_height b)
    (Some (mkMinting t name desc num_decimals)).
Definition builder_add_token (b : ErgoBoxCandidateBuilder) (t : Token) : ErgoBoxCandidateBuilder :=
  mkBuilder (min_value_per_byte b) (builder_value b) (builder_ergo_tree b) (builder_tokens b ++ [t]) (builder_registers b)
    (builder_creation_height b) (minting_token b).

(** [usize::to_string], as bytes. *)
Fixpoint decimal_loop (fuel : nat) (n : nat) : list Z :=
  match fuel with
  | O => []
  | S fuel => (if (n <? 10)%nat then [] else decimal_loop fuel (n / 10)%nat) ++ [48 + Z.of_nat (n mod 10)]
  end.
Definition decimal_bytes (n : nat) : list Z := decimal_loop (S n) n.

(** The register value of a byte string. *)
Context (bytes_constant : list Z -> Constant).

Definition check_register (rs : gmap NonMandatoryRegisterId Constant) (r : NonMandatoryRegisterId)
    : result ErgoBoxCandidateBuilderError unit :=
  match rs !! r with Some _ => Err (MintedTokenRegisterOverwriteError r) | None => Ok tt end.

(** The tokens and registers with those of the minted token. *)
Definition with_minted (b : ErgoBoxCandidateBuilder)
    : result ErgoBoxCandidateBuilderError (list Token * gmap NonMandatoryRegisterId Constant) :=
  match minting_token b with
  | None => Ok (builder_tokens b, builder_registers b)
  | Some m =>
      if negb (length (builder_tokens b) =? 0)%nat then Err ExclusiveMintedTokenError
      else
        check_register (builder_registers b) R4;;
        check_register (builder_registers b) R5;;
        check_register (builder_registers b) R6;;
        Ok (builder_tokens b ++ [mint_token_of m],
          <[R6 := bytes_constant (decimal_bytes (mint_num_decimals m))]>
          (<[R5 := bytes_constant (mint_desc m)]> (<[R4 := bytes_constant (mint_name m)]> (builder_registers b))))
  end.

Definition build_box_unchecked (b : ErgoBoxCandidateBuilder) : result ErgoBoxCandidateBuilderError ErgoBoxCandidate :=
  '(tokens, registers) ← with_minted b;
  regs ← result_map_err RegistersError (registers_try_from registers);
  tokens ← (if (length tokens =? 0)%nat then Ok None
            else match box_tokens_from_vec tokens with Some ts => Ok (Some ts) | None => Err TooManyTokensError end);
  Ok (mkCandidate (builder_value b) (builder_ergo_tree b) tokens regs (builder_creation_height b)).

(** The bytes of a candidate as the output of a transaction with an id, at an index: [ErgoBox::from_box_candidate] and
    [ErgoBox::bytes]. *)
Context (box_bytes : ErgoBoxCandidate -> list Z -> Z -> result SigmaSerializationError (list Z)).

Definition calc_box_size_bytes (b : ErgoBoxCandidateBuilder) : result ErgoBoxCandidateBuilderError nat :=
  candidate ← build_box_unchecked b;
  let mock := mkCandidate BOX_MAX_RAW (ergo_tree candidate) (candidate_tokens candidate) (additional_registers candidate) (2 ^ 31 - 1) in
  length <$> result_map_err BuilderSerialization (box_bytes mock (repeat 0 32) 1).

(** The value a box of that size needs, a product of i64. *)
Definition box_size_value (b : ErgoBoxCandidateBuilder) (box_size_bytes : nat) : result ErgoBoxCandidateBuilderError Z :=
  let v := Z.of_nat box_size_bytes * min_value_per_byte b in
  if v <? 2 ^ 63 then Ok v else Err BuilderPanicked.

Definition calc_min_box_value (b : ErgoBoxCandidateBuilder) : result ErgoBoxCandidateBuilderError Z :=
  box_size_bytes ← calc_box_size_bytes b;
  v ← box_size_value b box_size_bytes;
  result_map_err (fun _ => BuilderPanicked) (box_value_try_from_i64 v).

Definition build_box (b : ErgoBoxCandidateBuilder) : result ErgoBoxCandidateBuilderError ErgoBoxCandidate :=
  box ← build_box_unchecked b;
  box_size_bytes ← calc_box_size_bytes b;
  min_box_value ← box_size_value b box_size_bytes;
  if box_value_as_i64 (builder_value b) >=? min_box_value then Ok box
  else Err (BoxValueTooLow (builder_value b) min_box_value box_size_bytes).

(** What a built candidate holds. *)
Lemma build_box_Ok b c : build_box b = Ok c ->
  candidate_value c = builder_value b /\ ergo_tree c = builder_ergo_tree b /\ creation_height c = builder_creation_height b /\
  default [] (candidate_tokens c) = builder_tokens b ++ match minting_token b with Some m => [mint_token_of m] | None => [] end /\
  exists n, calc_box_size_bytes b = Ok n /\ Z.of_nat n * min_value_per_byte b <= box_value_as_i64 (builder_value b).
Proof.
  intros H. apply bind_Ok_inv in H as (c' & Hc & H). apply bind_Ok_inv in H as (n & Hn & H). apply bind_Ok_inv in H as (v & Hv & H).
  destruct (Z.geb_spec (box_value_as_i64 (builder_value b)) v) as [Hge|]; [|done]. injection H as <-.
  unfold box_size_value in Hv. destruct (_ <? _); [|done]. injection Hv as <-.
  unfold build_box_unchecked in Hc. apply bind_Ok_inv in Hc as ([ts rs] & Hm & Hc). apply bind_Ok_inv in Hc as (regs & _ & Hc).
  apply bind_Ok_inv in Hc as (o & Ho & Hc). injection Hc as <-. cbn. split_and!; try done; [|by exists n].
  assert (ts = builder_tokens b ++ match minting_token b with Some m => [mint_token_of m] | None => [] end) as <-.
  { unfold with_minted in Hm. destruct (minting_token b) as [m|]; [|injection Hm as <- _; by rewrite app_nil_r].
    destruct (negb _); [done|]. do 3 (apply bind_Ok_inv in Hm as ([] & _ & Hm)). by injection Hm as <- _. }
  destruct (Nat.eqb_spec (length ts) 0) as [->%nil_length_inv|]; [by injection Ho as <-|].
  unfold box_tokens_from_vec in Ho. destruct (_ && _); [|done]. by injection Ho as <-.
Qed.

(** Why a box without registers and minted token, of tokens that fit, is refused: only for its value, or its bytes. *)
Lemma build_box_Err b e :
  minting_token b = None -> builder_registers b = ∅ -> (length (builder_tokens b) <= MAX_TOKENS_COUNT)%nat -> build_box b = Err e ->
  match e with
  | BoxValueTooLow v low n => v = builder_value b /\ low = Z.of_nat n * min_value_per_byte b /\ box_value_as_i64 v < low
  | BuilderSerialization err => exists c, box_bytes c (repeat 0 32) 1 = Err err
  | BuilderPanicked => exists c bytes, box_bytes c (repeat 0 32) 1 = Ok bytes /\ 2 ^ 63 <= Z.of_nat (length bytes) * min_value_per_byte b
  | _ => False
  end.
Proof.
  intros Hm Hr Hlen. assert (exists c, build_box_unchecked b = Ok c) as [c Hc].
  { unfold build_box_unchecked, with_minted. rewrite Hm, Hr. cbn [mbind result_bind].
    assert (exists regs, result_map_err RegistersError (registers_try_from ∅) = Ok regs) as [regs ->] by (by eexists).
    cbn [mbind result_bind]. destruct (Nat.eqb_spec (length (builder_tokens b)) 0); [by eexists|].
    unfold box_tokens_from_vec. rewrite (proj2 (Nat.leb_le 1 _)), (proj2 (Nat.leb_le _ _) Hlen) by lia. by eexists. }
  unfold build_box, calc_box_size_bytes. rewrite Hc. cbn [mbind result_bind].
  set (mock := mkCandidate _ _ _ _ _). destruct (box_bytes mock (repeat 0 32) 1) as [bytes|err] eqn:Eb; cbn [result_map_err fmap result_fmap mbind result_bind].
  2: { intros [= <-]. by exists mock. }
  unfold box_size_value. destruct (Z.ltb_spec (Z.of_nat (length bytes) * min_value_per_byte b) (2 ^ 63)); cbn [mbind result_bind].
  - destruct (Z.geb_spec (box_value_as_i64 (builder_value b)) (Z.of_nat (length bytes) * min_value_per_byte b)); [done|].
    intros [= <-]. split_and!; [done|done|lia].
  - intros [= <-]. by exists mock, bytes.
Qed.
End builder.
