(* ===== verification/TxBuilder.v ===== *)
(** The builder of unsigned transactions (src/ergo-lib/src/wallet/tx_builder.rs and the constructor of
    chain/transaction/unsigned.rs): change and fee boxes, the checks of coins, minted and burned tokens. Parameters
    stand for scripts, addresses and the bytes of boxes and transactions. *)

From stdpp Require Import gmap.
From S2P Require Import Prelude Tokens BoxSelector BoxBuilder.
#[local] Open Scope Z_scope.

(** [ErgoBoxId]. *)
Class ErgoBoxId (T : Type) : Type := box_id : T -> list Z.

(** [TxIoVec]: a bounded vector. *)
Definition tx_io_vec {A} (l : list A) : option (list A) :=
  if (1 <=? length l)%nat && (length l <=? MAX_INPUTS)%nat then Some l else None.

Definition MAX_U16 : nat := Z.to_nat (2 ^ 16 - 1).
Definition MAX_OUTPUTS_COUNT : nat := MAX_U16.

Inductive InvalidArgs : Type :=
| OutputsEmpty | TooManyInputs | DuplicateInputs | TooManyDataInputs | TooManyOutputs | MintMoreThanOne.

Section tx_builder.
Context {ErgoTree Constant SigmaSerializationError Address ContextExtension OutBox : Type}.

Inductive TxBuilderError : Type :=
| TxInvalidArgs (e : InvalidArgs)
| TxBoxBuilder (e : ErgoBoxCandidateBuilderError (SigmaSerializationError := SigmaSerializationError))
| TxNotEnoughTokens (ts : list Token)
| NotEnoughCoinsInInputs (missing : Z)
| TxSerialization (e : SigmaSerializationError)
| InvalidInputsCount (n : nat)
| AddressError
| TokenBurnPermitExceeded (permit try_to_burn : Token)
| TokenBurnPermitMissing (try_to_burn : Token)
| TokenBurnPermitUnused (token_id : TokenId) (amount : Z)
| TooManyTokensInBurnPermit (e : TokenAmountError)
| TooManyTokensInInputBoxes (e : TokenAmountError)
| TooManyTokensInOutputCandidates (e : TokenAmountError)
| TokensInOutputsExceedInputs (e : TokenAmountError)
| NotEnoughCoinsInOutputs (missing : Z)
| TxPanicked.

Record UnsignedInput : Type := mkInput { input_box_id : list Z; input_extension : ContextExtension }.

Abbreviation candidate := (ErgoBoxCandidate (ErgoTree := ErgoTree) (Constant := Constant)).

Record UnsignedTransaction : Type := mkUnsigned {
  tx_id : list Z;
  tx_inputs : list UnsignedInput;
  tx_data_inputs : option (list (list Z));
  tx_output_candidates : list candidate;
  tx_outputs : list OutBox
}.

Context {S : Type} `{!ErgoBoxAssets S} `{!ErgoBoxId S} {Hash : HashOrder}.

Record TxBuilder : Type := mkTxBuilder {
  box_selection : BoxSelection S;
  data_inputs : list (list Z);
  output_candidates : list candidate;
  current_height : Z;
  fee_amount : Z;
  change_address : Address;
  context_extensions : gmap (list Z) ContextExtension;
  token_burn_permit : list Token
}.

Definition tx_builder_new (selection : BoxSelection S) (outputs : list candidate) (height fee : Z) (change : Address) : TxBuilder :=
  mkTxBuilder selection [] outputs height fee change ∅ [].
Definition set_data_inputs (b : TxBuilder) (ds : list (list Z)) : TxBuilder :=
  mkTxBuilder (box_selection b) ds (output_candidates b) (current_height b) (fee_amount b) (change_address b) (context_extensions b) (token_burn_permit b).
Definition set_context_extension (b : TxBuilder) (id : list Z) (e : ContextExtension) : TxBuilder :=
  mkTxBuilder (box_selection b) (data_inputs b) (output_candidates b) (current_height b) (fee_amount b) (change_address b)
    (<[id := e]> (context_extensions b)) (token_burn_permit b).
Definition set_token_burn_permit (b : TxBuilder) (ts : list Token) : TxBuilder :=
  mkTxBuilder (box_selection b) (data_inputs b) (output_candidates b) (current_height b) (fee_amount b) (change_address b) (context_extensions b) ts.

(** The bytes of boxes and of the message to sign, the box of a candidate, the hash of the id of a transaction, the script of an
    address, that of the miners' fee, the empty extension, and the register value of bytes. *)
Context (box_bytes : candidate -> list Z -> Z -> result SigmaSerializationError (list Z)).
Context (from_box_candidate : candidate -> list Z -> Z -> result SigmaSerializationError OutBox).
Context (bytes_to_sign : list UnsignedInput -> option (list (list Z)) -> list candidate -> result SigmaSerializationError (list Z)).
Context (blake2b256_hash : list Z -> list Z) (pay_to_address : Address -> option ErgoTree) (miners_fee_tree : ErgoTree).
Context (empty_extension : ContextExtension) (bytes_constant : list Z -> Constant).

Abbreviation builder := (ErgoBoxCandidateBuilder (ErgoTree := ErgoTree) (Constant := Constant)).
Definition build (b : builder) : result TxBuilderError candidate := result_map_err TxBoxBuilder (build_box bytes_constant box_bytes b).
Definition unwrap_tx {A} (o : option A) : result TxBuilderError A := ok_or o TxPanicked.

Definition output_boxes (id : list Z) (outputs : list candidate) : result SigmaSerializationError (list OutBox) :=
  mapM_res (fun p => from_box_candidate p.2 id (wrap_u 16 (Z.of_nat p.1))) (enumerate outputs).

(** [UnsignedTransaction::new]. *)
Definition unsigned_new (inputs : list UnsignedInput) (data : option (list (list Z))) (outputs : list candidate)
    : result TxBuilderError UnsignedTransaction :=
  result_map_err (fun _ => TxPanicked) (output_boxes (repeat 0 32) outputs);;
  bytes ← result_map_err TxSerialization (bytes_to_sign inputs data outputs);
  let id := blake2b256_hash bytes in
  boxes ← result_map_err TxSerialization (output_boxes id outputs);
  Ok (mkUnsigned id inputs data outputs boxes).

Definition new_miner_fee_box (fee height : Z) : result TxBuilderError candidate := build (builder_new fee miners_fee_tree height).

Definition change_candidate (tree : ErgoTree) (height : Z) (b : ErgoBoxAssetsData) : result TxBuilderError candidate :=
  build (fold_left builder_add_token (default [] (tokens b)) (builder_new (value b) tree height)).

(** ** The checks *)

Definition check_coins (total_input_value total_output_value : Z) : result TxBuilderError unit :=
  if total_output_value >? total_input_value then Err (NotEnoughCoinsInInputs (total_output_value - total_input_value))
  else if total_output_value <? total_input_value then Err (NotEnoughCoinsInOutputs (total_input_value - total_output_value))
  else Ok tt.

Fixpoint check_enough_tokens (input_tokens : TokenMap) (ps : list (list Z * Z)) : result TxBuilderError unit :=
  match ps with
  | [] => Ok tt
  | (id, amt) :: ps =>
      match input_tokens !! id with
      | Some input_token_amount =>
          if input_token_amount >=? amt then check_enough_tokens input_tokens ps else Err (TxNotEnoughTokens [token_of (id, amt)])
      | None => Err (TxNotEnoughTokens [token_of (id, amt)])
      end
  end.

Definition vec_tokens_to_map (ts : list Token) : result TokenAmountError TokenMap := add_tokens ∅ ts.

Fixpoint check_enough_loop (permits : TokenMap) (burned : list (list Z * Z)) : result TxBuilderError unit :=
  match burned with
  | [] => Ok tt
  | (id, burn_amt) :: burned =>
      match permits !! id with
      | Some permit =>
          if burn_amt >? permit then Err (TokenBurnPermitExceeded (token_of (id, permit)) (token_of (id, burn_amt)))
          else check_enough_loop permits burned
      | None => Err (TokenBurnPermitMissing (token_of (id, burn_amt)))
      end
  end.
Definition check_enough_token_burn_permit (burned_tokens permits : TokenMap) : result TxBuilderError unit :=
  check_enough_loop permits (hash_iter burned_tokens).

Fixpoint check_unused_loop (burned_tokens : TokenMap) (permits : list (list Z * Z)) : result TxBuilderError unit :=
  match permits with
  | [] => Ok tt
  | (id, permit) :: permits =>
      match burned_tokens !! id with
      | Some burn_amt =>
          if burn_amt <? permit then Err (TokenBurnPermitUnused id (permit - burn_amt)) else check_unused_loop burned_tokens permits
      | None => Err (TokenBurnPermitUnused id permit)
      end
  end.
Definition check_unused_token_burn_permit (burned_tokens permits : TokenMap) : result TxBuilderError unit :=
  check_unused_loop burned_tokens (hash_iter permits).

Definition without_minted (first_input_box_id : list Z) (output_tokens : TokenMap) : TokenMap :=
  filter (fun p => p.1 <> first_input_box_id) output_tokens.

Definition check_tokens (inputs : list S) (outputs : list candidate) (permit : list Token) : result TxBuilderError unit :=
  input_tokens ← result_map_err TooManyTokensInInputBoxes (sum_tokens_from_boxes inputs);
  output_tokens ← result_map_err TooManyTokensInOutputCandidates (sum_tokens_from_boxes outputs);
  first_input ← unwrap_tx (head inputs);
  let output_tokens_without_minted := without_minted (box_id first_input) output_tokens in
  if (1 <? size output_tokens - size output_tokens_without_minted)%nat then Err (TxInvalidArgs MintMoreThanOne)
  else
    check_enough_tokens input_tokens (hash_iter output_tokens_without_minted);;
    burned_tokens ← result_map_err TokensInOutputsExceedInputs (subtract_tokens input_tokens output_tokens_without_minted);
    token_burn_permits ← result_map_err TooManyTokensInBurnPermit (vec_tokens_to_map permit);
    check_enough_token_burn_permit burned_tokens token_burn_permits;;
    check_unused_token_burn_permit burned_tokens token_burn_permits.

Definition check_args (b : TxBuilder) : result TxBuilderError unit :=
  let inputs := boxes (box_selection b) in
  if (length (output_candidates b) =? 0)%nat then Err (TxInvalidArgs OutputsEmpty)
  else if (MAX_U16 <? length inputs)%nat then Err (TxInvalidArgs TooManyInputs)
  else if negb (size (list_to_set (C := gset (list Z)) (box_id <$> inputs)) =? length inputs)%nat then Err (TxInvalidArgs DuplicateInputs)
  else if (MAX_U16 <? length (data_inputs b))%nat then Err (TxInvalidArgs TooManyDataInputs)
  else Ok tt.

(** The outputs with the boxes of change and the fee. *)
Definition all_outputs (b : TxBuilder) : result TxBuilderError (list candidate) :=
  tree ← ok_or (pay_to_address (change_address b)) AddressError;
  change ← mapM_res (change_candidate tree (current_height b)) (change_boxes (box_selection b));
  fee_box ← new_miner_fee_box (fee_amount b) (current_height b);
  let outputs := output_candidates b ++ change ++ [fee_box] in
  if (MAX_OUTPUTS_COUNT <? length outputs)%nat then Err (TxInvalidArgs TooManyOutputs) else Ok outputs.

Definition build_tx (b : TxBuilder) : result TxBuilderError UnsignedTransaction :=
  check_args b;;
  outputs ← all_outputs b;
  let inputs := boxes (box_selection b) in
  total_input_value ← unwrap_tx (sum_value inputs);
  total_output_value ← unwrap_tx (sum_value outputs);
  check_coins total_input_value total_output_value;;
  check_tokens inputs outputs (token_burn_permit b);;
  let unsigned_inputs := (fun i => mkInput (box_id i) (default empty_extension (context_extensions b !! box_id i))) <$> inputs in
  data ← (if (length (data_inputs b) =? 0)%nat then Ok None
          else Some <$> ok_or (tx_io_vec (data_inputs b)) (InvalidInputsCount (length (data_inputs b))));
  outputs ← ok_or (tx_io_vec outputs) (InvalidInputsCount (length outputs));
  unsigned_new unsigned_inputs data outputs.
End tx_builder.

(** * The checks of tokens *)

Section checks.
Context {SigmaSerializationError : Type} {Hash : HashOrder}.
Abbreviation Error := (TxBuilderError (SigmaSerializationError := SigmaSerializationError)).

Lemma hash_iter_lookup (m : TokenMap) id amt : (id, amt) ∈ hash_iter m <-> m !! id = Some amt.
Proof. rewrite hash_iter_perm. apply elem_of_map_to_list. Qed.

Lemma hash_iter_nodup (m : TokenMap) : NoDup (hash_iter m).*1.
Proof. rewrite hash_iter_perm. apply NoDup_fst_map_to_list. Qed.

(** A loop that checks each entry of a map. *)
Lemma check_loop_spec {E} (loop : list (list Z * Z) -> result E unit) (P : list Z -> Z -> Prop) :
  loop [] = Ok tt -> (forall id amt ps, loop ((id, amt) :: ps) = Ok tt <-> P id amt /\ loop ps = Ok tt) ->
  forall m, loop (hash_iter m) = Ok tt <-> forall id amt, m !! id = Some amt -> P id amt.
Proof.
  intros Hnil Hcons m. setoid_rewrite <- hash_iter_lookup. induction (hash_iter m) as [|[id amt] ps IH].
  - split; [by intros _ id amt ?%elem_of_nil|done].
  - rewrite Hcons, IH. split.
    + intros [HP H] id' amt' [[= -> ->]|Hin]%elem_of_cons; [done|by apply H].
    + intros H. split; [apply H; by left|]. intros id' amt' Hin. apply H. by right.
Qed.

(** Every amount of the one map is at most that of the other. *)
Definition map_le (m n : TokenMap) : Prop := forall id amt, m !! id = Some amt -> exists i, n !! id = Some i /\ amt <= i.

#[local] Ltac check_entry :=
  intros id amt ps; cbn; destruct (_ !! id) as [i|]; [|by split; [|intros [(j & ? & _) _]]];
  match goal with
  | |- context [?a >=? ?b] => destruct (Z.geb_spec a b) as [Hi|Hi]
  | |- context [?a >? ?b] => destruct (Z.gtb_spec a b) as [Hi|Hi]
  | |- context [?a <? ?b] => destruct (Z.ltb_spec a b) as [Hi|Hi]
  end;
  (split; [intros Hps; first [done|split; [exists i; split; [done|lia]|done]]|intros [(j & [= <-] & Hj) Hps]; first [done|lia]]).

Lemma check_enough_tokens_spec (m n : TokenMap) :
  check_enough_tokens n (hash_iter m) = @Ok Error _ tt <-> map_le m n.
Proof. apply (check_loop_spec (check_enough_tokens n)); [done|]. check_entry. Qed.

Lemma check_enough_permit_spec (burned permits : TokenMap) :
  check_enough_token_burn_permit burned permits = @Ok Error _ tt <-> map_le burned permits.
Proof. apply (check_loop_spec (check_enough_loop permits)); [done|]. check_entry. Qed.

Lemma check_unused_permit_spec (burned permits : TokenMap) :
  check_unused_token_burn_permit burned permits = @Ok Error _ tt <-> map_le permits burned.
Proof. apply (check_loop_spec (check_unused_loop burned)); [done|]. check_entry. Qed.
End checks.

(** ** What is burned *)

Section burned.
Context {Hash : HashOrder}.

Lemma amount_checked_sub_Ok a b c : amount_checked_sub a b = Ok c -> c = a - b /\ 0 < c.
Proof.
  unfold amount_checked_sub, checked_u64, AMOUNT_MIN_RAW. destruct (_ && _); cbn; [|done].
  destruct (Z.ltb_spec (a - b) 1); [done|]. intros [= <-]. lia.
Qed.

Lemma subtract_token_Ok res id o res' : subtract_token res (id, o) = Ok res' ->
  (exists i, res !! id = Some i /\ default 0 (res' !! id) = i - o) /\ (forall id', id' <> id -> res' !! id' = res !! id') /\
  (positive_map res -> positive_map res').
Proof.
  cbn. destruct (res !! id) as [i|] eqn:Ei; [|done]. destruct (Z.eqb_spec i o) as [->|].
  - intros [= <-]. split_and!.
    + exists o. rewrite lookup_delete_eq. cbn. split; [done|lia].
    + intros id' Hne. by rewrite lookup_delete_ne.
    + intros Hp id' l. destruct (decide (id = id')) as [<-|]; [by rewrite lookup_delete_eq|rewrite lookup_delete_ne by done; apply Hp].
  - intros H. apply bind_Ok_inv in H as (d & [-> Hd]%amount_checked_sub_Ok & H). injection H as <-. split_and!.
    + exists i. by rewrite lookup_insert_eq.
    + intros id' Hne. by rewrite lookup_insert_ne.
    + intros Hp id' l. destruct (decide (id = id')) as [<-|].
      * rewrite lookup_insert_eq. by intros [= <-].
      * rewrite lookup_insert_ne by done. apply Hp.
Qed.

Lemma subtract_loop_Ok ps : forall res B, NoDup ps.*1 -> subtract_loop res ps = Ok B ->
  (forall id, id ∉ ps.*1 -> B !! id = res !! id) /\
  (forall id o, (id, o) ∈ ps -> exists i, res !! id = Some i /\ default 0 (B !! id) = i - o) /\
  (positive_map res -> positive_map B).
Proof.
  induction ps as [|[id o] ps IH]; intros res B Hnd H; cbn [subtract_loop] in H.
  { injection H as <-. split_and!; [done|by intros id o ?%elem_of_nil|done]. }
  apply bind_Ok_inv in H as (res' & H1 & H). apply subtract_token_Ok in H1 as (Hi & Hne & Hp).
  cbn in Hnd. apply NoDup_cons in Hnd as [Hnotin Hnd]. destruct (IH res' B Hnd H) as (HB1 & HB2 & HB3). split_and!.
  - intros id' [Hid' Hin]%not_elem_of_cons. by rewrite HB1, Hne.
  - intros id' o' [[= -> ->]|Hin]%elem_of_cons; [by rewrite (HB1 id Hnotin)|].
    assert (id' <> id) as Hid' by (intros ->; apply Hnotin; apply list_elem_of_fmap; by exists (id, o')).
    rewrite <- (Hne id' Hid'). by apply HB2.
  - intros Hres. by apply HB3, Hp.
Qed.

(** The amounts that are left of a map. *)
Lemma subtract_tokens_Ok I O B : subtract_tokens I O = Ok B ->
  (forall id, default 0 (B !! id) = default 0 (I !! id) - default 0 (O !! id)) /\ (positive_map I -> positive_map B).
Proof.
  intros H. apply subtract_loop_Ok in H as (H1 & H2 & H3); [|apply hash_iter_nodup]. split; [|done]. intros id.
  destruct (O !! id) as [o|] eqn:E.
  - destruct (H2 id o) as (i & -> & ->); [by apply hash_iter_lookup|done].
  - rewrite H1; [cbn; lia|]. intros ([id' o] & -> & Hin)%list_elem_of_fmap_1. apply hash_iter_lookup in Hin. cbn in E. congruence.
Qed.

Lemma subtract_tokens_fits I O : map_le O I -> positive_map I -> (forall id i, I !! id = Some i -> i < 2 ^ 64) ->
  (forall id o, O !! id = Some o -> 0 <= o) -> exists B, subtract_tokens I O = Ok B.
Proof.
  unfold subtract_tokens. intros Hle HI Hmax HO.
  assert (forall id o, (id, o) ∈ hash_iter O -> exists i, I !! id = Some i /\ 0 <= o <= i /\ i < 2 ^ 64) as Hin.
  { intros id o Ho%hash_iter_lookup. destruct (Hle id o Ho) as (i & Hi & ?). exists i. split; [done|]. pose proof (HO id o Ho). pose proof (Hmax id i Hi). lia. }
  pose proof (hash_iter_nodup O) as Hnd. clear Hle HO Hmax HI. revert I Hnd Hin. induction (hash_iter O) as [|[id o] ps IH]; intros I Hnd Hin; [by eexists|].
  cbn [subtract_loop]. cbn in Hnd. apply NoDup_cons in Hnd as [Hnotin Hnd].
  destruct (Hin id o) as (i & Hi & Ho & Hmax); [by left|].
  assert (exists I', subtract_token I (id, o) = Ok I') as (I' & HI').
  { cbn. rewrite Hi. destruct (Z.eqb_spec i o); [by eexists|]. unfold amount_checked_sub, AMOUNT_MIN_RAW. rewrite checked_u64_id by lia.
    cbn. destruct (Z.ltb_spec (i - o) 1); [lia|]. by eexists. }
  rewrite HI'. cbn [mbind result_bind]. apply subtract_token_Ok in HI' as (_ & Hne & _). apply IH; [done|].
  intros id' o' Hin'. rewrite Hne; [apply Hin; by right|]. intros ->. apply Hnotin. apply list_elem_of_fmap. by exists (id, o').
Qed.

(** Permits that cover what is burned and are used up are what is burned. *)
Lemma permits_equal (B P : TokenMap) id : map_le B P -> map_le P B -> default 0 (B !! id) = default 0 (P !! id).
Proof.
  intros H1 H2. specialize (H1 id). specialize (H2 id). destruct (B !! id) as [b|], (P !! id) as [p|]; cbn; try done.
  - destruct (H1 b eq_refl) as (? & [= <-] & ?), (H2 p eq_refl) as (? & [= <-] & ?). unfold Datatypes.id. lia.
  - by destruct (H1 b eq_refl) as (? & ? & _).
  - by destruct (H2 p eq_refl) as (? & ? & _).
Qed.
End burned.

(** * The transaction *)

Section transaction.
Context {ErgoTree Constant SigmaSerializationError Address ContextExtension OutBox : Type}.
Context {S : Type} `{!ErgoBoxAssets S} `{!ErgoBoxId S} {Hash : HashOrder}.
Abbreviation candidate := (ErgoBoxCandidate (ErgoTree := ErgoTree) (Constant := Constant)).
Context (box_bytes : candidate -> list Z -> Z -> result SigmaSerializationError (list Z)).
Context (from_box_candidate' : candidate -> list Z -> Z -> result SigmaSerializationError OutBox).
Context (bytes_to_sign : list (UnsignedInput (ContextExtension := ContextExtension)) -> option (list (list Z)) -> list candidate ->
  result SigmaSerializationError (list Z)).
Context (blake2b256_hash : list Z -> list Z) (pay_to_address : Address -> option ErgoTree) (miners_fee_tree : ErgoTree).
Context (empty_extension : ContextExtension) (bytes_constant : list Z -> Constant).
Abbreviation build_tx := (build_tx box_bytes from_box_candidate' bytes_to_sign blake2b256_hash pay_to_address miners_fee_tree
  empty_extension bytes_constant).
Abbreviation tx_builder := (TxBuilder (ErgoTree := ErgoTree) (Constant := Constant) (Address := Address)
  (ContextExtension := ContextExtension) (S := S)).
Abbreviation unsigned_tx := (UnsignedTransaction (ErgoTree := ErgoTree) (Constant := Constant) (ContextExtension := ContextExtension) (OutBox := OutBox)).
Abbreviation all_outputs := (all_outputs (S := S) (ContextExtension := ContextExtension) box_bytes pay_to_address miners_fee_tree bytes_constant).

Lemma fold_add_token ts : forall b : ErgoBoxCandidateBuilder (ErgoTree := ErgoTree) (Constant := Constant),
  let b' := fold_left builder_add_token ts b in
  builder_value b' = builder_value b /\ builder_tokens b' = builder_tokens b ++ ts /\ minting_token b' = minting_token b /\
  builder_registers b' = builder_registers b /\ min_value_per_byte b' = min_value_per_byte b.
Proof.
  induction ts as [|t ts IH]; intros b; cbn; [by rewrite app_nil_r|].
  destruct (IH (builder_add_token b t)) as (-> & -> & -> & -> & ->). cbn. by rewrite <- app_assoc.
Qed.

Lemma change_candidate_Ok tree height b c : change_candidate box_bytes bytes_constant tree height b = Ok c ->
  value c = value b /\ default [] (tokens c) = default [] (tokens b).
Proof.
  intros H%map_err_Ok. apply build_box_Ok in H as (Hv & _ & _ & Ht & _).
  destruct (fold_add_token (default [] (tokens b)) (builder_new (value b) tree height)) as (E1 & E2 & E3 & _).
  cbn in *. rewrite Hv, Ht, E1, E2, E3. cbn. by rewrite app_nil_r.
Qed.

Lemma change_candidates_Ok tree height bs cs : mapM_res (change_candidate box_bytes bytes_constant tree height) bs = Ok cs ->
  total_value cs = total_value bs /\ box_tokens cs = box_tokens bs /\ value <$> cs = value <$> bs.
Proof.
  intros H%mapM_res_Forall2. induction H as [|b c bs cs Hc _ (IH1 & IH2 & IH3)]; [done|].
  apply change_candidate_Ok in Hc as [Hv Ht]. rewrite !box_tokens_cons, Ht, IH2, !fmap_cons, IH3, Hv. cbn [total_value]. by rewrite IH1, Hv.
Qed.

Lemma all_outputs_Ok (b : tx_builder) outputs : all_outputs b = Ok outputs ->
  total_value outputs = total_value (output_candidates b) + total_value (change_boxes (box_selection b)) + fee_amount b /\
  box_tokens outputs = box_tokens (output_candidates b) ++ box_tokens (change_boxes (box_selection b)) /\
  exists change fee, outputs = output_candidates b ++ change ++ [fee] /\ candidate_value fee = fee_amount b /\
    (value <$> change) = (value <$> change_boxes (box_selection b)).
Proof.
  unfold TxBuilder.all_outputs. intros H. apply bind_Ok_inv in H as (tree & _ & H).
  apply bind_Ok_inv in H as (change & (Hv & Ht & Hvs)%change_candidates_Ok & H).
  apply bind_Ok_inv in H as (fee & (Hfv & _ & _ & Hft & _)%map_err_Ok%build_box_Ok & H). cbn in Hfv, Hft.
  destruct (_ <? _)%nat; [done|]. injection H as <-. rewrite !box_tokens_app, !total_value_app, Hv, Ht.
  assert (box_tokens [fee] = []) as -> by (unfold box_tokens; cbn; by rewrite Hft).
  assert (total_value [fee] = fee_amount b) as -> by (cbn; by rewrite Z.add_0_r).
  split_and!; [lia|by rewrite app_nil_r|by exists change, fee].
Qed.

Lemma lookup_without_minted (fid : list Z) (m : TokenMap) (id : list Z) : without_minted fid m !! id = if decide (id = fid) then None else m !! id.
Proof.
  unfold without_minted. destruct (decide (id = fid)) as [->|Hne].
  - apply map_lookup_filter_None. right. cbn. by intros ? _ ?.
  - apply option_eq. intros x. rewrite map_lookup_filter_Some. cbn. naive_solver.
Qed.

Lemma tally_default (ts : list Token) (id : list Z) : default 0 (tally ∅ ts !! id) = amount_of id ts.
Proof. rewrite tally_empty. destruct (decide _); [done|]. by rewrite amount_of_notin. Qed.

(** A list whose set is as large has no duplicates. *)
Lemma size_nodup (l : list (list Z)) : (size (list_to_set (C := gset (list Z)) l) <= length l)%nat /\
  (size (list_to_set (C := gset (list Z)) l) = length l -> NoDup l).
Proof.
  induction l as [|x l [IH1 IH2]]; [by split; [|intros _; constructor]|]. cbn [list_to_set length].
  destruct (decide (x ∈ l)) as [Hin|Hin].
  - rewrite (subseteq_union_1_L {[x]}) by (intros y ->%elem_of_singleton; by apply elem_of_list_to_set). split; lia.
  - rewrite size_union, size_singleton by (intros y ->%elem_of_singleton ?%elem_of_list_to_set; done). split; [lia|].
    intros E. constructor; [done|]. apply IH2. lia.
Qed.

(** What the checks of tokens guarantee. *)
Lemma check_tokens_Ok (inputs : list S) (outputs : list candidate) permit :
  check_tokens (SigmaSerializationError := SigmaSerializationError) inputs outputs permit = Ok tt ->
  exists first, head inputs = Some first /\
    forall id, amount_of id (box_tokens inputs) =
      (if decide (id = box_id first) then 0 else amount_of id (box_tokens outputs)) + amount_of id permit.
Proof.
  unfold check_tokens. intros H. apply bind_Ok_inv in H as (I & ->%map_err_Ok%sum_tokens_from_boxes_Ok & H).
  apply bind_Ok_inv in H as (O & ->%map_err_Ok%sum_tokens_from_boxes_Ok & H). apply bind_Ok_inv in H as (first & Hf%ok_or_Ok & H).
  destruct (_ <? _)%nat; [done|]. apply bind_Ok_inv in H as ([] & _ & H).
  apply bind_Ok_inv in H as (B & [HB _]%map_err_Ok%subtract_tokens_Ok & H). apply bind_Ok_inv in H as (P & ->%map_err_Ok%add_tokens_Ok & H).
  apply bind_Ok_inv in H as ([] & H1%check_enough_permit_spec & H2%check_unused_permit_spec).
  exists first. split; [done|]. intros id. pose proof (permits_equal _ _ id H1 H2) as E. rewrite HB, !tally_default, lookup_without_minted in E.
  destruct (decide (id = box_id first)); cbn in E; [lia|]. rewrite tally_default in E. lia.
Qed.

(** C36: a built transaction spends exactly the selected boxes, each once; its outputs are the given ones, the boxes of
    change and the fee; their values add up to those of the inputs; and of every token but one the outputs together with the
    burn permit hold what the inputs hold. The exception is a token minted under the first input's id: what the outputs hold
    of it is free, and what the inputs hold under that id is burned by permit. *)
Theorem tx_preserves (b : tx_builder) (tx : unsigned_tx) :
  build_tx b = Ok tx ->
  let inputs := boxes (box_selection b) in
  (input_box_id <$> tx_inputs tx) = (box_id <$> inputs) /\ NoDup (box_id <$> inputs) /\
  total_value inputs = total_value (tx_output_candidates tx) /\
  (exists change fee, tx_output_candidates tx = output_candidates b ++ change ++ [fee] /\ candidate_value fee = fee_amount b /\
    (value <$> change) = (value <$> change_boxes (box_selection b))) /\
  exists first, head inputs = Some first /\
    (forall id, id <> box_id first ->
      amount_of id (box_tokens inputs) = amount_of id (box_tokens (tx_output_candidates tx)) + amount_of id (token_burn_permit b)) /\
    amount_of (box_id first) (box_tokens inputs) = amount_of (box_id first) (token_burn_permit b).
Proof.
  intros H inputs. unfold TxBuilder.build_tx in H. apply bind_Ok_inv in H as ([] & Hargs & H). apply bind_Ok_inv in H as (outputs & Hout & H).
  apply bind_Ok_inv in H as (v1 & Hv1%ok_or_Ok%sum_value_Some & H). apply bind_Ok_inv in H as (v2 & Hv2%ok_or_Ok%sum_value_Some & H).
  apply bind_Ok_inv in H as ([] & Hcoins & H). apply bind_Ok_inv in H as ([] & (first & Hf & Htok)%check_tokens_Ok & H).
  apply bind_Ok_inv in H as (data & _ & H). apply bind_Ok_inv in H as (outs & Hio%ok_or_Ok & H).
  assert (outs = outputs) as -> by (unfold tx_io_vec in Hio; destruct (_ && _); by simplify_eq).
  unfold unsigned_new in H. apply bind_Ok_inv in H as (? & _ & H). apply bind_Ok_inv in H as (bytes & _ & H).
  apply bind_Ok_inv in H as (bxs & _ & H). injection H as <-. cbn [tx_inputs tx_output_candidates].
  apply all_outputs_Ok in Hout as (_ & _ & Hout). subst inputs. split_and!.
  - by rewrite <- list_fmap_compose.
  - unfold check_args in Hargs. destruct (_ =? _)%nat; [done|]. destruct (_ <? _)%nat; [done|].
    destruct (negb _) eqn:E; [done|]. apply negb_false_iff, Nat.eqb_eq in E. apply size_nodup. by rewrite length_fmap.
  - unfold check_coins in Hcoins. destruct (Z.gtb_spec v2 v1), (Z.ltb_spec v2 v1); try done. lia.
  - exact Hout.
  - exists first. split; [done|]. split; [|by rewrite Htok, decide_True].
    intros id Hid. specialize (Htok id). by rewrite decide_False in Htok.
Qed.

(** ** A transaction on a selection *)

Lemma map_le_default (m n : TokenMap) : positive_map m -> (forall id, default 0 (m !! id) <= default 0 (n !! id)) -> map_le m n.
Proof.
  intros Hm H id l Hl. pose proof (Hm id l Hl). specialize (H id). rewrite Hl in H. cbn in H. unfold Datatypes.id in H.
  destruct (n !! id) as [i|]; cbn in H; [|lia]. by exists i.
Qed.

Lemma tally_positive (ts : list Token) : Forall (fun t => 0 < amount t) ts -> positive_map (tally ∅ ts).
Proof. intros H id l. rewrite tally_empty. destruct (decide _); [|done]. intros [= <-]. by apply amount_of_in. Qed.

Lemma check_tokens_fits (inputs : list S) (outputs : list candidate) permit first :
  head inputs = Some first -> box_id first ∉ (token_id <$> box_tokens outputs) ->
  Forall (fun t => 0 < amount t) (box_tokens inputs) -> sums_fit (box_tokens inputs) ->
  Forall (fun t => 0 < amount t) (box_tokens outputs) -> Forall (fun t => 0 < amount t) permit ->
  (forall id, amount_of id (box_tokens inputs) = amount_of id (box_tokens outputs) + amount_of id permit) ->
  check_tokens (SigmaSerializationError := SigmaSerializationError) inputs outputs permit = Ok tt.
Proof.
  intros Hf Hmint Hi Hsum Ho Hp E. pose proof (amounts_positive_wf _ Ho) as Ho'. pose proof (amounts_positive_wf _ Hp) as Hp'. pose proof (amounts_positive_wf _ Hi) as Hi'.
  assert (forall id, 0 <= amount_of id (box_tokens outputs) /\ 0 <= amount_of id permit) as H0 by (split; by apply amount_of_nonneg).
  unfold check_tokens.
  rewrite (sum_tokens_from_boxes_fits inputs) by done. cbn [result_map_err mbind result_bind].
  rewrite (sum_tokens_from_boxes_fits outputs); [|done|intros id; pose proof (Hsum id); pose proof (H0 id); pose proof (E id); lia].
  cbn [result_map_err mbind result_bind]. rewrite Hf. cbn [unwrap_tx ok_or mbind result_bind].
  assert (without_minted (box_id first) (tally ∅ (box_tokens outputs)) = tally ∅ (box_tokens outputs)) as ->.
  { apply map_eq. intros id. rewrite lookup_without_minted. destruct (decide _) as [->|]; [|done]. by rewrite tally_empty, decide_False. }
  rewrite Nat.sub_diag. cbn [Nat.ltb Nat.leb].
  assert (map_le (tally ∅ (box_tokens outputs)) (tally ∅ (box_tokens inputs))) as Hle.
  { apply map_le_default; [by apply tally_positive|]. intros id. rewrite !tally_default. pose proof (H0 id). pose proof (E id). lia. }
  rewrite (proj2 (check_enough_tokens_spec _ _) Hle). cbn [mbind result_bind].
  destruct (subtract_tokens_fits _ _ Hle) as [B HB]; [by apply tally_positive| | |].
  { intros id i. rewrite tally_empty. destruct (decide _); [|done]. intros [= <-]. pose proof (Hsum id). unfold AMOUNT_MAX_RAW in *. lia. }
  { intros id o. rewrite tally_empty. destruct (decide _); [|done]. intros [= <-]. apply H0. }
  rewrite HB. cbn [result_map_err mbind result_bind]. unfold vec_tokens_to_map. rewrite add_tokens_fits; [|intros id; by rewrite lookup_empty|done|].
  2: { intros id. rewrite lookup_empty. cbn. pose proof (Hsum id). pose proof (H0 id). pose proof (E id). lia. }
  cbn [result_map_err mbind result_bind]. apply subtract_tokens_Ok in HB as [HB HBp].
  assert (forall id, default 0 (B !! id) = amount_of id permit) as HBE by (intros id; rewrite HB, !tally_default; pose proof (E id); lia).
  rewrite (proj2 (check_enough_permit_spec _ _)); [cbn [mbind result_bind]; apply check_unused_permit_spec|]; apply map_le_default.
  - by apply tally_positive.
  - intros id. rewrite HBE, tally_default. lia.
  - by apply HBp, tally_positive.
  - intros id. rewrite HBE, tally_default. lia.
Qed.

Lemma tx_io_vec_None {A} (l : list A) : length l <> 0%nat -> tx_io_vec l = None -> (MAX_INPUTS < length l)%nat.
Proof.
  intros Hl. unfold tx_io_vec. destruct (Nat.leb_spec 1 (length l)), (Nat.leb_spec (length l) MAX_INPUTS); cbn; try done. lia.
Qed.

Lemma output_boxes_Err id outputs e : output_boxes from_box_candidate' id outputs = Err e -> exists c i, from_box_candidate' c id i = Err e.
Proof.
  unfold output_boxes. induction (enumerate outputs) as [|[n c] l IH]; cbn; [done|].
  destruct (from_box_candidate' c id (wrap_u 16 (Z.of_nat n))) as [d|err] eqn:E; cbn; [|intros [= <-]; by exists c, (wrap_u 16 (Z.of_nat n))].
  destruct (mapM_res _ l); cbn; [done|]. intros [= <-]. by apply IH.
Qed.

(** Why a transaction on a selection may be refused: what it is given is none or too much, the address is none, the bytes of
    a box or of the transaction cannot be made, or the fee or a box of change is worth less than its size asks for. *)
Definition refused (b : tx_builder) (e : TxBuilderError) : Prop :=
  let num_outputs := (length (output_candidates b) + length (change_boxes (box_selection b)) + 1)%nat in
  match e with
  | TxInvalidArgs OutputsEmpty => output_candidates b = []
  | TxInvalidArgs TooManyDataInputs => (MAX_U16 < length (data_inputs b))%nat
  | TxInvalidArgs TooManyOutputs => (MAX_OUTPUTS_COUNT < num_outputs)%nat
  | AddressError => pay_to_address (change_address b) = None
  | TxBoxBuilder (BoxValueTooLow v low n) =>
      (v = fee_amount b \/ v ∈ assets_value <$> change_boxes (box_selection b)) /\ low = Z.of_nat n * MIN_VALUE_PER_BOX_BYTE /\
      box_value_as_i64 v < low
  | TxBoxBuilder (BuilderSerialization err) => exists c, box_bytes c (repeat 0 32) 1 = Err err
  | TxBoxBuilder BuilderPanicked =>
      exists c bytes, box_bytes c (repeat 0 32) 1 = Ok bytes /\ 2 ^ 63 <= Z.of_nat (length bytes) * MIN_VALUE_PER_BOX_BYTE
  | InvalidInputsCount n => (MAX_INPUTS < n)%nat /\ (n = length (data_inputs b) \/ n = num_outputs)
  | TxSerialization err =>
      (exists inputs data outputs, bytes_to_sign inputs data outputs = Err err) \/ (exists c id i, from_box_candidate' c id i = Err err)
  | TxPanicked => exists c i err, from_box_candidate' c (repeat 0 32) i = Err err
  | _ => False
  end.

Lemma plain_builder_Err v tree height ts e : (length ts <= MAX_TOKENS_COUNT)%nat ->
  build box_bytes bytes_constant (fold_left builder_add_token ts (builder_new v tree height)) = Err e ->
  exists e', e = TxBoxBuilder e' /\
  match e' with
  | BoxValueTooLow v' low n => v' = v /\ low = Z.of_nat n * MIN_VALUE_PER_BOX_BYTE /\ box_value_as_i64 v < low
  | BuilderSerialization err => exists c, box_bytes c (repeat 0 32) 1 = Err err
  | BuilderPanicked => exists c bytes, box_bytes c (repeat 0 32) 1 = Ok bytes /\ 2 ^ 63 <= Z.of_nat (length bytes) * MIN_VALUE_PER_BOX_BYTE
  | _ => False
  end.
Proof.
  intros Hlen. unfold build. destruct (build_box _ _ _) as [|e'] eqn:E; cbn; [done|]. intros [= <-]. exists e'. split; [done|].
  destruct (fold_add_token ts (builder_new v tree height)) as (E1 & E2 & E3 & E4 & E5). cbn in E1, E2, E3, E4, E5.
  apply build_box_Err in E; [|done|done|by rewrite E2]. rewrite E1, E5 in E. destruct e'; try done. by destruct E as (-> & -> & ?).
Qed.

Lemma all_outputs_Err (b : tx_builder) e :
  Forall (fun c => length (default [] (assets_tokens c)) <= MAX_TOKENS_PER_CHANGE_BOX)%nat (change_boxes (box_selection b)) ->
  all_outputs b = Err e -> refused b e.
Proof.
  intros Hch. unfold TxBuilder.all_outputs. destruct (pay_to_address _) as [tree|] eqn:Ea; cbn [ok_or mbind result_bind]; [|by intros [= <-]].
  destruct (mapM_res _ _) as [cs|e'] eqn:Hcs; cbn [mbind result_bind].
  - destruct (new_miner_fee_box _ _ _ _ _) as [fee|e'] eqn:Hfee; cbn [mbind result_bind].
    + destruct (Nat.ltb_spec MAX_OUTPUTS_COUNT (length (output_candidates b ++ cs ++ [fee]))) as [Hlt|]; [|done]. intros [= <-]. cbn.
      apply mapM_res_length in Hcs. rewrite !length_app in Hlt. cbn in Hlt. lia.
    + intros [= <-]. destruct (plain_builder_Err _ _ _ [] _ (Nat.le_0_l _) Hfee) as (err & -> & H). destruct err; try done.
      destruct H as (-> & -> & ?). cbn. auto.
  - intros [= <-]. cut (exists err c, c ∈ change_boxes (box_selection b) /\ change_candidate box_bytes bytes_constant tree (current_height b) c = Err err /\ err = e').
    { intros (err & c & Hc & He & ->). rewrite Forall_forall in Hch. pose proof (Hch c Hc) as Hlen. cbn beta in Hlen.
      apply plain_builder_Err in He as (err & -> & H); [|by etransitivity; [exact Hlen|apply Nat.leb_le]].
      destruct err; try done. destruct H as (-> & -> & ?). cbn. split_and!; [|done|done]. right. by apply (list_elem_of_fmap_2 assets_value). }
    clear -Hcs. induction (change_boxes (box_selection b)) as [|c l IH]; [done|]. cbn in Hcs.
    destruct (change_candidate _ _ _ _ c) as [d|e2] eqn:Hd; cbn in Hcs.
    + destruct (mapM_res _ l); cbn in Hcs; [done|]. destruct (IH Hcs) as (err & c' & ? & ? & ?). exists err, c'. split_and!; [by right|done|done].
    + injection Hcs as <-. exists e2, c. split_and!; [by left|done|done].
Qed.

Lemma check_args_Err (b : tx_builder) e :
  NoDup (box_id <$> boxes (box_selection b)) -> (length (boxes (box_selection b)) <= MAX_INPUTS)%nat ->
  check_args b = Err e -> refused b e.
Proof.
  intros Hnd Hlen. unfold check_args.
  destruct (Nat.eqb_spec (length (output_candidates b)) 0) as [Hz|]; [intros [= <-]; by apply nil_length_inv|].
  destruct (Nat.ltb_spec MAX_U16 (length (boxes (box_selection b)))); [unfold MAX_U16, MAX_INPUTS in *; lia|].
  rewrite size_list_to_set by done. rewrite length_fmap, Nat.eqb_refl. cbn [negb].
  destruct (Nat.ltb_spec MAX_U16 (length (data_inputs b))); [by intros [= <-]|done].
Qed.

(** What is left when the checks are passed: the bounded vectors, and the transaction with its bytes. *)
Lemma made_Err (b : tx_builder) inputs (outputs : list candidate) e :
  length outputs = (length (output_candidates b) + length (change_boxes (box_selection b)) + 1)%nat ->
  (data ← (if (length (data_inputs b) =? 0)%nat then Ok None
           else Some <$> ok_or (tx_io_vec (data_inputs b)) (InvalidInputsCount (length (data_inputs b))));
   outputs ← ok_or (tx_io_vec outputs) (InvalidInputsCount (length outputs));
   unsigned_new from_box_candidate' bytes_to_sign blake2b256_hash inputs data outputs) = Err e ->
  refused b e.
Proof.
  intros Hcount.
  destruct (if (length (data_inputs b) =? 0)%nat then _ else _) as [data|e1] eqn:Hdata; cbn [mbind result_bind].
  2: { intros [= <-]. destruct (Nat.eqb_spec (length (data_inputs b)) 0); [done|]. destruct (tx_io_vec (data_inputs b)) eqn:Eio; cbn in Hdata; [done|].
    injection Hdata as <-. cbn. apply tx_io_vec_None in Eio; [|done]. auto. }
  destruct (tx_io_vec outputs) as [outs|] eqn:Eio; cbn [ok_or mbind result_bind].
  2: { intros [= <-]. cbn. apply tx_io_vec_None in Eio; [|lia]. auto. }
  unfold unsigned_new. destruct (output_boxes _ _ _) as [?|e1] eqn:Hob; cbn [result_map_err mbind result_bind].
  2: { intros [= <-]. apply output_boxes_Err in Hob as (c & i & Hc). cbn. eauto. }
  destruct (bytes_to_sign _ _ _) as [bytes|e1] eqn:Eb; cbn [result_map_err mbind result_bind]; [|intros [= <-]; left; eauto].
  destruct (output_boxes from_box_candidate' (blake2b256_hash bytes) outs) eqn:Hob2; cbn; [done|]. intros [= <-]. right.
  apply output_boxes_Err in Hob2 as (c & i & Hc). eauto.
Qed.

(** C37: a transaction built on the selection for exactly what its outputs, its fee and its burn permit hold is never refused
    for its inputs, for missing or left coins, or for its tokens, and no sum overflows. All that can refuse it ([refused]):
    no outputs, too many outputs or data inputs, no script of the change address, bytes of a box or of the transaction that
    cannot be made (or, of 2^63 / 360 and more, counted), and the fee or a box of change whose value is below the minimum
    for its size. (The selection knows only the least value of any box: a change of 20000 can be too low for the box it
    makes.) The inputs have distinct ids, none of which is the id of a token in them. *)
Theorem selection_builds (inputs : list S) (target_balance : Z) (target_tokens : list Token) (b : tx_builder) :
  selection_wf inputs target_balance target_tokens -> NoDup (box_id <$> inputs) ->
  (forall i, i ∈ inputs -> box_id i ∉ (token_id <$> box_tokens inputs)) ->
  select inputs target_balance target_tokens = Ok (box_selection b) ->
  target_balance = total_value (output_candidates b) + fee_amount b ->
  (forall id, amount_of id target_tokens = amount_of id (box_tokens (output_candidates b)) + amount_of id (token_burn_permit b)) ->
  0 <= fee_amount b -> Forall (fun c => 0 <= value c) (output_candidates b) ->
  Forall (fun t => 0 < amount t) (box_tokens (output_candidates b)) -> Forall (fun t => 0 < amount t) (token_burn_permit b) ->
  forall e, build_tx b = Err e -> refused b e.
Proof.
  intros Hwf Hnd Hmint Hsel Hbal Htok Hfee Hvs Hts Hperm e Herr.
  pose proof (select_cases _ _ _ Hwf) as Hcase. rewrite Hsel in Hcase. destruct Hcase as (_ & _ & Hchpos).
  apply select_Ok in Hsel as ((rest & Hp) & Hlen & Hcheck & s & Hmk). apply check_sound in Hcheck as (Hv & Ha & Hkeys & Hsum).
  apply make_change_bounds in Hmk.
  destruct (part_fits _ (wf_values _ _ _ Hwf) (wf_amounts _ _ _ Hwf) _ _ Hp) as (Hval & Ham & Hpos & _).
  pose proof (wf_total _ _ _ Hwf) as Hmax. unfold BOX_MAX_RAW in Hmax. revert Herr. unfold TxBuilder.build_tx.
  destruct (check_args b) as [[]|e1] eqn:Hargs; cbn [mbind result_bind].
  2: { intros [= <-]. apply check_args_Err; [|by apply Hlen|done]. rewrite <- Hp, fmap_app in Hnd. by apply NoDup_app in Hnd as [? _]. }
  destruct (all_outputs b) as [outputs|e1] eqn:Hout; cbn [mbind result_bind].
  2: { intros [= <-]. apply all_outputs_Err; [|done]. eapply Forall_impl; [exact Hmk|]. by intros c [_ ?]. }
  apply all_outputs_Ok in Hout as (Hov & Hot & change & fee & -> & Hfv & Hch).
  assert (total_value (boxes (box_selection b)) = total_value (output_candidates b ++ change ++ [fee])) as Heq by lia.
  set (outputs := output_candidates b ++ change ++ [fee]) in *.
  assert (Forall (fun c => 0 <= value c) outputs) as Hnn.
  { subst outputs. rewrite !Forall_app, Forall_singleton. split_and!; [done| |by rewrite <- Hfv in Hfee].
    assert (Forall (fun v => 0 <= v) (value <$> change)) as Hx; [|exact (proj1 (Forall_fmap _ _ _) Hx)].
    rewrite Hch. apply Forall_fmap, (Forall_impl _ _ _ Hmk). intros c [?%bounds_Z _]. cbn. lia. }
  assert (length outputs = length (output_candidates b) + length (change_boxes (box_selection b)) + 1)%nat as Hcount.
  { subst outputs. apply (f_equal length) in Hch. rewrite !length_fmap in Hch. rewrite !length_app. cbn. lia. }
  clearbody outputs. rewrite Hsum. cbn [unwrap_tx ok_or mbind result_bind]. rewrite (sum_value_fits outputs) by (done || lia).
  cbn [unwrap_tx ok_or mbind result_bind]. unfold check_coins. rewrite <- Heq, Z.gtb_ltb, Z.ltb_irrefl. cbn [mbind result_bind].
  destruct (boxes (box_selection b)) as [|first others] eqn:Hboxes; [cbn in Hlen; lia|].
  rewrite (check_tokens_fits (first :: others) outputs (token_burn_permit b) first); try done.
  2: { rewrite Hot, fmap_app, elem_of_app. assert (box_id first ∉ token_id <$> box_tokens (first :: others)) as Hnot.
    { intros Hin. apply (Hmint first); [rewrite <- Hp; by left|]. rewrite <- Hp, box_tokens_app, fmap_app, elem_of_app. by left. }
    intros [Hin|Hin]; [|by apply Hnot, Hkeys]. apply Hnot, amount_of_in; [done|].
    apply (amount_of_in _ _ Hts) in Hin. pose proof (Htok (box_id first)). pose proof (Ha (box_id first)).
    pose proof (amount_of_nonneg (box_id first) _ (amounts_positive_wf _ Hperm)).
    pose proof (amount_of_nonneg (box_id first) _ (amounts_positive_wf _ Hchpos)). lia. }
  2: { intros id. pose proof (Ham id). pose proof (wf_sums _ _ _ Hwf id). lia. }
  2: { rewrite Hot. by apply Forall_app. }
  2: { intros id. rewrite Hot, amount_of_app, Ha, Htok. lia. }
  by apply made_Err.
Qed.
End transaction.

(** ** A concrete transaction *)

Module Example_tx.
#[local] Existing Instance map_to_list_order.

Definition box : Type := list Z * ErgoBoxAssetsData.
#[export] Instance box_assets : ErgoBoxAssets box := {| value := fun b => assets_value b.2; tokens := fun b => assets_tokens b.2 |}.
#[export] Instance box_has_id : ErgoBoxId box := fst.

Definition inputs : list box := [([1], mkAssets 2000000 (Some [mkToken [9] 5])); ([2], mkAssets 100000 None)].
Definition wanted : list Token := [mkToken [9] 4].

(** Boxes of 100 bytes, whose id is their index; the id of a transaction is its number of outputs. *)
Definition candidate : Type := ErgoBoxCandidate (ErgoTree := unit) (Constant := list Z).
Definition box_bytes : candidate -> list Z -> Z -> result unit (list Z) := fun _ _ _ => Ok (repeat 0 100).
Definition from_box_candidate : candidate -> list Z -> Z -> result unit (candidate * list Z) := fun c id i => Ok (c, id ++ [i]).
Definition bytes_to_sign : list UnsignedInput -> option (list (list Z)) -> list candidate -> result unit (list Z) :=
  fun (_ : list (UnsignedInput (ContextExtension := unit))) _ outputs => Ok [Z.of_nat (length outputs)].

Definition selection : BoxSelection box := mkSelection inputs [mkAssets 1000000 (Some [mkToken [9] 1])].
Definition output : candidate := mkCandidate 1000000 tt (Some [mkToken [9] 3]) [] 7.
Definition builder : TxBuilder (ErgoTree := unit) (Constant := list Z) (Address := unit) (ContextExtension := unit) (S := box) :=
  set_token_burn_permit (tx_builder_new selection [output] 10 100000 tt) [mkToken [9] 1].
Definition run := build_tx box_bytes from_box_candidate bytes_to_sign (fun h => h) (fun _ : unit => Some tt) tt tt (fun c : list Z => c) builder.

Lemma tx_preserves_witness : exists tx, run = Ok tx /\
  let inputs := boxes (box_selection builder) in
  (input_box_id <$> tx_inputs tx) = (box_id <$> inputs) /\ NoDup (box_id <$> inputs) /\
  total_value inputs = total_value (tx_output_candidates tx) /\
  (exists change fee, tx_output_candidates tx = output_candidates builder ++ change ++ [fee] /\ candidate_value fee = fee_amount builder /\
    (value <$> change) = (value <$> change_boxes (box_selection builder))) /\
  exists first, head inputs = Some first /\
    (forall id, id <> box_id first ->
      amount_of id (box_tokens inputs) = amount_of id (box_tokens (tx_output_candidates tx)) + amount_of id (token_burn_permit builder)) /\
    amount_of (box_id first) (box_tokens inputs) = amount_of (box_id first) (token_burn_permit builder).
Proof.
  eexists. split; [vm_compute; reflexivity|].
  apply (tx_preserves box_bytes from_box_candidate bytes_to_sign (fun h => h) (fun _ => Some tt) tt tt (fun c => c) builder).
  vm_compute. reflexivity.
Defined.

Lemma inputs_wf : selection_wf inputs 1100000 wanted.
Proof.
  split; [by repeat constructor|done|by vm_compute|by repeat constructor|by repeat constructor| |];
    intros id; cbn; unfold AMOUNT_MAX_RAW; destruct (decide _); lia.
Qed.

Lemma selection_builds_witness : (exists tx, run = Ok tx) /\
  forall e, run = Err e -> refused box_bytes from_box_candidate bytes_to_sign (fun _ : unit => Some tt) builder e.
Proof.
  split; [eexists; vm_compute; reflexivity|].
  apply (selection_builds box_bytes from_box_candidate bytes_to_sign (fun h => h) (fun _ => Some tt) tt tt (fun c => c) inputs 1100000 wanted builder).
  - apply inputs_wf.
  - refine (bool_decide_unpack _ _). vm_compute. exact I.
  - intros i [->|[->|?%elem_of_nil]%elem_of_cons]%elem_of_cons; [| |done]; cbn; intros [?|?%elem_of_nil]%elem_of_cons; done.
  - vm_compute. reflexivity.
  - reflexivity.
  - intros id. cbn. destruct (decide _); lia.
  - cbn. lia.
  - by repeat constructor.
  - by repeat constructor.
  - by repeat constructor.
Defined.

(** The selection knows the least value of any box, the builder that of each box: a box of change of 20000 is selected and
    then refused, for its 100 bytes ask for 36000. *)
Definition poor_inputs : list box := [([1], mkAssets 1050000 None)].
Definition poor_builder (selection : BoxSelection box) :=
  tx_builder_new (ErgoTree := unit) (Constant := list Z) (Address := unit) (ContextExtension := unit) selection
    [mkCandidate 990000 tt None [] 7] 10 40000 tt.

Lemma change_too_low : exists selection, select poor_inputs 1030000 [] = Ok selection /\
  build_tx box_bytes from_box_candidate bytes_to_sign (fun h => h) (fun _ : unit => Some tt) tt tt (fun c : list Z => c) (poor_builder selection) =
    Err (TxBoxBuilder (BoxValueTooLow 20000 36000 100)).
Proof. exists (mkSelection poor_inputs [mkAssets 20000 None]). split; vm_compute; reflexivity. Qed.
End Example_tx.
