(* ===== verification/TxContext.v ===== *)
(** Transactions and what they are judged in: boxes as an interface, signed and unsigned transactions
    (src/ergo-lib/src/chain/transaction.rs, transaction/input.rs, transaction/ergo_transaction.rs), the voted parameters
    and the state context (chain/parameters.rs, chain/ergo_state_context.rs), [TransactionContext] (wallet/tx_context.rs)
    and the script context made from it (wallet/signing.rs). *)

From stdpp Require Import gmap.
From S2P Require Import ProofTree Prelude SigmaBoolean SigSerializer SigmaSerial Header Types Expr Value Reduce Tokens BoxSelector BoxBuilder TxBuilder.
#[local] Open Scope Z_scope.

(** An input that is not signed; [ContextExtension] is the constants of its values. *)
Abbreviation extended_input := (UnsignedInput (ContextExtension := list (Z * Constant))).

(** * Boxes *)

Section boxes.
Context `{C : SigmaCrypto} {Bx : ErgoBoxData}.


(** What transactions use of [ErgoBox]: the fields it has of a candidate, its id, and the bytes of boxes, scripts and
    transactions, whose serialization is not modelled. *)
Class ErgoBoxes : Type := {
  RegisterValue : Type;
  RegisterValue_eq_dec :: EqDecision RegisterValue;
  box_candidate : ErgoBox -> ErgoBoxCandidate (ErgoTree := ParsedErgoTree) (Constant := RegisterValue);
  id_of_box : ErgoBox -> list Z;
  from_box_candidate : ErgoBoxCandidate (ErgoTree := ParsedErgoTree) (Constant := RegisterValue) -> list Z -> Z ->
    result SigmaSerializationError ErgoBox;
  bytes_of_box : ErgoBox -> result SigmaSerializationError (list Z);
  script_bytes : ErgoBox -> result SigmaSerializationError (list Z);
  tx_bytes : Z -> list extended_input -> option (list (list Z)) ->
    list (ErgoBoxCandidate (ErgoTree := ParsedErgoTree) (Constant := RegisterValue)) -> result SigmaSerializationError (list Z)
}.

Class ErgoBoxesLaws `{!ErgoBoxes} : Prop := {
  from_candidate c tx_id i b : from_box_candidate c tx_id i = Ok b -> box_candidate b = c
}.
End boxes.

Abbreviation Candidate := (ErgoBoxCandidate (ErgoTree := ParsedErgoTree) (Constant := RegisterValue)).

Abbreviation unsigned_transaction := (UnsignedTransaction (ErgoTree := ParsedErgoTree) (Constant := RegisterValue)
  (ContextExtension := list (Z * Constant)) (OutBox := ErgoBox)).

Section context.
Context `{C : SigmaCrypto} {Bx : ErgoBoxData} `{!ErgoBoxes}.

#[global] Instance ergo_box_assets : ErgoBoxAssets ErgoBox :=
  {| value := fun b => candidate_value (box_candidate b); tokens := fun b => candidate_tokens (box_candidate b) |}.
#[global] Instance ergo_box_id : ErgoBoxId ErgoBox := id_of_box.
Definition box_creation_height (b : ErgoBox) : Z := creation_height (box_candidate b).
Definition box_ergo_tree (b : ErgoBox) : ParsedErgoTree := ergo_tree (box_candidate b).

(** * Transactions *)

Record ProverResult : Type := mkProverResult { proof : ProofBytes; extension : list (Z * Constant) }.
Record Input : Type := mkSignedInput { box_id_of_input : list Z; spending_proof : ProverResult }.

(** [Transaction]; its vectors have 1 to i16::MAX items. *)
Record Transaction : Type := mkTransaction {
  signed_tx_id : list Z;
  id_version : Z;
  signed_inputs : list Input;
  signed_data_inputs : option (list (list Z));
  signed_output_candidates : list Candidate;
  signed_outputs : list ErgoBox
}.

(** An input without its proof, [Input::input_to_sign]. *)
Definition input_to_sign (i : Input) : extended_input := mkInput (box_id_of_input i) (extension (spending_proof i)).

Definition bytes_to_sign (tx : Transaction) : result SigmaSerializationError (list Z) :=
  tx_bytes (id_version tx) (input_to_sign <$> signed_inputs tx) (signed_data_inputs tx) (signed_output_candidates tx).

Definition BUILT_ID_VERSION : Z := 3.

Definition transaction_new_at (inputs : list Input) (data : option (list (list Z))) (candidates : list Candidate) (version : Z)
    : result SigmaSerializationError Transaction :=
  zero ← output_boxes from_box_candidate (repeat 0 32) candidates;
  bytes ← bytes_to_sign (mkTransaction (repeat 0 32) version inputs data candidates zero);
  let id := blake2b256_hash bytes in
  boxes ← output_boxes from_box_candidate id candidates;
  Ok (mkTransaction id version inputs data candidates boxes).
Definition transaction_new (inputs : list Input) (data : option (list (list Z))) (candidates : list Candidate)
    : result SigmaSerializationError Transaction :=
  transaction_new_at inputs data candidates BUILT_ID_VERSION.

(** [UnsignedInput::input_to_sign], and [UnsignedTransaction::bytes_to_sign]. *)
Definition unsigned_input_to_sign (i : extended_input) : Input :=
  mkSignedInput (input_box_id i) (mkProverResult ProofEmpty (input_extension i)).
Definition unsigned_bytes_to_sign (tx : unsigned_transaction) : result SigmaSerializationError (list Z) :=
  tx ← transaction_new (unsigned_input_to_sign <$> tx_inputs tx) (tx_data_inputs tx) (tx_output_candidates tx);
  bytes_to_sign tx.

(** The trait [ErgoTransaction] with its [ContextExtensionProvider]. *)
Class ErgoTransaction (T : Type) : Type := {
  inputs_ids : T -> list (list Z);
  tx_data_input_ids : T -> option (list (list Z));
  outputs_of : T -> list ErgoBox;
  context_extension : T -> nat -> option (list (Z * Constant))
}.
#[global] Instance signed_transaction : ErgoTransaction Transaction := {|
  inputs_ids tx := box_id_of_input <$> signed_inputs tx;
  tx_data_input_ids := signed_data_inputs;
  outputs_of := signed_outputs;
  context_extension tx i := (fun input => extension (spending_proof input)) <$> signed_inputs tx !! i
|}.
#[global] Instance unsigned_ergo_transaction : ErgoTransaction unsigned_transaction := {|
  inputs_ids tx := input_box_id <$> tx_inputs tx;
  tx_data_input_ids := tx_data_inputs;
  outputs_of := tx_outputs;
  context_extension tx i := input_extension <$> tx_inputs tx !! i
|}.
End context.

(** * Voted parameters and the state *)

Inductive ChainParameter : Type :=
| StorageFeeFactor | MinValuePerByte | MaxBlockSize | MaxBlockCost | TokenAccessCost | InputCost | DataInputCost | OutputCost
| SubblocksPerBlock | SoftForkVotesCollected | SoftForkStartingHeight | BlockVersion.

#[export] Instance ChainParameter_eq_dec : EqDecision ChainParameter.
Proof. solve_decision. Defined.

(** The discriminants of [Parameter]. *)
Definition parameter_number (p : ChainParameter) : Z :=
  match p with
  | StorageFeeFactor => 1 | MinValuePerByte => 2 | MaxBlockSize => 3 | MaxBlockCost => 4 | TokenAccessCost => 5
  | InputCost => 6 | DataInputCost => 7 | OutputCost => 8 | SubblocksPerBlock => 9 | SoftForkVotesCollected => 121
  | SoftForkStartingHeight => 122 | BlockVersion => 123
  end.
Definition all_parameters : list ChainParameter :=
  [StorageFeeFactor; MinValuePerByte; MaxBlockSize; MaxBlockCost; TokenAccessCost; InputCost; DataInputCost; OutputCost;
   SubblocksPerBlock; SoftForkVotesCollected; SoftForkStartingHeight; BlockVersion].
#[export] Instance ChainParameter_countable : Countable ChainParameter.
Proof.
  refine (inj_countable parameter_number (fun z => find (fun p => parameter_number p =? z) all_parameters) _).
  by intros [].
Defined.

(** [Parameters]: indexing the table panics where the parameter is absent, [None]. *)
Abbreviation ParametersTable := (gmap ChainParameter Z).

Definition parameters_new (block_version storage_fee_factor min_value_per_byte max_block_size max_block_cost
    token_access_cost input_cost data_input_cost output_cost : Z) : ParametersTable :=
  <[OutputCost := output_cost]> (<[DataInputCost := data_input_cost]> (<[InputCost := input_cost]>
  (<[TokenAccessCost := token_access_cost]> (<[MaxBlockCost := max_block_cost]> (<[MaxBlockSize := max_block_size]>
  (<[MinValuePerByte := min_value_per_byte]> (<[StorageFeeFactor := storage_fee_factor]>
  (<[BlockVersion := block_version]> ∅)))))))).
Definition default_parameters : ParametersTable := parameters_new 1 1250000 (30 * 12) (512 * 1024) 1000000 100 2000 100 100.

Section state.
Context `{C : SigmaCrypto}.

Record ErgoStateContext : Type := mkStateContext {
  pre_header : PreHeader;
  headers : list Header;
  parameters : ParametersTable
}.

Definition state_block_version (sc : ErgoStateContext) : option Z := wrap_s 8 <$> parameters sc !! BlockVersion.
End state.

(** * The context of a transaction *)

Inductive TransactionContextError : Type :=
| InputNofFound (i : nat)
| NoInputBoxes
| TooManyInputBoxes (n : nat)
| InputBoxNotFound (i : nat)
| TooManyDataInputBoxes (n : nat)
| DataInputBoxNotFound (i : nat)
(** A panic of [make_context]: the parameters have no block version, or there is no header. *)
| ContextPanicked.

Section transaction_context.
Context `{C : SigmaCrypto} {Bx : ErgoBoxData} `{!ErgoBoxes}.

(** [box_index]: the last position of each id. *)
Definition index_boxes (bs : list ErgoBox) : gmap (list Z) Z :=
  fold_left (fun m p => <[box_id p.2 := wrap_u 16 (Z.of_nat p.1)]> m) (enumerate bs) ∅.

(** The first position from [i] whose id is not in the index. *)
Fixpoint first_missing (index : gmap (list Z) Z) (ids : list (list Z)) (i : nat) : option nat :=
  match ids with
  | [] => None
  | id :: ids => if decide (is_Some (index !! id)) then first_missing index ids (S i) else Some i
  end.

Record TransactionContext (T : Type) : Type := mkTxContext {
  spending_tx : T;
  boxes_to_spend : list ErgoBox;
  data_boxes : option (list ErgoBox);
  box_index : gmap (list Z) Z
}.
#[global] Arguments mkTxContext {T} _ _ _ _.
#[global] Arguments spending_tx {T} _.
#[global] Arguments boxes_to_spend {T} _.
#[global] Arguments data_boxes {T} _.
#[global] Arguments box_index {T} _.

Context {T : Type} `{!ErgoTransaction T}.

Definition check_data_inputs (tx : T) (data : option (list ErgoBox)) : result TransactionContextError unit :=
  match tx_data_input_ids tx with
  | None => Ok tt
  | Some ids =>
      match data with
      | None => Err (DataInputBoxNotFound 0)
      | Some bs =>
          match first_missing (index_boxes bs) ids 0 with Some i => Err (DataInputBoxNotFound i) | None => Ok tt end
      end
  end.

(** [TransactionContext::new] *)
Definition tx_context_new (tx : T) (to_spend data : list ErgoBox) : result TransactionContextError (TransactionContext T) :=
  to_spend ← (if (length to_spend <? 1)%nat then Err NoInputBoxes
              else if (MAX_INPUTS <? length to_spend)%nat then Err (TooManyInputBoxes (length to_spend)) else Ok to_spend);
  data ← (if (length data =? 0)%nat then Ok None
          else match tx_io_vec data with Some bs => Ok (Some bs) | None => Err (TooManyDataInputBoxes (length data)) end);
  let index := index_boxes to_spend in
  match first_missing index (inputs_ids tx) 0 with
  | Some i => Err (InputBoxNotFound i)
  | None => check_data_inputs tx data;; Ok (mkTxContext tx to_spend data index)
  end.

Definition get_input_box (tc : TransactionContext T) (id : list Z) : option ErgoBox :=
  i ← box_index tc !! id; boxes_to_spend tc !! Z.to_nat i.

(** ** The script context of an input *)

(** The self box and the extension of an input: what [make_context] and [update_context] set. *)
Definition self_of_input (tc : TransactionContext T) (self_index : nat) : result TransactionContextError ErgoBox :=
  id ← ok_or (inputs_ids (spending_tx tc) !! self_index) (InputNofFound self_index);
  ok_or (get_input_box tc id) (InputBoxNotFound self_index).
Definition extension_of_input (tc : TransactionContext T) (self_index : nat) : result TransactionContextError (list (Z * Constant)) :=
  ok_or (context_extension (spending_tx tc) self_index) (InputNofFound self_index).

Definition find_data_box (tc : TransactionContext T) (p : nat * list Z) : result TransactionContextError ErgoBox :=
  bs ← ok_or (data_boxes tc) (DataInputBoxNotFound p.1);
  ok_or (find (fun b => bool_decide (p.2 = box_id b)) bs) (DataInputBoxNotFound p.1).

Definition data_inputs_ir (tc : TransactionContext T) : result TransactionContextError (option (list ErgoBox)) :=
  match tx_data_input_ids (spending_tx tc) with
  | None => Ok None
  | Some ids =>
      bs ← mapM_res (find_data_box tc) (enumerate ids);
      Some <$> ok_or (tx_io_vec bs) (TooManyDataInputBoxes (length ids))
  end.

Definition inputs_ir (tc : TransactionContext T) : result TransactionContextError (list ErgoBox) :=
  let ids := inputs_ids (spending_tx tc) in
  bs ← mapM_res (fun p => ok_or (get_input_box tc p.2) (InputBoxNotFound p.1)) (enumerate ids);
  ok_or (tx_io_vec bs) (TooManyInputBoxes (length ids)).

(** [make_context]; the limit on the cost and the accumulated cost start at none and zero. *)
Definition make_context (sc : ErgoStateContext) (tc : TransactionContext T) (self_index : nat)
    : result TransactionContextError EvalContext :=
  self ← self_of_input tc self_index;
  data ← data_inputs_ir tc;
  ins ← inputs_ir tc;
  ext ← extension_of_input tc self_index;
  version ← ok_or (state_block_version sc) ContextPanicked;
  newest ← ok_or (head (headers sc)) ContextPanicked;
  Ok (mkEvalContext (wrap_s 8 (version - 1)) ext 0 None None (ph_height (pre_header sc)) self (outputs_of (spending_tx tc))
    ins data (headers sc) (pre_header sc) (mkAvlTreeData (state_root newest) 7 32 None)).

Definition with_self (ctx : EvalContext) (self : ErgoBox) (ext : list (Z * Constant)) : EvalContext :=
  mkEvalContext (activated_script_version_byte ctx) ext (tree_version ctx) (jit_cost_limit ctx) (constants ctx) (ctx_height ctx)
    self (outputs ctx) (inputs ctx) (ctx_data_inputs ctx) (ctx_headers ctx) (ctx_pre_header ctx) (last_block_utxo_root ctx).
Definition with_limit (ctx : EvalContext) (limit : option Z) : EvalContext :=
  mkEvalContext (activated_script_version_byte ctx) (ctx_extension ctx) (tree_version ctx) limit (constants ctx)
    (ctx_height ctx) (self_box ctx) (outputs ctx) (inputs ctx) (ctx_data_inputs ctx) (ctx_headers ctx) (ctx_pre_header ctx)
    (last_block_utxo_root ctx).

Definition update_context (ctx : EvalContext) (tc : TransactionContext T) (self_index : nat)
    : result TransactionContextError EvalContext :=
  self ← self_of_input tc self_index;
  ext ← extension_of_input tc self_index;
  Ok (with_self ctx self ext).
End transaction_context.

(** * What the context of a transaction promises *)

Section promises.
Context `{C : SigmaCrypto} {Bx : ErgoBoxData} `{!ErgoBoxes}.

Lemma index_from (bs : list ErgoBox) : forall n (m : gmap (list Z) Z) id,
  let m' := fold_left (fun m p => <[box_id p.2 := wrap_u 16 (Z.of_nat p.1)]> m) (enumerate_from n bs) m in
  (forall k, m' !! id = Some k -> m !! id = Some k \/ exists i b, bs !! i = Some b /\ box_id b = id /\ k = wrap_u 16 (Z.of_nat (n + i))) /\
  (is_Some (m' !! id) <-> is_Some (m !! id) \/ id ∈ box_id <$> bs).
Proof.
  induction bs as [|b bs IH]; intros n m id; cbn [enumerate_from fold_left fst snd].
  { cbn. split; [auto|]. rewrite elem_of_nil. naive_solver. }
  destruct (IH (S n) (<[box_id b := wrap_u 16 (Z.of_nat n)]> m) id) as [Hk Hs]. split.
  - intros k Hm. destruct (Hk k Hm) as [Hl|(i & b' & Hi & Hb & ->)].
    + destruct (decide (box_id b = id)) as [He|He]; [rewrite He, lookup_insert_eq in Hl|rewrite lookup_insert_ne in Hl by done; by left].
      injection Hl as <-. right. exists 0%nat, b. by rewrite Nat.add_0_r.
    + right. exists (S i), b'. split_and!; [done|done|]. do 2 f_equal. lia.
  - etransitivity; [exact Hs|]. cbn [fmap list_fmap]. rewrite elem_of_cons.
    destruct (decide (box_id b = id)) as [He|He]; [rewrite He, lookup_insert_eq|rewrite lookup_insert_ne by done]; naive_solver.
Qed.

(** The index finds exactly the ids of the boxes, each at a position of a box with that id. *)
Lemma index_found (bs : list ErgoBox) id k : (length bs <= MAX_INPUTS)%nat -> index_boxes bs !! id = Some k ->
  exists b, bs !! Z.to_nat k = Some b /\ box_id b = id.
Proof.
  intros Hl Hk. destruct (index_from bs 0 ∅ id) as [Hi _].
  destruct (Hi k Hk) as [Hn|(i & b & Hb & Hid & ->)]; [by rewrite lookup_empty in Hn|]. exists b. split; [|done].
  pose proof (lookup_lt_Some _ _ _ Hb). unfold MAX_INPUTS in Hl. rewrite wrap_u_id, Nat2Z.id; [done|]. unfold in_u. lia.
Qed.

Lemma index_has (bs : list ErgoBox) id : is_Some (index_boxes bs !! id) <-> id ∈ box_id <$> bs.
Proof. destruct (index_from bs 0 ∅ id) as [_ Hi]. unfold index_boxes. rewrite Hi, lookup_empty. split; [intros [[]|]|]; auto. done. Qed.

Lemma first_missing_None index ids i : first_missing index ids i = None <-> Forall (fun id => is_Some (index !! id)) ids.
Proof.
  revert i. induction ids as [|id ids IH]; intros i; cbn; [by split; [constructor|]|]. rewrite Forall_cons.
  case_decide; [rewrite IH|]; naive_solver.
Qed.

Lemma first_missing_Some index ids i k : first_missing index ids i = Some k ->
  exists id, ids !! (k - i)%nat = Some id /\ index !! id = None /\ (i <= k)%nat.
Proof.
  revert i. induction ids as [|id ids IH]; intros i Hm; cbn in Hm; [done|].
  case_decide as Hd.
  - destruct (IH _ Hm) as (id' & Hl & Hn & Hle). exists id'. replace (k - i)%nat with (S (k - S i)) by lia. split_and!; [done|done|lia].
  - injection Hm as <-. exists id. rewrite Nat.sub_diag. split_and!; [done| |lia]. by apply eq_None_not_Some.
Qed.

Context {T : Type} `{!ErgoTransaction T}.

(** A well-formed transaction: its inputs each have an extension, and its vectors are in their bounds. *)
Record tx_vectors (tx : T) : Prop := {
  vec_inputs : (1 <= length (inputs_ids tx) <= MAX_INPUTS)%nat;
  vec_data ids : tx_data_input_ids tx = Some ids -> (1 <= length ids <= MAX_INPUTS)%nat;
  vec_extension i : (i < length (inputs_ids tx))%nat -> is_Some (context_extension tx i)
}.

Lemma tx_io_vec_Some {A} (l : list A) : (1 <= length l <= MAX_INPUTS)%nat -> tx_io_vec l = Some l.
Proof. unfold tx_io_vec. destruct (Nat.leb_spec 1 (length l)), (Nat.leb_spec (length l) MAX_INPUTS); done || lia. Qed.

(** The boxes of ids that are all in the index. *)
Lemma boxes_of_ids {A} (f : nat * A -> result TransactionContextError ErgoBox) l :
  (forall i x, l !! i = Some x -> exists b, f (i, x) = Ok b) -> exists bs, mapM_res f (enumerate l) = Ok bs /\ length bs = length l.
Proof.
  assert (forall n, (forall i x, l !! i = Some x -> exists b, f ((n + i)%nat, x) = Ok b) ->
    exists bs, mapM_res f (enumerate_from n l) = Ok bs /\ length bs = length l) as Hn.
  { induction l as [|x l IH]; intros n Hf; [by exists []|]. cbn.
    destruct (Hf 0%nat x eq_refl) as [b Hb]. rewrite Nat.add_0_r in Hb. rewrite Hb. cbn.
    destruct (IH (S n)) as (bs & -> & Hl); [|exists (b :: bs); cbn; by rewrite Hl].
    intros i y Hy. replace (S n + i)%nat with (n + S i)%nat by lia. by apply Hf. }
  intros Hf. by apply (Hn 0%nat).
Qed.

Section of_context.
Context (tx : T) (bs : list ErgoBox) (data : option (list ErgoBox)).
Hypothesis (Hbs : (length bs <= MAX_INPUTS)%nat) (Hids : Forall (fun id => is_Some (index_boxes bs !! id)) (inputs_ids tx)).
Hypothesis (Hdata : check_data_inputs tx data = Ok tt).
Abbreviation tc := (mkTxContext tx bs data (index_boxes bs)).

Lemma input_box_found id : id ∈ inputs_ids tx -> exists b, get_input_box tc id = Some b /\ b ∈ bs /\ box_id b = id.
Proof.
  intros Hin. rewrite Forall_forall in Hids. destruct (Hids id Hin) as [k Hk].
  destruct (index_found bs id k Hbs Hk) as (b & Hb & Hid). exists b. unfold get_input_box. cbn. rewrite Hk. cbn.
  split_and!; [done| |done]. by eapply list_elem_of_lookup_2.
Qed.

Lemma inputs_ir_ids : tx_vectors tx -> exists ins, inputs_ir tc = Ok ins /\ (box_id <$> ins) = inputs_ids tx.
Proof.
  intros [Hv _ _]. unfold inputs_ir. cbn [spending_tx].
  set (f := fun p : nat * list Z => ok_or (get_input_box tc p.2) (InputBoxNotFound p.1)).
  destruct (boxes_of_ids f (inputs_ids tx)) as (ins & Hins & Hl).
  { intros i id Hi. destruct (input_box_found id (list_elem_of_lookup_2 _ _ _ Hi)) as (b & Hb & _). exists b. unfold f. cbn. by rewrite Hb. }
  rewrite Hins. cbn [mbind result_bind]. rewrite tx_io_vec_Some by (rewrite Hl; exact Hv). exists ins. split; [done|].
  apply mapM_res_Forall2 in Hins. apply list_eq. intros i. rewrite list_lookup_fmap.
  destruct (ins !! i) as [b|] eqn:Ei.
  - destruct (Forall2_lookup_r _ _ _ _ _ Hins Ei) as ([j id] & Hj & Hf). rewrite lookup_enumerate_from in Hj.
    destruct (inputs_ids tx !! i) as [id'|] eqn:Eid; [|done]. cbn in Hj. injection Hj as <- <-. unfold f in Hf. cbn in Hf.
    destruct (input_box_found id' (list_elem_of_lookup_2 _ _ _ Eid)) as (b' & Hb' & _ & Hid). rewrite Hb' in Hf. injection Hf as <-.
    cbn. by rewrite Hid.
  - cbn. symmetry. apply lookup_ge_None. apply lookup_ge_None in Ei. lia.
Qed.

Lemma data_inputs_found : tx_vectors tx -> exists ds, data_inputs_ir tc = Ok ds.
Proof.
  intros [_ Hv _]. unfold data_inputs_ir, check_data_inputs in *. cbn [spending_tx].
  destruct (tx_data_input_ids tx) as [ids|]; [|by exists None]. specialize (Hv ids eq_refl).
  destruct data as [ds|] eqn:Ed in Hdata; [|done]. destruct (first_missing _ _ _) eqn:Em; [done|]. apply first_missing_None in Em.
  destruct (boxes_of_ids (find_data_box tc) ids) as (found & Hf & Hl).
  { intros i id Hi. unfold find_data_box. cbn [data_boxes]. rewrite Ed. cbn [fst snd ok_or mbind result_bind].
    destruct (find (fun b => bool_decide (id = box_id b)) ds) as [b|] eqn:Ef; [by exists b|]. exfalso.
    rewrite Forall_forall in Em. specialize (Em id (list_elem_of_lookup_2 _ _ _ Hi)). apply index_has in Em.
    apply list_elem_of_fmap in Em as (b & -> & Hb). apply list_elem_of_In in Hb. pose proof (find_none _ _ Ef b Hb) as Hne.
    by apply bool_decide_eq_false in Hne. }
  rewrite Hf. cbn. rewrite tx_io_vec_Some by (rewrite Hl; exact Hv). by eexists.
Qed.

Lemma context_made sc i :
  tx_vectors tx -> is_Some (state_block_version sc) -> headers sc <> [] -> (i < length (inputs_ids tx))%nat ->
  exists ctx, make_context sc tc i = Ok ctx /\ inputs_ids tx !! i = Some (box_id (self_box ctx)) /\
    (box_id <$> inputs ctx) = inputs_ids tx /\ outputs ctx = outputs_of tx.
Proof.
  intros Hv [version Hver] Hh Hi. destruct (lookup_lt_is_Some_2 _ _ Hi) as [id Hid].
  destruct (input_box_found id (list_elem_of_lookup_2 _ _ _ Hid)) as (b & Hb & _ & Hbid).
  destruct (inputs_ir_ids Hv) as (ins & Hins & Hmap), (data_inputs_found Hv) as [ds Hds], (vec_extension tx Hv i Hi) as [ext Hext].
  unfold make_context, self_of_input, extension_of_input. cbn [spending_tx]. rewrite Hid. cbn [ok_or mbind result_bind]. rewrite Hb.
  cbn [ok_or mbind result_bind]. rewrite Hds, Hins, Hext, Hver. cbn [ok_or mbind result_bind].
  destruct (headers sc) as [|newest hs] eqn:Eh; [done|]. eexists. split; [reflexivity|]. cbn. by rewrite Hbid.
Qed.
End of_context.

(** ** Contexts that differ in their input *)

(** [ctx] is [ctx0] with another self box, extension or limit. *)
Definition same_base (ctx0 ctx : EvalContext) : Prop := exists self ext limit, ctx = with_limit (with_self ctx0 self ext) limit.

Lemma update_makes sc (tc : TransactionContext T) i j ctx0 ctx ctx' :
  make_context sc tc j = Ok ctx0 -> same_base ctx0 ctx -> update_context ctx tc i = Ok ctx' ->
  same_base ctx0 ctx' /\ make_context sc tc i = Ok (with_limit ctx' None).
Proof.
  unfold make_context, update_context. intros Hm (self & ext & limit & ->) Hu.
  apply bind_Ok_inv in Hu as (self' & Hs & Hu). apply bind_Ok_inv in Hu as (ext' & He & Hu). injection Hu as <-.
  split; [by exists self', ext', limit|]. rewrite Hs, He.
  apply bind_Ok_inv in Hm as (? & _ & Hm). apply bind_Ok_inv in Hm as (data & -> & Hm). apply bind_Ok_inv in Hm as (ins & -> & Hm).
  apply bind_Ok_inv in Hm as (? & _ & Hm). apply bind_Ok_inv in Hm as (version & -> & Hm). apply bind_Ok_inv in Hm as (newest & -> & Hm).
  by injection Hm as <-.
Qed.

Lemma make_context_inv sc (tc : TransactionContext T) i ctx :
  make_context sc tc i = Ok ctx ->
  exists id, inputs_ids (spending_tx tc) !! i = Some id /\ get_input_box tc id = Some (self_box ctx) /\
    context_extension (spending_tx tc) i = Some (ctx_extension ctx) /\ jit_cost_limit ctx = None.
Proof.
  unfold make_context. intros Hm.
  apply bind_Ok_inv in Hm as (self & Hs & Hm). apply bind_Ok_inv in Hm as (? & _ & Hm). apply bind_Ok_inv in Hm as (? & _ & Hm).
  apply bind_Ok_inv in Hm as (ext & He & Hm). apply bind_Ok_inv in Hm as (? & _ & Hm). apply bind_Ok_inv in Hm as (? & _ & Hm).
  injection Hm as <-. cbn. revert Hs He. unfold self_of_input, extension_of_input.
  destruct (inputs_ids _ !! i) as [id|]; [|done]. cbn. destruct (get_input_box tc id) as [b|] eqn:Eb; [|done].
  destruct (context_extension _ i) as [e|]; [|done]. intros [= <-] [= <-]. exists id. by rewrite Eb.
Qed.

(** The context of a transaction exists exactly where there are boxes for all its inputs and data inputs, in
    the bounds of its vectors, and otherwise names the first missing one; in it every input has its box, and the script
    context of every input is made, over the boxes of all inputs in their order. *)
Theorem tx_context_correct (tx : T) (bs ds : list ErgoBox) :
  match tx_context_new tx bs ds with
  | Ok tc =>
      spending_tx tc = tx /\ boxes_to_spend tc = bs /\
      (forall id, id ∈ inputs_ids tx -> exists b, get_input_box tc id = Some b /\ b ∈ bs /\ box_id b = id) /\
      forall sc i, tx_vectors tx -> is_Some (state_block_version sc) -> headers sc <> [] -> (i < length (inputs_ids tx))%nat ->
        exists ctx, make_context sc tc i = Ok ctx /\ inputs_ids tx !! i = Some (box_id (self_box ctx)) /\
          (box_id <$> inputs ctx) = inputs_ids tx /\ outputs ctx = outputs_of tx
  | Err NoInputBoxes => bs = []
  | Err (TooManyInputBoxes n) => n = length bs /\ (MAX_INPUTS < n)%nat
  | Err (InputBoxNotFound i) => exists id, inputs_ids tx !! i = Some id /\ id ∉ (box_id <$> bs)
  | Err (TooManyDataInputBoxes n) => n = length ds /\ (MAX_INPUTS < n)%nat
  | Err (DataInputBoxNotFound i) =>
      exists ids, tx_data_input_ids tx = Some ids /\ forall id, ids !! i = Some id -> id ∉ (box_id <$> ds)
  | Err _ => False
  end.
Proof.
  unfold tx_context_new. destruct bs as [|b0 bs']; [done|]. remember (b0 :: bs') as bs eqn:Ebs.
  assert ((length bs <? 1)%nat = false) as -> by by subst. destruct (Nat.ltb_spec MAX_INPUTS (length bs)); [done|].
  cbn [mbind result_bind].
  assert (forall i, first_missing (index_boxes bs) (inputs_ids tx) 0 = Some i -> exists id, inputs_ids tx !! i = Some id /\ id ∉ (box_id <$> bs)) as Hmiss.
  { intros i (id & Hid & Hn & _)%first_missing_Some. rewrite Nat.sub_0_r in Hid. exists id. split; [done|].
    rewrite <- index_has, Hn. by intros []. }
  assert (forall data, (data = None /\ ds = [] \/ data = Some ds) ->
    match check_data_inputs tx data with Ok _ => True | Err (DataInputBoxNotFound i) =>
      exists ids, tx_data_input_ids tx = Some ids /\ forall id, ids !! i = Some id -> id ∉ (box_id <$> ds) | Err _ => False end) as Hdm.
  { unfold check_data_inputs. intros data [[-> ->]| ->]; destruct (tx_data_input_ids tx) as [ids|]; [| done| |done].
    - exists ids. split; [done|]. intros id _. apply not_elem_of_nil.
    - destruct (first_missing (index_boxes ds) ids 0) as [i|] eqn:Em; [|done]. apply first_missing_Some in Em as (id & Hid & Hn & _).
      rewrite Nat.sub_0_r in Hid. exists ids. split; [done|]. intros id' Hid'. rewrite Hid in Hid'. injection Hid' as <-.
      rewrite <- index_has, Hn. by intros []. }
  destruct (Nat.eqb_spec (length ds) 0) as [Hz|Hz].
  2: unfold tx_io_vec; destruct (Nat.leb_spec 1 (length ds)), (Nat.leb_spec (length ds) MAX_INPUTS); cbn [andb]; [|first [by split|lia]..].
  all: cbn [mbind result_bind]; destruct (first_missing _ (inputs_ids tx) 0) as [i|] eqn:Em; [by apply Hmiss|];
    apply first_missing_None in Em.
  - specialize (Hdm None ltac:(left; split; [done|by apply nil_length_inv])).
    destruct (check_data_inputs tx None) as [[]|[]] eqn:Ec; cbn; try done.
    split_and!; [done|done| |]; intros; [by apply input_box_found|by apply context_made].
  - specialize (Hdm (Some ds) ltac:(by right)).
    destruct (check_data_inputs tx (Some ds)) as [[]|[]] eqn:Ec; cbn; try done.
    split_and!; [done|done| |]; intros; [by apply input_box_found|by apply context_made].
Qed.
End promises.

(** * Transactions that spend the same *)

Section same.
Context `{C : SigmaCrypto} {Bx : ErgoBoxData} `{!ErgoBoxes} {T T' : Type} `{!ErgoTransaction T} `{!ErgoTransaction T'}.

Record same_spending (tx : T) (tx' : T') : Prop := {
  same_inputs : inputs_ids tx' = inputs_ids tx;
  same_data : tx_data_input_ids tx' = tx_data_input_ids tx;
  same_outputs : outputs_of tx' = outputs_of tx;
  same_extension i : context_extension tx' i = context_extension tx i
}.

(** The context of the one with the other in its place. *)
Definition respend (tc : TransactionContext T) (tx' : T') : TransactionContext T' :=
  mkTxContext tx' (boxes_to_spend tc) (data_boxes tc) (box_index tc).

Lemma respend_new (tx : T) (tx' : T') bs ds tc :
  same_spending tx tx' -> tx_context_new tx bs ds = Ok tc -> spending_tx tc = tx /\ tx_context_new tx' bs ds = Ok (respend tc tx').
Proof.
  intros [Hi Hd _ _]. unfold tx_context_new, check_data_inputs. rewrite Hi, Hd. intros Hn.
  apply bind_Ok_inv in Hn as (bs' & -> & Hn). apply bind_Ok_inv in Hn as (data & -> & Hn). cbn [mbind result_bind].
  cbv zeta in *. destruct (first_missing _ _ _); [done|]. apply bind_Ok_inv in Hn as (u & -> & Hn). by injection Hn as <-.
Qed.

Lemma respend_self (tc : TransactionContext T) (tx' : T') i :
  same_spending (spending_tx tc) tx' -> self_of_input (respend tc tx') i = self_of_input tc i.
Proof. intros [Hi _ _ _]. unfold self_of_input. cbn [respend spending_tx]. by rewrite Hi. Qed.

Lemma respend_extension (tc : TransactionContext T) (tx' : T') i :
  same_spending (spending_tx tc) tx' -> extension_of_input (respend tc tx') i = extension_of_input tc i.
Proof. intros [_ _ _ He]. unfold extension_of_input. cbn [respend spending_tx]. by rewrite He. Qed.

Lemma respend_update (tc : TransactionContext T) (tx' : T') ctx i :
  same_spending (spending_tx tc) tx' -> update_context ctx (respend tc tx') i = update_context ctx tc i.
Proof. intros Hs. unfold update_context. by rewrite respend_self, respend_extension. Qed.

Lemma respend_make sc (tc : TransactionContext T) (tx' : T') i :
  same_spending (spending_tx tc) tx' -> make_context sc (respend tc tx') i = make_context sc tc i.
Proof.
  intros Hs. unfold make_context. rewrite respend_self, respend_extension by done.
  assert (data_inputs_ir (respend tc tx') = data_inputs_ir tc) as ->
    by (unfold data_inputs_ir; cbn [respend spending_tx]; by rewrite (same_data _ _ Hs)).
  assert (inputs_ir (respend tc tx') = inputs_ir tc) as ->
    by (unfold inputs_ir; cbn [respend spending_tx]; by rewrite (same_inputs _ _ Hs)).
  cbn [respend spending_tx]. by rewrite (same_outputs _ _ Hs).
Qed.
End same.
