(* ===== verification/StorageRent.v ===== *)
(** Spending a box by storage rent (src/ergo-lib/src/chain/transaction/storage_rent.rs): the verdict for an input, with the
    32-bit arithmetic of the fee, and what a spend by rent keeps of the box. *)

From stdpp Require Import gmap.
From S2P Require Import Prelude SigmaBoolean SigSerializer SigmaSerial Types Expr Value Reduce Tokens BoxBuilder TxBuilder TxContext.
#[local] Open Scope Z_scope.

Definition STORAGE_PERIOD : Z := 1051200.
Definition STORAGE_EXTENSION_INDEX : Z := 127.
Definition STORAGE_CONTRACT_COST : Z := 50.

Inductive StorageRentVerdict : Type := NotApplicable | Verdict (b : bool).
#[export] Instance StorageRentVerdict_eq_dec : EqDecision StorageRentVerdict.
Proof. solve_decision. Defined.

Section storage_rent.
Context `{C : SigmaCrypto} {Bx : ErgoBoxData} `{!ErgoBoxes}.

(** [ContextExtension::get_constant] *)
Definition get_constant (ext : list (Z * Constant)) (id : Z) : option Constant := snd <$> find (fun p => p.1 =? id) ext.

(** [ErgoBox::tokens_raw]: ids and amounts as i64. *)
Definition tokens_raw (b : ErgoBox) : list (list Z * Z) := (fun t => (token_id t, wrap_s 64 (amount t))) <$> default [] (tokens b).

(** The registers R1, R2 and R4 to R9 of two boxes, in this order up to the first that differs; a script that cannot be
    written is a panic, [None]. *)
Definition correct_registers (self output : ErgoBox) : option bool :=
  s1 ← match script_bytes self with Ok s => Some s | Err _ => None end;
  s2 ← match script_bytes output with Ok s => Some s | Err _ => None end;
  Some (bool_decide (s1 = s2) && bool_decide (tokens_raw self = tokens_raw output) &&
    forallb (fun r => bool_decide
        (additional_registers (box_candidate self) !! Z.to_nat (register_number r - 4) =
         additional_registers (box_candidate output) !! Z.to_nat (register_number r - 4)))
      REG_IDS).

Definition check_expired_box (self output : ErgoBox) (box_bytes_len : nat) (current_height storage_fee_factor : Z) : option bool :=
  let storage_fee := wrap_s 32 (storage_fee_factor * wrap_s 32 (Z.of_nat box_bytes_len)) in
  let box_value := wrap_s 64 (value self) in
  let storage_fee_not_covered := wrap_s 64 (box_value - storage_fee) <=? 0 in
  let correct_creation_height := box_creation_height output =? current_height in
  let correct_out_value := wrap_s 64 (value output) >=? wrap_s 64 (box_value - storage_fee) in
  if storage_fee_not_covered then Some true
  else if correct_creation_height && correct_out_value then correct_registers self output
  else Some false.

(** [TryExtractInto<i16>] for the value of a constant. *)
Definition extract_i16 (l : Literal) : option Z := match l with LShort z => Some z | _ => None end.

(** [None] is a panic. *)
Definition rent_verdict_for_empty_proof (sc : ErgoStateContext) (ctx : EvalContext) : option StorageRentVerdict :=
  let height := ph_height (ctx_pre_header ctx) in
  let age := wrap_s 32 (wrap_s 32 height - wrap_s 32 (box_creation_height (self_box ctx))) in
  if age <? STORAGE_PERIOD then Some NotApplicable
  else
    match
      var ← get_constant (ctx_extension ctx) STORAGE_EXTENSION_INDEX;
      idx ← extract_i16 (const_v var);
      output ← (if 0 <=? idx then outputs ctx !! Z.to_nat idx else None);
      bytes ← match bytes_of_box (self_box ctx) with Ok bytes => Some bytes | Err _ => None end;
      Some (output, length bytes)
    with
    | None => Some NotApplicable
    | Some (output, box_bytes_len) =>
        factor ← parameters sc !! StorageFeeFactor;
        Verdict <$> check_expired_box (self_box ctx) output box_bytes_len height factor
    end.

(** [ProofBytes] as a slice. *)
Definition proof_slice (p : ProofBytes) : list Z := match p with ProofEmpty => [] | ProofSome bytes => bytes end.

Definition storage_rent_verdict (p : ProofBytes) (sc : ErgoStateContext) (ctx : EvalContext) : option StorageRentVerdict :=
  match proof_slice p with
  | [] => rent_verdict_for_empty_proof sc ctx
  | _ => Some NotApplicable
  end.

Definition storage_rent_spendable (sc : ErgoStateContext) (ctx : EvalContext) : option bool :=
  v ← rent_verdict_for_empty_proof sc ctx; Some (bool_decide (v = Verdict true)).

(** * What a spend by rent is *)

(** The box is old enough, an output is named in the extension, and either the fee takes the whole value or the output
    repeats the box at the current height with its value less the fee. *)
Definition spent_by_rent (sc : ErgoStateContext) (ctx : EvalContext) : Prop :=
  exists factor bytes var idx output,
    parameters sc !! StorageFeeFactor = Some factor /\ bytes_of_box (self_box ctx) = Ok bytes /\
    get_constant (ctx_extension ctx) STORAGE_EXTENSION_INDEX = Some var /\ const_v var = LShort idx /\ 0 <= idx /\
    outputs ctx !! Z.to_nat idx = Some output /\
    let self := self_box ctx in
    let fee := factor * Z.of_nat (length bytes) in
    ph_height (ctx_pre_header ctx) - box_creation_height self >= STORAGE_PERIOD /\
    (value self <= fee \/
     box_creation_height output = ph_height (ctx_pre_header ctx) /\ value output >= value self - fee /\
     (exists script, script_bytes self = Ok script /\ script_bytes output = Ok script) /\
     tokens_raw output = tokens_raw self /\
     take 6 (additional_registers (box_candidate output)) = take 6 (additional_registers (box_candidate self))).

Lemma registers_lookup {A} (k l : list A) :
  (forall r, In r REG_IDS -> k !! Z.to_nat (register_number r - 4) = l !! Z.to_nat (register_number r - 4)) <->
  take 6 k = take 6 l.
Proof.
  split.
  - intros Hk. apply list_eq. intros i. destruct (Nat.lt_ge_cases i 6) as [Hi|Hi].
    2: { rewrite !lookup_ge_None_2; [done|rewrite length_take; lia..]. }
    rewrite !lookup_take_lt by done.
    destruct i as [|[|[|[|[|[|]]]]]]; [apply (Hk R4)|apply (Hk R5)|apply (Hk R6)|apply (Hk R7)|apply (Hk R8)|apply (Hk R9)|lia];
      cbn; auto 10.
  - intros Hk r _. assert (Z.to_nat (register_number r - 4) < 6)%nat as Hr by (destruct r; cbn; lia).
    by rewrite <- (lookup_take_lt k 6), Hk, lookup_take_lt.
Qed.

Lemma registers_kept self output :
  correct_registers self output = Some true <->
  (exists script, script_bytes self = Ok script /\ script_bytes output = Ok script) /\
  tokens_raw output = tokens_raw self /\
  take 6 (additional_registers (box_candidate output)) = take 6 (additional_registers (box_candidate self)).
Proof.
  unfold correct_registers. destruct (script_bytes self) as [s1|]; [|split; [done|intros [[? [??]] _]; done]].
  destruct (script_bytes output) as [s2|]; cbn [mbind option_bind]; [|split; [done|intros [[? [??]] _]; done]].
  rewrite (symmetry_iff (=) (take 6 _)), <- registers_lookup.
  assert (forall b : bool, Some b = Some true <-> b = true) as -> by (intros []; naive_solver).
  rewrite !andb_true_iff, !bool_decide_eq_true, forallb_forall. setoid_rewrite bool_decide_eq_true. naive_solver.
Qed.

(** What the 32-bit and 64-bit arithmetic of the verdict keeps exact: heights below 2^31, values below 2^63, a fee that is
    not negative and below 2^31. *)
Record exact_rent (sc : ErgoStateContext) (ctx : EvalContext) : Prop := {
  exact_height : 0 <= ph_height (ctx_pre_header ctx) < 2 ^ 31;
  exact_creation : 0 <= box_creation_height (self_box ctx) < 2 ^ 31;
  exact_value : 0 <= value (self_box ctx) < 2 ^ 63;
  exact_outputs : Forall (fun o => 0 <= value o < 2 ^ 63) (outputs ctx);
  exact_fee factor bytes : parameters sc !! StorageFeeFactor = Some factor -> bytes_of_box (self_box ctx) = Ok bytes ->
    0 <= factor /\ Z.of_nat (length bytes) < 2 ^ 31 /\ factor * Z.of_nat (length bytes) < 2 ^ 31
}.

Lemma check_expired_exact self output len height factor :
  0 <= value self < 2 ^ 63 -> 0 <= value output < 2 ^ 63 -> 0 <= factor -> Z.of_nat len < 2 ^ 31 ->
  factor * Z.of_nat len < 2 ^ 31 ->
  check_expired_box self output len height factor =
    let fee := factor * Z.of_nat len in
    if value self <=? fee then Some true
    else if (box_creation_height output =? height) && (value output >=? value self - fee) then correct_registers self output
    else Some false.
Proof.
  intros Hv Ho Hf Hl Hfee. unfold check_expired_box.
  rewrite (wrap_s_id 32 (Z.of_nat len)) by (unfold in_s; lia).
  rewrite (wrap_s_id 32 (factor * _)) by (unfold in_s; nia).
  rewrite (wrap_s_id 64 (value self)), (wrap_s_id 64 (value output)) by (unfold in_s; lia).
  rewrite (wrap_s_id 64 (_ - _)) by (unfold in_s; nia). cbn zeta.
  replace (value self - factor * Z.of_nat len <=? 0) with (value self <=? factor * Z.of_nat len); [done|].
  apply eq_bool_prop_intro. rewrite !Is_true_true, !Z.leb_le. lia.
Qed.

(** C15: Where its 32-bit arithmetic is exact, the verdict on storage rent is that the input is spent by rent
    exactly when the proof is empty, the box is older than the period, and a short in the extension names an output that
    repeats the box, its registers and tokens included, with its value less the fee (or the fee takes the whole value). *)
Theorem rent_verdict_correct (p : ProofBytes) (sc : ErgoStateContext) (ctx : EvalContext) :
  exact_rent sc ctx ->
  storage_rent_verdict p sc ctx = Some (Verdict true) <-> proof_slice p = [] /\ spent_by_rent sc ctx.
Proof.
  intros [Hh Hc Hv Ho Hf]. unfold storage_rent_verdict. destruct (proof_slice p); [|naive_solver].
  unfold rent_verdict_for_empty_proof, spent_by_rent.
  rewrite !(wrap_s_id 32) by (unfold in_s; rewrite ?(wrap_s_id 32) by (unfold in_s; lia); lia).
  destruct (Z.ltb_spec (ph_height (ctx_pre_header ctx) - box_creation_height (self_box ctx)) STORAGE_PERIOD) as [Hlt|Hge].
  { split; [done|]. intros [_ (? & ? & ? & ? & ? & _ & _ & _ & _ & _ & _ & Hge & _)]. lia. }
  destruct (get_constant _ _) as [var|]; [|naive_solver]. cbn [mbind option_bind].
  destruct (extract_i16 (const_v var)) as [idx|] eqn:Ei.
  2: { split; [done|]. intros [_ (? & ? & ? & ? & ? & _ & _ & [= <-] & Hvar & _)]. by rewrite Hvar in Ei. }
  assert (const_v var = LShort idx) as Hvar by (destruct (const_v var); naive_solver). cbn [mbind option_bind].
  destruct (Z.leb_spec 0 idx).
  2: { split; [done|]. intros [_ (? & ? & ? & ? & ? & _ & _ & [= <-] & Hvar2 & ? & _)]. rewrite Hvar in Hvar2. injection Hvar2. lia. }
  destruct (outputs ctx !! Z.to_nat idx) as [output|] eqn:Eo;
    [|split; [done|]; intros [_ (? & ? & ? & ? & ? & ? & ? & ? & ? & ? & ? & ?)]; simplify_eq; congruence].
  cbn [mbind option_bind].
  destruct (bytes_of_box (self_box ctx)) as [bytes|] eqn:Eb;
    [|split; [done|]; intros [_ (? & ? & ? & ? & ? & ? & ? & ? & ? & ? & ? & ?)]; simplify_eq; congruence].
  cbn [mbind option_bind].
  destruct (parameters sc !! StorageFeeFactor) as [factor|] eqn:Ef;
    [|split; [done|]; intros [_ (? & ? & ? & ? & ? & ? & ? & ? & ? & ? & ? & ?)]; simplify_eq; congruence].
  cbn [mbind option_bind].
  destruct (Hf factor bytes eq_refl eq_refl) as (Hf0 & Hl & Hfee).
  rewrite check_expired_exact; [|done|by eapply (Forall_lookup_1 _ _ _ _ Ho)|done..]. cbn zeta.
  trans (value (self_box ctx) <= factor * Z.of_nat (length bytes) \/
    box_creation_height output = ph_height (ctx_pre_header ctx) /\
    value output >= value (self_box ctx) - factor * Z.of_nat (length bytes) /\
    correct_registers (self_box ctx) output = Some true).
  - destruct (Z.leb_spec (value (self_box ctx)) (factor * Z.of_nat (length bytes))); [naive_solver|].
    destruct (Z.eqb_spec (box_creation_height output) (ph_height (ctx_pre_header ctx))); cbn [andb]; [|split; [done|lia]].
    rewrite Z.geb_leb.
    destruct (Z.leb_spec (value (self_box ctx) - factor * Z.of_nat (length bytes)) (value output)); cbn [andb]; [|split; [done|lia]].
    destruct (correct_registers _ _) as [[]|]; [|split; [done|intros [?|(? & ? & ?)]; [lia|done]]..].
    split; [intros _; right; split_and!; [done|lia|done]|done].
  - rewrite registers_kept. split.
    + intros Hs. split; [done|]. exists factor, bytes, var, idx, output. split_and!; (done || lia).
    + intros [_ (f & bs & v & i & o & [= <-] & [= <-] & [= <-] & Hv2 & _ & Ho2 & _ & Hs)].
      rewrite Hvar in Hv2. injection Hv2 as <-. rewrite Eo in Ho2. injection Ho2 as <-.
      destruct Hs as [?|(? & ? & ? & ? & ?)]; [by left|right; by split_and!].
Qed.
End storage_rent.
