(* ===== verification/TxValidate.v ===== *)
(** Validation of a signed transaction (wallet/tx_context.rs and transaction/ergo_transaction.rs in src/ergo-lib/src/), with
    the estimate of verification costs (src/ergotree-interpreter/src/sigma_protocol/crypto_cost.rs): sums of coins and
    tokens, the checks of outputs, costs, and the proof or the rent of each input. *)

From stdpp Require Import gmap.
From S2P Require Import ProofTree Prelude SigmaBoolean SigSerializer Verifier SigmaSerial Types Expr Value EvalOps Eval Reduce SigmaSound SigmaSteps Spend Tokens BoxSelector BoxBuilder TxBuilder TxContext StorageRent.
#[local] Open Scope Z_scope.

(** * The cost of checking a proof *)

Definition PARSE_CHALLENGE : Z := 10.
Definition COMPUTE_COMMITMENTS_SCHNORR : Z := 3400.
Definition TO_BYTES_SCHNORR : Z := 570.
Definition COMPUTE_COMMITMENTS_DHT : Z := 6450.
Definition TO_BYTES_DHT : Z := 680.
Definition TO_BYTES_CONJUNCTION : Z := 15.

Definition sumZ (l : list Z) : Z := foldr Z.add 0 l.

(** [estimate_crypto_cost], in JIT units; the sums stay far below 2^64. *)
Fixpoint estimate_crypto_cost `{C : SigmaCrypto} (prop : SigmaBoolean) : Z :=
  match prop with
  | TrivialProp _ => 0
  | ProofOfKnowledge (ProveDlog _) => PARSE_CHALLENGE + COMPUTE_COMMITMENTS_SCHNORR + TO_BYTES_SCHNORR
  | ProofOfKnowledge (ProveDhTuple _ _ _ _) => PARSE_CHALLENGE + COMPUTE_COMMITMENTS_DHT + TO_BYTES_DHT
  | SigmaConjecture (Cthreshold k) children =>
      let n := Z.of_nat (length children) in
      let n_coefs := Z.max 0 (n - k) in
      let parse_poly := 10 + 10 * n_coefs in
      let eval_poly := (3 + 3 * n_coefs) * n in
      parse_poly + eval_poly + TO_BYTES_CONJUNCTION + sumZ (estimate_crypto_cost <$> children)
  | SigmaConjecture _ items => TO_BYTES_CONJUNCTION + sumZ (estimate_crypto_cost <$> items)
  end.

(** * Errors *)

Section errors.
Context `{C : SigmaCrypto} {Bx : ErgoBoxData}.

Inductive TxValidationError : Type :=
| OutputSumOverflow
| InputSumOverflow
| TxTokenAmountError (e : TokenAmountError)
| DoubleSpend (unique actual : nat)
| ErgPreservationError (input_sum output_sum : Z)
| TokenPreservationError (new_token_id token_id : list Z) (in_amount out_amount : Z)
| DustOutput (box_id : list Z) (value minimum : Z)
| InvalidHeightError (height : Z)
| MonotonicHeightError (height max_height : Z)
| NegativeHeight
| BoxSizeExceeded (n : Z)
| ScriptSizeExceeded (n : nat)
| TxContextError (e : TransactionContextError)
| ReducedToFalse (input : nat) (cost : Z)
| TxSigmaSerialization (e : SigmaSerializationError)
| TxVerifierError (input : nat) (e : VerifyError)
| InitCostExceeded (cost : Z)
(** A panic: an absent parameter, or an overflow of u64. *)
| ValidationPanicked.
End errors.

Section validate.
Context `{C : SigmaCrypto} {Bx : ErgoBoxData} {N : Bnum} {Sh : Sha256} {HI : HashIter} `{!ErgoBoxes} {HO : HashOrder}.

(** ** Sums of coins and tokens *)

Definition checked_i64 (z : Z) : option Z := if (- 2 ^ 63 <=? z) && (z <? 2 ^ 63) then Some z else None.

(** [try_fold(0i64, checked_add)] of the values as i64. *)
Fixpoint sum_i64 (acc : Z) (bs : list ErgoBox) : option Z :=
  match bs with
  | [] => Some acc
  | b :: bs => acc ← checked_i64 (acc + box_value_as_i64 (value b)); sum_i64 acc bs
  end.

Definition extract_assets (bs : list ErgoBox) : result TxValidationError TokenMap :=
  result_map_err TxTokenAmountError (add_boxes ∅ bs).

Fixpoint verify_assets_loop (new_token_id : list Z) (in_assets : TokenMap) (outs : list (list Z * Z)) : result TxValidationError unit :=
  match outs with
  | [] => Ok tt
  | (out_token_id, out_amount) :: outs =>
      match in_assets !! out_token_id with
      | Some in_amount =>
          if in_amount <? out_amount then Err (TokenPreservationError new_token_id out_token_id in_amount out_amount)
          else verify_assets_loop new_token_id in_assets outs
      | None =>
          if bool_decide (out_token_id = new_token_id) then verify_assets_loop new_token_id in_assets outs
          else Err (TokenPreservationError new_token_id out_token_id 0 out_amount)
      end
  end.
Definition verify_assets (ids : list (list Z)) (in_assets out_assets : TokenMap) : result TxValidationError unit :=
  new_token_id ← ok_or (head ids) ValidationPanicked;
  verify_assets_loop new_token_id in_assets (hash_iter out_assets).

(** [validate_stateless] *)
Definition validate_stateless {T} `{!ErgoTransaction T} (tx : T) : result TxValidationError unit :=
  ok_or (sum_i64 0 (outputs_of tx)) OutputSumOverflow;;
  let ids := inputs_ids tx in
  let unique_count := length (remove_dups ids) in
  guard_or (unique_count =? length ids)%nat (DoubleSpend unique_count (length ids)).

(** ** Outputs *)

Definition MAX_BOX_SIZE : Z := 4096.
Definition MAX_SCRIPT_SIZE : nat := 4096.

Definition param (sc : ErgoStateContext) (p : ChainParameter) : result TxValidationError Z := ok_or (parameters sc !! p) ValidationPanicked.
(** A parameter [as u64]. *)
Definition param_u64 (sc : ErgoStateContext) (p : ChainParameter) : result TxValidationError Z := wrap_u 64 <$> param sc p.
Definition u64_or_panic (z : Z) : result TxValidationError Z := ok_or (checked_u64 z) ValidationPanicked.
Definition block_version_of (sc : ErgoStateContext) : result TxValidationError Z := ok_or (state_block_version sc) ValidationPanicked.

Definition verify_output (sc : ErgoStateContext) (output : ErgoBox) (max_creation_height : Z) : result TxValidationError unit :=
  bytes ← result_map_err TxSigmaSerialization (bytes_of_box output);
  let box_size := Z.of_nat (length bytes) in
  script ← result_map_err TxSigmaSerialization (script_bytes output);
  version ← block_version_of sc;
  per_byte ← param_u64 sc MinValuePerByte;
  minimum_value ← u64_or_panic (box_size * per_byte);
  let created := box_creation_height output in
  guard_or (negb (value output <? minimum_value)) (DustOutput (box_id output) (value output) minimum_value);;
  guard_or (negb (wrap_s 32 created >? wrap_s 32 (ph_height (pre_header sc)))) (InvalidHeightError created);;
  guard_or (negb (created <? max_creation_height)) (MonotonicHeightError created max_creation_height);;
  guard_or (negb (negb (version =? 1) && negb (Z.land created (2 ^ 31) =? 0))) NegativeHeight;;
  guard_or (negb (box_size >? MAX_BOX_SIZE)) (BoxSizeExceeded box_size);;
  guard_or (negb (MAX_SCRIPT_SIZE <? length script)%nat) (ScriptSizeExceeded (length script)).

Fixpoint verify_outputs (sc : ErgoStateContext) (bs : list ErgoBox) (max_creation_height : Z) : result TxValidationError unit :=
  match bs with
  | [] => Ok tt
  | b :: bs => verify_output sc b max_creation_height;; verify_outputs sc bs max_creation_height
  end.

(** ** Costs *)

Definition INTERPRETER_INIT_COST : Z := 10000.

(** [count_tokens]: all entries, and the distinct ids. *)
Definition count_tokens (bs : list ErgoBox) : Z * Z :=
  let ids : list (list Z) := bs ≫= (fun b => token_id <$> default [] (tokens b)) in
  (Z.of_nat (length ids), Z.of_nat (base.size (list_to_set ids : gset (list Z)))).

Definition compute_tx_init_cost (sc : ErgoStateContext) (tx : Transaction) (to_spend : list ErgoBox) : result TxValidationError Z :=
  let n_data_inputs := Z.of_nat (length (default [] (signed_data_inputs tx))) in
  input_cost ← param_u64 sc InputCost;
  c1 ← u64_or_panic (Z.of_nat (length (signed_inputs tx)) * input_cost);
  s1 ← u64_or_panic (INTERPRETER_INIT_COST + c1);
  data_input_cost ← param_u64 sc DataInputCost;
  c2 ← u64_or_panic (n_data_inputs * data_input_cost);
  s2 ← u64_or_panic (s1 + c2);
  output_cost ← param_u64 sc OutputCost;
  c3 ← u64_or_panic (Z.of_nat (length (signed_outputs tx)) * output_cost);
  structural ← u64_or_panic (s2 + c3);
  let '(in_entries, in_distinct) := count_tokens to_spend in
  let '(out_entries, out_distinct) := count_tokens (signed_outputs tx) in
  token_access_cost ← param_u64 sc TokenAccessCost;
  token_cost ← u64_or_panic ((in_entries + out_entries + in_distinct + out_distinct) * token_access_cost);
  u64_or_panic (structural + token_cost).

Definition U64_MAX_COST : Z := 2 ^ 64 - 1.
Definition saturating_sub (a b : Z) : Z := Z.max 0 (a - b).
Definition saturating_mul (a b : Z) : Z := Z.min U64_MAX_COST (a * b).

(** ** Inputs *)

Definition cost_exceeded (input_idx : nat) (remaining_block : Z) : TxValidationError :=
  TxVerifierError input_idx (VerifyEvalError (CostError (saturating_mul remaining_block 10))).

(** One input from the cost so far: the context for the next, and the cost with this input's. The cell of the tree version
    is not threaded: each reduction sets it first. *)
Definition validate_input (fuel : nat) (sc : ErgoStateContext) (tc : TransactionContext Transaction) (message : list Z)
    (max_block_cost : Z) (input_idx : nat) (ctx : EvalContext) (total_cost : Z) : result TxValidationError (EvalContext * Z) :=
  ctx ← result_map_err TxContextError (update_context ctx tc input_idx);
  input ← ok_or (signed_inputs (spending_tx tc) !! input_idx) (TxContextError (InputBoxNotFound input_idx));
  input_box ← ok_or (get_input_box tc (box_id_of_input input)) (TxContextError (InputBoxNotFound input_idx));
  rent ← ok_or (storage_rent_verdict (proof (spending_proof input)) sc ctx) ValidationPanicked;
  match rent with
  | Verdict false => Err (ReducedToFalse input_idx STORAGE_CONTRACT_COST)
  | Verdict true =>
      let remaining_block := saturating_sub max_block_cost total_cost in
      if STORAGE_CONTRACT_COST >? remaining_block then Err (cost_exceeded input_idx remaining_block)
      else total_cost ← u64_or_panic (total_cost + STORAGE_CONTRACT_COST); Ok (ctx, total_cost)
  | NotApplicable =>
      above ← result_map_err (fun e => TxVerifierError input_idx (VerifyEvalError e)) (check_soft_fork_condition (box_ergo_tree input_box) ctx);
      if (above : bool) then Ok (ctx, total_cost)
      else
        let remaining_block := saturating_sub max_block_cost total_cost in
        let ctx := with_limit ctx (Some (saturating_mul remaining_block 10)) in
        reduction ← result_map_err (fun e => TxVerifierError input_idx (VerifyEvalError e))
          (reduce_to_crypto ctx fuel (box_ergo_tree input_box) (mkEvalState ∅ 0));
        let '(sigma_prop, cost, _) := reduction in
        let crypto_cost_block := estimate_crypto_cost sigma_prop / 10 in
        input_cost_block ← u64_or_panic (cost + crypto_cost_block);
        if input_cost_block >? remaining_block then Err (cost_exceeded input_idx remaining_block)
        else
          verified ← result_map_err (fun e => TxVerifierError input_idx (VerifySignatureError e))
            (verify_signature sigma_prop message (proof_slice (proof (spending_proof input))));
          if (verified : bool) then total_cost ← u64_or_panic (total_cost + input_cost_block); Ok (ctx, total_cost)
          else Err (ReducedToFalse input_idx cost)
  end.

Fixpoint validate_inputs (fuel : nat) (sc : ErgoStateContext) (tc : TransactionContext Transaction) (message : list Z)
    (max_block_cost : Z) (idxs : list nat) (ctx : EvalContext) (total_cost : Z) : result TxValidationError Z :=
  match idxs with
  | [] => Ok total_cost
  | input_idx :: idxs =>
      p ← validate_input fuel sc tc message max_block_cost input_idx ctx total_cost;
      validate_inputs fuel sc tc message max_block_cost idxs p.1 p.2
  end.

(** [TransactionContext::validate]: the cost in block units. *)
Definition validate (fuel : nat) (tc : TransactionContext Transaction) (sc : ErgoStateContext) : result TxValidationError Z :=
  let tx := spending_tx tc in
  input_sum ← ok_or (sum_i64 0 (boxes_to_spend tc)) InputSumOverflow;
  output_sum ← ok_or (sum_i64 0 (signed_outputs tx)) OutputSumOverflow;
  guard_or (input_sum =? output_sum) (ErgPreservationError (wrap_u 64 input_sum) (wrap_u 64 output_sum));;
  version ← block_version_of sc;
  max_creation_height ← (if version <=? 2 then Ok 0
                         else match box_creation_height <$> boxes_to_spend tc with
                              | [] => Err ValidationPanicked
                              | h :: hs => Ok (fold_left Z.max hs h)
                              end);
  verify_outputs sc (signed_outputs tx) max_creation_height;;
  in_assets ← extract_assets (boxes_to_spend tc);
  out_assets ← extract_assets (signed_outputs tx);
  verify_assets (inputs_ids tx) in_assets out_assets;;
  message ← result_map_err TxSigmaSerialization (bytes_to_sign tx);
  max_block_cost ← param_u64 sc MaxBlockCost;
  ctx ← result_map_err TxContextError (make_context sc tc 0);
  init_cost_block ← compute_tx_init_cost sc tx (boxes_to_spend tc);
  guard_or (negb (init_cost_block >? max_block_cost)) (InitCostExceeded (saturating_mul init_cost_block 10));;
  validate_inputs fuel sc tc message max_block_cost (seq 0 (length (signed_inputs tx))) ctx init_cost_block.

(** * Theorems *)

Lemma estimate_nonneg sb : 0 <= estimate_crypto_cost sb.
Proof.
  assert (forall items, Forall (fun sb => 0 <= estimate_crypto_cost sb) items -> 0 <= sumZ (estimate_crypto_cost <$> items)) as Hs.
  { induction 1; cbn; [lia|]. unfold sumZ in *. lia. }
  induction sb as [b|[]|c items IH] using SigmaBoolean_ind'; [done..|]. specialize (Hs items IH). destruct c; cbn [estimate_crypto_cost].
  1, 2: unfold TO_BYTES_CONJUNCTION; lia.
  unfold TO_BYTES_CONJUNCTION. nia.
Qed.

Lemma make_context_self sc (tc : TransactionContext Transaction) i ctx input :
  make_context sc tc i = Ok ctx -> signed_inputs (spending_tx tc) !! i = Some input ->
  get_input_box tc (box_id_of_input input) = Some (self_box ctx) /\ ctx_extension ctx = extension (spending_proof input).
Proof.
  intros (id & Hid & Hb & He & _)%make_context_inv Hi. cbn in Hid, He. rewrite list_lookup_fmap, Hi in Hid. rewrite Hi in He.
  by simplify_eq/=.
Qed.

(** ** What an accepted input is *)

(** The input of the self box of [ctx] is spent at a cost: by rent; or unverified, where the tree and the activated version are
    above the supported ones; or by a script that reduces, within the block cost left, to true or to a proposition that
    the input's own proof [p] proves for the message. *)
Inductive input_spent (fuel : nat) (sc : ErgoStateContext) (message : list Z) (p : ProofBytes) (ctx : EvalContext) (left : Z) : Z -> Prop :=
| spent_rent : storage_rent_verdict p sc ctx = Some (Verdict true) -> STORAGE_CONTRACT_COST <= left ->
    input_spent fuel sc message p ctx left STORAGE_CONTRACT_COST
| spent_unverified : storage_rent_verdict p sc ctx = Some NotApplicable ->
    MAX_SCRIPT_VERSION < activated_script_version_byte ctx ->
    MAX_SCRIPT_VERSION < wrap_s 8 (header_version (box_ergo_tree (self_box ctx))) ->
    input_spent fuel sc message p ctx left 0
| spent_script sb cost s' : storage_rent_verdict p sc ctx = Some NotApplicable ->
    reduce_to_crypto (with_limit ctx (Some (10 * left))) fuel (box_ergo_tree (self_box ctx)) (mkEvalState ∅ 0) = Ok ((sb, cost), s') ->
    0 <= cost -> cost + estimate_crypto_cost sb / 10 <= left ->
    (sb = TrivialProp true \/ proves sb message (proof_slice p)) ->
    input_spent fuel sc message p ctx left (cost + estimate_crypto_cost sb / 10).

Definition input_accepted (fuel : nat) (sc : ErgoStateContext) (tc : TransactionContext Transaction) (message : list Z)
    (max_block_cost : Z) (i : nat) (cost : Z) : Prop :=
  exists input ctx left, signed_inputs (spending_tx tc) !! i = Some input /\ make_context sc tc i = Ok ctx /\
    get_input_box tc (box_id_of_input input) = Some (self_box ctx) /\ ctx_extension ctx = extension (spending_proof input) /\
    0 <= cost <= left /\ left <= max_block_cost /\ input_spent fuel sc message (proof (spending_proof input)) ctx left cost.

Definition proofs_wf (tx : Transaction) : Prop :=
  Forall (fun input => byte_list (proof_slice (proof (spending_proof input)))) (signed_inputs tx).

Lemma u64_or_panic_Ok z z' : u64_or_panic z = Ok z' -> z' = z.
Proof. unfold u64_or_panic, checked_u64. case_match; cbn; congruence. Qed.

Lemma init_cost_nonneg sc tx bs init : compute_tx_init_cost sc tx bs = Ok init -> 0 <= init.
Proof.
  unfold compute_tx_init_cost. destruct (count_tokens bs) as [? ?], (count_tokens (signed_outputs tx)) as [? ?]. cbv zeta.
  intros Hc. repeat match type of Hc with _ ≫= _ = _ => apply bind_Ok_inv in Hc as (? & _ & Hc) end.
  revert Hc. unfold u64_or_panic, checked_u64. case_match; cbn; [intros [= <-]|done]. lia.
Qed.

Lemma limit_exact left : 0 <= left < 2 ^ 60 -> saturating_mul left 10 = 10 * left.
Proof. unfold saturating_mul, U64_MAX_COST. lia. Qed.

Context {L : SigmaCryptoLaws C}.

(** Removes the changes of errors around results that succeeded. *)
Ltac ok_steps H :=
  repeat lazymatch type of H with
  | (?m ≫= _) = Ok _ =>
      let x := fresh "x" in let E := fresh "E" in apply bind_Ok_inv in H as (x & E & H);
      lazymatch type of E with
      | result_map_err _ ?r = Ok _ => let E' := fresh "E" in destruct r eqn:E' in E; [injection E as ->|discriminate E]
      | ok_or ?o _ = Ok _ => let E' := fresh "E" in destruct o eqn:E' in E; [injection E as ->|discriminate E]
      | guard_or ?b _ = Ok _ => let E' := fresh "E" in destruct b eqn:E'; [clear x E|discriminate E]
      | u64_or_panic _ = Ok _ => apply u64_or_panic_Ok in E as ->
      | _ => idtac
      end
  end.

(** What a step that succeeds has found. *)
Lemma validate_input_inv fuel sc tc message max_cost i ctx total ctx' total' :
  validate_input fuel sc tc message max_cost i ctx total = Ok (ctx', total') ->
  exists ctx1 input box, update_context ctx tc i = Ok ctx1 /\ signed_inputs (spending_tx tc) !! i = Some input /\
    get_input_box tc (box_id_of_input input) = Some box /\
    let left := saturating_sub max_cost total in
    let p := proof (spending_proof input) in
    (storage_rent_verdict p sc ctx1 = Some (Verdict true) /\ STORAGE_CONTRACT_COST <= left /\
       ctx' = ctx1 /\ total' = total + STORAGE_CONTRACT_COST) \/
    storage_rent_verdict p sc ctx1 = Some NotApplicable /\
    ((check_soft_fork_condition (box_ergo_tree box) ctx1 = Ok true /\ ctx' = ctx1 /\ total' = total) \/
     exists sb cost s', ctx' = with_limit ctx1 (Some (saturating_mul left 10)) /\
       reduce_to_crypto ctx' fuel (box_ergo_tree box) (mkEvalState ∅ 0) = Ok ((sb, cost), s') /\
       cost + estimate_crypto_cost sb / 10 <= left /\ verify_signature sb message (proof_slice p) = Ok true /\
       total' = total + (cost + estimate_crypto_cost sb / 10)).
Proof.
  intros Hv. unfold validate_input in Hv. ok_steps Hv. exists x, x0, x1. split_and!; [done..|]. cbv zeta in *.
  destruct x2 as [|[]]; [right|left|done]; (split; [done|]).
  - ok_steps Hv. destruct x2; [left; by simplify_eq|right]. ok_steps Hv. destruct x2 as [[sb cost] s']. ok_steps Hv.
    destruct (Z.gtb_spec (cost + estimate_crypto_cost sb / 10) (saturating_sub max_cost total)); [done|].
    ok_steps Hv. destruct x2; [|done]. ok_steps Hv. simplify_eq. by exists sb, cost, s'.
  - destruct (Z.gtb_spec STORAGE_CONTRACT_COST (saturating_sub max_cost total)); [done|]. ok_steps Hv.
    by simplify_eq.
Qed.

(** One input. *)
Lemma validate_input_Ok fuel sc tc message max_cost i j ctx0 ctx total ctx' total' :
  make_context sc tc j = Ok ctx0 -> same_base ctx0 ctx -> proofs_wf (spending_tx tc) ->
  0 <= total <= max_cost -> max_cost < 2 ^ 60 ->
  validate_input fuel sc tc message max_cost i ctx total = Ok (ctx', total') ->
  same_base ctx0 ctx' /\ 0 <= total' <= max_cost /\ input_accepted fuel sc tc message max_cost i (total' - total).
Proof.
  intros Hm Hb Hw Ht Hmax (ctx1 & input & box & Eu & Ei & Hbox & Hv)%validate_input_inv.
  destruct (update_makes sc tc i j ctx0 ctx ctx1 Hm Hb Eu) as [Hb1 Hm1].
  destruct (make_context_self sc tc i _ input Hm1 Ei) as [Hbox' Hext]. cbn [self_box with_limit] in Hbox'.
  rewrite Hbox in Hbox'. injection Hbox' as ->.
  assert (saturating_sub max_cost total = max_cost - total) as Hleft by (unfold saturating_sub; lia).
  assert (forall cost, 0 <= cost <= max_cost - total ->
    input_spent fuel sc message (proof (spending_proof input)) (with_limit ctx1 None) (max_cost - total) cost ->
    input_accepted fuel sc tc message max_cost i cost) as Hacc.
  { intros cost Hc Hs. exists input, (with_limit ctx1 None), (max_cost - total). split_and!; (done || lia). }
  cbv zeta in Hv. rewrite Hleft, limit_exact in Hv by lia. unfold STORAGE_CONTRACT_COST in Hv.
  destruct Hv as [(Hr & Hle & -> & ->)|[Hr [(Hf & -> & ->)|(sb & cost & s' & -> & Hred & Hle & Hsig & ->)]]].
  - split; [done|]. split; [lia|]. replace (total + 50 - total) with 50 by lia. apply Hacc; [lia|]. by apply spent_rent.
  - apply soft_fork_true in Hf as [? ?]. split; [done|]. split; [done|].
    rewrite Z.sub_diag. apply Hacc; [lia|]. by apply spent_unverified.
  - destruct (reduce_cost (with_limit ctx1 _) (10 * (max_cost - total)) _ _ _ _ _ eq_refl ltac:(lia) Hred) as [Hc0 _].
    pose proof (estimate_nonneg sb). assert (0 <= estimate_crypto_cost sb / 10) by (apply Z.div_pos; lia).
    destruct Hb1 as (self & ext & limit & Hb1).
    split; [exists self, ext, (Some (10 * (max_cost - total))); by rewrite Hb1|]. split; [lia|].
    replace (total + _ - total) with (cost + estimate_crypto_cost sb / 10) by lia. apply Hacc; [lia|].
    eapply spent_script; [done|exact Hred|done|lia|].
    apply (accepted_iff sb message (proof_slice (proof (spending_proof input)))); [|done].
    by apply (Forall_lookup_1 _ _ _ _ Hw Ei).
Qed.

(** All inputs: their costs add up. *)
Lemma validate_inputs_Ok fuel sc tc message max_cost j ctx0 idxs : forall ctx total total',
  make_context sc tc j = Ok ctx0 -> same_base ctx0 ctx -> proofs_wf (spending_tx tc) ->
  0 <= total <= max_cost -> max_cost < 2 ^ 60 ->
  validate_inputs fuel sc tc message max_cost idxs ctx total = Ok total' ->
  exists costs, Forall2 (input_accepted fuel sc tc message max_cost) idxs costs /\ total' = total + sumZ costs /\ total' <= max_cost.
Proof.
  induction idxs as [|i idxs IH]; intros ctx total total' Hm Hb Hw Ht Hmax Hv; cbn in Hv.
  { injection Hv as <-. exists []. split; [constructor|]. cbn. lia. }
  apply bind_Ok_inv in Hv as ([ctx1 total1] & Hi & Hv).
  destruct (validate_input_Ok _ _ _ _ _ _ _ _ _ _ _ _ Hm Hb Hw Ht Hmax Hi) as (Hb1 & Ht1 & Ha).
  destruct (IH ctx1 total1 total' Hm Hb1 Hw Ht1 Hmax Hv) as (costs & Hc & -> & Hle).
  exists (total1 - total :: costs). split; [by constructor|]. cbn. split; [unfold sumZ; lia|done].
Qed.

(** ** What a valid transaction keeps *)

Lemma sum_i64_total bs : forall acc s,
  Forall (fun b => 0 <= value b < 2 ^ 63) bs -> sum_i64 acc bs = Some s -> s = acc + total_value bs.
Proof.
  induction bs as [|b bs IH]; intros acc s Hb Hs; cbn [sum_i64 total_value] in *; [injection Hs as <-; lia|].
  apply Forall_cons in Hb as [Hb Hbs]. destruct (checked_i64 _) as [acc'|] eqn:Ea; [|done]. cbn [mbind option_bind] in Hs.
  unfold checked_i64 in Ea. case_match; [|done]. assert (acc' = acc + box_value_as_i64 (value b)) as -> by congruence. rewrite (IH _ _ Hbs Hs).
  unfold box_value_as_i64. rewrite wrap_s_id by (done || unfold in_s; lia). lia.
Qed.

Lemma verify_assets_loop_Ok new_id ins outs :
  verify_assets_loop new_id ins outs = Ok tt <->
  Forall (fun p => (exists i, ins !! p.1 = Some i /\ p.2 <= i) \/ (ins !! p.1 = None /\ p.1 = new_id)) outs.
Proof.
  induction outs as [|[id amt] outs IH]; cbn; [by split; [constructor|]|]. rewrite Forall_cons, <- IH. cbn.
  destruct (ins !! id) as [i|].
  - destruct (Z.ltb_spec i amt); [|naive_solver]. split; [done|]. intros [[(? & [= <-] & ?)|[? _]] _]; [lia|done].
  - case_bool_decide; naive_solver.
Qed.

(** The tokens of the outputs are those of the boxes spent, but for less of some or for a minted token. *)
Lemma assets_kept ids new_id ins outs ia oa :
  Forall (fun t => 0 <= amount t) (box_tokens ins) -> head ids = Some new_id ->
  extract_assets ins = Ok ia -> extract_assets outs = Ok oa -> verify_assets ids ia oa = Ok tt ->
  forall id, amount_of id (box_tokens outs) <= amount_of id (box_tokens ins) \/
    (id = new_id /\ id ∉ (token_id <$> box_tokens ins)).
Proof.
  unfold extract_assets, verify_assets. intros Hpos -> Hi Ho Hv id. cbn in Hv. rewrite !add_boxes_tokens in *.
  destruct (add_tokens _ (box_tokens ins)) as [ia'|] eqn:Ei; [|done]. injection Hi as ->. apply add_tokens_Ok in Ei as ->.
  destruct (add_tokens _ (box_tokens outs)) as [oa'|] eqn:Eo; [|done]. injection Ho as ->. apply add_tokens_Ok in Eo as ->.
  apply verify_assets_loop_Ok in Hv. rewrite <- (tally_default (box_tokens outs)), <- (tally_default (box_tokens ins)).
  destruct (tally ∅ (box_tokens outs) !! id) as [out|] eqn:El.
  - assert ((id, out) ∈ hash_iter (tally ∅ (box_tokens outs))) as Hin by (rewrite hash_iter_perm; by apply elem_of_map_to_list).
    rewrite Forall_forall in Hv. destruct (Hv _ Hin) as [(i & Hl & Hle)|[Hl Hnew]]; cbn [fst snd] in *.
    + left. by rewrite Hl.
    + right. subst id. split; [done|]. rewrite tally_empty in Hl. by case_decide.
  - left. cbn. rewrite tally_default. by apply amount_of_nonneg.
Qed.

(** An output that passes its checks: it fits, it pays for its bytes, and it is made neither in the future nor before
    [max_creation_height]. *)
Definition output_fits (sc : ErgoStateContext) (max_creation_height : Z) (o : ErgoBox) : Prop :=
  exists bytes script per_byte, bytes_of_box o = Ok bytes /\ script_bytes o = Ok script /\
    parameters sc !! MinValuePerByte = Some per_byte /\
    Z.of_nat (length bytes) <= MAX_BOX_SIZE /\ (length script <= MAX_SCRIPT_SIZE)%nat /\
    Z.of_nat (length bytes) * wrap_u 64 per_byte <= value o /\
    wrap_s 32 (box_creation_height o) <= wrap_s 32 (ph_height (pre_header sc)) /\
    max_creation_height <= box_creation_height o.

Lemma verify_output_Ok sc o max_height : verify_output sc o max_height = Ok tt -> output_fits sc max_height o.
Proof.
  unfold verify_output, param_u64, param, block_version_of. intros Hv.
  apply bind_Ok_inv in Hv as (bytes & Hb & Hv). destruct (bytes_of_box o) as [bytes'|] eqn:Eb; [|done]. injection Hb as ->.
  apply bind_Ok_inv in Hv as (script & Hs & Hv). destruct (script_bytes o) as [script'|] eqn:Es; [|done]. injection Hs as ->.
  apply bind_Ok_inv in Hv as (version & _ & Hv). apply bind_Ok_inv in Hv as (per & Hp & Hv).
  destruct (parameters sc !! MinValuePerByte) as [per'|] eqn:Ep; [|done]. injection Hp as <-.
  ok_steps Hv. destruct (Nat.ltb_spec MAX_SCRIPT_SIZE (length script)); [done|]. apply negb_true_iff in E0, E1, E2, E4.
  exists bytes, script, per'. split_and!; [done..| | | | |]; lia.
Qed.

Lemma verify_outputs_Ok sc bs max_height : verify_outputs sc bs max_height = Ok tt -> Forall (output_fits sc max_height) bs.
Proof.
  induction bs as [|b bs IH]; cbn; [by constructor|]. intros Hv. apply bind_Ok_inv in Hv as ([] & Hb & Hv).
  constructor; [by apply verify_output_Ok|by apply IH].
Qed.

(** What a successful validation has computed. *)
Lemma validate_inv fuel tc sc cost :
  validate fuel tc sc = Ok cost ->
  let tx := spending_tx tc in
  exists sum version max_height message max_cost ctx init ia oa,
    sum_i64 0 (boxes_to_spend tc) = Some sum /\ sum_i64 0 (signed_outputs tx) = Some sum /\
    state_block_version sc = Some version /\
    (if version <=? 2 then max_height = 0 else exists h hs, box_creation_height <$> boxes_to_spend tc = h :: hs /\ max_height = fold_left Z.max hs h) /\
    Forall (output_fits sc max_height) (signed_outputs tx) /\
    extract_assets (boxes_to_spend tc) = Ok ia /\ extract_assets (signed_outputs tx) = Ok oa /\
    verify_assets (inputs_ids tx) ia oa = Ok tt /\
    bytes_to_sign tx = Ok message /\ param_u64 sc MaxBlockCost = Ok max_cost /\ make_context sc tc 0 = Ok ctx /\
    compute_tx_init_cost sc tx (boxes_to_spend tc) = Ok init /\ init <= max_cost /\
    validate_inputs fuel sc tc message max_cost (seq 0 (length (signed_inputs tx))) ctx init = Ok cost.
Proof.
  intros Hv. unfold validate in Hv. cbv zeta in *. ok_steps Hv.
  match goal with H : (_ =? _) = true |- _ => apply Z.eqb_eq in H; subst end.
  repeat match goal with u : () |- _ => destruct u end.
  eexists _, _, _, _, _, _, _, _, _. split_and!; try eassumption.
  - unfold block_version_of in *. by destruct (state_block_version sc); simplify_eq/=.
  - destruct (_ <=? 2); [by simplify_eq|]. destruct (box_creation_height <$> _) as [|h hs]; [done|]. by exists h, hs; simplify_eq.
  - by apply verify_outputs_Ok.
  - match goal with H : negb (_ >? _) = true |- _ => apply negb_true_iff in H end. lia.
Qed.

Lemma max_heights hs : forall h b, b = h \/ b ∈ hs -> b <= fold_left Z.max hs h.
Proof.
  induction hs as [|x hs IH]; intros h b Hb; cbn; [destruct Hb as [->|?%elem_of_nil]; [lia|done]|].
  destruct Hb as [->|[->|Hb]%elem_of_cons]; [trans (Z.max h x)|trans (Z.max h x)|apply IH; by right]; first [lia|apply IH; by left].
Qed.

(** C13: A transaction that validation accepts keeps value: where no value of a box is above i64, the coins of
    its outputs are exactly those of the boxes to spend, and of each token its outputs hold no more than the boxes to spend
    do, but for one that none of these hold and whose id is the first input's. Each output fits the bounds on its size and
    script, pays for its bytes and is not made in the future, and from block version 3 on not before any box it spends. *)
Theorem validated_preserves fuel (tc : TransactionContext Transaction) sc cost :
  validate fuel tc sc = Ok cost ->
  Forall (fun b => 0 <= value b < 2 ^ 63) (boxes_to_spend tc) ->
  Forall (fun b => 0 <= value b < 2 ^ 63) (signed_outputs (spending_tx tc)) ->
  Forall (fun t => 0 <= amount t) (box_tokens (boxes_to_spend tc)) ->
  total_value (signed_outputs (spending_tx tc)) = total_value (boxes_to_spend tc) /\
  (exists first, head (inputs_ids (spending_tx tc)) = Some first /\
    forall id, amount_of id (box_tokens (signed_outputs (spending_tx tc))) <= amount_of id (box_tokens (boxes_to_spend tc)) \/
      (id = first /\ id ∉ (token_id <$> box_tokens (boxes_to_spend tc)))) /\
  exists max_height, Forall (output_fits sc max_height) (signed_outputs (spending_tx tc)) /\
    ((exists version, state_block_version sc = Some version /\ 2 < version) ->
     Forall (fun b => box_creation_height b <= max_height) (boxes_to_spend tc)).
Proof.
  intros (sum & version & max_height & message & max_cost & ctx & init & ia & oa & Hi & Ho & Hver & Hh & Hfit & Hia & Hoa & Hva & _)%validate_inv.
  intros Hin Hout Htok. split; [|split].
  - apply sum_i64_total in Hi, Ho; [|done..]. lia.
  - destruct (head (inputs_ids (spending_tx tc))) as [first|] eqn:Ehd; [|by unfold verify_assets in Hva; rewrite Ehd in Hva].
    exists first. split; [done|]. by eapply assets_kept.
  - exists max_height. split; [done|]. intros (v & Hv & Hlt). rewrite Hver in Hv. injection Hv as ->.
    destruct (Z.leb_spec v 2); [lia|]. destruct Hh as (h & hs & Heq & ->). apply Forall_forall. intros b Hb.
    apply max_heights. apply (list_elem_of_fmap_2 box_creation_height) in Hb. rewrite Heq in Hb. by apply elem_of_cons.
Qed.

(** C14: Each input of a transaction that validation accepts is authorised: in the context made for it, its box
    is spent by storage rent, or by a script that reduces to true or to a proposition that the bytes of that input's own
    proof prove for the message of the transaction (they are read as a tree of agreeing challenges that hashes to its root
    challenge), or it is a tree above the supported version under such a protocol; and the cost of the transaction is its initial cost and the costs of the
    inputs, each within what the inputs before it leave, and at most the cost of a block. *)
Theorem validated_inputs fuel (tc : TransactionContext Transaction) sc cost max_cost :
  validate fuel tc sc = Ok cost -> proofs_wf (spending_tx tc) ->
  parameters sc !! MaxBlockCost = Some max_cost -> 0 <= max_cost < 2 ^ 31 ->
  exists message init costs, bytes_to_sign (spending_tx tc) = Ok message /\
    compute_tx_init_cost sc (spending_tx tc) (boxes_to_spend tc) = Ok init /\
    cost = init + sumZ costs /\ cost <= max_cost /\
    Forall2 (input_accepted fuel sc tc message max_cost) (seq 0 (length (signed_inputs (spending_tx tc)))) costs.
Proof.
  intros (sum & version & max_height & message & mc & ctx & init & ia & oa & _ & _ & _ & _ & _ & _ & _ & _ & Hm & Hmc & Hctx & Hinit & Hle & Hv)%validate_inv.
  intros Hw Hp Hmax. unfold param_u64, param in Hmc. rewrite Hp in Hmc. injection Hmc as <-.
  rewrite wrap_u_id in * by (unfold in_u; lia).
  pose proof (init_cost_nonneg _ _ _ _ Hinit) as Hpos.
  destruct (validate_inputs_Ok fuel sc tc message max_cost 0 ctx _ ctx init cost Hctx
    ltac:(exists (self_box ctx), (ctx_extension ctx), (jit_cost_limit ctx); by destruct ctx) Hw ltac:(lia) ltac:(lia) Hv)
    as (costs & Hc & Hcost & Hbound).
  exists message, init, costs. split_and!; done.
Qed.
End validate.
