(* ===== verification/EvalLimit.v ===== *)
(** A limit on the cost only cuts an evaluation off: a run under a limit ends with the error of the limit, or as the run without
    one does. *)

From stdpp Require Import strings gmap.
From S2P Require Import Prelude SigmaBoolean Types Expr Value EvalOps StateLogic Eval EvalTotal Reduce TxContext.
#[local] Open Scope Z_scope.

Section limit.
Context `{C : SigmaCrypto} {Bx : ErgoBoxData}.

(** What [m'] gives, [m] gives from any state of the same environment, unless it is an error of the limit. *)
Definition cut {A} (m m' : evalM A) : Prop := forall s s', env s = env s' ->
  match m' s' with
  | Ok (a, t') => exists t, m s = Ok (a, t) /\ env t = env t'
  | Err (CostError _) => True
  | Err e => m s = Err e
  end.

Lemma cut_bind {A B} (m m' : evalM A) (f f' : A -> evalM B) :
  cut m m' -> (forall a, cut (f a) (f' a)) -> cut (m ≫= f) (m' ≫= f').
Proof.
  intros Hm Hf s s' He. unfold mbind, stateE_bind. specialize (Hm s s' He). destruct (m' s') as [[a t']|e].
  - destruct Hm as (t & -> & Ht). by apply Hf.
  - destruct e; try done; by rewrite Hm.
Qed.

Lemma cut_in_env {A} e (m m' : evalM A) : cut m m' -> cut (in_env e m) (in_env e m').
Proof.
  intros Hm s s' He. unfold in_env. specialize (Hm (mkEvalState e (jit_cost s)) (mkEvalState e (jit_cost s')) eq_refl).
  destruct (m' _) as [[a t']|err].
  - destruct Hm as (t & -> & Ht). rewrite Ht. eexists. split; [reflexivity|done].
  - destruct err; try done; by rewrite Hm.
Qed.

Lemma cut_mret {A} (a : A) : cut (mret a) (mret a).
Proof. intros s s' He. by eexists. Qed.
Lemma cut_liftE {A} (r : result EvalError A) : cut (liftE r) (liftE r).
Proof. intros s s' He. unfold liftE. destruct r as [a|[]]; try done. by eexists. Qed.
Lemma cut_fail {A} (e : EvalError) : cut (A := A) (fail e) (fail e).
Proof. intros s s' He. by destruct e. Qed.
Lemma cut_get_env : cut get_env get_env.
Proof. intros s s' He. exists s. split; [|exact He]. unfold get_env. by rewrite He. Qed.
Lemma cut_put_env e : cut (put_env e) (put_env e).
Proof. intros s s' He. unfold put_env. eexists. by split. Qed.

Lemma cut_mapM_st {A B} (f f' : A -> evalM B) l : (forall x, cut (f x) (f' x)) -> cut (mapM_st f l) (mapM_st f' l).
Proof.
  intros Hf. induction l as [|x l IH]; cbn; [apply cut_mret|]. apply cut_bind; [apply Hf|]. intros y.
  apply cut_bind; [exact IH|]. intros ys. apply cut_mret.
Qed.

Context (ctx : EvalContext) (limit : Z) (Hctx : jit_cost_limit ctx = None).
Abbreviation limited := (with_limit ctx (Some limit)).

Lemma cut_add k : cut (add_jit_cost ctx k) (add_jit_cost limited k).
Proof.
  intros s s' He. unfold add_jit_cost. rewrite Hctx. cbn. destruct (limit <? _); [done|]. by eexists.
Qed.

Lemma cut_per_item b p c n : cut (add_per_item_jit_cost ctx b p c n) (add_per_item_jit_cost limited b p c n).
Proof. unfold add_per_item_jit_cost. cbv zeta. case_match; [apply cut_add|apply cut_fail]. Qed.
End limit.

#[export] Hint Resolve cut_mret cut_liftE cut_fail cut_get_env cut_put_env cut_add cut_per_item : cut.

Section limited.
Context `{C : SigmaCrypto} {Bx : ErgoBoxData} (ctx : EvalContext) (limit : Z) (Hctx : jit_cost_limit ctx = None).
Abbreviation limited := (with_limit ctx (Some limit)).

(** ** Equality *)

Lemma cut_eq_items {A} (eq eq' : A -> A -> evalM bool) l r :
  Forall (fun x => forall y, cut (eq x y) (eq' x y)) l -> cut (eq_items eq l r) (eq_items eq' l r).
Proof.
  intros Hl. revert r. induction Hl as [|x l Hx Hl IH]; intros [|y r]; try apply cut_mret. cbn.
  apply cut_bind; [apply Hx|]. intros []; [apply IH|apply cut_mret].
Qed.

Lemma cut_eq_counting {A} (eq eq' : A -> A -> evalM bool) k l r :
  Forall (fun x => forall y, cut (eq x y) (eq' x y)) l -> cut (eq_counting eq k l r) (eq_counting eq' k l r).
Proof.
  intros Hl. revert k r. induction Hl as [|x l Hx Hl IH]; intros k [|y r]; try apply cut_mret. cbn.
  apply cut_bind; [apply Hx|]. intros []; [apply IH|apply cut_mret].
Qed.

Ltac charge := apply cut_bind; [by auto with cut|intros ?].

Lemma cut_eq_point p q : cut (eq_point ctx p q) (eq_point limited p q).
Proof. charge. apply cut_mret. Qed.

Lemma cut_eq_sigma l r : cut (eq_sigma_bool_with_cost ctx l r) (eq_sigma_bool_with_cost limited l r).
Proof.
  revert r. induction l as [b|t|c items IH] using SigmaBoolean_ind'; intros r; cbn [eq_sigma_bool_with_cost]; charge;
    repeat case_match; try (by auto with cut); try (by apply cut_eq_items); try apply cut_eq_point.
  apply cut_eq_items. repeat constructor; intros; apply cut_eq_point.
Qed.

Lemma cut_eq lv rv : cut (eq_with_cost ctx lv rv) (eq_with_cost limited lv rv).
Proof.
  revert rv. induction lv as [lv Hlv|t items IH|items IH|lv IH] using Value_ind'; intros rv.
  - destruct lv as [| | | | | | | | | | | |[[bytes]|t items]| | | | | | |[|]|]; try done;
      destruct rv; cbn [eq_with_cost]; repeat first [charge | case_match]; try (by auto with cut); apply cut_eq_sigma.
  - destruct rv; cbn [eq_with_cost]; charge; repeat case_match; try (by auto with cut); [charge; apply cut_mret|].
    apply cut_bind; [by apply cut_eq_counting|]. intros p. charge. apply cut_mret.
  - destruct rv; cbn [eq_with_cost]; charge; repeat case_match; try (by auto with cut). by apply cut_eq_items.
  - destruct rv as [| | | | | | | | | | | | | | | | | | |[|]|]; cbn [eq_with_cost]; charge;
      by first [apply IH | apply cut_mret].
Qed.

(** ** Nodes *)

Context {N : Bnum} {Sh : Sha256} {HI : HashIter}.
Section nodes.
Context (ev ev' : Expr -> evalM Value) (Hev : forall e, cut (ev e) (ev' e)).

(** Steps through the two runs of one computation. *)
Ltac steps := repeat first
  [ solve [auto with cut]
  | apply Hev
  | apply cut_eq
  | apply cut_bind; [|intros ?]
  | apply cut_in_env
  | apply cut_mapM_st; intros ?
  | match goal with |- cut ?m _ => match m with context [match ?x with _ => _ end] => destruct x end end ].

Lemma cut_checked e : cut (checked_value e (ev e)) (checked_value e (ev' e)).
Proof. unfold checked_value. steps. Qed.

Lemma cut_env_insert i v : cut (env_insert i v) (env_insert i v).
Proof. unfold env_insert. steps. Qed.

Lemma cut_bind_args args vals : cut (bind_args ctx args vals) (bind_args limited args vals).
Proof.
  revert vals. induction args as [|a args IH]; intros [|v vals]; cbn; try apply cut_mret.
  charge. charge. apply cut_bind; [apply cut_env_insert|]. intros _. apply IH.
Qed.

Lemma cut_invoke args body inv vals : cut (invoke ctx ev args body inv vals) (invoke limited ev' args body inv vals).
Proof. unfold invoke. apply cut_in_env, cut_bind; [apply cut_bind_args|]. intros _. apply cut_checked. Qed.

Lemma cut_map args body inv items : cut (invoke_map ctx ev args body inv items) (invoke_map limited ev' args body inv items).
Proof.
  revert inv. induction items as [|v items IH]; intros inv; cbn; [apply cut_mret|].
  apply cut_bind; [apply cut_invoke|]. intros p. apply cut_bind; [apply IH|]. intros vs. apply cut_mret.
Qed.

Lemma cut_conditions args body inv items :
  cut (invoke_conditions ctx ev args body inv items) (invoke_conditions limited ev' args body inv items).
Proof.
  revert inv. induction items as [|v items IH]; intros inv; cbn; [apply cut_mret|].
  apply cut_bind; [apply cut_invoke|]. intros p. charge. apply cut_bind; [apply IH|]. intros bs. apply cut_mret.
Qed.

Lemma cut_until stop args body inv items :
  cut (invoke_until ctx ev stop args body inv items) (invoke_until limited ev' stop args body inv items).
Proof.
  revert inv. induction items as [|v items IH]; intros inv; cbn; [apply cut_mret|].
  apply cut_bind; [apply cut_invoke|]. intros p. charge. case_match; [apply cut_mret|apply IH].
Qed.

Lemma cut_fold args body inv acc items :
  cut (invoke_fold ctx ev args body inv acc items) (invoke_fold limited ev' args body inv acc items).
Proof.
  revert inv acc. induction items as [|v items IH]; intros inv acc; cbn; [apply cut_mret|].
  apply cut_bind; [apply cut_invoke|]. intros p. apply IH.
Qed.

Lemma cut_val_def rhs : cut (eval_val_def ctx ev rhs) (eval_val_def limited ev' rhs).
Proof. unfold eval_val_def. apply cut_bind; [apply cut_checked|]. intros v. charge. apply cut_mret. Qed.

Lemma cut_top_level items : cut (top_level_items ctx ev items) (top_level_items limited ev' items).
Proof.
  induction items as [|i items IH]; cbn; [apply cut_mret|]. charge. apply cut_bind; [apply cut_val_def|]. intros v.
  apply cut_bind; [apply cut_env_insert|]. intros _. exact IH.
Qed.

Lemma cut_nested ex vars items : cut (nested_items ctx ev ex vars items) (nested_items limited ev' ex vars items).
Proof.
  revert ex vars. induction items as [|i items IH]; intros ex vars; cbn; [apply cut_mret|]. charge.
  apply cut_bind; [apply cut_val_def|]. intros v. charge. charge. case_match; apply IH.
Qed.

Lemma cut_block items res : cut (eval_block_value ctx ev items res) (eval_block_value limited ev' items res).
Proof.
  unfold eval_block_value. charge. charge. case_match.
  - apply cut_bind; [apply cut_top_level|]. intros _. apply cut_checked.
  - apply cut_bind; [apply cut_nested|]. intros p. apply cut_bind; [apply cut_checked|]. intros v. charge. charge. apply cut_mret.
Qed.

(** A node on a collection and a lambda, around its loop. *)
Ltac loop lem :=
  repeat (apply cut_bind; [first [solve [auto with cut]|apply Hev|apply cut_checked|apply lem]|intros ?]); first [apply lem|solve [auto with cut]].

Lemma cut_bin_op kind lhs rhs : cut (eval_bin_op ctx ev kind lhs rhs) (eval_bin_op limited ev' kind lhs rhs).
Proof.
  unfold eval_bin_op, eval_logical, eval_to_bool, eval_equality, coerce_operands, checked_value.
  apply cut_bind; [apply Hev|]. intros lv. apply cut_bind; [by repeat case_match; auto with cut|]. intros _.
  destruct kind as [op|[]|[]|op]; steps.
Qed.

Lemma cut_eval_expr e : cut (eval_expr ctx ev e) (eval_expr limited ev' e).
Proof.
  destruct e; cbn [eval_expr].
  all: try solve [auto with cut | apply cut_block | apply cut_bin_op].
  all: try (unfold eval_append, eval_const, eval_const_placeholder, eval_byte_array_to_long, eval_byte_array_to_bigint,
    eval_long_to_byte_array, eval_bool_constants,
    eval_exprs, eval_tuple, eval_calc_blake2b256, eval_calc_sha256, eval_hash, eval_global_vars, eval_func_value, eval_val_use,
    eval_if, eval_and, eval_or, eval_bools,
    eval_xor, eval_atleast, eval_logical_not, eval_negation, eval_bit_inversion, eval_option_get,
    eval_option_is_defined, eval_option_get_or_else, or_default, eval_by_index, eval_size_of, eval_slice,
    eval_select_field, eval_bool_to_sigma_prop, eval_upcast, eval_downcast, eval_create_provedlog,
    eval_create_prove_dh_tuple, eval_to_point, eval_sigma_and, eval_sigma_or, eval_sigma_items, eval_multiply_group,
    eval_xor_of, checked_value; change (tree_version limited) with (tree_version ctx); solve [steps]).
  - unfold eval_apply. charge. charge. apply cut_bind; [apply Hev|]. intros func_v.
    apply cut_bind; [apply cut_mapM_st, Hev|]. intros args_v. destruct func_v; try apply cut_fail. charge.
    apply cut_bind; [apply cut_invoke|]. intros p. apply cut_mret.
  - unfold eval_by_index, or_default, checked_value. cbv zeta. change (tree_version limited) with (tree_version ctx). steps.
  - unfold eval_fold. loop cut_fold.
  - unfold eval_map. loop cut_map.
  - unfold eval_filter. loop cut_conditions.
  - unfold eval_exists, eval_quantifier. loop cut_until.
  - unfold eval_for_all, eval_quantifier. loop cut_until.
Qed.
End nodes.

Lemma cut_eval n e : cut (eval ctx n e) (eval limited n e).
Proof. revert e. induction n as [|n IH]; intros e; cbn; [apply cut_fail|]. by apply cut_eval_expr. Qed.

(** ** Reduction *)

(** The proposition of a reduction, without its cost. *)
Definition proposition_of (run : evalM Value) : evalM SigmaBoolean :=
  p ← in_env ∅ run;
  match p.1 with VBoolean b => mret (TrivialProp b) | VSigmaProp sp => mret sp | _ => fail InvalidResultType end.
End limited.

Section reduction.
Context `{C : SigmaCrypto} {Bx : ErgoBoxData} {N : Bnum} {Sh : Sha256} {HI : HashIter}.

Lemma inner_proposition ctx n e c s : (fst <$> reduce_inner ctx n e c) s = proposition_of (eval ctx n e) s.
Proof.
  unfold reduce_inner, proposition_of, fmap, stateE_fmap, mbind, stateE_bind, getS.
  destruct (in_env ∅ (eval ctx n e) s) as [[p s1]|]; [|done]. by destruct p.1.
Qed.

Lemma cut_inner ctx limit n e c c' : jit_cost_limit ctx = None ->
  cut (fst <$> reduce_inner ctx n e c) (fst <$> reduce_inner (with_limit ctx (Some limit)) n e c').
Proof.
  intros Hctx s s' He. rewrite !inner_proposition. revert s s' He. unfold proposition_of.
  apply cut_bind; [by apply cut_in_env, cut_eval|]. intros p. destruct p.1; auto with cut.
Qed.

(** [cut_inner] as results. *)
Lemma inner_runs ctx limit n e c c' s s' : jit_cost_limit ctx = None -> env s = env s' ->
  match reduce_inner (with_limit ctx (Some limit)) n e c' s' with
  | Ok (r', t') => exists cost t, reduce_inner ctx n e c s = Ok ((r'.1, cost), t) /\ env t = env t'
  | Err (CostError _) => True
  | Err err => reduce_inner ctx n e c s = Err err
  end.
Proof.
  intros Hctx He. pose proof (cut_inner ctx limit n e c c' Hctx s s' He) as Hc. unfold fmap, stateE_fmap in Hc.
  destruct (reduce_inner (with_limit _ _) n e c' s') as [[[p k] t']|err].
  - destruct Hc as (t & Hr & Ht). destruct (reduce_inner ctx n e c s) as [[[p2 k2] t2]|]; [|done]. injection Hr as -> ->. by exists k2, t.
  - destruct err; try done; destruct (reduce_inner ctx n e c s) as [[[p2 k2] t2]|]; by simplify_eq.
Qed.

Lemma retried_runs ctx limit n tree c c' err s s' : jit_cost_limit ctx = None -> env s = env s' ->
  match retried (with_limit ctx (Some limit)) n tree c' err s' with
  | Ok (r', t') => exists cost t, retried ctx n tree c err s = Ok ((r'.1, cost), t) /\ env t = env t'
  | Err (CostError _) => True
  | Err err' => retried ctx n tree c err s = Err err'
  end.
Proof.
  intros Hctx He. unfold retried, mbind, stateE_bind, liftE.
  destruct err; try done; (destruct (proposition tree) as [e|err']; [|by destruct err']); by apply inner_runs.
Qed.

(** A reduction under a limit gives the proposition of the reduction without one, or its error, or is cut off. *)
Lemma reduce_runs ctx limit n tree s s' : jit_cost_limit ctx = None -> env s = env s' ->
  match reduce_to_crypto (with_limit ctx (Some limit)) n tree s' with
  | Ok (r', t') => exists cost t, reduce_to_crypto ctx n tree s = Ok ((r'.1, cost), t) /\ env t = env t'
  | Err (CostError _) => True
  | Err err => reduce_to_crypto ctx n tree s = Err err
  end.
Proof.
  intros Hctx He. unfold reduce_to_crypto, mbind, stateE_bind, liftE.
  change (validate_self_extension_key_domain (with_limit ctx (Some limit))) with (validate_self_extension_key_domain ctx).
  change (activated_script_version (with_limit ctx (Some limit))) with (activated_script_version ctx).
  destruct (validate_self_extension_key_domain ctx) as [|err]; [|by destruct err].
  destruct (guard_or _ _) as [|err]; [|by destruct err].
  change (with_tree_version (with_limit ctx (Some limit)) (header_version tree))
    with (with_limit (with_tree_version ctx (header_version tree)) (Some limit)).
  set (ctx1 := with_tree_version ctx (header_version tree)).
  assert (jit_cost_limit ctx1 = None) as Hctx1 by done.
  change (with_constants (with_limit ctx1 (Some limit)) (tree_constants tree))
    with (with_limit (with_constants ctx1 (tree_constants tree)) (Some limit)).
  set (ctx2 := with_constants ctx1 (tree_constants tree)). assert (jit_cost_limit ctx2 = None) as Hctx2 by done.
  change (trivial_reduce (with_limit ctx2 (Some limit)) (tree_root tree)) with (trivial_reduce ctx2 (tree_root tree)).
  destruct (trivial_reduce ctx2 (tree_root tree)) as [sb|].
  - pose proof (cut_add ctx1 limit Hctx1 50 s s' He) as Ha. destruct (add_jit_cost (with_limit ctx1 _) 50 s') as [[u t']|[]]; try done;
      [destruct Ha as (t & -> & Ht); cbn; by eexists _, _|by rewrite Ha..].
  - pose proof (inner_runs ctx2 limit n (tree_root tree) (jit_cost s) (jit_cost s') s s' Hctx2 He) as Hi.
    destruct (reduce_inner (with_limit ctx2 _) n (tree_root tree) (jit_cost s') s') as [[r' t']|err].
    + destruct Hi as (cost & t & -> & Ht). cbn [fst]. destruct (decide (r'.1 = TrivialProp false)) as [Hf|Hf].
      * destruct (proposition tree) as [e|err]; [|by destruct err]. cbn. by eexists _, _.
      * by eexists _, _.
    + assert (match retried (with_limit ctx1 (Some limit)) n tree (jit_cost s') err s' with
              | Ok (r', t') => exists cost t, retried ctx1 n tree (jit_cost s) err s = Ok ((r'.1, cost), t) /\ env t = env t'
              | Err (CostError _) => True
              | Err err' => retried ctx1 n tree (jit_cost s) err s = Err err' end) as Hr by by apply retried_runs.
      destruct err; try (rewrite Hi; exact Hr). done.
Qed.

(** A reduction leaves the environment alone. *)
Lemma inner_env ctx n e c s r t : reduce_inner ctx n e c s = Ok (r, t) -> env t = env s.
Proof.
  unfold reduce_inner, in_env, mbind, stateE_bind, getS. destruct (eval ctx n e _) as [[v s1]|]; [|done]. cbn.
  destruct v; try done; by intros [= _ <-].
Qed.

Lemma charge_env ctx k s u t : add_jit_cost ctx k s = Ok (u, t) -> env t = env s.
Proof. unfold add_jit_cost. destruct (jit_cost_limit ctx); [destruct (_ <? _); [done|]|]; by intros [= _ <-]. Qed.

Lemma reduce_env ctx n tree s r t : reduce_to_crypto ctx n tree s = Ok (r, t) -> env t = env s.
Proof.
  unfold reduce_to_crypto, mbind, stateE_bind, liftE.
  destruct (validate_self_extension_key_domain ctx); [|done]. destruct (guard_or _ _); [|done]. destruct (trivial_reduce _ _).
  - destruct (add_jit_cost _ 50 s) as [[u t']|] eqn:Ha; [|done]. cbn. intros [= _ <-]. by apply charge_env in Ha.
  - destruct (reduce_inner _ n (tree_root tree) _ s) as [[r1 s1]|err] eqn:Hi.
    + apply inner_env in Hi. case_match; [destruct (proposition tree); [|done]|]; cbn; intros [= _ <-]; exact Hi.
    + unfold retried, mbind, stateE_bind, liftE. intros Hr.
      destruct err; try done; (destruct (proposition tree); [|done]); apply inner_env in Hr; exact Hr.
Qed.
End reduction.
