(* ===== verification/Signing.v ===== *)
(** Signing a transaction (src/ergo-lib/src/wallet/signing.rs) with the hints of its inputs (wallet.rs), directly or from its
    reduced form (chain/transaction/reduced.rs), and the check of an input's proof (chain/transaction.rs). *)

From stdpp Require Import gmap.
From S2P Require Import ProofTree Prelude SigmaBoolean SigSerializer Prover Verifier SigmaSerial Types Expr Value EvalOps Eval Reduce SigmaSteps SigmaCommit SigmaRespond SigmaComplete SigmaSound Spend Tokens BoxSelector BoxBuilder TxBuilder TxContext StorageRent TxValidate EvalLimit.
#[local] Open Scope Z_scope.

Section signing.
Context `{C : SigmaCrypto} {Bx : ErgoBoxData} {N : Bnum} {Sh : Sha256} {HI : HashIter} `{!ErgoBoxes}.

Inductive TxSigningError : Type :=
| SigningContextError (e : TransactionContextError)
| SigningProverError (e : ProveError) (input : nat)
| SigningSerializationError (e : SigmaSerializationError)
| SigningSigParsingError (e : SigParsingError)
(** A panic of the verdict on storage rent. *)
| SigningPanicked.

(** * Hints of a transaction *)

Record TransactionHintsBag : Type := mkTxHints {
  secret_hints : gmap nat HintsBag;
  public_hints : gmap nat HintsBag
}.
Definition tx_hints_empty : TransactionHintsBag := mkTxHints ∅ ∅.
Definition is_commitment_hint (h : Hint) : bool := match h with HintCommitment _ => true | HintSecretProven _ => false end.
Definition replace_hints_for_input (bag : TransactionHintsBag) (index : nat) (hints_bag : HintsBag) : TransactionHintsBag :=
  mkTxHints (<[index := List.filter (fun h => negb (is_commitment_hint h)) hints_bag]> (secret_hints bag))
            (<[index := List.filter is_commitment_hint hints_bag]> (public_hints bag)).
Definition hints_at (m : gmap nat HintsBag) (index : nat) : HintsBag := default hints_empty (m !! index).
Definition add_hints_for_input (bag : TransactionHintsBag) (index : nat) (hints_bag : HintsBag) : TransactionHintsBag :=
  mkTxHints
    (<[index := List.filter (fun h => negb (is_commitment_hint h)) hints_bag ++ hints_at (secret_hints bag) index]> (secret_hints bag))
    (<[index := List.filter is_commitment_hint hints_bag ++ hints_at (public_hints bag) index]> (public_hints bag)).
Definition all_hints_for_input (bag : TransactionHintsBag) (index : nat) : HintsBag :=
  hints_at (secret_hints bag) index ++ hints_at (public_hints bag) index.
Definition hints_for (tx_hints : option TransactionHintsBag) (input_idx : nat) : HintsBag :=
  match tx_hints with Some bag => all_hints_for_input bag input_idx | None => hints_empty end.

(** * Signing *)

(** The evaluator's state, which all inputs share, and the random numbers. *)
Abbreviation signM := (stateE (EvalState * Rng) TxSigningError).

(** [Input::from_unsigned_input] *)
Definition from_unsigned_input (input : extended_input) (p : ProofBytes) : Input :=
  mkSignedInput (input_box_id input) (mkProverResult p (input_extension input)).

Context (secrets : list PrivateInput) (fuel : nat).
Abbreviation unsigned_context := (TransactionContext unsigned_transaction).

(** [sign_tx_input], which also gives the context for the next input. *)
Definition sign_tx_input (tc : unsigned_context) (sc : ErgoStateContext) (ctx : EvalContext) (tx_hints : option TransactionHintsBag)
    (input_idx : nat) (message : list Z) : signM (EvalContext * Input) :=
  ctx ← liftE (result_map_err SigningContextError (update_context ctx tc input_idx));
  unsigned_input ← liftE (ok_or (tx_inputs (spending_tx tc) !! input_idx) (SigningContextError (InputBoxNotFound input_idx)));
  input_box ← liftE (ok_or (get_input_box tc (input_box_id unsigned_input)) (SigningContextError (InputBoxNotFound input_idx)));
  rent ← liftE (ok_or (storage_rent_spendable sc ctx) SigningPanicked);
  if (rent : bool) then
    mret (ctx, mkSignedInput (input_box_id unsigned_input) (mkProverResult ProofEmpty (ctx_extension ctx)))
  else
    proof ← with_err (fun e => SigningProverError e input_idx)
      (prove secrets ctx fuel (box_ergo_tree input_box) message (hints_for tx_hints input_idx));
    mret (ctx, mkSignedInput (input_box_id unsigned_input) (mkProverResult proof (ctx_extension ctx))).

Fixpoint sign_inputs (tc : unsigned_context) (sc : ErgoStateContext) (tx_hints : option TransactionHintsBag) (message : list Z)
    (idxs : list nat) (ctx : EvalContext) : signM (list Input) :=
  match idxs with
  | [] => mret []
  | i :: idxs =>
      p ← sign_tx_input tc sc ctx tx_hints i message;
      rest ← sign_inputs tc sc tx_hints message idxs p.1;
      mret (p.2 :: rest)
  end.

(** [sign_transaction] *)
Definition sign_transaction (tc : unsigned_context) (sc : ErgoStateContext) (tx_hints : option TransactionHintsBag)
    : stateE Rng TxSigningError Transaction := fun r =>
  let tx := spending_tx tc in
  message ← result_map_err SigningSerializationError (unsigned_bytes_to_sign tx);
  ctx ← result_map_err SigningContextError (make_context sc tc 0);
  p ← sign_inputs tc sc tx_hints message (seq 0 (length (tx_inputs tx))) ctx (mkEvalState ∅ 0, r);
  signed ← result_map_err SigningSerializationError (transaction_new p.1 (tx_data_inputs tx) (tx_output_candidates tx));
  Ok (signed, p.2.2).

(** ** Reduced transactions *)

Record ReducedInput : Type := mkReducedInput { sigma_prop : SigmaBoolean; reduced_cost : Z; reduced_extension : list (Z * Constant) }.
Record ReducedTransaction : Type := mkReduced {
  unsigned_tx : unsigned_transaction;
  tx_cost : Z;
  reduced_inputs : list ReducedInput
}.

Fixpoint reduce_inputs (tc : unsigned_context) (inputs : list (nat * extended_input)) (ctx : EvalContext)
    : stateE EvalState TxSigningError (list ReducedInput) :=
  match inputs with
  | [] => mret []
  | (idx, input) :: inputs =>
      ctx ← liftE (result_map_err SigningContextError (update_context ctx tc idx));
      input_box ← liftE (ok_or (get_input_box tc (input_box_id input)) (SigningContextError (InputBoxNotFound idx)));
      reduction ← with_err (fun e => SigningProverError (ProveEvalError e) idx) (reduce_to_crypto ctx fuel (box_ergo_tree input_box));
      rest ← reduce_inputs tc inputs ctx;
      mret (mkReducedInput reduction.1 reduction.2 (input_extension input) :: rest)
  end.

(** [reduce_tx] *)
Definition reduce_tx (tc : unsigned_context) (sc : ErgoStateContext) : result TxSigningError ReducedTransaction :=
  let tx := spending_tx tc in
  ctx ← result_map_err SigningContextError (make_context sc tc 0);
  p ← reduce_inputs tc (enumerate (tx_inputs tx)) ctx (mkEvalState ∅ 0);
  Ok (mkReduced tx 0 p.1).

(** The bytes of an extension. *)
Context (extension_bytes : list (Z * Constant) -> result SigmaSerializationError (list Z)).

Fixpoint extensions_match (ps : list (extended_input * ReducedInput)) : result SigmaSerializationError unit :=
  match ps with
  | [] => Ok tt
  | (input, reduced) :: ps =>
      b1 ← extension_bytes (input_extension input);
      b2 ← extension_bytes (reduced_extension reduced);
      guard_or (bool_decide (b1 = b2)) SerNotSupported;;
      extensions_match ps
  end.

(** [ReducedTransaction::validate] *)
Definition validate_reduced (tx : ReducedTransaction) : result SigmaSerializationError unit :=
  guard_or (length (tx_inputs (unsigned_tx tx)) =? length (reduced_inputs tx))%nat SerNotSupported;;
  extensions_match (zip (tx_inputs (unsigned_tx tx)) (reduced_inputs tx)).

(** The body of [sign_reduced_transaction] for one input; [None] for the reduced input is a panic. *)
Definition sign_reduced_input (tx : ReducedTransaction) (tx_hints : option TransactionHintsBag) (message : list Z)
    (p : nat * extended_input) : stateE Rng TxSigningError Input :=
  reduced_input ← liftE (ok_or (reduced_inputs tx !! p.1) SigningPanicked);
  proof ← with_err (fun e => SigningProverError (ProveProofError e) p.1)
    (generate_proof secrets (sigma_prop reduced_input) message (hints_for tx_hints p.1));
  mret (mkSignedInput (input_box_id p.2) (mkProverResult proof (reduced_extension reduced_input))).

Definition sign_reduced_transaction (reduced : ReducedTransaction) (tx_hints : option TransactionHintsBag)
    : stateE Rng TxSigningError Transaction :=
  liftE (result_map_err SigningSerializationError (validate_reduced reduced));;
  let tx := unsigned_tx reduced in
  message ← liftE (result_map_err SigningSerializationError (unsigned_bytes_to_sign tx));
  signed_inputs ← mapM_st (sign_reduced_input reduced tx_hints message) (enumerate (tx_inputs tx));
  liftE (result_map_err SigningSerializationError (transaction_new signed_inputs (tx_data_inputs tx) (tx_output_candidates tx))).

(** [Transaction::from_unsigned_tx]; [None] for an index without a proof. *)
Definition from_unsigned_tx (tx : unsigned_transaction) (proofs : list ProofBytes) : option (result SigmaSerializationError Transaction) :=
  inputs ← mapM (fun p => from_unsigned_input p.2 <$> proofs !! p.1) (enumerate (tx_inputs tx));
  Some (transaction_new inputs (tx_data_inputs tx) (tx_output_candidates tx)).

(** * Checking the proof of an input *)

(** [verify_tx_input_proof]: the context for the next input, the answer and its cost. *)
Definition verify_tx_input_proof (tc : TransactionContext Transaction) (ctx : EvalContext) (sc : ErgoStateContext)
    (input_idx : nat) (message : list Z) : stateE EvalState TxValidationError (EvalContext * (bool * Z)) :=
  ctx ← liftE (result_map_err TxContextError (update_context ctx tc input_idx));
  input ← liftE (ok_or (signed_inputs (spending_tx tc) !! input_idx) (TxContextError (InputBoxNotFound input_idx)));
  input_box ← liftE (ok_or (get_input_box tc (box_id_of_input input)) (TxContextError (InputBoxNotFound input_idx)));
  rent ← liftE (ok_or (storage_rent_verdict (proof (spending_proof input)) sc ctx) ValidationPanicked);
  match rent with
  | Verdict result => mret (ctx, (result, STORAGE_CONTRACT_COST))
  | NotApplicable =>
      answer ← with_err (TxVerifierError input_idx)
        (verify ctx fuel (box_ergo_tree input_box) (proof (spending_proof input)) message);
      mret (ctx, answer)
  end.

(** The answers for all inputs, over one context. *)
Fixpoint verify_tx_inputs (tc : TransactionContext Transaction) (sc : ErgoStateContext) (message : list Z) (idxs : list nat)
    (ctx : EvalContext) : stateE EvalState TxValidationError (list (bool * Z)) :=
  match idxs with
  | [] => mret []
  | i :: idxs =>
      p ← verify_tx_input_proof tc ctx sc i message;
      rest ← verify_tx_inputs tc sc message idxs p.1;
      mret (p.2 :: rest)
  end.
End signing.

(** * What signing promises *)

Section theorems.
Context `{C : SigmaCrypto} {L : SigmaCryptoLaws C} {Bx : ErgoBoxData} {N : Bnum} {Sh : Sha256} {HI : HashIter} `{!ErgoBoxes} {HO : HashOrder}.
Context (secrets : list PrivateInput) (fuel : nat).
Abbreviation unsigned_context := (TransactionContext unsigned_transaction).

(** An unsigned transaction as its constructor makes it: its id is the hash of its bytes, its boxes are those of its
    candidates under that id. *)
Definition unsigned_built (tx : unsigned_transaction) : Prop :=
  exists bytes, unsigned_bytes_to_sign tx = Ok bytes /\ tx_id tx = blake2b256_hash bytes /\
    output_boxes from_box_candidate (tx_id tx) (tx_output_candidates tx) = Ok (tx_outputs tx).

(** What the input at [i] has to be for its signature to count: a rent that is not claimed in vain, and a script that
    reduces to a proposition in the prover's scope. *)
Definition signable (sc : ErgoStateContext) (ctx : EvalContext) : Prop :=
  rent_verdict_for_empty_proof sc ctx <> Some (Verdict false) /\
  forall s sb cost s', reduce_to_crypto ctx fuel (box_ergo_tree (self_box ctx)) s = Ok ((sb, cost), s') ->
    (exists b, sb = TrivialProp b) \/ well_formed sb.

Lemma transaction_new_inv inputs data candidates tx :
  transaction_new inputs data candidates = Ok tx ->
  exists bytes, tx_bytes BUILT_ID_VERSION (input_to_sign <$> inputs) data candidates = Ok bytes /\
    signed_tx_id tx = blake2b256_hash bytes /\ bytes_to_sign tx = Ok bytes /\ signed_inputs tx = inputs /\
    signed_data_inputs tx = data /\ output_boxes from_box_candidate (signed_tx_id tx) candidates = Ok (signed_outputs tx).
Proof.
  unfold transaction_new, transaction_new_at. intros Hn. apply bind_Ok_inv in Hn as (zero & _ & Hn).
  apply bind_Ok_inv in Hn as (bytes & Hb & Hn). apply bind_Ok_inv in Hn as (boxes & Ho & Hn). injection Hn as <-.
  exists bytes. unfold bytes_to_sign in *. cbn in *. by rewrite Hb.
Qed.

Lemma unsigned_bytes_inv tx bytes :
  unsigned_bytes_to_sign tx = Ok bytes ->
  tx_bytes BUILT_ID_VERSION (tx_inputs tx) (tx_data_inputs tx) (tx_output_candidates tx) = Ok bytes.
Proof.
  unfold unsigned_bytes_to_sign. intros Hn. apply bind_Ok_inv in Hn as (t & (b & Hb & _ & Hs & _)%transaction_new_inv & Hn).
  rewrite Hs in Hn. injection Hn as <-. rewrite <- list_fmap_compose in Hb.
  by rewrite (list_fmap_ext _ id), list_fmap_id in Hb; [|by intros ? []].
Qed.

(** The constructor makes such transactions. *)
Lemma unsigned_new_built inputs data candidates tx :
  unsigned_new from_box_candidate (tx_bytes BUILT_ID_VERSION) blake2b256_hash inputs data candidates = Ok tx -> unsigned_built tx.
Proof.
  unfold unsigned_new. intros Hn. apply bind_Ok_inv in Hn as (zero & Hz & Hn). apply bind_Ok_inv in Hn as (bytes & Hb & Hn).
  apply bind_Ok_inv in Hn as (boxes & Ho & Hn). injection Hn as <-.
  destruct (output_boxes _ (repeat 0 32) _) as [z|] eqn:Ez; [|done]. destruct (tx_bytes _ _ _ _) as [b|] eqn:Eb; [|done]. injection Hb as ->.
  destruct (output_boxes _ (blake2b256_hash bytes) _) as [o|] eqn:Eo; [|done]. injection Ho as ->.
  exists bytes. split; [|by split]. unfold unsigned_bytes_to_sign, transaction_new, transaction_new_at, bytes_to_sign.
  cbn [tx_inputs tx_data_inputs tx_output_candidates]. rewrite Ez. cbn [mbind result_bind signed_inputs signed_data_inputs id_version signed_output_candidates].
  rewrite <- list_fmap_compose, (list_fmap_ext _ id), list_fmap_id by (by intros ? []). rewrite Eb. cbn [mbind result_bind]. rewrite Eo.
  cbn [mbind result_bind signed_inputs signed_data_inputs id_version signed_output_candidates].
  by rewrite <- list_fmap_compose, (list_fmap_ext _ id), list_fmap_id, Eb by (by intros ? []).
Qed.

(** The context keeps no limit on the cost. *)
Definition for_input (ctx0 ctx : EvalContext) : Prop := same_base ctx0 ctx /\ jit_cost_limit ctx = None.

Lemma update_for_input sc (tc : unsigned_context) j i ctx0 ctx ctx' :
  make_context sc tc j = Ok ctx0 -> for_input ctx0 ctx -> update_context ctx tc i = Ok ctx' ->
  for_input ctx0 ctx' /\ make_context sc tc i = Ok ctx'.
Proof.
  intros Hm [Hb Hl] Hu. destruct (update_makes sc tc i j ctx0 ctx ctx' Hm Hb Hu) as [Hb' Hm'].
  assert (jit_cost_limit ctx' = None) as Hl'.
  { unfold update_context in Hu. apply bind_Ok_inv in Hu as (? & _ & Hu). apply bind_Ok_inv in Hu as (? & _ & Hu). by injection Hu as <-. }
  split; [done|]. rewrite Hm'. f_equal. destruct ctx'. cbn in *. by rewrite Hl'.
Qed.

(** What signs an input, signs the unsigned one. *)
Lemma sign_tx_input_same tc sc ctx i message s r ctx' input s' r' :
  sign_tx_input secrets fuel tc sc ctx None i message (s, r) = Ok ((ctx', input), (s', r')) ->
  exists u, tx_inputs (spending_tx tc) !! i = Some u /\ update_context ctx tc i = Ok ctx' /\
    box_id_of_input input = input_box_id u /\ extension (spending_proof input) = input_extension u.
Proof.
  unfold sign_tx_input, mbind, stateE_bind, liftE. destruct (update_context ctx tc i) as [ctx1|] eqn:Hu; [|done]. cbn.
  destruct (tx_inputs (spending_tx tc) !! i) as [u|] eqn:Hi; [|done]. cbn.
  destruct (get_input_box _ _); [|done]. cbn. destruct (storage_rent_spendable sc ctx1) as [rent|]; [|done]. cbn. intros Hs.
  assert (ctx_extension ctx1 = input_extension u) as Hext.
  { unfold update_context in Hu. apply bind_Ok_inv in Hu as (? & _ & Hu). apply bind_Ok_inv in Hu as (ext & He & Hu). injection Hu as <-.
    unfold extension_of_input in He. cbn in He. rewrite Hi in He. by injection He as <-. }
  exists u. destruct rent; [by injection Hs as <- <- _ _|].
  destruct (with_err _ _ _) as [[p [s1 r1]]|]; [|done]. by injection Hs as <- <- _ _.
Qed.

(** What a signed input is: spent by rent, or with a proof for what its script reduces to. *)
Inductive input_signed (sc : ErgoStateContext) (message : list Z) (ctx : EvalContext) (p : ProofBytes) (s : EvalState) : EvalState -> Prop :=
| signed_by_rent : storage_rent_verdict p sc ctx = Some (Verdict true) -> input_signed sc message ctx p s s
| signed_by_script sb cost s' : storage_rent_verdict p sc ctx = Some NotApplicable ->
    check_soft_fork_condition (box_ergo_tree (self_box ctx)) ctx = Ok false ->
    reduce_to_crypto ctx fuel (box_ergo_tree (self_box ctx)) s = Ok ((sb, cost), s') ->
    verify_signature sb message (proof_slice p) = Ok true -> input_signed sc message ctx p s s'.

Lemma sign_tx_input_signs tc sc j ctx0 ctx i message s r ctx' input s' r' :
  Forall secret_wf secrets -> make_context sc tc j = Ok ctx0 -> for_input ctx0 ctx ->
  (forall ctx, make_context sc tc i = Ok ctx -> signable sc ctx) ->
  sign_tx_input secrets fuel tc sc ctx None i message (s, r) = Ok ((ctx', input), (s', r')) ->
  update_context ctx tc i = Ok ctx' /\ for_input ctx0 ctx' /\ make_context sc tc i = Ok ctx' /\
  get_input_box tc (box_id_of_input input) = Some (self_box ctx') /\
  input_signed sc message ctx' (proof (spending_proof input)) s s'.
Proof.
  intros Hsec Hm Hf Hsig Hs. destruct (sign_tx_input_same _ _ _ _ _ _ _ _ _ _ _ Hs) as (u & Hu & Hup & Hid & Hext).
  destruct (update_for_input _ _ _ _ _ _ _ Hm Hf Hup) as [Hf' Hm'].
  destruct (Hsig _ Hm') as [Hrent Hwf]. pose proof (make_context_inv _ _ _ _ Hm') as (id & Hid' & Hbox & _).
  cbn in Hid'. rewrite list_lookup_fmap, Hu in Hid'. injection Hid' as <-. rewrite Hid. split_and!; [done..|].
  unfold sign_tx_input, mbind, stateE_bind, liftE in Hs. rewrite Hup, Hu in Hs. cbn in Hs.
  rewrite Hbox in Hs. cbn in Hs. unfold storage_rent_spendable in Hs.
  destruct (rent_verdict_for_empty_proof sc ctx') as [v|] eqn:Ev; [|done]. cbn in Hs. case_bool_decide as Hv.
  - cbv [mret stateE_ret] in Hs. injection Hs as <- <- _. apply signed_by_rent. unfold storage_rent_verdict. cbn. by rewrite Ev, Hv.
  - destruct (with_err _ _ _) as [[p [s1 r1]]|] eqn:Hp; [|done]. cbv [mret stateE_ret] in Hs. injection Hs as <- -> ->. cbn [spending_proof proof].
    assert (v = NotApplicable) as -> by (destruct v as [|[]]; congruence).
    unfold with_err in Hp. destruct (prove _ _ _ _ _ _ _) as [[p' [s1 r1]]|] eqn:Hpr; [|done]. injection Hp as -> -> ->.
    destruct (proved_signature secrets ctx' fuel _ message s r p s' r' Hsec (Hwf s) Hpr) as (Hsoft & sb & cost & Hr & Hver).
    apply (signed_by_script _ _ _ _ _ sb cost); [|done..]. unfold storage_rent_verdict. by destruct (proof_slice p).
Qed.

(** The signature of an input is accepted, from the same state to the same state. *)
Lemma signed_input_accepted tc tx sc ctx ctx' i message input s s' :
  same_spending (spending_tx tc) tx -> signed_inputs tx !! i = Some input -> update_context ctx tc i = Ok ctx' ->
  get_input_box tc (box_id_of_input input) = Some (self_box ctx') ->
  input_signed sc message ctx' (proof (spending_proof input)) s s' ->
  exists cost, verify_tx_input_proof fuel (respend tc tx) ctx sc i message s = Ok ((ctx', (true, cost)), s').
Proof.
  intros Hsame Hin Hup Hbox Hs. unfold verify_tx_input_proof, mbind, stateE_bind, liftE. rewrite respend_update, Hup by done.
  cbn. rewrite Hin. cbn. change (get_input_box (respend tc tx)) with (get_input_box tc). rewrite Hbox. cbn.
  destruct Hs as [Hr|sb cost s' Hr Hf Hred Hv]; rewrite Hr; cbn; [by eexists|].
  unfold with_err. rewrite (verifies_signed _ _ _ _ _ _ _ _ _ Hf Hred Hv). cbn. by eexists.
Qed.

Lemma sign_inputs_same tc sc message idxs : forall ctx s r ins s' r',
  sign_inputs secrets fuel tc sc None message idxs ctx (s, r) = Ok (ins, (s', r')) ->
  Forall2 (fun i input => exists u, tx_inputs (spending_tx tc) !! i = Some u /\ box_id_of_input input = input_box_id u /\
    extension (spending_proof input) = input_extension u) idxs ins.
Proof.
  induction idxs as [|i idxs IH]; intros ctx s r ins s' r' Hs; cbn in Hs; [injection Hs as <- _ _; constructor|].
  apply st_bind_Ok in Hs as ([ctx1 input] & [s1 r1] & Hi & Hs). apply st_bind_Ok in Hs as (rest & [s2 r2] & Hr & Hs).
  injection Hs as <- _ _. constructor; [|by eapply IH].
  destruct (sign_tx_input_same _ _ _ _ _ _ _ _ _ _ _ Hi) as (u & Hu & _ & Hid & Hext). by exists u.
Qed.

Lemma signed_inputs_accepted tc tx sc j ctx0 message idxs : forall ctx s r ins s' r',
  Forall secret_wf secrets -> same_spending (spending_tx tc) tx ->
  Forall2 (fun i input => signed_inputs tx !! i = Some input) idxs ins ->
  make_context sc tc j = Ok ctx0 -> for_input ctx0 ctx ->
  (forall i ctx, make_context sc tc i = Ok ctx -> signable sc ctx) ->
  sign_inputs secrets fuel tc sc None message idxs ctx (s, r) = Ok (ins, (s', r')) ->
  exists answers, verify_tx_inputs fuel (respend tc tx) sc message idxs ctx s = Ok (answers, s') /\
    length answers = length idxs /\ Forall (fun answer => answer.1 = true) answers.
Proof.
  induction idxs as [|i idxs IH]; intros ctx s r ins s' r' Hsec Hsame Hin Hm Hf Hsig Hs; cbn in Hs.
  { injection Hs as <- <- _. by exists []. }
  apply st_bind_Ok in Hs as ([ctx1 input] & [s1 r1] & Hi & Hs). apply st_bind_Ok in Hs as (rest & [s2 r2] & Hr & Hs).
  injection Hs as <- <- <-. apply Forall2_cons in Hin as [Hin Hrest].
  destruct (sign_tx_input_signs _ _ _ _ _ _ _ _ _ _ _ _ _ Hsec Hm Hf (Hsig i) Hi) as (Hup & Hf' & _ & Hbox & Hsi).
  destruct (signed_input_accepted _ _ _ _ _ _ _ _ _ _ Hsame Hin Hup Hbox Hsi) as [cost Hv].
  destruct (IH _ _ _ _ _ _ Hsec Hsame Hrest Hm Hf' Hsig Hr) as (answers & Ha & Hl & Ht).
  exists ((true, cost) :: answers). cbn. unfold mbind, stateE_bind. rewrite Hv. cbn. cbn in Ha. rewrite Ha. cbn. rewrite Hl. split_and!; [done..|].
  by constructor.
Qed.


(** A signed transaction spends what the unsigned one does, under the same id and message. *)
Lemma signed_same tc message ins tx :
  unsigned_built (spending_tx tc) -> unsigned_bytes_to_sign (spending_tx tc) = Ok message ->
  Forall2 (fun i input => exists u, tx_inputs (spending_tx tc) !! i = Some u /\ box_id_of_input input = input_box_id u /\
    extension (spending_proof input) = input_extension u) (seq 0 (length (tx_inputs (spending_tx tc)))) ins ->
  transaction_new ins (tx_data_inputs (spending_tx tc)) (tx_output_candidates (spending_tx tc)) = Ok tx ->
  same_spending (spending_tx tc) tx /\ signed_inputs tx = ins /\ signed_tx_id tx = tx_id (spending_tx tc) /\
  bytes_to_sign tx = Ok message.
Proof.
  intros (bytes & Hb & Hid & Hbox) Hmsg Hins (b & Htx & Hsid & Hsb & Hsi & Hsd & Hso)%transaction_new_inv.
  rewrite Hmsg in Hb. injection Hb as ->. pose proof (unsigned_bytes_inv _ _ Hmsg) as Hub.
  assert (input_to_sign <$> ins = tx_inputs (spending_tx tc)) as Hmap.
  { apply list_eq. intros i. rewrite list_lookup_fmap. destruct (decide (i < length (tx_inputs (spending_tx tc)))%nat) as [Hi|Hi].
    - destruct (Forall2_lookup_l _ _ _ _ i Hins (lookup_seq_lt _ _ _ Hi)) as (input & Hl & u & Hu & Hid' & Hext). rewrite Hl, Hu.
      cbn. unfold input_to_sign. rewrite Hid', Hext. by destruct u.
    - rewrite !lookup_ge_None_2; [done|lia|]. apply Forall2_length in Hins. rewrite length_seq in Hins. lia. }
  rewrite Hmap, Hub in Htx. injection Htx as <-.
  split; [|split_and!; [done|by rewrite Hsid, Hid|done]]. constructor; cbn.
  - rewrite Hsi, <- Hmap, <- list_fmap_compose. by apply list_fmap_ext.
  - done.
  - rewrite Hsid, <- Hid, Hbox in Hso. by injection Hso as ->.
  - intros i. rewrite Hsi, <- Hmap, list_lookup_fmap. by destruct (ins !! i).
Qed.

(** What [sign_transaction] has done. *)
Lemma sign_transaction_inv tc bs ds utx sc r tx r' :
  tx_context_new utx bs ds = Ok tc -> unsigned_built utx -> sign_transaction secrets fuel tc sc None r = Ok (tx, r') ->
  exists message ctx ins s, spending_tx tc = utx /\ make_context sc tc 0 = Ok ctx /\ for_input ctx ctx /\
    sign_inputs secrets fuel tc sc None message (seq 0 (length (tx_inputs (spending_tx tc)))) ctx (mkEvalState ∅ 0, r) = Ok (ins, (s, r')) /\
    same_spending (spending_tx tc) tx /\ signed_inputs tx = ins /\
    Forall2 (fun i input => signed_inputs tx !! i = Some input) (seq 0 (length (tx_inputs (spending_tx tc)))) ins /\
    signed_tx_id tx = tx_id utx /\ bytes_to_sign tx = Ok message /\ tx_context_new tx bs ds = Ok (respend tc tx).
Proof.
  intros Hnew Hbuilt Hs. unfold sign_transaction in Hs.
  apply bind_Ok_inv in Hs as (message & Hm & Hs). destruct (unsigned_bytes_to_sign (spending_tx tc)) as [m|] eqn:Em; [|done]. injection Hm as ->.
  apply bind_Ok_inv in Hs as (ctx & Hc & Hs). destruct (make_context sc tc 0) as [c|] eqn:Ec; [|done]. injection Hc as ->.
  apply bind_Ok_inv in Hs as ([ins [s1 r1]] & Hi & Hs). apply bind_Ok_inv in Hs as (t & Ht & Hs).
  destruct (transaction_new _ _ _) as [t'|] eqn:Et; [|done]. injection Ht as ->. injection Hs as <- <-. cbn in Et.
  assert (spending_tx tc = utx) as Hutx.
  { unfold tx_context_new in Hnew. do 2 apply bind_Ok_inv in Hnew as (? & _ & Hnew). destruct (first_missing _ _ _); [done|].
    apply bind_Ok_inv in Hnew as (? & _ & Hnew). by injection Hnew as <-. }
  rewrite <- Hutx in Hbuilt, Hnew |- *. pose proof (sign_inputs_same _ _ _ _ _ _ _ _ _ _ Hi) as Hsi.
  destruct (signed_same tc message ins t Hbuilt Em Hsi Et) as (Hsame & Hins & Hid & Hmsg).
  destruct (respend_new _ _ _ _ _ Hsame Hnew) as [_ Hnew'].
  assert (for_input ctx ctx) as Hf.
  { split; [|by apply make_context_inv in Ec as (? & _ & _ & _ & ?)]. exists (self_box ctx), (ctx_extension ctx), (jit_cost_limit ctx). by destruct ctx. }
  exists message, ctx, ins, s1. do 6 (split; [done|]). split; [|done].
  rewrite Hins. apply Forall2_same_length_lookup. apply Forall2_length in Hsi. split; [done|]. intros i x y Hx Hy.
  by apply lookup_seq in Hx as [-> _].
Qed.

(** C11: Signing is complete: a transaction that is signed without hints spends the same boxes as the unsigned one
    under the same id, its context exists over the same boxes, and the check of every input's proof in it says
    yes, where no input claims rent in vain and the scripts reduce to propositions in the prover's scope. *)
Theorem signed_verifies tc bs ds utx sc r tx r' :
  tx_context_new utx bs ds = Ok tc -> unsigned_built utx -> Forall secret_wf secrets ->
  (forall i ctx, make_context sc tc i = Ok ctx -> signable sc ctx) ->
  sign_transaction secrets fuel tc sc None r = Ok (tx, r') ->
  inputs_ids tx = inputs_ids utx /\ signed_outputs tx = tx_outputs utx /\ signed_tx_id tx = tx_id utx /\
  exists stc message ctx answers s, tx_context_new tx bs ds = Ok stc /\
    bytes_to_sign tx = Ok message /\ make_context sc stc 0 = Ok ctx /\
    verify_tx_inputs fuel stc sc message (seq 0 (length (signed_inputs tx))) ctx (mkEvalState ∅ 0) = Ok (answers, s) /\
    length answers = length (tx_inputs utx) /\ Forall (fun answer => answer.1 = true) answers.
Proof.
  intros Hnew Hbuilt Hsec Hsig Hs.
  destruct (sign_transaction_inv _ _ _ _ _ _ _ _ Hnew Hbuilt Hs) as (message & ctx & ins & s1 & Hu & Hc & Hf & Hi & Hsame & Hins & Hall & Hid & Hm & Hnew').
  destruct (signed_inputs_accepted tc tx sc 0 ctx message (seq 0 (length (tx_inputs (spending_tx tc)))) ctx (mkEvalState ∅ 0) r ins s1 r'
    Hsec Hsame Hall Hc Hf Hsig Hi) as (answers & Ha & Hl & Ht).
  rewrite Hu in *. split_and!; [by apply same_inputs|exact (same_outputs _ _ Hsame)|done|].
  exists (respend tc tx), message, ctx, answers, s1. rewrite respend_make by (by rewrite Hu).
  rewrite Hins. apply Forall2_length in Hall. rewrite length_seq in Hall, Hl. rewrite <- Hall. done.
Qed.

(** ** A signed transaction is only refused for its coins, outputs or costs *)

(** The errors of [validate] that are about neither the boxes of inputs, scripts nor proofs: sums of coins and tokens, outputs, costs,
    and the panics of absent parameters and of sums above u64. *)
Definition not_for_signatures (e : TxValidationError) : bool :=
  match e with
  | DoubleSpend _ _ | TxContextError _ | ReducedToFalse _ _ => false
  | TxVerifierError _ (VerifyEvalError (CostError _)) => true
  | TxVerifierError _ _ => false
  | _ => true
  end.

(** Every input of [idxs] is signed in [stc], from some state. *)
Definition all_signed (stc : TransactionContext Transaction) (sc : ErgoStateContext) (message : list Z) (idxs : list nat) : Prop :=
  Forall (fun i => exists input ctx s s', make_context sc stc i = Ok ctx /\ signed_inputs (spending_tx stc) !! i = Some input /\
    get_input_box stc (box_id_of_input input) = Some (self_box ctx) /\ jit_cost_limit ctx = None /\ env s = ∅ /\
    input_signed sc message ctx (proof (spending_proof input)) s s') idxs.

Lemma signed_env sc message ctx p s s' : input_signed sc message ctx p s s' -> env s' = env s.
Proof. intros [|sb cost s1 _ _ Hr _]; [done|]. exact (reduce_env _ _ _ _ _ _ Hr). Qed.

Lemma sign_inputs_signs tc tx sc j ctx0 message idxs : forall ctx s r ins s' r',
  Forall secret_wf secrets -> same_spending (spending_tx tc) tx ->
  Forall2 (fun i input => signed_inputs tx !! i = Some input) idxs ins ->
  make_context sc tc j = Ok ctx0 -> for_input ctx0 ctx -> env s = ∅ ->
  (forall i ctx, make_context sc tc i = Ok ctx -> signable sc ctx) ->
  sign_inputs secrets fuel tc sc None message idxs ctx (s, r) = Ok (ins, (s', r')) -> all_signed (respend tc tx) sc message idxs.
Proof.
  induction idxs as [|i idxs IH]; intros ctx s r ins s' r' Hsec Hsame Hin Hm Hf He Hsig Hs; [constructor|]. cbn in Hs.
  apply st_bind_Ok in Hs as ([ctx1 input] & [s1 r1] & Hi & Hs). apply st_bind_Ok in Hs as (rest & [s2 r2] & Hr & Hs).
  injection Hs as <- <- <-. apply Forall2_cons in Hin as [Hin Hrest].
  destruct (sign_tx_input_signs _ _ _ _ _ _ _ _ _ _ _ _ _ Hsec Hm Hf (Hsig i) Hi) as (Hup & Hf' & Hm' & Hbox & Hsi).
  constructor.
  - exists input, ctx1, s, s1. rewrite respend_make by done. split_and!; try done. by apply make_context_inv in Hm' as (? & _ & _ & _ & ?).
  - apply (IH ctx1 s1 r1 rest s2 r2); try done. by rewrite (signed_env _ _ _ _ _ _ Hsi).
Qed.

Lemma validate_signed_input stc sc message max_cost i j ctx0 ctx total :
  make_context sc stc j = Ok ctx0 -> same_base ctx0 ctx -> all_signed stc sc message [i] ->
  match validate_input fuel sc stc message max_cost i ctx total with
  | Ok (ctx', _) => same_base ctx0 ctx'
  | Err e => not_for_signatures e = true
  end.
Proof.
  intros Hm Hb Hs. apply Forall_cons in Hs as [(input & ctxi & s & s' & Hmi & Hi & Hbox & Hl & He & Hsi) _].
  unfold validate_input.
  destruct (update_context ctx stc i) as [ctx1|] eqn:Hu.
  2: { exfalso. unfold update_context in Hu. unfold make_context in Hmi. destruct (self_of_input stc i); [|done].
       destruct (data_inputs_ir stc); [|done]. destruct (inputs_ir stc); [|done]. by destruct (extension_of_input stc i). }
  destruct (update_makes sc stc i j ctx0 ctx ctx1 Hm Hb Hu) as [Hb1 Hm1]. rewrite Hmi in Hm1. injection Hm1 as ->.
  cbn [result_map_err mbind result_bind]. rewrite Hi. cbn [ok_or mbind result_bind]. rewrite Hbox. cbn [ok_or mbind result_bind].
  change (storage_rent_verdict (proof (spending_proof input)) sc (with_limit ctx1 None))
    with (storage_rent_verdict (proof (spending_proof input)) sc ctx1) in Hsi.
  destruct Hsi as [Hr|sb cost s' Hr Hf Hred Hv]; change (storage_rent_verdict ?p sc (with_limit ctx1 None)) with (storage_rent_verdict p sc ctx1) in Hr;
    rewrite Hr; cbn [ok_or mbind result_bind].
  - destruct (_ >? _); [done|]. unfold u64_or_panic. destruct (checked_u64 _); [exact Hb1|done].
  - change (box_ergo_tree (self_box (with_limit ctx1 None))) with (box_ergo_tree (self_box ctx1)) in *.
    change (check_soft_fork_condition ?t (with_limit ctx1 None)) with (check_soft_fork_condition t ctx1) in Hf.
    cbn [self_box with_limit]. rewrite Hf. cbn [result_map_err mbind result_bind]. cbv zeta.
    set (limit := saturating_mul (saturating_sub max_cost total) 10).
    pose proof (reduce_runs (with_limit ctx1 None) limit fuel (box_ergo_tree (self_box ctx1)) s (mkEvalState ∅ 0) eq_refl He) as Hrun.
    change (with_limit (with_limit ctx1 None) (Some limit)) with (with_limit ctx1 (Some limit)) in Hrun.
    destruct (reduce_to_crypto (with_limit ctx1 (Some limit)) fuel _ _) as [[[sb2 cost2] t']|err].
    2: { destruct err; try done; by rewrite Hred in Hrun. }
    destruct Hrun as (c & t & Hred2 & _). rewrite Hred in Hred2. injection Hred2 as -> _ _. cbn [fst snd result_map_err mbind result_bind].
    unfold u64_or_panic. destruct (checked_u64 (cost2 + estimate_crypto_cost sb2 / 10)) as [k|]; [|exact eq_refl]. cbn [ok_or mbind result_bind].
    destruct (_ >? _); [done|]. cbn [fst] in Hv. rewrite Hv. cbn [result_map_err mbind result_bind].
    destruct (checked_u64 (total + k)); [|exact eq_refl]. cbn [ok_or mbind result_bind].
    destruct Hb1 as (self & ext & l & ->). by exists self, ext, (Some limit).
Qed.

Lemma validate_signed_inputs stc sc message max_cost j ctx0 idxs : forall ctx total,
  make_context sc stc j = Ok ctx0 -> same_base ctx0 ctx -> all_signed stc sc message idxs ->
  match validate_inputs fuel sc stc message max_cost idxs ctx total with
  | Ok _ => True
  | Err e => not_for_signatures e = true
  end.
Proof.
  induction idxs as [|i idxs IH]; intros ctx total Hm Hb Hs; [done|]. cbn. apply Forall_cons in Hs as [Hi Hs].
  pose proof (validate_signed_input stc sc message max_cost i j ctx0 ctx total Hm Hb) as Hv.
  destruct (validate_input _ _ _ _ _ _ _ _) as [[ctx1 total1]|e]; cbn.
  - apply IH; try done. apply Hv. by repeat constructor.
  - apply Hv. by repeat constructor.
Qed.

(** A step of validation that only gives such errors. *)
Definition fine {A} (m : result TxValidationError A) : Prop := match m with Ok _ => True | Err e => not_for_signatures e = true end.

Lemma fine_bind {A B} (m : result TxValidationError A) (f : A -> result TxValidationError B) :
  fine m -> (forall a, m = Ok a -> fine (f a)) -> fine (m ≫= f).
Proof. unfold fine. intros Hm Hf. destruct m as [a|err]; [exact (Hf a eq_refl)|exact Hm]. Qed.
Lemma fine_ok_or {A} (o : option A) e : not_for_signatures e = true -> fine (ok_or o e).
Proof. by destruct o. Qed.
Lemma fine_map_err {E A} (f : E -> TxValidationError) (r : result E A) : (forall e, not_for_signatures (f e) = true) -> fine (result_map_err f r).
Proof. destruct r; cbn; auto. Qed.
Lemma fine_guard b e : not_for_signatures e = true -> fine (guard_or b e).
Proof. by destruct b. Qed.
Lemma fine_param_u64 sc p : fine (param_u64 sc p).
Proof. unfold param_u64, param. by destruct (_ !! _). Qed.
Lemma fine_u64 z : fine (u64_or_panic z).
Proof. by apply fine_ok_or. Qed.
Hint Resolve fine_ok_or fine_map_err fine_guard fine_param_u64 fine_u64 : core.

Ltac fine_steps := repeat first [done | solve [auto] | apply fine_bind; [solve [auto]|intros ? _]].

Lemma fine_output sc o h : fine (verify_output sc o h).
Proof. unfold verify_output, block_version_of. cbv zeta. fine_steps. Qed.

Lemma fine_outputs sc bs h : fine (verify_outputs sc bs h).
Proof. induction bs as [|b bs IH]; [done|]. apply fine_bind; [apply fine_output|by intros]. Qed.

Lemma fine_assets ids ins outs : fine (verify_assets ids ins outs).
Proof.
  unfold verify_assets. apply fine_bind; [by apply fine_ok_or|]. intros new_id _.
  induction (hash_iter outs) as [|[id amt] l IH]; [done|]. cbn. destruct (ins !! id); repeat case_match; done.
Qed.

Lemma fine_init_cost sc tx bs : fine (compute_tx_init_cost sc tx bs).
Proof. unfold compute_tx_init_cost. destruct (count_tokens bs), (count_tokens (signed_outputs tx)). cbv zeta. fine_steps. Qed.

(** C10: Validation accepts signatures: a transaction that is signed without hints is never refused by validation for a
    script, a proof or an input, only for its coins and tokens, its outputs, or its costs, where no input claims rent in
    vain and the scripts reduce to propositions in the prover's scope. *)
Theorem signed_validates tc bs ds utx sc r tx r' :
  tx_context_new utx bs ds = Ok tc -> unsigned_built utx -> Forall secret_wf secrets ->
  (forall i ctx, make_context sc tc i = Ok ctx -> signable sc ctx) ->
  sign_transaction secrets fuel tc sc None r = Ok (tx, r') ->
  exists stc, tx_context_new tx bs ds = Ok stc /\
    match validate fuel stc sc with Ok _ => True | Err e => not_for_signatures e = true end.
Proof.
  intros Hnew Hbuilt Hsec Hsig Hs.
  destruct (sign_transaction_inv _ _ _ _ _ _ _ _ Hnew Hbuilt Hs) as (message & ctx & ins & s1 & Hu & Hc & Hf & Hi & Hsame & Hins & Hall & _ & Hm & Hnew').
  exists (respend tc tx). split; [done|]. change (fine (validate fuel (respend tc tx) sc)).
  assert (all_signed (respend tc tx) sc message (seq 0 (length (signed_inputs tx)))) as Hsigned.
  { rewrite Hins. replace (length ins) with (length (tx_inputs (spending_tx tc))) by (apply Forall2_length in Hall; by rewrite length_seq in Hall).
    eapply (sign_inputs_signs tc tx sc 0 ctx message _ ctx (mkEvalState ∅ 0)); done. }
  unfold validate, block_version_of. cbv zeta.
  do 4 (apply fine_bind; [solve [auto]|intros ? _]).
  apply fine_bind; [case_match; [done|]; by case_match|]. intros h _.
  apply fine_bind; [apply fine_outputs|]. intros _ _. do 2 (apply fine_bind; [solve [unfold extract_assets; auto]|intros ? _]).
  apply fine_bind; [apply fine_assets|]. intros _ _. cbn [spending_tx respend]. rewrite Hm. apply fine_bind; [done|]. intros m [= <-].
  apply fine_bind; [auto|]. intros max_cost _. rewrite respend_make, Hc by done. apply fine_bind; [done|]. intros c [= <-].
  apply fine_bind; [apply fine_init_cost|]. intros init _. apply fine_bind; [auto|]. intros _ _.
  apply (validate_signed_inputs (respend tc tx) sc message max_cost 0 ctx); [by rewrite respend_make|apply Hf|done].
Qed.

(** ** Signing in reduced form *)

Section reduced.
Context (extension_bytes : list (Z * Constant) -> result SigmaSerializationError (list Z)).

Lemma extensions_equal inputs : forall reds,
  Forall (fun input => exists bytes, extension_bytes (input_extension input) = Ok bytes) inputs ->
  Forall2 (fun input red => reduced_extension red = input_extension input) inputs reds ->
  extensions_match extension_bytes (zip inputs reds) = Ok tt.
Proof.
  induction inputs as [|input inputs IH]; intros reds Hb He; [done|].
  apply Forall2_cons_inv_l in He as (red & reds' & Hr & He & ->). apply Forall_cons in Hb as [[bytes Hb] Hbs].
  cbn. rewrite Hr, Hb. cbn. rewrite bool_decide_true by done. cbn. by apply IH.
Qed.

(** What [reduce_tx] needs of an input to stand for its signing. *)
Definition reducible (sc : ErgoStateContext) (ctx : EvalContext) : Prop :=
  storage_rent_spendable sc ctx = Some false /\ check_soft_fork_condition (box_ergo_tree (self_box ctx)) ctx = Ok false.

Lemma reduced_input_signs tc sc j ctx0 ctx ctx' reduced tx_hints i u message red s s' :
  make_context sc tc j = Ok ctx0 -> for_input ctx0 ctx -> (forall ctx, make_context sc tc i = Ok ctx -> reducible sc ctx) ->
  tx_inputs (spending_tx tc) !! i = Some u -> update_context ctx tc i = Ok ctx' ->
  reduce_to_crypto ctx' fuel (box_ergo_tree (self_box ctx')) s = Ok ((sigma_prop red, reduced_cost red), s') ->
  reduced_extension red = input_extension u -> reduced_inputs reduced !! i = Some red ->
  forall r, match sign_reduced_input secrets reduced tx_hints message (i, u) r with
            | Ok (input, r') => sign_tx_input secrets fuel tc sc ctx tx_hints i message (s, r) = Ok ((ctx', input), (s', r'))
            | Err _ => exists e, sign_tx_input secrets fuel tc sc ctx tx_hints i message (s, r) = Err e
            end.
Proof.
  intros Hm Hf Hred Hu Hup Hrc Hext Hl r. destruct (update_for_input _ _ _ _ _ _ _ Hm Hf Hup) as [Hf' Hm'].
  destruct (Hred _ Hm') as [Hrent Hsoft]. destruct (make_context_inv _ _ _ _ Hm') as (id & Hid' & Hbox & He & _).
  cbn in Hid', He. rewrite list_lookup_fmap, Hu in Hid'. injection Hid' as <-. rewrite Hu in He. injection He as He.
  unfold sign_reduced_input, sign_tx_input, mbind, stateE_bind, liftE. rewrite Hup. cbn. rewrite Hl, Hu. cbn. rewrite Hbox. cbn.
  rewrite Hrent. cbn. unfold with_err, prove. rewrite Hsoft, Hrc, Hext, He.
  destruct (generate_proof _ _ _ _ _) as [[p r1]|[]]; cbn; by eauto.
Qed.

Lemma reduced_inputs_sign tc sc j ctx0 reduced tx_hints message inputs : forall k ctx s reds s',
  make_context sc tc j = Ok ctx0 -> for_input ctx0 ctx -> (forall i ctx, make_context sc tc i = Ok ctx -> reducible sc ctx) ->
  (forall i u, inputs !! i = Some u -> tx_inputs (spending_tx tc) !! (k + i)%nat = Some u) ->
  reduce_inputs fuel tc (enumerate_from k inputs) ctx s = Ok (reds, s') ->
  (forall i red, reds !! i = Some red -> reduced_inputs reduced !! (k + i)%nat = Some red) ->
  Forall2 (fun input red => reduced_extension red = input_extension input) inputs reds /\
  forall r, match mapM_st (sign_reduced_input secrets reduced tx_hints message) (enumerate_from k inputs) r with
            | Ok (ins, r') => sign_inputs secrets fuel tc sc tx_hints message (seq k (length inputs)) ctx (s, r) = Ok (ins, (s', r'))
            | Err _ => exists e, sign_inputs secrets fuel tc sc tx_hints message (seq k (length inputs)) ctx (s, r) = Err e
            end.
Proof.
  induction inputs as [|u inputs IH]; intros k ctx s reds s' Hm Hf Hred Hin Hr Hreds; cbn in Hr.
  { injection Hr as <- <-. split; [constructor|]. done. }
  unfold mbind, stateE_bind, liftE in Hr.
  destruct (update_context ctx tc k) as [ctx1|] eqn:Hup; [|done]. cbn in Hr.
  destruct (get_input_box tc (input_box_id u)) as [box|] eqn:Hb; [|done]. cbn in Hr. unfold with_err at 1 in Hr.
  destruct (reduce_to_crypto ctx1 fuel (box_ergo_tree box) s) as [[[sb cost] s1]|] eqn:Hrc; [|done]. cbn in Hr.
  destruct (reduce_inputs fuel tc (enumerate_from (S k) inputs) ctx1 s1) as [[rest s2]|] eqn:Hrest; [|done]. cbv [mret stateE_ret] in Hr. injection Hr as <- <-.
  destruct (update_for_input _ _ _ _ _ _ _ Hm Hf Hup) as [Hf' Hm'].
  pose proof (Hin 0%nat u eq_refl) as Hu. rewrite Nat.add_0_r in Hu.
  pose proof (Hreds 0%nat _ eq_refl) as Hl. rewrite Nat.add_0_r in Hl.
  assert (box = self_box ctx1) as ->.
  { destruct (make_context_inv _ _ _ _ Hm') as (id & Hid' & Hbox & _). cbn in Hid'. rewrite list_lookup_fmap, Hu in Hid'.
    injection Hid' as <-. congruence. }
  pose proof (reduced_input_signs tc sc j ctx0 ctx ctx1 reduced tx_hints k u message (mkReducedInput sb cost (input_extension u)) s s1
    Hm Hf (Hred k) Hu Hup Hrc eq_refl Hl) as Hstep.
  destruct (IH (S k) ctx1 s1 rest s2 Hm Hf' Hred) as [Hext Hiff]; [|exact Hrest| |].
  { intros i v Hv. replace (S k + i)%nat with (k + S i)%nat by lia. by apply Hin. }
  { intros i v Hv. replace (S k + i)%nat with (k + S i)%nat by lia. by apply Hreds. }
  split; [by constructor|]. intros r. cbn. specialize (Hstep r). unfold mbind, stateE_bind.
  destruct (sign_reduced_input _ _ _ _ _ r) as [[input r1]|]; [|destruct Hstep as [? ->]; by eexists]. rewrite Hstep. cbn.
  specialize (Hiff r1). destruct (mapM_st _ _ r1) as [[others r2]|]; [by rewrite Hiff|]. destruct Hiff as [? ->]. by eexists.
Qed.

(** C12: Signing a reduced transaction is signing the transaction, without its context: the reduction of a
    transaction whose inputs are not spent by rent or unverified is signed exactly where the transaction itself is, by the same random
    numbers and hints, as the same transaction. *)
Theorem reduced_signs tc sc reduced tx_hints :
  reduce_tx fuel tc sc = Ok reduced ->
  Forall (fun input => exists bytes, extension_bytes (input_extension input) = Ok bytes) (tx_inputs (spending_tx tc)) ->
  (forall i ctx, make_context sc tc i = Ok ctx -> reducible sc ctx) ->
  forall r tx r', sign_reduced_transaction secrets extension_bytes reduced tx_hints r = Ok (tx, r') <->
    sign_transaction secrets fuel tc sc tx_hints r = Ok (tx, r').
Proof.
  intros Hr Hbytes Hred r tx r'. unfold reduce_tx in Hr. cbv zeta in Hr.
  apply bind_Ok_inv in Hr as (ctx & Hc & Hr). destruct (make_context sc tc 0) as [c|] eqn:Ec; [|done]. injection Hc as ->.
  apply bind_Ok_inv in Hr as ([reds s1] & Hi & Hr). injection Hr as <-. cbn [fst].
  assert (for_input ctx ctx) as Hf.
  { split; [|by apply make_context_inv in Ec as (? & _ & _ & _ & ?)]. exists (self_box ctx), (ctx_extension ctx), (jit_cost_limit ctx). by destruct ctx. }
  unfold sign_reduced_transaction, sign_transaction, validate_reduced. cbn [unsigned_tx reduced_inputs]. rewrite Ec.
  pose proof (fun message => reduced_inputs_sign tc sc 0 ctx (mkReduced (spending_tx tc) 0 reds) tx_hints message
    (tx_inputs (spending_tx tc)) 0 ctx (mkEvalState ∅ 0) reds s1 Ec Hf Hred (fun i u H => H) Hi (fun i red H => H)) as Hloop.
  destruct (Hloop []) as [Hext _].
  rewrite (extensions_equal _ _ Hbytes Hext). rewrite (Forall2_length _ _ _ Hext), Nat.eqb_refl.
  unfold mbind at 1 2, stateE_bind at 1 2, liftE at 1 2. cbn.
  destruct (unsigned_bytes_to_sign (spending_tx tc)) as [message|]; [|done]. cbn.
  destruct (Hloop message) as [_ Hiff]. specialize (Hiff r). rewrite <- (Forall2_length _ _ _ Hext).
  unfold mbind, stateE_bind, liftE. unfold enumerate.
  destruct (mapM_st _ _ r) as [[ins r1]|]; [|by destruct Hiff as [? ->]]. rewrite Hiff. cbn.
  by destruct (transaction_new _ _ _).
Qed.
End reduced.

End theorems.
