(* ===== verification/TxConcrete.v ===== *)
(** Concrete boxes, parameters and transactions, on which validation computes: the theorems of StorageRent.v and TxValidate.v
    applied to a transaction with an input of each kind, and what validation lets through. *)

From stdpp Require Import gmap.
From S2P Require Import ProofTree Prelude Gf2Field SigmaBoolean ConcreteCrypto SigSerializer Prover Verifier SigmaSerial SigmaSteps SigmaComplete Header Types Expr Value EvalOps Eval Reduce EvalConcrete Spend Tokens BoxSelector BoxBuilder TxBuilder TxContext StorageRent TxValidate Signing.
#[local] Open Scope Z_scope.

#[local] Existing Instance concrete_crypto.
#[local] Existing Instance map_to_list_order.

(** A box whose script is one of a few, by its number. *)
Record PlainBox : Type := mkPlainBox {
  plain_id : list Z;
  plain_value : Z;
  plain_tokens : option (list Token);
  plain_script : Z;
  plain_registers : list Z;
  plain_height : Z
}.
#[export] Instance PlainBox_eq_dec : EqDecision PlainBox.
Proof.
  assert (EqDecision Token) by solve_decision. solve_decision.
Defined.
#[export] Instance plain_boxes : ErgoBoxData := {| ErgoBox := PlainBox |}.

Definition owner_script : ParsedErgoTree :=
  mkParsedErgoTree 0 false [] (Const (mkConstant SSigmaProp (LSigmaProp (ProofOfKnowledge (some_dlog 5))))).
Definition open_script : ParsedErgoTree := mkParsedErgoTree 0 false [] (Const (mkConstant SSigmaProp (LSigmaProp (TrivialProp true)))).
Definition plain_tree (n : Z) : ParsedErgoTree := if n =? 0 then open_script else owner_script.

#[export] Instance ParsedErgoTree_eq_dec : EqDecision ParsedErgoTree.
Proof. solve_decision. Defined.

Definition plain_candidate (b : PlainBox) : ErgoBoxCandidate (ErgoTree := ParsedErgoTree) (Constant := Z) :=
  mkCandidate (plain_value b) (plain_tree (plain_script b)) (plain_tokens b) (plain_registers b) (plain_height b).
Definition plain_box (c : ErgoBoxCandidate (ErgoTree := ParsedErgoTree) (Constant := Z)) (tx_id : list Z) (i : Z)
    : result SigmaSerializationError PlainBox :=
  let box n := mkPlainBox (tx_id ++ [i]) (candidate_value c) (candidate_tokens c) n (additional_registers c) (creation_height c) in
  if decide (ergo_tree c = open_script) then Ok (box 0)
  else if decide (ergo_tree c = owner_script) then Ok (box 1)
  else Err SerNotSupported.
Definition plain_tx_bytes (version : Z) (ins : list extended_input) (data : option (list (list Z)))
    (outs : list (ErgoBoxCandidate (ErgoTree := ParsedErgoTree) (Constant := Z))) : list Z :=
  version :: concat (input_box_id <$> ins) ++ concat (default [] data) ++
  concat ((fun o => be_bytes 8 (candidate_value o) ++ be_bytes 4 (creation_height o)) <$> outs).

#[export] Instance plain_ergo_boxes : ErgoBoxes := {|
  RegisterValue := Z;
  box_candidate := plain_candidate;
  id_of_box := plain_id;
  from_box_candidate := plain_box;
  bytes_of_box b := Ok (repeat 0 40);
  script_bytes b := Ok [plain_script b];
  tx_bytes v ins data outs := Ok (plain_tx_bytes v ins data outs)
|}.
#[export] Instance plain_boxes_laws : ErgoBoxesLaws.
Proof.
  constructor. intros c tx_id i b. cbn. unfold plain_box. destruct c as [v t ts regs h]. cbn.
  destruct (decide (t = open_script)) as [->|]; [by intros [= <-]|].
  destruct (decide (t = owner_script)) as [->|]; [by intros [= <-]|done].
Qed.

#[local] Instance plain_assets : ErgoBoxAssets PlainBox := ergo_box_assets.

(** ** A state, and boxes to spend *)

Definition plain_header : Header :=
  mkHeader 4 [1] [0] [] (repeat 0 33) [] 0 0 1999999 [] (mkSolution (toF 5) None [] None) [] [].
Definition plain_state (block_version : Z) : ErgoStateContext :=
  mkStateContext (mkPreHeader 4 [1] 0 0 2000000 (toF 5) []) [plain_header]
    (parameters_new block_version 1250000 360 524288 1000000 100 2000 100 100).

Definition owned : PlainBox := mkPlainBox [10] 5000000 (Some [mkToken [77] 30; mkToken [78] 4]) 1 [] 1900000.
Definition open : PlainBox := mkPlainBox [11] 3000000 None 0 [] 1500000.
Definition old : PlainBox := mkPlainBox [12] 60000000 (Some [mkToken [79] 9]) 1 [4] 500000.

Definition rent_output : PlainBox := mkPlainBox [] 12000000 (Some [mkToken [79] 9]) 1 [4] 2000000.
Definition other_output : PlainBox := mkPlainBox [] 56000000 (Some [mkToken [77] 25; mkToken [10] 1000]) 0 [] 2000000.

Definition names_output (i : Z) : list (Z * Constant) := [(127, mkConstant SShort (LShort i))].

(** The transaction with given proofs. *)
Definition spending (proof : ProofBytes) : result SigmaSerializationError Transaction :=
  transaction_new
    [mkSignedInput [10] (mkProverResult proof []); mkSignedInput [11] (mkProverResult ProofEmpty []);
     mkSignedInput [12] (mkProverResult ProofEmpty (names_output 0))]
    None [plain_candidate rent_output; plain_candidate other_output].

Definition spending_message : list Z := Eval vm_compute in
  match spending ProofEmpty with Ok tx => match bytes_to_sign tx with Ok m => m | Err _ => [] end | Err _ => [] end.
Definition spending_proof_bytes : list Z := Eval vm_compute in
  match generate_proof some_secrets (ProofOfKnowledge (some_dlog 5)) spending_message hints_empty 42 with
  | Ok (ProofSome bytes, _) => bytes
  | _ => []
  end.

(** Validation of a transaction over boxes. *)
Definition validates (tx : result SigmaSerializationError Transaction) (bs : list PlainBox) (block_version : Z)
    : result TxValidationError Z :=
  match tx with
  | Ok tx => tc ← result_map_err TxContextError (tx_context_new tx bs []); validate 10 tc (plain_state block_version)
  | Err e => Err (TxSigmaSerialization e)
  end.
Definition valid_at (r : result TxValidationError Z) (cost : Z) : bool := match r with Ok c => c =? cost | Err _ => false end.
Definition plain_tx : Transaction :=
  match spending (ProofSome spending_proof_bytes) with Ok tx => tx | Err _ => mkTransaction [] 0 [] None [] [] end.
Definition plain_context : TransactionContext Transaction := mkTxContext plain_tx [owned; open; old] None (index_boxes [owned; open; old]).

(** The three inputs: the owner's proof, an open script, and storage rent. *)
Lemma plain_valid : valid_at (validate 10 plain_context (plain_state 4)) 17858 = true.
Proof. vm_compute. reflexivity. Qed.

Lemma valid_at_Ok r cost : valid_at r cost = true -> r = Ok cost.
Proof. destruct r as [c|]; [|done]. cbn. by intros ->%Z.eqb_eq. Qed.

Lemma values_in_range (bs : list ErgoBox) :
  forallb (fun b => (0 <=? plain_value b) && (plain_value b <? 2 ^ 63)) bs = true -> Forall (fun b => 0 <= value b < 2 ^ 63) bs.
Proof.
  rewrite forallb_forall, List.Forall_forall. intros Hb b Hin. specialize (Hb b Hin). cbn. lia.
Qed.

Lemma validated_preserves_witness :
  total_value (signed_outputs plain_tx) = total_value [owned; open; old] /\
  amount_of [77] (box_tokens (signed_outputs plain_tx)) <= 30 /\ amount_of [10] (box_tokens (signed_outputs plain_tx)) = 1000.
Proof.
  destruct (validated_preserves 10 plain_context (plain_state 4) 17858) as (Hv & (first & Hf & Ht) & _).
  - apply valid_at_Ok. exact plain_valid.
  - apply values_in_range. vm_compute. reflexivity.
  - apply values_in_range. vm_compute. reflexivity.
  - repeat constructor; cbn; lia.
  - split; [exact Hv|]. split; [|vm_compute; reflexivity]. destruct (Ht [77]) as [Hle|[He _]]; [exact Hle|].
    rewrite <- He in Hf. vm_compute in Hf. discriminate Hf.
Defined.

Lemma plain_proofs_wf : proofs_wf plain_tx.
Proof.
  assert (forallb (fun i => forallb (fun b => (0 <=? b) && (b <? 256)) (proof_slice (proof (spending_proof i)))) (signed_inputs plain_tx) = true)
    as Hb by (vm_compute; reflexivity).
  apply List.Forall_forall. rewrite forallb_forall in Hb. intros i Hi. specialize (Hb i Hi). rewrite forallb_forall in Hb.
  apply List.Forall_forall. intros b Hin. specialize (Hb b Hin). unfold in_u. lia.
Qed.

Lemma validated_inputs_witness :
  exists message init costs, bytes_to_sign plain_tx = Ok message /\ 17858 = init + sumZ costs /\
    Forall2 (input_accepted 10 (plain_state 4) plain_context message 1000000) [0; 1; 2]%nat costs.
Proof.
  destruct (validated_inputs 10 plain_context (plain_state 4) 17858 1000000) as (message & init & costs & Hm & _ & Hc & _ & Ha).
  - apply valid_at_Ok. exact plain_valid.
  - exact plain_proofs_wf.
  - vm_compute. reflexivity.
  - lia.
  - exists message, init, costs. split; [exact Hm|split; [exact Hc|exact Ha]].
Defined.

(** ** Storage rent *)

(** The script context of the old box. *)
Definition rent_context : EvalContext :=
  mkEvalContext 3 (names_output 0) 0 None None 2000000 old [rent_output] [old] None [plain_header] (pre_header (plain_state 4))
    (mkAvlTreeData [] 7 32 None).

Lemma rent_exact : exact_rent (plain_state 4) rent_context.
Proof.
  constructor; cbn; try lia.
  - repeat constructor; cbn; lia.
  - intros factor bytes Hp Hb. assert (factor = 1250000) as -> by (vm_compute in Hp; congruence). injection Hb as <-. cbn. lia.
Qed.

Lemma rent_verdict_correct_witness : spent_by_rent (plain_state 4) rent_context.
Proof.
  apply (rent_verdict_correct ProofEmpty (plain_state 4) rent_context); [exact rent_exact|]. vm_compute. reflexivity.
Defined.

(** ** Signing *)

Definition unsigned_spending (ins : list extended_input) (outs : list PlainBox) : option unsigned_transaction :=
  match unsigned_new (ErgoTree := ParsedErgoTree) (Constant := Z) from_box_candidate (tx_bytes BUILT_ID_VERSION) blake2b256_hash
          ins None (plain_candidate <$> outs) with
  | Ok tx => Some tx
  | Err _ => None
  end.
Lemma unsigned_spending_built ins outs : match unsigned_spending ins outs with Some tx => unsigned_built tx | None => True end.
Proof.
  unfold unsigned_spending. destruct (unsigned_new _ _ _ _ _ _) as [tx|] eqn:E; [|exact I]. exact (unsigned_new_built _ _ _ _ E).
Qed.

Definition no_unsigned : unsigned_transaction := mkUnsigned [] [] None [] [].
Definition unsigned_three : unsigned_transaction :=
  default no_unsigned (unsigned_spending [mkInput [10] []; mkInput [11] []; mkInput [12] (names_output 0)] [rent_output; other_output]).
Definition unsigned_two : unsigned_transaction :=
  default no_unsigned (unsigned_spending [mkInput [10] []; mkInput [11] []] [other_output]).

Definition plain_unsigned_context (tx : unsigned_transaction) (bs : list PlainBox) : TransactionContext unsigned_transaction :=
  mkTxContext tx bs None (index_boxes bs).

Definition gives {E A} (r : result E A) : bool := match r with Ok _ => true | Err _ => false end.
Lemma gives_Ok {E A} (r : result E A) : gives r = true -> exists a, r = Ok a.
Proof. destruct r as [a|]; [by exists a|done]. Qed.

Lemma three_built : unsigned_built unsigned_three.
Proof.
  pose proof (unsigned_spending_built [mkInput [10] []; mkInput [11] []; mkInput [12] (names_output 0)] [rent_output; other_output]) as Hb.
  unfold unsigned_three. destruct (unsigned_spending _ _) as [tx|] eqn:E; [exact Hb|].
  assert (match unsigned_spending [mkInput [10] []; mkInput [11] []; mkInput [12] (names_output 0)] [rent_output; other_output] with
          Some _ => true | None => false end = true) as Hn by (vm_compute; reflexivity). by rewrite E in Hn.
Qed.

(** The scripts reduce to their constants. *)
Lemma plain_reduces ctx fuel n s sb cost s' :
  reduce_to_crypto ctx fuel (plain_tree n) s = Ok ((sb, cost), s') ->
  (exists b, sb = TrivialProp b) \/ well_formed sb.
Proof.
  unfold reduce_to_crypto, mbind, stateE_bind, liftE, plain_tree.
  destruct (validate_self_extension_key_domain ctx); [|done]. destruct (n =? 0); cbn; (destruct (guard_or _ _); [|done]); cbn.
  all: rewrite decide_True by done; cbn.
  all: match goal with |- context [add_jit_cost ?c ?k ?s] => destruct (add_jit_cost c k s) as [[[] s1]|] end; [|done]; cbn.
  - intros [= <- _ _]. left. by exists true.
  - intros [= <- _ _]. right. constructor.
Qed.

(** A test on the script contexts of all inputs. *)
Definition all_contexts (tc : TransactionContext unsigned_transaction) (sc : ErgoStateContext) (test : EvalContext -> bool) : bool :=
  forallb (fun i => match make_context sc tc i with Ok ctx => test ctx | Err _ => true end) (seq 0 (length (tx_inputs (spending_tx tc)))).
Lemma all_contexts_test tc sc test i ctx :
  all_contexts tc sc test = true -> make_context sc tc i = Ok ctx -> test ctx = true.
Proof.
  unfold all_contexts. intros Ht Hm. destruct (make_context_inv _ _ _ _ Hm) as (id & Hid & _).
  rewrite forallb_forall in Ht. specialize (Ht i). rewrite Hm in Ht. apply Ht. apply in_seq.
  apply lookup_lt_Some in Hid. cbn in Hid. rewrite length_fmap in Hid. split; [apply Nat.le_0_l|exact Hid].
Qed.

Lemma three_signable i ctx :
  make_context (plain_state 4) (plain_unsigned_context unsigned_three [owned; open; old]) i = Ok ctx -> signable 10 (plain_state 4) ctx.
Proof.
  intros Hm. split; [|intros s sb cost s'; apply plain_reduces].
  assert (bool_decide (rent_verdict_for_empty_proof (plain_state 4) ctx <> Some (Verdict false)) = true) as Hb; [|by apply bool_decide_eq_true in Hb].
  refine (all_contexts_test _ _ (fun ctx => bool_decide (rent_verdict_for_empty_proof (plain_state 4) ctx <> Some (Verdict false))) _ _ _ Hm).
  vm_compute. reflexivity.
Qed.

Lemma signed_verifies_witness :
  exists tx r' stc message ctx answers s,
    sign_transaction some_secrets 10 (plain_unsigned_context unsigned_three [owned; open; old]) (plain_state 4) None 42 = Ok (tx, r') /\
    tx_context_new tx [owned; open; old] [] = Ok stc /\ bytes_to_sign tx = Ok message /\
    verify_tx_inputs 10 stc (plain_state 4) message (seq 0 (length (signed_inputs tx))) ctx (mkEvalState ∅ 0) = Ok (answers, s) /\
    length answers = 3%nat /\ Forall (fun answer => answer.1 = true) answers.
Proof.
  destruct (gives_Ok (sign_transaction some_secrets 10 (plain_unsigned_context unsigned_three [owned; open; old]) (plain_state 4) None 42))
    as [[tx r'] Hs]; [vm_compute; reflexivity|].
  destruct (signed_verifies some_secrets 10 (plain_unsigned_context unsigned_three [owned; open; old]) [owned; open; old] [] unsigned_three
    (plain_state 4) 42 tx r') as (_ & _ & _ & stc & message & ctx & answers & s & Hn & Hm & _ & Hv & Hl & Ha).
  - reflexivity.
  - exact three_built.
  - exact some_secrets_wf.
  - intros i ctx Hm. exact (three_signable i ctx Hm).
  - exact Hs.
  - exists tx, r', stc, message, ctx, answers, s. split; [exact Hs|]. split; [exact Hn|]. split; [exact Hm|]. split; [exact Hv|]. split; [exact Hl|exact Ha].
Defined.

(** The same transaction is not refused. *)
Lemma signed_validates_witness :
  exists tx r' stc,
    sign_transaction some_secrets 10 (plain_unsigned_context unsigned_three [owned; open; old]) (plain_state 4) None 42 = Ok (tx, r') /\
    tx_context_new tx [owned; open; old] [] = Ok stc /\
    match validate 10 stc (plain_state 4) with Ok _ => True | Err e => not_for_signatures e = true end.
Proof.
  destruct (gives_Ok (sign_transaction some_secrets 10 (plain_unsigned_context unsigned_three [owned; open; old]) (plain_state 4) None 42))
    as [[tx r'] Hs]; [vm_compute; reflexivity|].
  destruct (signed_validates some_secrets 10 (plain_unsigned_context unsigned_three [owned; open; old]) [owned; open; old] [] unsigned_three
    (plain_state 4) 42 tx r') as (stc & Hn & Hv).
  - reflexivity.
  - exact three_built.
  - exact some_secrets_wf.
  - intros i ctx Hm. exact (three_signable i ctx Hm).
  - exact Hs.
  - exists tx, r', stc. split; [exact Hs|split; [exact Hn|exact Hv]].
Defined.

Definition no_extension_bytes (ext : list (Z * Constant)) : result SigmaSerializationError (list Z) := Ok (ext.*1).
Definition not_above (r : result EvalError bool) : bool := match r with Ok above => negb above | Err _ => false end.

Lemma two_reducible i ctx :
  make_context (plain_state 4) (plain_unsigned_context unsigned_two [owned; open]) i = Ok ctx -> reducible (plain_state 4) ctx.
Proof.
  intros Hm.
  assert (bool_decide (storage_rent_spendable (plain_state 4) ctx = Some false) &&
    not_above (check_soft_fork_condition (box_ergo_tree (self_box ctx)) ctx) = true) as Hb.
  { refine (all_contexts_test _ _ (fun ctx => bool_decide (storage_rent_spendable (plain_state 4) ctx = Some false) &&
      not_above (check_soft_fork_condition (box_ergo_tree (self_box ctx)) ctx)) _ _ _ Hm).
    vm_compute. reflexivity. }
  apply andb_prop in Hb as [Hr Hf]. apply bool_decide_eq_true in Hr. split; [exact Hr|].
  destruct (check_soft_fork_condition _ _) as [[]|]; done.
Qed.

Lemma reduced_signs_witness :
  exists reduced tx r', reduce_tx 10 (plain_unsigned_context unsigned_two [owned; open]) (plain_state 4) = Ok reduced /\
    sign_transaction some_secrets 10 (plain_unsigned_context unsigned_two [owned; open]) (plain_state 4) None 42 = Ok (tx, r') /\
    sign_reduced_transaction some_secrets no_extension_bytes reduced None 42 = Ok (tx, r').
Proof.
  destruct (gives_Ok (reduce_tx 10 (plain_unsigned_context unsigned_two [owned; open]) (plain_state 4))) as [reduced Hr]; [vm_compute; reflexivity|].
  destruct (gives_Ok (sign_transaction some_secrets 10 (plain_unsigned_context unsigned_two [owned; open]) (plain_state 4) None 42))
    as [[tx r'] Hs]; [vm_compute; reflexivity|].
  exists reduced, tx, r'. split; [exact Hr|]. split; [exact Hs|].
  apply (reduced_signs some_secrets 10 no_extension_bytes (plain_unsigned_context unsigned_two [owned; open]) (plain_state 4) reduced None Hr).
  - apply List.Forall_forall. intros input _. eexists. reflexivity.
  - intros i ctx Hm. exact (two_reducible i ctx Hm).
  - exact Hs.
Defined.

(** A box that everybody may spend, old enough for its rent, with an output named that does not repeat it: it is signed, and the signed
    transaction is refused. *)
Definition idle : PlainBox := mkPlainBox [13] 60000000 None 0 [] 500000.
Definition unsigned_idle : unsigned_transaction :=
  default no_unsigned (unsigned_spending [mkInput [13] (names_output 0)] [mkPlainBox [] 60000000 None 0 [] 1999999]).
Lemma signed_in_vain :
  match sign_transaction some_secrets 10 (plain_unsigned_context unsigned_idle [idle]) (plain_state 3) None 42 with
  | Ok (tx, _) =>
      match validates (Ok tx) [idle] 3 with Err (ReducedToFalse 0 50) => true | _ => false end
  | Err _ => false
  end = true.
Proof. vm_compute. reflexivity. Qed.

(** * What validation lets through *)

(** Coins out of nothing: an output of 2^64 - 10^9 counts as -10^9 in the sums of i64 and as a large value in the check of
    dust, and no check refuses it; the other output is worth more than all that is spent. *)
Definition inflating : result SigmaSerializationError Transaction :=
  transaction_new [mkSignedInput [11] (mkProverResult ProofEmpty [])] None
    [mkCandidate 1003000000 owner_script None [] 2000000; mkCandidate (2 ^ 64 - 1000000000) open_script None [] 2000000].
Lemma negative_value_accepted :
  valid_at (validates inflating [open] 4) 12205 = true /\
  match inflating with
  | Ok tx => match validate_stateless tx with Ok _ => true | Err _ => false end && (total_value (signed_outputs tx) =? total_value [open] + 2 ^ 64)
  | Err _ => false
  end = true.
Proof. split; vm_compute; reflexivity. Qed.

(** Boxes that the transaction does not spend count as spent: here its only input is worth 3000000. *)
Definition borrowing : result SigmaSerializationError Transaction :=
  transaction_new [mkSignedInput [11] (mkProverResult ProofEmpty [])] None
    [mkCandidate 68000000 open_script (Some [mkToken [79] 9]) [] 2000000].
Lemma unspent_boxes_counted : valid_at (validates borrowing [open; owned; old] 4) 12905 = true.
Proof. vm_compute. reflexivity. Qed.

(** Tokens of amounts that [TokenAmount] does not have are minted. *)
Definition minting (n : Z) : result SigmaSerializationError Transaction :=
  transaction_new [mkSignedInput [11] (mkProverResult ProofEmpty [])] None
    [mkCandidate 3000000 open_script (Some [mkToken [11] n]) [] 2000000].
Lemma amounts_unchecked :
  valid_at (validates (minting 0) [open] 4) 12305 = true /\ valid_at (validates (minting (2 ^ 64 - 1)) [open] 4) 12305 = true.
Proof. split; vm_compute; reflexivity. Qed.
