(* ===== verification/Nipopow.v ===== *)
(** NiPoPoW proofs (src/ergo-nipopow/src/nipopow_algos.rs, nipopow_proof.rs, nipopow_verifier.rs, and fields of
    ergo-chain-types/src/extensioncandidate.rs): interlinks and their packing in a block's extension, levels and scores of
    chains, proofs with their checks, their comparison, and the verifier. *)

From stdpp Require Import gmap sorting.
From S2P Require Import Prelude SigmaBoolean ConcreteCrypto Vlq Codecs SigmaSerial BigNum Header Autolykos Merkle MerkleBatch.
#[local] Open Scope Z_scope.

(** [BlockId] *)
Abbreviation BlockId := (list Z) (only parsing).

(** * Interlinks in a block's extension *)

Definition INTERLINK_VECTOR_PREFIX : Z := 1.

(** A field of an extension: its key of two bytes and its value. *)
Record Field : Type := mkField { field_key : Z * Z; field_value : list Z }.

Record ExtensionCandidate : Type := mkExtension { fields : list Field }.

(** [ExtensionCandidate::new] *)
Definition extension_new (fields : list Field) : option ExtensionCandidate :=
  if forallb (fun f => length (field_value f) <=? 64)%nat fields then Some (mkExtension fields) else None.

(** A run of equal ids: its length, a [u8], then the id; the key has the position of its first. *)
Definition packed_entry (curr_block_id_count : Z) (curr_block_id : BlockId) (curr_first_pos : nat) : result panic Field :=
  ix_byte ← ok_or (if Z.of_nat curr_first_pos <? 2 ^ 8 then Some (Z.of_nat curr_first_pos) else None) Panicked;
  Ok (mkField (INTERLINK_VECTOR_PREFIX, ix_byte) (curr_block_id_count :: curr_block_id)).

(** The loop of [pack_interlinks] over the ids from position [i] on. *)
Fixpoint pack_loop (ids : list BlockId) (i : nat) (curr_block_id_count : Z) (curr_block_id : BlockId) (curr_first_pos : nat) :
    result panic (list Field) :=
  match ids with
  | [] => last ← packed_entry curr_block_id_count curr_block_id curr_first_pos; Ok [last]
  | id :: ids =>
      if bool_decide (id = curr_block_id) then
        count ← ok_or (if curr_block_id_count + 1 <? 2 ^ 8 then Some (curr_block_id_count + 1) else None) Panicked;
        pack_loop ids (S i) count curr_block_id curr_first_pos
      else
        entry ← packed_entry curr_block_id_count curr_block_id curr_first_pos;
        rest ← pack_loop ids (S i) 1 id i;
        Ok (entry :: rest)
  end.

Definition pack_interlinks (interlinks : list BlockId) : result panic (list Field) :=
  match interlinks with
  | [] => Ok []
  | first :: ids => pack_loop ids 1 1 first 0
  end.

(** [None] is the error of a value that has not 33 bytes. *)
Fixpoint unpack_entries (entries : list Field) : option (list BlockId) :=
  match entries with
  | [] => Some []
  | entry :: entries =>
      match field_value entry with
      | qty :: block_id =>
          if (length (field_value entry) =? 33)%nat then rest ← unpack_entries entries; Some (replicate (Z.to_nat qty) block_id ++ rest)
          else None
      | [] => None
      end
  end.

Definition is_interlink (f : Field) : bool := fst (field_key f) =? INTERLINK_VECTOR_PREFIX.
Definition unpack_interlinks (extension : ExtensionCandidate) : option (list BlockId) :=
  unpack_entries (List.filter is_interlink (fields extension)).

(** The key's length, the key and the value. *)
Definition kv_to_leaf (kv : Field) : list Z := 2 :: fst (field_key kv) :: snd (field_key kv) :: field_value kv.

(** The loop of [has_packable_interlinks]. *)
Fixpoint packable_loop (ids : list BlockId) (position : nat) (current : BlockId) (run_length : Z) : bool :=
  match ids with
  | [] => true
  | interlink :: ids =>
      if bool_decide (interlink = current) then
        if run_length =? 255 then false else packable_loop ids (S position) current (run_length + 1)
      else if (255 <? position)%nat then false
      else packable_loop ids (S position) interlink 1
  end.

Definition packable (interlinks : list BlockId) : bool :=
  match interlinks with [] => false | current :: ids => packable_loop ids 1 current 1 end.

Section extension.
Context `{C : SigmaCrypto}.
Abbreviation hash := blake2b256_hash.

Definition extension_merkletree (kv : list Field) : result panic MerkleTree :=
  tree_new hash (map (fun f => node_from_bytes hash (kv_to_leaf f)) kv).

(** [extension_proof_for], for a single key; the first field of a key counts. *)
Definition extension_proof_for (ext : ExtensionCandidate) (key : Z * Z) : result panic (option MerkleProof) :=
  tree ← extension_merkletree (fields ext);
  match List.find (fun f => bool_decide (field_key f = key)) (fields ext) with
  | Some kv => proof_by_element hash tree (kv_to_leaf kv)
  | None => Ok None
  end.

Definition extension_batch_proof_for (ext : ExtensionCandidate) (keys : list (Z * Z)) : result panic (option BatchMerkleProof) :=
  tree ← extension_merkletree (fields ext);
  let nodes := omap (fun k => node_from_bytes hash ∘ kv_to_leaf <$> List.find (fun f => bool_decide (field_key f = k)) (fields ext)) keys in
  let indices := omap (fun node => get_hash node ≫= (fun h => elements_hash_index tree !! h)) nodes in
  proof_by_indices tree indices.

Definition proof_for_interlink_vector (ext : ExtensionCandidate) : result panic (option BatchMerkleProof) :=
  match List.filter is_interlink (fields ext) with
  | [] => Ok (Some (mkBatch [] []))
  | interlinks => extension_batch_proof_for ext (map field_key interlinks)
  end.
End extension.

(** ** Packing and unpacking *)

Definition ids_wf (ids : list BlockId) : Prop := Forall (fun id => length id = 32%nat) ids.

(** Fields of interlinks, with keys that ascend from a position on. *)
Definition interlink_fields (first : nat) (fs : list Field) : Prop :=
  Forall (fun f => is_interlink f = true /\ length (field_value f) = 33%nat /\ Z.of_nat first <= snd (field_key f)) fs /\ NoDup (map field_key fs).

Lemma pack_loop_spec ids : forall i count cur first, 1 <= count <= 255 -> (first < 256)%nat -> (first < i)%nat -> ids_wf (cur :: ids) ->
  if packable_loop ids i cur count then
    exists fs, pack_loop ids i count cur first = Ok fs /\ unpack_entries fs = Some (replicate (Z.to_nat count) cur ++ ids) /\ interlink_fields first fs
  else pack_loop ids i count cur first = Err Panicked.
Proof.
  induction ids as [|id ids IH]; intros i count cur first Hc Hf Hi Hwf; cbn [packable_loop pack_loop].
  all: assert (packed_entry count cur first = Ok (mkField (INTERLINK_VECTOR_PREFIX, Z.of_nat first) (count :: cur))) as He
    by (unfold packed_entry; by rewrite (proj2 (Z.ltb_lt _ _)) by lia); apply Forall_cons in Hwf as [Hcur Hids].
  - rewrite He. cbn [mbind result_bind]. eexists. split; [done|]. cbn [unpack_entries field_value length]. rewrite Hcur. split; [done|].
    split; [|apply NoDup_singleton]. constructor; [|constructor]. cbn. by rewrite Hcur.
  - case_bool_decide as E; [subst id|].
    + destruct (Z.eqb_spec count 255) as [->|Hne]; [done|]. rewrite (proj2 (Z.ltb_lt _ _)) by lia. cbn [ok_or mbind result_bind].
      specialize (IH (S i) (count + 1) cur first ltac:(lia) Hf ltac:(lia) Hids). destruct (packable_loop _ _ _ _); [|done].
      destruct IH as (fs & E1 & E2 & E3). exists fs. split_and!; try done. rewrite E2. f_equal.
      replace (Z.to_nat (count + 1)) with (Z.to_nat count + 1)%nat by lia. rewrite replicate_add, <- app_assoc. done.
    + rewrite He. cbn [mbind result_bind]. destruct (Nat.ltb_spec 255 i) as [Hbig|Hsmall].
      * clear IH. assert (forall ids c k, pack_loop ids k c id i = Err Panicked) as ->; [|done].
        assert (forall c, packed_entry c id i = Err Panicked) as Hbad by (intros c; unfold packed_entry; destruct (Z.ltb_spec (Z.of_nat i) (2 ^ 8)); [lia|done]).
        intros ids0. induction ids0 as [|x ids0 IH]; intros c k; cbn [pack_loop]; [by rewrite Hbad|].
        case_bool_decide; [|by rewrite Hbad]. destruct (_ <? _); [apply IH|done].
      * specialize (IH (S i) 1 id i ltac:(lia) ltac:(lia) ltac:(lia) Hids). destruct (packable_loop _ _ _ _); [|by rewrite IH].
        destruct IH as (fs & E1 & E2 & E3 & E4). rewrite E1. cbn [mbind result_bind]. eexists. split; [done|].
        cbn [unpack_entries field_value length]. rewrite Hcur, E2. split; [done|]. split.
        { constructor; [cbn; by rewrite Hcur|]. eapply Forall_impl; [exact E3|]. intros f (H1 & H2 & H3). split_and!; try done. lia. }
        cbn [map field_key]. apply NoDup_cons. split; [|done]. intros Hin. apply list_elem_of_fmap in Hin as (f & Ek & Hin).
        rewrite Forall_forall in E3. destruct (E3 f Hin) as (_ & _ & H). rewrite <- Ek in H. cbn in H. lia.
Qed.

(** C23: packing interlinks, of which there are some, panics exactly where they are refused as not packable; packed, they make an extension whose
    keys are distinct, and an extension that has them, with any other fields around, unpacks to them. *)
Theorem interlinks_roundtrip (interlinks : list BlockId) :
  interlinks <> [] -> ids_wf interlinks ->
  if packable interlinks then
    exists fs, pack_interlinks interlinks = Ok fs /\ is_Some (extension_new fs) /\ NoDup (map field_key fs) /\
      forall ext, List.filter is_interlink (fields ext) = fs -> unpack_interlinks ext = Some interlinks
  else pack_interlinks interlinks = Err Panicked.
Proof.
  destruct interlinks as [|first ids]; [done|]. intros _ Hwf. cbn [packable pack_interlinks].
  pose proof (pack_loop_spec ids 1 1 first 0 ltac:(lia) ltac:(lia) ltac:(lia) Hwf) as H. destruct (packable_loop _ _ _ _); [|done].
  destruct H as (fs & E1 & E2 & E3 & E4). exists fs. split_and!; [done| |done|].
  - unfold extension_new. assert (forallb (fun f => length (field_value f) <=? 64)%nat fs = true) as ->; [|by eexists].
    apply forallb_forall. intros f Hin%list_elem_of_In. rewrite Forall_forall in E3. destruct (E3 f Hin) as (_ & -> & _). done.
  - intros ext <-. exact E2.
Qed.

(** The test of the source: a run has one entry, keyed by its first position. *)
Example pack_test : let id b := replicate 32 b in
  pack_interlinks [id 160; id 176; id 176; id 176; id 176; id 192; id 208] =
    Ok [mkField (1, 0) (1 :: id 160); mkField (1, 1) (4 :: id 176); mkField (1, 5) (1 :: id 192); mkField (1, 6) (1 :: id 208)].
Proof. vm_compute. reflexivity. Qed.

(** * Levels *)

(** [f64], its conversions and the platform's natural logarithm, of which only the range of [as i32] is relied on. *)
Class F64 : Type := {
  f64 : Type;
  to_f64 : Z -> f64;
  ln : f64 -> f64;
  LN_2 : f64;
  f64_div : f64 -> f64 -> f64;
  f64_sub : f64 -> f64 -> f64;
  as_i32 : f64 -> Z;
  as_i32_range x : in_s 32 (as_i32 x)
}.

Definition I32_MAX : Z := 2 ^ 31 - 1.

Section algos.
Context `{C : SigmaCrypto} {B : NumBigint} {M : ScalarModulus} {F : F64}.

#[export] Instance solution_eq_dec : EqDecision AutolykosSolution.
Proof. solve_decision. Defined.
#[export] Instance header_eq_dec : EqDecision Header.
Proof. solve_decision. Defined.

Abbreviation height := Header.height.

Record NipopowAlgos : Type := mkAlgos { pow_scheme : AutolykosPowScheme; use_last_epochs : Z }.
Definition DEFAULT_USE_LAST_EPOCHS : Z := 8.
Definition default_algos : NipopowAlgos := mkAlgos default_scheme DEFAULT_USE_LAST_EPOCHS.

Definition log2_via_ln (x : f64) : f64 := f64_div (ln x) LN_2.

(** The division of the order by a difficulty of zero panics. *)
Definition max_level_of (algos : NipopowAlgos) (header : Header) : result AutolykosPowSchemeError Z :=
  let genesis_header := height header =? 1 in
  if negb genesis_header then
    difficulty ← (let d := decode_compact_bits (n_bits header) in if d =? 0 then Err PowPanic else Ok d);
    let required_target := to_f64 (Z.quot order_bigint difficulty) in
    hit ← pow_hit (pow_scheme algos) header;
    let real_target := to_f64 hit in
    Ok (as_i32 (f64_sub (log2_via_ln required_target) (log2_via_ln real_target)))
  else Ok I32_MAX.

(** * Scores *)

(** The number of headers of a level, which is compared as a [u32]. *)
Definition count_level (levels : list Z) (level : Z) : nat := length (List.filter (fun l => level <=? wrap_u 32 l) levels).

(** The loop of [best_arg]: the pairs of a level and its number of headers, the highest level first. The levels do not
    change; an overflow of the level is a panic. *)
Fixpoint best_arg_loop (fuel : nat) (levels : list Z) (m level : Z) (acc : list (Z * nat)) : result AutolykosPowSchemeError (list (Z * nat)) :=
  match fuel with
  | O => Err PowPanic
  | S fuel =>
      let args := count_level levels level in
      if (m <=? Z.of_nat args) && negb (args =? 0)%nat then
        next ← ok_or (if level + 1 <? 2 ^ 32 then Some (level + 1) else None) PowPanic;
        best_arg_loop fuel levels m next ((level, args) :: acc)
      else Ok acc
  end.

(** [2usize.pow(level) * size], with its overflows. *)
Definition score (level : Z) (size : nat) : result AutolykosPowSchemeError Z :=
  if (level <? 64) && (2 ^ level * Z.of_nat size <? 2 ^ 64) then Ok (2 ^ level * Z.of_nat size) else Err PowPanic.

(** The levels bound the loop: above the highest no header is left. *)
Definition best_arg_fuel (levels : list Z) : nat := S (max_list_with (fun l => Z.to_nat (wrap_u 32 l)) levels).

Definition best_arg (algos : NipopowAlgos) (chain : list Header) (m : Z) : result AutolykosPowSchemeError Z :=
  levels ← mapM_res (max_level_of algos) chain;
  acc ← best_arg_loop (best_arg_fuel levels) levels m 1 [(0, length chain)];
  scores ← mapM_res (fun p => score p.1 p.2) acc;
  Ok (foldr Z.max 0 scores).

(** ** The score is the paper's *)

(** The headers of a level and above, as signed numbers. *)
Definition superchain (levels : list Z) (mu : Z) : nat := length (List.filter (fun l => mu <=? l) levels).

(** A valid argument of [KMZ17]: level 0, or one with at least [m] headers. *)
Definition argument (levels : list Z) (m mu : Z) : Prop := mu = 0 \/ (0 < mu /\ m <= Z.of_nat (superchain levels mu)).

Lemma count_superchain levels mu : Forall (fun l => 0 <= l < 2 ^ 31) levels -> count_level levels mu = superchain levels mu.
Proof.
  intros H. unfold count_level, superchain. induction H as [|l levels Hl _ IH]; [done|]. cbn [List.filter].
  rewrite (wrap_u_id 32 l) by (unfold in_u; lia). destruct (_ <=? _); cbn [length]; by rewrite IH.
Qed.

Lemma superchain_mono levels mu mu' : mu <= mu' -> (superchain levels mu' <= superchain levels mu)%nat.
Proof.
  intros H. unfold superchain. induction levels as [|l levels IH]; [done|]. cbn [List.filter].
  destruct (Z.leb_spec mu l), (Z.leb_spec mu' l); cbn [length]; lia.
Qed.

Lemma superchain_in levels mu : (0 < superchain levels mu)%nat -> exists l, l ∈ levels /\ mu <= l.
Proof.
  unfold superchain. destruct (List.filter _ levels) as [|l ls] eqn:E; [cbn; lia|]. intros _.
  assert (In l (List.filter (fun l => mu <=? l) levels)) as [Hin Hl%Z.leb_le]%filter_In by (rewrite E; by left).
  exists l. split; [by apply list_elem_of_In|done].
Qed.

Lemma superchain_all levels : Forall (fun l => 0 <= l) levels -> superchain levels 0 = length levels.
Proof.
  intros H. unfold superchain. induction H as [|l levels Hl _ IH]; [done|]. cbn [List.filter]. rewrite (proj2 (Z.leb_le 0 l)) by done. cbn. by rewrite IH.
Qed.

Definition level_pairs (levels : list Z) (level : Z) (n : nat) : list (Z * nat) := map (fun mu => (mu, superchain levels mu)) (seqZ level (Z.of_nat n)).

Lemma best_arg_loop_spec fuel : forall levels m level acc, Forall (fun l => 0 <= l < 2 ^ 31) levels -> 1 <= m -> 1 <= level ->
  (S (max_list_with Z.to_nat levels) < fuel + Z.to_nat level)%nat -> (0 < fuel)%nat ->
  exists n, best_arg_loop fuel levels m level acc = Ok (rev (level_pairs levels level n) ++ acc) /\
    (forall mu, level <= mu < level + Z.of_nat n -> m <= Z.of_nat (superchain levels mu)) /\ Z.of_nat (superchain levels (level + Z.of_nat n)) < m.
Proof.
  induction fuel as [|fuel IH]; intros levels m level acc Hl Hm Hlev Hfuel Hpos; [lia|]. cbn [best_arg_loop]. rewrite count_superchain by done.
  destruct (Z.leb_spec m (Z.of_nat (superchain levels level))) as [Hge|Hlt].
  - assert (exists l, l ∈ levels /\ level <= l) as (l & Hin & Hll) by (apply superchain_in; lia).
    assert (l < 2 ^ 31) as Hl31 by (rewrite Forall_forall in Hl; by apply Hl).
    apply (elem_max_list_with Z.to_nat) in Hin. rewrite (proj2 (Nat.eqb_neq _ _)) by lia. cbn [andb negb].
    rewrite (proj2 (Z.ltb_lt _ _)) by lia. cbn [ok_or mbind result_bind].
    destruct (IH levels m (level + 1) ((level, superchain levels level) :: acc) Hl Hm ltac:(lia) ltac:(lia) ltac:(lia)) as (n & -> & Hin' & Hend).
    exists (S n). split_and!.
    + unfold level_pairs. rewrite (seqZ_cons level) by lia. cbn [map rev]. rewrite <- app_assoc. cbn.
      replace (Z.pred (Z.of_nat (S n))) with (Z.of_nat n) by lia. replace (Z.succ level) with (level + 1) by lia. done.
    + intros mu Hmu. destruct (decide (mu = level)) as [->|]; [done|]. apply Hin'. lia.
    + by replace (level + Z.of_nat (S n)) with (level + 1 + Z.of_nat n) by lia.
  - exists 0%nat. cbn. split_and!; [done|lia|]. by rewrite Z.add_0_r.
Qed.

Lemma fuel_signed levels : Forall (fun l => 0 <= l < 2 ^ 31) levels -> best_arg_fuel levels = S (max_list_with Z.to_nat levels).
Proof.
  intros H. unfold best_arg_fuel. f_equal. induction H as [|l levels Hl _ IH]; [done|]. cbn [max_list_with].
  by rewrite IH, (wrap_u_id 32 l) by (unfold in_u; lia).
Qed.

Lemma foldr_max_spec (l : list Z) : Forall (fun x => 0 <= x) l -> l <> [] -> foldr Z.max 0 l ∈ l /\ Forall (fun x => x <= foldr Z.max 0 l) l.
Proof.
  induction 1 as [|x l Hx Hl IH]; [done|]. intros _. cbn [foldr]. destruct l as [|y l].
  - cbn. split; [|constructor; [lia|constructor]]. replace (Z.max x 0) with x by lia. apply list_elem_of_here.
  - destruct (IH ltac:(done)) as [Hin Hmax]. set (m := foldr Z.max 0 (y :: l)) in *. split.
    + destruct (Z.max_spec x m) as [[_ ->]|[_ ->]]; [by apply list_elem_of_further|apply list_elem_of_here].
    + constructor; [lia|]. eapply Forall_impl; [exact Hmax|]. intros z Hz. cbn beta in Hz. lia.
Qed.

(** C22: the score of a chain is the greatest of 2^mu times the number of its headers of level mu and above, over level 0
    and the levels with at least [m] headers, for headers of levels from 0 to 63 whose scores fit 64 bits. *)
Theorem best_arg_correct (algos : NipopowAlgos) (chain : list Header) (levels : list Z) (m : Z) :
  Forall2 (fun h l => max_level_of algos h = Ok l) chain levels -> Forall (fun l => 0 <= l < 64) levels -> 1 <= m ->
  (forall mu, 0 <= mu < 64 -> 2 ^ mu * Z.of_nat (superchain levels mu) < 2 ^ 64) ->
  exists best, best_arg algos chain m = Ok best /\
    (exists mu, argument levels m mu /\ best = 2 ^ mu * Z.of_nat (superchain levels mu)) /\
    (forall mu, argument levels m mu -> 2 ^ mu * Z.of_nat (superchain levels mu) <= best).
Proof.
  intros Hchain Hl Hm Hfit. assert (Forall (fun l => 0 <= l < 2 ^ 31) levels) as Hl' by (eapply Forall_impl; [exact Hl|]; intros l ?; cbn beta in *; lia).
  unfold best_arg. rewrite (proj2 (mapM_res_Forall2 _ chain levels) Hchain). cbn [mbind result_bind].
  rewrite fuel_signed by done. destruct (best_arg_loop_spec (S (max_list_with Z.to_nat levels)) levels m 1 [(0, length chain)] Hl' Hm) as (n & -> & Hin & Hend); [lia..|].
  cbn [mbind result_bind]. set (acc := rev _ ++ _). set (g := fun p : Z * nat => 2 ^ p.1 * Z.of_nat p.2).
  assert (length chain = superchain levels 0) as Hlen.
  { rewrite superchain_all; [by eapply Forall2_length|]. eapply Forall_impl; [exact Hl|]. intros l ?. cbn beta in *. lia. }
  assert (forall mu s, (mu, s) ∈ acc <-> s = superchain levels mu /\ 0 <= mu < 1 + Z.of_nat n) as Hacc.
  { intros mu s. unfold acc, level_pairs. rewrite elem_of_app, rev_alt, <- rev_alt, list_elem_of_In, <- in_rev, <- list_elem_of_In, list_elem_of_fmap, list_elem_of_singleton.
    split.
    - intros [(mu' & [= -> ->] & Hmu%elem_of_seqZ)|[= -> ->]]; split; try done; lia.
    - intros [-> Hmu]. destruct (decide (mu = 0)) as [->|]; [right; by rewrite Hlen|]. left. exists mu. split; [done|]. apply elem_of_seqZ. lia. }
  assert (forall mu s, (mu, s) ∈ acc -> mu < 64) as H64.
  { intros mu s [-> Hmu]%Hacc. destruct (decide (mu = 0)); [lia|]. assert (m <= Z.of_nat (superchain levels mu)) by (apply Hin; lia).
    destruct (superchain_in levels mu) as (l & Hil & Hle); [lia|]. rewrite Forall_forall in Hl. specialize (Hl l Hil). cbn beta in Hl. lia. }
  rewrite (mapM_res_succeeds (fun p => score p.1 p.2) g acc).
  2: { apply Forall_forall. intros [mu s] Hp. pose proof (H64 mu s Hp). apply Hacc in Hp as [-> Hmu]. unfold score, g. cbn [fst snd].
    rewrite (proj2 (Z.ltb_lt mu 64)) by done. cbn [andb]. by rewrite (proj2 (Z.ltb_lt _ _)) by (apply Hfit; lia). }
  cbn [mbind result_bind]. eexists. split; [done|].
  destruct (foldr_max_spec (g <$> acc)) as [Hbest Hmax].
  { apply Forall_forall. intros x (p & -> & Hp)%list_elem_of_fmap. unfold g. destruct p as [mu s]. apply Hacc in Hp as [_ Hmu]. cbn. nia. }
  { unfold acc. destruct (rev _); done. }
  split.
  - apply list_elem_of_fmap in Hbest as ([mu s] & E & Hp). apply Hacc in Hp as [-> Hmu]. exists mu. split; [|exact E].
    destruct (decide (mu = 0)); [by left|]. right. split; [lia|]. apply Hin. lia.
  - intros mu Harg. rewrite Forall_forall in Hmax. apply Hmax, list_elem_of_fmap. exists (mu, superchain levels mu). split; [done|]. apply Hacc. split; [done|].
    destruct Harg as [->|[Hpos Hge]]; [lia|]. split; [lia|]. destruct (decide (mu < 1 + Z.of_nat n)); [done|].
    pose proof (superchain_mono levels (1 + Z.of_nat n) mu ltac:(lia)). lia.
Qed.

(** A header whose hit is at least twice its target has a negative level, which as a [u32] is above all others: the loop
    never finds a level without it. *)
Lemma negative_level_loops fuel level acc : 1 <= level < 2 ^ 32 -> best_arg_loop fuel [-1] 1 level acc = Err PowPanic.
Proof.
  revert level acc. induction fuel as [|fuel IH]; intros level acc Hl; [done|]. cbn [best_arg_loop].
  assert (count_level [-1] level = 1%nat) as ->.
  { unfold count_level. cbn [List.filter]. change (wrap_u 32 (-1)) with (2 ^ 32 - 1). by rewrite (proj2 (Z.leb_le _ _)) by lia. }
  cbn [andb negb Nat.eqb Z.of_nat Pos.of_succ_nat]. destruct (Z.ltb_spec (level + 1) (2 ^ 32)); [|done]. cbn [ok_or mbind result_bind]. apply IH. lia.
Qed.

Lemma best_arg_of algos chain levels m fuel : mapM_res (max_level_of algos) chain = Ok levels -> fuel = best_arg_fuel levels ->
  best_arg algos chain m =
    (acc ← best_arg_loop fuel levels m 1 [(0, length chain)]; scores ← mapM_res (fun p => score p.1 p.2) acc; Ok (foldr Z.max 0 scores)).
Proof. intros E ->. unfold best_arg. by rewrite E. Qed.

Lemma negative_level_panics algos h : max_level_of algos h = Ok (-1) -> best_arg algos [h] 1 = Err PowPanic.
Proof.
  intros E. assert (mapM_res (max_level_of algos) [h] = Ok [-1]) as El by (cbn [mapM_res]; by rewrite E).
  rewrite (best_arg_of algos [h] [-1] 1 _ El eq_refl), negative_level_loops; [reflexivity|lia].
Qed.

(** * The last common header *)

(** The inner loop, over the right headers from position [i] on, those before [start_ix] being skipped. *)
Fixpoint lca_inner (left_header : Header) (right_chain : list Header) (i start_ix right_ix_start : nat) (common : list Header) : nat * list Header :=
  match right_chain with
  | [] => (right_ix_start, common)
  | right_header :: rest =>
      if (start_ix <=? i)%nat && bool_decide (left_header = right_header) then lca_inner left_header rest (S i) start_ix (S i) (common ++ [left_header])
      else lca_inner left_header rest (S i) start_ix right_ix_start common
  end.

Fixpoint lca_outer (left_chain right_chain : list Header) (right_ix_start : nat) (common : list Header) : list Header :=
  match left_chain with
  | [] => common
  | left_header :: rest =>
      let '(right_ix_start, common) := lca_inner left_header right_chain 0 right_ix_start right_ix_start common in
      lca_outer rest right_chain right_ix_start common
  end.

Definition lowest_common_ancestor (left_chain right_chain : list Header) : option Header :=
  if match left_chain, right_chain with head_left :: _, head_right :: _ => negb (bool_decide (head_left = head_right)) | _, _ => false end then None
  else last (lca_outer left_chain right_chain 0 []).

(** Heights that ascend. *)
Definition heights_ascend (chain : list Header) : Prop := StronglySorted Z.lt (map height chain).

Lemma lca_inner_app l right_chain : forall i start_ix right_ix_start common,
  lca_inner l right_chain i start_ix right_ix_start common =
    let '(ix, c) := lca_inner l right_chain i start_ix right_ix_start [] in (ix, common ++ c).
Proof.
  induction right_chain as [|r rest IH]; intros i start_ix ix common; cbn [lca_inner]; [by rewrite app_nil_r|].
  destruct (_ && _); [|apply IH]. rewrite IH. rewrite (IH _ _ _ ([] ++ [l])). destruct (lca_inner l rest _ _ _ []). by rewrite <- app_assoc.
Qed.

(** In a chain without repetitions, a header after the skipped ones is found once, and the next search starts after it. *)
Lemma lca_inner_spec l right_chain : forall i start_ix ix, NoDup right_chain ->
  lca_inner l right_chain i start_ix ix [] =
    match list_find (eq l) right_chain with
    | Some (j, _) => if (start_ix <=? i + j)%nat then (S (i + j), [l]) else (ix, [])
    | None => (ix, [])
    end.
Proof.
  induction right_chain as [|r rest IH]; intros i start_ix ix Hnodup; [done|]. apply NoDup_cons in Hnodup as [Hr Hn]. cbn [lca_inner list_find].
  case_bool_decide as E; [subst r|].
  - rewrite decide_True by done. rewrite andb_true_r, Nat.add_0_r.
    assert (list_find (eq l) rest = None) as Hnone by (apply list_find_None, Forall_forall; intros x Hx <-; done).
    destruct (start_ix <=? i)%nat; [rewrite lca_inner_app|]; by rewrite IH, Hnone by done.
  - rewrite andb_false_r, decide_False by done. rewrite IH by done. destruct (list_find (eq l) rest) as [[j ?]|]; [|done]. cbn. by rewrite Nat.add_succ_r.
Qed.

Lemma list_find_eq (l : Header) chain j x : list_find (eq l) chain = Some (j, x) -> chain !! j = Some l.
Proof. intros (H & -> & _)%list_find_Some. exact H. Qed.

(** Later in the chain is higher. *)
Lemma ascend_lookup chain : heights_ascend chain -> forall i j x y, chain !! i = Some x -> chain !! j = Some y -> (i < j)%nat -> height x < height y.
Proof.
  unfold heights_ascend. induction chain as [|h chain IH]; [done|]. cbn. intros [H Hall]%StronglySorted_inv.
  intros [|i] [|j] x y Hi Hj Hij; cbn in Hi, Hj; [lia| |lia|by eapply (IH H i j); [..|lia]].
  injection Hi as ->. rewrite Forall_forall in Hall. apply Hall, list_elem_of_fmap. exists y. split; [done|by eapply list_elem_of_lookup_2].
Qed.

Lemma ascend_positions chain i j x y : heights_ascend chain -> chain !! i = Some x -> chain !! j = Some y -> height x < height y -> (i < j)%nat.
Proof.
  intros H Hi Hj Hlt. destruct (Nat.lt_trichotomy i j) as [|[->|Hji]]; [done|rewrite Hi in Hj; simplify_eq; lia|].
  pose proof (ascend_lookup chain H j i y x Hj Hi Hji). lia.
Qed.

Lemma ascend_unique chain x y : heights_ascend chain -> x ∈ chain -> y ∈ chain -> height x = height y -> x = y.
Proof.
  intros H [i Hi]%list_elem_of_lookup [j Hj]%list_elem_of_lookup E. destruct (Nat.lt_trichotomy i j) as [Hij|[->|Hji]].
  - pose proof (ascend_lookup chain H i j x y Hi Hj Hij). lia.
  - rewrite Hi in Hj. by injection Hj.
  - pose proof (ascend_lookup chain H j i y x Hj Hi Hji). lia.
Qed.

Lemma ascend_nodup chain : heights_ascend chain -> NoDup chain.
Proof.
  unfold heights_ascend. induction chain as [|h chain IH]; intros H; [constructor|]. cbn in H. apply StronglySorted_inv in H as [H Hall].
  constructor; [|by apply IH]. intros Hin. rewrite Forall_forall in Hall. assert (height h < height h); [|lia]. apply Hall, list_elem_of_fmap. by exists h.
Qed.

Lemma lca_outer_spec left_chain : forall right_chain ix common, heights_ascend left_chain -> heights_ascend right_chain ->
  (forall h j x, h ∈ left_chain -> list_find (eq h) right_chain = Some (j, x) -> (ix <= j)%nat) ->
  lca_outer left_chain right_chain ix common = common ++ filter (fun h => h ∈ right_chain) left_chain.
Proof.
  induction left_chain as [|l rest IH]; intros right_chain ix common Hl Hr Hix; cbn [lca_outer]; [by rewrite app_nil_r|].
  unfold heights_ascend in Hl. cbn in Hl. apply StronglySorted_inv in Hl as [Hl Hall].
  rewrite lca_inner_app, lca_inner_spec by by apply ascend_nodup. rewrite filter_cons.
  destruct (list_find (eq l) right_chain) as [[j x]|] eqn:E.
  - rewrite (proj2 (Nat.leb_le _ _)) by (cbn; apply (Hix l j x); [by left|done]). pose proof (list_find_eq _ _ _ _ E) as Hj.
    rewrite decide_True by by eapply list_elem_of_lookup_2. rewrite IH; [by rewrite <- app_assoc|done|done|].
    intros h k y Hh Hk. cbn. apply list_find_eq in Hk. apply (ascend_positions right_chain j k l h Hr Hj Hk).
    rewrite Forall_forall in Hall. apply Hall, list_elem_of_fmap. by exists h.
  - rewrite app_nil_r. apply list_find_None in E. rewrite decide_False; [|intros Hin; rewrite Forall_forall in E; by apply (E l)].
    apply IH; [done|done|]. intros h j x Hh. apply Hix. by right.
Qed.
End algos.

(** * Concrete inputs *)

(** Whole logarithms in the place of the platform's. *)
Definition floor_log : F64.
Proof.
  refine {| f64 := Z; to_f64 z := z; ln := Z.log2; LN_2 := 1; f64_div := Z.div; f64_sub := Z.sub; as_i32 x := Z.max (- 2 ^ 31) (Z.min (2 ^ 31 - 1) x) |}.
  intros x. unfold in_s. lia.
Defined.

(** A header of difficulty 1 whose distance gives it the level [255 - log2 distance]. *)
Definition header_at (id parent : Z) (height distance : Z) : Header := {|
  version := 1; hd_id := replicate 32 id; parent_id := replicate 32 parent; ad_proofs_root := replicate 32 0; state_root := replicate 33 0;
  transaction_root := replicate 32 0; timestamp := 0; n_bits := 16842752; Header.height := height; extension_root := replicate 32 0;
  autolykos_solution := {| miner_pk := miner_pk (autolykos_solution sample_header); pow_onetime_pk := None; nonce := replicate 8 0; pow_distance := Some distance |};
  votes := [0; 0; 0]; unparsed_bytes := [] |}.

Definition sample_chain : list Header := [header_at 2 1 2 (2 ^ 254); header_at 3 2 3 (2 ^ 252); header_at 4 3 4 (2 ^ 253); header_at 5 4 5 (2 ^ 255)].

Lemma best_arg_correct_witness :
  let levels := [1; 3; 2; 0] in
  best_arg (F := floor_log) default_algos sample_chain 2 = Ok 8 /\ (exists mu, argument levels 2 mu /\ 8 = 2 ^ mu * Z.of_nat (superchain levels mu)).
Proof.
  intros levels. assert (mapM_res (max_level_of (F := floor_log) default_algos) sample_chain = Ok levels) as El by (vm_compute; reflexivity).
  apply mapM_res_Forall2 in El.
  destruct (best_arg_correct (F := floor_log) default_algos sample_chain levels 2 El) as (best & E & Hbest & _).
  - repeat (apply Forall_cons; split; [lia|]). apply Forall_nil. exact I.
  - lia.
  - intros mu Hmu. assert (superchain levels mu <= 4)%nat by (unfold superchain; rewrite filter_length_le; reflexivity).
    assert (2 ^ mu * Z.of_nat (superchain levels mu) <= 2 ^ 61 * 4 \/ 61 < mu) as [H1|H1]; [|lia|].
    { destruct (decide (mu <= 61)); [left|right; lia]. apply Z.mul_le_mono_nonneg; [apply Z.pow_nonneg; lia|apply Z.pow_le_mono_r; lia|lia|lia]. }
    assert (superchain levels mu = 0%nat) as ->; [|lia]. destruct (superchain levels mu) eqn:En; [reflexivity|].
    destruct (superchain_in levels mu ltac:(lia)) as (l & Hin & Hl). repeat (apply elem_of_cons in Hin as [->|Hin]; [lia|]). by apply not_elem_of_nil in Hin.
  - assert (best_arg (F := floor_log) default_algos sample_chain 2 = Ok 8) as E8 by (vm_compute; reflexivity). rewrite E8 in E. injection E as <-.
    split; [reflexivity|exact Hbest].
Defined.

(** The interlinks of the packing test, in an extension between two fields of its parameters. *)
Lemma interlinks_roundtrip_witness :
  let id b := replicate 32 b in let ids := [id 160; id 176; id 176; id 192] in
  packable ids = true /\ exists fs, pack_interlinks ids = Ok fs /\
    unpack_interlinks (mkExtension (mkField (0, 1) [7] :: fs ++ [mkField (2, 3) [8; 9]])) = Some ids.
Proof.
  intros id ids. assert (ids <> []) as Hne by discriminate.
  assert (ids_wf ids) as Hwf by (repeat (apply Forall_cons; split; [reflexivity|]); apply Forall_nil; exact I).
  pose proof (interlinks_roundtrip ids Hne Hwf) as H. assert (packable ids = true) as Hp by (vm_compute; reflexivity). rewrite Hp in H.
  split; [exact Hp|]. destruct H as (fs & E & _ & _ & H). exists fs. split; [exact E|]. apply H.
  assert (pack_interlinks ids = Ok [mkField (1, 0) (1 :: id 160); mkField (1, 1) (2 :: id 176); mkField (1, 3) (1 :: id 192)]) as Ec by (vm_compute; reflexivity).
  rewrite E in Ec. injection Ec as ->. vm_compute. reflexivity.
Defined.
