(* ===== verification/NipopowVerify.v ===== *)
(** The checks and the comparison of NiPoPoW proofs and the verifier that keeps the best one
    (src/ergo-nipopow/src/nipopow_proof.rs, nipopow_verifier.rs), over Nipopow. *)

From stdpp Require Import gmap sorting.
From S2P Require Import Prelude SigmaBoolean ConcreteCrypto Vlq Codecs SigmaSerial BigNum Header Autolykos Merkle MerkleBatch Nipopow.
#[local] Open Scope Z_scope.

Inductive NipopowProofError : Type :=
| PowSchemeError (e : AutolykosPowSchemeError)
| ZeroKParameter
| ZeroMParameter
| NonAnchoredChain
| ChainTooShort
| MissingPopowHeader
| EmptyInterlinks
| NipopowPanic
(** The fuel of a loop, which the theorems show is enough where it ends. *)
| NipopowOutOfFuel.

Section proofs.
Context `{C : SigmaCrypto} {B : NumBigint} {M : ScalarModulus} {F : F64}.
Abbreviation hash := blake2b256_hash.
Abbreviation height := Header.height.

Record PoPowHeader : Type := mkPoPowHeader {
  pp_header : Header;
  interlinks : list BlockId;
  interlinks_proof : BatchMerkleProof
}.

Definition check_interlinks_proof (p : PoPowHeader) : result panic bool :=
  let proof_is_empty := match indices (interlinks_proof p), proofs (interlinks_proof p) with [], [] => true | _, _ => false end in
  match interlinks p with
  | [] => Ok proof_is_empty
  | _ =>
      if negb (packable (interlinks p)) then Ok false
      else
        fields ← pack_interlinks (interlinks p);
        tree ← extension_merkletree fields;
        batch_valid hash (interlinks_proof p) (root_hash tree)
  end.

Record NipopowProof : Type := mkNipopow {
  popow_algos : NipopowAlgos;
  proof_m : Z;
  proof_k : Z;
  prefix : list PoPowHeader;
  suffix_head : PoPowHeader;
  suffix_tail : list Header
}.

Definition nipopow_new (m k : Z) (prefix : list PoPowHeader) (suffix_head : PoPowHeader) (suffix_tail : list Header) :
    result NipopowProofError NipopowProof :=
  if m =? 0 then Err ZeroMParameter
  else if 1 <=? k then Ok (mkNipopow default_algos m k prefix suffix_head suffix_tail)
  else Err ZeroKParameter.

Definition headers_chain (p : NipopowProof) : list Header := map pp_header (prefix p) ++ pp_header (suffix_head p) :: suffix_tail p.

(** * The checks *)

Definition has_valid_params (p : NipopowProof) : bool :=
  (1 <=? proof_m p) && (1 <=? proof_k p) && (proof_m p + proof_k p <=? I32_MAX).

(** A header of the prefix, or the suffix's first, is linked to one of the headers before it, by an interlink or as its parent. *)
Definition linked (next prev : PoPowHeader) : bool :=
  bool_decide (hd_id (pp_header prev) ∈ interlinks next) || bool_decide (parent_id (pp_header next) = hd_id (pp_header prev)).

Definition prefix_connections (lookback_span : nat) (prefix_to_check : list PoPowHeader) : bool :=
  forallb (fun check_idx =>
    match prefix_to_check !! check_idx with
    | Some next =>
        let lookback_start := (check_idx - lookback_span)%nat in
        existsb (fun prev_idx => match prefix_to_check !! prev_idx with Some prev => linked next prev | None => false end)
          (rev (seq lookback_start (check_idx - lookback_start)))
    | None => false
    end) (seq 1 (length prefix_to_check - 1)).

Definition suffix_connections (head : Header) (tail : list Header) : bool :=
  forallb (fun '(prev, next) => bool_decide (parent_id next = hd_id prev)) (zip (head :: tail) tail).

Definition has_valid_connections (p : NipopowProof) : bool :=
  let lookback_span := (Z.to_nat (use_last_epochs (popow_algos p)) + 3)%nat in
  prefix_connections lookback_span (prefix p ++ [suffix_head p]) && suffix_connections (pp_header (suffix_head p)) (suffix_tail p).

Definition has_valid_heights (p : NipopowProof) : bool :=
  forallb (fun '(prev, next) => height prev <? height next) (zip (headers_chain p) (tail (headers_chain p))).

(** [all], which stops at the first that fails. *)
Fixpoint all_proofs (ps : list PoPowHeader) : result panic bool :=
  match ps with
  | [] => Ok true
  | p :: ps => b ← check_interlinks_proof p; if (b : bool) then all_proofs ps else Ok false
  end.

Definition has_valid_proofs (p : NipopowProof) : result panic bool := all_proofs (suffix_head p :: prefix p).

Definition is_valid (p : NipopowProof) : result panic bool :=
  if has_valid_params p && has_valid_connections p && has_valid_heights p then has_valid_proofs p else Ok false.

(** * Comparison *)

Definition after (lca : Header) (p : NipopowProof) : list Header := List.filter (fun h => height lca <? height h) (headers_chain p).

Definition is_better_than (this that : NipopowProof) : result NipopowProofError bool :=
  result_map_err (fun _ => NipopowPanic) (is_valid this) ≫= fun this_valid =>
  both ← (if this_valid : bool then result_map_err (fun _ => NipopowPanic) (is_valid that) else Ok false);
  if both : bool then
    match lowest_common_ancestor (headers_chain this) (headers_chain that) with
    | Some lca =>
        x ← result_map_err PowSchemeError (best_arg (popow_algos this) (after lca this) (proof_m this));
        y ← result_map_err PowSchemeError (best_arg (popow_algos this) (after lca that) (proof_m this));
        Ok (y <? x)
    | None => Ok false
    end
  else Ok this_valid.

(** * The verifier *)

Record NipopowVerifier : Type := mkVerifier { best_proof : option NipopowProof; genesis_block_id : BlockId }.

Definition verifier_new (genesis_block_id : BlockId) : NipopowVerifier := mkVerifier None genesis_block_id.

Definition best_chain (v : NipopowVerifier) : list Header := match best_proof v with Some p => headers_chain p | None => [] end.

(** A failed comparison leaves the verifier as it is. *)
Definition process (v : NipopowVerifier) (new_proof : NipopowProof) : NipopowVerifier * result NipopowProofError unit :=
  let keep := mkVerifier (Some new_proof) (genesis_block_id v) in
  match head (headers_chain new_proof) with
  | Some h =>
      if bool_decide (hd_id h = genesis_block_id v) then
        match best_proof v with
        | Some p =>
            match is_better_than new_proof p with
            | Ok better => (if better : bool then keep else v, Ok tt)
            | Err e => (v, Err e)
            end
        | None =>
            match is_valid new_proof with
            | Ok valid => (if valid : bool then keep else v, Ok tt)
            | Err _ => (v, Err NipopowPanic)
            end
        end
      else (v, Ok tt)
  | None => (v, Ok tt)
  end.

(** ** No check panics *)

Definition popow_wf (p : PoPowHeader) : Prop := ids_wf (interlinks p).
Definition nipopow_wf (p : NipopowProof) : Prop := Forall popow_wf (suffix_head p :: prefix p).

Lemma extension_tree_built fs : exists t, extension_merkletree fs = Ok t.
Proof.
  unfold extension_merkletree. destruct (tree_new_Ok hash (map kv_to_leaf fs)) as (t & E & _). exists t. by rewrite map_map in E.
Qed.

Lemma check_interlinks_total p : popow_wf p -> exists b, check_interlinks_proof p = Ok b.
Proof.
  intros Hwf. unfold check_interlinks_proof, popow_wf in *. destruct (interlinks p) as [|id ids] eqn:E; [by eexists|]. rewrite <- E in *.
  assert (interlinks p <> []) as Hne by by rewrite E. destruct (packable (interlinks p)) eqn:Hp; cbn [negb]; [|by eexists].
  destruct (interlinks p) as [|first rest] eqn:El; [done|]. pose proof (pack_loop_spec rest 1 1 first 0 ltac:(lia) ltac:(lia) ltac:(lia) Hwf) as H.
  cbn [packable] in Hp. rewrite Hp in H. destruct H as (fs & Ef & _). cbn [pack_interlinks]. rewrite Ef. cbn [mbind result_bind].
  destruct (extension_tree_built fs) as [t ->]. cbn [mbind result_bind]. set (e := sort_by_key bi_index (indices (interlinks_proof p))).
  unfold batch_valid. destruct (validate_total hash (S (length e + length (proofs (interlinks_proof p)))) (map bi_index e) e (proofs (interlinks_proof p))) as [r Er]; [lia|].
  fold e. rewrite Er. by eexists.
Qed.

Lemma is_valid_total p : nipopow_wf p -> exists b, is_valid p = Ok b.
Proof.
  intros Hwf. unfold is_valid. destruct (_ && _); [|by eexists]. unfold has_valid_proofs, nipopow_wf in *.
  induction Hwf as [|q qs Hq _ IH]; [by eexists|]. cbn [all_proofs]. destruct (check_interlinks_total q Hq) as [b ->]. cbn [mbind result_bind].
  destruct b; [exact IH|by eexists].
Qed.

(** * Comparing proofs *)

Lemma zip_ascend (chain : list Header) : forallb (fun '(prev, next) => height prev <? height next) (zip chain (tail chain)) = true -> heights_ascend chain.
Proof.
  intros H. unfold heights_ascend. apply Sorted_StronglySorted; [intros x y z; lia|].
  induction chain as [|x chain IH]; [constructor|]. destruct chain as [|y chain]; [repeat constructor|].
  cbn [tail zip zip_with forallb] in *. apply andb_true_iff in H as [H1%Z.ltb_lt H2]. cbn [map] in *. constructor; [by apply IH|by constructor].
Qed.

Lemma valid_ascends p : is_valid p = Ok true -> heights_ascend (headers_chain p).
Proof.
  unfold is_valid. destruct (has_valid_params p && has_valid_connections p && has_valid_heights p) eqn:E; [|done]. intros _.
  apply andb_true_iff in E as [_ E]. by apply zip_ascend.
Qed.

(** The last header of one chain that the other has too. *)
Definition last_common (l r : list Header) (h : Header) : Prop :=
  h ∈ l /\ h ∈ r /\ forall h', h' ∈ l -> h' ∈ r -> height h' <= height h.

Lemma last_filter_common l r h : heights_ascend l -> last (filter (fun h => h ∈ r) l) = Some h -> last_common l r h.
Proof.
  intros Hl (pre & E)%last_Some. assert (h ∈ filter (fun h => h ∈ r) l) as Hh by (rewrite E; apply elem_of_app; right; by left).
  apply list_elem_of_filter in Hh as [Hr Hin]. split_and!; [done|done|]. intros h' Hl' Hr'.
  assert (h' ∈ filter (fun h => h ∈ r) l) as H' by by apply list_elem_of_filter. rewrite E in H'. apply elem_of_app in H' as [H'|H'].
  - assert (heights_ascend (pre ++ [h])) as Hs.
    { rewrite <- E. clear -Hl. unfold heights_ascend in *. induction l as [|x l IH]; [done|]. cbn in Hl. apply StronglySorted_inv in Hl as [Hl Hx].
      rewrite filter_cons. destruct (decide _); [|by apply IH]. cbn. constructor; [by apply IH|].
      rewrite Forall_forall in *. intros z (y & -> & [_ Hy]%list_elem_of_filter)%list_elem_of_fmap. apply Hx, list_elem_of_fmap. by exists y. }
    unfold heights_ascend in Hs. rewrite map_app in Hs. clear -Hs H'. induction pre as [|x pre IH]; [by apply not_elem_of_nil in H'|].
    cbn in Hs. apply StronglySorted_inv in Hs as [Hs Hx]. apply elem_of_cons in H' as [->|H']; [|by apply IH].
    rewrite Forall_forall in Hx. specialize (Hx (height h)). ospecialize (Hx _); [|lia]. apply elem_of_app. right. by left.
  - apply list_elem_of_singleton in H' as ->. lia.
Qed.

Lemma lca_found l r h t t' : heights_ascend l -> heights_ascend r -> l = h :: t -> r = h :: t' ->
  exists lca, lowest_common_ancestor l r = Some lca /\ last_common l r lca.
Proof.
  intros Hl Hr El Er. unfold lowest_common_ancestor. rewrite (lca_outer_spec l r 0 [] Hl Hr) by lia.
  assert (match l, r with head_left :: _, head_right :: _ => negb (bool_decide (head_left = head_right)) | _, _ => false end = false) as ->.
  { rewrite El, Er. by rewrite bool_decide_eq_true_2. }
  cbn [app]. assert (h ∈ filter (fun h => h ∈ r) l) as Hh by (apply list_elem_of_filter; rewrite El, Er; split; by left).
  destruct (last (filter (fun h => h ∈ r) l)) as [lca|] eqn:E; [|apply last_None in E; rewrite E in Hh; by apply not_elem_of_nil in Hh].
  exists lca. split; [done|]. by apply last_filter_common.
Qed.

(** Of chains with other first headers nothing is common. *)
Lemma lca_refused h h' t t' : h <> h' -> lowest_common_ancestor (h :: t) (h' :: t') = None.
Proof. intros H. unfold lowest_common_ancestor. by rewrite bool_decide_eq_false_2. Qed.

Lemma last_common_sym l r h : last_common l r h -> last_common r l h.
Proof. intros (H1 & H2 & H3). split_and!; auto. Qed.

Lemma last_common_unique l r h h' : heights_ascend l -> last_common l r h -> last_common l r h' -> h = h'.
Proof.
  intros Hl (H1 & H2 & H3) (H1' & H2' & H3'). apply (ascend_unique l); try done. specialize (H3 h' H1' H2'). specialize (H3' h H1 H2). lia.
Qed.

(** Which header is the last common one does not depend on the order. *)
Lemma lca_sym l r : heights_ascend l -> heights_ascend r -> l <> [] -> r <> [] -> lowest_common_ancestor l r = lowest_common_ancestor r l.
Proof.
  intros Hl Hr Hnl Hnr. destruct l as [|h t]; [done|]. destruct r as [|h' t']; [done|]. destruct (decide (h = h')) as [->|Hne].
  - destruct (lca_found _ _ h' t t' Hl Hr eq_refl eq_refl) as (x & -> & Hx). destruct (lca_found _ _ h' t' t Hr Hl eq_refl eq_refl) as (y & -> & Hy).
    f_equal. apply (last_common_unique _ _ _ _ Hl Hx). by apply last_common_sym.
  - by rewrite !lca_refused.
Qed.

(** Two valid proofs of the same genesis have a last common header, and the first is better exactly where the score of
    its headers above it is greater, both scores taken with the first proof's [m]. *)
Theorem better_scores (this that : NipopowProof) (genesis : Header) (t t' : list Header) :
  is_valid this = Ok true -> is_valid that = Ok true -> headers_chain this = genesis :: t -> headers_chain that = genesis :: t' ->
  exists lca, last_common (headers_chain this) (headers_chain that) lca /\
    match best_arg (popow_algos this) (after lca this) (proof_m this), best_arg (popow_algos this) (after lca that) (proof_m this) with
    | Ok x, Ok y => exists better, is_better_than this that = Ok better /\ (better = true <-> y < x)
    | Err e, _ | Ok _, Err e => is_better_than this that = Err (PowSchemeError e)
    end.
Proof.
  intros Hv Hv' E E'. destruct (lca_found _ _ genesis t t' (valid_ascends _ Hv) (valid_ascends _ Hv') E E') as (lca & El & Hlca).
  exists lca. split; [done|]. unfold is_better_than. rewrite Hv, Hv'. cbn [result_map_err mbind result_bind]. rewrite El.
  destruct (best_arg _ (after lca this) _) as [x|e]; cbn [result_map_err mbind result_bind]; [|done].
  destruct (best_arg _ (after lca that) _) as [y|e]; cbn [result_map_err mbind result_bind]; [|done]. eexists. split; [done|apply Z.ltb_lt].
Qed.

(** Of two proofs with the same parameter [m], at most one is better than the other, and none than itself. *)
Theorem better_asymmetric (this that : NipopowProof) :
  popow_algos that = popow_algos this -> proof_m that = proof_m this -> nipopow_wf that ->
  is_better_than this that = Ok true -> is_better_than that this = Ok false.
Proof.
  intros Ea Em Hwf H. destruct (is_valid_total that Hwf) as [b Eb]. unfold is_better_than in H. destruct (is_valid this) as [v|] eqn:Ev; [|done].
  cbn [result_map_err mbind result_bind] in H. destruct v; [|done]. rewrite Eb in H. cbn [result_map_err mbind result_bind] in H.
  unfold is_better_than. rewrite Eb. cbn [result_map_err mbind result_bind]. destruct b; [|done]. rewrite Ev. cbn [result_map_err mbind result_bind].
  rewrite (lca_sym _ _ (valid_ascends _ Eb) (valid_ascends _ Ev)); [|unfold headers_chain; by destruct (prefix _)..].
  destruct (lowest_common_ancestor _ _) as [lca|]; [|done]. rewrite Ea, Em.
  destruct (best_arg _ (after lca this) _) as [x|]; [|done]. destruct (best_arg _ (after lca that) _) as [y|]; [|done].
  cbn [result_map_err mbind result_bind] in *. injection H as H%Z.ltb_lt. f_equal. apply Z.ltb_ge. lia.
Qed.

(** * The verifier keeps the best *)

Definition rooted (genesis_block_id : BlockId) (p : NipopowProof) : Prop :=
  exists h, head (headers_chain p) = Some h /\ hd_id h = genesis_block_id.

(** The verifier after a list of proofs, and what its best proof is. *)
Definition processed (genesis_block_id : BlockId) (ps : list NipopowProof) : NipopowVerifier :=
  foldl (fun v p => fst (process v p)) (verifier_new genesis_block_id) ps.

Lemma processed_genesis gid ps : genesis_block_id (processed gid ps) = gid.
Proof.
  induction ps as [|p ps IH] using rev_ind; [done|]. unfold processed in *. rewrite foldl_snoc. set (v := foldl _ _ ps) in *.
  unfold process. destruct (head _); [|done]. case_bool_decide; [|done]. destruct (best_proof v) as [q|].
  - destruct (is_better_than p q) as [[]|]; done.
  - destruct (is_valid p) as [[]|]; done.
Qed.

(** C21: after any proofs the verifier has one exactly if one of them was valid and started with the genesis block; the one
    it has is such a proof, and no later one of this genesis was better than it. *)
Theorem verifier_best (gid : BlockId) (ps : list NipopowProof) :
  match best_proof (processed gid ps) with
  | None => forall p, p ∈ ps -> rooted gid p -> is_valid p <> Ok true
  | Some p => is_valid p = Ok true /\ rooted gid p /\
      exists earlier later, ps = earlier ++ p :: later /\ forall q, q ∈ later -> rooted gid q -> is_better_than q p <> Ok true
  end.
Proof.
  induction ps as [|p ps IH] using rev_ind; [intros p Hp; by apply not_elem_of_nil in Hp|].
  pose proof (processed_genesis gid ps) as Hg. unfold processed in *. rewrite foldl_snoc. set (v := foldl _ _ ps) in *.
  unfold process. destruct (head (headers_chain p)) as [h|] eqn:Eh; [|by destruct (prefix p) eqn:Ep; unfold headers_chain in Eh; rewrite Ep in Eh].
  rewrite Hg. case_bool_decide as Hid.
  - destruct (best_proof v) as [q|] eqn:Eq.
    + destruct IH as (Hv & Hr & earlier & later & E & Hlater). destruct (is_better_than p q) as [[]|e] eqn:Eb; cbn [fst best_proof].
      * split_and!; [|by exists h|exists ps, []; split; [done|intros ? H; by apply not_elem_of_nil in H]].
        unfold is_better_than in Eb. destruct (is_valid p) as [[]|]; [done|done|done].
      * rewrite Eq. split_and!; [done|done|]. exists earlier, (later ++ [p]). split; [by rewrite E, <- app_assoc|].
        intros x [Hx| ->%list_elem_of_singleton]%elem_of_app; [by apply Hlater|]. by rewrite Eb.
      * rewrite Eq. split_and!; [done|done|]. exists earlier, (later ++ [p]). split; [by rewrite E, <- app_assoc|].
        intros x [Hx| ->%list_elem_of_singleton]%elem_of_app; [by apply Hlater|]. by rewrite Eb.
    + destruct (is_valid p) as [[]|e] eqn:Ev; cbn [fst best_proof].
      * split_and!; [done|by exists h|exists ps, []; split; [done|intros ? H; by apply not_elem_of_nil in H]].
      * rewrite Eq. intros x [Hx| ->%list_elem_of_singleton]%elem_of_app; [by apply IH|]. by rewrite Ev.
      * rewrite Eq. intros x [Hx| ->%list_elem_of_singleton]%elem_of_app; [by apply IH|]. by rewrite Ev.
  - assert (forall x, x ∈ [p] -> rooted gid x -> False) as Hnot.
    { intros x ->%list_elem_of_singleton (h' & E & E'). rewrite Eh in E. by injection E as ->. }
    cbn [fst]. destruct (best_proof v) as [q|].
    + destruct IH as (Hv & Hr & earlier & later & E & Hlater). split_and!; [done|done|]. exists earlier, (later ++ [p]). split; [by rewrite E, <- app_assoc|].
      intros x [Hx|Hx]%elem_of_app Hrx; [by apply Hlater|by destruct (Hnot x Hx)].
    + intros x [Hx|Hx]%elem_of_app Hrx; [by apply IH|by destruct (Hnot x Hx)].
Qed.
End proofs.

(** * Concrete inputs *)

(** Two proofs of the same genesis: the first ends in a header of level 5, the second in one of level 3. *)
Definition plain_popow (h : Header) : PoPowHeader := mkPoPowHeader h [] (mkBatch [] []).
Definition two_headers (distance : Z) : NipopowProof :=
  mkNipopow default_algos 1 1 [plain_popow (header_at 1 0 1 1)] (plain_popow (header_at 2 1 2 distance)) [].

Lemma two_headers_wf distance : nipopow_wf (two_headers distance).
Proof. repeat constructor. Qed.

Lemma better_scores_witness :
  is_better_than (F := floor_log) (two_headers (2 ^ 250)) (two_headers (2 ^ 252)) = Ok true.
Proof.
  assert (forall d, bool_decide (d = 2 ^ 250 \/ d = 2 ^ 252) = true -> is_valid (two_headers d) = Ok true) as Hv.
  { intros d [->| ->]%bool_decide_eq_true; vm_compute; reflexivity. }
  destruct (better_scores (F := floor_log) (two_headers (2 ^ 250)) (two_headers (2 ^ 252)) (header_at 1 0 1 1) [header_at 2 1 2 (2 ^ 250)] [header_at 2 1 2 (2 ^ 252)]
    (Hv (2 ^ 250) eq_refl) (Hv (2 ^ 252) eq_refl) eq_refl eq_refl) as (lca & (Hl & _) & H).
  assert (lca = header_at 1 0 1 1 \/ lca = header_at 2 1 2 (2 ^ 250)) as [-> | ->].
  { apply elem_of_cons in Hl as [->|Hl]; [left; reflexivity|]. apply list_elem_of_singleton in Hl. right. exact Hl. }
  - assert (best_arg (F := floor_log) default_algos (after (header_at 1 0 1 1) (two_headers (2 ^ 250))) 1 = Ok 32) as E1 by (vm_compute; reflexivity).
    assert (best_arg (F := floor_log) default_algos (after (header_at 1 0 1 1) (two_headers (2 ^ 252))) 1 = Ok 8) as E2 by (vm_compute; reflexivity).
    cbn [popow_algos proof_m two_headers] in H. fold (two_headers (2 ^ 250)) in H. fold (two_headers (2 ^ 252)) in H. rewrite E1, E2 in H.
    destruct H as (b & E & Hb). rewrite E. f_equal. apply Hb. lia.
  - vm_compute. reflexivity.
Defined.

Lemma better_asymmetric_witness :
  is_better_than (F := floor_log) (two_headers (2 ^ 252)) (two_headers (2 ^ 250)) = Ok false.
Proof.
  apply (better_asymmetric (F := floor_log) (two_headers (2 ^ 250)) (two_headers (2 ^ 252)) eq_refl eq_refl (two_headers_wf _)).
  vm_compute. reflexivity.
Defined.
