(* ===== verification/NipopowProve.v ===== *)
(** Making NiPoPoW proofs (src/ergo-nipopow/src/nipopow_algos.rs, popow_header_reader.rs): the interlinks of the next block,
    the prover on a chain in memory and the one that reads a store, and that the first one's proofs are valid. *)

From stdpp Require Import gmap sorting.
From S2P Require Import Prelude SigmaBoolean ConcreteCrypto Vlq Codecs SigmaSerial BigNum Header Autolykos Merkle MerkleBatch Nipopow NipopowVerify.
#[local] Open Scope Z_scope.

Section prove.
Context `{C : SigmaCrypto} {B : NumBigint} {M : ScalarModulus} {F : F64}.
Abbreviation height := Header.height.

#[export] Instance batch_index_eq_dec : EqDecision BatchMerkleProofIndex.
Proof. solve_decision. Defined.
#[export] Instance level_node_eq_dec : EqDecision LevelNode.
Proof. solve_decision. Defined.
#[export] Instance batch_proof_eq_dec : EqDecision BatchMerkleProof.
Proof. solve_decision. Defined.
#[export] Instance popow_eq_dec : EqDecision PoPowHeader.
Proof. solve_decision. Defined.

(** * The interlinks of the next block *)

Definition update_interlinks (prev_header : Header) (prev_interlinks : list BlockId) : result NipopowProofError (list BlockId) :=
  if negb (height prev_header =? 1) then
    genesis ← ok_or (head prev_interlinks) EmptyInterlinks;
    prev_level ← result_map_err PowSchemeError (max_level_of default_algos prev_header);
    if 0 <? prev_level then
      let prev_level := Z.to_nat prev_level in
      if (prev_level <? length prev_interlinks)%nat then
        Ok (genesis :: take (length prev_interlinks - prev_level - 1) (drop 1 prev_interlinks) ++ replicate prev_level (hd_id prev_header))
      else Ok (genesis :: replicate prev_level (hd_id prev_header))
    else Ok prev_interlinks
  else Ok [hd_id prev_header].

(** * The prover on a chain *)

(** [C[:-k]{B:}↑µ]: the headers of a level from the anchoring point on. *)
Fixpoint sub_chain (algos : NipopowAlgos) (chain : list PoPowHeader) (anchor level : Z) : result AutolykosPowSchemeError (list PoPowHeader) :=
  match chain with
  | [] => Ok []
  | p :: chain =>
      max_level ← max_level_of algos (pp_header p);
      rest ← sub_chain algos chain anchor level;
      Ok (if (level <=? max_level) && (anchor <=? height (pp_header p)) then p :: rest else rest)
  end.

(** What is not there yet, in order. *)
Definition add_missing (prefix sub_chain : list PoPowHeader) : list PoPowHeader :=
  fold_left (fun prefix pph => if bool_decide (pph ∈ prefix) then prefix else prefix ++ [pph]) sub_chain prefix.

(** The loop over the stack, which always has one pair of an anchoring point and a level. *)
Fixpoint prefix_loop (fuel : nat) (algos : NipopowAlgos) (chain : list PoPowHeader) (m : Z) (anchoring_point : PoPowHeader) (level : Z)
    (prefix : list PoPowHeader) : result NipopowProofError (list PoPowHeader) :=
  match fuel with
  | O => Err NipopowOutOfFuel
  | S fuel =>
      if 0 <=? level then
        sub ← result_map_err PowSchemeError (sub_chain algos chain (height (pp_header anchoring_point)) level);
        anchor ← (if m <? Z.of_nat (length sub) then ok_or (sub !! (length sub - Z.to_nat m)%nat) NipopowPanic else Ok anchoring_point);
        prefix_loop fuel algos chain m anchor (level - 1) (add_missing prefix sub)
      else Ok prefix
  end.

Fixpoint insert_height (p : PoPowHeader) (l : list PoPowHeader) : list PoPowHeader :=
  match l with
  | [] => [p]
  | q :: l => if height (pp_header p) <=? height (pp_header q) then p :: q :: l else q :: insert_height p l
  end.
Definition sort_height (l : list PoPowHeader) : list PoPowHeader := foldr insert_height [] l.

Definition prove (algos : NipopowAlgos) (chain : list PoPowHeader) (k m : Z) : result NipopowProofError NipopowProof :=
  _ ← guard_or (negb (k =? 0)) ZeroKParameter;
  _ ← guard_or (negb (m =? 0)) ZeroMParameter;
  _ ← guard_or (k + m <? 2 ^ 32) NipopowPanic;
  _ ← guard_or (negb (Z.of_nat (length chain) <? k + m)) ChainTooShort;
  genesis ← ok_or (head chain) NipopowPanic;
  _ ← guard_or (height (pp_header genesis) =? 1) NonAnchoredChain;
  let split := (length chain - Z.to_nat k)%nat in
  suffix_head ← ok_or (chain !! split) NipopowPanic;
  let suffix_tail := map pp_header (drop (S split) chain) in
  max_level ← (if (Z.to_nat k <? length chain)%nat then
      last_prefix ← ok_or (last (take split chain)) NipopowPanic;
      if (length (interlinks last_prefix) =? 0)%nat then Err NipopowPanic else Ok (wrap_s 32 (Z.of_nat (length (interlinks last_prefix)) - 1))
    else Err ChainTooShort);
  prefix ← prefix_loop (S (Z.to_nat (max_level + 1))) algos (take split chain) m genesis max_level [];
  nipopow_new m k (sort_height prefix) suffix_head suffix_tail.

(** * The prover on a store of headers *)

Record PopowHeaderReader : Type := mkReaderOps {
  headers_height : Z;
  popow_header_by_id : BlockId -> option PoPowHeader;
  popow_header_at_height : Z -> option PoPowHeader;
  last_headers : nat -> list Header;
  best_headers_after : Header -> nat -> list Header
}.

Definition links_with_indexes (header : PoPowHeader) : list (BlockId * nat) :=
  if (length (interlinks header) <? 2)%nat then []
  else imap (fun i id => (id, i)) (rev (drop 1 (interlinks header))).

Definition previous_header_id_at_level (level : nat) (header : PoPowHeader) : option BlockId :=
  let n := length (interlinks header) in
  if (n <? 2)%nat then None
  else if (n - 2 <? level)%nat then None
  else interlinks header !! (n - 1 - level)%nat.

(** The loop of [collect_level]; [walked] is in descending order of heights. *)
Fixpoint collect_level (fuel : nat) (reader : PopowHeaderReader) (current_id : BlockId) (level : nat) (anchoring_height : Z)
    (walked : list PoPowHeader) : result NipopowProofError (list PoPowHeader) :=
  match fuel with
  | O => Err NipopowOutOfFuel
  | S fuel =>
      prev_header ← ok_or (popow_header_by_id reader current_id) MissingPopowHeader;
      if height (pp_header prev_header) <? anchoring_height then Ok (rev walked)
      else
        match previous_header_id_at_level level prev_header with
        | Some next_id => collect_level fuel reader next_id level anchoring_height (walked ++ [prev_header])
        | None => Ok (rev (walked ++ [prev_header]))
        end
  end.

(** A [BTreeMap] by ids: the pairs in the order of their keys' bytes. *)
Fixpoint bytes_less (l r : list Z) : bool :=
  match l, r with
  | [], _ :: _ => true
  | x :: l, y :: r => (x <? y) || ((x =? y) && bytes_less l r)
  | _, [] => false
  end.
Fixpoint btree_insert (id : BlockId) (ph : PoPowHeader) (collected : list (BlockId * PoPowHeader)) : list (BlockId * PoPowHeader) :=
  match collected with
  | [] => [(id, ph)]
  | (id', ph') :: rest =>
      if bool_decide (id = id') then (id, ph) :: rest
      else if bytes_less id id' then (id, ph) :: (id', ph') :: rest
      else (id', ph') :: btree_insert id ph rest
  end.

(** The loop of [prove_prefix] over the levels, the highest first, with the headers collected by their ids. *)
Fixpoint prove_levels (fuel : nat) (reader : PopowHeaderReader) (m : Z) (levels : list (BlockId * nat)) (anchoring_height : Z)
    (collected : list (BlockId * PoPowHeader)) : result NipopowProofError (list (BlockId * PoPowHeader)) :=
  match levels with
  | [] => Ok collected
  | (prev_header_id, level_idx) :: levels =>
      level_headers ← collect_level fuel reader prev_header_id level_idx anchoring_height [];
      let collected := fold_left (fun c ph => btree_insert (hd_id (pp_header ph)) ph c) level_headers collected in
      anchoring_height ←
        (if m <? Z.of_nat (length level_headers)
         then p ← ok_or (level_headers !! (length level_headers - Z.to_nat m)%nat) NipopowPanic; Ok (height (pp_header p))
         else Ok anchoring_height);
      prove_levels fuel reader m levels anchoring_height collected
  end.

Definition prove_prefix (fuel : nat) (reader : PopowHeaderReader) (init_anchoring_height : Z) (last_header : PoPowHeader) (m : Z) :
    result NipopowProofError (list PoPowHeader) :=
  collected ← prove_levels fuel reader m (rev (links_with_indexes last_header)) init_anchoring_height [];
  Ok (map snd collected).

Definition GENESIS_HEIGHT : Z := 1.

(** The headers whose heights are not stored yet. *)
Fixpoint new_heights (stored_heights : list Z) (collected : list PoPowHeader) : list PoPowHeader :=
  match collected with
  | [] => []
  | ph :: rest =>
      if bool_decide (height (pp_header ph) ∈ stored_heights) then new_heights stored_heights rest
      else ph :: new_heights (height (pp_header ph) :: stored_heights) rest
  end.

Definition reader_suffix (reader : PopowHeaderReader) (header_id_opt : option BlockId) (k : Z) : result NipopowProofError (PoPowHeader * list Header) :=
  match header_id_opt with
  | Some header_id =>
      suffix_head ← ok_or (popow_header_by_id reader header_id) MissingPopowHeader;
      Ok (suffix_head, best_headers_after reader (pp_header suffix_head) (Z.to_nat (k - 1)))
  | None =>
      let suffix := last_headers reader (Z.to_nat k) in
      head ← ok_or (head suffix) MissingPopowHeader;
      suffix_head ← ok_or (popow_header_by_id reader (hd_id head)) MissingPopowHeader;
      Ok (suffix_head, drop 1 suffix)
  end.

Definition prove_with_reader (fuel : nat) (reader : PopowHeaderReader) (header_id_opt : option BlockId) (k m : Z) :
    result NipopowProofError NipopowProof :=
  _ ← guard_or (negb (k =? 0)) ZeroKParameter;
  _ ← guard_or (k + m <? 2 ^ 32) NipopowPanic;
  _ ← guard_or (negb (headers_height reader <? k + m)) ChainTooShort;
  '(suffix_head, suffix_tail) ← reader_suffix reader header_id_opt k;
  genesis ← ok_or (popow_header_at_height reader GENESIS_HEIGHT) MissingPopowHeader;
  prefix_collected ← prove_prefix fuel reader GENESIS_HEIGHT suffix_head m;
  nipopow_new m k (sort_height (genesis :: new_heights [GENESIS_HEIGHT] prefix_collected)) suffix_head suffix_tail.

(** * Chains whose interlinks are kept up to date *)

Section chains.
Context (lv : PoPowHeader -> Z) (chain : list PoPowHeader).

(** Heights ascend from the genesis on, levels are known, each header names the one before as its parent and has its
    updated interlinks, with proofs that check. *)
Record chain_ok : Prop := {
  ok_heights : heights_ascend (map pp_header chain);
  ok_genesis : exists genesis, chain !! 0%nat = Some genesis /\ height (pp_header genesis) = 1;
  ok_levels : forall p, p ∈ chain -> max_level_of default_algos (pp_header p) = Ok (lv p) /\ 0 <= lv p;
  ok_parents : forall i x y, chain !! i = Some x -> chain !! S i = Some y -> parent_id (pp_header y) = hd_id (pp_header x);
  ok_interlinks : forall i x y, chain !! i = Some x -> chain !! S i = Some y -> update_interlinks (pp_header x) (interlinks x) = Ok (interlinks y);
  ok_proofs : forall p, p ∈ chain -> check_interlinks_proof p = Ok true
}.

Context (Hok : chain_ok).

Lemma chain_height i j x y : chain !! i = Some x -> chain !! j = Some y -> (i < j)%nat -> height (pp_header x) < height (pp_header y).
Proof.
  intros Hi Hj Hij. apply (ascend_lookup _ (ok_heights Hok) i j); [| |done]; rewrite list_lookup_fmap; [by rewrite Hi|by rewrite Hj].
Qed.

Lemma chain_order i j x y : chain !! i = Some x -> chain !! j = Some y -> height (pp_header x) < height (pp_header y) -> (i < j)%nat.
Proof.
  intros Hi Hj Hlt. apply (ascend_positions (map pp_header chain) i j (pp_header x) (pp_header y) (ok_heights Hok)); [| |done];
    rewrite list_lookup_fmap; [by rewrite Hi|by rewrite Hj].
Qed.

(** The interlinks after a header of level [n] above 0: the genesis, and the header in the last [n] places. *)
Lemma updated_interlinks prev genesis rest n : height (pp_header prev) <> 1 -> max_level_of default_algos (pp_header prev) = Ok n -> 0 < n ->
  update_interlinks (pp_header prev) (genesis :: rest) =
    Ok (genesis :: take (length rest - Z.to_nat n) rest ++ replicate (Z.to_nat n) (hd_id (pp_header prev))).
Proof.
  intros Hh Hlev Hn. unfold update_interlinks. rewrite (proj2 (Z.eqb_neq _ _) Hh). cbn [negb head ok_or mbind result_bind]. rewrite Hlev.
  cbn [result_map_err mbind result_bind]. rewrite (proj2 (Z.ltb_lt _ _) Hn). cbn [length drop].
  destruct (Nat.ltb_spec (Z.to_nat n) (S (length rest))).
  - rewrite drop_0. by replace (S (length rest) - Z.to_nat n - 1)%nat with (length rest - Z.to_nat n)%nat by lia.
  - by replace (length rest - Z.to_nat n)%nat with 0%nat by lia.
Qed.

(** Every header that no later one reaches in level is among the interlinks, as many places from the end as its level. *)
Lemma interlinks_at j : forall y, chain !! S j = Some y ->
  exists genesis rest, chain !! 0%nat = Some genesis /\ interlinks y = hd_id (pp_header genesis) :: rest /\
    forall i x, (1 <= i <= j)%nat -> chain !! i = Some x -> 1 <= lv x -> (forall l z, (i < l <= j)%nat -> chain !! l = Some z -> lv z < lv x) ->
      (Z.to_nat (lv x) <= length rest)%nat /\ rest !! (length rest - Z.to_nat (lv x))%nat = Some (hd_id (pp_header x)).
Proof.
  induction j as [|j IH]; intros y Hy; destruct (ok_genesis Hok) as (genesis & Hg & Hg1).
  - pose proof (ok_interlinks Hok 0 genesis y Hg Hy) as E. unfold update_interlinks in E. rewrite Hg1 in E. injection E as <-.
    exists genesis, []. split_and!; [done|done|]. intros i x Hi. lia.
  - destruct (lookup_lt_is_Some_2 chain (S j)) as [prev Hprev]; [apply lookup_lt_Some in Hy; lia|].
    destruct (IH prev Hprev) as (g & rest & Hg' & Er & Hrest). rewrite Hg in Hg'. injection Hg' as <-.
    pose proof (ok_interlinks Hok (S j) prev y Hprev Hy) as E. rewrite Er in E.
    destruct (ok_levels Hok prev ltac:(by eapply list_elem_of_lookup_2)) as [Hlev Hlv0].
    assert (height (pp_header prev) <> 1) as Hh by (pose proof (chain_height 0 (S j) genesis prev Hg Hprev ltac:(lia)); lia).
    destruct (decide (0 < lv prev)) as [Hpos|Hz].
    + rewrite (updated_interlinks prev _ rest (lv prev) Hh Hlev Hpos) in E. injection E as E. exists genesis. eexists. split_and!; [done|by symmetry|].
      intros i x Hi Hx Hx1 Hmax. rewrite length_app, length_take, length_replicate. destruct (decide (i = S j)) as [->|Hne].
      * rewrite Hprev in Hx. injection Hx as <-. split; [lia|].
        rewrite lookup_app_r by (rewrite length_take; lia). rewrite length_take. apply lookup_replicate. split; [done|lia].
      * assert (lv prev < lv x) as Hlt by (apply (Hmax (S j) prev); [lia|done]).
        destruct (Hrest i x ltac:(lia) Hx Hx1) as [Hlen Hat]; [intros l z Hl; apply Hmax; lia|].
        split; [lia|]. rewrite lookup_app_l by (rewrite length_take; lia). rewrite lookup_take_lt by lia.
        rewrite <- Hat. f_equal. lia.
    + assert (interlinks y = hd_id (pp_header genesis) :: rest) as ->.
      { unfold update_interlinks in E. rewrite (proj2 (Z.eqb_neq _ _) Hh) in E. cbn [negb head ok_or mbind result_bind] in E. rewrite Hlev in E.
        cbn [result_map_err mbind result_bind] in E. rewrite (proj2 (Z.ltb_ge _ _)) in E by lia. by injection E. }
      exists genesis, rest. split_and!; [done|done|]. intros i x Hi Hx Hx1 Hmax. destruct (decide (i = S j)) as [->|Hne].
      * rewrite Hprev in Hx. injection Hx as <-. lia.
      * apply (Hrest i x); [lia|done|done|]. intros l z Hl. apply Hmax. lia.
Qed.

(** A header is linked to the one before it, and to one of which no header between reaches the level. *)
Lemma chain_linked i j x y : chain !! i = Some x -> chain !! j = Some y -> (i < j)%nat ->
  (j = S i \/ (1 <= lv x /\ forall l z, (i < l < j)%nat -> chain !! l = Some z -> lv z < lv x)) -> linked y x = true.
Proof.
  intros Hi Hj Hij [->|[Hx Hmax]]; unfold linked; apply orb_true_iff.
  - right. apply bool_decide_eq_true. by apply (ok_parents Hok i).
  - left. apply bool_decide_eq_true. destruct j as [|j]; [lia|]. destruct (interlinks_at j y Hj) as (g & rest & Hg & -> & Hrest).
    destruct (decide (i = 0%nat)) as [->|Hne]; [rewrite Hg in Hi; injection Hi as ->; by left|]. right.
    destruct (Hrest i x ltac:(lia) Hi Hx) as [_ Hat]; [intros l z Hl; apply Hmax; lia|]. by eapply list_elem_of_lookup_2.
Qed.
End chains.

(** * What the prover puts in the prefix *)

Abbreviation ascends l := (heights_ascend (map pp_header l)).

Lemma ascends_cons x l : ascends (x :: l) <-> ascends l /\ forall y, y ∈ l -> height (pp_header x) < height (pp_header y).
Proof.
  unfold heights_ascend. cbn [map]. split.
  - intros [H Hall]%StronglySorted_inv. split; [done|]. intros y Hy. rewrite Forall_forall in Hall. apply Hall.
    apply list_elem_of_fmap. exists (pp_header y). split; [done|]. by apply list_elem_of_fmap_2.
  - intros [H Hall]. constructor; [done|]. apply Forall_forall. intros h (p & -> & (q & -> & Hq)%list_elem_of_fmap)%list_elem_of_fmap. by apply Hall.
Qed.

Lemma ascends_filter (Q : PoPowHeader -> Prop) `{!forall p, Decision (Q p)} l : ascends l -> ascends (filter Q l).
Proof.
  induction l as [|x l IH]; [done|]. intros [Hl Hx]%ascends_cons. rewrite filter_cons. destruct (decide _); [|by apply IH].
  apply ascends_cons. split; [by apply IH|]. intros y [_ Hy]%list_elem_of_filter. by apply Hx.
Qed.

(** The headers from a height on. *)
Abbreviation from a := (filter (fun p : PoPowHeader => a <= height (pp_header p))).

Lemma from_below l : ascends l -> forall i p a, l !! i = Some p -> height (pp_header p) < a -> (length (from a l) + S i <= length l)%nat.
Proof.
  induction l as [|x l IH]; [done|]. intros [Hl Hx]%ascends_cons [|i] p a Hi Ha; cbn in Hi.
  - injection Hi as ->. rewrite filter_cons, decide_False by lia. pose proof (length_filter (fun p : PoPowHeader => a <= height (pp_header p)) l). cbn. lia.
  - assert (height (pp_header x) < height (pp_header p)) by (apply Hx; by eapply list_elem_of_lookup_2).
    rewrite filter_cons, decide_False by lia. specialize (IH Hl i p a Hi Ha). cbn. lia.
Qed.

Lemma from_all l a : (forall p, p ∈ l -> a <= height (pp_header p)) -> length (from a l) = length l.
Proof.
  induction l as [|x l IH]; [done|]. intros H. rewrite filter_cons, decide_True by (apply H; by left). cbn. rewrite IH; [done|]. intros p Hp. apply H. by right.
Qed.

Lemma from_at l : ascends l -> forall j b, l !! j = Some b -> (length l <= length (from (height (pp_header b)) l) + j)%nat.
Proof.
  induction l as [|x l IH]; [done|]. intros [Hl Hx]%ascends_cons [|j] b Hj; cbn in Hj.
  - injection Hj as ->. rewrite filter_cons, decide_True by lia. cbn. rewrite from_all; [lia|]. intros y Hy. specialize (Hx y Hy). lia.
  - specialize (IH Hl j b Hj). rewrite filter_cons. destruct (decide _); cbn; lia.
Qed.

Lemma filter_mono (P Q : PoPowHeader -> Prop) `{!forall p, Decision (P p)} `{!forall p, Decision (Q p)} l :
  (forall p, p ∈ l -> P p -> Q p) -> (length (filter P l) <= length (filter Q l))%nat.
Proof.
  induction l as [|x l IH]; [done|]. intros Himpl.
  assert (length (filter P l) <= length (filter Q l))%nat as Hle by (apply IH; intros p Hp; apply Himpl; by right). assert (P x -> Q x) as Hx by (apply Himpl; by left).
  rewrite !filter_cons. destruct (decide (P x)) as [HP|]; destruct (decide (Q x)) as [|HQ]; cbn; try lia. by destruct (HQ (Hx HP)).
Qed.

Lemma elem_of_add_missing sub : forall prefix p, p ∈ add_missing prefix sub <-> p ∈ prefix \/ p ∈ sub.
Proof.
  unfold add_missing. induction sub as [|x sub IH]; intros prefix p; cbn [fold_left]; [set_solver|].
  rewrite IH. case_bool_decide; set_solver.
Qed.

Lemma add_missing_nodup sub : forall prefix, NoDup prefix -> NoDup (add_missing prefix sub).
Proof.
  unfold add_missing. induction sub as [|x sub IH]; intros prefix H; cbn [fold_left]; [done|]. apply IH. case_bool_decide; [done|].
  apply NoDup_app. split_and!; [done|set_solver|apply NoDup_singleton].
Qed.

Section prefix.
Context (lv : PoPowHeader -> Z) (base : list PoPowHeader) (m : Z).
Context (Hm : 1 <= m) (Hbase : ascends base) (Hlv : forall p, p ∈ base -> max_level_of default_algos (pp_header p) = Ok (lv p)).

Abbreviation superlevel mu := (filter (fun p => mu <= lv p) base).

Lemma sub_chain_spec anchor level :
  sub_chain default_algos base anchor level = Ok (filter (fun p => level <= lv p /\ anchor <= height (pp_header p)) base).
Proof.
  clear Hbase. induction base as [|p l IH]; [done|]. cbn [sub_chain]. rewrite Hlv by by left. cbn [mbind result_bind].
  rewrite IH by (intros q Hq; apply Hlv; by right). cbn [mbind result_bind]. rewrite filter_cons. f_equal.
  destruct (Z.leb_spec level (lv p)), (Z.leb_spec anchor (height (pp_header p))); cbn [andb]; [rewrite decide_True by lia|rewrite decide_False by lia..]; done.
Qed.

(** What is as high in the chain and of a level as high is there too. *)
Definition up_closed (prefix : list PoPowHeader) : Prop :=
  forall x z, x ∈ prefix -> z ∈ base -> lv x <= lv z -> height (pp_header x) <= height (pp_header z) -> z ∈ prefix.

(** The last [m] headers of a level. *)
Definition among_last (mu : Z) (p : PoPowHeader) : Prop :=
  exists i, superlevel mu !! i = Some p /\ (length (superlevel mu) <= i + Z.to_nat m)%nat.

Lemma anchor_moves anchor level (b : PoPowHeader) :
  let sub := filter (fun p => level <= lv p /\ anchor <= height (pp_header p)) base in
  (Z.to_nat m < length sub)%nat -> sub !! (length sub - Z.to_nat m)%nat = Some b ->
  forall mu p, mu <= level -> among_last mu p -> height (pp_header b) <= height (pp_header p).
Proof.
  intros sub Hlen Hb mu p Hmu (i & Hi & Hlast). destruct (decide (height (pp_header b) <= height (pp_header p))) as [|Hlt]; [done|exfalso].
  pose proof (from_below _ (ascends_filter _ _ Hbase) i p (height (pp_header b)) Hi ltac:(lia)) as Hbelow.
  pose proof (from_at sub (ascends_filter _ _ Hbase) _ b Hb) as Hat.
  assert (length (from (height (pp_header b)) sub) <= length (from (height (pp_header b)) (superlevel mu)))%nat as Hle; [|lia].
  unfold sub. rewrite !list_filter_filter. apply filter_mono. intros q _ (H1 & H2 & H3). split; [done|lia].
Qed.

Lemma prefix_loop_spec fuel : forall anchor level prefix,
  (Z.to_nat (level + 1) < fuel)%nat -> (forall mu p, 0 <= mu <= level -> among_last mu p -> height (pp_header anchor) <= height (pp_header p)) ->
  exists prefix', prefix_loop fuel default_algos base m anchor level prefix = Ok prefix' /\
    (forall p, p ∈ prefix -> p ∈ prefix') /\ (NoDup prefix -> NoDup prefix') /\
    ((forall p, p ∈ prefix -> p ∈ base) -> forall p, p ∈ prefix' -> p ∈ base) /\ (up_closed prefix -> up_closed prefix') /\
    (forall mu p, 0 <= mu <= level -> among_last mu p -> p ∈ prefix') /\
    (0 <= level <= lv anchor -> anchor ∈ base -> anchor ∈ prefix').
Proof.
  induction fuel as [|fuel IH]; intros anchor level prefix Hfuel Hanchor; [lia|]. cbn [prefix_loop].
  destruct (Z.leb_spec 0 level) as [Hpos|Hneg]; [|by exists prefix; split_and!; try done; intros; lia].
  rewrite sub_chain_spec. cbn [result_map_err mbind result_bind]. set (sub := filter _ base).
  assert (exists anchor', (if m <? Z.of_nat (length sub) then ok_or (sub !! (length sub - Z.to_nat m)%nat) NipopowPanic else Ok anchor) = Ok anchor' /\
    forall mu p, 0 <= mu <= level - 1 -> among_last mu p -> height (pp_header anchor') <= height (pp_header p)) as (anchor' & -> & Hanchor').
  { destruct (Z.ltb_spec m (Z.of_nat (length sub))).
    - destruct (lookup_lt_is_Some_2 sub (length sub - Z.to_nat m)) as [b Hb]; [lia|]. exists b. rewrite Hb. split; [done|].
      intros mu p Hmu. apply (anchor_moves (height (pp_header anchor)) level b); [fold sub; lia|exact Hb|lia].
    - exists anchor. split; [done|]. intros mu p Hmu. apply Hanchor. lia. }
  cbn [mbind result_bind].
  destruct (IH anchor' (level - 1) (add_missing prefix sub) ltac:(lia) Hanchor') as (prefix' & -> & H1 & H2 & H3 & H4 & H5 & _).
  exists prefix'. assert (forall p, p ∈ sub -> p ∈ prefix') as Hsub by (intros p Hp; apply H1, elem_of_add_missing; by right).
  split_and!; [done| | | | | |].
  - intros p Hp. apply H1, elem_of_add_missing. by left.
  - intros Hn. by apply H2, add_missing_nodup.
  - intros Hin. apply H3. intros p [Hp|Hp]%elem_of_add_missing; [by apply Hin|]. by apply list_elem_of_filter in Hp as [_ Hp].
  - intros Hup. apply H4. intros x z [Hx|Hx]%elem_of_add_missing Hz Hl Hh; apply elem_of_add_missing; [left; by eapply Hup|right].
    unfold sub in *. apply list_elem_of_filter in Hx as [[Hx1 Hx2] _]. apply list_elem_of_filter. split; [lia|done].
  - intros mu p Hmu Hp. destruct (decide (mu = level)) as [->|]; [|apply (H5 mu); [lia|done]]. apply Hsub.
    destruct Hp as (i & Hi & Hlast). pose proof (list_elem_of_lookup_2 _ _ _ Hi) as [Hp1 Hp2]%list_elem_of_filter.
    apply list_elem_of_filter. split; [|done]. split; [done|]. apply (Hanchor level); [lia|]. by exists i.
  - intros Hl Hin. apply Hsub, list_elem_of_filter. split; [lia|done].
Qed.
End prefix.

(** * The proof is valid *)

Lemma insert_height_perm p l : insert_height p l ≡ₚ p :: l.
Proof.
  induction l as [|q l IH]; [done|]. cbn [insert_height]. destruct (_ <=? _); [done|]. rewrite IH. apply Permutation_swap.
Qed.

Lemma sort_height_perm l : sort_height l ≡ₚ l.
Proof. induction l as [|p l IH]; [done|]. unfold sort_height in *. cbn [foldr]. by rewrite insert_height_perm, IH. Qed.

(** Different heights are sorted to ascending ones. *)
Lemma sort_height_ascends l : (forall x y, x ∈ l -> y ∈ l -> height (pp_header x) = height (pp_header y) -> x = y) -> NoDup l -> ascends (sort_height l).
Proof.
  induction l as [|p l IH]; intros Hinj Hn; [constructor|]. apply NoDup_cons in Hn as [Hp Hn]. unfold sort_height in *. cbn [foldr].
  assert (ascends (foldr insert_height [] l)) as Hl by (apply IH; [intros x y Hx Hy; apply Hinj; by right|done]).
  assert (forall q, q ∈ foldr insert_height [] l -> height (pp_header q) <> height (pp_header p)) as Hne.
  { intros q Hq E. assert (q ∈ l) as Hq' by (by rewrite <- (sort_height_perm l)). apply Hp. rewrite <- (Hinj q p); [done|by right|by left|done]. }
  revert Hl Hne. generalize (foldr insert_height [] l). clear. intros s. induction s as [|q s IH]; intros Hs Hne; [apply ascends_cons; split; [constructor|intros y Hy; by apply not_elem_of_nil in Hy]|].
  cbn [insert_height]. pose proof (Hne q ltac:(by left)) as Hq. pose proof (proj1 (ascends_cons q s) Hs) as [Hs' Hqs]. destruct (Z.leb_spec (height (pp_header p)) (height (pp_header q))).
  - apply ascends_cons. split; [done|]. intros y [->|Hy]%elem_of_cons; [lia|]. specialize (Hqs y Hy). lia.
  - apply ascends_cons. split; [apply IH; [done|intros y Hy; apply Hne; by right]|]. intros y Hy. rewrite insert_height_perm in Hy.
    apply elem_of_cons in Hy as [->|Hy]; [lia|by apply Hqs].
Qed.

Lemma ascends_app l r : ascends l -> ascends r -> (forall x y, x ∈ l -> y ∈ r -> height (pp_header x) < height (pp_header y)) -> ascends (l ++ r).
Proof.
  induction l as [|p l IH]; intros Hl Hr Hlr; [done|]. apply ascends_cons in Hl as [Hl Hp]. cbn [app]. apply ascends_cons. split.
  - apply IH; [done|done|]. intros x y Hx. apply Hlr. by right.
  - intros y [Hy|Hy]%elem_of_app; [by apply Hp|]. apply Hlr; [by left|done].
Qed.

Lemma ascend_zip (c : list Header) : heights_ascend c -> forallb (fun '(prev, next) => height prev <? height next) (zip c (tail c)) = true.
Proof.
  induction c as [|x c IH]; [done|]. intros H. unfold heights_ascend in H. cbn [map] in H. apply StronglySorted_inv in H as [H Hx].
  destruct c as [|y c]; [done|]. cbn [tail zip zip_with forallb]. apply andb_true_iff. split; [|by apply IH]. cbn in Hx. apply Forall_cons in Hx as [Hx _]. by apply Z.ltb_lt.
Qed.

Lemma ascends_app_inv l r : ascends (l ++ r) -> ascends l /\ ascends r.
Proof.
  induction l as [|p l IH]; cbn [app]; [split; [constructor|done]|]. intros [H Hp]%ascends_cons. destruct (IH H) as [Hl Hr]. split; [|done].
  apply ascends_cons. split; [done|]. intros y Hy. apply Hp, elem_of_app. by left.
Qed.

(** A packable list is short. *)
Lemma packable_loop_short ids : forall position current run_length, packable_loop ids position current run_length = true ->
  1 <= run_length <= 255 -> Z.of_nat position - run_length <= 255 -> Z.of_nat (position + length ids) <= 510.
Proof.
  induction ids as [|id ids IH]; intros position current run_length H Hr Hp; [cbn; lia|]. cbn [packable_loop] in H. case_bool_decide.
  - destruct (Z.eqb_spec run_length 255); [done|]. specialize (IH _ _ _ H ltac:(lia) ltac:(lia)). cbn [length]. lia.
  - destruct (Nat.ltb_spec 255 position); [done|]. specialize (IH _ _ _ H ltac:(lia) ltac:(lia)). cbn [length]. lia.
Qed.

Lemma checked_short p : check_interlinks_proof p = Ok true -> (length (interlinks p) <= 510)%nat.
Proof.
  unfold check_interlinks_proof. destruct (interlinks p) as [|id ids] eqn:E; [cbn; lia|]. destruct (packable (id :: ids)) eqn:Hp; [|done]. intros _.
  pose proof (packable_loop_short ids 1 id 1 Hp ltac:(lia) ltac:(lia)). cbn [length] in *. lia.
Qed.

Section valid.
Context (lv : PoPowHeader -> Z) (chain : list PoPowHeader).
Context (Hok : chain_ok lv chain).

Lemma same_height x y : x ∈ chain -> y ∈ chain -> height (pp_header x) = height (pp_header y) -> x = y.
Proof.
  intros [i Hi]%list_elem_of_lookup [j Hj]%list_elem_of_lookup E. destruct (Nat.lt_trichotomy i j) as [Hij|[->|Hji]].
  - pose proof (chain_height lv chain Hok i j x y Hi Hj Hij). lia.
  - rewrite Hi in Hj. by injection Hj.
  - pose proof (chain_height lv chain Hok j i y x Hj Hi Hji). lia.
Qed.

Lemma suffix_linked i : forall x, chain !! i = Some x -> suffix_connections (pp_header x) (map pp_header (drop (S i) chain)) = true.
Proof.
  remember (length chain - i)%nat as n eqn:En. revert i En. induction n as [|n IH]; intros i En x Hx; [apply lookup_lt_Some in Hx; lia|].
  destruct (chain !! S i) as [y|] eqn:Ey; [|rewrite drop_ge by (by apply lookup_ge_None); done].
  rewrite (drop_S chain y (S i) Ey). cbn [map]. unfold suffix_connections. cbn [zip zip_with forallb]. apply andb_true_iff. split.
  - apply bool_decide_eq_true. by apply (ok_parents lv chain Hok i).
  - apply (IH (S i)); [lia|done].
Qed.

Context (split : nat) (suffix_head : PoPowHeader) (prefix : list PoPowHeader).
Context (Hsplit : chain !! split = Some suffix_head).
Context (Hin : forall p, p ∈ prefix -> p ∈ take split chain) (Hn : NoDup prefix) (Hup : up_closed lv (take split chain) prefix).

Lemma in_base p : p ∈ take split chain <-> exists i, chain !! i = Some p /\ (i < split)%nat.
Proof.
  rewrite list_elem_of_lookup. split.
  - intros (i & Hi). exists i. destruct (decide (i < split)%nat) as [Hlt|]; [by rewrite lookup_take_lt in Hi|].
    rewrite lookup_take_ge in Hi by lia. done.
  - intros (i & Hi & Hlt). exists i. by rewrite lookup_take_lt.
Qed.

Lemma proof_ascends : ascends (sort_height prefix ++ drop split chain).
Proof.
  apply ascends_app.
  - apply sort_height_ascends; [|done]. intros x y [i [Hi _]]%Hin%in_base [j [Hj _]]%Hin%in_base. apply same_height; by eapply list_elem_of_lookup_2.
  - apply (ascends_app_inv (take split chain)). rewrite take_drop. apply Hok.
  - intros x y Hx (j & Hj)%list_elem_of_lookup. rewrite sort_height_perm in Hx. apply Hin, in_base in Hx as (i & Hi & Hlt). rewrite lookup_drop in Hj.
    apply (chain_height lv chain Hok i (split + j)); [done|done|lia].
Qed.

Lemma prefix_ascends : ascends (sort_height prefix ++ [suffix_head]).
Proof.
  pose proof proof_ascends as H. rewrite (drop_S chain suffix_head split Hsplit) in H. change (suffix_head :: ?t) with ([suffix_head] ++ t) in H.
  rewrite app_assoc in H. by apply ascends_app_inv in H as [H _].
Qed.

(** The genesis comes first. *)
Lemma genesis_first genesis : chain !! 0%nat = Some genesis -> genesis ∈ prefix -> head (sort_height prefix) = Some genesis.
Proof.
  intros Hg Hgp. pose proof proof_ascends as [H _]%ascends_app_inv. rewrite <- (sort_height_perm prefix) in Hgp.
  destruct (sort_height prefix) as [|x l] eqn:E; [by apply not_elem_of_nil in Hgp|]. apply elem_of_cons in Hgp as [->|Hgl]; [done|exfalso].
  apply ascends_cons in H as [_ H]. specialize (H genesis Hgl). assert (x ∈ prefix) as (i & Hi & _)%Hin%in_base by (rewrite <- (sort_height_perm prefix), E; by left).
  pose proof (chain_order lv chain Hok i 0 x genesis Hi Hg H). lia.
Qed.

Lemma prefix_linked span : (1 <= span)%nat -> prefix_connections span (sort_height prefix ++ [suffix_head]) = true.
Proof.
  intros Hspan. set (l := sort_height prefix ++ [suffix_head]). pose proof prefix_ascends as Hl. fold l in Hl.
  assert (forall p, p ∈ l -> exists i, chain !! i = Some p /\ (i <= split)%nat) as Hchain.
  { intros p [Hp| ->%list_elem_of_singleton]%elem_of_app; [|by exists split]. rewrite sort_height_perm in Hp. apply Hin, in_base in Hp as (i & Hi & Hlt).
    exists i. split; [done|lia]. }
  unfold prefix_connections. apply forallb_forall. intros c [Hc1 Hc2]%in_seq. destruct c as [|c]; [lia|].
  destruct (lookup_lt_is_Some_2 l (S c) ltac:(lia)) as [y Hy]. destruct (lookup_lt_is_Some_2 l c ltac:(lia)) as [x Hx]. rewrite Hy.
  apply existsb_exists. exists c. split; [apply in_rev; rewrite rev_involutive; apply in_seq; lia|]. rewrite Hx.
  destruct (Hchain x ltac:(by eapply list_elem_of_lookup_2)) as (i & Hi & _). destruct (Hchain y ltac:(by eapply list_elem_of_lookup_2)) as (j & Hj & Hjs).
  assert (height (pp_header x) < height (pp_header y)) as Hxy.
  { apply (ascend_lookup _ Hl c (S c)); [| |lia]; rewrite list_lookup_fmap; [by rewrite Hx|by rewrite Hy]. }
  pose proof (chain_order lv chain Hok i j x y Hi Hj Hxy) as Hij. apply (chain_linked lv chain Hok i j x y Hi Hj Hij).
  destruct (decide (j = S i)) as [|Hne]; [by left|right].
  assert (forall l z, (i < l < j)%nat -> chain !! l = Some z -> lv z < lv x) as Hbelow.
  { intros k z Hk Hz. destruct (decide (lv z < lv x)) as [|Hge]; [done|exfalso].
    pose proof (chain_height lv chain Hok i k x z Hi Hz ltac:(lia)) as H1. pose proof (chain_height lv chain Hok k j z y Hz Hj ltac:(lia)) as H2.
    assert (x ∈ prefix) as Hxp.
    { assert (x ∈ l) as Hxl by by eapply list_elem_of_lookup_2. apply elem_of_app in Hxl as [Hxl|Hxl]; [by rewrite sort_height_perm in Hxl|].
      apply list_elem_of_singleton in Hxl as ->. pose proof (chain_order lv chain Hok split j suffix_head y Hsplit Hj Hxy). lia. }
    assert (z ∈ prefix) as Hzp by (apply (Hup x z); [done|apply in_base; exists k; split; [done|lia]|lia|lia]).
    assert (z ∈ l) as (d & Hd)%list_elem_of_lookup by (apply elem_of_app; left; by rewrite sort_height_perm).
    assert (forall a b p q, l !! a = Some p -> l !! b = Some q -> height (pp_header p) < height (pp_header q) -> (a < b)%nat) as Hpos.
    { intros a b p q Ha Hb Hlt. apply (ascend_positions (map pp_header l) a b (pp_header p) (pp_header q) Hl); [| |done]; rewrite list_lookup_fmap; [by rewrite Ha|by rewrite Hb]. }
    pose proof (Hpos c d x z Hx Hd H1). pose proof (Hpos d (S c) z y Hd Hy H2). lia. }
  split; [|exact Hbelow]. destruct (lookup_lt_is_Some_2 chain (S i)) as [z Hz]; [apply lookup_lt_Some in Hj; lia|].
  pose proof (Hbelow (S i) z ltac:(lia) Hz). destruct (ok_levels lv chain Hok z ltac:(by eapply list_elem_of_lookup_2)). lia.
Qed.

Lemma all_checked l : (forall p, p ∈ l -> check_interlinks_proof p = Ok true) -> all_proofs l = Ok true.
Proof.
  induction l as [|p l IH]; [done|]. intros H. cbn [all_proofs]. rewrite H by by left. cbn [mbind result_bind]. apply IH. intros q Hq. apply H. by right.
Qed.

(** Such a prefix and the rest of the chain pass all checks. *)
Lemma made_valid k m : 1 <= k -> 1 <= m -> k + m <= I32_MAX ->
  is_valid (mkNipopow default_algos m k (sort_height prefix) suffix_head (map pp_header (drop (S split) chain))) = Ok true.
Proof.
  intros Hk Hm Hmax. set (proof := mkNipopow _ _ _ _ _ _). unfold is_valid.
  assert (has_valid_params proof = true) as -> by (unfold has_valid_params; cbn; by rewrite !(proj2 (Z.leb_le _ _)) by lia).
  assert (has_valid_connections proof = true) as ->.
  { unfold has_valid_connections. cbn [proof NipopowVerify.prefix NipopowVerify.suffix_head suffix_tail]. by rewrite prefix_linked, (suffix_linked split) by (done || lia). }
  assert (headers_chain proof = map pp_header (sort_height prefix ++ drop split chain)) as Ehc.
  { unfold headers_chain. cbn [proof NipopowVerify.prefix NipopowVerify.suffix_head suffix_tail]. by rewrite (drop_S chain suffix_head split Hsplit), map_app. }
  unfold has_valid_heights. rewrite Ehc, ascend_zip by apply proof_ascends. cbn [andb]. apply all_checked.
  cbn [proof NipopowVerify.prefix NipopowVerify.suffix_head]. intros p [->|Hp]%elem_of_cons; apply (ok_proofs lv chain Hok); [by eapply list_elem_of_lookup_2|].
  rewrite sort_height_perm in Hp. apply Hin, in_base in Hp as (i & Hi & _). by eapply list_elem_of_lookup_2.
Qed.
End valid.

(** No header between the genesis and the one before has a level above the number of interlinks. *)
Lemma level_bound lv chain : chain_ok lv chain -> forall j y, chain !! S j = Some y ->
  exists n, length (interlinks y) = S n /\ forall i x, (1 <= i <= j)%nat -> chain !! i = Some x -> lv x <= Z.of_nat n.
Proof.
  intros Hok j y Hy. destruct (interlinks_at lv chain Hok j y Hy) as (g & rest & _ & E & Hrest). exists (length rest). split; [by rewrite E|].
  intros i x. remember (j - i)%nat as d eqn:Ed. revert i x Ed. induction (lt_wf d) as [d _ IH]. intros i x Ed Hi Hx. destruct (decide (1 <= lv x)) as [Hx1|]; [|lia].
  destruct (decide (Exists (fun z => lv x <= lv z) (drop (S i) (take (S j) chain)))) as [He|Hne].
  - apply Exists_exists in He as (z & (l & Hl)%list_elem_of_lookup & Hlz). rewrite lookup_drop in Hl.
    assert (S i + l < S j)%nat as Hlt. { apply lookup_lt_Some in Hl. rewrite length_take in Hl. lia. }
    rewrite lookup_take_lt in Hl by lia. specialize (IH (j - (S i + l))%nat ltac:(lia) (S i + l)%nat z eq_refl ltac:(lia) Hl). lia.
  - destruct (Hrest i x Hi Hx Hx1) as [Hlen _]; [|lia]. intros l z Hl Hz. destruct (decide (lv z < lv x)) as [|Hge]; [done|exfalso].
    apply Hne, Exists_exists. exists z. split; [|lia]. apply list_elem_of_lookup. exists (l - S i)%nat. rewrite lookup_drop.
    replace (S i + (l - S i))%nat with l by lia. rewrite lookup_take_lt by lia. done.
Qed.

(** What the prover returns where none of its checks fails. *)
Lemma prove_runs chain k m genesis sh lastp n pre : let split := (length chain - Z.to_nat k)%nat in
  1 <= k -> 1 <= m -> k + m <= I32_MAX -> k + m <= Z.of_nat (length chain) ->
  chain !! 0%nat = Some genesis -> height (pp_header genesis) = 1 -> chain !! split = Some sh ->
  last (take split chain) = Some lastp -> length (interlinks lastp) = S n -> Z.of_nat n < 2 ^ 31 ->
  prefix_loop (S (Z.to_nat (Z.of_nat n + 1))) default_algos (take split chain) m genesis (Z.of_nat n) [] = Ok pre ->
  prove default_algos chain k m = Ok (mkNipopow default_algos m k (sort_height pre) sh (map pp_header (drop (S split) chain))).
Proof.
  intros split Hk Hm Hmax Hlen Hg Hg1 Hsh Hlast En Hn Epre. unfold prove. assert (forall b (e : NipopowProofError), b = true -> guard_or b e = Ok tt) as Hguard by by intros b e ->.
  rewrite !Hguard; cbn [mbind result_bind]; try (apply negb_true_iff, Z.eqb_neq; lia); [|apply Z.ltb_lt; unfold I32_MAX in *; lia|apply negb_true_iff, Z.ltb_ge; lia].
  rewrite head_lookup, Hg. cbn [ok_or mbind result_bind]. rewrite Hguard by (by apply Z.eqb_eq). cbn [mbind result_bind]. fold split. rewrite Hsh. cbn [ok_or mbind result_bind].
  rewrite (proj2 (Nat.ltb_lt _ _)) by lia. rewrite Hlast. cbn [ok_or mbind result_bind]. rewrite En. cbn [Nat.eqb mbind result_bind].
  replace (wrap_s 32 (Z.of_nat (S n) - 1)) with (Z.of_nat n) by (rewrite wrap_s_id; unfold in_s; lia).
  cbn [mbind result_bind]. rewrite Epre. cbn [mbind result_bind]. unfold nipopow_new. by rewrite (proj2 (Z.eqb_neq _ _)), (proj2 (Z.leb_le _ _)) by lia.
Qed.

(** C20: on a chain that keeps its interlinks, of more than [k + 1] and at least [k + m] headers, the prover makes a proof
    that the verifier's checks accept. It ends in the chain's last [k] headers, starts with the genesis, takes its prefix
    from the headers before, and has of every level the last [m] of these. *)
Theorem prove_valid (lv : PoPowHeader -> Z) (chain : list PoPowHeader) (k m : Z) :
  chain_ok lv chain -> 1 <= k -> 1 <= m -> k + m <= I32_MAX -> k + m <= Z.of_nat (length chain) -> k + 2 <= Z.of_nat (length chain) ->
  let split := (length chain - Z.to_nat k)%nat in
  exists proof, prove default_algos chain k m = Ok proof /\ is_valid proof = Ok true /\
    pp_header (suffix_head proof) :: suffix_tail proof = map pp_header (drop split chain) /\
    head (headers_chain proof) = pp_header <$> head chain /\
    (forall p, p ∈ prefix proof -> p ∈ take split chain) /\
    (forall mu p, 0 <= mu -> among_last lv (take split chain) m mu p -> p ∈ prefix proof).
Proof.
  intros Hok Hk Hm Hmax Hlen Hlen2 split. set (base := take split chain).
  destruct (ok_genesis lv chain Hok) as (genesis & Hg & Hg1). assert (split < length chain)%nat as Hsl by (unfold split; lia).
  destruct (lookup_lt_is_Some_2 chain split Hsl) as [sh Hsh]. assert (2 <= split)%nat as Hs2 by (unfold split; lia).
  destruct (lookup_lt_is_Some_2 chain (split - 1) ltac:(lia)) as [lastp Hlast].
  replace (split - 1)%nat with (S (split - 2)) in Hlast by lia. destruct (level_bound lv chain Hok (split - 2) lastp Hlast) as (n & En & Hbound).
  assert (lastp ∈ chain) as Hlc by by eapply list_elem_of_lookup_2. assert (genesis ∈ chain) as Hgc by by eapply list_elem_of_lookup_2.
  pose proof (checked_short lastp (ok_proofs lv chain Hok lastp Hlc)) as Hshort.
  assert (lv genesis = I32_MAX) as Hlg.
  { destruct (ok_levels lv chain Hok genesis Hgc) as [E _]. unfold max_level_of in E. rewrite Hg1 in E. by injection E. }
  assert (forall p, p ∈ base -> p ∈ chain) as Hsub by (intros p (i & Hi & _)%in_base; by eapply list_elem_of_lookup_2).
  assert (ascends base) as Hbase by (apply (ascends_app_inv base (drop split chain)); unfold base; rewrite take_drop; apply Hok).
  destruct (prefix_loop_spec lv base m Hm Hbase (fun p Hp => proj1 (ok_levels lv chain Hok p (Hsub p Hp))) (S (Z.to_nat (Z.of_nat n + 1))) genesis (Z.of_nat n) [])
    as (pre & Epre & _ & Hnodup & Hin & Hup & Hquality & Hgen); [lia| |].
  { intros mu p _ (i & Hi & _). assert (p ∈ base) as (j & Hj & _)%in_base by (apply list_elem_of_lookup_2 in Hi; by apply list_elem_of_filter in Hi as [_ Hi]).
    destruct (decide (j = 0%nat)) as [->|]; [rewrite Hg in Hj; injection Hj as ->; lia|].
    pose proof (chain_height lv chain Hok 0 j genesis p Hg Hj ltac:(lia)). lia. }
  specialize (Hnodup (NoDup_nil_2)). specialize (Hin ltac:(intros p Hp; by apply not_elem_of_nil in Hp)).
  specialize (Hup ltac:(intros x z Hx; by apply not_elem_of_nil in Hx)).
  assert (genesis ∈ base) as Hgb by (apply in_base; exists 0%nat; split; [done|lia]). specialize (Hgen ltac:(unfold I32_MAX in *; lia) Hgb).
  exists (mkNipopow default_algos m k (sort_height pre) sh (map pp_header (drop (S split) chain))). split_and!.
  - apply (prove_runs chain k m genesis sh lastp n pre); try done; [|lia]. fold split. rewrite last_lookup, length_take.
    replace (Init.Nat.pred (split `min` length chain)) with (S (split - 2)) by lia. by rewrite lookup_take_lt by lia.
  - by apply (made_valid lv chain Hok split sh pre Hsh Hin Hnodup Hup).
  - cbn [suffix_head suffix_tail]. by rewrite (drop_S chain sh split Hsh).
  - unfold headers_chain. cbn [prefix suffix_head suffix_tail]. pose proof (genesis_first lv chain Hok split pre Hin Hnodup genesis Hg Hgen) as Hf.
    destruct (sort_height pre) as [|x l]; [done|]. injection Hf as ->. rewrite (head_lookup chain), Hg. done.
  - cbn [prefix]. intros p Hp. apply Hin. by rewrite sort_height_perm in Hp.
  - cbn [prefix]. intros mu p Hmu Hp. rewrite sort_height_perm. destruct (decide (mu <= Z.of_nat n)) as [|Hbig]; [by apply (Hquality mu)|].
    destruct Hp as (i & Hi & _). apply list_elem_of_lookup_2, list_elem_of_filter in Hi as [Hmup (j & Hj & Hjs)%in_base].
    destruct (decide (j = 0%nat)) as [->|Hj0]; [rewrite Hg in Hj; by injection Hj as <-|].
    destruct (decide (j = S (split - 2))) as [->|Hj1]; [|specialize (Hbound j p ltac:(lia) Hj); lia].
    apply (Hquality 0); [lia|]. exists (S (split - 2)).
    assert (filter (fun p => 0 <= lv p) base = base) as ->.
    { clear -Hsub Hok. induction base as [|x l IH]; [done|]. rewrite filter_cons, decide_True by (apply (ok_levels lv chain Hok), Hsub; by left).
      f_equal. apply IH. intros q Hq. apply Hsub. by right. }
    unfold base. rewrite length_take. split; [by rewrite lookup_take_lt by lia|lia].
Qed.
End prove.

(** * Concrete inputs *)

Abbreviation height := Header.height.

(** A header with interlinks and the proof of them in an extension that has nothing else. *)
Definition popow_at (h : Header) (ids : list BlockId) : PoPowHeader :=
  mkPoPowHeader h ids
    match pack_interlinks ids with
    | Ok fs => match proof_for_interlink_vector (mkExtension fs) with Ok (Some p) => p | _ => mkBatch [] [] end
    | Err _ => mkBatch [] []
    end.

(** Five headers after one another; the second has level 1, the fourth level 2. *)
Definition sample_popow : list PoPowHeader :=
  let id n := replicate 32 n in
  [popow_at (header_at 1 0 1 1) []; popow_at (header_at 2 1 2 (2 ^ 254)) [id 1]; popow_at (header_at 3 2 3 (2 ^ 255)) [id 1; id 2];
   popow_at (header_at 4 3 4 (2 ^ 253)) [id 1; id 2]; popow_at (header_at 5 4 5 (2 ^ 255)) [id 1; id 4; id 4]].

Definition level_of (p : PoPowHeader) : Z := match max_level_of (F := floor_log) default_algos (pp_header p) with Ok l => l | Err _ => 0 end.

Definition step_ok (p : PoPowHeader * PoPowHeader) : bool :=
  bool_decide (parent_id (pp_header p.2) = hd_id (pp_header p.1)) &&
  match update_interlinks (F := floor_log) (pp_header p.1) (interlinks p.1) with Ok ids => bool_decide (ids = interlinks p.2) | Err _ => false end.
Definition header_checked (p : PoPowHeader) : bool :=
  match max_level_of (F := floor_log) default_algos (pp_header p) with Ok l => 0 <=? l | Err _ => false end &&
  match check_interlinks_proof p with Ok b => b | Err _ => false end.

Lemma chain_checked chain : forallb header_checked chain && forallb step_ok (zip chain (tail chain)) &&
    forallb (fun '(prev, next) => height prev <? height next) (zip (map pp_header chain) (tail (map pp_header chain))) &&
    match chain with g :: _ => height (pp_header g) =? 1 | [] => false end = true ->
  chain_ok (F := floor_log) level_of chain.
Proof.
  intros [[[Hc Hs]%andb_true_iff Hh]%andb_true_iff Hg]%andb_true_iff. rewrite forallb_forall in Hc, Hs.
  assert (forall p, p ∈ chain -> header_checked p = true) as Hp by (intros p Hp; apply Hc; by apply list_elem_of_In).
  assert (forall i x y, chain !! i = Some x -> chain !! S i = Some y -> step_ok (x, y) = true) as Hstep.
  { intros i x y Hx Hy. apply Hs, list_elem_of_In, list_elem_of_lookup. exists i. apply lookup_zip_with_Some. exists x, y. split_and!; [done|done|].
    destruct chain; [done|]. exact Hy. }
  split.
  - by apply zip_ascend.
  - destruct chain as [|g l]; [done|]. exists g. split; [done|by apply Z.eqb_eq].
  - intros p Hin. specialize (Hp p Hin). apply andb_true_iff in Hp as [Hp _]. unfold level_of. destruct (max_level_of _ _); [|done]. split; [done|by apply Z.leb_le].
  - intros i x y Hx Hy. specialize (Hstep i x y Hx Hy). apply andb_true_iff in Hstep as [H _]. by apply bool_decide_eq_true in H.
  - intros i x y Hx Hy. specialize (Hstep i x y Hx Hy). apply andb_true_iff in Hstep as [_ H]. cbn [fst snd] in H.
    destruct (update_interlinks _ _); [|done]. by apply bool_decide_eq_true in H as ->.
  - intros p Hin. specialize (Hp p Hin). apply andb_true_iff in Hp as [_ Hp]. by destruct (check_interlinks_proof p) as [[]|].
Qed.

Lemma prove_valid_witness :
  exists proof, prove (F := floor_log) default_algos sample_popow 1 1 = Ok proof /\ is_valid proof = Ok true /\
    map (fun p => height (pp_header p)) (prefix proof) = [1; 2; 4] /\ height (pp_header (suffix_head proof)) = 5.
Proof.
  destruct (prove_valid (F := floor_log) level_of sample_popow 1 1) as (proof & E & Hv & _).
  - apply chain_checked. vm_compute. reflexivity.
  - lia.
  - lia.
  - unfold I32_MAX. lia.
  - cbn. lia.
  - cbn. lia.
  - exists proof. split; [exact E|]. split; [exact Hv|].
    assert (match prove (F := floor_log) default_algos sample_popow 1 1 with
      | Ok proof => bool_decide (map (fun p => height (pp_header p)) (prefix proof) = [1; 2; 4]) && (height (pp_header (suffix_head proof)) =? 5) | Err _ => false end = true) as Ec
      by (vm_compute; reflexivity).
    rewrite E in Ec. apply andb_true_iff in Ec as [H1%bool_decide_eq_true H2%Z.eqb_eq]. split; [exact H1|exact H2].
Defined.

(** * What modelling showed *)

Section findings.
Context `{C : SigmaCrypto} {B : NumBigint} {M : ScalarModulus} {F : F64}.

(** A chain of one header more than the suffix, whose genesis has no interlinks: the number of its levels underflows. *)
Lemma prove_underflow (genesis tip : PoPowHeader) : height (pp_header genesis) = 1 -> interlinks genesis = [] ->
  prove default_algos [genesis; tip] 1 1 = Err NipopowPanic.
Proof.
  intros Hh Hi. unfold prove. change (guard_or (1 + 1 <? 2 ^ 32) NipopowPanic) with (@Ok NipopowProofError unit tt). cbn. rewrite Hh.
  change (Z.to_nat 1) with 1%nat. cbn. by rewrite Hi.
Qed.

(** A store whose header of an id has itself among its interlinks: the walk never ends, whatever the fuel. *)
Lemma collect_level_loops (reader : PopowHeaderReader) (ph : PoPowHeader) (id genesis : BlockId) (anchoring_height : Z) :
  popow_header_by_id reader id = Some ph -> interlinks ph = [genesis; id] -> anchoring_height <= height (pp_header ph) ->
  forall fuel walked, collect_level fuel reader id 0 anchoring_height walked = Err NipopowOutOfFuel.
Proof.
  intros Hr Hi Hh fuel. induction fuel as [|fuel IH]; intros walked; [done|]. cbn [collect_level]. rewrite Hr. cbn [ok_or mbind result_bind].
  rewrite (proj2 (Z.ltb_ge _ _)) by done. unfold previous_header_id_at_level. rewrite Hi. cbn. apply IH.
Qed.

(** It ends where interlinks lead to lower headers. *)
Lemma collect_level_ends (reader : PopowHeaderReader) (level : nat) (anchoring_height : Z) :
  (forall id ph next, popow_header_by_id reader id = Some ph -> previous_header_id_at_level level ph = Some next ->
    forall ph', popow_header_by_id reader next = Some ph' -> 0 <= height (pp_header ph') < height (pp_header ph)) ->
  forall fuel id walked, (forall ph, popow_header_by_id reader id = Some ph -> (S (Z.to_nat (height (pp_header ph))) < fuel)%nat) -> (0 < fuel)%nat ->
    collect_level fuel reader id level anchoring_height walked <> Err NipopowOutOfFuel.
Proof.
  intros Hdown fuel. induction fuel as [|fuel IH]; intros id walked Hfuel Hpos; [lia|]. cbn [collect_level].
  destruct (popow_header_by_id reader id) as [ph|] eqn:Er; cbn [ok_or mbind result_bind]; [|done]. specialize (Hfuel ph eq_refl).
  destruct (_ <? _); [done|]. destruct (previous_header_id_at_level level ph) as [next|] eqn:En; [|done].
  destruct (popow_header_by_id reader next) as [ph'|] eqn:Er'.
  - pose proof (Hdown id ph next Er En ph' Er'). apply IH; [intros x Hx; rewrite Er' in Hx; injection Hx as <-|]; lia.
  - apply IH; [intros x Hx; by rewrite Er' in Hx|lia].
Qed.

(** Reading with [m] zero: the prover on a chain refuses it, this one looks behind the end of a level. *)
Lemma reader_zero_panics (fuel : nat) (reader : PopowHeaderReader) (id : BlockId) (level : nat) (rest : list (BlockId * nat)) (anchoring_height : Z)
    (level_headers : list PoPowHeader) : level_headers <> [] ->
  collect_level fuel reader id level anchoring_height [] = Ok level_headers ->
  prove_levels fuel reader 0 ((id, level) :: rest) anchoring_height [] = Err NipopowPanic.
Proof.
  intros Hne E. cbn [prove_levels]. rewrite E. cbn [mbind result_bind]. rewrite (proj2 (Z.ltb_lt _ _)) by (destruct level_headers; [done|cbn; lia]).
  rewrite Nat.sub_0_r, lookup_ge_None_2 by lia. done.
Qed.

(** The check of interlinks does not look at the header: whatever extension its root stands for. *)
Lemma interlinks_unbound (h h' : Header) (ids : list BlockId) (proof : BatchMerkleProof) :
  check_interlinks_proof (mkPoPowHeader h ids proof) = check_interlinks_proof (mkPoPowHeader h' ids proof).
Proof. done. Qed.

(** A difficulty of zero panics when the level of a header is computed. *)
Lemma zero_difficulty_panics (algos : NipopowAlgos) (h : Header) : height h <> 1 -> n_bits h = 0 -> max_level_of algos h = Err PowPanic.
Proof. intros Hh Hn. unfold max_level_of. by rewrite (proj2 (Z.eqb_neq _ _) Hh), Hn. Qed.
End findings.
